(* ===== verification/_CoqProject ===== *)
-Q . S2P
Prelude.v
Eth.v
Frame.v
Channel.v
Stages.v
ChannelBank.v
Solabi.v
SystemConfig.v
Deposits.v
Espresso.v
L1Info.v
EngineUpdate.v
Attributes.v
L1Stages.v
Batches.v
EspressoRules.v
BitCodec.v
SpanBatchTxs.v
SpanBatch.v
BatchQueue.v
ChannelInReader.v
Heap.v
PayloadsQueue.v
SyncStart.v
EngineQueue.v
EngineSafety.v
Pipeline.v
Sequencer.v
Driver.v
Compressor.v
ChannelOut.v
SequencerSafety.v
Batcher.v
BatcherSafety.v
Dispute.v
Challenger.v
FaultGame.v
DisputePositions.v
DisputeTree.v
DisputePlay.v
DisputeSafety.v
ChallengerSafety.v
DisputeExample.v
CannonMemory.v
CannonTree.v
CannonVM.v
MipsContract.v
MipsWords.v
CannonTypes.v
CannonSafety.v
CannonStep.v
CannonCall.v
CannonReads.v
CannonProof.v
CannonExample.v
TxManager.v
TxManagerSafety.v
OutputOracle.v
Proposer.v
ServicesExample.v
