(* ===== verification/Prelude.v ===== *)
(** * A verified model of the rollup node and the services around it

    The rollup node of this repository derives its L2 chain from L1, and the
    batcher writes to L1 what the node derives from; the proposer writes the
    roots of that chain to L1, and the challenger disputes claims about it
    there, with a machine whose steps the chain can check. The development
    follows the Go code of [op-node/rollup], [op-batcher], [op-proposer],
    [op-challenger], [cannon/mipsevm], [op-service/txmgr] and what they share,
    one file per part, with the contracts they talk to, and proves what each
    part promises to the next one.

    ** The program

    An L1 block carries batcher transactions and events. The stages of
    [op-node/rollup/derive] pull from one another, each through a small
    interface; the last one drives an execution engine.

    - [Stages.v]: the interfaces between stages ([NextBlockProvider],
      [NextFrameProvider], [NextBatchProvider] and so on) as classes over the
      state of the stage that implements them. A call returns the new state
      of that stage and a value or an error.
    - [L1Stages.v]: [l1_traversal.go] walks the L1 chain, [l1_retrieval.go]
      and [calldata_source.go] open the batcher transactions of a block,
      [frame_queue.go] cuts them into frames.
    - [Frame.v], [Channel.v], [ChannelBank.v]: [frame.go], [channel.go],
      [channel_bank.go], the reassembly of channels out of frames.
    - [BitCodec.v], [SpanBatchTxs.v], [SpanBatch.v]: [span_batch.go],
      [span_batch_tx.go], [span_batch_txs.go], the compressed format of a run
      of batches.
    - [ChannelInReader.v]: [batch.go], [channel_in_reader.go], the batches of
      a channel.
    - [Espresso.v], [Batches.v], [EspressoRules.v]: the data of
      [op-service/eth/types.go] and [singular_batch.go], the rules of
      [batches.go], the Espresso ones included, the commitments read from the
      HotShot contract ([espresso_provider.go] and [l1_client.go] of
      [op-service/sources]), and what acceptance says about the ledger that
      the contract records.
    - [BatchQueue.v]: [batch_queue.go], the order of batches and the empty
      batches of expired epochs.
    - [Solabi.v], [SystemConfig.v], [Deposits.v], [L1Info.v],
      [Attributes.v]: [op-service/solabi], [system_config.go],
      [deposit_log.go], [deposit_source.go], [deposits.go],
      [l1_block_info.go], [payload_util.go], [attributes.go],
      [attributes_queue.go]: what the events of an L1 block make of the
      inputs of an L2 block.
    - [Heap.v], [PayloadsQueue.v]: [payloads_queue.go] and the part of Go's
      [container/heap] it uses.
    - [EngineUpdate.v], [EngineQueue.v], [EngineSafety.v]:
      [engine_update.go], [engine_consolidate.go], [engine_queue.go] and the
      theorems about it.
    - [SyncStart.v]: [op-node/rollup/sync/start.go], the walk that finds
      where to start from.
    - [Pipeline.v]: [pipeline.go], the stages put together.
    - [Sequencer.v], [SequencerSafety.v]: [op-node/rollup/driver]'s
      [sequencer.go], [origin_selector.go] and [conf_depth.go]: how the
      sequencer fills a block from the Espresso query service or from the
      engine's pool, on an interface [EngineControl]; and the theorems that
      connect what it builds with the batch rules.
    - [Driver.v]: [state.go], [l1_state.go], [driver.go] of the same
      directory: the event loop around the pipeline and the sequencer, on an
      interface [Derivation] that [Pipeline.v] implements. Each iteration is
      a function of the event [select] picks; [runs] is the order of events.
    - [Compressor.v], [ChannelOut.v]: [op-batcher/compressor],
      [channel_out.go], [span_channel_out.go], [l2block_util.go]: how blocks
      become a compressed channel and frames. Two interfaces, [Compressor]
      and [ChannelOut], with the laws their users rely on.
    - [Batcher.v], [BatcherSafety.v]: [op-batcher/batcher]: the channel
      builder, the transactions of a channel, the channel manager, the
      loading of blocks, and the theorems about them.
    - [Dispute.v]: [op-challenger/game/fault/types] and [solver]: positions in
      the bisection tree, the state of a game, the strategy and its rules, on
      an interface [TraceProvider] for the program in dispute.
    - [Challenger.v]: [loader.go], [agent.go], [player.go] and the trace
      providers that run no other program, on an interface [Chain] for what
      the agent reads and sends.
    - [FaultGame.v]: the contract the agent plays on,
      [packages/contracts-bedrock/src/dispute], with the assembly of its
      position and clock libraries; it implements [Chain].
    - [DisputePositions.v], [DisputeTree.v], [DisputePlay.v],
      [DisputeSafety.v], [ChallengerSafety.v], [DisputeExample.v]: the
      arithmetic of positions, the tree of claims and what a step checks of
      it, the calls of everybody in any order with the invariant they keep,
      the theorems about the strategy and about the agent, and games on a
      concrete program.
    - [CannonMemory.v], [CannonVM.v]: [cannon/mipsevm], the MIPS machine of
      the fault proof: [memory.go] and [page.go], the paged memory with its
      Merkle tree and cached hashes; [state.go], [mips.go], [instrumented.go]
      and [witness.go], the instructions and system calls, the step and the
      witness of it, on an interface [PreimageOracle].
    - [MipsContract.v]: the same step on chain, [MIPS.sol],
      [PreimageOracle.sol] and [PreimageKeyLib.sol], on calldata.
    - [CannonTree.v], [MipsWords.v], [CannonTypes.v], [CannonSafety.v],
      [CannonStep.v], [CannonCall.v], [CannonReads.v], [CannonProof.v],
      [CannonExample.v]: the tree over the pages, words and masks, types,
      Merkle proofs, the agreement instruction by instruction, the layout of
      the calldata, what the machine has read, the theorems, and a machine
      that runs.
    - [TxManager.v], [TxManagerSafety.v]: [op-service/txmgr], how the services
      get a transaction into a block, on an interface [ETHBackend]. A call of
      [sendTx] is a state with the point its goroutine is at; [sendTx_step] is
      what an event does to it, [sendTx_run] an order of events.
    - [OutputOracle.v], [Proposer.v]: the contract [L2OutputOracle.sol] and
      the proposer, [l2_output_submitter.go], on interfaces for the node, the
      contract and the transaction manager.
    - [ServicesExample.v]: these two on a small chain.
    - [Eth.v]: block references, system and rollup configuration
      ([op-service/eth], [op-node/rollup/types.go]).
    - This file: machine integers, byte strings, errors and the two monads.

    ** How the code is modelled

    - A [uint64] is a [Z] in range; [+₆₄] and [-₆₄] wrap around. A byte
      string is a list of [Z] below 256, an array one of a fixed length.
    - A Go error is a value of [go_error]; a call that returns [(v, err)] is
      a [res], a call that changes its receiver is a function of the state
      into the new state and a [res] (the monad [stM]). A panic is the error
      [GoPanic], which no wrapper changes, so that a theorem can say that a
      call does not panic.
    - A Go map is a [gmap]; where the code ranges over one, the result does
      not depend on the order. A method of a struct keeps the name of the
      method, with a prefix of the stage where two stages share it ([cb_],
      [bq_], [eq_] and so on).
    - Logging, metrics, contexts and cancellation are left out. An L1 node
      answers a given question the same way during one call.

    ** What is not under src/

    The Espresso library (headers, commitments, namespace proofs) is the class
    [EspressoLib], the HotShot contract the record [HotshotCaller] of its
    answers, go-ethereum's transactions and access lists are [TxLib],
    its blocks [BlockLib], Go's zlib writer is [ZlibWriter], the Espresso
    query service is [QueryService] over its own state, the server of
    pre-images [PreimageOracle]; RLP, the zlib
    reader, keccak and signature recovery are variables of the sections
    that use them, and the execution engine is the class [Engine] over its
    own state. What a theorem needs of them (a codec that inverts itself, an
    engine that answers with the block it was asked for) is a named record of
    laws, and the witness of the theorem gives an instance of it.

    ** The theorems

    - Formats: [ParseFrames_canonical], [config_event_canonical],
      [UserDeposits_roundtrip], [l1_info_block_roundtrip],
      [span_batch_roundtrip] say that what is written is read back, and
      mostly that nothing else is accepted.
    - Reassembly: [reassembly_any_order], [bank_NextData_safe],
      [bank_Read_refines], [block_frames_drained],
      [channel_batches_in_order].
    - Submission: [manager_keeps_blocks] and [batcher_span_roundtrip] connect
      the batcher with the stages of the node: what the batcher was given is
      what a verifier reads. [OutputFrames_completes] bounds its loops.
    - Batch rules: [singular_accept_iff], [espresso_window_covered],
      [espresso_origin_adjacent], [espresso_gap_blocks_batches],
      [accepted_span_unrolls], [singular_accept_as_span].
    - Order of batches: [deriveNextBatch_refines],
      [batch_queue_tracks_chain], [derived_batch_safe].
    - Inputs of a block: [prepared_attributes]; also the lemmas
      [receipts_fold_updates] and [traversal_walks_chain].
    - Engine: [payloads_queue_bounded], [engine_heads_ordered],
      [safe_head_advances], [finalized_was_derived]; the lemma
      [insertion_outcomes] has the outcomes error by error.
    - Sequencing: [sequencer_batch_wf] is the invariant of the batch in
      progress; [sealed_window_accepted] and [legacy_block_accepted] say that
      a verifier accepts what the sequencer builds, [espresso_batch_unique]
      that in Espresso mode it would accept nothing else, as long as the
      timestamps of the Espresso ledger do not go back across an end of the
      window ([espresso_batch_not_unique] is a ledger where they do);
      [run_action_contract] and [derivation_step_contract] are the error
      handling of the two actions of the loop.
    - Dispute games: [positions_match_contract] and
      [relative_position_bounds] relate the positions of the Go code to the
      contract; [duplicate_check_exact], [actions_obey_rules] and the lemma
      [claim_path_agreement] are about the solver, [honest_action_accepted]
      about what the contract makes of its actions,
      [honest_challenger_wins] about the end of a game against everybody
      else, and [agent_finishes_game] about the agent that brings it about.
      Both are about games in which nobody moves or steps below a claim that
      has been resolved; [early_resolution_loses] is a game that is lost
      without that.
    - Fault proofs: [onchain_step] says that the witness of a step of the
      machine makes the contract compute the hash of the next state, its
      oracle having taken the pre-image; [verified_read_binds] that a proof
      in the calldata cannot claim another word; [memory_is_array] and
      [machine_keeps_types] are about the machine itself,
      [hints_taken_when_exact] about its hint buffer. The lemma [execute_eq]
      compares the arithmetic of the two, [ReadMemoryRange_spec] says that the
      bytes of a range do not depend on the buffers of the reader.
    - Transactions: [sendTx_versions] and [sendTx_outcome] are about every
      order of the events of a submission, [publish_ends] bounds its inner
      loop, the lemmas [increaseGasPrice_bounds] and [nonces_in_order] are
      about fees and nonces, and [fees_never_rise] shows what an exchanged
      pair of fields does to all of it.
    - Outputs: [oracle_checkpoints] and the lemma [finalized_outputs_stay] are
      about every history of the contract, [proposal_accepted] about what the
      proposer sends to it.
    - Start: [find_heads_terminates], [find_heads_correct],
      [skip_check_loops], [reset_completes].

    ** Bounds and fuel

    A loop that is not structural takes fuel, and a theorem says that the
    fuel given is enough: the frames of a transaction by its length, the
    eviction of payloads by the length of the queue, the walk of
    [FindL2Heads] by the numbers of the unsafe and the safe block plus two,
    the walk back of the engine queue's reset by the number of the safe head
    plus one, the frames of a channel by the bytes that are ready plus one;
    the number of claims bounds the path of a claim in the solver and the walk
    of [findTraceAncestor] (an index smaller with each turn), the number of
    open subgames the rounds of [resolveClaims]. In the machine, the walk to
    the leaves of the memory has 28 levels ([MerkleizeSubtree_spec]), the bits
    of a word bound the counts of leading bits, the length of the buffer the
    hint loop, and the count of bytes the loop of a reader.
    Where the code can loop for ever the statement is about a relation
    without fuel ([returns], in [skip_check_loops]) or says that no fuel is
    enough ([min_frame_size_loops]).

    ** Behaviours worth knowing

    The memory estimate of a channel forgets frames when a closing frame
    prunes ([closing_prune_forgets_size]); a span batch with an unknown
    transaction type panics ([unknown_tx_type_panics]); an Espresso batch can
    be impossible after a gap between L1 blocks
    ([espresso_gap_blocks_batches]); a batch that skips an epoch resets the
    pipeline ([skipped_epoch_resets]); a payload that is evicted by its own
    insertion is refused from then on ([evicted_payload_refused]); the skip of
    the start check can loop ([skip_check_loops]); an empty first transaction
    panics the sanity check ([sanity_check_deposits_first]); the fee
    recipient is not compared ([attributes_match_iff]); a channel that has
    timed out puts its blocks into the queue once per confirmation
    ([late_confirmation_requeues]); a frame size of 23 bytes makes the batcher
    loop ([min_frame_size_loops]); a channel that is closed by force may stay
    open ([force_close_duplicate]); a pipeline reset while an Espresso batch is
    in progress silences the sequencer ([espresso_reset_stalls]); decreasing
    Espresso timestamps leave the sequencer a choice of batches
    ([espresso_batch_not_unique]); a batch queue that is reset to the block
    right before the origin of the safe head derives nothing any more
    ([stuck_derive]). In a dispute
    game a planted claim can take the identifier of an honest reply
    ([planted_claim_silences]), a claim can be resolved before it is fought
    out, also by the agent itself ([early_resolution_loses]), a failing
    transaction keeps the agent in its
    resolution loop ([stuck_resolution_spins]), positions 64 levels below an
    ancestor panic ([relative_position_bounds]), and block numbers wrap around
    in a game of depth 64 ([outputs_root_wraps]). The machine delivers a hint
    only when it is all of the buffer, and panics on an incomplete one
    ([hints_taken_when_exact]). The transaction manager cannot raise fees
    against a node that checks estimates ([fees_never_rise]).

    ** Not modelled

    The loop of the batcher with its goroutines, the queue of transactions,
    the peer-to-peer network, RPC clients and servers, the fault proof
    program and the services around the node (indexer, proxies, monitors) are
    plumbing or I/O; the contract bindings are generated; of the Solidity
    contracts only the dispute game, the machine with its oracle and the
    output oracle are modelled. Of the machine, loading and patching an ELF
    file, JSON, the symbol table and the command line are left out. The
    challenger's scheduler and monitor are goroutines and caches, and the
    cannon trace provider runs the VM as a process. *)

From stdpp Require Export base gmap list sorting.
From Stdlib Require Export ZArith Lia.
From stdpp Require Export strings.
Open Scope Z_scope.

Declare Scope go_scope.
Delimit Scope go_scope with go.

(** ** Machine integers

    A Go [uintN] is a [Z] in [0, 2^N); every arithmetic operation of the source
    that may wrap is written with the wrapping operators below. *)

Definition u8 (z : Z) : Z := z mod 2 ^ 8.
Definition u16 (z : Z) : Z := z mod 2 ^ 16.
Definition u32 (z : Z) : Z := z mod 2 ^ 32.
Definition u64 (z : Z) : Z := z mod 2 ^ 64.
(** [int64(z)]: the two's complement. *)
Definition i64 (z : Z) : Z := (z + 2 ^ 63) mod 2 ^ 64 - 2 ^ 63.

Definition is_u8 (z : Z) : Prop := 0 <= z < 2 ^ 8.
Definition is_u16 (z : Z) : Prop := 0 <= z < 2 ^ 16.
Definition is_u32 (z : Z) : Prop := 0 <= z < 2 ^ 32.
Definition is_u64 (z : Z) : Prop := 0 <= z < 2 ^ 64.
Definition is_u256 (z : Z) : Prop := 0 <= z < 2 ^ 256.

Definition add64 (x y : Z) : Z := u64 (x + y).
Definition sub64 (x y : Z) : Z := u64 (x - y).
Definition mul64 (x y : Z) : Z := u64 (x * y).
Definition add32 (x y : Z) : Z := u32 (x + y).
Definition sub32 (x y : Z) : Z := u32 (x - y).

Notation "x +₆₄ y" := (add64 x y) (at level 50, left associativity) : go_scope.
Notation "x -₆₄ y" := (sub64 x y) (at level 50, left associativity) : go_scope.
Notation "x *₆₄ y" := (mul64 x y) (at level 40, left associativity) : go_scope.
Notation "x +₃₂ y" := (add32 x y) (at level 50, left associativity) : go_scope.
Notation "x -₃₂ y" := (sub32 x y) (at level 50, left associativity) : go_scope.
Open Scope go_scope.

(** Unfolds the machine integers and hands the goal to [lia]. *)
Ltac ulia :=
  unfold add64, sub64, mul64, add32, sub32, is_u8, is_u16, is_u32, is_u64, is_u256,
    u8, u16, u32, u64 in *;
  Z.to_euclidean_division_equations; lia.

Lemma add64_small x y : is_u64 x -> 0 <= y -> x + y < 2 ^ 64 -> x +₆₄ y = x + y.
Proof. intros. unfold add64, u64. apply Z.mod_small. unfold is_u64 in *. lia. Qed.

Lemma sub64_small x y : is_u64 x -> 0 <= y <= x -> x -₆₄ y = x - y.
Proof. intros. unfold sub64, u64. apply Z.mod_small. unfold is_u64 in *. lia. Qed.

Lemma u64_range z : is_u64 (u64 z).
Proof. unfold is_u64, u64. apply Z.mod_pos_bound. lia. Qed.

Lemma u32_range z : is_u32 (u32 z).
Proof. unfold is_u32, u32. apply Z.mod_pos_bound. lia. Qed.

Lemma u64_id z : is_u64 z -> u64 z = z.
Proof. intros. unfold u64. apply Z.mod_small. assumption. Qed.

Lemma u32_id z : is_u32 z -> u32 z = z.
Proof. intros. unfold u32. apply Z.mod_small. assumption. Qed.

(** A number of [n] bits below another one. *)
Lemma lor_add_low x n y : 0 <= n -> 0 <= y < 2 ^ n -> Z.lor (Z.shiftl x n) y = x * 2 ^ n + y.
Proof.
  intros Hn Hy. rewrite <- Z.shiftl_mul_pow2 by lia. rewrite <- Z.add_lor_land.
  assert (H : Z.land (Z.shiftl x n) y = 0); [|lia]. apply Z.bits_inj'. intros i Hi.
  rewrite Z.land_spec, Z.bits_0. destruct (Z.lt_ge_cases i n).
  - by rewrite Z.shiftl_spec_low.
  - rewrite <- (Z.mod_small y (2 ^ n)) by lia. by rewrite Z.mod_pow2_bits_high, andb_false_r by lia.
Qed.

Create HintDb go_int.
#[export] Hint Resolve u64_range u32_range : go_int.

(** ** Errors and results *)

Inductive Level := LevelTemporary | LevelReset | LevelCritical.

(** The error values the source builds: the sentinels it compares against, the
    levelled errors of [derive.Error], the coded errors of the engine API
    ([eth.InputError]), text errors, [%w] wrapping, and a Go run-time panic,
    which no function modelled here recovers from. *)
Inductive go_error :=
| EOF
| ErrUnexpectedEOF
| NotFound
| NotEnoughData
| DuplicateErr
| Errorf (msg : string)
| Wrapf (msg : string) (inner : go_error)
| DeriveError (inner : go_error) (lvl : Level)
| InputError (inner : go_error) (code : Z)
| EngineP2PSyncing
| GoPanic (msg : string).

#[export] Instance Level_eq_dec : EqDecision Level.
Proof. solve_decision. Defined.
#[export] Instance go_error_eq_dec : EqDecision go_error.
Proof. solve_decision. Defined.

Definition NewTemporaryError (e : go_error) : go_error := DeriveError e LevelTemporary.
Definition NewResetError (e : go_error) : go_error := DeriveError e LevelReset.
Definition NewCriticalError (e : go_error) : go_error := DeriveError e LevelCritical.

(** [Error.Is]: a levelled error matches every error of its level. *)
Definition Error_Is (level : Level) (target : go_error) : bool :=
  match target with
  | DeriveError _ l => bool_decide (level = l)
  | _ => false
  end.

(** [errors.Is]: the error or one it wraps is the target, or says it is. *)
Fixpoint errors_Is (err target : go_error) : bool :=
  bool_decide (err = target) ||
  match err with
  | Wrapf _ inner => errors_Is inner target
  | DeriveError inner level => Error_Is level target || errors_Is inner target
  | InputError inner _ => match target with InputError _ _ => true | _ => errors_Is inner target end
  | _ => false
  end.

(** [errors.As] for an [InputError]: the first one in the chain, as the error it
    holds and its code. *)
Fixpoint as_InputError (err : go_error) : option (go_error * Z) :=
  match err with
  | InputError inner code => Some (inner, code)
  | Wrapf _ inner | DeriveError inner _ => as_InputError inner
  | _ => None
  end.

Inductive res (A : Type) :=
| Ok (a : A)
| Err (e : go_error).
Arguments Ok {A} _.
Arguments Err {A} _.

#[export] Instance res_eq_dec `{EqDecision A} : EqDecision (res A).
Proof. solve_decision. Defined.

#[export] Instance res_ret : MRet res := @Ok.
#[export] Instance res_bind : MBind res := fun A B f m =>
  match m with Ok a => f a | Err e => Err e end.
#[export] Instance res_fmap : FMap res := fun A B f m =>
  match m with Ok a => Ok (f a) | Err e => Err e end.

(** Wrapping an error; a panic is no error and passes through. *)
Definition wrap_err (f : go_error -> go_error) (e : go_error) : go_error :=
  match e with GoPanic msg => GoPanic msg | _ => f e end.

(** [if err != nil { return wrap(err) }] *)
Definition map_err {A} (f : go_error -> go_error) (m : res A) : res A :=
  match m with Ok a => Ok a | Err e => Err (wrap_err f e) end.

Definition is_ok {A} (m : res A) : bool :=
  match m with Ok _ => true | Err _ => false end.

Lemma res_bind_ok {A B} (m : res A) (f : A -> res B) b :
  m ≫= f = Ok b <-> exists a, m = Ok a /\ f a = Ok b.
Proof. destruct m; cbn; naive_solver. Qed.

Lemma Ok_inj {A} (a b : A) : Ok a = Ok b -> a = b.
Proof. congruence. Qed.

Lemma map_err_ok {A} f (m : res A) a : map_err f m = Ok a <-> m = Ok a.
Proof. destruct m; cbn; naive_solver. Qed.

(** The computation does not panic. *)
Definition no_panic {A} (m : res A) : Prop := forall s, m <> Err (GoPanic s).

Lemma no_panic_ok {A} (a : A) : no_panic (Ok a).
Proof. done. Qed.

Lemma no_panic_bind {A B} (m : res A) (f : A -> res B) :
  no_panic m -> (forall a, m = Ok a -> no_panic (f a)) -> no_panic (m ≫= f).
Proof. destruct m; cbn; intros Hm Hf; [by apply Hf|]. intros s [= ->]. by apply (Hm s). Qed.

Lemma no_panic_map_err {A} f (m : res A) :
  no_panic m -> (forall e s, f e <> GoPanic s) -> no_panic (map_err f m).
Proof.
  destruct m as [a|e]; cbn; intros Hm Hf s; [done|]. intros [= H]. destruct e; cbn in H; try by apply Hf in H.
  by apply (Hm msg).
Qed.

Create HintDb go_panic.
#[export] Hint Resolve no_panic_ok no_panic_bind no_panic_map_err : go_panic.
#[export] Hint Extern 1 (no_panic (Err _)) => (intros ? ?; discriminate) : go_panic.
#[export] Hint Extern 1 (_ <> GoPanic _) => discriminate : go_panic.

(** Splits a successful run into its successful parts. *)
Ltac ok_inv :=
  repeat match goal with
  | H : _ ≫= _ = Ok _ |- _ => apply res_bind_ok in H; destruct H as (? & ? & H)
  | H : map_err _ _ = Ok _ |- _ => apply map_err_ok in H
  | H : Ok _ = Ok _ |- _ => injection H as H
  | H : Err _ = Ok _ |- _ => discriminate H
  | H : Ok _ = Err _ |- _ => discriminate H
  | H : _ <$> ?m = Ok _ |- _ => destruct m eqn:?; cbn in H
  | H : (let '(_, _) := ?p in _) = Ok _ |- _ => destruct p eqn:?
  | H : (if ?b then _ else _) = Ok _ |- _ => destruct b eqn:?
  | H : (if ?b then _ else _) = Err _ |- _ => destruct b eqn:?
  end; try discriminate; subst.

(** ** Explicit state passing: an operation of a stage returns its new state
    together with a value or an error; a Go method that fails keeps the changes
    it made before failing. *)
Definition stM (S A : Type) : Type := S -> S * res A.

#[export] Instance stM_ret S : MRet (stM S) := fun A a s => (s, Ok a).
#[export] Instance stM_bind S : MBind (stM S) := fun A B f m s =>
  match m s with (s, Ok a) => f a s | (s, Err e) => (s, Err e) end.

Definition lift {S A} (r : res A) : stM S A := fun s => (s, r).
Definition throw {S A} (e : go_error) : stM S A := fun s => (s, Err e).

(** What to do about an error of [m]. *)
Definition on_err {S A} (m : stM S A) (k : go_error -> stM S A) : stM S A := fun s =>
  match m s with (s, Err e) => k e s | r => r end.

Definition wrapping {S A} (f : go_error -> go_error) (m : stM S A) : stM S A := fun s =>
  let '(s, r) := m s in (s, map_err f r).

Lemma stM_bind_ok {S A B} (m : stM S A) (f : A -> stM S B) s s' b :
  (m ≫= f) s = (s', Ok b) <-> exists s1 a, m s = (s1, Ok a) /\ f a s1 = (s', Ok b).
Proof. unfold mbind, stM_bind. destruct (m s) as [s1 [a|]]; naive_solver. Qed.

Lemma on_err_ok {S A} (m : stM S A) k s s' a :
  on_err m k s = (s', Ok a) <-> m s = (s', Ok a) \/ exists s1 e, m s = (s1, Err e) /\ k e s1 = (s', Ok a).
Proof. unfold on_err. destruct (m s) as [s1 [b|]]; naive_solver. Qed.

Lemma wrapping_ok {S A} f (m : stM S A) s s' a : wrapping f m s = (s', Ok a) <-> m s = (s', Ok a).
Proof. unfold wrapping. destruct (m s) as [s1 [b|]]; cbn; naive_solver. Qed.

Lemma lift_ok {S A} (r : res A) (s s' : S) a : lift r s = (s', Ok a) <-> s' = s /\ r = Ok a.
Proof. unfold lift. naive_solver. Qed.

(** ** Bytes

    A byte is a [Z] in [0, 256); a Go [[]byte] is a list of them. *)

Abbreviation byte := Z (only parsing).
Abbreviation bytes := (list Z).
Definition bytes_ok (bs : bytes) : Prop := Forall is_u8 bs.
Definition blen (bs : bytes) : Z := Z.of_nat (length bs).

(** A Go fixed-size array [[n]byte]. *)
Definition is_array (n : nat) (bs : bytes) : Prop := length bs = n /\ bytes_ok bs.
Definition zeros (n : nat) : bytes := replicate n 0.
#[global] Arguments zeros : simpl never.

#[export] Instance is_u8_dec z : Decision (is_u8 z).
Proof. unfold is_u8. apply _. Defined.
#[export] Instance is_u16_dec z : Decision (is_u16 z).
Proof. unfold is_u16. apply _. Defined.
#[export] Instance is_u32_dec z : Decision (is_u32 z).
Proof. unfold is_u32. apply _. Defined.
#[export] Instance is_u64_dec z : Decision (is_u64 z).
Proof. unfold is_u64. apply _. Defined.
#[export] Instance is_u256_dec z : Decision (is_u256 z).
Proof. unfold is_u256. apply _. Defined.
#[export] Instance bytes_ok_dec bs : Decision (bytes_ok bs).
Proof. unfold bytes_ok. apply _. Defined.
#[export] Instance is_array_dec n bs : Decision (is_array n bs).
Proof. unfold is_array. apply _. Defined.

(** The bytes of a Go string literal. *)
Definition str_bytes (s : string) : bytes := map (fun c => Z.of_nat (Ascii.nat_of_ascii c)) (String.list_ascii_of_string s).

(** [encoding/binary.BigEndian]: [put_be n z] writes the low [n] bytes of [z],
    [get_be] reads a number; [big.Int.SetBytes] and [FillBytes] are the same. *)
Fixpoint put_be (n : nat) (z : Z) : bytes :=
  match n with
  | O => []
  | S n => put_be n (z / 256) ++ [z mod 256]
  end.

Definition get_be (bs : bytes) : Z := fold_left (fun acc b => acc * 256 + b) bs 0.

Lemma length_put_be n z : length (put_be n z) = n.
Proof. revert z; induction n; intros; cbn; [done|]. rewrite length_app, IHn. cbn. lia. Qed.

Lemma put_be_ok n z : bytes_ok (put_be n z).
Proof.
  revert z; induction n; intros; cbn; [constructor|].
  apply Forall_app; split; [apply IHn|]. repeat constructor; ulia.
Qed.

Lemma get_be_snoc bs b : get_be (bs ++ [b]) = get_be bs * 256 + b.
Proof. unfold get_be. by rewrite fold_left_app. Qed.

Lemma get_put_be n z : 0 <= z < 256 ^ Z.of_nat n -> get_be (put_be n z) = z.
Proof.
  revert z; induction n as [|n IH]; intros z Hz.
  - change (256 ^ Z.of_nat 0) with 1 in Hz. unfold get_be. cbn. lia.
  - cbn [put_be]. rewrite get_be_snoc, IH.
    + pose proof (Z.div_mod z 256). lia.
    + rewrite Nat2Z.inj_succ, Z.pow_succ_r in Hz by lia.
      split; [apply Z.div_pos; lia | apply Z.div_lt_upper_bound; lia].
Qed.

Lemma get_be_range bs : bytes_ok bs -> 0 <= get_be bs < 256 ^ blen bs.
Proof.
  unfold blen. induction bs as [|b bs IH] using rev_ind; intros H.
  - done.
  - apply Forall_app in H as [Hbs Hb]. apply Forall_cons_1 in Hb as [Hb _].
    rewrite get_be_snoc, length_app, Nat2Z.inj_add, Z.pow_add_r by lia.
    specialize (IH Hbs). unfold is_u8 in Hb. cbn [length].
    change (256 ^ Z.of_nat 1) with 256.  lia.
Qed.

Lemma put_get_be bs : bytes_ok bs -> put_be (length bs) (get_be bs) = bs.
Proof.
  induction bs as [|b bs IH] using rev_ind; intros H; [done|].
  apply Forall_app in H as [Hbs Hb]. apply Forall_cons_1 in Hb as [Hb _].
  rewrite length_app, Nat.add_1_r. cbn [put_be]. rewrite get_be_snoc.
  unfold is_u8 in Hb.
  replace ((get_be bs * 256 + b) / 256) with (get_be bs) by ulia.
  replace ((get_be bs * 256 + b) mod 256) with b by ulia.
  by rewrite IH.
Qed.

Lemma get_be_zeros_app n bs : get_be (zeros n ++ bs) = get_be bs.
Proof.
  unfold get_be. rewrite fold_left_app. f_equal. by induction n.
Qed.

Lemma bytes_ok_app bs cs : bytes_ok (bs ++ cs) <-> bytes_ok bs /\ bytes_ok cs.
Proof. apply Forall_app. Qed.

Lemma zeros_ok n : bytes_ok (zeros n).
Proof. apply Forall_replicate. ulia. Qed.

#[export] Hint Resolve put_be_ok zeros_ok : go_int.

(** Case analysis on the integer comparisons of the goal. *)
Ltac zcases :=
  repeat match goal with
  | |- context [?a <? ?b] => destruct (Z.ltb_spec a b)
  | |- context [?a <=? ?b] => destruct (Z.leb_spec a b)
  | |- context [?a =? ?b] => destruct (Z.eqb_spec a b)
  end.

(** Proves a decidable fact about concrete data by evaluation. *)
Ltac vm_decide :=
  match goal with |- ?P => refine (@bool_decide_unpack P _ _); vm_compute; exact I end.

(** The slice expression [b[i:j]], within bounds. *)
Definition slice (i j : Z) (b : bytes) : bytes := take (Z.to_nat (j - i)) (drop (Z.to_nat i) b).

Lemma blen_app a b : blen (a ++ b) = blen a + blen b.
Proof. unfold blen. rewrite length_app. lia. Qed.

Lemma blen_nonneg b : 0 <= blen b.
Proof. unfold blen. lia. Qed.

Lemma blen_array n b : is_array n b -> blen b = Z.of_nat n.
Proof. intros [H _]. unfold blen. by rewrite H. Qed.

Lemma blen_put_be n z : blen (put_be n z) = Z.of_nat n.
Proof. unfold blen. by rewrite length_put_be. Qed.

Lemma blen_zeros n : blen (zeros n) = Z.of_nat n.
Proof. unfold blen, zeros. by rewrite length_replicate. Qed.

(** A slice of a concatenation that starts and ends where a part does. *)
Lemma slice_app i j a b c : i = blen a -> j = i + blen b -> slice i j (a ++ b ++ c) = b.
Proof.
  intros -> ->. unfold slice, blen. rewrite Z.add_simpl_l, !Nat2Z.id.
  by rewrite drop_app_length, take_app_length.
Qed.

Lemma slice_head j b c : j = blen b -> slice 0 j (b ++ c) = b.
Proof. intros. apply (slice_app 0 j []); [done|lia]. Qed.

Lemma slice_app_end i j a b : i = blen a -> j = i + blen b -> slice i j (a ++ b) = b.
Proof. intros. rewrite <- (app_nil_r (a ++ b)), <- app_assoc. by apply slice_app. Qed.

(** The index expression [l[i]]. *)
Definition index {A} (l : list A) (i : Z) : res A :=
  match (if i <? 0 then None else l !! Z.to_nat i) with
  | Some a => Ok a
  | None => Err (GoPanic "index out of range")
  end.

Lemma index_0 {A} (x : A) l : index (x :: l) 0 = Ok x.
Proof. done. Qed.

(** Reading through a pointer that may be nil. *)
Definition deref {A} (p : option A) : res A :=
  match p with Some a => Ok a | None => Err (GoPanic "nil pointer dereference") end.

(** ** Readers

    A [bytes.Reader] or [bytes.Buffer] is the list of the bytes not read yet. *)

(** [io.ReadFull(r, buf)] with [len(buf) = n]. *)
Definition ReadFull (n : Z) (r : bytes) : res (bytes * bytes) :=
  if n <=? 0 then Ok ([], r)
  else if blen r =? 0 then Err EOF
  else if blen r <? n then Err ErrUnexpectedEOF
  else Ok (take (Z.to_nat n) r, drop (Z.to_nat n) r).

(** [r.ReadByte()] *)
Definition ReadByte (r : bytes) : res (byte * bytes) :=
  match r with
  | [] => Err EOF
  | b :: r => Ok (b, r)
  end.

Lemma ReadFull_app n bs r : n = blen bs -> ReadFull n (bs ++ r) = Ok (bs, r).
Proof.
  intros Hn. unfold ReadFull, blen in *. rewrite length_app, Nat2Z.inj_add.
  destruct (Z.leb_spec n 0).
  { by destruct bs; [|cbn in *; lia]. }
  destruct (Z.eqb_spec (Z.of_nat (length bs) + Z.of_nat (length r)) 0); [lia|].
  destruct (Z.ltb_spec (Z.of_nat (length bs) + Z.of_nat (length r)) n); [lia|].
  replace (Z.to_nat n) with (length bs) by lia.
  by rewrite take_app_length, drop_app_length.
Qed.

Lemma ReadFull_ok n r bs r' : 0 <= n ->
  ReadFull n r = Ok (bs, r') <-> r = bs ++ r' /\ n = blen bs.
Proof.
  intros Hn. split.
  - unfold ReadFull, blen in *. intros H.
    destruct (Z.leb_spec n 0); [simplify_eq; cbn; split; [done|lia]|].
    destruct (Z.eqb_spec (Z.of_nat (length r)) 0); [done|].
    destruct (Z.ltb_spec (Z.of_nat (length r)) n); [done|]. simplify_eq.
    rewrite take_drop. split; [done|]. rewrite length_take. lia.
  - intros [-> ->]. by apply ReadFull_app.
Qed.

Lemma ReadFull_short n r : blen r < n -> ReadFull n r = Err (if blen r =? 0 then EOF else ErrUnexpectedEOF).
Proof.
  intros. unfold ReadFull. destruct (Z.leb_spec n 0); [unfold blen in *; lia|].
  destruct (blen r =? 0); [done|]. destruct (Z.ltb_spec (blen r) n); [done|lia].
Qed.

Lemma ReadFull_no_panic n r : no_panic (ReadFull n r).
Proof. unfold ReadFull. repeat case_match; auto with go_panic. Qed.

Lemma ReadByte_no_panic r : no_panic (ReadByte r).
Proof. unfold ReadByte. case_match; auto with go_panic. Qed.

#[export] Hint Resolve ReadFull_no_panic ReadByte_no_panic : go_panic.

Lemma ReadFull_inv n r bs r' : bytes_ok r -> 0 <= n -> ReadFull n r = Ok (bs, r') ->
  r = bs ++ r' /\ n = blen bs /\ bytes_ok bs /\ bytes_ok r'.
Proof.
  intros Hr Hn H. apply ReadFull_ok in H as [-> ->]; [|done].
  apply bytes_ok_app in Hr as [? ?]. done.
Qed.
