(* ===== verification/Eth.v ===== *)
(** * Block references, system configuration and rollup configuration

    The data every other file shares: [op-service/eth/id.go],
    [op-service/eth/types.go] and [op-node/rollup/types.go], with the checks
    and the block-number/timestamp arithmetic of [rollup.Config]. *)

From S2P Require Import Prelude.

(** A [common.Hash] and an [eth.Bytes32] are 32-byte arrays, a
    [common.Address] a 20-byte array. *)
Abbreviation Hash := bytes (only parsing).
Abbreviation Bytes32 := bytes (only parsing).
Abbreviation Address := bytes (only parsing).
Definition is_hash (h : Hash) : Prop := is_array 32 h.
Definition is_address (a : Address) : Prop := is_array 20 a.
#[export] Instance is_hash_dec h : Decision (is_hash h).
Proof. unfold is_hash. apply _. Defined.
#[export] Instance is_address_dec h : Decision (is_address h).
Proof. unfold is_address. apply _. Defined.

(** A 32-byte hash with all bytes equal, for concrete examples. *)
Definition hash_of (b : Z) : Hash := replicate 32 b.

Record BlockID := mkBlockID {
  id_Hash : Hash;
  id_Number : Z;
}.

Record L1BlockRef := mkL1BlockRef {
  l1_Hash : Hash;
  l1_Number : Z;
  l1_ParentHash : Hash;
  l1_Time : Z;
}.

Record L2BlockRef := mkL2BlockRef {
  l2_Hash : Hash;
  l2_Number : Z;
  l2_ParentHash : Hash;
  l2_Time : Z;
  l2_L1Origin : BlockID;
  l2_SequenceNumber : Z;
}.

#[export] Instance BlockID_eq_dec : EqDecision BlockID.
Proof. solve_decision. Defined.
#[export] Instance L1BlockRef_eq_dec : EqDecision L1BlockRef.
Proof. solve_decision. Defined.
#[export] Instance L2BlockRef_eq_dec : EqDecision L2BlockRef.
Proof. solve_decision. Defined.

(** The zero value of a Go [eth.L1BlockRef]. *)
Definition zero_L1BlockRef : L1BlockRef :=
  {| l1_Hash := zeros 32; l1_Number := 0; l1_ParentHash := zeros 32; l1_Time := 0 |}.

(** The zero value of a Go [eth.L2BlockRef]. *)
Definition zero_L2BlockRef : L2BlockRef :=
  {| l2_Hash := zeros 32; l2_Number := 0; l2_ParentHash := zeros 32; l2_Time := 0;
     l2_L1Origin := mkBlockID (zeros 32) 0; l2_SequenceNumber := 0 |}.

Definition L1BlockRef_ID (b : L1BlockRef) : BlockID :=
  {| id_Hash := l1_Hash b; id_Number := l1_Number b |}.

Definition L2BlockRef_ID (b : L2BlockRef) : BlockID :=
  {| id_Hash := l2_Hash b; id_Number := l2_Number b |}.

Definition L1BlockRef_ParentID (b : L1BlockRef) : BlockID :=
  let n := id_Number (L1BlockRef_ID b) in
  let n := if 0 <? n then n -₆₄ 1 else n in
  {| id_Hash := l1_ParentHash b; id_Number := n |}.

Definition L2BlockRef_ParentID (b : L2BlockRef) : BlockID :=
  let n := id_Number (L2BlockRef_ID b) in
  let n := if 0 <? n then n -₆₄ 1 else n in
  {| id_Hash := l2_ParentHash b; id_Number := n |}.

Record SystemConfig := mkSystemConfig {
  BatcherAddr : Address;
  Overhead : Bytes32;
  Scalar : Bytes32;
  GasLimit : Z;
  Espresso : bool;
  EspressoL1ConfDepth : Z;
}.

#[export] Instance SystemConfig_eq_dec : EqDecision SystemConfig.
Proof. solve_decision. Defined.

Record Genesis := mkGenesis {
  gen_L1 : BlockID;
  gen_L2 : BlockID;
  gen_L2Time : Z;
  gen_SystemConfig : SystemConfig;
}.

(** [rollup.Config]; a [*uint64], a [*big.Int] and a [*common.Address] are
    options. *)
Record Config := mkConfig {
  cfg_Genesis : Genesis;
  BlockTime : Z;
  MaxSequencerDrift : Z;
  SeqWindowSize : Z;
  ChannelTimeout : Z;
  L1ChainID : option Z;
  L2ChainID : option Z;
  RegolithTime : option Z;
  CanyonTime : option Z;
  SpanBatchTime : option Z;
  BatchInboxAddress : Address;
  DepositContractAddress : Address;
  L1SystemConfigAddress : Address;
  HotShotContractAddress : option Address;
}.

Definition IsRegolith (c : Config) (timestamp : Z) : bool :=
  match RegolithTime c with Some t => t <=? timestamp | None => false end.

Definition IsCanyon (c : Config) (timestamp : Z) : bool :=
  match CanyonTime c with Some t => t <=? timestamp | None => false end.

Definition IsSpanBatch (c : Config) (timestamp : Z) : bool :=
  match SpanBatchTime c with Some t => t <=? timestamp | None => false end.

Definition TimestampForBlock (cfg : Config) (blockNumber : Z) : Z :=
  gen_L2Time (cfg_Genesis cfg) +₆₄
    ((blockNumber -₆₄ id_Number (gen_L2 (cfg_Genesis cfg))) *₆₄ BlockTime cfg).

(** Division by a zero block time panics in Go; [Check] below excludes it. *)
Definition TargetBlockNumber (cfg : Config) (timestamp : Z) : res Z :=
  let genesisTimestamp := gen_L2Time (cfg_Genesis cfg) in
  if timestamp <? genesisTimestamp then Err (Errorf "did not reach genesis time yet")
  else
    let wallClockGenesisDiff := timestamp -₆₄ genesisTimestamp in
    if BlockTime cfg =? 0 then Err (GoPanic "integer divide by zero") else
    let blocksSinceGenesis := wallClockGenesisDiff / BlockTime cfg in
    Ok (id_Number (gen_L2 (cfg_Genesis cfg)) +₆₄ blocksSinceGenesis).

(** [Config.Check]: the first violated condition, in the order of the source. *)
Definition Check_config (cfg : Config) : option go_error :=
  let g := cfg_Genesis cfg in
  let sc := gen_SystemConfig g in
  if BlockTime cfg =? 0 then Some (Errorf "block time cannot be 0")
  else if ChannelTimeout cfg =? 0 then Some (Errorf "channel timeout must be set")
  else if SeqWindowSize cfg <? 2 then Some (Errorf "sequencing window size must at least be 2")
  else if bool_decide (id_Hash (gen_L1 g) = zeros 32) then Some (Errorf "genesis L1 hash cannot be empty")
  else if bool_decide (id_Hash (gen_L2 g) = zeros 32) then Some (Errorf "genesis L2 hash cannot be empty")
  else if bool_decide (id_Hash (gen_L2 g) = id_Hash (gen_L1 g)) then Some (Errorf "achievement get! rollup inception: L1 and L2 genesis cannot be the same")
  else if gen_L2Time g =? 0 then Some (Errorf "missing L2 genesis time")
  else if bool_decide (BatcherAddr sc = zeros 20) then Some (Errorf "missing genesis system config batcher address")
  else if bool_decide (Overhead sc = zeros 32) then Some (Errorf "missing genesis system config overhead")
  else if bool_decide (Scalar sc = zeros 32) then Some (Errorf "missing genesis system config scalar")
  else if GasLimit sc =? 0 then Some (Errorf "missing genesis system config gas limit")
  else if bool_decide (BatchInboxAddress cfg = zeros 20) then Some (Errorf "missing batch inbox address")
  else if bool_decide (DepositContractAddress cfg = zeros 20) then Some (Errorf "missing deposit contract address")
  else match L1ChainID cfg, L2ChainID cfg with
  | None, _ => Some (Errorf "L1 chain ID must not be nil")
  | _, None => Some (Errorf "L2 chain ID must not be nil")
  | Some a, Some b =>
      if a =? b then Some (Errorf "L1 and L2 chain IDs must be different")
      else if a <? 1 then Some (Errorf "L1 chain ID must be non-zero and positive")
      else if b <? 1 then Some (Errorf "L2 chain ID must be non-zero and positive")
      else None
  end.

(** What [Check] guarantees to the rest of the program. *)
Lemma Check_config_facts cfg :
  Check_config cfg = None ->
  BlockTime cfg <> 0 /\ ChannelTimeout cfg <> 0 /\ 2 <= SeqWindowSize cfg /\
  gen_L2Time (cfg_Genesis cfg) <> 0 /\
  exists a b, L1ChainID cfg = Some a /\ L2ChainID cfg = Some b /\ 0 < a /\ 0 < b /\ a <> b.
Proof.
  unfold Check_config. intros H. repeat (case_match; try discriminate).
  repeat match goal with
  | H : (_ =? _) = false |- _ => apply Z.eqb_neq in H
  | H : (_ <? _) = false |- _ => apply Z.ltb_ge in H
  end. naive_solver lia.
Qed.

(** With a configuration that passes [Check], the block number computed
    for a timestamp is the one whose slot contains that timestamp. *)
Lemma target_slot cfg t n :
  Check_config cfg = None ->
  is_u64 (gen_L2Time (cfg_Genesis cfg)) -> is_u64 (id_Number (gen_L2 (cfg_Genesis cfg))) ->
  is_u64 (BlockTime cfg) -> is_u64 t ->
  id_Number (gen_L2 (cfg_Genesis cfg)) + t < 2 ^ 64 ->
  TargetBlockNumber cfg t = Ok n ->
  TimestampForBlock cfg n <= t < TimestampForBlock cfg n + BlockTime cfg.
Proof.
  intros Hc Hg Hn Hb Ht Hov.
  destruct (Check_config_facts _ Hc) as (Hbt & _).
  unfold TargetBlockNumber, TimestampForBlock.
  destruct (Z.ltb_spec t (gen_L2Time (cfg_Genesis cfg))); [done|].
  destruct (Z.eqb_spec (BlockTime cfg) 0); [done|]. intros [= <-].
  unfold is_u64 in *.
  set (g := gen_L2Time _) in *. set (b := BlockTime _) in *. set (m := id_Number _) in *.
  rewrite (sub64_small t g) by (unfold is_u64; lia).
  pose proof (Z.div_mod (t - g) b ltac:(lia)).
  pose proof (Z.mod_pos_bound (t - g) b ltac:(lia)).
  assert (0 <= (t - g) / b <= t - g)
    by (split; [apply Z.div_pos; lia | apply Z.div_le_upper_bound; nia]).
  rewrite (add64_small m) by (unfold is_u64; lia).
  rewrite sub64_small by (unfold is_u64; lia).
  replace (m + (t - g) / b - m) with ((t - g) / b) by lia.
  unfold mul64. rewrite u64_id by (unfold is_u64; nia).
  rewrite add64_small by (unfold is_u64; nia). nia.
Qed.

(** ** A concrete configuration *)

Definition ex_cfg : Config :=
  {| cfg_Genesis := {| gen_L1 := mkBlockID (hash_of 1) 0; gen_L2 := mkBlockID (hash_of 2) 0; gen_L2Time := 100;
       gen_SystemConfig := {| BatcherAddr := replicate 20 1; Overhead := hash_of 1; Scalar := hash_of 1;
         GasLimit := 30000000; Espresso := false; EspressoL1ConfDepth := 0 |} |};
     BlockTime := 2; MaxSequencerDrift := 600; SeqWindowSize := 10; ChannelTimeout := 30;
     L1ChainID := Some 1; L2ChainID := Some 10; RegolithTime := Some 0; CanyonTime := Some 0;
     SpanBatchTime := Some 0; BatchInboxAddress := replicate 20 3; DepositContractAddress := replicate 20 4;
     L1SystemConfigAddress := replicate 20 5; HotShotContractAddress := None |}.

Lemma target_slot_witness :
  TargetBlockNumber ex_cfg 105 = Ok 2 /\ TimestampForBlock ex_cfg 2 <= 105 < TimestampForBlock ex_cfg 2 + BlockTime ex_cfg.
Proof. split; [reflexivity|]. apply target_slot; try reflexivity; vm_decide. Defined.
