(* ===== verification/Frame.v ===== *)
(** * Channel frames

    [op-node/rollup/derive/frame.go] and the constants of [params.go]: the
    binary format of a frame, the parser of a batcher transaction
    ([ParseFrames]) and the proof that it accepts exactly the canonical
    encodings. *)

From S2P Require Import Prelude.

Definition MaxFrameLen : Z := 1000000.
Definition frameOverhead : Z := 200.
Definition DerivationVersion0 : Z := 0.
Definition MaxChannelBankSize : Z := 100000000.
Definition MaxRLPBytesPerChannel : Z := 10000000.
Definition MaxSpanBatchSize : Z := MaxRLPBytesPerChannel.
Definition ChannelIDLength : Z := 16.

(** A [ChannelID] is a 16-byte array. *)
Abbreviation ChannelID := bytes (only parsing).

Record Frame := mkFrame {
  ID : ChannelID;
  FrameNumber : Z;
  Data : bytes;
  IsLast : bool;
}.

#[export] Instance Frame_eq_dec : EqDecision Frame.
Proof. solve_decision. Defined.

Definition frameSize (f : Frame) : Z := u64 (blen (Data f)) +₆₄ frameOverhead.

(** The values a Go [Frame] can hold, with the length limit of the parser. *)
Definition frame_wf (f : Frame) : Prop :=
  is_array 16 (ID f) /\ is_u16 (FrameNumber f) /\ bytes_ok (Data f) /\ blen (Data f) <= MaxFrameLen.

#[export] Instance frame_wf_dec f : Decision (frame_wf f).
Proof. unfold frame_wf. apply _. Defined.

(** [Frame.MarshalBinary]; the writer is a buffer, so no write fails. *)
Definition MarshalBinary (f : Frame) : bytes :=
  ID f ++ put_be 2 (FrameNumber f) ++ put_be 4 (u32 (blen (Data f))) ++ Data f ++
  [if IsLast f then 1 else 0].

Definition eofAsUnexpectedMissing (err : go_error) : go_error :=
  if errors_Is err EOF then Wrapf "fully missing" ErrUnexpectedEOF else err.

(** [Frame.UnmarshalBinary]: the decoded frame and the rest of the reader. *)
Definition UnmarshalBinary (r : bytes) : res (Frame * bytes) :=
  '(id, r) ← map_err (Wrapf "reading channel_id") (ReadFull 16 r);
  '(num, r) ← map_err (fun e => Wrapf "reading frame_number" (eofAsUnexpectedMissing e)) (ReadFull 2 r);
  '(len, r) ← map_err (fun e => Wrapf "reading frame_data_length" (eofAsUnexpectedMissing e)) (ReadFull 4 r);
  let frameLength := get_be len in
  if MaxFrameLen <? frameLength then Err (Errorf "frame_data_length is too large") else
  '(data, r) ← map_err (fun e => Wrapf "reading frame_data" (eofAsUnexpectedMissing e)) (ReadFull frameLength r);
  '(isLastByte, r) ← map_err (fun e => Wrapf "reading final byte (is_last)" (eofAsUnexpectedMissing e)) (ReadByte r);
  if isLastByte =? 0 then Ok (mkFrame id (get_be num) data false, r)
  else if isLastByte =? 1 then Ok (mkFrame id (get_be num) data true, r)
  else Err (Errorf "invalid byte as is_last").

(** The loop [for buf.Len() > 0] of [ParseFrames]. *)
Fixpoint parse_loop (fuel : nat) (buf : bytes) (frames : list Frame) : res (list Frame) :=
  match fuel with
  | O => Err (GoPanic "out of fuel")
  | S fuel =>
      if blen buf =? 0 then Ok frames
      else
        '(f, buf) ← map_err (Wrapf "parsing frame") (UnmarshalBinary buf);
        parse_loop fuel buf (frames ++ [f])
  end.

(** [ParseFrames]. A frame takes at least one byte of the buffer, so one more
    turn than there are bytes is enough for the loop ([parse_loop_total]). *)
Definition ParseFrames (data : bytes) : res (list Frame) :=
  match data with
  | [] => Err (Errorf "data array must not be empty")
  | v :: rest =>
      if negb (v =? DerivationVersion0) then Err (Errorf "invalid derivation format byte")
      else
        frames ← parse_loop (S (length rest)) rest [];
        if decide (frames = []) then Err (Errorf "was not able to find any frames")
        else Ok frames
  end.

(** ** The codec *)

Lemma marshal_ok f : frame_wf f -> bytes_ok (MarshalBinary f).
Proof.
  intros ((_ & Hid) & _ & Hd & _). unfold MarshalBinary.
  rewrite !bytes_ok_app. repeat split; auto with go_int.
  repeat constructor; destruct (IsLast f); ulia.
Qed.

Lemma unmarshal_marshal f r : frame_wf f -> UnmarshalBinary (MarshalBinary f ++ r) = Ok (f, r).
Proof.
  intros ((Hidl & Hid) & Hn & Hd & Hl). unfold UnmarshalBinary, MarshalBinary.
  unfold MaxFrameLen, is_u16 in *. rewrite <- !app_assoc.
  rewrite ReadFull_app by (unfold blen; lia). cbn [map_err mbind res_bind].
  rewrite ReadFull_app by (unfold blen; rewrite length_put_be; lia). cbn [map_err mbind res_bind].
  rewrite ReadFull_app by (unfold blen; rewrite length_put_be; lia). cbn [map_err mbind res_bind].
  assert (0 <= blen (Data f)) by (unfold blen; lia).
  rewrite !get_put_be by (change (256 ^ Z.of_nat 4) with (2 ^ 32); change (256 ^ Z.of_nat 2) with (2 ^ 16); ulia).
  rewrite u32_id by ulia.
  destruct (Z.ltb_spec 1000000 (blen (Data f))); [lia|].
  rewrite ReadFull_app by done. cbn [map_err mbind res_bind].
  destruct f as [id num data []]; reflexivity.
Qed.

(** The bytes the parser cut the input into are the encoding of the frame. *)
Lemma marshal_parts id num len data last r :
  is_array 16 id -> is_array 2 num -> is_array 4 len -> bytes_ok data ->
  get_be len = blen data -> blen data <= MaxFrameLen ->
  id ++ num ++ len ++ data ++ (if last : bool then 1 else 0) :: r =
    MarshalBinary (mkFrame id (get_be num) data last) ++ r /\
  frame_wf (mkFrame id (get_be num) data last).
Proof.
  intros Hid [Hnl Hn] [Hll Hl] Hd Hlen Hmax. unfold MarshalBinary, frame_wf. cbn [ID FrameNumber Data IsLast].
  pose proof (put_get_be num Hn) as En. pose proof (put_get_be len Hl) as El. rewrite Hnl in En. rewrite Hll in El.
  pose proof (get_be_range num Hn) as Rn. unfold blen in Rn. rewrite Hnl in Rn.
  unfold MaxFrameLen in *. split; [|by auto].
  rewrite u32_id by (unfold blen in *; ulia). by rewrite <- Hlen, En, El, <- !app_assoc.
Qed.

Lemma unmarshal_inv r f r' : bytes_ok r -> UnmarshalBinary r = Ok (f, r') ->
  r = MarshalBinary f ++ r' /\ frame_wf f.
Proof.
  unfold UnmarshalBinary. intros Hr H. ok_inv.
  all: repeat match goal with
  | H : ReadFull ?n ?r = Ok _, Hr : bytes_ok ?r |- _ =>
      apply ReadFull_inv in H as (-> & ? & ? & ?); [|assumption|first [done | by apply get_be_range]];
      clear Hr
  | H : ReadByte ?r = Ok _ |- _ => destruct r; [done|]; injection H as -> ->
  | H : (_ =? _) = true |- _ => apply Z.eqb_eq in H as ->
  | H : (_ <? _) = false |- _ => apply Z.ltb_ge in H
  end.
  all: first [apply marshal_parts with (last := false) | apply marshal_parts with (last := true)].
  all: try (split; [unfold blen in *; lia|assumption]); try assumption; lia.
Qed.

Lemma marshal_nonempty f : frame_wf f -> (0 < length (MarshalBinary f))%nat.
Proof. intros ((? & _) & _). unfold MarshalBinary. rewrite length_app. lia. Qed.

Lemma parse_loop_marshal fs acc fuel :
  Forall frame_wf fs -> (length (concat (map MarshalBinary fs)) < fuel)%nat ->
  parse_loop fuel (concat (map MarshalBinary fs)) acc = Ok (acc ++ fs).
Proof.
  revert acc fuel. induction fs as [|f fs IH]; intros acc [|fuel] Hwf Hf; cbn in Hf; try lia.
  - cbn. by rewrite app_nil_r.
  - apply Forall_cons_1 in Hwf as [Hwf Hwfs]. pose proof (marshal_nonempty f Hwf).
    cbn [parse_loop map concat]. rewrite length_app in Hf.
    unfold blen. rewrite length_app. destruct (Z.eqb_spec (Z.of_nat (length (MarshalBinary f) + length (concat (map MarshalBinary fs)))) 0); [lia|].
    rewrite unmarshal_marshal by done. cbn [map_err mbind res_bind].
    rewrite IH by (done || lia). by rewrite <- app_assoc.
Qed.

Lemma parse_loop_inv fuel r acc fs : bytes_ok r -> parse_loop fuel r acc = Ok fs ->
  exists gs, fs = acc ++ gs /\ r = concat (map MarshalBinary gs) /\ Forall frame_wf gs.
Proof.
  revert r acc. induction fuel as [|fuel IH]; intros r acc Hr H; [done|]. cbn in H.
  destruct (Z.eqb_spec (blen r) 0) as [Hz|Hz].
  - injection H as <-. exists []. rewrite app_nil_r.
    destruct r; unfold blen in Hz; cbn in *; [by auto|lia].
  - ok_inv. match goal with H : UnmarshalBinary r = Ok _ |- _ => apply unmarshal_inv in H as [-> ?]; [|done] end.
    apply bytes_ok_app in Hr as [_ Hr].
    destruct (IH _ _ Hr H) as (gs & -> & -> & Hgs).
    eexists (_ :: gs). rewrite <- app_assoc. split; [done|]. split; [done|]. by constructor.
Qed.

Lemma UnmarshalBinary_no_panic r : no_panic (UnmarshalBinary r).
Proof.
  unfold UnmarshalBinary. repeat (apply no_panic_bind; [auto with go_panic|]; intros [? ?] _).
  destruct (_ <? _); [auto with go_panic|].
  repeat (apply no_panic_bind; [auto with go_panic|]; intros [? ?] _). repeat case_match; auto with go_panic.
Qed.

(** The loop never runs out of its fuel: it decides every buffer. *)
Lemma parse_loop_total fuel r acc : bytes_ok r -> (length r < fuel)%nat ->
  parse_loop fuel r acc <> Err (GoPanic "out of fuel").
Proof.
  revert r acc. induction fuel as [|fuel IH]; intros r acc Hr Hl; [lia|]. cbn.
  destruct (Z.eqb_spec (blen r) 0); [done|].
  pose proof (UnmarshalBinary_no_panic r) as Hp.
  destruct (UnmarshalBinary r) as [[f r']|e] eqn:E; cbn; [|by destruct e; cbn; try done; destruct (Hp msg)].
  apply unmarshal_inv in E as [-> Hwf]; [|done]. apply bytes_ok_app in Hr as [_ Hr].
  pose proof (marshal_nonempty f Hwf). rewrite length_app in Hl. apply IH; [done|lia].
Qed.

(** ** Properties *)

(** C1. A batcher transaction parses into [fs] exactly when it is the version
    byte followed by the concatenated encodings of the frames of [fs], which
    are well formed and at least one; and the parsing loop always terminates. *)
Theorem ParseFrames_canonical data :
  bytes_ok data ->
  (forall fs, ParseFrames data = Ok fs <->
     data = DerivationVersion0 :: concat (map MarshalBinary fs) /\ Forall frame_wf fs /\ fs <> []) /\
  ParseFrames data <> Err (GoPanic "out of fuel").
Proof.
  intros Hok. split; [intros fs; split|].
  - destruct data as [|v rest]; cbn -[parse_loop]; [done|]. apply Forall_cons_1 in Hok as [_ Hok].
    destruct (Z.eqb_spec v DerivationVersion0) as [->|]; cbn [negb]; [|done].
    intros H. apply res_bind_ok in H as (gs & Hp & H).
    destruct (decide (gs = [])); [done|]. injection H as <-.
    apply parse_loop_inv in Hp as (hs & -> & -> & Hwf); done.
  - intros (-> & Hwf & Hne). cbn -[parse_loop]. rewrite parse_loop_marshal by (done || lia).
    cbn. by rewrite decide_False.
  - destruct data as [|v rest]; cbn -[parse_loop]; [done|]. apply Forall_cons_1 in Hok as [_ Hok].
    destruct (Z.eqb_spec v DerivationVersion0); cbn [negb]; [|done].
    pose proof (parse_loop_total (S (length rest)) rest [] Hok ltac:(lia)).
    destruct (parse_loop _ _ _); cbn; [by case_decide|congruence].
Qed.

Definition example_frame : Frame :=
  {| ID := replicate 16 7; FrameNumber := 258; Data := [1; 2; 3]; IsLast := true |}.

Lemma ParseFrames_canonical_witness :
  ParseFrames (0 :: MarshalBinary example_frame) = Ok [example_frame].
Proof.
  apply (proj1 (ParseFrames_canonical (0 :: MarshalBinary example_frame)
    ltac:(vm_decide)) [example_frame]).
  split; [reflexivity|]. split; [|discriminate].
  constructor; [vm_decide|constructor].
Defined.
