(* ===== verification/Channel.v ===== *)
(** * Channels

    [op-node/rollup/derive/channel.go]: out-of-order ingestion of frames, the
    readiness test and the reader over the reassembled data. *)

From S2P Require Import Prelude Eth Frame.

(** [inputs] maps a frame number to the buffered frame. *)
Record Channel := mkChannel {
  ch_id : ChannelID;
  ch_openBlock : L1BlockRef;
  ch_size : Z;
  ch_closed : bool;
  ch_highestFrameNumber : Z;
  ch_endFrameNumber : Z;
  ch_inputs : gmap Z Frame;
  ch_highestL1InclusionBlock : L1BlockRef;
}.

Definition NewChannel (id : ChannelID) (openBlock : L1BlockRef) : Channel :=
  {| ch_id := id; ch_openBlock := openBlock; ch_size := 0; ch_closed := false;
     ch_highestFrameNumber := 0; ch_endFrameNumber := 0; ch_inputs := ∅;
     ch_highestL1InclusionBlock := zero_L1BlockRef |}.

(** The loop over [ch.inputs] that prunes the frames from number [e] on: every
    frame it ranges over is subtracted from the size, removed or not. Go does
    not define the order of the iteration, and it does not matter here: the
    wrapping subtractions commute. *)
Definition prune_inputs (e : Z) (inputs : gmap Z Frame) : gmap Z Frame :=
  filter (fun p => p.1 < e) inputs.

Definition prune_size (inputs : gmap Z Frame) (size : Z) : Z :=
  fold_left (fun acc p => acc -₆₄ frameSize p.2) (map_to_list inputs) size.

(** The body of [AddFrame] after its checks. *)
Definition addFrame_update (ch : Channel) (frame : Frame) (l1 : L1BlockRef) : Channel :=
  let num := FrameNumber frame in
  let end_ := if IsLast frame then num else ch_endFrameNumber ch in
  let closed := IsLast frame || ch_closed ch in
  let pruning := IsLast frame && (end_ <? ch_highestFrameNumber ch) in
  let inputs := if pruning then prune_inputs end_ (ch_inputs ch) else ch_inputs ch in
  let size := if pruning then prune_size (ch_inputs ch) (ch_size ch) else ch_size ch in
  let highest := if pruning then end_ else ch_highestFrameNumber ch in
  let highest := if highest <? num then num else highest in
  let hl1 := if l1_Number (ch_highestL1InclusionBlock ch) <? l1_Number l1
             then l1 else ch_highestL1InclusionBlock ch in
  {| ch_id := ch_id ch; ch_openBlock := ch_openBlock ch;
     ch_size := size +₆₄ frameSize frame; ch_closed := closed;
     ch_highestFrameNumber := highest; ch_endFrameNumber := end_;
     ch_inputs := <[num := frame]> inputs; ch_highestL1InclusionBlock := hl1 |}.

(** [Channel.AddFrame]: the new state and the error, if any. *)
Definition AddFrame (ch : Channel) (frame : Frame) (l1 : L1BlockRef) : Channel * res unit :=
  if negb (bool_decide (ID frame = ch_id ch)) then
    (ch, Err (Errorf "frame id does not match channel id"))
  else if IsLast frame && ch_closed ch then
    (ch, Err (Errorf "cannot add ending frame to a closed channel"))
  else if bool_decide (is_Some (ch_inputs ch !! FrameNumber frame)) then
    (ch, Err DuplicateErr)
  else if ch_closed ch && (ch_endFrameNumber ch <=? FrameNumber frame) then
    (ch, Err (Errorf "frame number is greater than or equal to end frame number of a closed channel"))
  else (addFrame_update ch frame l1, Ok tt).

Definition OpenBlockNumber (ch : Channel) : Z := l1_Number (ch_openBlock ch).

Definition Size (ch : Channel) : Z := ch_size ch.

(** [0, 1, ..., endFrameNumber], the indices of the loops of [IsReady] and [Reader]. *)
Definition frame_numbers (ch : Channel) : list Z :=
  map Z.of_nat (seq 0 (S (Z.to_nat (ch_endFrameNumber ch)))).

Definition IsReady (ch : Channel) : bool :=
  ch_closed ch &&
  (Z.of_nat (size (ch_inputs ch)) =? ch_endFrameNumber ch + 1) &&
  forallb (fun i => bool_decide (is_Some (ch_inputs ch !! i))) (frame_numbers ch).

(** [Channel.Reader] drained by [io.ReadAll]: the concatenated frame data; a
    missing frame panics. *)
Definition Reader (ch : Channel) : res bytes :=
  foldr (fun i rest =>
    match ch_inputs ch !! i with
    | None => Err (GoPanic "dev error in channel.Reader. Must be called after the channel is ready.")
    | Some frame => data ← rest; Ok (Data frame ++ data)
    end) (Ok []) (frame_numbers ch).

(** ** Specification *)

(** The memory the buffered frames stand for. *)
Definition inputs_size (inputs : gmap Z Frame) : Z :=
  map_fold (fun _ f acc => frameSize f + acc) 0 inputs.

(** What every reachable channel satisfies. [ch_size] is the exact sum until a
    closing frame pruned, and a lower bound of it ever after. *)
Record channel_inv (ch : Channel) : Prop := {
  inv_keys : map_Forall (fun i f => FrameNumber f = i /\ frame_wf f /\ ID f = ch_id ch) (ch_inputs ch);
  inv_highest : map_Forall (fun i _ => i <= ch_highestFrameNumber ch) (ch_inputs ch);
  inv_closed : if ch_closed ch
    then map_Forall (fun i _ => i <= ch_endFrameNumber ch) (ch_inputs ch) /\
         is_Some (ch_inputs ch !! ch_endFrameNumber ch)
    else map_Forall (fun _ f => IsLast f = false) (ch_inputs ch);
  inv_size : 0 <= ch_size ch <= inputs_size (ch_inputs ch);
  inv_size_open : ch_closed ch = false -> ch_size ch = inputs_size (ch_inputs ch);
  inv_end : is_u16 (ch_endFrameNumber ch);
}.

(** The frames a batcher cuts a channel into: numbered 0, 1, ..., the last one
    and only the last one marked. *)
Definition frames_of (id : ChannelID) (parts : list bytes) : list Frame :=
  imap (fun i d => mkFrame id (Z.of_nat i) d (bool_decide (S i = length parts))) parts.

Definition ingest (ch : Channel) (fs : list (Frame * L1BlockRef)) : Channel :=
  fold_left (fun ch p => fst (AddFrame ch p.1 p.2)) fs ch.

(** ** Sizes *)

Lemma frameSize_exact f : frame_wf f -> frameSize f = blen (Data f) + frameOverhead.
Proof.
  intros (_ & _ & _ & H). unfold frameSize, frameOverhead, MaxFrameLen, blen in *. ulia.
Qed.

Lemma frameSize_bounds f : frame_wf f -> 200 <= frameSize f <= 1000200.
Proof.
  intros H. rewrite frameSize_exact by done. destruct H as (_ & _ & _ & H).
  unfold MaxFrameLen, frameOverhead, blen in *. lia.
Qed.

Lemma inputs_size_empty : inputs_size ∅ = 0.
Proof. apply map_fold_empty. Qed.

Lemma inputs_size_insert m i f : m !! i = None -> inputs_size (<[i := f]> m) = frameSize f + inputs_size m.
Proof. intros. unfold inputs_size. rewrite map_fold_insert_L; [done|intros; lia|done]. Qed.

Lemma inputs_size_list m : inputs_size m = foldr (fun p acc => frameSize p.2 + acc) 0 (map_to_list m).
Proof. unfold inputs_size. rewrite map_fold_foldr. by apply foldr_ext; [intros []| |]. Qed.

Lemma inputs_size_bounds (m : gmap Z Frame) : map_Forall (fun _ f => frame_wf f) m ->
  0 <= inputs_size m <= Z.of_nat (size m) * 1000200.
Proof.
  induction m as [|i f m Hi IH] using map_ind; intros H.
  - rewrite inputs_size_empty, map_size_empty. lia.
  - apply map_Forall_insert in H as [Hf Hm]; [|done].
    rewrite inputs_size_insert, map_size_insert_None by done.
    specialize (IH Hm). pose proof (frameSize_bounds f Hf). lia.
Qed.

Lemma inputs_size_filter_le P `{forall x : Z * Frame, Decision (P x)} (m : gmap Z Frame) :
  map_Forall (fun _ f => frame_wf f) m -> inputs_size (filter P m) <= inputs_size m.
Proof.
  induction m as [|i f m Hi IH] using map_ind; intros Hm.
  - rewrite map_filter_empty. lia.
  - apply map_Forall_insert in Hm as [Hf Hm]; [|done]. specialize (IH Hm).
    pose proof (frameSize_bounds f Hf).
    rewrite (inputs_size_insert m) by done. destruct (decide (P (i, f))).
    + rewrite map_filter_insert_True by done.
      rewrite inputs_size_insert by (rewrite map_lookup_filter_None; auto). lia.
    + rewrite map_filter_insert_False, delete_id by done. lia.
Qed.

(** At most 2^16 frames: the sum of the sizes cannot reach 2^64. *)
Lemma inputs_count (m : gmap Z Frame) : map_Forall (fun i f => FrameNumber f = i /\ frame_wf f) m ->
  Z.of_nat (size m) <= 2 ^ 16.
Proof.
  intros H. rewrite <- size_dom.
  assert (Hs : dom m ⊆ list_to_set (C := gset Z) (seqZ 0 (2 ^ 16))).
  { intros i Hi. apply elem_of_dom in Hi as [f Hf]. apply H in Hf as (<- & _ & Hn & _).
    rewrite elem_of_list_to_set, elem_of_seqZ. unfold is_u16 in Hn. lia. }
  apply subseteq_size in Hs. rewrite size_list_to_set in Hs by apply NoDup_seqZ.
  rewrite length_seqZ in Hs. lia.
Qed.

Lemma inputs_size_u64 (m : gmap Z Frame) : map_Forall (fun i f => FrameNumber f = i /\ frame_wf f) m ->
  0 <= inputs_size m <= 2 ^ 37.
Proof.
  intros H. pose proof (inputs_count m H).
  pose proof (inputs_size_bounds m ltac:(intros i f Hf; by apply H in Hf as [_ ?])). lia.
Qed.

(** The pruning loop subtracts the whole sum. *)
Lemma prune_size_exact m s : prune_size m s = u64 (s - inputs_size m) \/ map_to_list m = [] /\ prune_size m s = s.
Proof.
  rewrite inputs_size_list. unfold prune_size. destruct (map_to_list m) as [|p l]; [by right|left].
  revert p s. induction l as [|q l IH]; intros p s; cbn in *; [ulia|].
  rewrite IH. generalize (foldr (fun p acc => frameSize p.2 + acc) 0 l). intros. ulia.
Qed.

(** ** The invariant *)

Lemma channel_inv_new id b : channel_inv (NewChannel id b).
Proof.
  constructor; cbn; try apply map_Forall_empty; try rewrite inputs_size_empty; try done; ulia.
Qed.

Lemma inv_keys_wf ch : channel_inv ch ->
  map_Forall (fun i f => FrameNumber f = i /\ frame_wf f) (ch_inputs ch).
Proof. intros H i f Hf. by destruct (inv_keys _ H i f Hf) as (? & ? & _). Qed.

Lemma prune_inputs_lookup e m i : prune_inputs e m !! i = if decide (i < e) then m !! i else None.
Proof.
  unfold prune_inputs. destruct (m !! i) as [f|] eqn:E; case_decide.
  - by apply map_lookup_filter_Some.
  - apply map_lookup_filter_None. naive_solver.
  - apply map_lookup_filter_None. auto.
  - apply map_lookup_filter_None. auto.
Qed.

(** The size left by the pruning loop of an open channel is zero: every
    buffered frame was subtracted, also the ones that stay. *)
Lemma prune_size_open ch : channel_inv ch -> ch_closed ch = false ->
  prune_size (ch_inputs ch) (ch_size ch) = 0.
Proof.
  intros Hinv Hc. rewrite (inv_size_open _ Hinv Hc).
  destruct (prune_size_exact (ch_inputs ch) (inputs_size (ch_inputs ch))) as [->|[E ->]].
  - rewrite Z.sub_diag. done.
  - by rewrite inputs_size_list, E.
Qed.

(** The frames and the size of a channel after an accepted frame. *)
Lemma addFrame_update_size ch f l1 : channel_inv ch -> frame_wf f ->
  (IsLast f && ch_closed ch = false) ->
  ch_size (addFrame_update ch f l1) =
    if IsLast f && (FrameNumber f <? ch_highestFrameNumber ch) then frameSize f
    else ch_size ch + frameSize f.
Proof.
  intros Hinv Hwf Hlast. unfold addFrame_update. cbn.
  pose proof (inputs_size_u64 _ (inv_keys_wf _ Hinv)). pose proof (inv_size _ Hinv).
  pose proof (frameSize_bounds f Hwf).
  destruct (IsLast f); cbn in *; [|ulia].
  destruct (_ <? _); [|ulia]. rewrite prune_size_open by done. ulia.
Qed.

Lemma addFrame_update_lookup ch f l1 i :
  ch_inputs (addFrame_update ch f l1) !! i =
    if decide (i = FrameNumber f) then Some f
    else if IsLast f && (FrameNumber f <? ch_highestFrameNumber ch) && (FrameNumber f <=? i)
    then None else ch_inputs ch !! i.
Proof.
  unfold addFrame_update. cbn. rewrite lookup_insert. repeat case_decide; try congruence.
  destruct (IsLast f); cbn; [|done]. destruct (_ <? _) eqn:E; cbn; [|done].
  rewrite prune_inputs_lookup. destruct (Z.leb_spec (FrameNumber f) i); case_decide; done || lia.
Qed.

Lemma addFrame_update_inputs_size ch f l1 : channel_inv ch -> frame_wf f ->
  ch_inputs ch !! FrameNumber f = None ->
  frameSize f <= inputs_size (ch_inputs (addFrame_update ch f l1)) /\
  (IsLast f && (FrameNumber f <? ch_highestFrameNumber ch) = false ->
   inputs_size (ch_inputs (addFrame_update ch f l1)) = frameSize f + inputs_size (ch_inputs ch)).
Proof.
  intros Hinv Hwf Hnew. unfold addFrame_update. cbn.
  pose proof (inv_keys_wf _ Hinv) as Hk.
  destruct (IsLast f); cbn; [destruct (_ <? _)|].
  - rewrite inputs_size_insert by (rewrite prune_inputs_lookup; rewrite decide_False; [done|lia]). split; [|done].
    pose proof (inputs_size_bounds (prune_inputs (FrameNumber f) (ch_inputs ch))) as Hb.
    enough (0 <= inputs_size (prune_inputs (FrameNumber f) (ch_inputs ch))) by lia. apply Hb.
    intros i g Hg. rewrite prune_inputs_lookup in Hg. case_decide; [|done]. by apply Hk in Hg as [_ ?].
  - rewrite inputs_size_insert by done. split; [|done].
    pose proof (inputs_size_u64 _ Hk). lia.
  - rewrite inputs_size_insert by done. split; [|done].
    pose proof (inputs_size_u64 _ Hk). lia.
Qed.

(** An accepted frame keeps the invariant; the guards of [AddFrame] are what
    the preservation needs. *)
Lemma addFrame_update_inv ch f l1 :
  channel_inv ch -> frame_wf f -> ID f = ch_id ch ->
  (IsLast f && ch_closed ch = false) -> ch_inputs ch !! FrameNumber f = None ->
  (ch_closed ch && (ch_endFrameNumber ch <=? FrameNumber f) = false) ->
  channel_inv (addFrame_update ch f l1).
Proof.
  intros Hinv Hwf Hid Hlast Hnew Hend.
  destruct (addFrame_update_inputs_size ch f l1) as [Hs1 Hs2]; [done..|].
  pose proof (inv_size _ Hinv). pose proof (frameSize_bounds f Hwf).
  constructor.
  - intros i g. rewrite addFrame_update_lookup. case_decide; [intros [= <-]; by subst|].
    destruct (_ && _ && _); [done|]. apply (inv_keys _ Hinv).
  - intros i g. rewrite addFrame_update_lookup. unfold addFrame_update. cbn.
    case_decide; [intros [= <-]; repeat case_match; lia|].
    destruct (IsLast f); cbn; zcases; cbn; intros Hg; try done;
      pose proof (inv_highest _ Hinv i g Hg); cbn in *; lia.
  - pose proof (inv_closed _ Hinv) as Hc.
    change (ch_closed (addFrame_update ch f l1)) with (IsLast f || ch_closed ch).
    change (ch_endFrameNumber (addFrame_update ch f l1))
      with (if IsLast f then FrameNumber f else ch_endFrameNumber ch).
    destruct (IsLast f) eqn:El, (ch_closed ch) eqn:Ec; cbn [orb andb] in *; try done.
    + rewrite addFrame_update_lookup, El, decide_True by done. split; [|done]. cbn [andb].
      intros i g. rewrite addFrame_update_lookup, El. case_decide; [intros; lia|]. cbn [andb].
      zcases; cbn; intros Hg; try done; pose proof (inv_highest _ Hinv i g Hg); cbn in *; lia.
    + apply Z.leb_gt in Hend. destruct Hc as [Hc1 Hc2]. split.
      * intros i g. rewrite addFrame_update_lookup, El. case_decide; [intros; lia|]. apply Hc1.
      * rewrite addFrame_update_lookup, El, decide_False by lia. done.
    + intros i g. rewrite addFrame_update_lookup, El. case_decide; [intros [= <-]; done|]. apply Hc.
  - rewrite addFrame_update_size by done.
    destruct (IsLast f && (_ <? _)) eqn:E; [lia|]. rewrite Hs2 by done. lia.
  - rewrite addFrame_update_size by done.
    change (ch_closed (addFrame_update ch f l1)) with (IsLast f || ch_closed ch).
    intros [El Ec]%orb_false_iff.
    rewrite El in *. cbn [andb] in *. rewrite Hs2, (inv_size_open _ Hinv) by done. lia.
  - unfold addFrame_update. cbn. destruct Hwf as (_ & Hn & _). destruct (IsLast f); [done|].
    apply (inv_end _ Hinv).
Qed.

(** A frame is either refused, and the channel untouched, or accepted with all
    the guards passed. *)
Lemma AddFrame_cases ch f l1 :
  (exists e, AddFrame ch f l1 = (ch, Err e)) \/
  (AddFrame ch f l1 = (addFrame_update ch f l1, Ok tt) /\
   ID f = ch_id ch /\ IsLast f && ch_closed ch = false /\
   ch_inputs ch !! FrameNumber f = None /\
   ch_closed ch && (ch_endFrameNumber ch <=? FrameNumber f) = false).
Proof.
  unfold AddFrame.
  destruct (bool_decide_reflect (ID f = ch_id ch)); cbn; [|by eauto].
  destruct (IsLast f && ch_closed ch) eqn:?; [by eauto|].
  destruct (bool_decide_reflect (is_Some (ch_inputs ch !! FrameNumber f))); [by eauto|].
  destruct (ch_closed ch && _) eqn:?; [by eauto|].
  right. by rewrite eq_None_not_Some.
Qed.

Lemma AddFrame_inv ch f l1 : channel_inv ch -> frame_wf f -> channel_inv (AddFrame ch f l1).1.
Proof.
  intros Hinv Hwf. destruct (AddFrame_cases ch f l1) as [[e ->]|(-> & ? & ? & ? & ?)]; [done|].
  by apply addFrame_update_inv.
Qed.

Lemma AddFrame_id ch f l1 : ch_id (AddFrame ch f l1).1 = ch_id ch.
Proof. by destruct (AddFrame_cases ch f l1) as [[e ->]|(-> & _)]. Qed.

Lemma ingest_inv ch fs : channel_inv ch -> Forall (fun p => frame_wf p.1) fs -> channel_inv (ingest ch fs).
Proof.
  revert ch. induction fs as [|[f l1] fs IH]; intros ch Hinv Hfs; [done|].
  apply Forall_cons_1 in Hfs as [Hf Hfs]. apply IH; [|done]. by apply AddFrame_inv.
Qed.

(** ** Reassembly *)

Lemma frames_of_lookup id parts i f : frames_of id parts !! i = Some f <->
  exists d, parts !! i = Some d /\
    f = mkFrame id (Z.of_nat i) d (bool_decide (S i = length parts)).
Proof.
  unfold frames_of. rewrite list_lookup_imap. destruct (parts !! i); cbn; naive_solver.
Qed.

(** The state of a channel that has ingested the frames [done] of a channel of
    [n] frames, in any order: nothing was pruned. *)
Record ingested (id : ChannelID) (n : nat) (done_ : list Frame) (ch : Channel) : Prop := {
  ing_id : ch_id ch = id;
  ing_inputs : forall i f, ch_inputs ch !! i = Some f <-> f ∈ done_ /\ FrameNumber f = i;
  ing_closed : ch_closed ch = true <-> exists f, f ∈ done_ /\ IsLast f = true;
  ing_end : ch_closed ch = true -> ch_endFrameNumber ch = Z.of_nat n - 1;
  ing_highest : ch_highestFrameNumber ch <= Z.of_nat n - 1;
}.

Lemma AddFrame_ingested id n done_ ch f l1 :
  ingested id n done_ ch -> ID f = id -> 0 <= FrameNumber f < Z.of_nat n ->
  IsLast f = bool_decide (FrameNumber f = Z.of_nat n - 1) ->
  (forall g, g ∈ done_ -> FrameNumber g <> FrameNumber f /\ IsLast g = bool_decide (FrameNumber g = Z.of_nat n - 1)) ->
  ingested id n (f :: done_) (AddFrame ch f l1).1.
Proof.
  intros H Hid Hn Hl Hd.
  assert (Hnew : ch_inputs ch !! FrameNumber f = None).
  { apply eq_None_not_Some. intros [g Hg]. apply (ing_inputs _ _ _ _ H) in Hg as [Hg Hgn].
    by apply Hd in Hg as [? _]. }
  assert (Hc : IsLast f = true -> ch_closed ch = false).
  { intros Hlf. apply not_true_iff_false. intros (g & Hg & Hgl)%(ing_closed _ _ _ _ H).
    apply Hd in Hg as [Hne Hg]. rewrite Hl in Hlf. rewrite Hg in Hgl.
    apply bool_decide_eq_true in Hlf, Hgl. congruence. }
  unfold AddFrame. rewrite bool_decide_eq_true_2 by (by rewrite (ing_id _ _ _ _ H)). cbn.
  destruct (IsLast f && ch_closed ch) eqn:E1.
  { apply andb_true_iff in E1 as [E1 E1']. specialize (Hc E1). congruence. }
  rewrite bool_decide_eq_false_2 by (by rewrite Hnew; intros []%is_Some_None).
  destruct (ch_closed ch && _) eqn:E2.
  { apply andb_true_iff in E2 as [E2 E2']. apply Z.leb_le in E2'.
    rewrite (ing_end _ _ _ _ H E2) in E2'.
    rewrite E2, andb_true_r, Hl in E1. apply bool_decide_eq_false in E1. lia. }
  cbn. pose proof (ing_highest _ _ _ _ H) as Hh. split.
  - unfold addFrame_update; cbn. apply (ing_id _ _ _ _ H).
  - intros i g. rewrite addFrame_update_lookup, elem_of_cons.
    replace (IsLast f && _ && _) with false.
    2:{ symmetry. rewrite Hl. case_bool_decide; [|done]. zcases; cbn; done || lia. }
    destruct (decide (i = FrameNumber f)) as [->|Hi]; [|rewrite (ing_inputs _ _ _ _ H)].
    + split; [intros [= <-]; auto|]. intros [[->|Hg] Hgn]; [done|]. by apply Hd in Hg as [? _].
    + split; [intros [? ?]; auto|]. by intros [[->|Hg] Hgn].
  - unfold addFrame_update; cbn. rewrite orb_true_iff, (ing_closed _ _ _ _ H).
    split.
    + intros [Hlf|(g & Hg & Hgl)]; [exists f|exists g]; by rewrite elem_of_cons; auto.
    + intros (g & [->|Hg]%elem_of_cons & Hgl); eauto.
  - unfold addFrame_update; cbn. destruct (IsLast f) eqn:El; cbn.
    + symmetry in Hl. apply bool_decide_eq_true in Hl. lia.
    + apply (ing_end _ _ _ _ H).
  - unfold addFrame_update; cbn. rewrite Hl. case_bool_decide; cbn; zcases; lia.
Qed.

Lemma ingest_ingested id n parts done_ ch fs :
  n = length parts -> ingested id n done_ ch -> NoDup (done_ ++ map fst fs) ->
  (forall f, f ∈ done_ ++ map fst fs -> f ∈ frames_of id parts) ->
  ingested id n (rev (map fst fs) ++ done_) (ingest ch fs).
Proof.
  intros Hn. revert done_ ch. induction fs as [|[f l1] fs IH]; intros done_ ch H Hnd Hin; [done|].
  cbn [map rev fst ingest fold_left]. rewrite <- app_assoc. cbn.
  assert (Hf : f ∈ frames_of id parts) by (apply Hin; set_solver).
  assert (Hg : forall g, g ∈ frames_of id parts -> ID g = id /\ 0 <= FrameNumber g < Z.of_nat n /\
    IsLast g = bool_decide (FrameNumber g = Z.of_nat n - 1)).
  { intros g (i & Hi)%list_elem_of_lookup. apply frames_of_lookup in Hi as (d & Hd & ->). cbn.
    apply lookup_lt_Some in Hd. repeat split; try lia. apply bool_decide_ext. lia. }
  assert (Hinj : forall g h, g ∈ frames_of id parts -> h ∈ frames_of id parts ->
    FrameNumber g = FrameNumber h -> g = h).
  { intros g h (i & Hi)%list_elem_of_lookup (j & Hj)%list_elem_of_lookup.
    apply frames_of_lookup in Hi as (d & Hd & ->), Hj as (d' & Hd' & ->). cbn.
    intros ->%Nat2Z.inj. congruence. }
  cbn in Hnd. rewrite <- Permutation_middle in Hnd. apply NoDup_cons in Hnd as [Hnin Hnd].
  apply IH; [|constructor; by rewrite <- ?app_comm_cons|set_solver].
  destruct (Hg f Hf) as (? & ? & ?).
  apply AddFrame_ingested; try done. intros g Hgd.
  assert (Hgf : g ∈ frames_of id parts) by (apply Hin; set_solver).
  destruct (Hg g Hgf) as (? & ? & ?). split; [|done].
  intros E. apply Hinj in E as ->; [|done..]. set_solver.
Qed.

Section complete.
Context (id : ChannelID) (parts : list bytes) (ch : Channel) (fs : list Frame).
Context (Hne : parts <> []) (H : ingested id (length parts) fs ch) (Hp : fs ≡ₚ frames_of id parts).

Lemma complete_lookup i d : parts !! i = Some d ->
  exists last, ch_inputs ch !! Z.of_nat i = Some (mkFrame id (Z.of_nat i) d last).
Proof using H Hp.
  intros Hd. exists (bool_decide (S i = length parts)).
  apply (ing_inputs _ _ _ _ H). split; [|done]. rewrite Hp.
  apply (list_elem_of_lookup_2 _ i), frames_of_lookup. eauto.
Qed.

Lemma complete_closed : ch_closed ch = true /\ ch_endFrameNumber ch = Z.of_nat (length parts) - 1.
Proof using H Hp Hne.
  assert (Hc : ch_closed ch = true); [|split; [done|by apply (ing_end _ _ _ _ H)]].
  destruct (lookup_lt_is_Some_2 parts (length parts - 1)) as [d Hd].
  { destruct parts; [done|cbn; lia]. }
  apply (ing_closed _ _ _ _ H). eexists. split.
  - rewrite Hp. apply (list_elem_of_lookup_2 _ (length parts - 1)), frames_of_lookup. eauto.
  - cbn. apply bool_decide_eq_true. apply lookup_lt_Some in Hd. lia.
Qed.

Lemma complete_frame_numbers : frame_numbers ch = map Z.of_nat (seq 0 (length parts)).
Proof using H Hp Hne.
  unfold frame_numbers. rewrite (proj2 complete_closed). do 2 f_equal.
  destruct parts; [done|cbn; lia].
Qed.

Lemma complete_size : size (ch_inputs ch) = length parts.
Proof using H Hp.
  rewrite <- size_dom.
  replace (dom (ch_inputs ch)) with (list_to_set (C := gset Z) (map Z.of_nat (seq 0 (length parts)))).
  - rewrite size_list_to_set by (apply NoDup_fmap_2; [apply _|apply NoDup_seq]).
    by rewrite length_map, length_seq.
  - apply set_eq. intros i. rewrite elem_of_list_to_set, elem_of_dom, list_elem_of_fmap. split.
    + intros (j & -> & Hj%elem_of_seq). destruct (lookup_lt_is_Some_2 parts j) as [d Hd]; [lia|].
      destruct (complete_lookup j d Hd) as [? ->]. eauto.
    + intros [f Hf]. apply (ing_inputs _ _ _ _ H) in Hf as [Hf <-]. rewrite Hp in Hf.
      apply list_elem_of_lookup in Hf as (j & Hj). apply frames_of_lookup in Hj as (d & Hd & ->).
      exists j. apply lookup_lt_Some in Hd. rewrite elem_of_seq. cbn. lia.
Qed.

Lemma IsReady_complete : IsReady ch = true.
Proof using H Hp Hne.
  unfold IsReady. rewrite complete_size, complete_frame_numbers. destruct complete_closed as [-> ->].
  rewrite andb_true_intro; [done|]. split; [apply Z.eqb_eq; lia|].
  apply forallb_forall. intros i (j & <- & Hj)%in_map_iff. apply in_seq in Hj.
  destruct (lookup_lt_is_Some_2 parts j) as [d Hd]; [lia|].
  destruct (complete_lookup j d Hd) as [? ->]. done.
Qed.

Lemma Reader_from m k : (k + m = length parts)%nat ->
  foldr (fun i rest =>
    match ch_inputs ch !! i with
    | None => Err (GoPanic "dev error in channel.Reader. Must be called after the channel is ready.")
    | Some frame => data ← rest; Ok (Data frame ++ data)
    end) (Ok []) (map Z.of_nat (seq k m)) = Ok (concat (drop k parts)).
Proof using H Hp.
  revert k. induction m as [|m IH]; intros k Hk; cbn.
  - by rewrite drop_ge by lia.
  - destruct (lookup_lt_is_Some_2 parts k) as [d Hd]; [lia|].
    rewrite IH by lia. destruct (complete_lookup k d Hd) as [? ->]. cbn.
    by rewrite (drop_S parts d k Hd).
Qed.

Lemma Reader_complete : Reader ch = Ok (concat parts).
Proof using H Hp Hne.
  unfold Reader. rewrite complete_frame_numbers. rewrite Reader_from; [done|lia].
Qed.
End complete.

(** The readiness test is what [Reader] needs not to panic. *)
Lemma Reader_ready ch : IsReady ch = true -> exists data, Reader ch = Ok data.
Proof.
  unfold IsReady, Reader. intros [_ H]%andb_true_iff.
  induction (frame_numbers ch) as [|i ns IH]; cbn in *; [by eauto|].
  apply andb_true_iff in H as [Hi H]. apply bool_decide_eq_true in Hi as [f ->].
  destruct (IH H) as [data ->]. cbn. eauto.
Qed.

(** All the frames of a channel, in any order, complete it. *)
Lemma ingest_complete id openBlock parts arrivals :
  parts <> [] -> map fst arrivals ≡ₚ frames_of id parts ->
  let ch := ingest (NewChannel id openBlock) arrivals in
  IsReady ch = true /\ Reader ch = Ok (concat parts).
Proof.
  intros Hne Hp ch.
  assert (H : ingested id (length parts) (rev (map fst arrivals) ++ []) ch).
  { apply ingest_ingested with (parts := parts); [done| | |].
    - split; cbn; try done; [|set_solver|destruct parts; [done|cbn; lia]].
      intros i f. rewrite lookup_empty. split; [done|]. intros [Hx _]. by apply elem_of_nil in Hx.
    - cbn. rewrite Hp. apply NoDup_alt. intros i j f Hi Hj.
      apply frames_of_lookup in Hi as (? & _ & ->), Hj as (? & _ & E). injection E. lia.
    - cbn. intros f. by rewrite Hp. }
  rewrite app_nil_r in H.
  assert (Hp' : rev (map fst arrivals) ≡ₚ frames_of id parts) by (by rewrite <- Permutation_rev).
  split; [by eapply IsReady_complete|by eapply Reader_complete].
Qed.

(** ** Properties *)

(** Whatever frames arrive in whatever order, a channel keeps its
    invariant: frames are filed under their own number and carry the channel's
    id, none is above the highest or (once closed) the end number, the end
    frame is present, and the memory estimate never exceeds the memory the
    buffered frames stand for, with equality while the channel is open. *)
Lemma channel_reachable_inv id openBlock fs :
  Forall (fun p => frame_wf p.1) fs ->
  channel_inv (ingest (NewChannel id openBlock) fs).
Proof. intros Hfs. apply ingest_inv; [apply channel_inv_new|done]. Qed.

(** C2. Reassembly: the frames of a channel, ingested in any order and at any
    L1 blocks, make the channel ready and reading it gives back the channel
    data. *)
Theorem reassembly_any_order id openBlock parts arrivals :
  parts <> [] ->
  map fst arrivals ≡ₚ frames_of id parts ->
  let ch := ingest (NewChannel id openBlock) arrivals in
  IsReady ch = true /\ Reader ch = Ok (concat parts).
Proof. exact (ingest_complete id openBlock parts arrivals). Qed.

(** When a closing frame prunes the frames above it, the memory estimate
    forgets the frames that stay: it is the size of the closing frame alone,
    although the frames below it are still buffered. *)
Lemma closing_prune_forgets_size ch f l1 ch' :
  channel_inv ch -> frame_wf f -> AddFrame ch f l1 = (ch', Ok tt) ->
  IsLast f = true -> FrameNumber f < ch_highestFrameNumber ch ->
  Size ch' = frameSize f /\
  forall i g, i < FrameNumber f -> ch_inputs ch !! i = Some g -> ch_inputs ch' !! i = Some g.
Proof.
  intros Hinv Hwf Hadd Hlast Hlt.
  destruct (AddFrame_cases ch f l1) as [[e E]|(E & _ & Hcl & _)]; rewrite E in Hadd; [done|].
  injection Hadd as <-. split.
  - unfold Size. rewrite addFrame_update_size by done. rewrite Hlast. cbn. by zcases; [|lia].
  - intros i g Hi Hg. rewrite addFrame_update_lookup, decide_False by lia. rewrite Hlast.
    cbn. zcases; cbn; done || lia.
Qed.

Definition ex_block : L1BlockRef :=
  {| l1_Hash := hash_of 1; l1_Number := 10; l1_ParentHash := hash_of 2; l1_Time := 1000 |}.
Definition ex_frame (n : Z) (last : bool) : Frame :=
  {| ID := replicate 16 9; FrameNumber := n; Data := [n; n + 1]; IsLast := last |}.
Definition ex_channel : Channel :=
  ingest (NewChannel (replicate 16 9) ex_block)
    [(ex_frame 0 false, ex_block); (ex_frame 1 false, ex_block); (ex_frame 5 false, ex_block)].

Lemma channel_reachable_inv_witness :
  channel_inv ex_channel /\ Size ex_channel = 606.
Proof.
  split; [|vm_compute; reflexivity].
  apply channel_reachable_inv. repeat constructor; cbn; vm_decide.
Defined.

Lemma reassembly_any_order_witness :
  let ch := ingest (NewChannel (replicate 16 9) ex_block)
    [(mkFrame (replicate 16 9) 1 [4; 5] true, ex_block); (mkFrame (replicate 16 9) 0 [1; 2; 3] false, ex_block)] in
  IsReady ch = true /\ Reader ch = Ok [1; 2; 3; 4; 5].
Proof.
  apply (reassembly_any_order (replicate 16 9) ex_block [[1; 2; 3]; [4; 5]]
    [(mkFrame (replicate 16 9) 1 [4; 5] true, ex_block); (mkFrame (replicate 16 9) 0 [1; 2; 3] false, ex_block)]).
  - discriminate.
  - apply Permutation_swap.
Defined.

Lemma closing_prune_forgets_size_witness :
  let ch' := (AddFrame ex_channel (ex_frame 2 true) ex_block).1 in
  Size ch' = 202 /\ inputs_size (ch_inputs ch') = 606.
Proof.
  split; [|vm_compute; reflexivity].
  apply (closing_prune_forgets_size ex_channel (ex_frame 2 true) ex_block).
  - apply ingest_inv; [apply channel_inv_new|]. repeat constructor; cbn; vm_decide.
  - vm_decide.
  - vm_compute. reflexivity.
  - reflexivity.
  - vm_compute. reflexivity.
Defined.
