(* ===== verification/Stages.v ===== *)
(** * Interfaces between the stages of the derivation pipeline

    Every stage of [op-node/rollup/derive] pulls from the stage before it
    through a small Go interface. Each interface is a class over the type of
    the state of the stage that implements it; a call returns the new state of
    that stage and a value or an error. *)

From S2P Require Import Prelude Eth Frame.

Class OriginProvider (S : Type) := Origin : S -> L1BlockRef.

(** [NextBlockProvider] of [l1_retrieval.go] *)
Class NextBlockProvider (S : Type) := {
  nb_origin :: OriginProvider S;
  NextL1Block : stM S L1BlockRef;
  Stage_SystemConfig : S -> SystemConfig;
}.

(** [NextDataProvider] of [frame_queue.go] *)
Class NextDataProvider (S : Type) := {
  nd_origin :: OriginProvider S;
  NextData : stM S bytes;
}.

(** [NextFrameProvider] of [channel_bank.go] *)
Class NextFrameProvider (S : Type) := {
  nf_origin :: OriginProvider S;
  NextFrame : stM S Frame;
}.

(** [NextBatchProvider] of [batch_queue.go], for a type [B] of batches *)
Class NextBatchProvider (S B : Type) := {
  nbt_origin :: OriginProvider S;
  NextBatch : stM S B;
}.

(** The batch queue as the attributes queue sees it: batches are asked for on
    top of the current safe head. *)
Class SafeBatchProvider (S B : Type) := {
  sb_origin :: OriginProvider S;
  NextSafeBatch : L2BlockRef -> stM S B;
}.

(** A stage driven by a script of results, for concrete examples. *)
Record script (A : Type) := mkScript { sc_origin : L1BlockRef; sc_todo : list (res A) }.
Arguments mkScript {A} _ _.
Arguments sc_origin {A} _.
Arguments sc_todo {A} _.

Definition script_next {A} : stM (script A) A := fun s =>
  match sc_todo s with
  | [] => (s, Err EOF)
  | r :: rest => (mkScript (sc_origin s) rest, r)
  end.

#[export] Instance script_origin {A} : OriginProvider (script A) := sc_origin.
#[export] Instance script_frames : NextFrameProvider (script Frame) := { NextFrame := script_next }.
#[export] Instance script_datas : NextDataProvider (script bytes) := { NextData := script_next }.
#[export] Instance script_batches {B} : NextBatchProvider (script B) B := { NextBatch := script_next }.
#[export] Instance script_safe {B} : SafeBatchProvider (script B) B := { NextSafeBatch := fun _ => script_next }.
