(* ===== verification/ChannelBank.v ===== *)
(** * The channel bank

    [op-node/rollup/derive/channel_bank.go]: buffers the frames of several
    channels, prunes the oldest channels when their total size is too large
    and emits the data of the channels that are complete. *)

From S2P Require Import Prelude Eth Frame Channel Stages.

Section ChannelBank.
Context {P : Type} `{NextFrameProvider P}.
Variable cfg : Config.

(** [channels] and [channelQueue] of the Go struct, and the previous stage. *)
Record ChannelBank := mkChannelBank {
  channels : gmap ChannelID Channel;
  channelQueue : list ChannelID;
  cb_prev : P;
}.

Definition NewChannelBank (prev : P) : ChannelBank :=
  {| channels := ∅; channelQueue := []; cb_prev := prev |}.

Definition cb_Origin (cb : ChannelBank) : L1BlockRef := Origin (cb_prev cb).

(** The sum loop of [prune]. *)
Definition totalSize (chs : gmap ChannelID Channel) : Z :=
  map_fold (fun _ ch acc => acc +₆₄ ch_size ch) 0 chs.

(** The pruning loop: [cb.channelQueue[0]] panics on an empty queue, and
    [ch.size] on a channel that is not in the map. *)
Fixpoint prune_loop (queue : list ChannelID) (chs : gmap ChannelID Channel) (total : Z)
    : res (list ChannelID * gmap ChannelID Channel) :=
  if MaxChannelBankSize <? total then
    match queue with
    | [] => Err (GoPanic "index out of range")
    | id :: queue =>
        match chs !! id with
        | None => Err (GoPanic "nil pointer dereference")
        | Some ch => prune_loop queue (delete id chs) (total -₆₄ ch_size ch)
        end
    end
  else Ok (queue, chs).

Definition prune (cb : ChannelBank) : res ChannelBank :=
  '(queue, chs) ← prune_loop (channelQueue cb) (channels cb) (totalSize (channels cb));
  Ok {| channels := chs; channelQueue := queue; cb_prev := cb_prev cb |}.

Definition timedOut (cb : ChannelBank) (ch : Channel) : bool :=
  OpenBlockNumber ch +₆₄ ChannelTimeout cfg <? l1_Number (cb_Origin cb).

(** [IngestFrame] *)
Definition IngestFrame (cb : ChannelBank) (f : Frame) : res ChannelBank :=
  let origin := cb_Origin cb in
  let '(currentCh, cb) :=
    match channels cb !! ID f with
    | Some ch => (ch, cb)
    | None =>
        let ch := NewChannel (ID f) origin in
        (ch, {| channels := <[ID f := ch]> (channels cb);
                channelQueue := channelQueue cb ++ [ID f]; cb_prev := cb_prev cb |})
    end in
  if timedOut cb currentCh then Ok cb
  else
    match AddFrame currentCh f origin with
    | (_, Err _) => Ok cb
    | (ch, Ok _) =>
        prune {| channels := <[ID f := ch]> (channels cb);
                 channelQueue := channelQueue cb; cb_prev := cb_prev cb |}
    end.

(** [tryReadChannelAtIndex] *)
Definition tryReadChannelAtIndex (i : nat) (cb : ChannelBank) : ChannelBank * res bytes :=
  match channelQueue cb !! i with
  | None => (cb, Err (GoPanic "index out of range"))
  | Some chanID =>
      match channels cb !! chanID with
      | None => (cb, Err (GoPanic "nil pointer dereference"))
      | Some ch =>
          if timedOut cb ch || negb (IsReady ch) then (cb, Err EOF)
          else
            ({| channels := delete chanID (channels cb);
                channelQueue := delete i (channelQueue cb); cb_prev := cb_prev cb |},
             Reader ch)
      end
  end.

(** The loop of [Read] over the whole queue (after Canyon). A panic is not an
    error value the loop could skip. *)
Fixpoint read_loop (n i : nat) (cb : ChannelBank) : ChannelBank * res bytes :=
  match n with
  | O => (cb, Err EOF)
  | S n =>
      match tryReadChannelAtIndex i cb with
      | (cb', Ok data) => (cb', Ok data)
      | (cb', Err (GoPanic m)) => (cb', Err (GoPanic m))
      | (cb', Err _) => read_loop n (S i) cb'
      end
  end.

(** [Read]; the data of a timed-out channel is the nil slice. *)
Definition Read (cb : ChannelBank) : ChannelBank * res bytes :=
  match channelQueue cb with
  | [] => (cb, Err EOF)
  | first :: rest =>
      match channels cb !! first with
      | None => (cb, Err (GoPanic "nil pointer dereference"))
      | Some ch =>
          if timedOut cb ch then
            ({| channels := delete first (channels cb); channelQueue := rest; cb_prev := cb_prev cb |}, Ok [])
          else if negb (IsCanyon cfg (l1_Time (cb_Origin cb))) then tryReadChannelAtIndex 0 cb
          else read_loop (length (channelQueue cb)) 0 cb
      end
  end.

(** [NextData]: read first, then load one frame. *)
Definition cb_NextData : stM ChannelBank bytes := fun cb =>
  match Read cb with
  | (cb, Ok data) => (cb, Ok data)
  | (cb, Err EOF) =>
      match NextFrame (cb_prev cb) with
      | (p, r) =>
          let cb := {| channels := channels cb; channelQueue := channelQueue cb; cb_prev := p |} in
          match r with
          | Err e => (cb, Err e)
          | Ok f =>
              match IngestFrame cb f with
              | Ok cb => (cb, Err NotEnoughData)
              | Err e => (cb, Err e)
              end
          end
      end
  | (cb, Err e) => (cb, Err e)
  end.

Definition cb_Reset (cb : ChannelBank) : ChannelBank * res unit :=
  ({| channels := ∅; channelQueue := []; cb_prev := cb_prev cb |}, Err EOF).

#[global] Instance ChannelBank_origin : OriginProvider ChannelBank := cb_Origin.
#[global] Instance ChannelBank_data : NextDataProvider ChannelBank := { NextData := cb_NextData }.

(** ** Specification *)

(** The exact sum of the channel sizes. *)
Definition bank_size (chs : gmap ChannelID Channel) : Z :=
  map_fold (fun _ ch acc => ch_size ch + acc) 0 chs.

(** The memory that the specification counts, of the channels that are still
    open. *)
Definition open_buffered (chs : gmap ChannelID Channel) : Z :=
  map_fold (fun _ ch acc => (if ch_closed ch then 0 else inputs_size (ch_inputs ch)) + acc) 0 chs.

(** The queue lists the channels once each, every channel is well formed and
    filed under its id, and the bank is within its memory limit. *)
Record bank_inv (cb : ChannelBank) : Prop := {
  bi_nodup : NoDup (channelQueue cb);
  bi_queue : forall id, id ∈ channelQueue cb <-> is_Some (channels cb !! id);
  bi_channels : map_Forall (fun id ch => channel_inv ch /\ ch_id ch = id) (channels cb);
  bi_size : bank_size (channels cb) <= MaxChannelBankSize;
}.
End ChannelBank.
Arguments ChannelBank P : clear implicits.

(** ** Sizes *)

Lemma bank_size_insert chs id ch : chs !! id = None -> bank_size (<[id := ch]> chs) = ch_size ch + bank_size chs.
Proof. intros. unfold bank_size. rewrite map_fold_insert_L; [done|intros; lia|done]. Qed.

Lemma bank_size_delete chs id ch : chs !! id = Some ch -> bank_size chs = ch_size ch + bank_size (delete id chs).
Proof. intros. rewrite <- (insert_delete_id chs id ch) at 1 by done. apply bank_size_insert, lookup_delete_eq. Qed.

Lemma bank_size_nonneg chs : map_Forall (fun id ch => channel_inv ch /\ ch_id ch = id) chs -> 0 <= bank_size chs.
Proof.
  induction chs as [|id ch chs Hi IH] using map_ind; intros Hc; [done|].
  apply map_Forall_insert in Hc as [[Hch _] Hc]; [|done].
  rewrite bank_size_insert by done. pose proof (inv_size _ Hch). specialize (IH Hc). lia.
Qed.

Lemma open_buffered_le chs : map_Forall (fun id ch => channel_inv ch /\ ch_id ch = id) chs -> open_buffered chs <= bank_size chs.
Proof.
  induction chs as [|id ch chs Hi IH] using map_ind; intros Hc; [done|].
  apply map_Forall_insert in Hc as [[Hch _] Hc]; [|done]. specialize (IH Hc).
  rewrite bank_size_insert by done. unfold open_buffered. rewrite map_fold_insert_L; [|intros; lia|done].
  fold (open_buffered chs). pose proof (inv_size _ Hch). pose proof (inv_size_open _ Hch).
  destruct (ch_closed ch); [lia|]. rewrite <- H0 by done. lia.
Qed.

Lemma totalSize_mod chs : totalSize chs = u64 (bank_size chs).
Proof.
  induction chs as [|id ch chs Hi IH] using map_ind; [done|].
  rewrite bank_size_insert by done. unfold totalSize in *.
  rewrite map_fold_insert_L; [|intros; ulia|done]. rewrite IH. ulia.
Qed.

Lemma channel_size_bound ch : channel_inv ch -> 0 <= ch_size ch <= 2 ^ 37.
Proof.
  intros Hc. pose proof (inv_size _ Hc). pose proof (inputs_size_u64 _ (inv_keys_wf _ Hc)). lia.
Qed.

(** ** Pruning *)

Definition bank_wf (queue : list ChannelID) (chs : gmap ChannelID Channel) : Prop :=
  NoDup queue /\ (forall id, id ∈ queue <-> is_Some (chs !! id)) /\
  map_Forall (fun id ch => channel_inv ch /\ ch_id ch = id) chs.

(** The channels of a queue. *)
Definition restrict (q : list ChannelID) (chs : gmap ChannelID Channel) : gmap ChannelID Channel :=
  filter (fun p => p.1 ∈ q) chs.

Lemma restrict_all q chs : bank_wf q chs -> restrict q chs = chs.
Proof.
  intros (_ & Hq & _). apply map_filter_id. intros id ch Hid. cbn. apply Hq. eauto.
Qed.

Lemma restrict_wf q chs : bank_wf q chs -> forall d q', q = d ++ q' -> bank_wf q' (restrict q' chs).
Proof.
  intros (Hn & Hq & Hc) d q' ->. apply NoDup_app in Hn as (_ & _ & Hn).
  split; [done|]. split.
  - intros id. unfold restrict. split.
    + intros Hid. destruct (proj1 (Hq id)) as [ch Hch]; [set_solver|].
      exists ch. by apply map_lookup_filter_Some.
    + intros [ch Hch]. by apply map_lookup_filter_Some in Hch as [_ ?].
  - intros id ch Hch. apply map_lookup_filter_Some in Hch as [Hch _]. by apply Hc.
Qed.

Lemma bank_wf_tail id q chs : bank_wf (id :: q) chs ->
  bank_wf q (delete id chs) /\ forall q', id ∉ q' -> restrict q' (delete id chs) = restrict q' chs.
Proof.
  intros (Hn & Hq & Hc). apply NoDup_cons in Hn as [Hnin Hn]. split; [split; [done|split]|].
  - intros id'. destruct (decide (id = id')) as [->|Hne].
    + rewrite lookup_delete_eq. split; [done|by intros []%is_Some_None].
    + rewrite lookup_delete_ne, <- Hq by done. set_solver.
  - by apply map_Forall_delete.
  - intros q' Hq'. apply map_eq. intros id'. unfold restrict.
    rewrite !map_lookup_filter. destruct (decide (id = id')) as [->|Hne].
    + rewrite lookup_delete_eq. cbn. destruct (chs !! id'); cbn; [|done]. by rewrite option_guard_False.
    + by rewrite lookup_delete_ne.
Qed.

Lemma prune_loop_fits queue chs : bank_wf queue chs -> bank_size chs <= MaxChannelBankSize ->
  prune_loop queue chs (bank_size chs) = Ok (queue, restrict queue chs).
Proof.
  intros Hwf Hle. rewrite (restrict_all _ _ Hwf). apply Z.ltb_ge in Hle.
  destruct queue; cbn; by rewrite Hle.
Qed.

Lemma bank_wf_nil chs : bank_wf [] chs -> chs = ∅.
Proof.
  intros (_ & Hq & _). apply map_empty. intros i. apply eq_None_not_Some. rewrite <- Hq. set_solver.
Qed.

Lemma prune_loop_spec queue chs : bank_wf queue chs -> bank_size chs < 2 ^ 64 ->
  exists dropped kept,
    prune_loop queue chs (bank_size chs) = Ok (kept, restrict kept chs) /\
    queue = dropped ++ kept /\
    bank_size (restrict kept chs) <= MaxChannelBankSize /\
    forall d k, dropped = d ++ k -> k <> [] -> MaxChannelBankSize < bank_size (restrict (k ++ kept) chs).
Proof.
  revert chs. induction queue as [|id queue IH]; intros chs Hwf Hov.
  all: destruct (decide (bank_size chs <= MaxChannelBankSize)) as [Hle|Hlt].
  all: try (exists [], []; rewrite prune_loop_fits by done; rewrite (restrict_all _ _ Hwf);
    repeat split; try done; intros [] []; done).
  - apply bank_wf_nil in Hwf as ->. vm_compute in Hlt. by destruct Hlt.
  - exists [], (id :: queue). rewrite prune_loop_fits by done. rewrite (restrict_all _ _ Hwf).
    repeat split; try done. intros [] []; done.
  - destruct Hwf as (Hn & Hq & Hc). destruct (proj1 (Hq id)) as [ch Hch]; [set_solver|].
    cbn [prune_loop]. rewrite (proj2 (Z.ltb_lt _ _)) by lia.
    rewrite Hch. assert (Hwf : bank_wf (id :: queue) chs) by done.
    destruct (bank_wf_tail _ _ _ Hwf) as [Hwf' Hres].
    pose proof (bank_size_delete _ _ _ Hch) as Hsz. destruct (Hc _ _ Hch) as [Hci _].
    pose proof (channel_size_bound _ Hci). pose proof (bank_size_nonneg _ (proj2 (proj2 Hwf'))).
    rewrite sub64_small by (unfold is_u64; lia).
    replace (bank_size chs - ch_size ch) with (bank_size (delete id chs)) by lia.
    destruct (IH _ Hwf') as (dropped & kept & Hp & Hqk & Hfit & Hmin); [lia|].
    apply NoDup_cons in Hn as [Hnin _].
    assert (Hk : id ∉ kept) by set_solver.
    rewrite Hres in Hp, Hfit by done.
    exists (id :: dropped), kept. split; [done|]. split; [by rewrite Hqk|]. split; [done|].
    intros [|x d] k Hd Hne.
    + cbn in Hd. subst k. cbn. rewrite <- Hqk, (restrict_all _ _ Hwf). lia.
    + injection Hd as -> Hd. specialize (Hmin d k Hd Hne). rewrite Hres in Hmin; [done|set_solver].
Qed.

(** ** Operations *)

Lemma bank_wf_new q chs id b : bank_wf q chs -> chs !! id = None ->
  bank_wf (q ++ [id]) (<[id := NewChannel id b]> chs).
Proof.
  intros (Hn & Hq & Hc) Hid. split; [|split].
  - apply NoDup_app. split; [done|]. split; [|apply NoDup_singleton].
    intros x Hx Hx'. apply list_elem_of_singleton in Hx' as ->. apply Hq in Hx as [? ?]. congruence.
  - intros x. rewrite lookup_insert_is_Some', <- Hq. set_solver.
  - apply map_Forall_insert_2; [|done]. split; [apply channel_inv_new|done].
Qed.

Lemma bank_wf_update q chs id ch ch' : bank_wf q chs -> chs !! id = Some ch ->
  channel_inv ch' -> ch_id ch' = id -> bank_wf q (<[id := ch']> chs).
Proof.
  intros (Hn & Hq & Hc) Hid Hci Hid'. split; [done|split].
  - intros x. rewrite lookup_insert_is_Some', Hq. split; [auto|]. intros [<-|?]; [by eexists|done].
  - by apply map_Forall_insert_2.
Qed.

Lemma bank_size_update chs id ch ch' : chs !! id = Some ch ->
  bank_size (<[id := ch']> chs) = bank_size chs - ch_size ch + ch_size ch'.
Proof.
  intros Hid. rewrite (bank_size_delete chs id ch) by done.
  rewrite <- insert_delete_eq, bank_size_insert by apply lookup_delete_eq. lia.
Qed.

Section bank_ops.
Context {P : Type} `{!NextFrameProvider P} (cfg : Config).
Implicit Types cb : ChannelBank P.

Lemma bank_inv_alt cb : bank_inv cb <->
  bank_wf (channelQueue cb) (channels cb) /\ bank_size (channels cb) <= MaxChannelBankSize.
Proof. split; [intros []; split; [split; [|split]|]; assumption|intros [(? & ? & ?) ?]; by constructor]. Qed.

Lemma bank_inv_prev cb (p : P) : bank_inv cb ->
  bank_inv {| channels := channels cb; channelQueue := channelQueue cb; cb_prev := p |}.
Proof. rewrite !bank_inv_alt. done. Qed.

Lemma bank_inv_new (p : P) : bank_inv (NewChannelBank p).
Proof.
  constructor; cbn; [constructor| |apply map_Forall_empty|vm_compute; done].
  intros id. rewrite lookup_empty. split; [set_solver|by intros []%is_Some_None].
Qed.

Lemma prune_spec cb : bank_wf (channelQueue cb) (channels cb) -> bank_size (channels cb) < 2 ^ 64 ->
  exists dropped kept,
    prune cb = Ok {| channels := restrict kept (channels cb); channelQueue := kept; cb_prev := cb_prev cb |} /\
    channelQueue cb = dropped ++ kept /\
    bank_size (restrict kept (channels cb)) <= MaxChannelBankSize /\
    forall d k, dropped = d ++ k -> k <> [] ->
      MaxChannelBankSize < bank_size (restrict (k ++ kept) (channels cb)).
Proof.
  intros Hwf Hov. unfold prune. rewrite totalSize_mod, u64_id.
  - destruct (prune_loop_spec _ _ Hwf Hov) as (dr & kept & -> & Hrest). cbn. eauto.
  - unfold is_u64. pose proof (bank_size_nonneg _ (proj2 (proj2 Hwf))). lia.
Qed.

(** The bank while a frame is being ingested: the channel of the frame exists. *)
Definition with_channel (cb : ChannelBank P) (f : Frame) : Channel * ChannelBank P :=
  match channels cb !! ID f with
  | Some ch => (ch, cb)
  | None =>
      let ch := NewChannel (ID f) (cb_Origin cb) in
      (ch, {| channels := <[ID f := ch]> (channels cb);
              channelQueue := channelQueue cb ++ [ID f]; cb_prev := cb_prev cb |})
  end.

Lemma with_channel_spec cb f ch cb' : bank_inv cb -> with_channel cb f = (ch, cb') ->
  bank_inv cb' /\ channels cb' !! ID f = Some ch /\ cb_prev cb' = cb_prev cb.
Proof.
  intros [Hwf Hs]%bank_inv_alt. unfold with_channel.
  destruct (channels cb !! ID f) as [c|] eqn:E; intros [= <- <-]; [by rewrite bank_inv_alt|].
  rewrite bank_inv_alt; cbn. split; [split|].
  - by apply bank_wf_new.
  - rewrite bank_size_insert by done. cbn. lia.
  - by rewrite lookup_insert_eq.
Qed.

Lemma IngestFrame_spec cb f : bank_inv cb -> frame_wf f ->
  exists cb', IngestFrame cfg cb f = Ok cb' /\ bank_inv cb' /\ cb_prev cb' = cb_prev cb.
Proof.
  intros Hinv Hf. unfold IngestFrame. fold (with_channel cb f).
  destruct (with_channel cb f) as [ch cb1] eqn:E.
  destruct (with_channel_spec _ _ _ _ Hinv E) as (Hinv1 & Hch & Hp).
  destruct (timedOut cfg cb1 ch); [by eauto|].
  pose proof Hinv1 as [Hwf Hs]%bank_inv_alt.
  destruct (proj2 (proj2 Hwf) _ _ Hch) as [Hci Hid].
  pose proof (AddFrame_inv ch f (cb_Origin cb) Hci Hf) as Hci'.
  pose proof (AddFrame_id ch f (cb_Origin cb)) as Hid'.
  destruct (AddFrame ch f (cb_Origin cb)) as [ch' [[]|e]]; [|by eauto].
  cbn in Hci', Hid'. rewrite Hid in Hid'.
  edestruct (prune_spec {| channels := <[ID f:=ch']> (channels cb1);
    channelQueue := channelQueue cb1; cb_prev := cb_prev cb1 |}) as (dr & kept & -> & Hq & Hfit & _); cbn in *.
  - by eapply bank_wf_update.
  - rewrite (bank_size_update _ _ _ _ Hch). pose proof (channel_size_bound _ Hci).
    pose proof (channel_size_bound _ Hci'). unfold MaxChannelBankSize in Hs. lia.
  - eexists. split; [done|]. split; [|done]. rewrite bank_inv_alt. cbn. split; [|done].
    eapply restrict_wf; [|done]. by eapply bank_wf_update.
Qed.

Lemma bank_delete cb i id ch : bank_inv cb -> channelQueue cb !! i = Some id -> channels cb !! id = Some ch ->
  bank_inv {| channels := delete id (channels cb); channelQueue := delete i (channelQueue cb); cb_prev := cb_prev cb |}.
Proof.
  intros [(Hn & Hq & Hc) Hs]%bank_inv_alt Hi Hch. rewrite bank_inv_alt. cbn.
  pose proof (bank_size_delete _ _ _ Hch). destruct (Hc _ _ Hch) as [Hci _].
  pose proof (inv_size _ Hci). split; [|lia].
  rewrite delete_take_drop. rewrite <- (take_drop_middle _ _ _ Hi) in Hn, Hq.
  apply NoDup_app in Hn as (Hn1 & Hd & Hn2). apply NoDup_cons in Hn2 as [Hn2 Hn3].
  split; [|split].
  - apply NoDup_app. split; [done|]. split; [|done]. intros x Hx Hx'. eapply Hd; set_solver.
  - intros x. destruct (decide (id = x)) as [->|Hne].
    + rewrite lookup_delete_eq. split; [|by intros []%is_Some_None].
      intros Hx. exfalso. specialize (Hd x). set_solver.
    + rewrite lookup_delete_ne, <- Hq by done. set_solver.
  - by apply map_Forall_delete.
Qed.

(** A channel of the queue can be looked up, so no access of the bank panics. *)
Lemma bank_lookup cb i id : bank_inv cb -> channelQueue cb !! i = Some id ->
  exists ch, channels cb !! id = Some ch /\ channel_inv ch.
Proof.
  intros [(Hn & Hq & Hc) Hs]%bank_inv_alt Hi.
  destruct (proj1 (Hq id)) as [ch Hch]; [by eapply list_elem_of_lookup_2|].
  exists ch. split; [done|]. by apply Hc in Hch as [? _].
Qed.

(** The result of reading at an index: the data of the channel if it is ready
    and not timed out, [EOF] and an unchanged bank otherwise. *)
Lemma tryRead_spec cb i id ch : bank_inv cb -> channelQueue cb !! i = Some id -> channels cb !! id = Some ch ->
  if timedOut cfg cb ch || negb (IsReady ch) then tryReadChannelAtIndex cfg i cb = (cb, Err EOF)
  else exists data, Reader ch = Ok data /\
    tryReadChannelAtIndex cfg i cb =
      ({| channels := delete id (channels cb); channelQueue := delete i (channelQueue cb); cb_prev := cb_prev cb |}, Ok data).
Proof.
  intros Hinv Hi Hch. unfold tryReadChannelAtIndex. rewrite Hi, Hch.
  destruct (timedOut cfg cb ch); [done|]. destruct (IsReady ch) eqn:E; [|done]. cbn [orb negb].
  destruct (Reader_ready ch E) as [data Hd]. rewrite Hd. eauto.
Qed.

(** A channel is timed out when the L1 origin has moved past the block it was
    opened in by more than the timeout. *)
Definition expired (cb : ChannelBank P) (ch : Channel) : bool :=
  l1_Number (ch_openBlock ch) +₆₄ ChannelTimeout cfg <? l1_Number (Origin (cb_prev cb)).

(** Whether the channel at an index of the queue can be read now. *)
Definition readable (cb : ChannelBank P) (i : nat) : bool :=
  match channelQueue cb !! i ≫= fun id => channels cb !! id with
  | Some ch => negb (expired cb ch) && IsReady ch
  | None => false
  end.

(** Whether the channel at the head of the queue is timed out. *)
Definition head_expired (cb : ChannelBank P) : bool :=
  match head (channelQueue cb) ≫= fun id => channels cb !! id with
  | Some ch => expired cb ch
  | None => false
  end.

(** What the bank becomes, and the data it emits, when the channel at [i] is read. *)
Definition reads_at (cb : ChannelBank P) (i : nat) (out : ChannelBank P * res bytes) : Prop :=
  exists id ch data, channelQueue cb !! i = Some id /\ channels cb !! id = Some ch /\
    readable cb i = true /\ Reader ch = Ok data /\
    out = ({| channels := delete id (channels cb); channelQueue := delete i (channelQueue cb);
              cb_prev := cb_prev cb |}, Ok data).

Lemma tryRead_cases cb i : bank_inv cb -> (i < length (channelQueue cb))%nat ->
  (readable cb i = false /\ tryReadChannelAtIndex cfg i cb = (cb, Err EOF)) \/
  reads_at cb i (tryReadChannelAtIndex cfg i cb).
Proof.
  intros Hinv [id Hi]%lookup_lt_is_Some. destruct (bank_lookup _ _ _ Hinv Hi) as (ch & Hch & _).
  pose proof (tryRead_spec _ _ _ _ Hinv Hi Hch) as Ht.
  assert (Hr : readable cb i = negb (timedOut cfg cb ch || negb (IsReady ch))).
  { unfold readable. change (expired cb) with (timedOut cfg cb). rewrite Hi. cbn. rewrite Hch. by rewrite negb_orb, negb_involutive. }
  destruct (_ || _); [left; by rewrite Hr|right].
  destruct Ht as (data & Hd & ->). exists id, ch, data. by rewrite Hr.
Qed.

Lemma read_loop_spec cb n i : bank_inv cb -> (i + n = length (channelQueue cb))%nat ->
  (read_loop cfg n i cb = (cb, Err EOF) /\
   forall j, (i <= j)%nat -> (j < length (channelQueue cb))%nat -> readable cb j = false) \/
  (exists j, (i <= j)%nat /\ reads_at cb j (read_loop cfg n i cb) /\
   forall k, (i <= k < j)%nat -> readable cb k = false).
Proof.
  intros Hinv. revert i. induction n as [|n IH]; intros i Hi; cbn [read_loop].
  - left. split; [done|]. intros; lia.
  - destruct (tryRead_cases cb i Hinv ltac:(lia)) as [[Hr ->]|Hr].
    + destruct (IH (S i) ltac:(lia)) as [[-> Hall]|(j & Hj & Hread & Hbefore)]; [left|right].
      * split; [done|]. intros j Hj ?. destruct (decide (j = i)) as [->|]; [done|]. apply Hall; lia.
      * exists j. split; [lia|]. split; [done|]. intros k Hk.
        destruct (decide (k = i)) as [->|]; [done|]. apply Hbefore; lia.
    + right. exists i. split; [lia|]. split; [|intros; lia].
      destruct Hr as (id & ch & data & Hq & Hc & Hrd & Hd & E). rewrite E.
      exists id, ch, data. done.
Qed.

(** The head of the queue is dropped first, once it is timed out; otherwise the
    first readable channel is read, before Canyon only at the head of the
    queue. *)
Inductive read_rel (cb : ChannelBank P) : ChannelBank P * res bytes -> Prop :=
| read_empty : channelQueue cb = [] -> read_rel cb (cb, Err EOF)
| read_timeout id rest :
    channelQueue cb = id :: rest -> head_expired cb = true ->
    read_rel cb ({| channels := delete id (channels cb); channelQueue := rest; cb_prev := cb_prev cb |}, Ok [])
| read_none :
    channelQueue cb <> [] -> head_expired cb = false ->
    (forall j, (if IsCanyon cfg (l1_Time (Origin (cb_prev cb))) then True else j = 0%nat) -> readable cb j = false) ->
    read_rel cb (cb, Err EOF)
| read_ready j out :
    head_expired cb = false ->
    (if IsCanyon cfg (l1_Time (Origin (cb_prev cb))) then True else j = 0%nat) ->
    (forall k, (k < j)%nat -> readable cb k = false) ->
    reads_at cb j out -> read_rel cb out.

Lemma Read_spec cb : bank_inv cb -> read_rel cb (Read cfg cb).
Proof.
  intros Hinv. unfold Read. destruct (channelQueue cb) as [|id rest] eqn:Eq; [by constructor|].
  destruct (bank_lookup cb 0 id Hinv ltac:(by rewrite Eq)) as (ch & Hch & _). rewrite Hch.
  assert (He : head_expired cb = timedOut cfg cb ch) by (unfold head_expired; rewrite Eq; cbn; by rewrite Hch).
  destruct (timedOut cfg cb ch) eqn:Et; [by econstructor|]. unfold cb_Origin.
  destruct (IsCanyon cfg (l1_Time (Origin (cb_prev cb)))) eqn:Ec; cbn [negb].
  - rewrite <- Eq. destruct (read_loop_spec cb (length (channelQueue cb)) 0 Hinv eq_refl) as [[-> Hall]|(j & _ & Hr & Hb)].
    + apply read_none; [by rewrite Eq|done|]. intros j _. destruct (decide (j < length (channelQueue cb))%nat).
      * apply Hall; lia.
      * unfold readable. by rewrite lookup_ge_None_2 by lia.
    + eapply read_ready; [done|by rewrite Ec| |done]. intros k Hk. apply Hb. lia.
  - destruct (tryRead_cases cb 0 Hinv ltac:(rewrite Eq; cbn; lia)) as [[Hr ->]|Hr].
    + apply read_none; [by rewrite Eq|done|]. intros j Hj. rewrite Ec in Hj. by subst.
    + eapply read_ready; [done|by rewrite Ec| |done]. intros; lia.
Qed.

Lemma reads_at_inv cb j cb' r : bank_inv cb -> reads_at cb j (cb', r) -> bank_inv cb' /\ cb_prev cb' = cb_prev cb.
Proof.
  intros Hinv (id & ch & data & Hi & Hch & _ & _ & [= -> ->]). split; [|done].
  by eapply bank_delete.
Qed.

Lemma Read_inv cb cb' r : bank_inv cb -> Read cfg cb = (cb', r) ->
  bank_inv cb' /\ cb_prev cb' = cb_prev cb /\ (forall m, r <> Err (GoPanic m)).
Proof.
  intros Hinv E. pose proof (Read_spec cb Hinv) as Hr. rewrite E in Hr. inversion Hr; subst; try done.
  - split; [|done]. match goal with Hq : channelQueue cb = _ |- _ =>
      destruct (bank_lookup cb 0 id Hinv ltac:(by rewrite Hq)) as (ch & Hch & _);
      pose proof (bank_delete cb 0 id ch Hinv) as Hd; rewrite Hq in Hd end. by apply Hd.
  - match goal with Hr : reads_at _ _ _ |- _ =>
      destruct (reads_at_inv _ _ _ _ Hinv Hr) as [? ?];
      destruct Hr as (? & ? & ? & _ & _ & _ & _ & [= -> ->]) end.
    split; [done|]. split; [done|]. done.
Qed.
End bank_ops.

(** ** Properties *)

(** C3. [NextData] keeps the bank's invariant whatever well-formed frames the
    previous stage delivers, and never panics: queue and map agree and the
    channels are well formed, so no index, lookup or reader call of the bank
    can fail; and after the call, an ingest included, the sizes of the channels
    sum up to at most [MaxChannelBankSize]. The sizes are the code's; for the
    channels that are still open they are the sizes of the buffered frames, so
    that these stay within the limit too. *)
Theorem bank_NextData_safe {P : Type} `{!NextFrameProvider P} (cfg : Config) (cb : ChannelBank P) :
  bank_inv cb ->
  match (NextFrame (cb_prev cb)).2 with
  | Ok f => frame_wf f
  | Err e => forall m, e <> GoPanic m
  end ->
  let '(cb', r) := cb_NextData cfg cb in
  bank_inv cb' /\ open_buffered (channels cb') <= MaxChannelBankSize /\ forall m, r <> Err (GoPanic m).
Proof.
  intros Hinv Hprev.
  enough (H1 : let '(cb', r) := cb_NextData cfg cb in bank_inv cb' /\ forall m, r <> Err (GoPanic m)).
  { destruct (cb_NextData cfg cb) as [cb' r]. destruct H1 as [H1 H2]. split; [done|]. split; [|done].
    pose proof (open_buffered_le _ (bi_channels _ H1)). pose proof (bi_size _ H1). lia. }
  unfold cb_NextData.
  destruct (Read cfg cb) as [cb1 r1] eqn:E.
  destruct (Read_inv cfg cb cb1 r1 Hinv E) as (Hinv1 & Hp & Hnp).
  destruct r1 as [data|[]]; try done.
  rewrite Hp.
  destruct (NextFrame (cb_prev cb)) as [p [f|e]]; cbn in Hprev; [|split; [by apply bank_inv_prev|intros m [= ->]; by eapply Hprev]].
  destruct (IngestFrame_spec cfg {| channels := channels cb1; channelQueue := channelQueue cb1; cb_prev := p |} f)
    as (cb2 & -> & Hinv2 & _); [by apply bank_inv_prev|done|done].
Qed.

(** C4. [Read] refines its specification: when the head of the queue is timed
    out it drops that channel, and emits no channel, readable or not; otherwise
    it emits the reassembled data of the first channel in queue order that is
    complete and not timed out, before Canyon considering the head only; it
    emits nothing when there is none. *)
Theorem bank_Read_refines {P : Type} `{!NextFrameProvider P} (cfg : Config) (cb : ChannelBank P) :
  bank_inv cb -> read_rel cfg cb (Read cfg cb).
Proof. apply Read_spec. Qed.

(** Pruning removes the oldest channels only as long as it must: what is
    left is the longest suffix of the queue whose channels fit in the memory
    limit, with exactly its channels, and the loop never runs past the queue. *)
Lemma prune_longest_suffix {P : Type} (cb : ChannelBank P) :
  bank_wf (channelQueue cb) (channels cb) -> bank_size (channels cb) < 2 ^ 64 ->
  exists dropped kept,
    prune cb = Ok {| channels := restrict kept (channels cb); channelQueue := kept; cb_prev := cb_prev cb |} /\
    channelQueue cb = dropped ++ kept /\
    bank_size (restrict kept (channels cb)) <= MaxChannelBankSize /\
    forall d k, dropped = d ++ k -> k <> [] ->
      MaxChannelBankSize < bank_size (restrict (k ++ kept) (channels cb)).
Proof. apply prune_spec. Qed.

(** Two channels, the second one complete. *)
Definition ex_bank : ChannelBank (script Frame) :=
  let p := mkScript ex_block [Ok (mkFrame (replicate 16 7) 0 [1; 2] false); Ok (mkFrame (replicate 16 8) 0 [3] true)] in
  (cb_NextData ex_cfg (cb_NextData ex_cfg (NewChannelBank p)).1).1.

Lemma ex_bank_inv : bank_inv ex_bank.
Proof.
  assert (H : forall cb : ChannelBank (script Frame), bank_inv cb ->
    Forall (fun r => match r with Ok f => frame_wf f | Err _ => False end) (sc_todo (cb_prev cb)) ->
    bank_inv (cb_NextData ex_cfg cb).1).
  { intros cb Hinv Hs. unfold cb_NextData.
    destruct (Read ex_cfg cb) as [cb1 r1] eqn:E. destruct (Read_inv _ _ _ _ Hinv E) as (Hinv1 & Hp & _).
    destruct r1 as [|[]]; cbn; try done. rewrite Hp. unfold script_next.
    destruct (sc_todo (cb_prev cb)) as [|[f|] rest]; [by apply bank_inv_prev| |by apply Forall_cons_1 in Hs as [[] _]].
    apply Forall_cons_1 in Hs as [Hf _].
    destruct (IngestFrame_spec ex_cfg {| channels := channels cb1; channelQueue := channelQueue cb1;
      cb_prev := mkScript (sc_origin (cb_prev cb)) rest |} f) as (cb2 & -> & ? & _); [by apply bank_inv_prev|done|done]. }
  unfold ex_bank. apply H.
  - apply H; [apply bank_inv_new|]. repeat constructor; vm_decide.
  - vm_compute. repeat constructor; vm_decide.
Qed.

Lemma bank_NextData_safe_witness :
  (cb_NextData ex_cfg ex_bank).2 = Ok [3] /\ bank_inv (cb_NextData ex_cfg ex_bank).1.
Proof.
  pose proof (bank_NextData_safe ex_cfg ex_bank ex_bank_inv) as H.
  specialize (H ltac:(vm_compute; intros m; discriminate)).
  split; [vm_compute; reflexivity|]. destruct (cb_NextData ex_cfg ex_bank). apply H.
Defined.

Lemma bank_Read_refines_witness : read_rel ex_cfg ex_bank (Read ex_cfg ex_bank).
Proof. apply (bank_Read_refines ex_cfg ex_bank). apply ex_bank_inv. Defined.

Lemma prune_longest_suffix_witness :
  exists dropped kept, channelQueue ex_bank = dropped ++ kept /\ bank_size (restrict kept (channels ex_bank)) <= MaxChannelBankSize.
Proof.
  destruct (prune_longest_suffix ex_bank) as (d & k & _ & H & H' & _).
  - apply bank_inv_alt. apply ex_bank_inv.
  - vm_compute. reflexivity.
  - exists d, k. split; assumption.
Defined.
