(* ===== verification/Solabi.v ===== *)
(** * ABI encoding

    [op-service/solabi/util.go]: the readers and writers of 32-byte ABI words
    and of dynamic byte strings, with the inverse lemma of each pair. *)

From S2P Require Import Prelude Eth.

(** The largest slice the Go runtime allocates on a 64-bit platform; [make]
    panics above it. *)
Definition maxAlloc : Z := 2 ^ 48.

Definition addressEmptyPadding : bytes := zeros 12.
Definition uint64EmptyPadding : bytes := zeros 24.

Definition ReadSignature (r : bytes) : res (bytes * bytes) := ReadFull 4 r.

Definition ReadAndValidateSignature (r expectedSignature : bytes) : res (bytes * bytes) :=
  '(sig, r) ← ReadFull 4 r;
  if decide (sig = expectedSignature) then Ok (sig, r)
  else Err (Errorf "invalid function signature").

Definition ReadHash (r : bytes) : res (Hash * bytes) := ReadFull 32 r.

Definition ReadEthBytes32 (r : bytes) : res (Bytes32 * bytes) := ReadFull 32 r.

Definition ReadAddress (r : bytes) : res (Address * bytes) :=
  '(readPadding, r) ← ReadFull 12 r;
  if decide (readPadding = addressEmptyPadding) then ReadFull 20 r
  else Err (Errorf "address padding was not empty").

(** A big endian uint64 from a 32 byte word. *)
Definition ReadUint64 (r : bytes) : res (Z * bytes) :=
  '(readPadding, r) ← ReadFull 24 r;
  if decide (readPadding = uint64EmptyPadding) then
    '(n, r) ← map_err (fun _ => Errorf "expected number length to be 8 bytes") (ReadFull 8 r);
    Ok (get_be n, r)
  else Err (Errorf "number padding was not empty").

Definition ReadBool (r : bytes) : res (bool * bytes) :=
  '(n, r) ← ReadUint64 r;
  Ok (negb (n =? 0), r).

Definition ReadUint256 (r : bytes) : res (Z * bytes) :=
  '(n, r) ← ReadFull 32 r;
  Ok (get_be n, r).

Definition bytesPadding (dataLen : Z) : Z := (32 - dataLen mod 32) mod 32.

Definition ReadBytes (r : bytes) : res (bytes * bytes) :=
  '(bufLen, r) ← ReadUint256 r;
  if 2 ^ 64 <=? bufLen then Err (Errorf "bytes array is too long") else
  if maxAlloc <? bufLen then Err (GoPanic "makeslice: len out of range") else
  '(b, r) ← ReadFull bufLen r;
  let paddingLen := bytesPadding bufLen in
  if paddingLen =? 0 then Ok (b, r)
  else
    '(_, r) ← ReadFull paddingLen r;
    Ok (b, r).

Definition EmptyReader (r : bytes) : bool := bool_decide (r = []).

Definition WriteSignature (sig : bytes) : bytes := sig.
Definition WriteHash (h : Hash) : bytes := h.
Definition WriteEthBytes32 (b : Bytes32) : bytes := b.
Definition WriteAddress (a : Address) : bytes := addressEmptyPadding ++ a.

(** [n.BitLen() > 256] for a non-negative [n]. *)
Definition WriteUint256 (n : Z) : res bytes :=
  if 2 ^ 256 <=? n then Err (Errorf "big int exceeds 256 bits") else Ok (put_be 32 n).

Definition WriteUint64 (n : Z) : bytes := uint64EmptyPadding ++ put_be 8 n.

Definition WriteBool (b : bool) : bytes := if b then WriteUint64 1 else WriteUint64 0.

Definition WriteBytes (b : bytes) : res bytes :=
  let dataLen := u64 (blen b) in
  len ← WriteUint256 dataLen;
  let paddingLen := bytesPadding dataLen in
  Ok (len ++ b ++ (if paddingLen =? 0 then [] else zeros (Z.to_nat paddingLen))).

(** ** Inverse lemmas

    Each writer produces a string the matching reader consumes exactly, leaving
    the rest of the reader alone. *)

Lemma ReadFull_array n bs r : length bs = Z.to_nat n -> 0 <= n -> ReadFull n (bs ++ r) = Ok (bs, r).
Proof. intros. apply ReadFull_app. unfold blen. lia. Qed.

Lemma ReadHash_write h r : is_hash h -> ReadHash (WriteHash h ++ r) = Ok (h, r).
Proof. intros [? _]. apply ReadFull_array; [done|lia]. Qed.

Lemma ReadEthBytes32_write h r : is_hash h -> ReadEthBytes32 (WriteEthBytes32 h ++ r) = Ok (h, r).
Proof. intros [? _]. apply ReadFull_array; [done|lia]. Qed.

Lemma ReadSig_write s r : length s = 4%nat -> ReadAndValidateSignature (WriteSignature s ++ r) s = Ok (s, r).
Proof.
  intros. unfold ReadAndValidateSignature, WriteSignature.
  rewrite ReadFull_array by done. cbn. by rewrite decide_True.
Qed.

Lemma ReadAddress_write a r : is_address a -> ReadAddress (WriteAddress a ++ r) = Ok (a, r).
Proof.
  intros [? _]. unfold ReadAddress, WriteAddress. rewrite <- app_assoc.
  rewrite ReadFull_array by done. cbn [mbind res_bind]. rewrite decide_True by done.
  apply ReadFull_array; [done|lia].
Qed.

Lemma ReadUint64_write n r : is_u64 n -> ReadUint64 (WriteUint64 n ++ r) = Ok (n, r).
Proof.
  intros. unfold ReadUint64, WriteUint64. rewrite <- app_assoc.
  rewrite ReadFull_array by done. cbn [mbind res_bind]. rewrite decide_True by done.
  rewrite ReadFull_array by (rewrite ?length_put_be; done). cbn [map_err mbind res_bind].
  by rewrite get_put_be.
Qed.

Lemma ReadBool_write b r : ReadBool (WriteBool b ++ r) = Ok (b, r).
Proof. unfold ReadBool, WriteBool. destruct b; by rewrite ReadUint64_write by ulia. Qed.

Lemma ReadUint256_write n r : is_u256 n ->
  exists w, WriteUint256 n = Ok w /\ ReadUint256 (w ++ r) = Ok (n, r).
Proof.
  intros Hn. unfold WriteUint256, ReadUint256. unfold is_u256 in Hn.
  destruct (Z.leb_spec (2 ^ 256) n); [lia|]. eexists. split; [done|].
  rewrite ReadFull_array by (rewrite ?length_put_be; done). cbn [mbind res_bind].
  by rewrite get_put_be.
Qed.

Lemma ReadBytes_write b r : blen b <= maxAlloc ->
  exists w, WriteBytes b = Ok w /\ ReadBytes (w ++ r) = Ok (b, r).
Proof.
  intros Hb. unfold WriteBytes, ReadBytes, maxAlloc in *.
  assert (Hb' : 0 <= blen b) by (unfold blen; lia).
  rewrite u64_id by (unfold is_u64; lia).
  destruct (ReadUint256_write (blen b)
    (b ++ (if bytesPadding (blen b) =? 0 then [] else zeros (Z.to_nat (bytesPadding (blen b)))) ++ r))
    as (w & -> & Hw); [unfold is_u256; lia|].
  cbn [mbind res_bind]. eexists. split; [done|]. rewrite <- !app_assoc, Hw. cbn [mbind res_bind].
  destruct (Z.leb_spec (2 ^ 64) (blen b)); [lia|]. destruct (Z.ltb_spec (2 ^ 48) (blen b)); [lia|].
  rewrite ReadFull_app by done. cbn [mbind res_bind].
  destruct (Z.eqb_spec (bytesPadding (blen b)) 0); [done|].
  rewrite ReadFull_array; [done| |].
  - unfold zeros. by rewrite length_replicate.
  - unfold bytesPadding. apply Z.mod_pos_bound. lia.
Qed.

(** ** Inversion: what a successful reader consumed *)

Lemma ReadUint64_inv r n r' : bytes_ok r -> ReadUint64 r = Ok (n, r') ->
  r = WriteUint64 n ++ r' /\ is_u64 n /\ bytes_ok r'.
Proof.
  unfold ReadUint64, WriteUint64. intros Hr H. ok_inv.
  match goal with H : ReadFull 24 _ = _ |- _ => apply ReadFull_inv in H as (-> & _ & _ & Hr1); [|done..] end.
  match goal with H : ReadFull 8 _ = _ |- _ => apply ReadFull_inv in H as (-> & Hl & Hb & Hr2); [|done..] end.
  unfold blen in Hl. pose proof (put_get_be _ Hb) as Hp. pose proof (get_be_range _ Hb) as Hg.
  unfold blen in Hg. rewrite <- Hl in Hg.
  match type of Hp with put_be (length ?l) _ = _ => replace (length l) with 8%nat in Hp by lia end.
  rewrite Hp, <- app_assoc. split; [done|]. split; [|done]. unfold is_u64. lia.
Qed.

Lemma ReadEthBytes32_inv r h r' : bytes_ok r -> ReadEthBytes32 r = Ok (h, r') ->
  r = WriteEthBytes32 h ++ r' /\ is_hash h /\ bytes_ok r'.
Proof.
  intros Hr H. apply ReadFull_inv in H as (-> & Hl & Hb & Hr2); [|done..].
  split; [done|]. split; [|done]. split; [unfold blen in Hl; lia|done].
Qed.

Lemma ReadAddress_inv r a r' : bytes_ok r -> ReadAddress r = Ok (a, r') ->
  r = WriteAddress a ++ r' /\ is_address a /\ bytes_ok r'.
Proof.
  unfold ReadAddress, WriteAddress. intros Hr H. ok_inv.
  match goal with H : ReadFull 12 _ = _ |- _ => apply ReadFull_inv in H as (-> & _ & _ & Hr1); [|done..] end.
  apply ReadFull_inv in H as (-> & Hl & Hb & Hr2); [|done..].
  rewrite <- app_assoc. split; [done|]. split; [|done]. split; [unfold blen in Hl; lia|done].
Qed.
