(* ===== verification/SystemConfig.v ===== *)
(** * System configuration updates

    [op-node/rollup/derive/system_config.go]: the events of the L1 system
    config contract, decoded from the receipts of an L1 block and applied to
    the system configuration of the rollup. *)

From S2P Require Import Prelude Eth Solabi.

(** The fields of go-ethereum's [types.Log] and [types.Receipt] the source
    reads. *)
Record Log := mkLog {
  log_Address : Address;
  log_Topics : list Hash;
  log_Data : bytes;
  log_BlockHash : Hash;
  log_Index : Z;
}.

Record Receipt := mkReceipt {
  rec_Status : Z;
  rec_Logs : list Log;
}.

Definition ReceiptStatusSuccessful : Z := 1.

(** [common.Hash{31: b}] *)
Definition hash31 (b : Z) : Hash := zeros 31 ++ [b].

Definition SystemConfigUpdateBatcher : Hash := hash31 0.
Definition SystemConfigUpdateGasConfig : Hash := hash31 1.
Definition SystemConfigUpdateGasLimit : Hash := hash31 2.
Definition SystemConfigUpdateUnsafeBlockSigner : Hash := hash31 3.
Definition SystemConfigUpdateEspresso : Hash := hash31 4.
Definition SystemConfigUpdateEspressoL1ConfDepth : Hash := hash31 5.
Definition ConfigUpdateEventVersion0 : Hash := zeros 32.

(** The assignments to the fields of the destination configuration. *)
Definition set_BatcherAddr (a : Address) (c : SystemConfig) : SystemConfig :=
  {| BatcherAddr := a; Overhead := Overhead c; Scalar := Scalar c; GasLimit := GasLimit c;
     Espresso := Espresso c; EspressoL1ConfDepth := EspressoL1ConfDepth c |}.
Definition set_GasConfig (overhead scalar : Bytes32) (c : SystemConfig) : SystemConfig :=
  {| BatcherAddr := BatcherAddr c; Overhead := overhead; Scalar := scalar; GasLimit := GasLimit c;
     Espresso := Espresso c; EspressoL1ConfDepth := EspressoL1ConfDepth c |}.
Definition set_GasLimit (g : Z) (c : SystemConfig) : SystemConfig :=
  {| BatcherAddr := BatcherAddr c; Overhead := Overhead c; Scalar := Scalar c; GasLimit := g;
     Espresso := Espresso c; EspressoL1ConfDepth := EspressoL1ConfDepth c |}.
Definition set_Espresso (b : bool) (c : SystemConfig) : SystemConfig :=
  {| BatcherAddr := BatcherAddr c; Overhead := Overhead c; Scalar := Scalar c; GasLimit := GasLimit c;
     Espresso := b; EspressoL1ConfDepth := EspressoL1ConfDepth c |}.
Definition set_EspressoL1ConfDepth (d : Z) (c : SystemConfig) : SystemConfig :=
  {| BatcherAddr := BatcherAddr c; Overhead := Overhead c; Scalar := Scalar c; GasLimit := GasLimit c;
     Espresso := Espresso c; EspressoL1ConfDepth := d |}.

(** The checks of the pointer word and of the length word every case starts
    with. *)
Definition read_expected (want : Z) (msg : string) (r : bytes) : res bytes :=
  match ReadUint64 r with
  | Ok (v, r) => if v =? want then Ok r else Err (NewCriticalError (Errorf msg))
  | Err _ => Err (NewCriticalError (Errorf msg))
  end.

Definition read_header (len : Z) (r : bytes) : res bytes :=
  r ← read_expected 32 "invalid pointer field" r;
  read_expected len "invalid length field" r.

Definition read_field {A} (msg : string) (rd : bytes -> res (A * bytes)) (r : bytes) : res (A * bytes) :=
  map_err (fun _ => NewCriticalError (Errorf msg)) (rd r).

Definition read_end (r : bytes) : res unit :=
  if EmptyReader r then Ok tt else Err (NewCriticalError (Errorf "too many bytes")).

(** [espresso[i]] for a 32-byte word. *)
Definition espresso_value (w : Bytes32) : res bool :=
  if negb (bool_decide (Forall (fun b => b = 0) (take 31 w))) then
    Err (NewCriticalError (Errorf "invalid espresso value"))
  else
    let b := nth 31 w 0 in
    if negb (b =? 0) && negb (b =? 1) then Err (NewCriticalError (Errorf "invalid espresso value"))
    else Ok (b =? 1).

Section SystemConfig.
Variable Keccak256Hash : bytes -> Hash.

Definition ConfigUpdateEventABIHash : Hash :=
  Keccak256Hash (str_bytes "ConfigUpdate(uint256,uint8,bytes)").

(** The new configuration a log event asks for. *)
Definition decodeUpdate (destSysCfg : SystemConfig) (ev : Log) : res SystemConfig :=
  match log_Topics ev with
  | [t0; version; updateType] =>
      if negb (bool_decide (t0 = ConfigUpdateEventABIHash)) then
        Err (Errorf "invalid SystemConfig update event")
      else if negb (bool_decide (version = ConfigUpdateEventVersion0)) then
        Err (Errorf "unrecognized SystemConfig update event version")
      else
      let reader := log_Data ev in
      if bool_decide (updateType = SystemConfigUpdateBatcher) then
        reader ← read_header 32 reader;
        '(address, reader) ← read_field "could not read address" ReadAddress reader;
        _ ← read_end reader;
        Ok (set_BatcherAddr address destSysCfg)
      else if bool_decide (updateType = SystemConfigUpdateGasConfig) then
        reader ← read_header 64 reader;
        '(overhead, reader) ← read_field "could not read overhead" ReadEthBytes32 reader;
        '(scalar, reader) ← read_field "could not read scalar" ReadEthBytes32 reader;
        _ ← read_end reader;
        Ok (set_GasConfig overhead scalar destSysCfg)
      else if bool_decide (updateType = SystemConfigUpdateGasLimit) then
        reader ← read_header 32 reader;
        '(gasLimit, reader) ← read_field "could not read gas limit" ReadUint64 reader;
        _ ← read_end reader;
        Ok (set_GasLimit gasLimit destSysCfg)
      else if bool_decide (updateType = SystemConfigUpdateUnsafeBlockSigner) then
        Ok destSysCfg
      else if bool_decide (updateType = SystemConfigUpdateEspresso) then
        reader ← read_header 32 reader;
        '(espresso, reader) ← read_field "could not read espresso" ReadEthBytes32 reader;
        _ ← read_end reader;
        b ← espresso_value espresso;
        Ok (set_Espresso b destSysCfg)
      else if bool_decide (updateType = SystemConfigUpdateEspressoL1ConfDepth) then
        reader ← read_header 32 reader;
        '(l1ConfDepth, reader) ← read_field "could not read gas limit" ReadUint64 reader;
        _ ← read_end reader;
        Ok (set_EspressoL1ConfDepth l1ConfDepth destSysCfg)
      else Err (Errorf "unrecognized L1 sysCfg update type")
  | _ => Err (Errorf "expected 3 event topics (event identity, indexed version, indexed updateType)")
  end.

(** [ProcessSystemConfigUpdateLogEvent]: the configuration is assigned at the
    very end of a case, so a failing event leaves it as it was. *)
Definition ProcessSystemConfigUpdateLogEvent (ev : Log) : stM SystemConfig unit := fun destSysCfg =>
  match decodeUpdate destSysCfg ev with
  | Ok cfg => (cfg, Ok tt)
  | Err e => (destSysCfg, Err e)
  end.

(** The condition under which a log of a successful receipt is looked at. *)
Definition is_config_update (cfg : Config) (log : Log) : bool :=
  bool_decide (log_Address log = L1SystemConfigAddress cfg) &&
  match log_Topics log with
  | [] => false
  | t0 :: _ => bool_decide (t0 = ConfigUpdateEventABIHash)
  end.

Definition malformatted (e : go_error) : go_error :=
  Wrapf "malformatted L1 system sysCfg log in receipt" e.

(** The two nested loops; the [multierror] is the list of the errors appended
    to it, and [nil] the empty list. *)
Fixpoint process_logs (cfg : Config) (logs : list Log) (st : SystemConfig * list go_error)
    : SystemConfig * list go_error :=
  match logs with
  | [] => st
  | log :: logs =>
      process_logs cfg logs
        (if is_config_update cfg log then
           match ProcessSystemConfigUpdateLogEvent log (fst st) with
           | (sysCfg, Ok _) => (sysCfg, snd st)
           | (sysCfg, Err e) => (sysCfg, snd st ++ [malformatted e])
           end
         else st)
  end.

Fixpoint process_receipts (cfg : Config) (receipts : list Receipt) (st : SystemConfig * list go_error)
    : SystemConfig * list go_error :=
  match receipts with
  | [] => st
  | rec :: receipts =>
      process_receipts cfg receipts
        (if negb (rec_Status rec =? ReceiptStatusSuccessful) then st
         else process_logs cfg (rec_Logs rec) st)
  end.

Definition UpdateSystemConfigWithL1Receipts (sysCfg : SystemConfig) (receipts : list Receipt) (cfg : Config)
    : SystemConfig * list go_error :=
  process_receipts cfg receipts (sysCfg, []).

(** ** Specification *)

(** What a system config contract can ask for. *)
Inductive Update :=
| UpdateBatcher (a : Address)
| UpdateGasConfig (overhead scalar : Bytes32)
| UpdateGasLimit (g : Z)
| UpdateUnsafeBlockSigner (data : bytes)
| UpdateEspresso (b : bool)
| UpdateEspressoL1ConfDepth (d : Z).

Definition update_wf (u : Update) : Prop :=
  match u with
  | UpdateBatcher a => is_address a
  | UpdateGasConfig o s => is_hash o /\ is_hash s
  | UpdateGasLimit n | UpdateEspressoL1ConfDepth n => is_u64 n
  | _ => True
  end.

Definition update_type (u : Update) : Hash :=
  match u with
  | UpdateBatcher _ => SystemConfigUpdateBatcher
  | UpdateGasConfig _ _ => SystemConfigUpdateGasConfig
  | UpdateGasLimit _ => SystemConfigUpdateGasLimit
  | UpdateUnsafeBlockSigner _ => SystemConfigUpdateUnsafeBlockSigner
  | UpdateEspresso _ => SystemConfigUpdateEspresso
  | UpdateEspressoL1ConfDepth _ => SystemConfigUpdateEspressoL1ConfDepth
  end.

(** The ABI encoding of the event data: a byte string at offset 32. *)
Definition abi_bytes (payload : bytes) : bytes :=
  WriteUint64 32 ++ WriteUint64 (blen payload) ++ payload.

Definition update_data (u : Update) : bytes :=
  match u with
  | UpdateBatcher a => abi_bytes (WriteAddress a)
  | UpdateGasConfig o s => abi_bytes (WriteEthBytes32 o ++ WriteEthBytes32 s)
  | UpdateGasLimit n | UpdateEspressoL1ConfDepth n => abi_bytes (WriteUint64 n)
  | UpdateUnsafeBlockSigner data => data
  | UpdateEspresso b => abi_bytes (WriteBool b)
  end.

Definition apply_update (u : Update) (c : SystemConfig) : SystemConfig :=
  match u with
  | UpdateBatcher a => set_BatcherAddr a c
  | UpdateGasConfig o s => set_GasConfig o s c
  | UpdateGasLimit n => set_GasLimit n c
  | UpdateUnsafeBlockSigner _ => c
  | UpdateEspresso b => set_Espresso b c
  | UpdateEspressoL1ConfDepth n => set_EspressoL1ConfDepth n c
  end.

(** The log is the encoding of [u]. *)
Definition encodes (ev : Log) (u : Update) : Prop :=
  update_wf u /\ log_Data ev = update_data u /\
  log_Topics ev = [ConfigUpdateEventABIHash; ConfigUpdateEventVersion0; update_type u].

(** ** Decoding accepts exactly the encodings *)

Lemma read_expected_ok want msg r r' : bytes_ok r -> is_u64 want ->
  read_expected want msg r = Ok r' <-> r = WriteUint64 want ++ r'.
Proof.
  intros Hr Hw. unfold read_expected. split.
  - destruct (ReadUint64 r) as [[v r1]|] eqn:E; [|done].
    destruct (Z.eqb_spec v want) as [->|]; [|done]. intros [= <-].
    by apply ReadUint64_inv in E as (-> & _ & _).
  - intros ->. rewrite ReadUint64_write by done. by rewrite Z.eqb_refl.
Qed.

Lemma read_header_ok len r r' : bytes_ok r -> is_u64 len ->
  read_header len r = Ok r' <-> r = WriteUint64 32 ++ WriteUint64 len ++ r'.
Proof.
  intros Hr Hl. unfold read_header. rewrite res_bind_ok. split.
  - intros (r1 & H1 & H2). apply read_expected_ok in H1; [|done|ulia]. subst r.
    apply bytes_ok_app in Hr as [_ Hr]. apply read_expected_ok in H2; [|done..]. by subst.
  - intros ->. apply bytes_ok_app in Hr as Hr'. destruct Hr' as [_ Hr'].
    exists (WriteUint64 len ++ r'). split; apply read_expected_ok; done || ulia.
Qed.

Lemma read_end_ok r u : read_end r = Ok u <-> r = [].
Proof.
  unfold read_end, EmptyReader. case_bool_decide; [|done]. by destruct u.
Qed.

Lemma espresso_value_ok w b : is_hash w -> espresso_value w = Ok b <-> w = WriteBool b.
Proof.
  intros [Hl Hb]. unfold espresso_value. split.
  - case_bool_decide as Hz; [|done]. cbn [negb]. intros H.
    destruct (decide (w = take 31 w ++ [nth 31 w 0])) as [E|N]; cycle 1.
    { destruct N. rewrite <- (take_drop 31 w) at 1. f_equal.
      rewrite (nth_lookup w 31 0). destruct (drop 31 w) as [|x l] eqn:E; apply (f_equal length) in E as El;
        rewrite length_drop, Hl in El; [done|]. destruct l; [|done].
      rewrite <- (Nat.add_0_r 31), <- lookup_drop, E. done. }
    assert (E31 : take 31 w = zeros 31).
    { apply list_eq. intros i. unfold zeros. destruct (decide (i < 31)%nat).
      - rewrite lookup_replicate_2 by done. destruct (take 31 w !! i) eqn:Ei.
        + f_equal. by apply (Forall_lookup_1 _ _ _ _ Hz Ei).
        + apply lookup_ge_None in Ei. rewrite length_take, Hl in Ei. lia.
      - rewrite (proj2 (lookup_ge_None (take 31 w) i)), (proj2 (lookup_ge_None (replicate 31 0) i)); [done| |];
          rewrite ?length_take, ?length_replicate, ?Hl; lia. }
    rewrite E, E31. destruct (Z.eqb_spec (nth 31 w 0) 0) as [->|]; cbn in H; [by injection H as <-|].
    destruct (Z.eqb_spec (nth 31 w 0) 1) as [->|]; cbn in H; [by injection H as <-|done].
  - intros ->. destruct b; reflexivity.
Qed.

Lemma WriteUint64_hash n : is_u64 n -> is_hash (WriteUint64 n).
Proof.
  intros. split; [unfold WriteUint64; by rewrite length_app, length_put_be|].
  apply bytes_ok_app. split; [apply zeros_ok|apply put_be_ok].
Qed.

Lemma WriteAddress_hash a : is_address a -> is_hash (WriteAddress a).
Proof.
  intros [Hl Ha]. unfold WriteAddress. split; [by rewrite length_app, Hl|].
  apply bytes_ok_app. split; [apply zeros_ok|done].
Qed.

Lemma blen_hash h : is_hash h -> blen h = 32.
Proof. intros [H _]. unfold blen. by rewrite H. Qed.

(** The payload of every update but the ignored one is one or two words. *)
Lemma abi_bytes_one w : is_hash w -> abi_bytes w = WriteUint64 32 ++ WriteUint64 32 ++ w.
Proof. intros H. unfold abi_bytes. by rewrite blen_hash. Qed.

Lemma abi_bytes_two v w : is_hash v -> is_hash w ->
  abi_bytes (v ++ w) = WriteUint64 32 ++ WriteUint64 64 ++ v ++ w.
Proof. intros H1 H2. unfold abi_bytes. rewrite blen_app. by rewrite !blen_hash. Qed.

(** One case of the switch: header, one word, end of the data. *)
Lemma one_word_case {A} (rd : bytes -> res (A * bytes)) (wr : A -> bytes) (wf : A -> Prop) msg data a :
  (forall r x r', bytes_ok r -> rd r = Ok (x, r') <-> r = wr x ++ r' /\ wf x) ->
  (forall x, wf x -> is_hash (wr x)) -> bytes_ok data ->
  (r ← read_header 32 data; '(x, r) ← read_field msg rd r; _ ← read_end r; Ok x) = Ok a <->
  data = abi_bytes (wr a) /\ wf a.
Proof.
  intros Hrd Hwr Hd. split.
  - intros H. apply res_bind_ok in H as (r & Hh & H).
    apply read_header_ok in Hh; [|done|ulia]. subst data.
    do 2 (apply bytes_ok_app in Hd as [_ Hd]).
    apply res_bind_ok in H as ([x r1] & Hf & H). unfold read_field in Hf. apply map_err_ok in Hf.
    apply res_bind_ok in H as (u & He & H). apply read_end_ok in He. subst r1. injection H as <-.
    apply Hrd in Hf as [-> Hx]; [|done]. rewrite app_nil_r, abi_bytes_one by auto. done.
  - intros [-> Ha]. apply res_bind_ok. exists (wr a ++ []). split.
    + rewrite app_nil_r. apply read_header_ok; [done|ulia|by rewrite abi_bytes_one by auto].
    + assert (Hw : bytes_ok (wr a ++ [])) by (rewrite app_nil_r; apply Hwr; done).
      unfold read_field. rewrite (proj2 (Hrd (wr a ++ []) a [] Hw)) by done. done.
Qed.

Lemma ReadAddress_iff r a r' : bytes_ok r -> ReadAddress r = Ok (a, r') <-> r = WriteAddress a ++ r' /\ is_address a.
Proof.
  intros Hr. split; [intros H; by apply ReadAddress_inv in H as (-> & ? & _)|].
  intros [-> Ha]. by apply ReadAddress_write.
Qed.

Lemma ReadUint64_iff r n r' : bytes_ok r -> ReadUint64 r = Ok (n, r') <-> r = WriteUint64 n ++ r' /\ is_u64 n.
Proof.
  intros Hr. split; [intros H; by apply ReadUint64_inv in H as (-> & ? & _)|].
  intros [-> Hn]. by apply ReadUint64_write.
Qed.

Lemma ReadEthBytes32_iff r h r' : bytes_ok r -> ReadEthBytes32 r = Ok (h, r') <-> r = WriteEthBytes32 h ++ r' /\ is_hash h.
Proof.
  intros Hr. split; [intros H; by apply ReadEthBytes32_inv in H as (-> & ? & _)|].
  intros [-> Hn]. by apply ReadEthBytes32_write.
Qed.

(** The field an encoding with a given payload asks to change. *)
Lemma case_map {A} (f : A -> SystemConfig) data rd msg c' :
  (r ← read_header 32 data; '(x, r) ← read_field msg rd r; _ ← read_end r; Ok (f x)) = Ok c' <->
  exists a : A, (r ← read_header 32 data; '(x, r) ← read_field msg rd r; _ ← read_end r; Ok x) = Ok a /\ c' = f a.
Proof.
  destruct (read_header 32 data) as [r|]; cbn [mbind res_bind]; [|naive_solver].
  destruct (read_field msg rd r) as [[x r1]|]; cbn [mbind res_bind]; [|naive_solver].
  destruct (read_end r1); cbn [mbind res_bind]; naive_solver.
Qed.

Lemma two_word_case data c' c :
  bytes_ok data ->
  (r ← read_header 64 data;
   '(o, r) ← read_field "could not read overhead" ReadEthBytes32 r;
   '(s, r) ← read_field "could not read scalar" ReadEthBytes32 r;
   _ ← read_end r; Ok (set_GasConfig o s c)) = Ok c' <->
  exists o s, is_hash o /\ is_hash s /\ data = abi_bytes (WriteEthBytes32 o ++ WriteEthBytes32 s) /\ c' = set_GasConfig o s c.
Proof.
  intros Hd. unfold read_field. split.
  - intros H. apply res_bind_ok in H as (r & Hh & H). apply read_header_ok in Hh; [|done|ulia]. subst data.
    do 2 (apply bytes_ok_app in Hd as [_ Hd]).
    apply res_bind_ok in H as ([o r1] & Ho & H). apply map_err_ok, ReadEthBytes32_inv in Ho as (-> & Ho & Hd1); [|done].
    apply res_bind_ok in H as ([s r2] & Hs & H). apply map_err_ok, ReadEthBytes32_inv in Hs as (-> & Hs & Hd2); [|done].
    apply res_bind_ok in H as (u & He & H). apply read_end_ok in He. subst r2. injection H as <-.
    exists o, s. rewrite abi_bytes_two, app_nil_r by done. done.
  - intros (o & s & Ho & Hs & -> & ->). rewrite abi_bytes_two in * by done.
    rewrite (proj2 (read_header_ok 64 _ (WriteEthBytes32 o ++ WriteEthBytes32 s) Hd ltac:(ulia))) by done.
    cbn [mbind res_bind]. rewrite ReadEthBytes32_write by done. cbn [map_err mbind res_bind].
    rewrite <- (app_nil_r (WriteEthBytes32 s)), ReadEthBytes32_write by done. done.
Qed.

Lemma espresso_case data c' c :
  bytes_ok data ->
  (r ← read_header 32 data;
   '(w, r) ← read_field "could not read espresso" ReadEthBytes32 r;
   _ ← read_end r; b ← espresso_value w; Ok (set_Espresso b c)) = Ok c' <->
  exists b, data = abi_bytes (WriteBool b) /\ c' = set_Espresso b c.
Proof.
  intros Hd.
  assert (Hc : forall b, (r ← read_header 32 data;
     '(w, r) ← read_field "could not read espresso" ReadEthBytes32 r;
     _ ← read_end r; espresso_value w) = Ok b <-> data = abi_bytes (WriteBool b)).
  { intros b. trans (exists w, (r ← read_header 32 data;
     '(w, r) ← read_field "could not read espresso" ReadEthBytes32 r; _ ← read_end r; Ok w) = Ok w /\ espresso_value w = Ok b).
    - destruct (read_header 32 data) as [r|]; cbn [mbind res_bind]; [|naive_solver].
      destruct (read_field _ _ r) as [[x r1]|]; cbn [mbind res_bind]; [|naive_solver].
      destruct (read_end r1); cbn [mbind res_bind]; naive_solver.
    - split.
      + intros (w & Hw & Hv). apply (one_word_case _ WriteEthBytes32 is_hash) in Hw as [-> Hh];
          [|apply ReadEthBytes32_iff|done|done].
        by apply espresso_value_ok in Hv as ->.
      + intros ->. exists (WriteBool b). assert (is_hash (WriteBool b)) by (destruct b; apply WriteUint64_hash; ulia).
        split; [|by apply espresso_value_ok].
        apply (one_word_case _ WriteEthBytes32 is_hash); auto using ReadEthBytes32_iff. }
  split.
  - intros H.
    destruct (read_header 32 data) as [r|]; cbn [mbind res_bind] in *; [|done].
    destruct (read_field _ _ r) as [[x r1]|]; cbn [mbind res_bind] in *; [|done].
    destruct (read_end r1); cbn [mbind res_bind] in *; [|done].
    destruct (espresso_value x) as [b|]; cbn [mbind res_bind] in *; [|done]. injection H as <-.
    exists b. split; [by apply Hc|done].
  - intros (b & Hb & ->). apply Hc in Hb.
    destruct (read_header 32 data) as [r|]; cbn [mbind res_bind] in *; [|done].
    destruct (read_field _ _ r) as [[x r1]|]; cbn [mbind res_bind] in *; [|done].
    destruct (read_end r1); cbn [mbind res_bind] in *; [|done]. by rewrite Hb.
Qed.

Lemma topics_case {A} (l : list A) (P : Prop) :
  (forall a b c, l = [a; b; c] -> P) -> ((forall a b c, l <> [a; b; c]) -> P) -> P.
Proof. destruct l as [|a [|b [|c [|]]]]; naive_solver. Qed.

Lemma decodeUpdate_iff c ev c' : bytes_ok (log_Data ev) ->
  decodeUpdate c ev = Ok c' <-> exists u, encodes ev u /\ c' = apply_update u c.
Proof.
  intros Hd. unfold encodes. apply (topics_case (log_Topics ev)).
  2: { intros N. unfold decodeUpdate. split.
       - destruct (log_Topics ev) as [|a [|b [|d [|]]]]; try done. by destruct (N a b d).
       - intros (u & (_ & _ & E) & _). by destruct (N _ _ _ E). }
  intros t0 v ty E. unfold decodeUpdate. rewrite E.
  case_bool_decide as E0; cbn [negb]; [|split; [done|intros (u & (_ & _ & [= -> _ _]) & _); done]].
  case_bool_decide as Ev; cbn [negb]; [|split; [done|intros (u & (_ & _ & [= _ -> _]) & _); done]].
  subst t0 v.
  trans (exists u, ty = update_type u /\ update_wf u /\ log_Data ev = update_data u /\ c' = apply_update u c); cycle 1.
  { split; [intros (u & -> & ? & ? & ?); by exists u|].
    intros (u & (? & ? & [= ->]) & ?). by exists u. }
  case_bool_decide as E1.
  { rewrite case_map. setoid_rewrite (one_word_case ReadAddress WriteAddress is_address);
      [|apply ReadAddress_iff|apply WriteAddress_hash|done].
    subst ty. split; [intros (a & [? ?] & ->); by exists (UpdateBatcher a)|].
    intros (u & Ht & Hw & Hdd & ->). destruct u; try discriminate Ht. eauto. }
  case_bool_decide as E2.
  { rewrite two_word_case by done.
    subst ty. split; [intros (a & s & ? & ? & ? & ->); by exists (UpdateGasConfig a s)|].
    intros (u & Ht & Hw & Hdd & ->). destruct u; try discriminate Ht. cbn in Hw. naive_solver. }
  case_bool_decide as E3.
  { rewrite case_map. setoid_rewrite (one_word_case ReadUint64 WriteUint64 is_u64);
      [|apply ReadUint64_iff|apply WriteUint64_hash|done].
    subst ty. split; [intros (a & [? ?] & ->); by exists (UpdateGasLimit a)|].
    intros (u & Ht & Hw & Hdd & ->). destruct u; try discriminate Ht. eauto. }
  case_bool_decide as E4.
  { subst ty. split; [intros [= <-]; by exists (UpdateUnsafeBlockSigner (log_Data ev))|].
    intros (u & Ht & Hw & Hdd & ->). destruct u; try discriminate Ht. done. }
  case_bool_decide as E5.
  { rewrite espresso_case by done.
    subst ty. split; [intros (b & ? & ->); by exists (UpdateEspresso b)|].
    intros (u & Ht & Hw & Hdd & ->). destruct u; try discriminate Ht. eauto. }
  case_bool_decide as E6.
  { rewrite case_map. setoid_rewrite (one_word_case ReadUint64 WriteUint64 is_u64);
      [|apply ReadUint64_iff|apply WriteUint64_hash|done].
    subst ty. split; [intros (a & [? ?] & ->); by exists (UpdateEspressoL1ConfDepth a)|].
    intros (u & Ht & Hw & Hdd & ->). destruct u; try discriminate Ht. eauto. }
  split; [done|]. intros (u & -> & _). by destruct u.
Qed.

(** ** The receipts of a block *)

Definition config_logs (cfg : Config) (receipts : list Receipt) : list Log :=
  filter (fun log => is_config_update cfg log = true)
    (concat (map rec_Logs (filter (fun r => rec_Status r = ReceiptStatusSuccessful) receipts))).

Definition apply_opt (c : SystemConfig) (ou : option Update) : SystemConfig :=
  match ou with Some u => apply_update u c | None => c end.

Definition reads_as (log : Log) (ou : option Update) : Prop :=
  match ou with Some u => encodes log u | None => forall u, ~ encodes log u end.

Definition is_malformed (ou : option Update) : bool := match ou with Some _ => false | None => true end.

Lemma process_logs_flat cfg logs st : process_logs cfg logs st =
  fold_left (fun st log => match ProcessSystemConfigUpdateLogEvent log (fst st) with
           | (sysCfg, Ok _) => (sysCfg, snd st)
           | (sysCfg, Err e) => (sysCfg, snd st ++ [malformatted e])
           end) (filter (fun log => is_config_update cfg log = true) logs) st.
Proof.
  revert st. induction logs as [|log logs IH]; intros st; [done|].
  cbn [process_logs]. rewrite IH, filter_cons. destruct (is_config_update cfg log); case_decide; done.
Qed.

Lemma process_receipts_flat cfg receipts st : process_receipts cfg receipts st =
  fold_left (fun st log => match ProcessSystemConfigUpdateLogEvent log (fst st) with
           | (sysCfg, Ok _) => (sysCfg, snd st)
           | (sysCfg, Err e) => (sysCfg, snd st ++ [malformatted e])
           end) (config_logs cfg receipts) st.
Proof.
  unfold config_logs. revert st. induction receipts as [|r receipts IH]; intros st; [done|].
  cbn [process_receipts]. rewrite IH, filter_cons.
  destruct (Z.eqb_spec (rec_Status r) ReceiptStatusSuccessful); case_decide; try done.
  cbn [negb map concat]. by rewrite filter_app, fold_left_app, process_logs_flat.
Qed.

Lemma process_logs_reads logs c errs : Forall (fun log => bytes_ok (log_Data log)) logs ->
  exists us errs', Forall2 reads_as logs us /\
    fold_left (fun st log => match ProcessSystemConfigUpdateLogEvent log (fst st) with
           | (sysCfg, Ok _) => (sysCfg, snd st)
           | (sysCfg, Err e) => (sysCfg, snd st ++ [malformatted e])
           end) logs (c, errs) = (fold_left apply_opt us c, errs ++ errs') /\
    length errs' = length (filter is_malformed us).
Proof.
  revert c errs. induction logs as [|log logs IH]; intros c errs Hl.
  { exists [], []. by rewrite app_nil_r. }
  apply Forall_cons_1 in Hl as [Hd Hl]. cbn [fold_left fst snd].
  unfold ProcessSystemConfigUpdateLogEvent at 2. destruct (decodeUpdate c log) as [c1|e] eqn:E.
  - apply decodeUpdate_iff in E as (u & Hu & ->); [|done].
    destruct (IH (apply_update u c) errs Hl) as (us & errs' & H1 & H2 & H3).
    exists (Some u :: us), errs'. split; [by constructor|]. done.
  - destruct (IH c (errs ++ [malformatted e]) Hl) as (us & errs' & H1 & H2 & H3).
    exists (None :: us), (malformatted e :: errs'). split; [constructor; [|done]|].
    + intros u Hu. by rewrite (proj2 (decodeUpdate_iff c log _ Hd) (ex_intro _ u (conj Hu eq_refl))) in E.
    + rewrite H2, <- app_assoc. cbn. split; [done|]. by rewrite H3.
Qed.

(** C5. A system config event is applied exactly when its topics and its data
    are the canonical ABI encoding of an update, and then only the field of
    that update changes; any other event leaves the configuration alone and is
    an error. *)
Theorem config_event_canonical (sysCfg sysCfg' : SystemConfig) (ev : Log)
  (Hdata : bytes_ok (log_Data ev)) :
  (ProcessSystemConfigUpdateLogEvent ev sysCfg = (sysCfg', Ok tt) <->
   exists u, encodes ev u /\ sysCfg' = apply_update u sysCfg) /\
  ((forall u, ~ encodes ev u) ->
   exists e, ProcessSystemConfigUpdateLogEvent ev sysCfg = (sysCfg, Err e)).
Proof.
  unfold ProcessSystemConfigUpdateLogEvent. pose proof (decodeUpdate_iff sysCfg ev) as H.
  destruct (decodeUpdate sysCfg ev) as [c|e]; split; try (by eauto).
  - rewrite <- H by done. naive_solver.
  - intros N. destruct (proj1 (H c Hdata) eq_refl) as (u & Hu & _). by destruct (N u).
  - rewrite <- H by done. naive_solver.
Qed.

(** The receipts of a block change the configuration by the updates their
    well-formed config logs encode, in the order of the block; failed
    receipts and foreign logs are skipped, and each malformed log adds one
    error and changes nothing. *)
Lemma receipts_fold_updates (sysCfg : SystemConfig) (receipts : list Receipt) (cfg : Config)
  (Hdata : Forall (fun log => bytes_ok (log_Data log)) (config_logs cfg receipts)) :
  exists us errs,
    Forall2 reads_as (config_logs cfg receipts) us /\
    UpdateSystemConfigWithL1Receipts sysCfg receipts cfg = (fold_left apply_opt us sysCfg, errs) /\
    length errs = length (filter is_malformed us).
Proof.
  unfold UpdateSystemConfigWithL1Receipts. rewrite process_receipts_flat.
  destruct (process_logs_reads (config_logs cfg receipts) sysCfg [] Hdata) as (us & errs & ?).
  by exists us, errs.
Qed.
End SystemConfig.

(** ** Witnesses *)

Definition ex_sysCfg : SystemConfig :=
  {| BatcherAddr := replicate 20 1; Overhead := hash_of 0; Scalar := hash_of 0; GasLimit := 30000000;
     Espresso := false; EspressoL1ConfDepth := 0 |}.

(** A concrete stand-in for the hash function. *)
Definition ex_keccak (b : bytes) : Hash := put_be 32 (get_be b).

Definition ex_config_log (u : Update) : Log :=
  {| log_Address := replicate 20 5;
     log_Topics := [ConfigUpdateEventABIHash ex_keccak; ConfigUpdateEventVersion0; update_type u];
     log_Data := update_data u; log_BlockHash := hash_of 3; log_Index := 0 |}.

Lemma config_event_canonical_witness :
  ProcessSystemConfigUpdateLogEvent ex_keccak (ex_config_log (UpdateEspresso true)) ex_sysCfg
  = (set_Espresso true ex_sysCfg, Ok tt).
Proof.
  apply (config_event_canonical ex_keccak ex_sysCfg _ (ex_config_log (UpdateEspresso true)));
    [vm_decide|].
  exists (UpdateEspresso true). repeat split.
Defined.

(** A receipt with an update, a malformed event and a foreign log, followed by
    a failed receipt. *)
Definition ex_receipts : list Receipt :=
  [ {| rec_Status := 1; rec_Logs :=
        [ ex_config_log (UpdateGasLimit 7);
          {| log_Address := replicate 20 5; log_Topics := [ConfigUpdateEventABIHash ex_keccak];
             log_Data := []; log_BlockHash := hash_of 3; log_Index := 1 |};
          {| log_Address := replicate 20 8; log_Topics := []; log_Data := [];
             log_BlockHash := hash_of 3; log_Index := 2 |};
          ex_config_log (UpdateBatcher (replicate 20 2)) ] |};
    {| rec_Status := 0; rec_Logs := [ex_config_log (UpdateGasLimit 8)] |} ].

Lemma receipts_fold_updates_witness :
  (exists us errs,
    Forall2 (reads_as ex_keccak) (config_logs ex_keccak ex_cfg ex_receipts) us /\
    UpdateSystemConfigWithL1Receipts ex_keccak ex_sysCfg ex_receipts ex_cfg = (fold_left apply_opt us ex_sysCfg, errs) /\
    length errs = length (filter is_malformed us)) /\
  UpdateSystemConfigWithL1Receipts ex_keccak ex_sysCfg ex_receipts ex_cfg
  = (set_BatcherAddr (replicate 20 2) (set_GasLimit 7 ex_sysCfg),
     [malformatted (Errorf "expected 3 event topics (event identity, indexed version, indexed updateType)")]).
Proof.
  split; [|vm_compute; reflexivity].
  apply (receipts_fold_updates ex_keccak ex_sysCfg ex_receipts ex_cfg). vm_decide.
Defined.
