(* ===== verification/Deposits.v ===== *)
(** * Deposits

    [op-node/rollup/derive/deposit_log.go], [deposit_source.go] and
    [deposits.go]: the events of the deposit contract, decoded into deposit
    transactions, and the deposits of all the receipts of an L1 block. *)

From S2P Require Import Prelude Eth Solabi SystemConfig.

(** go-ethereum's [types.DepositTx]; a nil [To] or [Mint] is [None]. *)
Record DepositTx := mkDepositTx {
  SourceHash : Hash;
  From : Address;
  To : option Address;
  Mint : option Z;
  Value : Z;
  Gas : Z;
  IsSystemTransaction : bool;
  tx_Data : bytes;
}.

#[export] Instance DepositTx_eq_dec : EqDecision DepositTx.
Proof. solve_decision. Defined.

Definition DepositEventVersion0 : Hash := zeros 32.
Definition UserDepositSourceDomain : Z := 0.
Definition L1InfoDepositSourceDomain : Z := 1.

(** [eth.AddressAsLeftPaddedHash] *)
Definition AddressAsLeftPaddedHash (a : Address) : Hash := zeros 12 ++ a.

(** [unmarshalDepositVersion0]: the fields it sets in the deposit. *)
Definition unmarshalDepositVersion0 (dep : DepositTx) (to : Address) (opaqueData : bytes) : res DepositTx :=
  if blen opaqueData <? 32 + 32 + 8 + 1 then Err (Errorf "unexpected opaqueData length") else
  let mint := get_be (slice 0 32 opaqueData) in
  let value := get_be (slice 32 64 opaqueData) in
  let gas := get_be (slice 64 72 opaqueData) in
  if 2 ^ 64 <=? gas then Err (Errorf "bad gas value") else
  let isCreation := nth 72 opaqueData 0 in
  Ok {| SourceHash := SourceHash dep; From := From dep;
        To := if isCreation =? 0 then Some to else To dep;
        Mint := if mint =? 0 then None else Some mint;
        Value := value; Gas := gas; IsSystemTransaction := IsSystemTransaction dep;
        tx_Data := slice 73 (blen opaqueData) opaqueData |}.

(** [x.BitLen() > 256]; [FillBytes] writes the absolute value. *)
Definition exceeds256 (x : Z) : bool := 2 ^ 256 <=? Z.abs x.

Definition marshalDepositVersion0 (deposit : DepositTx) : res bytes :=
  mint ← match Mint deposit with
         | None => Ok (zeros 32)
         | Some m => if exceeds256 m then Err (Errorf "mint value exceeds 256 bits")
                     else Ok (put_be 32 (Z.abs m))
         end;
  if exceeds256 (Value deposit) then Err (Errorf "value value exceeds 256 bits") else
  let creation := match To deposit with None => [1] | Some _ => [0] end in
  Ok (mint ++ put_be 32 (Z.abs (Value deposit)) ++ put_be 8 (Gas deposit) ++ creation ++ tx_Data deposit).

Section Deposits.
Variable Keccak256Hash : bytes -> Hash.

Definition DepositEventABIHash : Hash :=
  Keccak256Hash (str_bytes "TransactionDeposited(address,address,uint256,bytes)").

(** The two [SourceHash] methods, over the 64-byte buffers they fill. *)
Definition depositSourceHash (domain : Z) (L1BlockHash : Hash) (index : Z) : Hash :=
  let depositIDHash := Keccak256Hash (L1BlockHash ++ zeros 24 ++ put_be 8 index) in
  Keccak256Hash (zeros 24 ++ put_be 8 domain ++ depositIDHash).

Definition UserDepositSource_SourceHash (L1BlockHash : Hash) (LogIndex : Z) : Hash :=
  depositSourceHash UserDepositSourceDomain L1BlockHash LogIndex.

Definition L1InfoDepositSource_SourceHash (L1BlockHash : Hash) (SeqNumber : Z) : Hash :=
  depositSourceHash L1InfoDepositSourceDomain L1BlockHash SeqNumber.

(** [UnmarshalDepositLogEvent] *)
Definition UnmarshalDepositLogEvent (ev : Log) : res DepositTx :=
  match log_Topics ev with
  | [t0; t1; t2; version] =>
      let data := log_Data ev in
      if negb (bool_decide (t0 = DepositEventABIHash)) then Err (Errorf "invalid deposit event selector")
      else if blen data <? 64 then Err (Errorf "incomplate opaqueData slice header")
      else if negb (blen data mod 32 =? 0) then Err (Errorf "expected log data to be multiple of 32 bytes")
      else
      let from := drop 12 t1 in
      let to := drop 12 t2 in
      let opaqueContentOffset := get_be (slice 0 32 data) in
      if (2 ^ 64 <=? opaqueContentOffset) || negb (opaqueContentOffset =? 32) then
        Err (Errorf "invalid opaqueData slice header offset")
      else
      let opaqueContentLength := get_be (slice 32 64 data) in
      let remaining := u64 (blen data - 64) in
      if (2 ^ 64 <=? opaqueContentLength) || (remaining <? opaqueContentLength)
         || (opaqueContentLength +₆₄ 32 <=? remaining) then
        Err (Errorf "invalid opaqueData slice header length")
      else
      let opaqueData := slice 64 (64 + opaqueContentLength) data in
      let dep := {| SourceHash := UserDepositSource_SourceHash (log_BlockHash ev) (log_Index ev);
                    From := from; To := None; Mint := None; Value := 0; Gas := 0;
                    IsSystemTransaction := false; tx_Data := [] |} in
      if bool_decide (version = DepositEventVersion0) then
        map_err (Wrapf "failed to decode deposit") (unmarshalDepositVersion0 dep to opaqueData)
      else Err (Errorf "invalid deposit version")
  | _ => Err (Errorf "expected 4 event topics (event identity, indexed from, indexed to, indexed version)")
  end.

(** [MarshalDepositLogEvent] *)
Definition MarshalDepositLogEvent (depositContractAddr : Address) (deposit : DepositTx) : res Log :=
  let toBytes := match To deposit with Some a => AddressAsLeftPaddedHash a | None => zeros 32 end in
  opaqueData ← marshalDepositVersion0 deposit;
  let data := zeros 24 ++ put_be 8 32 ++ zeros 24 ++ put_be 8 (u64 (blen opaqueData)) ++ opaqueData in
  let data := if negb (blen data mod 32 =? 0) then data ++ zeros (Z.to_nat (32 - blen data mod 32)) else data in
  Ok {| log_Address := depositContractAddr;
        log_Topics := [DepositEventABIHash; AddressAsLeftPaddedHash (From deposit); toBytes; DepositEventVersion0];
        log_Data := data; log_BlockHash := zeros 32; log_Index := 0 |}.

Definition is_deposit_log (depositContractAddr : Address) (log : Log) : bool :=
  bool_decide (log_Address log = depositContractAddr) &&
  match log_Topics log with
  | [] => false
  | t0 :: _ => bool_decide (t0 = DepositEventABIHash)
  end.

(** [UserDeposits]: the deposits and the errors appended to the
    [multierror]. *)
Fixpoint user_deposits_logs (addr : Address) (logs : list Log) (st : list DepositTx * list go_error)
    : list DepositTx * list go_error :=
  match logs with
  | [] => st
  | log :: logs =>
      user_deposits_logs addr logs
        (if is_deposit_log addr log then
           match UnmarshalDepositLogEvent log with
           | Err e => (fst st, snd st ++ [Wrapf "malformatted L1 deposit log in receipt" e])
           | Ok dep => (fst st ++ [dep], snd st)
           end
         else st)
  end.

Fixpoint user_deposits_receipts (addr : Address) (receipts : list Receipt) (st : list DepositTx * list go_error)
    : list DepositTx * list go_error :=
  match receipts with
  | [] => st
  | rec :: receipts =>
      user_deposits_receipts addr receipts
        (if negb (rec_Status rec =? ReceiptStatusSuccessful) then st
         else user_deposits_logs addr (rec_Logs rec) st)
  end.

Definition UserDeposits (receipts : list Receipt) (depositContractAddr : Address)
    : list DepositTx * list go_error :=
  user_deposits_receipts depositContractAddr receipts ([], []).

(** [DeriveDeposits]; [types.NewTx(tx).MarshalBinary()] is go-ethereum's, and
    appending a [multierror] to an empty one gives its errors. *)
Variable encode_deposit : DepositTx -> res bytes.

Definition DeriveDeposits (receipts : list Receipt) (depositContractAddr : Address)
    : list bytes * list go_error :=
  let '(userDeposits, err) := UserDeposits receipts depositContractAddr in
  fold_left (fun '(encodedTxs, result) tx =>
    match encode_deposit tx with
    | Err _ => (encodedTxs, result ++ [Errorf "failed to encode user tx"])
    | Ok opaqueTx => (encodedTxs ++ [opaqueTx], result)
    end) userDeposits ([], err).

(** ** Specification *)

(** What the deposit contract can emit: a non-zero mint or none, a value and a
    gas limit of their width, never a system transaction. *)
Definition deposit_wf (d : DepositTx) : Prop :=
  is_address (From d) /\ (forall a, To d = Some a -> is_address a) /\
  (forall m, Mint d = Some m -> 0 < m < 2 ^ 256) /\
  is_u256 (Value d) /\ is_u64 (Gas d) /\ IsSystemTransaction d = false /\
  blen (tx_Data d) < 2 ^ 62.

(** The log of deposit [d] as the [Index]-th of block [BlockHash]. *)
Definition emitted_at (addr : Address) (log : Log) (d : DepositTx) : Prop :=
  deposit_wf d /\
  SourceHash d = UserDepositSource_SourceHash (log_BlockHash log) (log_Index log) /\
  exists l, MarshalDepositLogEvent addr d = Ok l /\
    log_Address log = log_Address l /\ log_Topics log = log_Topics l /\ log_Data log = log_Data l.

(** ** Round trip *)

(** The five parts of the packed deposit data. *)
Lemma opaque_parts m v g x d : blen m = 32 -> blen v = 32 -> blen g = 8 ->
  let b := m ++ v ++ g ++ [x] ++ d in
  blen b = 73 + blen d /\ slice 0 32 b = m /\ slice 32 64 b = v /\ slice 64 72 b = g /\
  nth 72 b 0 = x /\ slice 73 (blen b) b = d.
Proof.
  intros Hm Hv Hg b. unfold b. assert (Hx : blen [x] = 1) by done.
  rewrite !blen_app, Hm, Hv, Hg, Hx.
  split; [lia|]. split; [by apply slice_head|]. split; [apply slice_app; lia|]. split; [|split].
  - rewrite (app_assoc m). apply slice_app; rewrite ?blen_app; lia.
  - rewrite (app_assoc v), (app_assoc m). rewrite app_nth2; unfold blen in *; rewrite !length_app; [|lia].
    by replace (72 - (length m + (length v + length g)))%nat with 0%nat by lia.
  - rewrite (app_assoc g), (app_assoc v), (app_assoc m). apply slice_app_end; rewrite ?blen_app; lia.
Qed.

Lemma unmarshal_marshal0 dep d to : deposit_wf d ->
  exists b, marshalDepositVersion0 d = Ok b /\ blen b = 73 + blen (tx_Data d) /\
    unmarshalDepositVersion0 dep to b =
      Ok {| SourceHash := SourceHash dep; From := From dep;
            To := match To d with Some _ => Some to | None => To dep end;
            Mint := Mint d; Value := Value d; Gas := Gas d;
            IsSystemTransaction := IsSystemTransaction dep; tx_Data := tx_Data d |}.
Proof.
  intros (_ & _ & Hm & Hv & Hg & _ & Hd). unfold marshalDepositVersion0, unmarshalDepositVersion0, exceeds256.
  set (mint := match Mint d with None => zeros 32 | Some m => put_be 32 m end).
  assert (Hmint : match Mint d with
         | None => Ok (zeros 32)
         | Some m => if 2 ^ 256 <=? Z.abs m then Err (Errorf "mint value exceeds 256 bits")
                     else Ok (put_be 32 (Z.abs m)) end = Ok mint /\ blen mint = 32 /\
         get_be mint = default 0 (Mint d)).
  { unfold mint. destruct (Mint d) as [m|]; [|done]. specialize (Hm m eq_refl).
    destruct (Z.leb_spec (2 ^ 256) (Z.abs m)); [lia|].
    rewrite Z.abs_eq by lia. rewrite blen_put_be, get_put_be by (cbn; lia). done. }
  destruct Hmint as (-> & Hml & Hmb). cbn [mbind res_bind]. unfold is_u256, is_u64 in *.
  destruct (Z.leb_spec (2 ^ 256) (Z.abs (Value d))); [lia|]. rewrite Z.abs_eq by lia.
  replace (match To d with Some _ => [0] | None => [1] end)
    with [match To d with Some _ => 0 | None => 1 end] by (by destruct (To d)).
  destruct (opaque_parts mint (put_be 32 (Value d)) (put_be 8 (Gas d))
    (match To d with Some _ => 0 | None => 1 end) (tx_Data d)) as (Hl & H1 & H2 & H3 & H4 & H5);
    [done|apply blen_put_be|apply blen_put_be|].
  eexists. split; [done|]. split; [done|]. rewrite H1, H2, H3, H4, H5, Hl, Hmb.
  pose proof (blen_nonneg (tx_Data d)).
  destruct (Z.ltb_spec (73 + blen (tx_Data d)) (32 + 32 + 8 + 1)); [lia|].
  rewrite !get_put_be by (cbn; lia). destruct (Z.leb_spec (2 ^ 64) (Gas d)); [lia|].
  f_equal. f_equal.
  - by destruct (To d).
  - destruct (Mint d) as [m|]; [|done]. specialize (Hm m eq_refl). cbn.
    destruct (Z.eqb_spec m 0); [lia|done].
Qed.

(** The data section of the log of a deposit: offset, length, content and the
    shortest padding to a multiple of 32 bytes. *)
Lemma log_data_parts content pad : blen content < 2 ^ 63 ->
  let data := zeros 24 ++ put_be 8 32 ++ zeros 24 ++ put_be 8 (u64 (blen content)) ++ content ++ pad in
  blen data = 64 + blen content + blen pad /\
  get_be (slice 0 32 data) = 32 /\ get_be (slice 32 64 data) = blen content /\
  slice 64 (64 + blen content) data = content.
Proof.
  intros Hc data. pose proof (blen_nonneg content).
  assert (Hd : data = (zeros 24 ++ put_be 8 32) ++ (zeros 24 ++ put_be 8 (u64 (blen content))) ++ content ++ pad)
    by (unfold data; by rewrite <- !app_assoc).
  assert (H1 : blen (zeros 24 ++ put_be 8 32) = 32) by done.
  assert (H2 : blen (zeros 24 ++ put_be 8 (u64 (blen content))) = 32)
    by (rewrite blen_app, blen_put_be; done).
  rewrite Hd. split; [rewrite (blen_app _ ((_ ++ _) ++ _)), (blen_app _ (content ++ _)), H1, H2, blen_app; lia|]. split; [|split].
  - rewrite slice_head by lia. done.
  - rewrite slice_app by lia. rewrite get_be_zeros_app, get_put_be.
    + apply u64_id. unfold is_u64. lia.
    + apply u64_range.
  - rewrite app_assoc. apply slice_app; [rewrite blen_app; lia|done].
Qed.

Lemma padding_bounds n : 0 <= n -> exists p, 0 <= p < 32 /\ (n + p) mod 32 = 0 /\
  (p = if negb (n mod 32 =? 0) then 32 - n mod 32 else 0).
Proof.
  intros. pose proof (Z.mod_pos_bound n 32). pose proof (Z.div_mod n 32).
  eexists. split; [|split; [|reflexivity]]; destruct (Z.eqb_spec (n mod 32) 0); cbn; try lia.
  - by rewrite Z.add_0_r.
  - replace (n + (32 - n mod 32)) with ((n / 32 + 1) * 32) by lia. apply Z.mod_mul. lia.
Qed.

Lemma unmarshal_emitted addr log d : emitted_at addr log d ->
  is_deposit_log addr log = true /\ UnmarshalDepositLogEvent log = Ok d.
Proof.
  intros (Hwf & Hsrc & l & Hl & Ha & Ht & Hd). unfold MarshalDepositLogEvent in Hl.
  set (dep := {| SourceHash := UserDepositSource_SourceHash (log_BlockHash log) (log_Index log);
                 From := From d; To := None; Mint := None; Value := 0; Gas := 0;
                 IsSystemTransaction := false; tx_Data := [] |}).
  set (toH := match To d with Some a => AddressAsLeftPaddedHash a | None => zeros 32 end) in *.
  destruct (unmarshal_marshal0 dep d (drop 12 toH) Hwf) as (b & Hb & Hbl & Hu).
  rewrite Hb in Hl. cbn [mbind res_bind] in Hl. apply Ok_inj in Hl. subst l. cbn [log_Address log_Topics] in Ha, Ht.
  unfold is_deposit_log. rewrite Ha, Ht, !bool_decide_eq_true_2 by done. split; [done|].
  unfold UnmarshalDepositLogEvent. rewrite Ht, bool_decide_eq_true_2 by done. cbn [negb].
  destruct Hwf as (Hfrom & Hto & Hmi & Hva & Hga & Hsys & Hdat).
  pose proof (blen_nonneg (tx_Data d)).
  set (n := blen b) in *.
  destruct (padding_bounds (64 + n) ltac:(lia)) as (p & Hp & Hmod & Hpe).
  assert (Hdata : exists pad, blen pad = p /\
    log_Data log = zeros 24 ++ put_be 8 32 ++ zeros 24 ++ put_be 8 (u64 n) ++ b ++ pad).
  { rewrite Hd. cbn [log_Data]. pose proof (log_data_parts b []) as [Hn0 _]; [lia|].
    fold n in Hn0. change (blen []) with 0 in Hn0. rewrite app_nil_r, Z.add_0_r in Hn0. rewrite Hn0.
    destruct (negb ((64 + n) mod 32 =? 0)).
    - exists (zeros (Z.to_nat p)). split; [rewrite blen_zeros; lia|]. rewrite Hpe. by rewrite <- !app_assoc.
    - exists []. by rewrite app_nil_r. }
  destruct Hdata as (pad & Hpad & ->).
  destruct (log_data_parts b pad) as (H1 & H2 & H3 & H4); [lia|]. fold n in H1, H2, H3, H4.
  rewrite H1, H2, H3, H4, Hpad. rewrite Hmod.
  destruct (Z.ltb_spec (64 + n + p) 64); [lia|]. cbn [negb Z.eqb]. cbn [Z.leb].
  replace (64 + n + p - 64) with (n + p) by lia. rewrite u64_id by (unfold is_u64; lia).
  unfold add64. rewrite u64_id by (unfold is_u64; lia).
  destruct (Z.leb_spec (2 ^ 64) n); [lia|]. destruct (Z.ltb_spec (n + p) n); [lia|].
  destruct (Z.leb_spec (n + 32) (n + p)); [lia|]. cbn [orb negb].
  change (2 ^ 64 <=? 32) with false. cbn [orb].
  rewrite bool_decide_eq_true_2 by done.
  replace (drop 12 (AddressAsLeftPaddedHash (From d))) with (From d) by done. fold dep. rewrite Hu.
  cbn [map_err]. f_equal. destruct d as [src from to mi va ga sys dat]. cbn in *. subst src sys. f_equal.
  unfold toH. by destruct to.
Qed.

(** ** The deposits of a block *)

Definition deposit_logs (addr : Address) (receipts : list Receipt) : list Log :=
  filter (fun log => is_deposit_log addr log = true)
    (concat (map rec_Logs (filter (fun r => rec_Status r = ReceiptStatusSuccessful) receipts))).

Definition deposit_step (st : list DepositTx * list go_error) (log : Log) : list DepositTx * list go_error :=
  match UnmarshalDepositLogEvent log with
  | Err e => (fst st, snd st ++ [Wrapf "malformatted L1 deposit log in receipt" e])
  | Ok dep => (fst st ++ [dep], snd st)
  end.

Lemma user_deposits_flat addr receipts st :
  user_deposits_receipts addr receipts st = fold_left deposit_step (deposit_logs addr receipts) st.
Proof.
  unfold deposit_logs. revert st. induction receipts as [|r receipts IH]; intros st; [done|].
  cbn [user_deposits_receipts]. rewrite IH, filter_cons.
  destruct (Z.eqb_spec (rec_Status r) ReceiptStatusSuccessful); case_decide; try done.
  cbn [negb map concat]. rewrite filter_app, fold_left_app. f_equal.
  generalize (rec_Logs r). intros logs. clear IH. revert st. induction logs as [|log logs IH]; intros st; [done|].
  cbn [user_deposits_logs]. rewrite IH, filter_cons. destruct (is_deposit_log addr log); by case_decide.
Qed.

Lemma deposit_fold logs deps errs :
  fold_left deposit_step logs (deps, errs) =
    (deps ++ omap (fun log => match UnmarshalDepositLogEvent log with Ok d => Some d | Err _ => None end) logs,
     errs ++ omap (fun log => match UnmarshalDepositLogEvent log with
       Ok _ => None | Err e => Some (Wrapf "malformatted L1 deposit log in receipt" e) end) logs).
Proof.
  revert deps errs. induction logs as [|log logs IH]; intros deps errs; cbn; [by rewrite !app_nil_r|].
  unfold deposit_step at 2. destruct (UnmarshalDepositLogEvent log); cbn; rewrite IH; by rewrite <- app_assoc.
Qed.

Lemma emitted_omap addr logs ds : Forall2 (emitted_at addr) logs ds ->
  omap (fun log => match UnmarshalDepositLogEvent log with Ok d => Some d | Err _ => None end) logs = ds /\
  omap (fun log => match UnmarshalDepositLogEvent log with
       Ok _ => None | Err e => Some (Wrapf "malformatted L1 deposit log in receipt" e) end) logs = [].
Proof.
  induction 1 as [|log d logs ds Hd _ [IH1 IH2]]; [done|].
  destruct (unmarshal_emitted _ _ _ Hd) as [_ E]. cbn. rewrite E. cbn. by rewrite IH1, IH2.
Qed.

(** C6. The deposits a portal emitted in the successful receipts of a block
    are derived exactly once each, field by field, in the order of the block,
    and without an error, whatever other logs and failed receipts surround
    them. *)
Theorem UserDeposits_roundtrip (addr : Address) (receipts : list Receipt) (ds : list DepositTx)
  (Hemitted : Forall2 (emitted_at addr) (deposit_logs addr receipts) ds) :
  UserDeposits receipts addr = (ds, []).
Proof.
  unfold UserDeposits. rewrite user_deposits_flat, deposit_fold.
  destruct (emitted_omap _ _ _ Hemitted) as [-> ->]. done.
Qed.
End Deposits.

(** ** Witness *)

Definition ex_deposit (mint : option Z) (to : option Address) (data : bytes) (src : Hash) : DepositTx :=
  {| SourceHash := src; From := replicate 20 17; To := to; Mint := mint; Value := 5; Gas := 21000;
     IsSystemTransaction := false; tx_Data := data |}.

Definition ex_deposits : list DepositTx :=
  [ ex_deposit (Some 9) (Some (replicate 20 18)) [1; 2; 3] (UserDepositSource_SourceHash ex_keccak (hash_of 7) 0);
    ex_deposit None None [] (UserDepositSource_SourceHash ex_keccak (hash_of 7) 1) ].

Definition ex_deposit_log (i : Z) (d : DepositTx) : Log :=
  match MarshalDepositLogEvent ex_keccak (replicate 20 4) d with
  | Ok l => {| log_Address := log_Address l; log_Topics := log_Topics l; log_Data := log_Data l;
               log_BlockHash := hash_of 7; log_Index := i |}
  | Err _ => {| log_Address := []; log_Topics := []; log_Data := []; log_BlockHash := []; log_Index := 0 |}
  end.

Definition ex_deposit_receipts : list Receipt :=
  [ {| rec_Status := 1; rec_Logs := imap (fun i d => ex_deposit_log (Z.of_nat i) d) ex_deposits |};
    {| rec_Status := 0; rec_Logs := [ex_deposit_log 2 (ex_deposit None None [] [])] |} ].

Lemma UserDeposits_roundtrip_witness :
  UserDeposits ex_keccak ex_deposit_receipts (replicate 20 4) = (ex_deposits, []).
Proof.
  apply (UserDeposits_roundtrip ex_keccak (replicate 20 4) ex_deposit_receipts ex_deposits).
  assert (E : deposit_logs ex_keccak (replicate 20 4) ex_deposit_receipts
    = imap (fun i d => ex_deposit_log (Z.of_nat i) d) ex_deposits) by (vm_compute; reflexivity).
  rewrite E. constructor; [|constructor; [|constructor]]; (split; [|split; [vm_compute; reflexivity|]]).
  - split; [vm_decide|]. split; [intros a [= <-]; vm_decide|]. split; [intros m [= <-]; lia|]. repeat split; vm_decide.
  - eexists. split; [vm_compute; reflexivity|]. repeat split; vm_compute; reflexivity.
  - split; [vm_decide|]. split; [done|]. split; [done|]. repeat split; vm_decide.
  - eexists. split; [vm_compute; reflexivity|]. repeat split; vm_compute; reflexivity.
Defined.
