(* ===== verification/Espresso.v ===== *)
(** * Batches and their Espresso justifications

    The data of [op-service/eth/types.go] (justifications, payloads, payload
    attributes) and of [op-node/rollup/derive/singular_batch.go]. The Espresso
    library [espresso-sequencer-go] is not part of the repository: its headers,
    proofs, commitments and its namespace proof check are the class
    [EspressoLib]. *)

From S2P Require Import Prelude Eth.

Class EspressoLib := {
  Header : Type;
  NmtProof : Type;
  NmtRoot : Type;
  Commitment : Type;
  hd_Height : Header -> Z;
  hd_Timestamp : Header -> Z;
  hd_L1Head : Header -> Z;
  hd_TransactionsRoot : Header -> NmtRoot;
  Commit : Header -> Commitment;
  (** [Commitment.Equals], and [CommitmentFromUint256] of a number the
      contract gives. *)
  Commitment_Equals : Commitment -> Commitment -> bool;
  CommitmentFromUint256 : Z -> res Commitment;
  (** [nmt.ValidateBatchTransactions]; [None] is a nil error. *)
  ValidateBatchTransactions : Z -> list NmtRoot -> list NmtProof -> list bytes -> option go_error;
  (** [Equals] compares. *)
  Commitment_Equals_iff : forall c c', Commitment_Equals c c' = true <-> c = c';
}.

Section Data.
Context `{E : EspressoLib}.

Record EspressoBlockJustification := mkBlockJst {
  bj_Header : Header;
  bj_Proof : NmtProof;
}.

(** A nil [*espresso.Header] is [None]. *)
Record L2BatchJustification := mkJst {
  jst_Blocks : list EspressoBlockJustification;
  jst_Prev : option Header;
  jst_Next : option Header;
}.

Definition First (j : L2BatchJustification) : option Header :=
  match jst_Prev j with
  | Some h => Some h
  | None =>
      match jst_Blocks j with
      | b :: _ => Some (bj_Header b)
      | [] => jst_Next j
      end
  end.

Definition Last (j : L2BatchJustification) : option Header :=
  match jst_Next j with
  | Some h => Some h
  | None =>
      match last (jst_Blocks j) with
      | Some b => Some (bj_Header b)
      | None => jst_Prev j
      end
  end.

Record SingularBatch := mkSingularBatch {
  sb_ParentHash : Hash;
  sb_EpochNum : Z;
  sb_EpochHash : Hash;
  sb_Timestamp : Z;
  sb_Transactions : list bytes;
  sb_Justification : option L2BatchJustification;
}.

Definition Epoch (b : SingularBatch) : BlockID :=
  {| id_Hash := sb_EpochHash b; id_Number := sb_EpochNum b |}.
End Data.

(** [eth.ExecutionPayload]; nil withdrawals are [None]. *)
Record ExecutionPayload := mkPayload {
  pl_ParentHash : Hash;
  pl_FeeRecipient : Address;
  pl_StateRoot : Bytes32;
  pl_ReceiptsRoot : Bytes32;
  pl_LogsBloom : bytes;
  pl_PrevRandao : Bytes32;
  pl_BlockNumber : Z;
  pl_GasLimit : Z;
  pl_GasUsed : Z;
  pl_Timestamp : Z;
  pl_ExtraData : bytes;
  pl_BaseFeePerGas : Z;
  pl_BlockHash : Hash;
  pl_Withdrawals : option (list bytes);
  pl_Transactions : list bytes;
}.

Definition ExecutionPayload_ID (p : ExecutionPayload) : BlockID :=
  {| id_Hash := pl_BlockHash p; id_Number := pl_BlockNumber p |}.

Definition ExecutionPayload_ParentID (p : ExecutionPayload) : BlockID :=
  let n := pl_BlockNumber p in
  {| id_Hash := pl_ParentHash p; id_Number := if 0 <? n then n -₆₄ 1 else n |}.

(** [eth.PayloadAttributes] *)
Record PayloadAttributes := mkAttributes {
  pa_Timestamp : Z;
  pa_PrevRandao : Bytes32;
  pa_SuggestedFeeRecipient : Address;
  pa_Withdrawals : option (list bytes);
  pa_Transactions : list bytes;
  pa_NoTxPool : bool;
  pa_Espresso : bool;
  pa_GasLimit : option Z;
}.

(** What the source reads of an [eth.BlockInfo]. *)
Record BlockInfo := mkBlockInfo {
  bi_Hash : Hash;
  bi_ParentHash : Hash;
  bi_Number : Z;
  bi_Time : Z;
  bi_MixDigest : Hash;
  bi_BaseFee : Z;
}.

Definition InfoToL1BlockRef (info : BlockInfo) : L1BlockRef :=
  {| l1_Hash := bi_Hash info; l1_Number := bi_Number info;
     l1_ParentHash := bi_ParentHash info; l1_Time := bi_Time info |}.

(** A toy instance for concrete examples: a header is its number, its time,
    its L1 head and a root; a namespace proof is the list of its
    transactions; the commitment of a header is its number. *)
#[local] Program Instance ex_lib : EspressoLib := {|
  Header := Z * Z * Z;
  NmtProof := list bytes;
  NmtRoot := unit;
  Commitment := Z;
  hd_Height := fun h => h.1.1;
  hd_Timestamp := fun h => h.1.2;
  hd_L1Head := fun h => h.2;
  hd_TransactionsRoot := fun _ => tt;
  Commit := fun h => h.1.1;
  Commitment_Equals := Z.eqb;
  CommitmentFromUint256 := fun v => Ok v;
  ValidateBatchTransactions := fun _ _ proofs txs =>
    if decide (concat proofs = txs) then None else Some (Errorf "invalid proof");
|}.
Next Obligation. intros c c'. apply Z.eqb_eq. Qed.
