(* ===== verification/L1Info.v ===== *)
(** * The L1 info deposit

    [op-node/rollup/derive/l1_block_info.go] and [payload_util.go]: the first
    transaction of every L2 block carries the L1 origin, the sequence number
    and the system configuration; from it the node reads back where an L2
    block comes from. *)

From S2P Require Import Prelude Eth Solabi SystemConfig Deposits Espresso.

Section L1Info.
Context `{E : EspressoLib}.

(** go-ethereum's hash, its RLP codec of justifications (a nil pointer
    included) and its typed transaction envelope. *)
Variable Keccak256Hash : bytes -> Hash.
Variable rlp_encode_jst : option L2BatchJustification -> res bytes.
Variable rlp_decode_jst : bytes -> res L2BatchJustification.
Variable encode_deposit : DepositTx -> res bytes.

Definition L1InfoFuncSignature : string :=
  "setL1BlockValues((uint64,uint64,uint256,bytes32,uint64,bytes32,uint256,uint256,bool,uint64,bytes))".

Definition L1InfoFuncBytes4 : bytes := take 4 (Keccak256Hash (str_bytes L1InfoFuncSignature)).

(** 0xdeaddeaddeaddeaddeaddeaddeaddeaddead0001 *)
Definition L1InfoDepositerAddress : Address := concat (replicate 9 [222; 173]) ++ [0; 1].
Definition L1InfoJustificationOffset : Z := 352.
(** 0x4200000000000000000000000000000000000015 *)
Definition L1BlockAddress : Address := [66] ++ zeros 18 ++ [21].
Definition RegolithSystemTxGas : Z := 1000000.

Record L1BlockInfo := mkL1BlockInfo {
  li_Number : Z;
  li_Time : Z;
  li_BaseFee : Z;
  li_BlockHash : Hash;
  li_SequenceNumber : Z;
  li_BatcherAddr : Address;
  li_L1FeeOverhead : Bytes32;
  li_L1FeeScalar : Bytes32;
  li_Espresso : bool;
  li_EspressoL1ConfDepth : Z;
  li_Justification : option L2BatchJustification;
}.

(** [L1BlockInfo.MarshalBinary] *)
Definition MarshalL1Info (info : L1BlockInfo) : res bytes :=
  baseFee ← WriteUint256 (li_BaseFee info);
  rlpBytes ← rlp_encode_jst (li_Justification info);
  offset ← WriteUint256 L1InfoJustificationOffset;
  jst ← WriteBytes rlpBytes;
  Ok (WriteSignature L1InfoFuncBytes4 ++ WriteUint64 32 ++ WriteUint64 (li_Number info) ++
      WriteUint64 (li_Time info) ++ baseFee ++ WriteHash (li_BlockHash info) ++
      WriteUint64 (li_SequenceNumber info) ++ WriteAddress (li_BatcherAddr info) ++
      WriteEthBytes32 (li_L1FeeOverhead info) ++ WriteEthBytes32 (li_L1FeeScalar info) ++
      WriteBool (li_Espresso info) ++ WriteUint64 (li_EspressoL1ConfDepth info) ++ offset ++ jst).

(** [L1InfoDepositTxData]: [UnmarshalBinary] of a fresh [L1BlockInfo]. *)
Definition L1InfoDepositTxData (data : bytes) : res L1BlockInfo :=
  '(_, reader) ← ReadAndValidateSignature data L1InfoFuncBytes4;
  '(fieldsOffset, reader) ← ReadUint64 reader;
  if negb (fieldsOffset =? 32) then Err (Errorf "invalid struct fields offset") else
  '(number, reader) ← ReadUint64 reader;
  '(time, reader) ← ReadUint64 reader;
  '(baseFee, reader) ← ReadUint256 reader;
  '(blockHash, reader) ← ReadHash reader;
  '(seqNumber, reader) ← ReadUint64 reader;
  '(batcherAddr, reader) ← ReadAddress reader;
  '(overhead, reader) ← ReadEthBytes32 reader;
  '(scalar, reader) ← ReadEthBytes32 reader;
  '(espresso, reader) ← ReadBool reader;
  '(confDepth, reader) ← ReadUint64 reader;
  '(rlpOffset, reader) ← ReadUint256 reader;
  if negb (rlpOffset =? L1InfoJustificationOffset) then Err (Errorf "invalid justification offset") else
  '(rlpBytes, reader) ← ReadBytes reader;
  jst ← (if bool_decide (rlpBytes = [192]) then Ok None
         else Some <$> rlp_decode_jst rlpBytes);
  if negb (EmptyReader reader) then Err (Errorf "too many bytes") else
  Ok {| li_Number := number; li_Time := time; li_BaseFee := baseFee; li_BlockHash := blockHash;
        li_SequenceNumber := seqNumber; li_BatcherAddr := batcherAddr; li_L1FeeOverhead := overhead;
        li_L1FeeScalar := scalar; li_Espresso := espresso; li_EspressoL1ConfDepth := confDepth;
        li_Justification := jst |}.

(** [L1InfoDeposit] *)
Definition L1InfoDeposit (seqNumber : Z) (block : BlockInfo) (sysCfg : SystemConfig)
    (justification : option L2BatchJustification) (regolith : bool) : res DepositTx :=
  let infoDat := {| li_Number := bi_Number block; li_Time := bi_Time block; li_BaseFee := bi_BaseFee block;
                    li_BlockHash := bi_Hash block; li_SequenceNumber := seqNumber;
                    li_BatcherAddr := BatcherAddr sysCfg; li_L1FeeOverhead := Overhead sysCfg;
                    li_L1FeeScalar := Scalar sysCfg; li_Espresso := Espresso sysCfg;
                    li_EspressoL1ConfDepth := EspressoL1ConfDepth sysCfg;
                    li_Justification := justification |} in
  data ← MarshalL1Info infoDat;
  Ok {| SourceHash := L1InfoDepositSource_SourceHash Keccak256Hash (bi_Hash block) seqNumber;
        From := L1InfoDepositerAddress; To := Some L1BlockAddress; Mint := None; Value := 0;
        Gas := if regolith then RegolithSystemTxGas else 150000000;
        IsSystemTransaction := negb regolith; tx_Data := data |}.

Definition L1InfoDepositBytes (seqNumber : Z) (l1Info : BlockInfo) (sysCfg : SystemConfig)
    (justification : option L2BatchJustification) (regolith : bool) : res bytes :=
  dep ← map_err (Wrapf "failed to create L1 info tx") (L1InfoDeposit seqNumber l1Info sysCfg justification regolith);
  map_err (Wrapf "failed to encode L1 info tx") (encode_deposit dep).

(** *** Reading an L2 block back

    [tx.UnmarshalBinary] gives the type and the data of a transaction. *)
Variable decode_tx : bytes -> res (Z * bytes).

Definition DepositTxType : Z := 126.

(** The decoding [PayloadToBlockRef] and [PayloadToSystemConfig] share. *)
Definition payload_info (payload : ExecutionPayload) : res L1BlockInfo :=
  match pl_Transactions payload with
  | [] => Err (Errorf "l2 block is missing L1 info deposit tx")
  | tx :: _ =>
      '(ty, data) ← map_err (Wrapf "failed to decode first tx to read l1 info from") (decode_tx tx);
      if negb (ty =? DepositTxType) then Err (Errorf "first payload tx has unexpected tx type") else
      map_err (Wrapf "failed to parse L1 info deposit tx from L2 block") (L1InfoDepositTxData data)
  end.

Definition PayloadToBlockRef (payload : ExecutionPayload) (genesis : Genesis) : res L2BlockRef :=
  '(l1Origin, sequenceNumber) ←
    (if pl_BlockNumber payload =? id_Number (gen_L2 genesis) then
       if negb (bool_decide (pl_BlockHash payload = id_Hash (gen_L2 genesis))) then
         Err (Errorf "expected L2 genesis hash to match L2 block at genesis block number")
       else Ok (gen_L1 genesis, 0)
     else
       info ← payload_info payload;
       Ok (mkBlockID (li_BlockHash info) (li_Number info), li_SequenceNumber info));
  Ok {| l2_Hash := pl_BlockHash payload; l2_Number := pl_BlockNumber payload;
        l2_ParentHash := pl_ParentHash payload; l2_Time := pl_Timestamp payload;
        l2_L1Origin := l1Origin; l2_SequenceNumber := sequenceNumber |}.

Definition PayloadToSystemConfig (payload : ExecutionPayload) (cfg : Config) : res SystemConfig :=
  if pl_BlockNumber payload =? id_Number (gen_L2 (cfg_Genesis cfg)) then
    if negb (bool_decide (pl_BlockHash payload = id_Hash (gen_L2 (cfg_Genesis cfg)))) then
      Err (Errorf "expected L2 genesis hash to match L2 block at genesis block number")
    else Ok (gen_SystemConfig (cfg_Genesis cfg))
  else
    info ← payload_info payload;
    Ok {| BatcherAddr := li_BatcherAddr info; Overhead := li_L1FeeOverhead info;
          Scalar := li_L1FeeScalar info; GasLimit := pl_GasLimit payload;
          Espresso := li_Espresso info; EspressoL1ConfDepth := li_EspressoL1ConfDepth info |}.

(** ** Specification *)

(** What the source relies on of the codecs: a nil justification is the empty
    list, any other one decodes back and is not the empty list, and a deposit
    transaction decodes back to its type and data. *)
Record codec_laws : Prop := {
  rlp_nil : rlp_encode_jst None = Ok [192];
  rlp_some : forall j b, rlp_encode_jst (Some j) = Ok b ->
    b <> [192] /\ blen b <= maxAlloc /\ rlp_decode_jst b = Ok j;
  tx_some : forall d b, encode_deposit d = Ok b -> decode_tx b = Ok (DepositTxType, tx_Data d);
  keccak_len : forall b, is_hash (Keccak256Hash b);
}.

Definition info_wf (i : L1BlockInfo) : Prop :=
  is_u64 (li_Number i) /\ is_u64 (li_Time i) /\ is_u256 (li_BaseFee i) /\ is_hash (li_BlockHash i) /\
  is_u64 (li_SequenceNumber i) /\ is_address (li_BatcherAddr i) /\ is_hash (li_L1FeeOverhead i) /\
  is_hash (li_L1FeeScalar i) /\ is_u64 (li_EspressoL1ConfDepth i).

Lemma rlp_jst_back (C : codec_laws) j b : rlp_encode_jst j = Ok b ->
  blen b <= maxAlloc /\
  (if bool_decide (b = [192]) then Ok None else Some <$> rlp_decode_jst b) = Ok j.
Proof.
  intros H. destruct j as [j|].
  - destruct (rlp_some C _ _ H) as (Hn & Hl & Hd). rewrite bool_decide_eq_false_2, Hd by done. done.
  - rewrite (rlp_nil C) in H. injection H as <-. done.
Qed.

Lemma L1Info_roundtrip (C : codec_laws) i b : info_wf i -> MarshalL1Info i = Ok b ->
  L1InfoDepositTxData b = Ok i.
Proof.
  intros (Hn & Ht & Hb & Hh & Hs & Ha & Ho & Hc & Hd). unfold MarshalL1Info.
  destruct (ReadUint256_write (li_BaseFee i) [] Hb) as (wb & Hwb & _). rewrite Hwb. cbn [mbind res_bind].
  destruct (rlp_encode_jst (li_Justification i)) as [rb|] eqn:Er; cbn [mbind res_bind]; [|done].
  destruct (rlp_jst_back C _ _ Er) as [Hlen Hjst].
  destruct (ReadBytes_write rb [] Hlen) as (wr & Hwr & Hrb).
  destruct (ReadUint256_write L1InfoJustificationOffset [] ltac:(vm_decide)) as (wo & Hwo & _).
  rewrite Hwo. cbn [mbind res_bind]. rewrite Hwr. cbn [mbind res_bind]. intros Hm. apply Ok_inj in Hm. subst b.
  assert (Hsig : length L1InfoFuncBytes4 = 4%nat).
  { unfold L1InfoFuncBytes4. rewrite length_take. pose proof (keccak_len C (str_bytes L1InfoFuncSignature)) as [Hk _]. lia. }
  unfold L1InfoDepositTxData.
  rewrite ReadSig_write by done. cbn [mbind res_bind].
  rewrite ReadUint64_write by vm_decide. cbn [mbind res_bind]. rewrite Z.eqb_refl. cbn [negb].
  rewrite ReadUint64_write by done. cbn [mbind res_bind]. rewrite ReadUint64_write by done. cbn [mbind res_bind].
  match goal with |- context [ReadUint256 (wb ++ ?r)] => destruct (ReadUint256_write (li_BaseFee i) r Hb) as (w & Hw & Hr) end.
  rewrite Hwb in Hw. apply Ok_inj in Hw. subst w. rewrite Hr. cbn [mbind res_bind].
  rewrite ReadHash_write by done. cbn [mbind res_bind]. rewrite ReadUint64_write by done. cbn [mbind res_bind].
  rewrite ReadAddress_write by done. cbn [mbind res_bind]. rewrite ReadEthBytes32_write by done. cbn [mbind res_bind].
  rewrite ReadEthBytes32_write by done. cbn [mbind res_bind]. rewrite ReadBool_write. cbn [mbind res_bind].
  rewrite ReadUint64_write by done. cbn [mbind res_bind].
  destruct (ReadUint256_write L1InfoJustificationOffset wr ltac:(vm_decide)) as (w2 & Hw2 & Hr2).
  rewrite Hwo in Hw2. apply Ok_inj in Hw2. subst w2. rewrite Hr2. cbn [mbind res_bind].
  rewrite Z.eqb_refl. cbn [negb]. rewrite app_nil_r in Hrb. rewrite Hrb. cbn [mbind res_bind].
  rewrite Hjst. cbn. by destruct i.
Qed.

(** The record [L1InfoDeposit] fills in. *)
Definition info_of (seq : Z) (block : BlockInfo) (sysCfg : SystemConfig) (jst : option L2BatchJustification) : L1BlockInfo :=
  {| li_Number := bi_Number block; li_Time := bi_Time block; li_BaseFee := bi_BaseFee block;
     li_BlockHash := bi_Hash block; li_SequenceNumber := seq; li_BatcherAddr := BatcherAddr sysCfg;
     li_L1FeeOverhead := Overhead sysCfg; li_L1FeeScalar := Scalar sysCfg; li_Espresso := Espresso sysCfg;
     li_EspressoL1ConfDepth := EspressoL1ConfDepth sysCfg; li_Justification := jst |}.

(** The deposit transaction reads back as the record it was made of. *)
Lemma info_deposit_reads (C : codec_laws) seq block sysCfg jst regolith tx :
  info_wf (info_of seq block sysCfg jst) -> L1InfoDepositBytes seq block sysCfg jst regolith = Ok tx ->
  exists data, decode_tx tx = Ok (DepositTxType, data) /\ L1InfoDepositTxData data = Ok (info_of seq block sysCfg jst).
Proof.
  intros Hwf Htx. unfold L1InfoDepositBytes, L1InfoDeposit in Htx. ok_inv.
  match goal with H : MarshalL1Info _ = Ok ?d |- _ => apply (L1Info_roundtrip C) in H as Hr; [|done]; exists d end.
  match goal with H : encode_deposit _ = Ok _ |- _ => apply (tx_some C) in H as Hd end. done.
Qed.

Lemma l1_info_block (C : codec_laws) (seq : Z) (block : BlockInfo) (sysCfg : SystemConfig)
  (jst : option L2BatchJustification) (regolith : bool) (tx : bytes) (txs : list bytes)
  (payload : ExecutionPayload) (cfg : Config)
  (Hwf : info_wf (info_of seq block sysCfg jst))
  (Htx : L1InfoDepositBytes seq block sysCfg jst regolith = Ok tx)
  (Hfirst : pl_Transactions payload = tx :: txs)
  (Hgen : pl_BlockNumber payload <> id_Number (gen_L2 (cfg_Genesis cfg))) :
  PayloadToBlockRef payload (cfg_Genesis cfg) =
    Ok {| l2_Hash := pl_BlockHash payload; l2_Number := pl_BlockNumber payload;
          l2_ParentHash := pl_ParentHash payload; l2_Time := pl_Timestamp payload;
          l2_L1Origin := L1BlockRef_ID (InfoToL1BlockRef block); l2_SequenceNumber := seq |} /\
  PayloadToSystemConfig payload cfg = Ok (set_GasLimit (pl_GasLimit payload) sysCfg).
Proof.
  destruct (info_deposit_reads C _ _ _ _ _ _ Hwf Htx) as (data & Hd & Hr).
  unfold PayloadToBlockRef, PayloadToSystemConfig, payload_info. rewrite Hfirst, Hd.
  destruct (Z.eqb_spec (pl_BlockNumber payload) (id_Number (gen_L2 (cfg_Genesis cfg)))); [done|].
  cbn [mbind res_bind map_err negb]. rewrite Z.eqb_refl. cbn [negb]. rewrite Hr. done.
Qed.

(** An L2 block that starts with the L1 info deposit built for an L1
    origin, a sequence number and a system configuration reads back as a block
    of that origin, at that sequence number, with that configuration (and the
    gas limit of the payload). *)
Lemma l1_info_block_roundtrip (C : codec_laws) (seq : Z) (block : BlockInfo) (sysCfg : SystemConfig)
  (jst : option L2BatchJustification) (regolith : bool) (tx : bytes) (txs : list bytes)
  (payload : ExecutionPayload) (cfg : Config)
  (Hwf : info_wf (info_of seq block sysCfg jst))
  (Htx : L1InfoDepositBytes seq block sysCfg jst regolith = Ok tx)
  (Hfirst : pl_Transactions payload = tx :: txs)
  (Hgen : pl_BlockNumber payload <> id_Number (gen_L2 (cfg_Genesis cfg))) :
  PayloadToBlockRef payload (cfg_Genesis cfg) =
    Ok {| l2_Hash := pl_BlockHash payload; l2_Number := pl_BlockNumber payload;
          l2_ParentHash := pl_ParentHash payload; l2_Time := pl_Timestamp payload;
          l2_L1Origin := L1BlockRef_ID (InfoToL1BlockRef block); l2_SequenceNumber := seq |} /\
  PayloadToSystemConfig payload cfg = Ok (set_GasLimit (pl_GasLimit payload) sysCfg).
Proof. by eapply l1_info_block. Qed.
End L1Info.

(** ** Witness *)

#[local] Existing Instance ex_lib.

#[local] Instance ex_header_eq : EqDecision Header.
Proof. change (EqDecision (Z * Z * Z)). apply _. Defined.
#[local] Instance ex_proof_eq : EqDecision NmtProof.
Proof. change (EqDecision (list bytes)). apply _. Defined.
#[local] Instance ex_blockjst_eq : EqDecision EspressoBlockJustification.
Proof. solve_decision. Defined.
#[local] Instance ex_jst_eq : EqDecision L2BatchJustification.
Proof. solve_decision. Defined.

Definition ex_jst : L2BatchJustification :=
  {| jst_Blocks := []; jst_Prev := Some (4, 102, 6); jst_Next := Some (5, 107, 7) |}.

(** Stand-ins for the codecs: one justification has an encoding, and the
    envelope of a deposit is its type byte. *)
Definition ex_rlp_encode (j : option L2BatchJustification) : res bytes :=
  match j with
  | None => Ok [192]
  | Some j => if decide (j = ex_jst) then Ok [193; 1] else Err (Errorf "no encoding")
  end.
Definition ex_rlp_decode (b : bytes) : res L2BatchJustification :=
  if decide (b = [193; 1]) then Ok ex_jst else Err (Errorf "no encoding").
Definition ex_encode_deposit (d : DepositTx) : res bytes := Ok (DepositTxType :: tx_Data d).
Definition ex_decode_tx (b : bytes) : res (Z * bytes) :=
  match b with ty :: data => Ok (ty, data) | [] => Err (Errorf "empty typed transaction bytes") end.

Lemma ex_codec_laws : codec_laws ex_keccak ex_rlp_encode ex_rlp_decode ex_encode_deposit ex_decode_tx.
Proof.
  constructor.
  - done.
  - intros j b. unfold ex_rlp_encode. destruct (decide (j = ex_jst)) as [->|]; [|done].
    intros H. apply Ok_inj in H. subst b. repeat split; [done|vm_decide].
  - intros d b H. apply Ok_inj in H. by subst b.
  - intros b. split; [apply length_put_be|apply put_be_ok].
Qed.

Definition ex_block_info : BlockInfo :=
  {| bi_Hash := hash_of 7; bi_ParentHash := hash_of 6; bi_Number := 7; bi_Time := 103;
     bi_MixDigest := hash_of 9; bi_BaseFee := 1000 |}.

Definition ex_info_tx : bytes :=
  match L1InfoDepositBytes ex_keccak ex_rlp_encode ex_encode_deposit 3 ex_block_info ex_sysCfg (Some ex_jst) true with
  | Ok b => b | Err _ => [] end.

Definition ex_payload (number : Z) (txs : list bytes) : ExecutionPayload :=
  {| pl_ParentHash := hash_of 20; pl_FeeRecipient := replicate 20 0; pl_StateRoot := hash_of 1;
     pl_ReceiptsRoot := hash_of 2; pl_LogsBloom := zeros 256; pl_PrevRandao := hash_of 3;
     pl_BlockNumber := number; pl_GasLimit := 30000000; pl_GasUsed := 0; pl_Timestamp := 100 + 2 * number;
     pl_ExtraData := []; pl_BaseFeePerGas := 7; pl_BlockHash := hash_of 21;
     pl_Withdrawals := None; pl_Transactions := txs |}.

Lemma l1_info_block_roundtrip_witness :
  PayloadToBlockRef ex_keccak ex_rlp_decode ex_decode_tx (ex_payload 4 [ex_info_tx]) (cfg_Genesis ex_cfg) =
    Ok {| l2_Hash := hash_of 21; l2_Number := 4; l2_ParentHash := hash_of 20; l2_Time := 108;
          l2_L1Origin := mkBlockID (hash_of 7) 7; l2_SequenceNumber := 3 |}.
Proof.
  refine (proj1 (l1_info_block_roundtrip ex_keccak ex_rlp_encode ex_rlp_decode ex_encode_deposit ex_decode_tx
    ex_codec_laws 3 ex_block_info ex_sysCfg (Some ex_jst) true ex_info_tx [] (ex_payload 4 [ex_info_tx]) ex_cfg _ _ _ _)).
  - repeat split; vm_decide.
  - vm_compute. reflexivity.
  - reflexivity.
  - vm_decide.
Defined.
