(* ===== verification/EngineUpdate.v ===== *)
(** * Building blocks with the engine

    [op-node/rollup/derive/engine_update.go] and [engine_consolidate.go]: the
    calls of the engine API that build and insert a block, and the comparison
    of an existing block with derived attributes. *)

From S2P Require Import Prelude Eth Espresso L1Info.

(** ** The engine API of [op-service/eth/types.go] *)

Definition InvalidForkchoiceState : Z := -38002.
Definition InvalidPayloadAttributes : Z := -38003.

Inductive ExecutePayloadStatus :=
| ExecutionValid | ExecutionInvalid | ExecutionSyncing | ExecutionAccepted
| ExecutionInvalidBlockHash | ExecutionInvalidTerminalBlock
| OtherStatus (s : string).

#[export] Instance ExecutePayloadStatus_eq_dec : EqDecision ExecutePayloadStatus.
Proof. solve_decision. Defined.

Record PayloadStatusV1 := mkPayloadStatus {
  Status : ExecutePayloadStatus;
  LatestValidHash : option Hash;
  ValidationError : option string;
}.

Record ForkchoiceState := mkForkchoice {
  HeadBlockHash : Hash;
  SafeBlockHash : Hash;
  FinalizedBlockHash : Hash;
}.

(** A payload id is an array of eight bytes. *)
Abbreviation PayloadID := bytes (only parsing).

Record ForkchoiceUpdatedResult := mkFcResult {
  fc_PayloadStatus : PayloadStatusV1;
  fc_PayloadID : option PayloadID;
}.

Inductive BlockLabel := Unsafe | Safe | Finalized.

(** The engine: an execution client behind RPC, with a state [W] of its own
    that every call may change. *)
Class Engine (W : Type) := {
  GetPayload : PayloadID -> stM W ExecutionPayload;
  ForkchoiceUpdate : ForkchoiceState -> option PayloadAttributes -> stM W ForkchoiceUpdatedResult;
  NewPayload : ExecutionPayload -> stM W PayloadStatusV1;
  eng_PayloadByNumber : Z -> stM W ExecutionPayload;
  eng_L2BlockRefByLabel : BlockLabel -> stM W L2BlockRef;
  eng_L2BlockRefByHash : Hash -> stM W L2BlockRef;
  eng_SystemConfigByL2Hash : Hash -> stM W SystemConfig;
}.

(** ** Sanity of a built payload *)

Definition isDepositTx (opaqueTx : bytes) : res bool :=
  match opaqueTx with
  | [] => Err (Errorf "empty transaction")
  | b :: _ => Ok (b =? DepositTxType)
  end.

(** The loop of [lastDeposit] from index [i] on. *)
Fixpoint lastDeposit_from (i last : nat) (txns : list bytes) : res nat :=
  match txns with
  | [] => Ok last
  | tx :: txns =>
      match isDepositTx tx with
      | Err _ => Err (Errorf "invalid transaction at idx")
      | Ok true => lastDeposit_from (S i) i txns
      | Ok false => Ok last
      end
  end.

Definition lastDeposit (txns : list bytes) : res nat := lastDeposit_from 0 0 txns.

(** The loop that looks for deposits after the last one. *)
Fixpoint no_deposits (txns : list bytes) : res unit :=
  match txns with
  | [] => Ok tt
  | tx :: txns =>
      deposit ← map_err (Wrapf "failed to decode transaction idx") (isDepositTx tx);
      if deposit : bool then Err (Errorf "deposit tx after other tx in l2 block") else no_deposits txns
  end.

Definition sanityCheckPayload (payload : ExecutionPayload) : res unit :=
  match pl_Transactions payload with
  | [] => Err (Errorf "no transactions in returned payload")
  | tx :: _ =>
      b ← index tx 0;
      if negb (b =? DepositTxType) then Err (Errorf "first transaction was not deposit tx")
      else
        last ← map_err (Wrapf "failed to find last deposit") (lastDeposit (pl_Transactions payload));
        no_deposits (drop (S last) (pl_Transactions payload))
  end.

(** ** Building and inserting a block *)

Inductive BlockInsertionErrType :=
| BlockInsertOK | BlockInsertTemporaryErr | BlockInsertPrestateErr | BlockInsertPayloadErr.

Section Update.
Context {W : Type} `{!Engine W}.

(** The outcome of an insertion: the severity, and a value or an error. The
    panic of a sanity check has no severity; callers pass it on as it is. *)
Definition insertion (A : Type) : Type := BlockInsertionErrType * res A.

Definition StartPayload (fc : ForkchoiceState) (attrs : PayloadAttributes) : W -> W * insertion PayloadID := fun w =>
  match ForkchoiceUpdate fc (Some attrs) w with
  | (w, Err e) =>
      (w, match as_InputError e with
          | Some (inner, code) =>
              if code =? InvalidForkchoiceState then
                (BlockInsertPrestateErr, Err (Wrapf "pre-block-creation forkchoice update was inconsistent with engine, need reset to resolve" inner))
              else if code =? InvalidPayloadAttributes then
                (BlockInsertPayloadErr, Err (Wrapf "payload attributes are not valid, cannot build block" inner))
              else (BlockInsertPrestateErr, Err (Wrapf "unexpected error code in forkchoice-updated response" e))
          | None => (BlockInsertTemporaryErr, Err (Wrapf "failed to create new block via forkchoice" e))
          end)
  | (w, Ok fcRes) =>
      (w, match Status (fc_PayloadStatus fcRes) with
          | ExecutionInvalid | ExecutionInvalidBlockHash => (BlockInsertPayloadErr, Err (Errorf "invalid forkchoice"))
          | ExecutionValid =>
              match fc_PayloadID fcRes with
              | None => (BlockInsertTemporaryErr, Err (Errorf "nil id in forkchoice result when expecting a valid ID"))
              | Some id => (BlockInsertOK, Ok id)
              end
          | _ => (BlockInsertTemporaryErr, Err (Errorf "forkchoice not executed"))
          end)
  end.

(** The last part of [ConfirmPayload]: making the inserted block the head. *)
Definition confirm_forkchoice (fc : ForkchoiceState) (payload : ExecutionPayload) (updateSafe : bool)
    : W -> W * insertion ExecutionPayload := fun w =>
  let fc := {| HeadBlockHash := pl_BlockHash payload;
               SafeBlockHash := if updateSafe then pl_BlockHash payload else SafeBlockHash fc;
               FinalizedBlockHash := FinalizedBlockHash fc |} in
  match ForkchoiceUpdate fc None w with
  | (w, Err e) =>
      (w, match as_InputError e with
          | Some (inner, code) =>
              if code =? InvalidForkchoiceState then
                (BlockInsertPayloadErr, Err (Wrapf "post-block-creation forkchoice update was inconsistent with engine, need reset to resolve" inner))
              else (BlockInsertPrestateErr, Err (Wrapf "unexpected error code in forkchoice-updated response" e))
          | None => (BlockInsertTemporaryErr, Err (Wrapf "failed to make the new L2 block canonical via forkchoice" e))
          end)
  | (w, Ok fcRes) =>
      (w, if negb (bool_decide (Status (fc_PayloadStatus fcRes) = ExecutionValid))
          then (BlockInsertPayloadErr, Err (Errorf "forkchoice update failed"))
          else (BlockInsertOK, Ok payload))
  end.

Definition ConfirmPayload (fc : ForkchoiceState) (id : PayloadID) (updateSafe : bool)
    : W -> W * insertion ExecutionPayload := fun w =>
  match GetPayload id w with
  | (w, Err e) => (w, (BlockInsertTemporaryErr, Err (Wrapf "failed to get execution payload" e)))
  | (w, Ok payload) =>
      match sanityCheckPayload payload with
      | Err e => (w, (BlockInsertPayloadErr, Err e))
      | Ok _ =>
          match NewPayload payload w with
          | (w, Err e) => (w, (BlockInsertTemporaryErr, Err (Wrapf "failed to insert execution payload" e)))
          | (w, Ok status) =>
              match Status status with
              | ExecutionInvalid | ExecutionInvalidBlockHash => (w, (BlockInsertPayloadErr, Err (Errorf "invalid payload")))
              | ExecutionValid => confirm_forkchoice fc payload updateSafe w
              | _ => (w, (BlockInsertTemporaryErr, Err (Errorf "payload not executed")))
              end
          end
      end
  end.
End Update.

(** ** Comparing a block with attributes *)

Definition checkWithdrawalsMatch (attrWithdrawals blockWithdrawals : option (list bytes)) : res unit :=
  match attrWithdrawals, blockWithdrawals with
  | None, None => Ok tt
  | None, Some _ => Err (Errorf "expected withdrawals in block to be nil")
  | Some _, None => Err (Errorf "expected withdrawals in block to be non-nil")
  | Some a, Some b =>
      if negb (length a =? length b)%nat then Err (Errorf "expected number of withdrawals in block")
      else if bool_decide (a = b) then Ok tt else Err (Errorf "expected withdrawal")
  end.

(** The loop over the transactions, of which there are as many on both sides. *)
Fixpoint transactions_match (attrs block : list bytes) : res unit :=
  match attrs, block with
  | otx :: attrs, expect :: block =>
      if negb (bool_decide (otx = expect)) then Err (Errorf "transaction does not match")
      else transactions_match attrs block
  | _, _ => Ok tt
  end.

Definition AttributesMatchBlock (attrs : PayloadAttributes) (parentHash : Hash) (block : ExecutionPayload) : res unit :=
  if negb (bool_decide (parentHash = pl_ParentHash block)) then Err (Errorf "parent hash field does not match")
  else if negb (pa_Timestamp attrs =? pl_Timestamp block) then Err (Errorf "timestamp field does not match")
  else if negb (bool_decide (pa_PrevRandao attrs = pl_PrevRandao block)) then Err (Errorf "random field does not match")
  else if negb (length (pa_Transactions attrs) =? length (pl_Transactions block))%nat then
    Err (Errorf "transaction count does not match")
  else
    _ ← transactions_match (pa_Transactions attrs) (pl_Transactions block);
    match pa_GasLimit attrs with
    | None => Err (Errorf "expected gaslimit in attributes to not be nil")
    | Some gas =>
        if negb (gas =? pl_GasLimit block) then Err (Errorf "gas limit does not match")
        else checkWithdrawalsMatch (pa_Withdrawals attrs) (pl_Withdrawals block)
    end.

(** ** Specification *)

Definition deposit_tx (tx : bytes) : Prop := head tx = Some DepositTxType.
Definition other_tx (tx : bytes) : Prop := exists b, head tx = Some b /\ b <> DepositTxType.

(** A block of deposits followed by other transactions. *)
Definition deposits_first (txns : list bytes) : Prop :=
  exists ds rest, txns = ds ++ rest /\ ds <> [] /\ Forall deposit_tx ds /\ Forall other_tx rest.

Lemma isDepositTx_spec tx r : isDepositTx tx = Ok r <-> if r then deposit_tx tx else other_tx tx.
Proof.
  unfold deposit_tx, other_tx. destruct tx as [|b tx]; cbn; [by destruct r; split; [|intros ?|..|intros (? & ? & ?)]|].
  destruct (Z.eqb_spec b DepositTxType) as [->|]; destruct r; split; intros H; try done; try congruence;
    first [by destruct H as (? & [= <-] & ?)|by exists b].
Qed.

Lemma no_deposits_spec txns : no_deposits txns = Ok tt <-> Forall other_tx txns.
Proof.
  induction txns as [|tx txns IH]; cbn [no_deposits]; [split; [constructor|done]|].
  rewrite Forall_cons, <- IH. pose proof (isDepositTx_spec tx false) as Hf. cbn in Hf. rewrite <- Hf.
  destruct (isDepositTx tx) as [[|]|]; cbn [map_err mbind res_bind]; naive_solver.
Qed.

Lemma lastDeposit_from_spec txns : forall i last n, lastDeposit_from i last txns = Ok n <->
  exists ds rest, txns = ds ++ rest /\ Forall deposit_tx ds /\
    match rest with [] => True | tx :: _ => other_tx tx end /\
    n = match ds with [] => last | _ => (i + length ds - 1)%nat end.
Proof.
  induction txns as [|tx txns IH]; intros i last n; cbn [lastDeposit_from].
  - split; [intros [= <-]; by exists [], []|]. intros (ds & rest & Hx & _ & _ & ->).
    symmetry in Hx. apply app_eq_nil in Hx as [-> ->]. done.
  - pose proof (isDepositTx_spec tx true) as Hd. pose proof (isDepositTx_spec tx false) as Ho. cbn in Hd, Ho.
    assert (Hx : deposit_tx tx -> other_tx tx -> False) by (intros Ha (b & Hb & Hn); unfold deposit_tx in Ha; congruence).
    destruct (isDepositTx tx) as [[|]|e] eqn:Ei.
    + destruct Hd as [Hd _]. specialize (Hd eq_refl). rewrite IH. split.
      * intros (ds & rest & -> & Hds & Hr & ->). exists (tx :: ds), rest. repeat split; [by constructor|done|].
        destruct ds; cbn [length]; lia.
      * intros ([|d ds] & rest & Heq & Hds & Hr & ->).
        { cbn in Heq. subst rest. by destruct (Hx Hd Hr). }
        injection Heq as <- ->. apply Forall_cons_1 in Hds as [_ Hds]. exists ds, rest. repeat split; [done..|].
        destruct ds; cbn [length]; lia.
    + destruct Ho as [Ho _]. specialize (Ho eq_refl). split.
      * intros [= <-]. by exists [], (tx :: txns).
      * intros ([|d ds] & rest & Heq & Hds & Hr & ->); [done|].
        injection Heq as <- ->. apply Forall_cons_1 in Hds as [Hds _]. by destruct (Hx Hds Ho).
    + split; [done|]. intros ([|d ds] & rest & Heq & Hds & Hr & ->).
      * cbn in Heq. subst rest. by apply Ho in Hr.
      * injection Heq as <- ->. apply Forall_cons_1 in Hds as [Hds _]. by apply Hd in Hds.
Qed.

Lemma sanityCheckPayload_spec payload : sanityCheckPayload payload = Ok tt <-> deposits_first (pl_Transactions payload).
Proof.
  unfold sanityCheckPayload, deposits_first. destruct (pl_Transactions payload) as [|tx txns].
  { split; [done|]. intros (ds & rest & Hx & Hne & _). by destruct ds. }
  split.
  - intros H. destruct tx as [|b tx]; [done|]. rewrite index_0 in H. cbn [mbind res_bind] in H.
    destruct (Z.eqb_spec b DepositTxType) as [->|]; cbn [negb] in H; [|done].
    apply res_bind_ok in H as (n & Hn & H). apply map_err_ok in Hn. apply no_deposits_spec in H.
    apply lastDeposit_from_spec in Hn as ([|d ds] & rest & Heq & Hds & Hr & ->).
    { cbn in Heq. subst rest. by destruct Hr as (b & [= <-] & ?). }
    exists (d :: ds), rest. rewrite Heq in H.
    replace (S (0 + length (d :: ds) - 1)) with (length (d :: ds)) in H by (cbn [length]; lia).
    by rewrite drop_app_length in H.
  - intros ([|d ds] & rest & Heq & Hne & Hds & Hr); [done|]. injection Heq as <- ->.
    pose proof (Forall_cons_1 _ _ _ Hds) as [Hd _]. destruct tx as [|b tx]; [done|]. injection Hd as ->.
    rewrite index_0. cbn [mbind res_bind].
    rewrite Z.eqb_refl. cbn [negb].
    assert (Hl : lastDeposit (((DepositTxType :: tx) :: ds) ++ rest) = Ok (length ds)).
    { apply lastDeposit_from_spec. exists ((DepositTxType :: tx) :: ds), rest. repeat split; [done| |cbn [length]; lia].
      destruct rest; [done|]. by apply Forall_cons_1 in Hr as [? _]. }
    rewrite app_comm_cons, Hl. cbn [map_err mbind res_bind]. apply no_deposits_spec.
    change (S (length ds)) with (length ((DepositTxType :: tx) :: ds)). by rewrite drop_app_length.
Qed.

(** The sanity check of a built payload accepts exactly the payloads with
    at least one deposit, the deposits before all other transactions and no
    empty transaction; it panics exactly when the first transaction is
    empty. *)
Lemma sanity_check_deposits_first (payload : ExecutionPayload) :
  (sanityCheckPayload payload = Ok tt <-> deposits_first (pl_Transactions payload)) /\
  (no_panic (sanityCheckPayload payload) <-> head (pl_Transactions payload) <> Some []).
Proof.
  split; [apply sanityCheckPayload_spec|]. unfold sanityCheckPayload.
  destruct (pl_Transactions payload) as [|[|b tx] txns]; cbn [list.head]; rewrite ?index_0; cbn [mbind res_bind].
  - split; [done|auto with go_panic].
  - split; [|done]. intros H. by destruct (H "index out of range").
  - split; [done|]. intros _. destruct (negb _); [auto with go_panic|].
    assert (Hl : forall txns i last, no_panic (lastDeposit_from i last txns)).
    { clear. intros txns. induction txns; intros; cbn; [done|]. repeat case_match; auto with go_panic. }
    assert (Hn : forall txns, no_panic (no_deposits txns)).
    { clear. intros txns. induction txns as [|tx txns IH]; cbn; [done|].
      apply no_panic_bind; [|intros [] _; auto with go_panic]. apply no_panic_map_err; [|done]. by destruct tx. }
    apply no_panic_bind; [|auto]. apply no_panic_map_err; [apply Hl|done].
Qed.

(** A block that carries the attributes, as far as they are compared. *)
Definition block_carries (attrs : PayloadAttributes) (parentHash : Hash) (block : ExecutionPayload) : Prop :=
  pl_ParentHash block = parentHash /\ pl_Timestamp block = pa_Timestamp attrs /\
  pl_PrevRandao block = pa_PrevRandao attrs /\ pl_Transactions block = pa_Transactions attrs /\
  pa_GasLimit attrs = Some (pl_GasLimit block) /\ pl_Withdrawals block = pa_Withdrawals attrs.

Lemma transactions_match_spec attrs : forall block, length attrs = length block ->
  transactions_match attrs block = Ok tt <-> block = attrs.
Proof.
  induction attrs as [|tx attrs IH]; intros [|tx' block] Hl; try done; cbn [transactions_match].
  case_bool_decide as Heq; cbn [negb].
  - subst. rewrite IH by (cbn in Hl; lia). split; congruence.
  - split; congruence.
Qed.

Lemma checkWithdrawalsMatch_spec a b : checkWithdrawalsMatch a b = Ok tt <-> b = a.
Proof.
  destruct a as [a|], b as [b|]; cbn; try (split; congruence).
  destruct (Nat.eqb_spec (length a) (length b)); cbn [negb].
  - case_bool_decide; split; congruence.
  - split; [done|]. intros [= ->]. lia.
Qed.

Lemma AttributesMatchBlock_spec attrs parentHash block :
  AttributesMatchBlock attrs parentHash block = Ok tt <-> block_carries attrs parentHash block.
Proof.
  unfold AttributesMatchBlock, block_carries.
  case_bool_decide; cbn [negb]; [|split; [done|intros (? & _); congruence]].
  destruct (Z.eqb_spec (pa_Timestamp attrs) (pl_Timestamp block)); cbn [negb]; [|split; [done|intros (_ & ? & _); congruence]].
  case_bool_decide; cbn [negb]; [|split; [done|intros (_ & _ & ? & _); congruence]].
  destruct (Nat.eqb_spec (length (pa_Transactions attrs)) (length (pl_Transactions block))) as [Hl|]; cbn [negb];
    [|split; [done|intros (_ & _ & _ & Ht & _); rewrite Ht in *; done]].
  pose proof (transactions_match_spec _ _ Hl) as Ht.
  destruct (transactions_match _ _) as [[]|]; cbn [mbind res_bind];
    [|split; [done|intros (_ & _ & _ & Hx & _); by apply Ht in Hx]].
  destruct Ht as [Ht _]. specialize (Ht eq_refl).
  destruct (pa_GasLimit attrs) as [gas|]; [|split; [done|by intros (_ & _ & _ & _ & ? & _)]].
  destruct (Z.eqb_spec gas (pl_GasLimit block)); cbn [negb]; [|split; [done|intros (_ & _ & _ & _ & [= ?] & _); done]].
  rewrite checkWithdrawalsMatch_spec. split; [intros; repeat split; congruence|by intros (_ & _ & _ & _ & _ & ?)].
Qed.

Definition with_FeeRecipient (a : Address) (p : ExecutionPayload) : ExecutionPayload :=
  mkPayload (pl_ParentHash p) a (pl_StateRoot p) (pl_ReceiptsRoot p) (pl_LogsBloom p) (pl_PrevRandao p)
    (pl_BlockNumber p) (pl_GasLimit p) (pl_GasUsed p) (pl_Timestamp p) (pl_ExtraData p) (pl_BaseFeePerGas p)
    (pl_BlockHash p) (pl_Withdrawals p) (pl_Transactions p).

(** A block matches attributes exactly when it builds on the parent and
    carries their time, randomness, transactions, gas limit and withdrawals;
    the fee recipient is no part of the comparison, so a block that pays its
    fees to another address than the attributes say matches as well. *)
Lemma attributes_match_iff (attrs : PayloadAttributes) (parentHash : Hash) (block : ExecutionPayload) :
  (AttributesMatchBlock attrs parentHash block = Ok tt <-> block_carries attrs parentHash block) /\
  forall a, AttributesMatchBlock attrs parentHash (with_FeeRecipient a block) = AttributesMatchBlock attrs parentHash block.
Proof. split; [apply AttributesMatchBlock_spec|done]. Qed.

(** ** What a successful insertion means *)

Section Insertion.
Context {W : Type} `{!Engine W}.

Lemma StartPayload_ok fc attrs w w' k id : StartPayload fc attrs w = (w', (k, Ok id)) ->
  k = BlockInsertOK /\ exists r, ForkchoiceUpdate fc (Some attrs) w = (w', Ok r) /\
    Status (fc_PayloadStatus r) = ExecutionValid /\ fc_PayloadID r = Some id.
Proof.
  unfold StartPayload. destruct (ForkchoiceUpdate fc (Some attrs) w) as [w1 [r|e]] eqn:Ef.
  - destruct (Status (fc_PayloadStatus r)) eqn:Es; try done.
    destruct (fc_PayloadID r) eqn:Ei; [|done]. intros [= <- <- <-]. split; [done|]. by exists r.
  - destruct (as_InputError e) as [[]|]; [|done]. by repeat case_match.
Qed.

Lemma StartPayload_err fc attrs w w' k e : StartPayload fc attrs w = (w', (k, Err e)) -> k <> BlockInsertOK.
Proof.
  unfold StartPayload. destruct (ForkchoiceUpdate fc (Some attrs) w) as [w1 [r|e']].
  - intros [= _ H]. repeat case_match; naive_solver.
  - intros [= _ H]. repeat case_match; naive_solver.
Qed.

Lemma ConfirmPayload_ok fc id updateSafe w w' k p : ConfirmPayload fc id updateSafe w = (w', (k, Ok p)) ->
  k = BlockInsertOK /\ exists w1 w2 st r,
    GetPayload id w = (w1, Ok p) /\ deposits_first (pl_Transactions p) /\
    NewPayload p w1 = (w2, Ok st) /\ Status st = ExecutionValid /\
    ForkchoiceUpdate {| HeadBlockHash := pl_BlockHash p;
                        SafeBlockHash := if updateSafe then pl_BlockHash p else SafeBlockHash fc;
                        FinalizedBlockHash := FinalizedBlockHash fc |} None w2 = (w', Ok r) /\
    Status (fc_PayloadStatus r) = ExecutionValid.
Proof.
  unfold ConfirmPayload. destruct (GetPayload id w) as [w1 [p1|]] eqn:Eg; [|done].
  destruct (sanityCheckPayload p1) as [[]|] eqn:Es; [|done]. apply sanityCheckPayload_spec in Es.
  destruct (NewPayload p1 w1) as [w2 [st|]] eqn:En; [|done].
  destruct (Status st) eqn:Est; try done. unfold confirm_forkchoice.
  match goal with |- context [ForkchoiceUpdate ?f None w2] => destruct (ForkchoiceUpdate f None w2) as [w3 [r|e]] eqn:Ef end.
  - case_bool_decide as Hst; cbn [negb]; [|done]. intros [= <- <- <-]. split; [done|]. by exists w1, w2, st, r.
  - destruct (as_InputError e) as [[]|]; [|done]. by repeat case_match.
Qed.

(** A failed insertion has a severity other than [BlockInsertOK]. *)
Lemma ConfirmPayload_err fc id updateSafe w w' k e : ConfirmPayload fc id updateSafe w = (w', (k, Err e)) -> k <> BlockInsertOK.
Proof.
  unfold ConfirmPayload, confirm_forkchoice. destruct (GetPayload id w) as [w1 [p1|]]; [|naive_solver].
  destruct (sanityCheckPayload p1); [|naive_solver]. destruct (NewPayload p1 w1) as [w2 [st|]]; [|naive_solver].
  destruct (Status st); try naive_solver.
  match goal with |- context [ForkchoiceUpdate ?f None w2] => destruct (ForkchoiceUpdate f None w2) as [w3 [r|e']] end.
  - case_bool_decide; naive_solver.
  - intros [= _ H]. repeat case_match; naive_solver.
Qed.
End Insertion.
