(* ===== verification/Attributes.v ===== *)
(** * Payload attributes

    [op-node/rollup/derive/attributes.go] and [attributes_queue.go]: the
    inputs of the next L2 block, from the L1 origin of the block, its receipts
    and the batch that was derived for it. *)

From S2P Require Import Prelude Eth Solabi SystemConfig Deposits Espresso L1Info Stages.

(** 0x4200000000000000000000000000000000000011 *)
Definition SequencerFeeVaultAddr : Address := [66] ++ zeros 18 ++ [17].

Section Attributes.
Context `{E : EspressoLib}.
Variable Keccak256Hash : bytes -> Hash.
Variable rlp_encode_jst : option L2BatchJustification -> res bytes.
Variable rlp_decode_jst : bytes -> res L2BatchJustification.
Variable encode_deposit : DepositTx -> res bytes.
Variable decode_tx : bytes -> res (Z * bytes).

(** The RPC clients behind [L1ReceiptsFetcher] and [SystemConfigL2Fetcher]. *)
Record Fetchers := mkFetchers {
  InfoByHash : Hash -> res BlockInfo;
  FetchReceipts : Hash -> res (BlockInfo * list Receipt);
  SystemConfigByL2Hash : Hash -> res SystemConfig;
}.

Variable cfg : Config.

(** The first half of [PreparePayloadAttributes]: L1 block, deposits, updated
    configuration and sequence number of the block to build. *)
Definition epoch_data (ba : Fetchers) (l2Parent : L2BlockRef) (epoch : BlockID) (sysConfig : SystemConfig)
    : res (BlockInfo * list bytes * SystemConfig * Z) :=
  if negb (id_Number (l2_L1Origin l2Parent) =? id_Number epoch) then
    '(info, receipts) ← map_err (fun e => NewTemporaryError (Wrapf "failed to fetch L1 block info and receipts" e))
                                (FetchReceipts ba (id_Hash epoch));
    if negb (bool_decide (id_Hash (l2_L1Origin l2Parent) = bi_ParentHash info)) then
      Err (NewResetError (Errorf "cannot create new block with L1 origin on top of L1 origin"))
    else
    let '(deposits, err) := DeriveDeposits Keccak256Hash encode_deposit receipts (DepositContractAddress cfg) in
    match err with
    | e :: _ => Err (NewCriticalError (Wrapf "failed to derive some deposits" e))
    | [] =>
        let '(sysConfig, err) := UpdateSystemConfigWithL1Receipts Keccak256Hash sysConfig receipts cfg in
        match err with
        | e :: _ => Err (NewCriticalError (Wrapf "failed to apply derived L1 sysCfg updates" e))
        | [] => Ok (info, deposits, sysConfig, 0)
        end
    end
  else if negb (bool_decide (id_Hash (l2_L1Origin l2Parent) = id_Hash epoch)) then
    Err (NewResetError (Errorf "cannot create new block with L1 origin in conflict with L1 origin"))
  else
    info ← map_err (fun e => NewTemporaryError (Wrapf "failed to fetch L1 block info" e)) (InfoByHash ba (id_Hash epoch));
    Ok (info, [], sysConfig, l2_SequenceNumber l2Parent +₆₄ 1).

(** [PreparePayloadAttributes] *)
Definition PreparePayloadAttributes (ba : Fetchers) (l2Parent : L2BlockRef) (epoch : BlockID)
    (justification : option L2BatchJustification) : res PayloadAttributes :=
  sysConfig ← map_err (fun e => NewTemporaryError (Wrapf "failed to retrieve L2 parent block" e))
                      (SystemConfigByL2Hash ba (l2_Hash l2Parent));
  '(l1Info, depositTxs, sysConfig, seqNumber) ← epoch_data ba l2Parent epoch sysConfig;
  let nextL2Time := l2_Time l2Parent +₆₄ BlockTime cfg in
  if nextL2Time <? bi_Time l1Info then
    Err (NewResetError (Errorf "cannot build L2 block before L1 origin"))
  else
  l1InfoTx ← map_err (fun e => NewCriticalError (Wrapf "failed to create l1InfoTx" e))
    (L1InfoDepositBytes Keccak256Hash rlp_encode_jst encode_deposit
       seqNumber l1Info sysConfig justification (IsRegolith cfg nextL2Time));
  Ok {| pa_Timestamp := nextL2Time; pa_PrevRandao := bi_MixDigest l1Info;
        pa_SuggestedFeeRecipient := SequencerFeeVaultAddr;
        pa_Withdrawals := if IsCanyon cfg nextL2Time then Some [] else None;
        pa_Transactions := l1InfoTx :: depositTxs; pa_NoTxPool := true;
        pa_Espresso := bool_decide (is_Some justification); pa_GasLimit := Some (GasLimit sysConfig) |}.

(** *** The attributes queue *)

Record AttributesQueue (P : Type) := mkAttributesQueue {
  aq_prev : P;
  aq_batch : option SingularBatch;
}.
Arguments mkAttributesQueue {P} _ _.
Arguments aq_prev {P} _.
Arguments aq_batch {P} _.

Definition createNextAttributes (ba : Fetchers) (batch : SingularBatch) (l2SafeHead : L2BlockRef)
    : res PayloadAttributes :=
  if negb (bool_decide (sb_ParentHash batch = l2_Hash l2SafeHead)) then
    Err (NewResetError (Errorf "valid batch has bad parent hash"))
  else if negb (l2_Time l2SafeHead +₆₄ BlockTime cfg =? sb_Timestamp batch) then
    Err (NewResetError (Errorf "valid batch has bad timestamp"))
  else
    attrs ← PreparePayloadAttributes ba l2SafeHead (Epoch batch) (sb_Justification batch);
    Ok {| pa_Timestamp := pa_Timestamp attrs; pa_PrevRandao := pa_PrevRandao attrs;
          pa_SuggestedFeeRecipient := pa_SuggestedFeeRecipient attrs; pa_Withdrawals := pa_Withdrawals attrs;
          pa_Transactions := pa_Transactions attrs ++ sb_Transactions batch; pa_NoTxPool := true;
          pa_Espresso := pa_Espresso attrs; pa_GasLimit := pa_GasLimit attrs |}.

Section Queue.
Context {P : Type} `{SafeBatchProvider P SingularBatch}.

Definition aq_Origin (aq : AttributesQueue P) : L1BlockRef := Origin (aq_prev aq).

Definition NextAttributes (ba : Fetchers) (l2SafeHead : L2BlockRef)
    : stM (AttributesQueue P) PayloadAttributes := fun aq =>
  let '(aq, r) :=
    match aq_batch aq with
    | Some b => (aq, Ok b)
    | None =>
        match NextSafeBatch l2SafeHead (aq_prev aq) with
        | (p, Err e) => (mkAttributesQueue p None, Err e)
        | (p, Ok b) => (mkAttributesQueue p (Some b), Ok b)
        end
    end in
  match r with
  | Err e => (aq, Err e)
  | Ok batch =>
      match createNextAttributes ba batch l2SafeHead with
      | Err e => (aq, Err e)
      | Ok attrs => (mkAttributesQueue (aq_prev aq) None, Ok attrs)
      end
  end.

Definition aq_Reset (aq : AttributesQueue P) : AttributesQueue P * res unit :=
  (mkAttributesQueue (aq_prev aq) None, Err EOF).
End Queue.

(** ** Specification *)

(** The widths of what the RPC clients return. *)
Definition sysCfg_wf (c : SystemConfig) : Prop :=
  is_address (BatcherAddr c) /\ is_hash (Overhead c) /\ is_hash (Scalar c) /\ is_u64 (EspressoL1ConfDepth c).

Definition block_info_wf (b : BlockInfo) : Prop :=
  is_hash (bi_Hash b) /\ is_u64 (bi_Number b) /\ is_u64 (bi_Time b) /\ is_u256 (bi_BaseFee b).

Record fetchers_wf (ba : Fetchers) : Prop := {
  fw_info : forall h i, InfoByHash ba h = Ok i -> block_info_wf i;
  fw_receipts : forall h i rs, FetchReceipts ba h = Ok (i, rs) ->
    block_info_wf i /\ Forall (fun r => Forall (fun l => bytes_ok (log_Data l)) (rec_Logs r)) rs;
  fw_config : forall h c, SystemConfigByL2Hash ba h = Ok c -> sysCfg_wf c;
}.

(** The L1 block, the deposits, the configuration and the sequence number a
    block on [parent] with L1 origin [epoch] is made of. *)
Inductive origin_step (ba : Fetchers) (parent : L2BlockRef) (epoch : BlockID) (parentCfg : SystemConfig)
    : BlockInfo -> list DepositTx -> SystemConfig -> Z -> Prop :=
| FirstOfEpoch info receipts ds sysCfg :
    id_Number (l2_L1Origin parent) <> id_Number epoch ->
    FetchReceipts ba (id_Hash epoch) = Ok (info, receipts) ->
    bi_ParentHash info = id_Hash (l2_L1Origin parent) ->
    UserDeposits Keccak256Hash receipts (DepositContractAddress cfg) = (ds, []) ->
    UpdateSystemConfigWithL1Receipts Keccak256Hash parentCfg receipts cfg = (sysCfg, []) ->
    origin_step ba parent epoch parentCfg info ds sysCfg 0
| SameEpoch info :
    l2_L1Origin parent = epoch ->
    InfoByHash ba (id_Hash epoch) = Ok info ->
    origin_step ba parent epoch parentCfg info [] parentCfg (l2_SequenceNumber parent +₆₄ 1).

Lemma derive_fold ds txs errs txs' :
  fold_left (fun '(encodedTxs, result) tx =>
    match encode_deposit tx with
    | Err _ => (encodedTxs, result ++ [Errorf "failed to encode user tx"])
    | Ok opaqueTx => (encodedTxs ++ [opaqueTx], result)
    end) ds (txs, errs) = (txs', []) ->
  errs = [] /\ exists new, txs' = txs ++ new /\ Forall2 (fun d b => encode_deposit d = Ok b) ds new.
Proof.
  revert txs errs. induction ds as [|d ds IH]; intros txs errs; cbn [fold_left].
  - intros [= -> ->]. split; [done|]. exists []. by rewrite app_nil_r.
  - destruct (encode_deposit d) as [b|] eqn:Ed; intros H; apply IH in H as [He (new & -> & Hn)].
    + split; [done|]. exists (b :: new). rewrite <- app_assoc. split; [done|]. by constructor.
    + by destruct errs.
Qed.

Lemma DeriveDeposits_ok receipts addr txs :
  DeriveDeposits Keccak256Hash encode_deposit receipts addr = (txs, []) ->
  exists ds, UserDeposits Keccak256Hash receipts addr = (ds, []) /\ Forall2 (fun d b => encode_deposit d = Ok b) ds txs.
Proof.
  unfold DeriveDeposits. destruct (UserDeposits Keccak256Hash receipts addr) as [ds errs].
  intros H. apply derive_fold in H as (-> & new & -> & Hn). by exists ds.
Qed.

Lemma epoch_data_ok ba parent epoch parentCfg info txs sysCfg seq :
  epoch_data ba parent epoch parentCfg = Ok (info, txs, sysCfg, seq) ->
  exists ds, origin_step ba parent epoch parentCfg info ds sysCfg seq /\
    Forall2 (fun d b => encode_deposit d = Ok b) ds txs.
Proof.
  unfold epoch_data. destruct (Z.eqb_spec (id_Number (l2_L1Origin parent)) (id_Number epoch)) as [En|Nn]; cbn [negb].
  - case_bool_decide as Eh; cbn [negb]; [|done].
    destruct (InfoByHash ba (id_Hash epoch)) as [i|] eqn:Ei; cbn [map_err mbind res_bind]; [|done].
    intros [= -> <- <- <-]. exists []. split; [|constructor]. constructor; [|done].
    destruct (l2_L1Origin parent), epoch. cbn in *. by subst.
  - destruct (FetchReceipts ba (id_Hash epoch)) as [[i rs]|] eqn:Er; cbn [map_err mbind res_bind]; [|done].
    case_bool_decide as Eh; cbn [negb]; [|done].
    destruct (DeriveDeposits _ _ _ _) as [deps [|]] eqn:Ed; [|done].
    destruct (UpdateSystemConfigWithL1Receipts _ _ _ _) as [c [|]] eqn:Eu; [|done].
    intros [= -> <- <- <-]. apply DeriveDeposits_ok in Ed as (ds & Hds & Henc).
    exists ds. split; [|done]. by econstructor.
Qed.

(** Configuration updates keep the widths. *)
Lemma apply_update_wf u c : update_wf u -> sysCfg_wf c -> sysCfg_wf (apply_update u c).
Proof. intros Hu (H1 & H2 & H3 & H4). destruct u; cbn in *; try done. by destruct Hu. Qed.

Lemma update_config_wf c rs c' errs :
  sysCfg_wf c -> Forall (fun r => Forall (fun l => bytes_ok (log_Data l)) (rec_Logs r)) rs ->
  UpdateSystemConfigWithL1Receipts Keccak256Hash c rs cfg = (c', errs) -> sysCfg_wf c'.
Proof.
  intros Hc Hrs H. unfold UpdateSystemConfigWithL1Receipts in H. rewrite process_receipts_flat in H.
  assert (Hl : Forall (fun l => bytes_ok (log_Data l)) (config_logs Keccak256Hash cfg rs)).
  { apply Forall_forall. intros l Hl. unfold config_logs in Hl.
    apply list_elem_of_filter in Hl as [_ Hl]. apply list_elem_of_In in Hl.
    apply in_concat in Hl as (logs & Hlogs & Hl). apply in_map_iff in Hlogs as (r & <- & Hr).
    apply list_elem_of_In in Hr. apply list_elem_of_filter in Hr as [_ Hr].
    rewrite Forall_forall in Hrs. specialize (Hrs r Hr). rewrite Forall_forall in Hrs.
    by apply Hrs, list_elem_of_In. }
  destruct (process_logs_reads Keccak256Hash _ c [] Hl) as (us & errs' & Hus & Hf & _).
  rewrite Hf in H. injection H as <- _. clear Hf Hl errs'. revert c Hc.
  induction Hus as [|log ou logs us Hlu Hus IH]; intros c Hc; [done|]. apply IH.
  destruct ou as [u|]; [|done]. destruct Hlu as [Hu _]. by apply apply_update_wf.
Qed.

Lemma origin_step_wf ba parent epoch c info ds sysCfg seq :
  fetchers_wf ba -> sysCfg_wf c -> origin_step ba parent epoch c info ds sysCfg seq ->
  block_info_wf info /\ sysCfg_wf sysCfg /\ is_u64 seq.
Proof.
  intros W Hc [info' rs ds' c' Hn Hr _ _ Hu|info' _ Hi].
  - destruct (fw_receipts _ W _ _ _ Hr) as [Hi Hl]. split; [done|]. split; [|ulia].
    by eapply update_config_wf.
  - split; [by eapply fw_info|]. split; [done|]. apply u64_range.
Qed.

Lemma createNextAttributes_ok ba batch head attrs : createNextAttributes ba batch head = Ok attrs ->
  sb_ParentHash batch = l2_Hash head /\ sb_Timestamp batch = l2_Time head +₆₄ BlockTime cfg /\
  exists base, PreparePayloadAttributes ba head (Epoch batch) (sb_Justification batch) = Ok base /\
    pa_Timestamp attrs = sb_Timestamp batch /\ pa_NoTxPool attrs = true /\
    pa_Transactions attrs = pa_Transactions base ++ sb_Transactions batch.
Proof.
  unfold createNextAttributes. intros Ec. case_bool_decide as Ep; cbn [negb] in Ec; [|done].
  destruct (Z.eqb_spec (l2_Time head +₆₄ BlockTime cfg) (sb_Timestamp batch)) as [Et|]; cbn [negb] in Ec; [|done].
  destruct (PreparePayloadAttributes _ _ _ _) as [base|] eqn:Ea; [|done].
  apply Ok_inj in Ec. subst attrs. repeat split; try done. exists base. repeat split.
  cbn [pa_Timestamp]. rewrite <- Et.
  unfold PreparePayloadAttributes in Ea.
  apply res_bind_ok in Ea as (c & _ & Ea). apply res_bind_ok in Ea as ([[[i t] c'] sq] & _ & Ea).
  destruct (_ <? _); [done|]. apply res_bind_ok in Ea as (tx & _ & Ea). apply Ok_inj in Ea. by subst base.
Qed.

Lemma PreparePayloadAttributes_ok ba parent epoch jst attrs :
  PreparePayloadAttributes ba parent epoch jst = Ok attrs ->
  exists parentCfg info ds sysCfg seq infoTx txs,
    SystemConfigByL2Hash ba (l2_Hash parent) = Ok parentCfg /\
    origin_step ba parent epoch parentCfg info ds sysCfg seq /\
    L1InfoDepositBytes Keccak256Hash rlp_encode_jst encode_deposit seq info sysCfg jst
      (IsRegolith cfg (l2_Time parent +₆₄ BlockTime cfg)) = Ok infoTx /\
    pa_Timestamp attrs = l2_Time parent +₆₄ BlockTime cfg /\
    bi_Time info <= pa_Timestamp attrs /\
    pa_Transactions attrs = infoTx :: txs /\ Forall2 (fun d b => encode_deposit d = Ok b) ds txs /\
    pa_NoTxPool attrs = true /\ pa_GasLimit attrs = Some (GasLimit sysCfg).
Proof.
  intros Hprep. unfold PreparePayloadAttributes in Hprep.
  destruct (SystemConfigByL2Hash ba (l2_Hash parent)) as [parentCfg|] eqn:Ec; cbn [map_err mbind res_bind] in Hprep; [|done].
  destruct (epoch_data ba parent epoch parentCfg) as [[[[info txs] sysCfg] seq]|] eqn:Ee; cbn [mbind res_bind] in Hprep; [|done].
  destruct (Z.ltb_spec (l2_Time parent +₆₄ BlockTime cfg) (bi_Time info)); [done|].
  destruct (L1InfoDepositBytes _ _ _ _ _ _ _ _) as [infoTx|] eqn:Ei; cbn [map_err mbind res_bind] in Hprep; [|done].
  apply Ok_inj in Hprep. subst attrs. apply epoch_data_ok in Ee as (ds & Hstep & Henc).
  by exists parentCfg, info, ds, sysCfg, seq, infoTx, txs.
Qed.

(** The attributes prepared on a parent for an epoch belong to that epoch
    or to its immediate successor: their time is one block after the parent
    and not before the L1 block, their transactions are the L1 info deposit
    followed by the deposits of the epoch if (and only if) the epoch is new,
    and a payload that carries them reads back as a block with that L1
    origin, the next sequence number of the epoch, and the configuration
    updated by the receipts. *)
Lemma prepared_attributes (C : codec_laws Keccak256Hash rlp_encode_jst rlp_decode_jst encode_deposit decode_tx)
  (ba : Fetchers) (W : fetchers_wf ba) (parent : L2BlockRef) (epoch : BlockID)
  (jst : option L2BatchJustification) (attrs : PayloadAttributes)
  (Hprep : PreparePayloadAttributes ba parent epoch jst = Ok attrs) :
  exists parentCfg info ds sysCfg seq infoTx txs,
    SystemConfigByL2Hash ba (l2_Hash parent) = Ok parentCfg /\
    origin_step ba parent epoch parentCfg info ds sysCfg seq /\
    pa_Timestamp attrs = l2_Time parent +₆₄ BlockTime cfg /\
    bi_Time info <= pa_Timestamp attrs /\
    pa_Transactions attrs = infoTx :: txs /\ Forall2 (fun d b => encode_deposit d = Ok b) ds txs /\
    pa_NoTxPool attrs = true /\ pa_GasLimit attrs = Some (GasLimit sysCfg) /\
    forall payload rest, pl_Transactions payload = pa_Transactions attrs ++ rest ->
      pl_GasLimit payload = GasLimit sysCfg ->
      pl_BlockNumber payload <> id_Number (gen_L2 (cfg_Genesis cfg)) ->
      PayloadToBlockRef Keccak256Hash rlp_decode_jst decode_tx payload (cfg_Genesis cfg) =
        Ok {| l2_Hash := pl_BlockHash payload; l2_Number := pl_BlockNumber payload;
              l2_ParentHash := pl_ParentHash payload; l2_Time := pl_Timestamp payload;
              l2_L1Origin := mkBlockID (bi_Hash info) (bi_Number info); l2_SequenceNumber := seq |} /\
      PayloadToSystemConfig Keccak256Hash rlp_decode_jst decode_tx payload cfg = Ok sysCfg.
Proof.
  apply PreparePayloadAttributes_ok in Hprep as (parentCfg & info & ds & sysCfg & seq & infoTx & txs & Ec & Hstep & Ei & ? & ? & Htx & ? & ? & ?).
  destruct (origin_step_wf _ _ _ _ _ _ _ _ W (fw_config _ W _ _ Ec) Hstep) as ((? & ? & ? & ?) & (? & ? & ? & ?) & ?).
  exists parentCfg, info, ds, sysCfg, seq, infoTx, txs. do 8 (split; [done|]).
  intros payload rest Hpl Hgas Hn. rewrite Htx in Hpl.
  destruct (l1_info_block Keccak256Hash rlp_encode_jst rlp_decode_jst encode_deposit decode_tx C
    seq info sysCfg jst (IsRegolith cfg (l2_Time parent +₆₄ BlockTime cfg)) infoTx (txs ++ rest) payload cfg) as [Hr1 Hr2];
    [by do 8 (split; [done|])|done..|].
  split; [done|]. rewrite Hr2, Hgas. by destruct sysCfg.
Qed.

(** The attributes queue loses no batch: the batch it works on (the one it
    kept, or the next one of the batch queue) is given up only together with
    attributes that build on the safe head at the time of the batch and end
    with the transactions of the batch; after an error it is kept. *)
Lemma NextAttributes_keeps_batch {P : Type} `{SafeBatchProvider P SingularBatch}
  (ba : Fetchers) (head : L2BlockRef) (aq : AttributesQueue P) :
  exists pulled, (match aq_batch aq with
      | Some b => pulled = Ok b /\ aq_prev (NextAttributes ba head aq).1 = aq_prev aq
      | None => NextSafeBatch head (aq_prev aq) = (aq_prev (NextAttributes ba head aq).1, pulled)
      end) /\
    match NextAttributes ba head aq, pulled with
    | (aq', Ok attrs), Ok batch =>
        aq_batch aq' = None /\ sb_ParentHash batch = l2_Hash head /\
        sb_Timestamp batch = l2_Time head +₆₄ BlockTime cfg /\
        exists base, PreparePayloadAttributes ba head (Epoch batch) (sb_Justification batch) = Ok base /\
          pa_Timestamp attrs = sb_Timestamp batch /\ pa_NoTxPool attrs = true /\
          pa_Transactions attrs = pa_Transactions base ++ sb_Transactions batch
    | (aq', Err _), Ok batch => aq_batch aq' = Some batch
    | (aq', r), Err e => aq_batch aq' = None /\ r = Err e
    end.
Proof.
  unfold NextAttributes. destruct aq as [p [b|]]; cbn [aq_batch aq_prev].
  - exists (Ok b). split; [split; [done|]; by destruct (createNextAttributes ba b head)|].
    destruct (createNextAttributes ba b head) as [attrs|] eqn:Ec; [|done].
    split; [done|]. by apply createNextAttributes_ok.
  - destruct (NextSafeBatch head p) as [p' [b|e]] eqn:En; cbn [aq_batch aq_prev].
    + exists (Ok b). split; [by destruct (createNextAttributes ba b head)|].
      destruct (createNextAttributes ba b head) as [attrs|] eqn:Ec; [|done].
      split; [done|]. by apply createNextAttributes_ok.
    + by exists (Err e).
Qed.
End Attributes.
Arguments mkAttributesQueue {E P} _ _.
Arguments aq_prev {E P} _.
Arguments aq_batch {E P} _.

(** ** Witness *)

#[local] Existing Instance ex_lib.

Definition ex_fetchers : Fetchers :=
  {| InfoByHash := fun h => if decide (h = hash_of 7) then Ok ex_block_info else Err (Errorf "not found");
     FetchReceipts := fun h => if decide (h = hash_of 7) then Ok (ex_block_info, ex_deposit_receipts) else Err (Errorf "not found");
     SystemConfigByL2Hash := fun _ => Ok ex_sysCfg |}.

Definition ex_parent : L2BlockRef :=
  {| l2_Hash := hash_of 20; l2_Number := 3; l2_ParentHash := hash_of 19; l2_Time := 106;
     l2_L1Origin := mkBlockID (hash_of 6) 6; l2_SequenceNumber := 2 |}.

Lemma ex_fetchers_wf : fetchers_wf ex_fetchers.
Proof.
  constructor.
  - intros h i. cbn. destruct (decide _); [|done]. intros H. apply Ok_inj in H. subst i. repeat split; vm_decide.
  - intros h i rs. cbn. destruct (decide _); [|done]. intros H. apply Ok_inj in H. injection H as <- <-.
    split; [repeat split; vm_decide|vm_decide].
  - intros h c H. cbn in H. apply Ok_inj in H. subst c. repeat split; vm_decide.
Qed.

Abbreviation ex_attrs :=
  (PreparePayloadAttributes ex_keccak ex_rlp_encode ex_encode_deposit ex_cfg ex_fetchers ex_parent
    (mkBlockID (hash_of 7) 7) (Some ex_jst)) (only parsing).

Lemma prepared_attributes_witness :
  exists attrs info, ex_attrs = Ok attrs /\ pa_Timestamp attrs = 108 /\ length (pa_Transactions attrs) = 3%nat /\
    bi_Time info <= 108.
Proof.
  assert (Hl : match ex_attrs with Ok a => length (pa_Transactions a) | Err _ => 0%nat end = 3%nat) by (vm_compute; reflexivity).
  assert (Ht : match ex_attrs with Ok a => pa_Timestamp a | Err _ => 0 end = 108) by (vm_compute; reflexivity).
  destruct ex_attrs as [attrs|e] eqn:He; [|discriminate Hl].
  destruct (prepared_attributes ex_keccak ex_rlp_encode ex_rlp_decode ex_encode_deposit ex_decode_tx ex_cfg
    ex_codec_laws ex_fetchers ex_fetchers_wf ex_parent (mkBlockID (hash_of 7) 7) (Some ex_jst) attrs He)
    as (pc & info & ds & c & seq & tx & txs & _ & _ & _ & Hb & _).
  exists attrs, info. rewrite Ht in Hb. exact (conj eq_refl (conj Ht (conj Hl Hb))).
Defined.
