(* ===== verification/L1Stages.v ===== *)
(** * The L1 end of the derivation pipeline

    [op-node/rollup/derive/l1_traversal.go], [l1_retrieval.go],
    [calldata_source.go] and [frame_queue.go]: walking the L1 chain, opening
    the batcher transactions of a block and cutting them into frames. *)

From S2P Require Import Prelude Eth Frame Solabi SystemConfig Espresso Stages.

Section L1Stages.
Variable Keccak256Hash : bytes -> Hash.
Variable cfg : Config.

(** An L1 transaction is go-ethereum's; [Sender] recovers its signer. *)
Context {Tx : Type}.
Variable tx_To : Tx -> option Address.
Variable tx_Data : Tx -> bytes.
Variable Sender : Tx -> res Address.

(** The RPC client of the L1 node. *)
Record L1Client := mkL1Client {
  L1BlockRefByNumber : Z -> res L1BlockRef;
  FetchReceipts : Hash -> res (BlockInfo * list Receipt);
  InfoAndTxsByHash : Hash -> res (BlockInfo * list Tx);
}.

Variable l1 : L1Client.

(** *** L1 traversal *)

Record L1Traversal := mkL1Traversal {
  tr_block : L1BlockRef;
  tr_done : bool;
  tr_sysCfg : SystemConfig;
}.

Definition NextL1Block_tr : stM L1Traversal L1BlockRef := fun t =>
  if negb (tr_done t) then (mkL1Traversal (tr_block t) true (tr_sysCfg t), Ok (tr_block t))
  else (t, Err EOF).

(** A failing update of the configuration has already applied the well-formed
    logs to [sysCfg]. *)
Definition AdvanceL1Block : stM L1Traversal unit := fun t =>
  let origin := tr_block t in
  match L1BlockRefByNumber l1 (l1_Number origin +₆₄ 1) with
  | Err e =>
      if errors_Is e NotFound then (t, Err EOF)
      else (t, Err (NewTemporaryError (Wrapf "failed to find L1 block info by number" e)))
  | Ok next =>
      if negb (bool_decide (l1_Hash origin = l1_ParentHash next)) then
        (t, Err (NewResetError (Errorf "detected L1 reorg with conflicting parent")))
      else
        match FetchReceipts l1 (l1_Hash next) with
        | Err e => (t, Err (NewTemporaryError (Wrapf "failed to fetch receipts of L1 block for L1 sysCfg update" e)))
        | Ok (_, receipts) =>
            match UpdateSystemConfigWithL1Receipts Keccak256Hash (tr_sysCfg t) receipts cfg with
            | (sysCfg, e :: _) =>
                (mkL1Traversal (tr_block t) (tr_done t) sysCfg,
                 Err (NewCriticalError (Wrapf "failed to update L1 sysCfg with receipts from block" e)))
            | (sysCfg, []) => (mkL1Traversal next false sysCfg, Ok tt)
            end
        end
  end.

Definition tr_Reset (base : L1BlockRef) (c : SystemConfig) (t : L1Traversal) : L1Traversal * res unit :=
  (mkL1Traversal base false c, Err EOF).

#[global] Instance L1Traversal_origin : OriginProvider L1Traversal := tr_block.
#[global] Instance L1Traversal_blocks : NextBlockProvider L1Traversal :=
  { NextL1Block := NextL1Block_tr; Stage_SystemConfig := tr_sysCfg }.

(** *** Calldata source *)

Definition DataFromEVMTransactions (batcherAddr : Address) (txs : list Tx) : list bytes :=
  foldr (fun tx out =>
    match tx_To tx with
    | None => out
    | Some to =>
        if negb (bool_decide (to = BatchInboxAddress cfg)) then out else
        match Sender tx with
        | Err _ => out
        | Ok seqDataSubmitter =>
            if negb (bool_decide (seqDataSubmitter = batcherAddr)) then out else tx_Data tx :: out
        end
    end) [] txs.

(** Once open, only the remaining data is used. *)
Record DataSource := mkDataSource {
  ds_open : bool;
  ds_data : list bytes;
  ds_id : BlockID;
  ds_batcherAddr : Address;
}.

Definition NewDataSource (block : BlockID) (batcherAddr : Address) : DataSource :=
  match InfoAndTxsByHash l1 (id_Hash block) with
  | Err _ => mkDataSource false [] block batcherAddr
  | Ok (_, txs) => mkDataSource true (DataFromEVMTransactions batcherAddr txs) block batcherAddr
  end.

Definition DataSource_Next : stM DataSource bytes := fun ds =>
  let opened :=
    if negb (ds_open ds) then
      match InfoAndTxsByHash l1 (id_Hash (ds_id ds)) with
      | Ok (_, txs) =>
          Ok (mkDataSource true (DataFromEVMTransactions (ds_batcherAddr ds) txs) (ds_id ds) (ds_batcherAddr ds))
      | Err e =>
          if errors_Is e NotFound then Err (NewResetError (Wrapf "failed to open calldata source" e))
          else Err (NewTemporaryError (Wrapf "failed to open calldata source" e))
      end
    else Ok ds in
  match opened with
  | Err e => (ds, Err e)
  | Ok ds =>
      match ds_data ds with
      | [] => (ds, Err EOF)
      | data :: rest => (mkDataSource (ds_open ds) rest (ds_id ds) (ds_batcherAddr ds), Ok data)
      end
  end.

(** *** L1 retrieval *)

Section Retrieval.
Context {P : Type} `{NextBlockProvider P}.

Record L1Retrieval := mkL1Retrieval {
  lr_prev : P;
  lr_datas : option DataSource;
}.

Definition lr_read (p : P) (ds : DataSource) : L1Retrieval * res bytes :=
  match DataSource_Next ds with
  | (ds, Err EOF) => (mkL1Retrieval p None, Err EOF)
  | (ds, r) => (mkL1Retrieval p (Some ds), r)
  end.

Definition lr_NextData : stM L1Retrieval bytes := fun lr =>
  match lr_datas lr with
  | Some ds => lr_read (lr_prev lr) ds
  | None =>
      match NextL1Block (lr_prev lr) with
      | (p, Err e) => (mkL1Retrieval p None, Err e)
      | (p, Ok next) =>
          lr_read p (NewDataSource (L1BlockRef_ID next) (BatcherAddr (Stage_SystemConfig p)))
      end
  end.

Definition lr_Reset (base : L1BlockRef) (c : SystemConfig) (lr : L1Retrieval) : L1Retrieval * res unit :=
  (mkL1Retrieval (lr_prev lr) (Some (NewDataSource (L1BlockRef_ID base) (BatcherAddr c))), Err EOF).

#[global] Instance L1Retrieval_origin : OriginProvider L1Retrieval := fun lr => Origin (lr_prev lr).
#[global] Instance L1Retrieval_datas : NextDataProvider L1Retrieval := { NextData := lr_NextData }.
End Retrieval.

(** *** Frame queue *)

Section FrameQueue.
Context {P : Type} `{NextDataProvider P}.

Record FrameQueue := mkFrameQueue {
  fq_prev : P;
  fq_frames : list Frame;
}.

Definition fq_pop (fq : FrameQueue) : FrameQueue * res Frame :=
  match fq_frames fq with
  | [] => (fq, Err NotEnoughData)
  | ret :: rest => (mkFrameQueue (fq_prev fq) rest, Ok ret)
  end.

Definition fq_NextFrame : stM FrameQueue Frame := fun fq =>
  match fq_frames fq with
  | [] =>
      match NextData (fq_prev fq) with
      | (p, Err e) => (mkFrameQueue p [], Err e)
      | (p, Ok data) =>
          match ParseFrames data with
          | Ok new => fq_pop (mkFrameQueue p new)
          | Err _ => fq_pop (mkFrameQueue p [])
          end
      end
  | _ :: _ => fq_pop fq
  end.

Definition fq_Reset (fq : FrameQueue) : FrameQueue * res unit := (mkFrameQueue (fq_prev fq) [], Err EOF).

#[global] Instance FrameQueue_origin : OriginProvider FrameQueue := fun fq => Origin (fq_prev fq).
#[global] Instance FrameQueue_frames : NextFrameProvider FrameQueue := { NextFrame := fq_NextFrame }.
End FrameQueue.

(** ** Specification *)

(** The transactions the batcher sent to the inbox: those whose recipient is
    the inbox address and whose signature is the batcher's. *)
Definition from_batcher (batcherAddr : Address) (tx : Tx) : Prop :=
  tx_To tx = Some (BatchInboxAddress cfg) /\ Sender tx = Ok batcherAddr.

#[global] Instance from_batcher_dec batcherAddr tx : Decision (from_batcher batcherAddr tx).
Proof.
  unfold from_batcher. destruct (Sender tx) as [a|e]; [|right; by intros [_ ?]].
  destruct (decide (tx_To tx = Some (BatchInboxAddress cfg))), (decide (a = batcherAddr));
    (left; split; congruence) || (right; intros [? ?]; congruence).
Defined.

(** The frames a block carries: those of the transactions of the batcher,
    transaction by transaction; a transaction that does not parse carries
    none. *)
Definition frames_of_data (data : bytes) : list Frame :=
  match ParseFrames data with Ok fs => fs | Err _ => [] end.

Definition batcher_datas (batcherAddr : Address) (txs : list Tx) : list bytes :=
  map tx_Data (filter (from_batcher batcherAddr) txs).

Definition frames_of_block (batcherAddr : Address) (txs : list Tx) : list Frame :=
  concat (map frames_of_data (batcher_datas batcherAddr txs)).

(** The caller's loop: collect frames, retry on [NotEnoughData], stop at any
    other error. *)
Fixpoint collect {S : Type} `{NextFrameProvider S} (fuel : nat) (s : S) : S * list Frame * option go_error :=
  match fuel with
  | O => (s, [], None)
  | Datatypes.S fuel =>
      match NextFrame s with
      | (s, Ok f) => let '(s, fs, e) := collect fuel s in (s, f :: fs, e)
      | (s, Err NotEnoughData) => collect fuel s
      | (s, Err e) => (s, [], Some e)
      end
  end.

(** The states of the traversal reachable from a reset by advances. *)
Inductive walk (base : L1BlockRef) (c0 : SystemConfig) : list L1BlockRef -> L1Traversal -> Prop :=
| walk_reset t : walk base c0 [base] (tr_Reset base c0 t).1
| walk_next bs t : walk base c0 bs t -> walk base c0 bs (NextL1Block_tr t).1
| walk_advance bs t t' : walk base c0 bs t -> AdvanceL1Block t = (t', Ok tt) ->
    walk base c0 (bs ++ [tr_block t']) t'
| walk_fail bs t t' e : walk base c0 bs t -> AdvanceL1Block t = (t', Err e) ->
    (forall e', e <> NewCriticalError e') -> walk base c0 bs t'.

(** The configuration after the receipts of the blocks [bs]. *)
Definition config_after (c0 : SystemConfig) (bs : list L1BlockRef) : SystemConfig :=
  fold_left (fun c b => match FetchReceipts l1 (l1_Hash b) with
    | Ok (_, rs) => (UpdateSystemConfigWithL1Receipts Keccak256Hash c rs cfg).1
    | Err _ => c end) bs c0.

Fixpoint linked (bs : list L1BlockRef) : Prop :=
  match bs with
  | a :: (b :: _) as rest => l1_ParentHash b = l1_Hash a /\ linked rest
  | _ => True
  end.

(** ** The walk along L1 *)

Lemma linked_snoc bs a b : linked bs -> last bs = Some a -> l1_ParentHash b = l1_Hash a -> linked (bs ++ [b]).
Proof.
  induction bs as [|x [|y bs] IH]; intros Hl Ha Hb; [done|cbn in *; naive_solver|].
  destruct Hl as [Hxy Hl]. split; [done|]. by apply IH.
Qed.

Lemma AdvanceL1Block_ok t t' : AdvanceL1Block t = (t', Ok tt) ->
  exists info receipts, L1BlockRefByNumber l1 (l1_Number (tr_block t) +₆₄ 1) = Ok (tr_block t') /\
    l1_ParentHash (tr_block t') = l1_Hash (tr_block t) /\
    FetchReceipts l1 (l1_Hash (tr_block t')) = Ok (info, receipts) /\
    UpdateSystemConfigWithL1Receipts Keccak256Hash (tr_sysCfg t) receipts cfg = (tr_sysCfg t', []) /\
    tr_done t' = false.
Proof.
  unfold AdvanceL1Block. destruct (L1BlockRefByNumber _ _) as [next|e]; [|by destruct (errors_Is _ _)].
  case_bool_decide as Eh; cbn [negb]; [|done].
  destruct (FetchReceipts _ _) as [[info rs]|] eqn:Er; [|done].
  destruct (UpdateSystemConfigWithL1Receipts _ _ _ _) as [c [|e errs]] eqn:Eu; [|done].
  intros [= <-]. cbn [tr_block tr_sysCfg tr_done]. by exists info, rs.
Qed.

Lemma AdvanceL1Block_fail t t' e : AdvanceL1Block t = (t', Err e) -> (forall e', e <> NewCriticalError e') -> t' = t.
Proof.
  unfold AdvanceL1Block. destruct (L1BlockRefByNumber _ _) as [next|e']; cycle 1.
  { destruct (errors_Is _ _); intros; congruence. }
  case_bool_decide as Eh; cbn [negb]; [|intros; congruence].
  destruct (FetchReceipts _ _) as [[info rs]|] eqn:Er; [|intros; congruence].
  destruct (UpdateSystemConfigWithL1Receipts _ _ _ _) as [c [|e' errs]] eqn:Eu; [done|].
  intros [= _ <-] N. by destruct (N (Wrapf "failed to update L1 sysCfg with receipts from block" e')).
Qed.

Lemma walk_inv base c0 bs t : walk base c0 bs t ->
  head bs = Some base /\ last bs = Some (tr_block t) /\ linked bs /\ tr_sysCfg t = config_after c0 (tail bs).
Proof.
  induction 1 as [t|bs t _ IH|bs t t' _ IH Ha|bs t t' e _ IH Ha Hn].
  - done.
  - unfold NextL1Block_tr. by destruct (negb (tr_done t)).
  - destruct IH as (Hh & Hl & Hk & Hc). destruct (AdvanceL1Block_ok _ _ Ha) as (info & rs & _ & Hp & Hr & Hu & _).
    destruct bs as [|b bs]; [done|]. cbn [tail] in *. rewrite <- app_comm_cons. cbn [head tail].
    split; [done|]. split; [by rewrite app_comm_cons, last_snoc|]. split; [by eapply (linked_snoc (b :: bs))|].
    unfold config_after. rewrite fold_left_app. fold (config_after c0 bs). rewrite <- Hc. cbn [fold_left].
    by rewrite Hr, Hu.
  - by rewrite (AdvanceL1Block_fail _ _ _ Ha Hn).
Qed.

(** ** Draining a block *)

Definition opened (id : BlockID) (a : Address) (data : list bytes) : DataSource := mkDataSource true data id a.

Definition drained (data : list bytes) : nat := sum_list (map (fun d => S (length (frames_of_data d))) data).

Lemma drained_cons d data : drained (d :: data) = (S (length (frames_of_data d)) + drained data)%nat.
Proof. done. Qed.

Lemma collect_opened {P} `{NextBlockProvider P} (p : P) p' e id a data fs fuel :
  NextL1Block p = (p', Err e) -> e <> NotEnoughData ->
  (length fs + drained data < fuel)%nat ->
  collect fuel (mkFrameQueue (mkL1Retrieval p (Some (opened id a data))) fs)
  = (mkFrameQueue (mkL1Retrieval p None) [], fs ++ concat (map frames_of_data data), Some EOF).
Proof.
  intros He Hne. revert data fs. induction fuel as [|fuel IH]; intros data fs Hf; [lia|].
  cbn [collect NextFrame FrameQueue_frames]. unfold fq_NextFrame. cbn [fq_frames fq_prev].
  destruct fs as [|f fs].
  - cbn [NextData L1Retrieval_datas]. unfold lr_NextData, lr_read, opened. cbn [lr_datas lr_prev].
    unfold DataSource_Next. cbn [ds_open negb ds_data ds_id ds_batcherAddr].
    destruct data as [|d data]; [done|]. rewrite drained_cons in Hf.
    assert (Hd : frames_of_data d = match ParseFrames d with Ok new => new | Err _ => [] end) by done.
    cbn [map concat]. destruct (ParseFrames d) as [[|f new]|]; cbn [fq_pop fq_frames fq_prev].
    + unfold opened in IH. rewrite IH by (cbn in *; lia). by rewrite Hd.
    + rewrite Hd in Hf. unfold opened in IH. rewrite IH by (cbn [length] in *; lia). by rewrite Hd.
    + unfold opened in IH. rewrite IH by (cbn in *; lia). by rewrite Hd.
  - cbn [fq_pop fq_frames fq_prev]. rewrite IH by (cbn [length] in *; lia). done.
Qed.

Lemma DataFromEVMTransactions_spec a txs : DataFromEVMTransactions a txs = batcher_datas a txs.
Proof.
  unfold batcher_datas. induction txs as [|tx txs IH]; [done|]. cbn [DataFromEVMTransactions foldr].
  fold (DataFromEVMTransactions a txs). rewrite IH, filter_cons.
  assert (Hno : ~ from_batcher a tx -> map tx_Data (if decide (from_batcher a tx) then tx :: filter (from_batcher a) txs else filter (from_batcher a) txs)
    = map tx_Data (filter (from_batcher a) txs)) by (intros ?; by rewrite decide_False).
  destruct (tx_To tx) as [to|] eqn:Et; [|rewrite Hno; [done|intros [? _]; congruence]].
  case_bool_decide as Hto; cbn [negb]; [|rewrite Hno; [done|intros [? _]; congruence]].
  destruct (Sender tx) as [s|] eqn:Es; [|rewrite Hno; [done|intros [_ ?]; congruence]].
  case_bool_decide as Hs; cbn [negb]; [|rewrite Hno; [done|intros [_ ?]; congruence]].
  rewrite decide_True by (split; congruence). done.
Qed.

(** Whatever the order of the calls and of the temporary failures, the L1
    blocks the traversal visits form a hash-linked chain from the block it was
    reset to, and its system configuration is the one the receipts of the
    visited blocks lead to. *)
Lemma traversal_walks_chain (base : L1BlockRef) (c0 : SystemConfig) (bs : list L1BlockRef) (t : L1Traversal)
  (Hwalk : walk base c0 bs t) :
  head bs = Some base /\ last bs = Some (tr_block t) /\ linked bs /\ tr_sysCfg t = config_after c0 (tail bs).
Proof. by apply walk_inv. Qed.

(** C7. Draining traversal, retrieval and frame queue on a fresh L1 block
    emits exactly the frames of the transactions of that block whose recipient
    is the batch inbox and whose signer is the current batcher, in order, and
    then stops; a number of calls bounded by these frames and transactions is
    enough. *)
Theorem block_frames_drained (t : L1Traversal) (info : BlockInfo) (txs : list Tx) (fuel : nat)
  (Hfresh : tr_done t = false)
  (Htxs : InfoAndTxsByHash l1 (l1_Hash (tr_block t)) = Ok (info, txs))
  (Hfuel : (drained (batcher_datas (BatcherAddr (tr_sysCfg t)) txs) < fuel)%nat) :
  collect fuel (mkFrameQueue (mkL1Retrieval t None) []) =
    (mkFrameQueue (mkL1Retrieval (mkL1Traversal (tr_block t) true (tr_sysCfg t)) None) [],
     frames_of_block (BatcherAddr (tr_sysCfg t)) txs, Some EOF).
Proof.
  set (t' := mkL1Traversal (tr_block t) true (tr_sysCfg t)). unfold frames_of_block. rewrite <- DataFromEVMTransactions_spec in *.
  etrans; [|exact (collect_opened t' t' EOF (L1BlockRef_ID (tr_block t)) (BatcherAddr (tr_sysCfg t)) _ [] fuel
    eq_refl ltac:(done) Hfuel)].
  destruct fuel as [|fuel]; [lia|].
  cbn [collect NextFrame FrameQueue_frames]. unfold fq_NextFrame. cbn [fq_frames fq_prev].
  cbn [NextData L1Retrieval_datas]. unfold lr_NextData. cbn [lr_datas lr_prev].
  cbn [NextL1Block L1Traversal_blocks]. unfold NextL1Block_tr. rewrite Hfresh. cbn [negb].
  unfold NewDataSource. cbn [L1BlockRef_ID id_Hash Stage_SystemConfig tr_sysCfg]. by rewrite Htxs.
Qed.
End L1Stages.
Arguments L1Retrieval P : clear implicits.
Arguments FrameQueue P : clear implicits.

(** ** Witnesses *)

(** Transactions for the examples: recipient, calldata and signer. *)
Definition ex_tx : Type := option Address * bytes * Address.

Definition ex_frame_data : bytes :=
  match MarshalBinary {| ID := replicate 16 5; FrameNumber := 0; Data := [1; 2; 3]; IsLast := true |} with
  | b => DerivationVersion0 :: b end.

Definition ex_txs : list ex_tx :=
  [ (Some (replicate 20 3), ex_frame_data, replicate 20 1);
    (Some (replicate 20 3), ex_frame_data, replicate 20 99);
    (None, ex_frame_data, replicate 20 1);
    (Some (replicate 20 3), [9; 9], replicate 20 1) ].

Definition ex_l1_block (n : Z) : L1BlockRef :=
  {| l1_Hash := hash_of n; l1_Number := n; l1_ParentHash := hash_of (n - 1); l1_Time := 12 * n |}.

Definition ex_l1_info (n : Z) : BlockInfo :=
  {| bi_Hash := hash_of n; bi_ParentHash := hash_of (n - 1); bi_Number := n; bi_Time := 12 * n;
     bi_MixDigest := hash_of 9; bi_BaseFee := 1000 |}.

(** An L1 of twenty blocks, the same receipts and transactions in each. *)
Definition ex_client : L1Client :=
  {| L1BlockRefByNumber := fun n => if n <? 20 then Ok (ex_l1_block n) else Err NotFound;
     FetchReceipts := fun h => Ok (ex_l1_info (nth 0 h 0), [nth 1 ex_receipts {| rec_Status := 0; rec_Logs := [] |}]);
     InfoAndTxsByHash := fun h => Ok (ex_l1_info (nth 0 h 0), ex_txs) |}.

Definition ex_start : L1Traversal := mkL1Traversal (ex_l1_block 7) false ex_sysCfg.

Lemma traversal_walks_chain_witness :
  linked [ex_l1_block 7; ex_l1_block 8] /\
  last [ex_l1_block 7; ex_l1_block 8] = Some (tr_block (AdvanceL1Block ex_keccak ex_cfg ex_client ex_start).1).
Proof.
  assert (W : walk ex_keccak ex_cfg ex_client (ex_l1_block 7) ex_sysCfg
    ([ex_l1_block 7] ++ [tr_block (AdvanceL1Block ex_keccak ex_cfg ex_client ex_start).1])
    (AdvanceL1Block ex_keccak ex_cfg ex_client ex_start).1).
  { eapply walk_advance; [apply (walk_reset _ _ _ _ _ ex_start)|]. vm_compute. reflexivity. }
  destruct (traversal_walks_chain ex_keccak ex_cfg ex_client (ex_l1_block 7) ex_sysCfg _ _ W) as (_ & Hl & Hk & _).
  split; [exact Hk|exact Hl].
Defined.

#[local] Instance ex_retrieval : NextDataProvider (L1Retrieval L1Traversal) :=
  L1Retrieval_datas ex_cfg (fun tx : ex_tx => tx.1.1) (fun tx => tx.1.2) (fun tx => Ok tx.2) ex_client.

Lemma block_frames_drained_witness :
  (collect 20 (mkFrameQueue (mkL1Retrieval ex_start None) [])).1.2 =
    [{| ID := replicate 16 5; FrameNumber := 0; Data := [1; 2; 3]; IsLast := true |}].
Proof.
  pose proof (block_frames_drained ex_cfg (fun tx : ex_tx => tx.1.1) (fun tx => tx.1.2) (fun tx => Ok tx.2)
    ex_client ex_start (ex_l1_info 7) ex_txs 20 eq_refl eq_refl ltac:(vm_compute; lia)) as H.
  unfold ex_retrieval. rewrite H. vm_compute. reflexivity.
Defined.
