(* ===== verification/Batches.v ===== *)
(** * Batch validity

    [op-node/rollup/derive/batches.go], with the span batch accessors of
    [span_batch.go]: whether a batch may be applied on top of the safe head,
    the Espresso rules included. [EspressoRules.v] characterises what they
    accept. *)

From S2P Require Import Prelude Eth Frame Solabi SystemConfig Deposits Espresso L1Info Stages.

Inductive BatchValidity := BatchDrop | BatchAccept | BatchUndecided | BatchFuture.
#[export] Instance BatchValidity_eq_dec : EqDecision BatchValidity.
Proof. solve_decision. Defined.

(** *** Span batches in derived form *)

Record spanBatchElement := mkElement {
  el_EpochNum : Z;
  el_Timestamp : Z;
  el_Transactions : list bytes;
}.

Record SpanBatch := mkSpanBatch {
  parentCheck : bytes;
  l1OriginCheck : bytes;
  batches : list spanBatchElement;
}.

Definition GetTimestamp (b : SpanBatch) : res Z := el_Timestamp <$> index (batches b) 0.
Definition GetStartEpochNum (b : SpanBatch) : res Z := el_EpochNum <$> index (batches b) 0.
Definition CheckOriginHash (b : SpanBatch) (hash : Hash) : bool := bool_decide (l1OriginCheck b = take 20 hash).
Definition CheckParentHash (b : SpanBatch) (hash : Hash) : bool := bool_decide (parentCheck b = take 20 hash).
Definition GetBlockEpochNum (b : SpanBatch) (i : Z) : res Z := el_EpochNum <$> index (batches b) i.
Definition GetBlockTimestamp (b : SpanBatch) (i : Z) : res Z := el_Timestamp <$> index (batches b) i.
Definition GetBlockTransactions (b : SpanBatch) (i : Z) : res (list bytes) := el_Transactions <$> index (batches b) i.
Definition GetBlockCount (b : SpanBatch) : Z := Z.of_nat (length (batches b)).

Section Batches.
Context `{E : EspressoLib}.
Variable Keccak256Hash : bytes -> Hash.
Variable rlp_decode_jst : bytes -> res L2BatchJustification.
Variable decode_tx : bytes -> res (Z * bytes).

Variable cfg : Config.

Inductive Batch :=
| Singular (b : SingularBatch)
| Span (b : SpanBatch).

Record BatchWithL1InclusionBlock := mkInclusion {
  L1InclusionBlock : L1BlockRef;
  bl_Batch : Batch;
}.

Definition Batch_GetTimestamp (b : Batch) : res Z :=
  match b with Singular b => Ok (sb_Timestamp b) | Span b => GetTimestamp b end.

(** [EspressoL1Provider] and [SafeBlockFetcher]: RPC clients. *)
Record L1Provider := mkL1Provider {
  L1BlockRefByNumber : Z -> res L1BlockRef;
  VerifyCommitments : Z -> list Commitment -> res bool;
}.

Record SafeBlockFetcher := mkSafeFetcher {
  L2BlockRefByNumber : Z -> res L2BlockRef;
  PayloadByNumber : Z -> res ExecutionPayload;
  L2SystemConfigByHash : Hash -> res SystemConfig;
}.

(** *** The Espresso L1 origin *)

Definition EspressoL1Origin (sysCfg : SystemConfig) (parent : L2BlockRef) (suggested : Z) (byNumber : Z -> res L1BlockRef)
    : res L1BlockRef :=
  let suggested := if EspressoL1ConfDepth sysCfg <? suggested
                   then suggested -₆₄ EspressoL1ConfDepth sysCfg else 0 in
  let prev := l2_L1Origin parent in
  let windowStart := l2_Time parent +₆₄ BlockTime cfg in
  if id_Number prev +₆₄ 1 <? suggested then
    nextL1Block ← map_err (Wrapf "failed to fetch next possible L1 origin") (byNumber (id_Number prev +₆₄ 1));
    if l1_Time nextL1Block <=? windowStart then Ok nextL1Block
    else byNumber (id_Number prev)
  else if suggested <? id_Number prev then byNumber (id_Number prev)
  else
    l1Block ← map_err (Wrapf "failed to fetch suggested L1 origin") (byNumber suggested);
    if l1_Time l1Block +₆₄ MaxSequencerDrift cfg <? windowStart then
      byNumber (id_Number prev +₆₄ 1)
    else if windowStart <? l1_Time l1Block then byNumber (id_Number prev)
    else Ok l1Block.

Definition EspressoBatchMustBeEmpty (l1Origin : L1BlockRef) (timestamp : Z) : bool :=
  l1_Time l1Origin +₆₄ MaxSequencerDrift cfg <? timestamp.

(** *** Bookends of the Espresso window *)

Inductive windowEndpoint := WindowStart | WindowEnd.

(** [next] is dereferenced from [jst.Next] when it is the block after. *)
Definition Bookends (e : windowEndpoint) (jst : L2BatchJustification) : res (option Header * Header) :=
  match e with
  | WindowStart =>
      next ← match jst_Blocks jst with
             | b :: _ => Ok (bj_Header b)
             | [] => deref (jst_Next jst)
             end;
      Ok (jst_Prev jst, next)
  | WindowEnd =>
      let prev := match last (jst_Blocks jst) with
                  | Some b => Some (bj_Header b)
                  | None => jst_Prev jst
                  end in
      next ← deref (jst_Next jst);
      Ok (prev, next)
  end.

Definition checkBookends (timestamp : Z) (jst : L2BatchJustification) (endpoint : windowEndpoint) : res bool :=
  '(prev, next) ← Bookends endpoint jst;
  ok ← match prev with
       | None =>
           first ← deref (First jst);
           if negb (hd_Height first =? 0) then Ok false
           else if hd_Timestamp first <? timestamp then Ok false
           else Ok true
       | Some prev =>
           if timestamp <=? hd_Timestamp prev then Ok false else Ok true
       end;
  if negb ok then Ok false
  else if hd_Timestamp next <? timestamp then Ok false
  else Ok true.

(** The commitments of the headers of a justification, in order. *)
Definition jst_commitments (jst : L2BatchJustification) : res (list Commitment) :=
  next ← deref (jst_Next jst);
  Ok (match jst_Prev jst with Some h => [Commit h] | None => [] end ++
      map (fun b => Commit (bj_Header b)) (jst_Blocks jst) ++ [Commit next]).

Definition CheckBatchEspresso (sysCfg : SystemConfig) (l2SafeHead : L2BlockRef) (batch : SingularBatch)
    (l1 : L1Provider) : res BatchValidity :=
  match sb_Justification batch with
  | None => Ok BatchDrop
  | Some jst =>
      comms ← jst_commitments jst;
      first ← deref (First jst);
      match VerifyCommitments l1 (hd_Height first) comms with
      | Err _ => Ok BatchUndecided
      | Ok false => Ok BatchDrop
      | Ok true =>
          let windowStart := l2_Time l2SafeHead +₆₄ BlockTime cfg in
          let windowEnd := windowStart +₆₄ BlockTime cfg in
          ok ← checkBookends windowStart jst WindowStart;
          if negb ok then Ok BatchDrop else
          ok ← checkBookends windowEnd jst WindowEnd;
          if negb ok then Ok BatchDrop else
          next ← deref (jst_Next jst);
          match EspressoL1Origin sysCfg l2SafeHead (hd_L1Head next) (L1BlockRefByNumber l1) with
          | Err _ => Ok BatchUndecided
          | Ok l1Origin =>
              if negb (l1_Number l1Origin =? sb_EpochNum batch) then Ok BatchDrop
              else if EspressoBatchMustBeEmpty l1Origin (sb_Timestamp batch) then
                if negb (Z.of_nat (length (sb_Transactions batch)) =? 0) then Ok BatchDrop else Ok BatchAccept
              else
                let roots := map (fun b => hd_TransactionsRoot (bj_Header b)) (jst_Blocks jst) in
                let proofs := map bj_Proof (jst_Blocks jst) in
                chainID ← deref (L2ChainID cfg);
                match ValidateBatchTransactions (u64 chainID) roots proofs (sb_Transactions batch) with
                | Some _ => Ok BatchDrop
                | None => Ok BatchAccept
                end
          end
      end
  end.

(** *** Singular batches *)

(** The loop over the transactions: none empty, none a deposit. *)
Fixpoint batch_txs_ok (txs : list bytes) : bool :=
  match txs with
  | [] => true
  | [] :: _ => false
  | (b :: _) :: txs => if b =? DepositTxType then false else batch_txs_ok txs
  end.

(** The L1 origin of the batch, or the verdict that there is none. *)
Definition singular_origin (epoch : L1BlockRef) (later : list L1BlockRef) (epochNum : Z) : L1BlockRef + BatchValidity :=
  if epochNum <? l1_Number epoch then inr BatchDrop
  else if epochNum =? l1_Number epoch then inl epoch
  else if epochNum =? l1_Number epoch +₆₄ 1 then
    match later with
    | [] => inr BatchUndecided
    | next :: _ => inl next
    end
  else inr BatchDrop.

(** The verdict on a batch that ran out of sequencer time drift. *)
Definition singular_drift (sysCfg : SystemConfig) (epoch : L1BlockRef) (later : list L1BlockRef)
    (batchOrigin : L1BlockRef) (timestamp : Z) (txs : list bytes) : option BatchValidity :=
  let max := l1_Time batchOrigin +₆₄ MaxSequencerDrift cfg in
  if max <? timestamp then
    match txs with
    | [] =>
        if l1_Number epoch =? l1_Number batchOrigin then
          match later with
          | [] => Some BatchUndecided
          | nextOrigin :: _ =>
              if negb (Espresso sysCfg) && (l1_Time nextOrigin <=? timestamp)
              then Some BatchDrop else None
          end
        else None
    | _ :: _ => Some BatchDrop
    end
  else None.

Definition checkSingularBatch (sysCfg : SystemConfig) (l1Blocks : list L1BlockRef) (l2SafeHead : L2BlockRef)
    (batch : SingularBatch) (l1InclusionBlock : L1BlockRef) (l1 : L1Provider) : res BatchValidity :=
  match l1Blocks with
  | [] => Ok BatchUndecided
  | epoch :: later =>
  let nextTimestamp := l2_Time l2SafeHead +₆₄ BlockTime cfg in
  if nextTimestamp <? sb_Timestamp batch then Ok BatchFuture
  else if sb_Timestamp batch <? nextTimestamp then Ok BatchDrop
  else if negb (bool_decide (sb_ParentHash batch = l2_Hash l2SafeHead)) then Ok BatchDrop
  else if sb_EpochNum batch +₆₄ SeqWindowSize cfg <? l1_Number l1InclusionBlock then Ok BatchDrop
  else
  match singular_origin epoch later (sb_EpochNum batch) with
  | inr v => Ok v
  | inl batchOrigin =>
  if negb (bool_decide (sb_EpochHash batch = l1_Hash batchOrigin)) then Ok BatchDrop
  else if sb_Timestamp batch <? l1_Time batchOrigin then Ok BatchDrop
  else
  match singular_drift sysCfg epoch later batchOrigin (sb_Timestamp batch) (sb_Transactions batch) with
  | Some v => Ok v
  | None =>
  if negb (batch_txs_ok (sb_Transactions batch)) then Ok BatchDrop
  else if Espresso sysCfg then CheckBatchEspresso sysCfg l2SafeHead batch l1
  else Ok BatchAccept
  end end end.

(** *** Span batches *)

(** The L1 block with number [n], from index [i] on, and its index. *)
Fixpoint find_origin (n : Z) (i : nat) (l1Blocks : list L1BlockRef) : option (nat * L1BlockRef) :=
  match l1Blocks with
  | [] => None
  | b :: rest => if l1_Number b =? n then Some (i, b) else find_origin n (S i) rest
  end.

(** [GetSingularBatches]: the blocks after the safe head, with the hashes of
    their L1 origins; the parent hash is set by the batch queue. *)
Fixpoint singular_loop (l1Origins : list L1BlockRef) (l2SafeHead : L2BlockRef) (originIdx : nat)
    (els : list spanBatchElement) : res (list SingularBatch) :=
  match els with
  | [] => Ok []
  | el :: els =>
      if el_Timestamp el <=? l2_Time l2SafeHead then singular_loop l1Origins l2SafeHead originIdx els
      else
        match find_origin (el_EpochNum el) originIdx (drop originIdx l1Origins) with
        | None => Err (Errorf "unable to find L1 origin for the epoch number")
        | Some (originIdx, origin) =>
            rest ← singular_loop l1Origins l2SafeHead originIdx els;
            Ok ({| sb_ParentHash := zeros 32; sb_EpochNum := el_EpochNum el; sb_EpochHash := l1_Hash origin;
                   sb_Timestamp := el_Timestamp el; sb_Transactions := el_Transactions el;
                   sb_Justification := None |} :: rest)
        end
  end.

Definition GetSingularBatches (b : SpanBatch) (l1Origins : list L1BlockRef) (l2SafeHead : L2BlockRef)
    : res (list SingularBatch) :=
  singular_loop l1Origins l2SafeHead 0 (batches b).

(** [NewSpanBatch] *)
Definition singularBatchToElement (b : SingularBatch) : spanBatchElement :=
  {| el_EpochNum := sb_EpochNum b; el_Timestamp := sb_Timestamp b; el_Transactions := sb_Transactions b |}.

Definition NewSpanBatch (singularBatches : list SingularBatch) : SpanBatch :=
  match singularBatches, last singularBatches with
  | first :: _, Some final =>
      {| parentCheck := take 20 (sb_ParentHash first); l1OriginCheck := take 20 (sb_EpochHash final);
         batches := map singularBatchToElement singularBatches |}
  | _, _ => {| parentCheck := zeros 20; l1OriginCheck := zeros 20; batches := [] |}
  end.

(** The loop that checks the origin hash of the last block: [None] when no L1
    block has that number. *)
Fixpoint check_end_origin (batch : SpanBatch) (endEpochNum : Z) (l1Blocks : list L1BlockRef) : option bool :=
  match l1Blocks with
  | [] => None
  | b :: rest =>
      if l1_Number b =? endEpochNum then Some (CheckOriginHash batch (l1_Hash b))
      else check_end_origin batch endEpochNum rest
  end.

(** One iteration of the loop over the blocks of the span: a verdict, or the
    [originIdx] the next iteration starts from. [prevEpoch] is the epoch of the
    block before, if there is one in the span. *)
Definition check_span_block (l1Blocks : list L1BlockRef) (l2SafeHead : L2BlockRef)
    (prevEpoch : option Z) (startAdvanced : bool) (originIdx : nat) (el : spanBatchElement)
    : BatchValidity + nat :=
  if el_Timestamp el <=? l2_Time l2SafeHead then inr originIdx else
  let found := find_origin (el_EpochNum el) originIdx (drop originIdx l1Blocks) in
  let l1Origin := match found with Some (_, b) => b | None => zero_L1BlockRef end in
  let originIdx := match found with Some (j, _) => j | None => originIdx end in
  let originAdvanced := match prevEpoch with
                        | None => startAdvanced
                        | Some e => e <? el_EpochNum el
                        end in
  if el_Timestamp el <? l1_Time l1Origin then inl BatchDrop else
  let max := l1_Time l1Origin +₆₄ MaxSequencerDrift cfg in
  let drift :=
    if max <? el_Timestamp el then
      match el_Transactions el with
      | [] =>
          if negb originAdvanced then
            match l1Blocks !! S originIdx with
            | None => Some BatchUndecided
            | Some next => if l1_Time next <=? el_Timestamp el then Some BatchDrop else None
            end
          else None
      | _ :: _ => Some BatchDrop
      end
    else None in
  match drift with
  | Some v => inl v
  | None => if batch_txs_ok (el_Transactions el) then inr originIdx else inl BatchDrop
  end.

Fixpoint check_span_blocks (l1Blocks : list L1BlockRef) (l2SafeHead : L2BlockRef)
    (prevEpoch : option Z) (startAdvanced : bool) (originIdx : nat) (els : list spanBatchElement)
    : option BatchValidity :=
  match els with
  | [] => None
  | el :: els =>
      match check_span_block l1Blocks l2SafeHead prevEpoch startAdvanced originIdx el with
      | inl v => Some v
      | inr originIdx => check_span_blocks l1Blocks l2SafeHead (Some (el_EpochNum el)) startAdvanced originIdx els
      end
  end.

(** The comparison of an overlapped block with the block of the batch;
    [tx[0]] panics on an empty transaction, and [safeBlockTxs[j+depositCount]]
    is in range because the numbers agree. *)
Fixpoint count_deposits (txs : list bytes) : res Z :=
  match txs with
  | [] => Ok 0
  | tx :: txs =>
      b ← index tx 0;
      n ← count_deposits txs;
      Ok (if b =? DepositTxType then n + 1 else n)
  end.

Definition check_overlap_block (payload : ExecutionPayload) (el : res spanBatchElement) : res (option BatchValidity) :=
  let safeBlockTxs := pl_Transactions payload in
  el ← el;
  depositCount ← count_deposits safeBlockTxs;
  if negb (Z.of_nat (length safeBlockTxs) - depositCount =? Z.of_nat (length (el_Transactions el))) then Ok (Some BatchDrop)
  else if negb (bool_decide (drop (Z.to_nat depositCount) safeBlockTxs = el_Transactions el)) then Ok (Some BatchDrop)
  else
    match PayloadToBlockRef Keccak256Hash rlp_decode_jst decode_tx payload (cfg_Genesis cfg) with
    | Err _ => Ok (Some BatchDrop)
    | Ok safeBlockRef =>
        if negb (id_Number (l2_L1Origin safeBlockRef) =? el_EpochNum el) then Ok (Some BatchDrop) else Ok None
    end.

(** The loop over the overlapped blocks, [n] of them from index [i] on. *)
Fixpoint check_overlap (l2Fetcher : SafeBlockFetcher) (batch : SpanBatch) (parentNum : Z) (n i : nat)
    : res (option BatchValidity) :=
  match n with
  | O => Ok None
  | S n =>
      match PayloadByNumber l2Fetcher (parentNum +₆₄ Z.of_nat i +₆₄ 1) with
      | Err _ => Ok (Some BatchUndecided)
      | Ok payload =>
          v ← check_overlap_block payload (index (batches batch) (Z.of_nat i));
          match v with
          | Some v => Ok (Some v)
          | None => check_overlap l2Fetcher batch parentNum n (S i)
          end
      end
  end.

(** The parent block of the span: the safe head, or for a batch that overlaps
    the safe chain the block before its first one. *)
Definition span_parent (l2Fetcher : SafeBlockFetcher) (l2SafeHead : L2BlockRef) (ts : Z)
    : res (BatchValidity + Z * L2BlockRef) :=
  let nextTimestamp := l2_Time l2SafeHead +₆₄ BlockTime cfg in
  if ts <? nextTimestamp then
    if l2_Time l2SafeHead <? ts then Ok (inl BatchDrop)
    else if BlockTime cfg =? 0 then Err (GoPanic "integer divide by zero")
    else if negb ((l2_Time l2SafeHead -₆₄ ts) mod BlockTime cfg =? 0) then Ok (inl BatchDrop)
    else
      let parentNum := l2_Number l2SafeHead -₆₄ (l2_Time l2SafeHead -₆₄ ts) / BlockTime cfg -₆₄ 1 in
      match L2BlockRefByNumber l2Fetcher parentNum with
      | Err _ => Ok (inl BatchUndecided)
      | Ok parentBlock => Ok (inr (parentNum, parentBlock))
      end
  else Ok (inr (l2_Number l2SafeHead, l2SafeHead)).

Definition checkSpanBatch (l1Blocks : list L1BlockRef) (l2SafeHead : L2BlockRef) (batch : SpanBatch)
    (l1InclusionBlock : L1BlockRef) (l2Fetcher : SafeBlockFetcher) : res BatchValidity :=
  match l1Blocks with
  | [] => Ok BatchUndecided
  | epoch :: _ =>
  let nextTimestamp := l2_Time l2SafeHead +₆₄ BlockTime cfg in
  ts ← GetTimestamp batch;
  if nextTimestamp <? ts then Ok BatchFuture else
  lastTs ← GetBlockTimestamp batch (GetBlockCount batch - 1);
  if lastTs <? nextTimestamp then Ok BatchDrop else
  parent ← span_parent l2Fetcher l2SafeHead ts;
  match parent with
  | inl v => Ok v
  | inr (parentNum, parentBlock) =>
  if negb (CheckParentHash batch (l2_Hash parentBlock)) then Ok BatchDrop else
  startEpochNum ← GetStartEpochNum batch;
  if startEpochNum +₆₄ SeqWindowSize cfg <? l1_Number l1InclusionBlock then Ok BatchDrop
  else if id_Number (l2_L1Origin parentBlock) +₆₄ 1 <? startEpochNum then Ok BatchDrop
  else
  endEpochNum ← GetBlockEpochNum batch (GetBlockCount batch - 1);
  match check_end_origin batch endEpochNum l1Blocks with
  | None => Ok BatchUndecided
  | Some false => Ok BatchDrop
  | Some true =>
  if startEpochNum <? id_Number (l2_L1Origin parentBlock) then Ok BatchDrop
  else
  let startAdvanced := startEpochNum =? id_Number (l2_L1Origin parentBlock) +₆₄ 1 in
  match check_span_blocks l1Blocks l2SafeHead None startAdvanced 0 (batches batch) with
  | Some v => Ok v
  | None =>
  v ← (if ts <? nextTimestamp then
         check_overlap l2Fetcher batch parentNum (Z.to_nat (l2_Number l2SafeHead -₆₄ parentNum)) 0
       else Ok None);
  Ok (match v with Some v => v | None => BatchAccept end)
  end end end end.

(** [CheckBatch] *)
Definition CheckBatch (sysCfg : SystemConfig) (l1Blocks : list L1BlockRef) (l2SafeHead : L2BlockRef)
    (batch : BatchWithL1InclusionBlock) (l1 : L1Provider) (l2Fetcher : SafeBlockFetcher) : res BatchValidity :=
  match bl_Batch batch with
  | Singular b => checkSingularBatch sysCfg l1Blocks l2SafeHead b (L1InclusionBlock batch) l1
  | Span b =>
      ts ← GetTimestamp b;
      if negb (IsSpanBatch cfg ts) then Ok BatchDrop
      else checkSpanBatch l1Blocks l2SafeHead b (L1InclusionBlock batch) l2Fetcher
  end.

(** ** Specification *)

(** The L1 origins a batch may name: the current epoch or the next one. *)
Inductive batch_origin (l1Blocks : list L1BlockRef) (n : Z) : L1BlockRef -> Prop :=
| CurrentEpoch epoch later : l1Blocks = epoch :: later -> n = l1_Number epoch -> batch_origin l1Blocks n epoch
| NextEpoch epoch next later : l1Blocks = epoch :: next :: later ->
    l1_Number epoch < n -> n = l1_Number epoch +₆₄ 1 -> batch_origin l1Blocks n next.

(** The sequencer drift rule: a batch too far ahead of its L1 origin must be
    empty, and if it stays in the epoch it must have had no choice. *)
Definition drift_ok (espresso : bool) (l1Blocks : list L1BlockRef) (origin : L1BlockRef) (ts : Z) (txs : list bytes) : Prop :=
  ts <= l1_Time origin +₆₄ MaxSequencerDrift cfg \/
  (txs = [] /\
   (option_map l1_Number (head l1Blocks) <> Some (l1_Number origin) \/
    exists next, l1Blocks !! 1%nat = Some next /\ (espresso = true \/ ts < l1_Time next))).

Definition singular_valid (sysCfg : SystemConfig) (l1Blocks : list L1BlockRef) (head : L2BlockRef)
    (b : SingularBatch) (incl : L1BlockRef) : Prop :=
  sb_Timestamp b = l2_Time head +₆₄ BlockTime cfg /\
  sb_ParentHash b = l2_Hash head /\
  l1_Number incl <= sb_EpochNum b +₆₄ SeqWindowSize cfg /\
  batch_txs_ok (sb_Transactions b) = true /\
  exists origin, batch_origin l1Blocks (sb_EpochNum b) origin /\
    sb_EpochHash b = l1_Hash origin /\ l1_Time origin <= sb_Timestamp b /\
    drift_ok (Espresso sysCfg) l1Blocks origin (sb_Timestamp b) (sb_Transactions b).

Lemma singular_origin_iff epoch later n o :
  singular_origin epoch later n = inl o <-> batch_origin (epoch :: later) n o.
Proof.
  unfold singular_origin. destruct (Z.ltb_spec n (l1_Number epoch)).
  { split; [done|]. intros Ho. inversion Ho; simplify_eq; lia. }
  destruct (Z.eqb_spec n (l1_Number epoch)).
  { split; [intros [= <-]; by econstructor|]. intros Ho. inversion Ho; simplify_eq; [done|lia]. }
  destruct (Z.eqb_spec n (l1_Number epoch +₆₄ 1)).
  - destruct later as [|next later].
    + split; [done|]. intros Ho. by inversion Ho; simplify_eq.
    + split; [intros [= <-]; eapply NextEpoch; [done|lia|done]|].
      intros Ho. by inversion Ho; simplify_eq.
  - split; [done|]. intros Ho. by inversion Ho; simplify_eq.
Qed.

Lemma singular_origin_verdict epoch later n v : singular_origin epoch later n = inr v -> v <> BatchAccept.
Proof.
  unfold singular_origin. destruct (_ <? _); [congruence|]. destruct (_ =? _); [congruence|].
  destruct (_ =? _); [destruct later|]; congruence.
Qed.

Lemma singular_drift_iff sysCfg epoch later o ts txs :
  singular_drift sysCfg epoch later o ts txs = None <-> drift_ok (Espresso sysCfg) (epoch :: later) o ts txs.
Proof.
  unfold singular_drift, drift_ok. cbn [list.head option_map].
  destruct (Z.ltb_spec (l1_Time o +₆₄ MaxSequencerDrift cfg) ts); [|split; [by left|done]].
  destruct txs; [|split; [done|]; intros [?|[? _]]; [lia|done]].
  destruct (Z.eqb_spec (l1_Number epoch) (l1_Number o)) as [->|];
    [|split; [|done]; intros _; right; split; [done|left; congruence]].
  destruct later as [|next later]; [split; [done|]; intros [?|[_ [?|(? & ? & _)]]]; [lia|done|done]|].
  destruct (Espresso sysCfg); cbn [negb andb].
  { split; [|done]. intros _. right. split; [done|]. right. exists next. by split; [|left]. }
  destruct (Z.leb_spec (l1_Time next) ts).
  - split; [done|]. intros [?|[_ [?|(n & [= <-] & [?|?])]]]; [lia|done|done|lia].
  - split; [|done]. intros _. right. split; [done|]. right. exists next. split; [done|]. by right.
Qed.

Lemma singular_drift_verdict sysCfg epoch later o ts txs v :
  singular_drift sysCfg epoch later o ts txs = Some v -> v <> BatchAccept.
Proof.
  unfold singular_drift. destruct (_ <? _); [|done]. destruct txs; [|congruence].
  destruct (_ =? _); [|done]. destruct later; [congruence|]. destruct (_ && _); congruence.
Qed.

(** The accepted singular batches, before the Espresso rules are looked at. *)
Lemma checkSingularBatch_accept sysCfg l1Blocks head b incl l1 :
  checkSingularBatch sysCfg l1Blocks head b incl l1 = Ok BatchAccept <->
  singular_valid sysCfg l1Blocks head b incl /\
  (Espresso sysCfg = true -> CheckBatchEspresso sysCfg head b l1 = Ok BatchAccept).
Proof.
  unfold checkSingularBatch, singular_valid.
  destruct l1Blocks as [|epoch later].
  { split; [done|]. intros [(_ & _ & _ & _ & o & [] & _) _]; done. }
  destruct (Z.ltb_spec (l2_Time head +₆₄ BlockTime cfg) (sb_Timestamp b)); [split; [done|]; intros [(? & _) _]; lia|].
  destruct (Z.ltb_spec (sb_Timestamp b) (l2_Time head +₆₄ BlockTime cfg)); [split; [done|]; intros [(? & _) _]; lia|].
  case_bool_decide as Hp; cbn [negb]; [|split; [done|]; intros [(_ & ? & _) _]; done].
  destruct (Z.ltb_spec (sb_EpochNum b +₆₄ SeqWindowSize cfg) (l1_Number incl));
    [split; [done|]; intros [(_ & _ & ? & _) _]; lia|].
  destruct (singular_origin epoch later (sb_EpochNum b)) as [o|v] eqn:Eo; cycle 1.
  { split; [intros [= ->]; by destruct (singular_origin_verdict _ _ _ _ Eo)|].
    intros [(_ & _ & _ & _ & o & Hb & _) _]. apply singular_origin_iff in Hb. congruence. }
  assert (Huniq : forall o', batch_origin (epoch :: later) (sb_EpochNum b) o' -> o' = o).
  { intros o' Ho'. apply singular_origin_iff in Ho'. congruence. }
  case_bool_decide as Hh; cbn [negb];
    [|split; [done|]; intros [(_ & _ & _ & _ & o' & Hb' & ? & _) _]; by rewrite (Huniq _ Hb') in *].
  destruct (Z.ltb_spec (sb_Timestamp b) (l1_Time o));
    [split; [done|]; intros [(_ & _ & _ & _ & o' & Hb' & _ & ? & _) _]; rewrite (Huniq _ Hb') in *; lia|].
  destruct (singular_drift sysCfg epoch later o (sb_Timestamp b) (sb_Transactions b)) as [v|] eqn:Ed.
  { split; [intros [= ->]; by destruct (singular_drift_verdict _ _ _ _ _ _ _ Ed)|].
    intros [(_ & _ & _ & _ & o' & Hb' & _ & _ & Hdr) _]. rewrite (Huniq _ Hb') in Hdr.
    apply singular_drift_iff in Hdr. congruence. }
  destruct (batch_txs_ok (sb_Transactions b)); cbn [negb]; [|split; [done|]; intros [(_ & _ & _ & ? & _) _]; done].
  apply singular_drift_iff in Ed. apply singular_origin_iff in Eo.
  destruct (Espresso sysCfg); (split; [intros Hc; split; [|done]; do 4 (split; [done || lia|]); by exists o|]);
    [intros [_ Hc]; by apply Hc|done].
Qed.

(** *** The Espresso rules *)

Definition bookends_ok (ts : Z) (prev : option Header) (first next : Header) : Prop :=
  match prev with
  | None => hd_Height first = 0 /\ ts <= hd_Timestamp first
  | Some p => hd_Timestamp p < ts
  end /\ ts <= hd_Timestamp next.

(** The header before the end of the window: the last block, or [Prev]. *)
Definition jst_last_before (jst : L2BatchJustification) : option Header :=
  match last (jst_Blocks jst) with Some b => Some (bj_Header b) | None => jst_Prev jst end.

(** The header after the start of the window: the first block, or [Next]. *)
Definition jst_first_after (jst : L2BatchJustification) (next : Header) : Header :=
  match jst_Blocks jst with b :: _ => bj_Header b | [] => next end.

Definition espresso_valid (sysCfg : SystemConfig) (head : L2BlockRef) (b : SingularBatch) (l1 : L1Provider) : Prop :=
  exists jst next first comms origin,
    sb_Justification b = Some jst /\ jst_Next jst = Some next /\ First jst = Some first /\
    jst_commitments jst = Ok comms /\ VerifyCommitments l1 (hd_Height first) comms = Ok true /\
    bookends_ok (l2_Time head +₆₄ BlockTime cfg) (jst_Prev jst) first (jst_first_after jst next) /\
    bookends_ok (l2_Time head +₆₄ BlockTime cfg +₆₄ BlockTime cfg) (jst_last_before jst) first next /\
    EspressoL1Origin sysCfg head (hd_L1Head next) (L1BlockRefByNumber l1) = Ok origin /\ l1_Number origin = sb_EpochNum b /\
    if EspressoBatchMustBeEmpty origin (sb_Timestamp b) then sb_Transactions b = []
    else exists chainID, L2ChainID cfg = Some chainID /\
      ValidateBatchTransactions (u64 chainID) (map (fun b => hd_TransactionsRoot (bj_Header b)) (jst_Blocks jst))
        (map bj_Proof (jst_Blocks jst)) (sb_Transactions b) = None.

Lemma checkBookends_true ts jst e prev next first :
  Bookends e jst = Ok (prev, next) -> First jst = Some first ->
  checkBookends ts jst e = Ok true <-> bookends_ok ts prev first next.
Proof.
  intros Hb Hf. unfold checkBookends, bookends_ok. rewrite Hb, Hf. cbn [mbind res_bind deref].
  destruct prev as [p|]; cbn [mbind res_bind].
  - destruct (Z.leb_spec ts (hd_Timestamp p)); cbn [mbind res_bind negb]; [split; [done|lia]|].
    destruct (Z.ltb_spec (hd_Timestamp next) ts); split; done || lia.
  - destruct (Z.eqb_spec (hd_Height first) 0); cbn [mbind res_bind negb]; [|split; [done|lia]].
    destruct (Z.ltb_spec (hd_Timestamp first) ts); cbn [mbind res_bind negb]; [split; [done|lia]|].
    destruct (Z.ltb_spec (hd_Timestamp next) ts); split; done || lia.
Qed.

Lemma checkBookends_total ts jst e next first : jst_Next jst = Some next -> First jst = Some first ->
  exists b, checkBookends ts jst e = Ok b.
Proof.
  intros Hn Hf. unfold checkBookends, Bookends. rewrite Hn, Hf.
  assert (Hb : exists p, (next ← match jst_Blocks jst with b :: _ => Ok (bj_Header b) | [] => deref (Some next) end;
      Ok (jst_Prev jst, next)) = Ok p) by (destruct (jst_Blocks jst); eexists; reflexivity).
  destruct e.
  - destruct Hb as ([p n] & ->). cbn [mbind res_bind deref].
    destruct p; cbn [mbind res_bind deref]; repeat (case_match; cbn [mbind res_bind]; try (by eexists)); simplify_eq.
  - cbn [mbind res_bind deref]. destruct (match last (jst_Blocks jst) with Some b => _ | None => _ end);
    cbn [mbind res_bind deref]; repeat (case_match; cbn [mbind res_bind]; try (by eexists)); simplify_eq.
Qed.

Lemma CheckBatchEspresso_accept sysCfg head b l1 :
  CheckBatchEspresso sysCfg head b l1 = Ok BatchAccept <-> espresso_valid sysCfg head b l1.
Proof.
  unfold CheckBatchEspresso, espresso_valid.
  destruct (sb_Justification b) as [jst|]; [|split; [done|]; by intros (? & ? & ? & ? & ? & ? & _)].
  destruct (jst_Next jst) as [next|] eqn:En; cycle 1.
  { unfold jst_commitments. rewrite En. split; [done|]. intros (j & n & ? & ? & ? & [= <-] & ? & _). congruence. }
  assert (Hf : exists first, First jst = Some first).
  { unfold First. rewrite En. destruct (jst_Prev jst); [by eexists|]. destruct (jst_Blocks jst); by eexists. }
  destruct Hf as [first Hf].
  destruct (jst_commitments jst) as [comms|] eqn:Ec; [|by unfold jst_commitments in Ec; rewrite En in Ec].
  rewrite Hf. cbn [mbind res_bind deref].
  assert (HS : Bookends WindowStart jst = Ok (jst_Prev jst, jst_first_after jst next)).
  { unfold Bookends, jst_first_after. rewrite En. by destruct (jst_Blocks jst). }
  assert (HE : Bookends WindowEnd jst = Ok (jst_last_before jst, next)).
  { unfold Bookends, jst_last_before. by rewrite En. }
  destruct (VerifyCommitments l1 (hd_Height first) comms) as [[|]|] eqn:Ev.
  2,3: split; [done|]; intros (j & n & f & c & o & [= <-] & ? & ? & ? & ? & _); congruence.
  destruct (checkBookends_total (l2_Time head +₆₄ BlockTime cfg) jst WindowStart _ _ En Hf) as [b1 Hb1].
  destruct (checkBookends_total (l2_Time head +₆₄ BlockTime cfg +₆₄ BlockTime cfg) jst WindowEnd _ _ En Hf) as [b2 Hb2].
  pose proof (checkBookends_true (l2_Time head +₆₄ BlockTime cfg) _ _ _ _ _ HS Hf) as H1.
  pose proof (checkBookends_true (l2_Time head +₆₄ BlockTime cfg +₆₄ BlockTime cfg) _ _ _ _ _ HE Hf) as H2.
  rewrite Hb1. cbn [mbind res_bind]. destruct b1; cbn [negb]; cycle 1.
  { split; [done|]. intros (j & n & f & c & o & [= <-] & ? & ? & ? & ? & Hs & _). simplify_eq. apply H1 in Hs. congruence. }
  rewrite Hb2. cbn [mbind res_bind]. destruct b2; cbn [negb]; cycle 1.
  { split; [done|]. intros (j & n & f & c & o & [= <-] & ? & ? & ? & ? & _ & Hs & _). simplify_eq. apply H2 in Hs. congruence. }
  destruct (EspressoL1Origin sysCfg head (hd_L1Head next) (L1BlockRefByNumber l1)) as [origin|] eqn:Eo; cycle 1.
  { split; [done|]. intros (j & n & f & c & o & [= <-] & ? & ? & ? & ? & _ & _ & ? & _). congruence. }
  trans (l1_Number origin = sb_EpochNum b /\
    if EspressoBatchMustBeEmpty origin (sb_Timestamp b) then sb_Transactions b = []
    else exists chainID, L2ChainID cfg = Some chainID /\
      ValidateBatchTransactions (u64 chainID) (map (fun b => hd_TransactionsRoot (bj_Header b)) (jst_Blocks jst))
        (map bj_Proof (jst_Blocks jst)) (sb_Transactions b) = None).
  - destruct (Z.eqb_spec (l1_Number origin) (sb_EpochNum b)); cbn [negb]; [|split; [done|by intros [? _]]].
    destruct (EspressoBatchMustBeEmpty origin (sb_Timestamp b)).
    + destruct (sb_Transactions b); [done|]. split; [done|by intros [_ ?]].
    + destruct (L2ChainID cfg) as [id|]; cbn [mbind res_bind deref]; [|split; [done|by intros [_ (? & ? & _)]]].
      destruct (ValidateBatchTransactions _ _ _ _) eqn:E1;
        [split; [done|intros [_ (? & [= <-] & ?)]; congruence]|].
      split; [|done]. intros _. split; [done|]. by exists id.
  - split.
    + intros [Hn Htx]. exists jst, next, first, comms, origin. do 5 (split; [done|]).
      split; [by apply H1|]. split; [by apply H2|]. done.
    + intros (j & n & f & c & o & [= <-] & ? & ? & ? & ? & _ & _ & ? & Hn & Htx). assert (n = next) as -> by congruence. assert (o = origin) as -> by congruence. done.
Qed.

(** *** The Espresso L1 origin *)

(** Consecutive L1 blocks, as the batch queue collects them. *)
Definition consecutive (l1Blocks : list L1BlockRef) : Prop :=
  Forall (fun b => is_u64 (l1_Number b)) l1Blocks /\
  forall i a b, l1Blocks !! i = Some a -> l1Blocks !! S i = Some b -> l1_Number b = l1_Number a + 1.

(** An L1 client answers with the block that was asked for. *)
Definition l1_consistent (l1 : L1Provider) : Prop :=
  forall n b, L1BlockRefByNumber l1 n = Ok b -> l1_Number b = n.

(** The suggestion after the confirmation depth is taken off. *)
Definition confirmed (sysCfg : SystemConfig) (suggested : Z) : Z :=
  if EspressoL1ConfDepth sysCfg <? suggested then suggested -₆₄ EspressoL1ConfDepth sysCfg else 0.

(** The branch that is forced to advance: the suggested block can be an
    origin, but it is too old. *)
Definition origin_too_old (sysCfg : SystemConfig) (parent : L2BlockRef) (suggested : Z) (l1 : L1Provider) : Prop :=
  exists b, L1BlockRefByNumber l1 (confirmed sysCfg suggested) = Ok b /\
    id_Number (l2_L1Origin parent) <= confirmed sysCfg suggested <= id_Number (l2_L1Origin parent) +₆₄ 1 /\
    l1_Time b +₆₄ MaxSequencerDrift cfg < l2_Time parent +₆₄ BlockTime cfg.

Lemma EspressoL1Origin_spec sysCfg parent suggested l1 o :
  l1_consistent l1 -> is_u64 (id_Number (l2_L1Origin parent)) ->
  EspressoL1Origin sysCfg parent suggested (L1BlockRefByNumber l1) = Ok o ->
  (l1_Number o = id_Number (l2_L1Origin parent) /\
     L1BlockRefByNumber l1 (id_Number (l2_L1Origin parent)) = Ok o) \/
  (l1_Number o = id_Number (l2_L1Origin parent) +₆₄ 1 /\
     (l1_Time o <= l2_Time parent +₆₄ BlockTime cfg \/ origin_too_old sysCfg parent suggested l1)).
Proof.
  intros Hl Hu. unfold EspressoL1Origin, origin_too_old. fold (confirmed sysCfg suggested).
  set (s := confirmed sysCfg suggested). set (p := id_Number (l2_L1Origin parent)).
  destruct (Z.ltb_spec (p +₆₄ 1) s).
  { destruct (L1BlockRefByNumber l1 (p +₆₄ 1)) as [nx|] eqn:En; cbn [map_err mbind res_bind]; [|done].
    destruct (Z.leb_spec (l1_Time nx) (l2_Time parent +₆₄ BlockTime cfg)).
    - intros [= <-]. right. split; [by apply Hl|by left].
    - intros Hp. left. split; [by apply Hl|done]. }
  destruct (Z.ltb_spec s p); [intros Hp; left; split; [by apply Hl|done]|].
  destruct (L1BlockRefByNumber l1 s) as [b|] eqn:Es; cbn [map_err mbind res_bind]; [|done].
  destruct (Z.ltb_spec (l1_Time b +₆₄ MaxSequencerDrift cfg) (l2_Time parent +₆₄ BlockTime cfg)).
  { intros Hn. right. split; [by apply Hl|]. right. by exists b. }
  destruct (Z.ltb_spec (l2_Time parent +₆₄ BlockTime cfg) (l1_Time b)).
  { intros Hp. left. split; [by apply Hl|done]. }
  intros [= <-]. apply Hl in Es as Hn. destruct (decide (s = p)) as [E1|].
  - left. rewrite Hn. split; [done|]. by rewrite <- E1.
  - right. split; [|by left]. rewrite Hn. fold p in Hu. ulia.
Qed.

(** The L1 origin chosen from an Espresso suggestion is the origin of the
    parent or the L1 block right after it, and when it advances it is not
    newer than the L2 block, except in the one branch that is forced to
    advance because the suggested origin has become too old. *)
Lemma espresso_origin_adjacent (sysCfg : SystemConfig) (parent : L2BlockRef) (suggested : Z) (l1 : L1Provider)
  (o : L1BlockRef) (Hl1 : l1_consistent l1) (Hp : is_u64 (id_Number (l2_L1Origin parent)))
  (Hok : EspressoL1Origin sysCfg parent suggested (L1BlockRefByNumber l1) = Ok o) :
  (l1_Number o = id_Number (l2_L1Origin parent) /\
     L1BlockRefByNumber l1 (id_Number (l2_L1Origin parent)) = Ok o) \/
  (l1_Number o = id_Number (l2_L1Origin parent) +₆₄ 1 /\
     (l1_Time o <= l2_Time parent +₆₄ BlockTime cfg \/ origin_too_old sysCfg parent suggested l1)).
Proof. by apply (EspressoL1Origin_spec sysCfg parent suggested). Qed.

Lemma too_old_advances sysCfg parent suggested l1 : origin_too_old sysCfg parent suggested l1 ->
  EspressoL1Origin sysCfg parent suggested (L1BlockRefByNumber l1) = L1BlockRefByNumber l1 (id_Number (l2_L1Origin parent) +₆₄ 1).
Proof.
  intros (b & Hb & Hr & Ht). unfold EspressoL1Origin. fold (confirmed sysCfg suggested).
  destruct (Z.ltb_spec (id_Number (l2_L1Origin parent) +₆₄ 1) (confirmed sysCfg suggested)); [lia|].
  destruct (Z.ltb_spec (confirmed sysCfg suggested) (id_Number (l2_L1Origin parent))); [lia|].
  rewrite Hb. cbn [map_err mbind res_bind].
  destruct (Z.ltb_spec (l1_Time b +₆₄ MaxSequencerDrift cfg) (l2_Time parent +₆₄ BlockTime cfg)); [done|lia].
Qed.

(** When the origin is too old and the next L1 block is still in the
    future of the L2 block (a gap in L1 longer than the sequencer drift), the
    origin the Espresso rules insist on is one the timestamp rule refuses: no
    batch whatever is accepted on that parent with that suggestion. *)
Lemma espresso_gap_blocks_batches (sysCfg : SystemConfig) (l1Blocks : list L1BlockRef) (head : L2BlockRef)
  (b : SingularBatch) (incl : L1BlockRef) (l1 : L1Provider) (jst : L2BatchJustification) (next : Header) (nextL1 : L1BlockRef)
  (Hmode : Espresso sysCfg = true) (Hjst : sb_Justification b = Some jst) (Hnext : jst_Next jst = Some next)
  (Hold : origin_too_old sysCfg head (hd_L1Head next) l1)
  (HnextL1 : L1BlockRefByNumber l1 (id_Number (l2_L1Origin head) +₆₄ 1) = Ok nextL1)
  (Hfuture : l2_Time head +₆₄ BlockTime cfg < l1_Time nextL1)
  (Hcons : consecutive l1Blocks)
  (Hblocks : forall o, o ∈ l1Blocks -> l1_Number o = l1_Number nextL1 -> o = nextL1) :
  checkSingularBatch sysCfg l1Blocks head b incl l1 <> Ok BatchAccept.
Proof.
  intros Ha. apply checkSingularBatch_accept in Ha as [(Hts & _ & _ & _ & o & Ho & _ & Htime & _) He].
  apply CheckBatchEspresso_accept in He as (j & n & f & c & o' & Hj & Hn & _ & _ & _ & _ & _ & Horig & Hnum & _); [|done].
  assert (j = jst) as -> by congruence. assert (n = next) as -> by congruence.
  rewrite (too_old_advances _ _ _ _ Hold), HnextL1 in Horig. apply Ok_inj in Horig. subst o'.
  rewrite (Hblocks o) in Htime; [lia| |].
  - destruct Ho as [e l -> _|e nx l -> _ _]; set_solver.
  - rewrite Hnum. destruct Ho as [e l -> ->|e nx l -> _ ->]; [done|].
    destruct Hcons as [Hu Hc]. rewrite (Hc 0%nat e nx) by done. apply Forall_cons_1 in Hu as [Hu Hu'].
    apply Forall_cons_1 in Hu' as [Hu' _]. rewrite (Hc 0%nat e nx) in Hu' by done. ulia.
Qed.

(** *** Span batches *)

Lemma find_origin_some n i l j b : find_origin n i l = Some (j, b) ->
  (i <= j)%nat /\ l !! (j - i)%nat = Some b /\ l1_Number b = n.
Proof.
  revert i. induction l as [|a l IH]; intros i; cbn [find_origin]; [done|].
  destruct (Z.eqb_spec (l1_Number a) n); [intros [= <- <-]; by rewrite Nat.sub_diag|].
  intros H. apply IH in H as (H1 & H2 & H3). split; [lia|]. split; [|done].
  by replace (j - i)%nat with (S (j - S i)) by lia.
Qed.

Lemma find_origin_drop n i l j b : find_origin n i (drop i l) = Some (j, b) ->
  (i <= j)%nat /\ l !! j = Some b /\ l1_Number b = n.
Proof.
  intros H. apply find_origin_some in H as (H1 & H2 & H3). rewrite lookup_drop in H2.
  by replace (i + (j - i))%nat with j in H2 by lia.
Qed.

Lemma find_origin_ex n i l k b : l !! k = Some b -> l1_Number b = n -> exists j b', find_origin n i l = Some (j, b').
Proof.
  revert i k. induction l as [|a l IH]; intros i k Hk Hb; [done|]. cbn [find_origin].
  destruct (Z.eqb_spec (l1_Number a) n); [by eexists _, _|].
  destruct k as [|k]; [cbn in Hk; congruence|]. by apply (IH (S i) k).
Qed.

Lemma consecutive_nth l i j a b : consecutive l -> l !! i = Some a -> l !! j = Some b ->
  l1_Number b - l1_Number a = Z.of_nat j - Z.of_nat i.
Proof.
  intros [_ Hc].
  enough (H : forall k i a b, l !! i = Some a -> l !! (i + k)%nat = Some b -> l1_Number b = l1_Number a + Z.of_nat k).
  { intros Ha Hb. destruct (decide (i <= j)%nat).
    - rewrite (H (j - i)%nat i a b); [lia|done|by replace (i + (j - i))%nat with j by lia].
    - rewrite (H (i - j)%nat j b a); [lia|done|by replace (j + (i - j))%nat with i by lia]. }
  intros k. induction k as [|k IH]; intros i' a' b' Ha Hb.
  - rewrite Nat.add_0_r in Hb. simplify_eq. lia.
  - destruct (l !! (i' + k)%nat) as [c|] eqn:Ec; cycle 1.
    { apply lookup_ge_None in Ec. apply lookup_lt_Some in Hb. lia. }
    rewrite (Hc (i' + k)%nat c b'); [|done|by rewrite <- Nat.add_succ_r].
    rewrite (IH i' a' c) by done. lia.
Qed.

(** Epochs of consecutive blocks of a span: the same, or the next one. *)
Fixpoint epoch_steps (els : list spanBatchElement) : Prop :=
  match els with
  | a :: (b :: _) as rest =>
      (el_EpochNum b = el_EpochNum a \/ el_EpochNum b = el_EpochNum a + 1) /\ epoch_steps rest
  | _ => True
  end.

Lemma epoch_steps_last els a z : epoch_steps (a :: els) -> last (a :: els) = Some z -> el_EpochNum a <= el_EpochNum z.
Proof.
  revert a. induction els as [|b els IH]; intros a Hs Hz; [cbn in Hz; simplify_eq; lia|].
  destruct Hs as [Hab Hs]. specialize (IH b Hs Hz). lia.
Qed.

(** What an element turns into. *)
Definition singular_of (l1Blocks : list L1BlockRef) (el : spanBatchElement) (sb : SingularBatch) : Prop :=
  exists o, o ∈ l1Blocks /\ l1_Number o = el_EpochNum el /\ l1_Time o <= el_Timestamp el /\
    batch_txs_ok (el_Transactions el) = true /\
    sb = {| sb_ParentHash := zeros 32; sb_EpochNum := el_EpochNum el; sb_EpochHash := l1_Hash o;
            sb_Timestamp := el_Timestamp el; sb_Transactions := el_Transactions el; sb_Justification := None |}.

Lemma check_span_block_ok l1Blocks head prevEpoch adv idx el j o idx' :
  l2_Time head < el_Timestamp el ->
  find_origin (el_EpochNum el) idx (drop idx l1Blocks) = Some (j, o) ->
  check_span_block l1Blocks head prevEpoch adv idx el = inr idx' ->
  idx' = j /\ l1_Time o <= el_Timestamp el /\ batch_txs_ok (el_Transactions el) = true.
Proof.
  intros Ht Hf. unfold check_span_block. rewrite Hf.
  destruct (Z.leb_spec (el_Timestamp el) (l2_Time head)); [lia|].
  destruct (Z.ltb_spec (el_Timestamp el) (l1_Time o)); [done|].
  match goal with |- context [match ?d with Some v => inl v | None => _ end] => destruct d; [done|] end.
  destruct (batch_txs_ok (el_Transactions el)); [|done]. by intros [= <-].
Qed.

(** The loop over the blocks accepts, so the conversion succeeds. *)
Lemma span_blocks_singular l1Blocks head adv els : consecutive l1Blocks ->
  forall prevEpoch idx first z,
  check_span_blocks l1Blocks head prevEpoch adv idx els = None ->
  epoch_steps els -> l1Blocks !! idx = Some first ->
  Forall (fun el => l2_Time head < el_Timestamp el -> l1_Number first <= el_EpochNum el) els ->
  last els = Some z -> (exists b, b ∈ l1Blocks /\ l1_Number b = el_EpochNum z) ->
  exists bs, singular_loop l1Blocks head idx els = Ok bs /\
    Forall2 (singular_of l1Blocks) (filter (fun el => l2_Time head < el_Timestamp el) els) bs.
Proof.
  intros Hcons. induction els as [|el els IH]; intros prevEpoch idx first z Hc Hs Hidx Hlo Hz Hend; [done|].
  cbn [check_span_blocks] in Hc.
  destruct (check_span_block l1Blocks head prevEpoch adv idx el) as [v|idx'] eqn:Eb; [done|].
  apply Forall_cons_1 in Hlo as [Hel Hlo]. cbn [singular_loop]. rewrite filter_cons.
  assert (Hs' : epoch_steps els) by (by destruct els; [|destruct Hs]).
  destruct (Z.leb_spec (el_Timestamp el) (l2_Time head)).
  { rewrite decide_False by lia. unfold check_span_block in Eb.
    destruct (Z.leb_spec (el_Timestamp el) (l2_Time head)); [|lia]. injection Eb as <-.
    destruct els as [|e2 els]; [by exists []; split; [|constructor]|]. eapply IH; try done. }
  rewrite decide_True by lia. specialize (Hel ltac:(lia)).
  destruct Hend as (be & Hbe & Hne). apply list_elem_of_lookup in Hbe as [ke Hke].
  pose proof (epoch_steps_last _ _ _ Hs Hz) as Hle.
  pose proof (consecutive_nth _ _ _ _ _ Hcons Hidx Hke).
  destruct (lookup_lt_is_Some_2 l1Blocks (idx + Z.to_nat (el_EpochNum el - l1_Number first))) as [o Ho].
  { apply lookup_lt_Some in Hke. lia. }
  pose proof (consecutive_nth _ _ _ _ _ Hcons Hidx Ho).
  destruct (find_origin_ex (el_EpochNum el) idx (drop idx l1Blocks) (Z.to_nat (el_EpochNum el - l1_Number first)) o)
    as (j & b & Hf); [by rewrite lookup_drop|lia|].
  destruct (check_span_block_ok l1Blocks head prevEpoch adv idx el j b idx' ltac:(lia) Hf Eb) as (-> & Htime & Htx).
  apply find_origin_drop in Hf as Hf'. destruct Hf' as (Hj & Hlj & Hnj). rewrite Hf.
  assert (Hsing : singular_of l1Blocks el {| sb_ParentHash := zeros 32; sb_EpochNum := el_EpochNum el; sb_EpochHash := l1_Hash b;
            sb_Timestamp := el_Timestamp el; sb_Transactions := el_Transactions el; sb_Justification := None |}).
  { exists b. split; [by eapply list_elem_of_lookup_2|]. done. }
  destruct els as [|e2 els]; [by eexists; split; [reflexivity|]; constructor; [|constructor]|].
  destruct (IH (Some (el_EpochNum el)) j b z) as (bs & Hbs & Hall); try done.
  - rewrite Hnj. clear - Hs. revert el Hs. generalize (e2 :: els). intros l. induction l as [|y l IHl]; intros el Hs; [constructor|].
    destruct Hs as [Hy Hs]. constructor; [lia|]. eapply Forall_impl; [by apply IHl|]. cbn. intros x Hx Hx2. specialize (Hx Hx2). lia.
  - exists be. split; [by eapply list_elem_of_lookup_2|done].
  - rewrite Hbs. cbn [mbind res_bind]. eexists. split; [reflexivity|]. by constructor.
Qed.

Lemma index_last {A} (l : list A) a : index l (Z.of_nat (length l) - 1) = Ok a -> last l = Some a.
Proof.
  unfold index. destruct l as [|x l]; [done|].
  destruct (Z.ltb_spec (Z.of_nat (length (x :: l)) - 1) 0); [done|].
  rewrite last_lookup. replace (Z.to_nat _) with (pred (length (x :: l))) by (cbn [length]; lia).
  destruct (_ !! _); [|done]. by intros [= ->].
Qed.

Lemma check_end_origin_ex batch n l1Blocks : check_end_origin batch n l1Blocks = Some true ->
  exists b, b ∈ l1Blocks /\ l1_Number b = n.
Proof.
  induction l1Blocks as [|b l IH]; cbn [check_end_origin]; [done|].
  destruct (Z.eqb_spec (l1_Number b) n); [exists b; split; [apply elem_of_cons; by left|done]|].
  intros H. destruct (IH H) as (b' & Hb' & ?). exists b'. split; [apply elem_of_cons; by right|done].
Qed.

(** What the verdict [BatchAccept] on a span batch rests on. *)
Lemma checkSpanBatch_accept l1Blocks head batch incl l2 :
  checkSpanBatch l1Blocks head batch incl l2 = Ok BatchAccept ->
  exists first z parentNum parent,
    list.head (batches batch) = Some first /\ last (batches batch) = Some z /\
    l2_Time head +₆₄ BlockTime cfg <= el_Timestamp z /\
    span_parent l2 head (el_Timestamp first) = Ok (inr (parentNum, parent)) /\
    CheckParentHash batch (l2_Hash parent) = true /\
    check_end_origin batch (el_EpochNum z) l1Blocks = Some true /\
    id_Number (l2_L1Origin parent) <= el_EpochNum first <= id_Number (l2_L1Origin parent) +₆₄ 1 /\
    check_span_blocks l1Blocks head None (el_EpochNum first =? id_Number (l2_L1Origin parent) +₆₄ 1) 0 (batches batch) = None.
Proof.
  unfold checkSpanBatch. destruct l1Blocks as [|epoch later]; [done|].
  unfold GetTimestamp, GetBlockTimestamp, GetStartEpochNum, GetBlockEpochNum, GetBlockCount.
  destruct (batches batch) as [|first els] eqn:Eb; [done|]. rewrite <- Eb.
  assert (H0 : index (batches batch) 0 = Ok first) by (by rewrite Eb). rewrite H0.
  destruct (index (batches batch) (Z.of_nat (length (batches batch)) - 1)) as [z|] eqn:Ez; cycle 1.
  { cbn [fmap res_fmap mbind res_bind]. by destruct (_ <? _). }
  apply index_last in Ez. cbn [fmap res_fmap mbind res_bind].
  destruct (Z.ltb_spec (l2_Time head +₆₄ BlockTime cfg) (el_Timestamp first)); [done|].
  destruct (Z.ltb_spec (el_Timestamp z) (l2_Time head +₆₄ BlockTime cfg)); [done|].
  destruct (span_parent l2 head (el_Timestamp first)) as [[v|[pn parent]]|] eqn:Ep; cbn [mbind res_bind].
  1: { intros [= ->]. unfold span_parent in Ep. exfalso. revert Ep. repeat (case_match; try congruence). }
  2: done.
  destruct (CheckParentHash batch (l2_Hash parent)) eqn:Ecp; cbn [negb]; [|done].
  destruct (_ <? l1_Number incl); [done|].
  destruct (Z.ltb_spec (id_Number (l2_L1Origin parent) +₆₄ 1) (el_EpochNum first)); [done|].
  destruct (check_end_origin batch (el_EpochNum z) (epoch :: later)) as [[|]|] eqn:Ee; try done.
  destruct (Z.ltb_spec (el_EpochNum first) (id_Number (l2_L1Origin parent))); [done|].
  destruct (check_span_blocks _ _ _ _ _ _) as [v|] eqn:Ecs; cycle 1.
  { intros _. exists first, z, pn, parent. rewrite Eb at 1. repeat split; done || lia. }
  intros [= ->]. exfalso. revert Ecs. clear. generalize (batches batch) (@None Z) 0%nat.
  intros els. induction els as [|el els IH]; intros p i; [done|]. cbn [check_span_blocks].
  destruct (check_span_block _ _ _ _ _ _) as [v|i'] eqn:E1; [|apply IH].
  intros [= ->]. revert E1. unfold check_span_block. repeat (case_match; try congruence).
Qed.

(** An accepted span batch can always be unrolled: with consecutive L1
    blocks that start no later than the first new block and epochs that grow
    by at most one, [GetSingularBatches] succeeds, yields at least one block,
    and yields precisely the blocks after the safe head, each with the hash of
    the L1 block of its epoch, no earlier than that L1 block, and without
    empty or deposit transactions. *)
Lemma accepted_span_unrolls (l1Blocks : list L1BlockRef) (head : L2BlockRef) (batch : SpanBatch)
  (incl : L1BlockRef) (l2 : SafeBlockFetcher)
  (Hnext : l2_Time head < l2_Time head +₆₄ BlockTime cfg)
  (Hcons : consecutive l1Blocks) (Hsteps : epoch_steps (batches batch))
  (Hlow : forall first, list.head l1Blocks = Some first ->
     Forall (fun el => l2_Time head < el_Timestamp el -> l1_Number first <= el_EpochNum el) (batches batch))
  (Haccept : checkSpanBatch l1Blocks head batch incl l2 = Ok BatchAccept) :
  exists bs, GetSingularBatches batch l1Blocks head = Ok bs /\ bs <> [] /\
    Forall2 (singular_of l1Blocks) (filter (fun el => l2_Time head < el_Timestamp el) (batches batch)) bs.
Proof.
  apply checkSpanBatch_accept in Haccept as (first & z & pn & parent & _ & Hz & Hts & _ & _ & Hend & _ & Hblocks).
  apply check_end_origin_ex in Hend as Hex. destruct l1Blocks as [|l1 later]; [done|].
  destruct (span_blocks_singular _ _ _ _ Hcons _ _ l1 z Hblocks Hsteps eq_refl (Hlow l1 eq_refl) Hz Hex) as (bs & Hbs & Hall).
  exists bs. split; [done|]. split; [|done]. intros ->. apply Forall2_nil_inv_r in Hall.
  assert (Hin : z ∈ filter (fun el => l2_Time head < el_Timestamp el) (batches batch)).
  { apply list_elem_of_filter. split; [lia|]. by apply last_Some_elem_of. }
  rewrite Hall in Hin. by apply not_elem_of_nil in Hin.
Qed.

Lemma singular_span_block sysCfg l1Blocks head b o : Espresso sysCfg = false ->
  l2_Time head < sb_Timestamp b -> consecutive l1Blocks ->
  option_map l1_Number (list.head l1Blocks) = Some (id_Number (l2_L1Origin head)) ->
  batch_origin l1Blocks (sb_EpochNum b) o -> l1_Time o <= sb_Timestamp b ->
  drift_ok (Espresso sysCfg) l1Blocks o (sb_Timestamp b) (sb_Transactions b) ->
  batch_txs_ok (sb_Transactions b) = true ->
  check_span_blocks l1Blocks head None (sb_EpochNum b =? id_Number (l2_L1Origin head) +₆₄ 1) 0
    [singularBatchToElement b] = None.
Proof.
  intros Hmode Ht [Hu Hc] Hhead Ho Htime Hdrift Htx. cbn [check_span_blocks]. unfold check_span_block.
  cbn [singularBatchToElement el_EpochNum el_Timestamp el_Transactions].
  destruct (Z.leb_spec (sb_Timestamp b) (l2_Time head)); [lia|]. rewrite drop_0.
  assert (Hf : exists j, find_origin (sb_EpochNum b) 0 l1Blocks = Some (j, o) /\
    (l1Blocks !! S j = l1Blocks !! 1%nat \/ (sb_EpochNum b =? id_Number (l2_L1Origin head) +₆₄ 1) = true)).
  { destruct Ho as [e l -> ->|e nx l -> Hlt Hn]; cbn [find_origin] in *.
    - rewrite Z.eqb_refl. exists 0%nat. split; [done|by left].
    - destruct (Z.eqb_spec (l1_Number e) (sb_EpochNum b)); [lia|].
      rewrite (Hc 0%nat e nx) by done. cbn in Hhead. injection Hhead as Hhead.
      assert (Hnx : l1_Number e + 1 = sb_EpochNum b).
      { rewrite Hn in *. apply Forall_cons_1 in Hu as [Hu _]. ulia. }
      rewrite Hnx, Z.eqb_refl. exists 1%nat. split; [done|]. right. apply Z.eqb_eq. congruence. }
  destruct Hf as (j & -> & Hj).
  destruct (Z.ltb_spec (sb_Timestamp b) (l1_Time o)); [lia|].
  destruct (Z.ltb_spec (l1_Time o +₆₄ MaxSequencerDrift cfg) (sb_Timestamp b)) as [Hlate|]; [|by rewrite Htx].
  destruct Hdrift as [?|(Hempty & Hd)]; [lia|]. rewrite Hempty.
  destruct (sb_EpochNum b =? id_Number (l2_L1Origin head) +₆₄ 1) eqn:Eadv; cbn [negb]; [done|].
  destruct Hj as [Hj|]; [|done]. rewrite Hj. destruct Hd as [Hne|(nx & Hnx & [?|Hlt])]; [|congruence|].
  - destruct Ho as [e l -> Hn|e nx l -> Hlt Hn]; [done|]. exfalso.
    cbn in Hhead. injection Hhead as Hhead. apply Z.eqb_neq in Eadv. congruence.
  - rewrite Hnx. destruct (Z.leb_spec (l1_Time nx) (sb_Timestamp b)); [lia|done].
Qed.

Lemma batch_origin_number l1Blocks n o p : consecutive l1Blocks ->
  option_map l1_Number (list.head l1Blocks) = Some p -> 0 <= p -> p + 1 < 2 ^ 64 -> batch_origin l1Blocks n o ->
  l1_Number o = n /\ p <= n <= p +₆₄ 1.
Proof.
  intros [Hu Hc] Hhead Hp Hp' Ho. rewrite add64_small by (unfold is_u64; lia).
  destruct Ho as [e l -> Hn|e nx l -> Hlt Hn]; cbn in Hhead; injection Hhead as Hhead.
  - split; [done|lia].
  - rewrite (Hc 0%nat e nx) by done. rewrite Hhead in *. rewrite add64_small in Hn by (unfold is_u64; lia). lia.
Qed.

Lemma check_end_origin_at batch l1Blocks n o : consecutive l1Blocks -> o ∈ l1Blocks -> l1_Number o = n ->
  CheckOriginHash batch (l1_Hash o) = true -> check_end_origin batch n l1Blocks = Some true.
Proof.
  intros Hc Hin Hn Hh.
  enough (H : forall l, (forall b, b ∈ l -> l1_Number b = n -> b = o) -> o ∈ l -> check_end_origin batch n l = Some true).
  { apply H; [|done]. intros b Hb Hbn. apply list_elem_of_lookup in Hin as [i Hi]. apply list_elem_of_lookup in Hb as [j Hj].
    pose proof (consecutive_nth _ _ _ _ _ Hc Hi Hj). assert (i = j) by lia. congruence. }
  intros l. induction l as [|b l IH]; intros Hu Ho; [by apply not_elem_of_nil in Ho|]. cbn [check_end_origin].
  destruct (Z.eqb_spec (l1_Number b) n).
  - rewrite (Hu b) by (done || apply elem_of_cons; by left). by rewrite Hh.
  - apply elem_of_cons in Ho as [->|Ho]; [done|]. apply IH; [|done]. intros b' Hb'. apply Hu. apply elem_of_cons. by right.
Qed.

(** Span batches do not change what can be batched: outside Espresso
    mode, a singular batch that is accepted on the safe head is also accepted
    as a span of one block. *)
Lemma singular_accept_as_span (sysCfg : SystemConfig) (l1Blocks : list L1BlockRef) (head : L2BlockRef)
  (b : SingularBatch) (incl : L1BlockRef) (l1 : L1Provider) (l2 : SafeBlockFetcher)
  (Hmode : Espresso sysCfg = false) (Hnext : l2_Time head < l2_Time head +₆₄ BlockTime cfg)
  (Hcons : consecutive l1Blocks)
  (Horigin : 0 <= id_Number (l2_L1Origin head) /\ id_Number (l2_L1Origin head) + 1 < 2 ^ 64)
  (Hhead : option_map l1_Number (list.head l1Blocks) = Some (id_Number (l2_L1Origin head)))
  (Haccept : checkSingularBatch sysCfg l1Blocks head b incl l1 = Ok BatchAccept) :
  checkSpanBatch l1Blocks head (NewSpanBatch [b]) incl l2 = Ok BatchAccept.
Proof.
  apply checkSingularBatch_accept in Haccept as [(Hts & Hp & Hw & Htx & o & Ho & Hh & Htime & Hdrift) _].
  pose proof (singular_span_block sysCfg l1Blocks head b o Hmode ltac:(lia) Hcons Hhead Ho Htime Hdrift Htx) as Hblocks.
  destruct (batch_origin_number _ _ _ _ Hcons Hhead (proj1 Horigin) (proj2 Horigin) Ho) as [Hno Hrange].
  assert (Hend : check_end_origin (NewSpanBatch [b]) (sb_EpochNum b) l1Blocks = Some true).
  { apply (check_end_origin_at _ _ _ o Hcons); [|done|].
    - destruct Ho as [e l -> _|e nx l -> _ _]; set_solver.
    - apply bool_decide_eq_true_2. cbn. by rewrite Hh. }
  unfold checkSpanBatch, GetTimestamp, GetBlockTimestamp, GetStartEpochNum, GetBlockEpochNum.
  destruct l1Blocks as [|epoch later]; [done|].
  change (index (batches (NewSpanBatch [b])) 0) with (Ok (singularBatchToElement b)).
  change (index (batches (NewSpanBatch [b])) (GetBlockCount (NewSpanBatch [b]) - 1)) with (Ok (singularBatchToElement b)).
  cbn [fmap res_fmap mbind res_bind]. unfold span_parent.
  change (el_Timestamp (singularBatchToElement b)) with (sb_Timestamp b).
  change (el_EpochNum (singularBatchToElement b)) with (sb_EpochNum b).
  rewrite Hts, Z.ltb_irrefl. cbn [mbind res_bind].
  assert (Hcp : CheckParentHash (NewSpanBatch [b]) (l2_Hash head) = true)
    by (apply bool_decide_eq_true_2; cbn; by rewrite Hp). rewrite Hcp. cbn [negb].
  destruct (Z.ltb_spec (sb_EpochNum b +₆₄ SeqWindowSize cfg) (l1_Number incl)); [lia|].
  destruct (Z.ltb_spec (id_Number (l2_L1Origin head) +₆₄ 1) (sb_EpochNum b)); [lia|].
  rewrite Hend. destruct (Z.ltb_spec (sb_EpochNum b) (id_Number (l2_L1Origin head))); [lia|].
  change (batches (NewSpanBatch [b])) with [singularBatchToElement b]. by rewrite Hblocks.
Qed.
End Batches.

(** ** Witnesses *)

#[local] Existing Instance ex_lib.

Definition ex_l1_at (n t : Z) : L1BlockRef :=
  {| l1_Hash := hash_of n; l1_Number := n; l1_ParentHash := hash_of (n - 1); l1_Time := t |}.

Definition ex_l1_chain (n : Z) : res L1BlockRef :=
  if n =? 6 then Ok (ex_l1_at 6 100) else if n =? 7 then Ok (ex_l1_at 7 108) else Err NotFound.

Definition ex_provider (chain : Z -> res L1BlockRef) : L1Provider :=
  {| L1BlockRefByNumber := chain; VerifyCommitments := fun first comms => Ok (first =? 4) |}.

Definition ex_head : L2BlockRef :=
  {| l2_Hash := hash_of 20; l2_Number := 3; l2_ParentHash := hash_of 19; l2_Time := 106;
     l2_L1Origin := mkBlockID (hash_of 6) 6; l2_SequenceNumber := 2 |}.

Definition ex_window : L2BatchJustification :=
  {| jst_Blocks := [{| bj_Header := (5, 108, 6); bj_Proof := [[200]] |}];
     jst_Prev := Some (4, 107, 6); jst_Next := Some (6, 110, 7) |}.

Definition ex_espresso_batch : SingularBatch :=
  {| sb_ParentHash := hash_of 20; sb_EpochNum := 6; sb_EpochHash := hash_of 6; sb_Timestamp := 108;
     sb_Transactions := [[200]]; sb_Justification := Some ex_window |}.

Definition ex_espresso_cfg : SystemConfig := set_EspressoL1ConfDepth 1 (set_Espresso true ex_sysCfg).

Lemma espresso_origin_adjacent_witness :
  exists o, EspressoL1Origin ex_cfg ex_espresso_cfg ex_head 7 ex_l1_chain = Ok o /\
    (l1_Number o = 6 \/ l1_Number o = 6 +₆₄ 1).
Proof.
  exists (ex_l1_at 6 100). split; [vm_compute; reflexivity|].
  destruct (espresso_origin_adjacent ex_cfg ex_espresso_cfg ex_head 7 (ex_provider ex_l1_chain) (ex_l1_at 6 100))
    as [[? _]|[? _]]; [|vm_decide|vm_compute; reflexivity|by left|by right].
  intros n b. cbn. unfold ex_l1_chain. destruct (Z.eqb_spec n 6) as [->|]; [by intros [= <-]|].
  destruct (Z.eqb_spec n 7) as [->|]; [by intros [= <-]|done].
Defined.

(** An L1 with a gap of a thousand seconds, and an L2 in the middle of it. *)
Definition ex_gap_chain (n : Z) : res L1BlockRef :=
  if n =? 6 then Ok (ex_l1_at 6 100) else if n =? 7 then Ok (ex_l1_at 7 1100) else Err NotFound.

Definition ex_gap_head : L2BlockRef :=
  {| l2_Hash := hash_of 20; l2_Number := 450; l2_ParentHash := hash_of 19; l2_Time := 1000;
     l2_L1Origin := mkBlockID (hash_of 6) 6; l2_SequenceNumber := 2 |}.

Lemma espresso_gap_blocks_batches_witness :
  checkSingularBatch ex_cfg ex_espresso_cfg [ex_l1_at 6 100; ex_l1_at 7 1100] ex_gap_head ex_espresso_batch
    (ex_l1_at 7 1100) (ex_provider ex_gap_chain) <> Ok BatchAccept.
Proof.
  apply (espresso_gap_blocks_batches ex_cfg ex_espresso_cfg _ ex_gap_head ex_espresso_batch _ _ ex_window (6, 110, 7)
    (ex_l1_at 7 1100)); try reflexivity.
  - exists (ex_l1_at 6 100). split; [reflexivity|]. split; [vm_compute; split; discriminate|vm_compute; reflexivity].
  - split; [vm_decide|]. intros i a b Ha Hb. destruct i as [|[|i]]; cbn in Ha, Hb; simplify_eq. reflexivity.
  - intros o Ho Hn. do 2 (apply elem_of_cons in Ho as [->|Ho]; [done|]). by apply not_elem_of_nil in Ho.
Defined.

Definition ex_plain_batch (epoch ts : Z) (txs : list bytes) : SingularBatch :=
  {| sb_ParentHash := hash_of 20; sb_EpochNum := epoch; sb_EpochHash := hash_of epoch; sb_Timestamp := ts;
     sb_Transactions := txs; sb_Justification := None |}.

Definition ex_span : SpanBatch := NewSpanBatch [ex_plain_batch 6 108 []; ex_plain_batch 7 110 [[200]]].

Definition ex_safe_fetcher : SafeBlockFetcher :=
  {| L2BlockRefByNumber := fun _ => Err NotFound; PayloadByNumber := fun _ => Err NotFound;
     L2SystemConfigByHash := fun _ => Ok ex_sysCfg |}.

Lemma ex_l1_consecutive : consecutive [ex_l1_at 6 100; ex_l1_at 7 108].
Proof.
  split; [vm_decide|]. intros i a b Ha Hb. destruct i as [|[|i]]; cbn in Ha, Hb; simplify_eq. reflexivity.
Qed.

Lemma accepted_span_unrolls_witness :
  exists bs, GetSingularBatches ex_span [ex_l1_at 6 100; ex_l1_at 7 108] ex_head = Ok bs /\ bs <> [].
Proof.
  destruct (accepted_span_unrolls ex_keccak ex_rlp_decode ex_decode_tx ex_cfg [ex_l1_at 6 100; ex_l1_at 7 108]
    ex_head ex_span (ex_l1_at 7 108) ex_safe_fetcher) as (bs & H1 & H2 & _);
    [vm_compute; reflexivity|apply ex_l1_consecutive|repeat split; by right|
     |vm_compute; reflexivity|by exists bs].
  intros first [= <-]. repeat constructor; intros _; vm_compute; discriminate.
Defined.

Lemma singular_accept_as_span_witness :
  checkSpanBatch ex_keccak ex_rlp_decode ex_decode_tx ex_cfg [ex_l1_at 6 100; ex_l1_at 7 108] ex_head
    (NewSpanBatch [ex_plain_batch 7 108 [[200]]]) (ex_l1_at 7 108) ex_safe_fetcher = Ok BatchAccept.
Proof.
  apply (singular_accept_as_span ex_keccak ex_rlp_decode ex_decode_tx ex_cfg ex_sysCfg _ _ _ _ (ex_provider ex_l1_chain));
    [reflexivity|vm_compute; reflexivity|apply ex_l1_consecutive|split; vm_decide|reflexivity|vm_compute; reflexivity].
Defined.
