(* ===== verification/EspressoRules.v ===== *)
(** * The rules of a singular batch

    What makes the verifier accept a singular batch ([checkSingularBatch] and
    [CheckBatchEspresso] of [batches.go], modelled in [Batches.v]), with the
    commitments read from the HotShot contract on L1 as
    [espresso_provider.go] and [op-service/sources/l1_client.go] do, and what
    this says about the Espresso ledger that the contract records. *)

From S2P Require Import Prelude Eth SystemConfig Espresso L1Info Batches.

(** ** The commitments of the contract *)

Section Provider.
Context `{E : EspressoLib}.

(** The generated binding of the contract, bound to an address (binding it
    only parses a constant ABI): one answer for each call. *)
Record HotshotCaller := mkHotshot {
  hs_BlockHeight : res Z;
  hs_Commitments : Z -> res Z;
}.

Fixpoint read_commitments (hotshot : HotshotCaller) (firstBlockHeight : Z) (i n : nat) : res (list Commitment) :=
  match n with
  | O => Ok []
  | S n =>
      commAsInt ← hs_Commitments hotshot (i64 (firstBlockHeight +₆₄ Z.of_nat i));
      if commAsInt =? 0 then Err (Errorf "read 0 for commitment: this indicates an L1 reorg")
      else
        comm ← CommitmentFromUint256 commAsInt;
        comms ← read_commitments hotshot firstBlockHeight (S i) n;
        Ok (comm :: comms)
  end.

Definition L1HotShotCommitmentsFromHeight (hotshot : HotshotCaller) (firstBlockHeight numHeaders : Z)
    : res (list Commitment) :=
  blockHeight ← hs_BlockHeight hotshot;
  if blockHeight <? i64 (firstBlockHeight +₆₄ numHeaders) then Err (Errorf "commitments are not available")
  else read_commitments hotshot firstBlockHeight 0 (Z.to_nat (i64 numHeaders)).

(** The loop that compares; the two lists have the same length there. *)
Fixpoint equal_commitments (comms fetchedComms : list Commitment) : bool :=
  match comms, fetchedComms with
  | comm :: comms, fetched :: fetchedComms =>
      if negb (Commitment_Equals comm fetched) then false else equal_commitments comms fetchedComms
  | _, _ => true
  end.

Definition EspressoProvider_VerifyCommitments (hotshot : HotshotCaller) (firstHeight : Z) (comms : list Commitment) : res bool :=
  fetchedComms ← L1HotShotCommitmentsFromHeight hotshot firstHeight (u64 (Z.of_nat (length comms)));
  if negb (Nat.eqb (length fetchedComms) (length comms)) then Err (Errorf "fetched commitments has a different length")
  else Ok (equal_commitments comms fetchedComms).

Definition EspressoProvider (hotshot : HotshotCaller) (byNumber : Z -> res L1BlockRef) : L1Provider :=
  {| L1BlockRefByNumber := byNumber; VerifyCommitments := EspressoProvider_VerifyCommitments hotshot |}.

(** The contract has these commitments from block [first] on. *)
Definition committed (hotshot : HotshotCaller) (first : Z) (comms : list Commitment) : Prop :=
  Z.of_nat (length comms) < 2 ^ 63 /\
  (exists height, hs_BlockHeight hotshot = Ok height /\ i64 (first +₆₄ Z.of_nat (length comms)) <= height) /\
  forall i c, comms !! i = Some c ->
    exists v, hs_Commitments hotshot (i64 (first +₆₄ Z.of_nat i)) = Ok v /\ v <> 0 /\ CommitmentFromUint256 v = Ok c.

Lemma i64_small z : 0 <= z < 2 ^ 63 -> i64 z = z.
Proof. unfold i64. intros. rewrite Z.mod_small; lia. Qed.

Lemma i64_nonneg z : is_u64 z -> 0 <= i64 z -> z < 2 ^ 63.
Proof. unfold i64, is_u64. intros. Z.to_euclidean_division_equations. lia. Qed.

Lemma equal_commitments_iff comms fetched : length comms = length fetched ->
  equal_commitments comms fetched = true <-> comms = fetched.
Proof.
  revert fetched. induction comms as [|c comms IH]; intros [|f fetched]; try done. cbn. intros [= Hl].
  pose proof (Commitment_Equals_iff c f) as Hc. destruct (Commitment_Equals c f); cbn [negb].
  - rewrite IH by done. split; [intros ->|by intros [= _ ?]]. f_equal. by apply Hc.
  - split; [done|]. intros [= ? _]. by apply Hc.
Qed.

Lemma read_commitments_ok hotshot first comms : forall i n,
  read_commitments hotshot first i n = Ok comms <->
  length comms = n /\ forall k c, comms !! k = Some c ->
    exists v, hs_Commitments hotshot (i64 (first +₆₄ Z.of_nat (i + k))) = Ok v /\ v <> 0 /\ CommitmentFromUint256 v = Ok c.
Proof.
  induction comms as [|c comms IH]; intros i n.
  - destruct n as [|n]; cbn; [split; [done|]; by split|]. split; [|by intros [? _]].
    destruct (hs_Commitments _ _) as [v|]; cbn [mbind res_bind]; [|done]. destruct (v =? 0); [done|].
    destruct (CommitmentFromUint256 v); cbn [mbind res_bind]; [|done]. by destruct (read_commitments _ _ _ _).
  - destruct n as [|n]; cbn [read_commitments length]; [split; [done|by intros [? _]]|]. split.
    + destruct (hs_Commitments _ _) as [v|] eqn:Ev; cbn [mbind res_bind]; [|done].
      destruct (Z.eqb_spec v 0) as [|Hv]; [done|].
      destruct (CommitmentFromUint256 v) as [c'|] eqn:Ec; cbn [mbind res_bind]; [|done].
      destruct (read_commitments hotshot first (S i) n) as [cs|] eqn:Er; cbn [mbind res_bind]; [|done].
      intros H. apply Ok_inj in H. injection H as -> ->. apply IH in Er as [Hl Hr]. split; [by f_equal|].
      intros [|k] c'; cbn [lookup list_lookup].
      * intros [= <-]. rewrite Nat.add_0_r. by exists v.
      * intros Hk. destruct (Hr _ _ Hk) as (w & Hw). exists w. by rewrite Nat.add_succ_r.
    + intros [[= Hl] Hr]. destruct (Hr 0%nat c eq_refl) as (v & Hv & Hz & Hc). rewrite Nat.add_0_r in Hv.
      rewrite Hv. cbn [mbind res_bind]. destruct (Z.eqb_spec v 0) as [|_]; [done|]. rewrite Hc. cbn [mbind res_bind].
      assert (read_commitments hotshot first (S i) n = Ok comms) as ->; [|done].
      apply IH. split; [done|]. intros k c' Hk. destruct (Hr (S k) c' Hk) as (w & Hw). exists w.
      by rewrite Nat.add_succ_r in Hw.
Qed.

Lemma VerifyCommitments_true hotshot first comms :
  EspressoProvider_VerifyCommitments hotshot first comms = Ok true <-> committed hotshot first comms.
Proof.
  unfold EspressoProvider_VerifyCommitments, L1HotShotCommitmentsFromHeight, committed.
  destruct (hs_BlockHeight hotshot) as [height|]; cbn [mbind res_bind]; [|split; [done|by intros (_ & (? & ? & _) & _)]].
  assert (Hadd : forall len, first +₆₄ u64 len = first +₆₄ len).
  { intros len. unfold add64, u64. by rewrite Zplus_mod_idemp_r. }
  rewrite Hadd. set (len := Z.of_nat (length comms)). destruct (Z.ltb_spec height (i64 (first +₆₄ len))).
  { split; [done|]. intros (_ & (h & [= <-] & ?) & _). lia. }
  destruct (Z.lt_ge_cases len (2 ^ 63)) as [Hlen|Hlen]; cycle 1.
  { split; [|intros [? _]; lia]. destruct (read_commitments _ _ _ _) as [fetched|] eqn:Er; cbn [mbind res_bind]; [|done].
    apply read_commitments_ok in Er as [Hl _]. destruct (Nat.eqb_spec (length fetched) (length comms)) as [Heq|]; cbn [negb]; [|done].
    exfalso. rewrite Heq in Hl. fold len in Hl. assert (Hn : len = Z.of_nat (Z.to_nat (i64 (u64 len)))) by (unfold len at 1; lia).
    assert (i64 (u64 len) < 2 ^ 63) by (unfold i64; Z.to_euclidean_division_equations; lia). lia. }
  assert (Hn : Z.to_nat (i64 (u64 len)) = length comms).
  { unfold u64. rewrite Z.mod_small by (unfold len; lia). rewrite i64_small by (unfold len; lia). unfold len. lia. }
  rewrite Hn. split.
  - destruct (read_commitments _ _ _ _) as [fetched|] eqn:Er; cbn [mbind res_bind]; [|done].
    apply read_commitments_ok in Er as [Hl Hr]. rewrite Hl, Nat.eqb_refl. cbn [negb]. intros Heq. apply Ok_inj in Heq.
    apply equal_commitments_iff in Heq as ->; [|done]. split; [done|]. split; [by exists height|]. exact Hr.
  - intros (_ & _ & Hr). assert (read_commitments hotshot first 0 (length comms) = Ok comms) as ->.
    { apply read_commitments_ok. by split. }
    cbn [mbind res_bind]. rewrite Nat.eqb_refl. cbn [negb]. f_equal. by apply equal_commitments_iff.
Qed.
End Provider.

(** ** The Espresso ledger *)

Section Ledger.
Context `{E : EspressoLib}.

(** Block [n] of the Espresso chain. *)
Variable ledger : Z -> Header.

(** The headers of the blocks from number [a] on, [n] of them. *)
Fixpoint segment (a : Z) (n : nat) : list Header :=
  match n with O => [] | S n => ledger a :: segment (a + 1) n end.

Definition block_before (a : Z) : option Header := if a =? 0 then None else Some (ledger (a - 1)).

(** Time crosses [t] at block [a]: it is at or after [t] and the block before
    it, if there is one, is not. *)
Definition first_at (t a : Z) : Prop :=
  0 <= a /\ t <= hd_Timestamp (ledger a) /\ (0 < a -> hd_Timestamp (ledger (a - 1)) < t).

(** The timestamps of the ledger never decrease. They sometimes do, according
    to [sequencer.go:137]; what is said below about a ledger where they do not
    says so. *)
Definition ledger_sorted : Prop := forall n m, 0 <= n <= m -> hd_Timestamp (ledger n) <= hd_Timestamp (ledger m).

(** Time goes back across [t]. *)
Definition goes_back (t : Z) : Prop :=
  exists n m, 0 <= n < m /\ t <= hd_Timestamp (ledger n) /\ hd_Timestamp (ledger m) < t.

(** The contract records the commitments of one ledger, and nothing below
    block 0. *)
Definition records (hotshot : HotshotCaller) : Prop :=
  forall n v, hs_Commitments hotshot n = Ok v -> v <> 0 ->
    0 <= n /\ forall c, CommitmentFromUint256 v = Ok c -> c = Commit (ledger n).

(** The headers of a justification, in order. *)
Definition jst_headers (jst : L2BatchJustification) : list Header :=
  option_list (jst_Prev jst) ++ map bj_Header (jst_Blocks jst) ++ option_list (jst_Next jst).

(** None of these headers (whose heights are [uint64]s) has the commitment of
    another block of the ledger. *)
Definition no_forgery (hs : list Header) : Prop :=
  forall h, h ∈ hs -> is_u64 (hd_Height h) /\ forall n, Commit h = Commit (ledger n) -> h = ledger n.

Lemma length_segment a n : length (segment a n) = n.
Proof. revert a. induction n as [|n IH]; intros a; cbn; [done|]. by rewrite IH. Qed.

Lemma segment_app a n m : segment a (n + m) = segment a n ++ segment (a + Z.of_nat n) m.
Proof.
  revert a. induction n as [|n IH]; intros a; cbn [segment Nat.add app].
  - f_equal. lia.
  - rewrite IH. do 3 f_equal. lia.
Qed.

Lemma segment_snoc a n : segment a (S n) = segment a n ++ [ledger (a + Z.of_nat n)].
Proof. replace (S n) with (n + 1)%nat by lia. by rewrite segment_app. Qed.

Lemma segment_lookup a n i : (i < n)%nat -> segment a n !! i = Some (ledger (a + Z.of_nat i)).
Proof.
  revert a i. induction n as [|n IH]; intros a i Hi; [lia|]. destruct i as [|i]; cbn [segment lookup list_lookup].
  - do 2 f_equal. lia.
  - rewrite IH by lia. do 2 f_equal. lia.
Qed.

Lemma segment_last a n : last (segment a (S n)) = Some (ledger (a + Z.of_nat n)).
Proof. by rewrite segment_snoc, last_snoc. Qed.

Lemma segment_intro hs a : (forall i h, hs !! i = Some h -> h = ledger (a + Z.of_nat i)) -> hs = segment a (length hs).
Proof.
  intros H. apply list_eq. intros i. destruct (hs !! i) as [h|] eqn:Eh.
  - rewrite (H _ _ Eh). symmetry. apply segment_lookup. by apply lookup_lt_Some in Eh.
  - symmetry. apply lookup_ge_None. rewrite length_segment. by apply lookup_ge_None.
Qed.

Lemma segment_split hs hs' a n : hs ++ hs' = segment a n ->
  hs = segment a (length hs) /\ hs' = segment (a + Z.of_nat (length hs)) (length hs').
Proof.
  intros H. assert (Hn : n = (length hs + length hs')%nat).
  { apply (f_equal length) in H. by rewrite length_app, length_segment in H. }
  rewrite Hn, segment_app in H. by apply app_inj_1 in H; [|by rewrite length_segment].
Qed.

(** Two crossings of the same time: the same block, or time went back. *)
Lemma first_at_unique t a b : first_at t a -> first_at t b -> a = b \/ goes_back t.
Proof.
  intros (Ha & Ha1 & Ha2) (Hb & Hb1 & Hb2). destruct (Z.lt_trichotomy a b) as [H|[H|H]]; [|by left|].
  - destruct (Z.eq_dec a (b - 1)) as [->|]; [specialize (Hb2 ltac:(lia)); lia|].
    right. exists a, (b - 1). split; [lia|]. split; [done|]. apply Hb2. lia.
  - destruct (Z.eq_dec b (a - 1)) as [->|]; [specialize (Ha2 ltac:(lia)); lia|].
    right. exists b, (a - 1). split; [lia|]. split; [done|]. apply Ha2. lia.
Qed.

Lemma sorted_never_back t : ledger_sorted -> ~ goes_back t.
Proof. intros Hs (n & m & Hnm & Hn & Hm). specialize (Hs n m ltac:(lia)). lia. Qed.

(** On a ledger whose time does not go back, a crossing splits the chain. *)
Lemma first_at_splits t a m : ledger_sorted -> first_at t a -> 0 <= m -> t <= hd_Timestamp (ledger m) <-> a <= m.
Proof.
  intros Hs (Ha & Ha1 & Ha2) Hm. split; intros H.
  - destruct (Z.le_gt_cases a m); [done|]. specialize (Hs m (a - 1) ltac:(lia)). specialize (Ha2 ltac:(lia)). lia.
  - specialize (Hs a m ltac:(lia)). lia.
Qed.

(** Headers whose commitments the contract has are blocks of the ledger. *)
Lemma committed_segment hotshot first hs : is_u64 first -> records hotshot -> no_forgery hs ->
  committed hotshot first (map Commit hs) -> hs = segment first (length hs).
Proof.
  intros Hf Hrec Hfake (_ & _ & Hall).
  assert (Hc : forall i h, hs !! i = Some h -> first + Z.of_nat i < 2 ^ 63 /\ Commit h = Commit (ledger (first + Z.of_nat i))).
  { intros i. induction i as [|i IH]; intros h Hh.
    - destruct (Hall 0%nat (Commit h)) as (v & Hv & Hz & Hc); [by rewrite list_lookup_fmap, Hh|].
      assert (Heq : first +₆₄ Z.of_nat 0 = first) by ulia. rewrite Heq in Hv. rewrite Z.add_0_r.
      destruct (Hrec _ _ Hv Hz) as [Hn Hcm]. pose proof (i64_nonneg _ Hf Hn) as Hlt. split; [done|].
      rewrite i64_small in Hcm by (unfold is_u64 in Hf; lia). by apply Hcm.
    - assert (Hp : exists p, hs !! i = Some p) by (apply lookup_lt_is_Some; apply lookup_lt_Some in Hh; lia).
      destruct Hp as [p Hp]. destruct (IH _ Hp) as [Hlt _].
      destruct (Hall (S i) (Commit h)) as (v & Hv & Hz & Hc); [by rewrite list_lookup_fmap, Hh|].
      assert (Heq : first +₆₄ Z.of_nat (S i) = first + Z.of_nat (S i)) by (unfold is_u64 in Hf; ulia). rewrite Heq in Hv.
      destruct (Hrec _ _ Hv Hz) as [Hn Hcm]. apply i64_nonneg in Hn as Hlt'; [|unfold is_u64 in *; lia]. split; [done|].
      rewrite i64_small in Hcm by (unfold is_u64 in Hf; lia). by apply Hcm. }
  apply segment_intro. intros i h Hh. destruct (Hfake h) as [_ Hb]; [by eapply list_elem_of_lookup_2|]. by apply Hb, Hc.
Qed.
End Ledger.

(** ** The rules *)

Section Rules.
Context `{E : EspressoLib}.
Variable cfg : Config.

(** Block time crosses [t] between the last of [before] and the first of
    [after]; only the genesis block has nothing before it. *)
Definition crosses (t : Z) (before after : list Header) : Prop :=
  (exists h, head after = Some h /\ t <= hd_Timestamp h /\ (before = [] -> hd_Height h = 0)) /\
  forall h, last before = Some h -> hd_Timestamp h < t.

(** The L1 origin of an Espresso batch on [parent]: the suggested block, less
    the confirmation depth; never more than one block on, never back. *)
Inductive espresso_origin (sysCfg : SystemConfig) (parent : L2BlockRef) (suggested : Z) (byNumber : Z -> res L1BlockRef)
    : L1BlockRef -> Prop :=
| origin_advance s o : confirmed sysCfg suggested = s ->
    id_Number (l2_L1Origin parent) +₆₄ 1 < s ->
    byNumber (id_Number (l2_L1Origin parent) +₆₄ 1) = Ok o -> l1_Time o <= l2_Time parent +₆₄ BlockTime cfg ->
    espresso_origin sysCfg parent suggested byNumber o
| origin_future s next o : confirmed sysCfg suggested = s ->
    id_Number (l2_L1Origin parent) +₆₄ 1 < s ->
    byNumber (id_Number (l2_L1Origin parent) +₆₄ 1) = Ok next -> l2_Time parent +₆₄ BlockTime cfg < l1_Time next ->
    byNumber (id_Number (l2_L1Origin parent)) = Ok o ->
    espresso_origin sysCfg parent suggested byNumber o
| origin_decreased s o : confirmed sysCfg suggested = s ->
    s <= id_Number (l2_L1Origin parent) +₆₄ 1 -> s < id_Number (l2_L1Origin parent) ->
    byNumber (id_Number (l2_L1Origin parent)) = Ok o ->
    espresso_origin sysCfg parent suggested byNumber o
| origin_old s l1Block o : confirmed sysCfg suggested = s ->
    id_Number (l2_L1Origin parent) <= s <= id_Number (l2_L1Origin parent) +₆₄ 1 -> byNumber s = Ok l1Block ->
    l1_Time l1Block +₆₄ MaxSequencerDrift cfg < l2_Time parent +₆₄ BlockTime cfg ->
    byNumber (id_Number (l2_L1Origin parent) +₆₄ 1) = Ok o ->
    espresso_origin sysCfg parent suggested byNumber o
| origin_newer s l1Block o : confirmed sysCfg suggested = s ->
    id_Number (l2_L1Origin parent) <= s <= id_Number (l2_L1Origin parent) +₆₄ 1 -> byNumber s = Ok l1Block ->
    l2_Time parent +₆₄ BlockTime cfg <= l1_Time l1Block +₆₄ MaxSequencerDrift cfg ->
    l2_Time parent +₆₄ BlockTime cfg < l1_Time l1Block ->
    byNumber (id_Number (l2_L1Origin parent)) = Ok o ->
    espresso_origin sysCfg parent suggested byNumber o
| origin_suggested s o : confirmed sysCfg suggested = s ->
    id_Number (l2_L1Origin parent) <= s <= id_Number (l2_L1Origin parent) +₆₄ 1 -> byNumber s = Ok o ->
    l1_Time o <= l2_Time parent +₆₄ BlockTime cfg <= l1_Time o +₆₄ MaxSequencerDrift cfg ->
    espresso_origin sysCfg parent suggested byNumber o.

(** The Espresso rules for a batch [b] on [head]. *)
Record espresso_rules (sysCfg : SystemConfig) (head : L2BlockRef) (b : SingularBatch) (hotshot : HotshotCaller)
    (byNumber : Z -> res L1BlockRef) (jst : L2BatchJustification) (next : Header) (origin : L1BlockRef) : Prop := {
  er_jst : sb_Justification b = Some jst;
  er_next : jst_Next jst = Some next;
  er_committed : exists first, list.head (jst_headers jst) = Some first /\
    committed hotshot (hd_Height first) (map Commit (jst_headers jst));
  er_start : crosses (l2_Time head +₆₄ BlockTime cfg) (option_list (jst_Prev jst))
    (map bj_Header (jst_Blocks jst) ++ [next]);
  er_end : crosses (l2_Time head +₆₄ BlockTime cfg +₆₄ BlockTime cfg)
    (option_list (jst_Prev jst) ++ map bj_Header (jst_Blocks jst)) [next];
  er_origin : espresso_origin sysCfg head (hd_L1Head next) byNumber origin;
  er_number : l1_Number origin = sb_EpochNum b;
  er_empty : l1_Time origin +₆₄ MaxSequencerDrift cfg < sb_Timestamp b -> sb_Transactions b = [];
  er_proofs : sb_Timestamp b <= l1_Time origin +₆₄ MaxSequencerDrift cfg ->
    exists chainID, L2ChainID cfg = Some chainID /\
      ValidateBatchTransactions (u64 chainID) (map (fun bj => hd_TransactionsRoot (bj_Header bj)) (jst_Blocks jst))
        (map bj_Proof (jst_Blocks jst)) (sb_Transactions b) = None;
}.

(** A transaction of a batch: not empty, and not of the deposit type 126. *)
Definition user_tx (tx : bytes) : Prop := exists t data, tx = t :: data /\ t <> 126.

(** The rules that hold in either mode. *)
Definition singular_rules (sysCfg : SystemConfig) (l1Blocks : list L1BlockRef) (head : L2BlockRef)
    (b : SingularBatch) (incl : L1BlockRef) : Prop :=
  sb_Timestamp b = l2_Time head +₆₄ BlockTime cfg /\
  sb_ParentHash b = l2_Hash head /\
  l1_Number incl <= sb_EpochNum b +₆₄ SeqWindowSize cfg /\
  Forall user_tx (sb_Transactions b) /\
  exists origin, batch_origin l1Blocks (sb_EpochNum b) origin /\
    sb_EpochHash b = l1_Hash origin /\ l1_Time origin <= sb_Timestamp b /\
    drift_ok cfg (Espresso sysCfg) l1Blocks origin (sb_Timestamp b) (sb_Transactions b).

Lemma batch_txs_ok_iff txs : batch_txs_ok txs = true <-> Forall user_tx txs.
Proof.
  induction txs as [|[|t data] txs IH]; cbn [batch_txs_ok]; [done| |].
  - split; [done|]. intros H. apply Forall_cons_1 in H as [(t & data & ? & _) _]. done.
  - unfold DepositTxType. destruct (Z.eqb_spec t 126) as [->|].
    + split; [done|]. intros H. apply Forall_cons_1 in H as [(t & d & [= <- _] & ?) _]. done.
    + rewrite IH. split; [intros H; constructor; [by exists t, data|done]|]. intros H. by apply Forall_cons_1 in H as [_ H].
Qed.

Lemma singular_rules_iff sysCfg l1Blocks head b incl :
  singular_valid cfg sysCfg l1Blocks head b incl <-> singular_rules sysCfg l1Blocks head b incl.
Proof. unfold singular_valid, singular_rules. by rewrite batch_txs_ok_iff. Qed.

Lemma espresso_origin_iff sysCfg parent suggested byNumber o :
  EspressoL1Origin cfg sysCfg parent suggested byNumber = Ok o <-> espresso_origin sysCfg parent suggested byNumber o.
Proof.
  unfold EspressoL1Origin. fold (confirmed sysCfg suggested). split.
  - set (s := confirmed sysCfg suggested). set (p := id_Number (l2_L1Origin parent)).
    set (t := l2_Time parent +₆₄ BlockTime cfg). destruct (Z.ltb_spec (p +₆₄ 1) s).
    { destruct (byNumber (p +₆₄ 1)) as [nx|] eqn:En; cbn [map_err mbind res_bind]; [|done].
      destruct (Z.leb_spec (l1_Time nx) t); intros Ho; [apply Ok_inj in Ho; subst nx; by eapply origin_advance|].
      by eapply origin_future. }
    destruct (Z.ltb_spec s p); [intros Ho; by eapply origin_decreased|].
    destruct (byNumber s) as [l|] eqn:Es; cbn [map_err mbind res_bind]; [|done].
    destruct (Z.ltb_spec (l1_Time l +₆₄ MaxSequencerDrift cfg) t); [intros Ho; by eapply origin_old|].
    destruct (Z.ltb_spec t (l1_Time l)); [intros Ho; by eapply origin_newer|].
    intros Ho. apply Ok_inj in Ho. subst l. by eapply origin_suggested.
  - destruct 1 as [s o -> H1 H2 H3|s nx o -> H1 H2 H3 H4|s o -> H1 H2 H3|s l o -> H1 H2 H3 H4|s l o -> H1 H2 H3 H4 H5|s o -> H1 H2 H3].
    1,2: rewrite (proj2 (Z.ltb_lt _ _) H1), H2; cbn [map_err mbind res_bind].
    1: by rewrite (proj2 (Z.leb_le _ _) H3).
    1: by rewrite (proj2 (Z.leb_gt _ _) H3).
    all: rewrite (proj2 (Z.ltb_ge (_ +₆₄ 1) _)) by lia.
    1: by rewrite (proj2 (Z.ltb_lt _ _) H2).
    all: rewrite (proj2 (Z.ltb_ge _ _)) by lia; rewrite H2; cbn [map_err mbind res_bind].
    + by rewrite (proj2 (Z.ltb_lt _ _) H3).
    + rewrite (proj2 (Z.ltb_ge _ _) H3). by rewrite (proj2 (Z.ltb_lt _ _) H4).
    + rewrite (proj2 (Z.ltb_ge (_ +₆₄ _) _)) by lia. by rewrite (proj2 (Z.ltb_ge _ (l1_Time o))) by lia.
Qed.

Lemma bookends_start ts jst next first :
  list.head (jst_headers jst) = Some first -> jst_Next jst = Some next ->
  bookends_ok ts (jst_Prev jst) first (jst_first_after jst next) <->
  crosses ts (option_list (jst_Prev jst)) (map bj_Header (jst_Blocks jst) ++ [next]).
Proof.
  unfold jst_headers, bookends_ok, crosses, jst_first_after. intros Hf Hn. rewrite Hn in Hf.
  set (f := match jst_Blocks jst with b :: _ => bj_Header b | [] => next end).
  assert (Hh : head (map bj_Header (jst_Blocks jst) ++ [next]) = Some f) by (subst f; by destruct (jst_Blocks jst)).
  destruct (jst_Prev jst) as [p|]; cbn [option_list] in *.
  - split; [intros [H1 H2]; split; [by exists f|by intros h [= <-]]|]. intros [(h & Hh' & Hle & _) H']. split; [by apply H'|congruence].
  - cbn [app] in Hf. assert (first = f) as -> by (cbn in Hf; congruence).
    split; [intros [[H1 _] H2]; split; [by exists f|done]|]. intros [(h & Hh' & Hle & H) _].
    assert (h = f) as -> by congruence. by specialize (H eq_refl).
Qed.

Lemma bookends_end ts jst next first :
  list.head (jst_headers jst) = Some first -> jst_Next jst = Some next ->
  bookends_ok ts (jst_last_before jst) first next <->
  crosses ts (option_list (jst_Prev jst) ++ map bj_Header (jst_Blocks jst)) [next].
Proof.
  unfold jst_headers, bookends_ok, crosses, jst_last_before. intros Hf Hn. rewrite Hn in Hf.
  set (before := option_list (jst_Prev jst) ++ map bj_Header (jst_Blocks jst)).
  assert (Hl : match last (jst_Blocks jst) with Some b => Some (bj_Header b) | None => jst_Prev jst end = last before).
  { unfold before. rewrite last_app, fmap_last. destruct (last (jst_Blocks jst)); [done|]. by destruct (jst_Prev jst). }
  rewrite Hl. destruct (last before) as [p|] eqn:Ep.
  - assert (Hne : before <> []) by (intros H; by rewrite H in Ep). clearbody before.
    split; [intros [H1 H2]; split; [by exists next|by intros h [= <-]]|]. intros [(h & [= <-] & Hle & _) H']. split; [by apply H'|done].
  - apply last_None in Ep. rewrite Ep. rewrite app_assoc in Hf. fold before in Hf. rewrite Ep in Hf. cbn in Hf. injection Hf as <-.
    split; [intros [[H1 _] H2]; split; [by exists next|done]|]. intros [(h & [= <-] & Hle & H) _]. by specialize (H eq_refl).
Qed.

Lemma espresso_rules_iff sysCfg head b hotshot byNumber :
  espresso_valid cfg sysCfg head b (EspressoProvider hotshot byNumber) <->
  exists jst next origin, espresso_rules sysCfg head b hotshot byNumber jst next origin.
Proof.
  assert (Hcomms : forall jst next, jst_Next jst = Some next -> jst_commitments jst = Ok (map Commit (jst_headers jst))).
  { intros jst next Hn. unfold jst_commitments, jst_headers. rewrite Hn. cbn [deref mbind res_bind].
    rewrite !map_app, map_map. by destruct (jst_Prev jst). }
  assert (Hfirst : forall jst next, jst_Next jst = Some next -> First jst = list.head (jst_headers jst)).
  { intros jst next Hn. unfold First, jst_headers. rewrite Hn. destruct (jst_Prev jst); [done|]. by destruct (jst_Blocks jst). }
  assert (Hempty : forall o ts, EspressoBatchMustBeEmpty cfg o ts = bool_decide (l1_Time o +₆₄ MaxSequencerDrift cfg < ts)).
  { intros o ts. unfold EspressoBatchMustBeEmpty. case_bool_decide; [by apply Z.ltb_lt|by apply Z.ltb_ge; lia]. }
  split.
  - intros (jst & next & first & comms & o & Hj & Hn & Hf & Hc & Hv & Hs & He & Ho & Hnum & Htx).
    rewrite (Hcomms _ _ Hn) in Hc. apply Ok_inj in Hc. subst comms. rewrite (Hfirst _ _ Hn) in Hf.
    exists jst, next, o. rewrite Hempty in Htx. constructor; try done.
    + exists first. split; [done|]. by apply VerifyCommitments_true.
    + by apply (bookends_start _ _ _ _ Hf Hn).
    + by apply (bookends_end _ _ _ _ Hf Hn).
    + by apply espresso_origin_iff.
    + intros Hlt. by rewrite bool_decide_eq_true_2 in Htx.
    + intros Hle. rewrite bool_decide_eq_false_2 in Htx by lia. done.
  - intros (jst & next & o & R). destruct (er_committed _ _ _ _ _ _ _ _ R) as (first & Hf & Hc).
    pose proof (er_next _ _ _ _ _ _ _ _ R) as Hn.
    exists jst, next, first, (map Commit (jst_headers jst)), o. split; [by apply R|]. split; [done|].
    split; [by rewrite (Hfirst _ _ Hn)|]. split; [by eapply Hcomms|]. split; [by apply VerifyCommitments_true|].
    split; [apply (bookends_start _ _ _ _ Hf Hn), R|]. split; [apply (bookends_end _ _ _ _ Hf Hn), R|].
    split; [apply espresso_origin_iff, R|]. split; [apply R|]. rewrite Hempty. case_bool_decide as Hlt.
    + by apply (er_empty _ _ _ _ _ _ _ _ R).
    + apply (er_proofs _ _ _ _ _ _ _ _ R). lia.
Qed.

(** What the rules say of a contract that records a ledger. *)
Record justified (ledger : Z -> Header) (start stop : Z) (jst : L2BatchJustification) (a : Z) (n : nat) : Prop := {
  ju_prev : jst_Prev jst = block_before ledger a;
  ju_blocks : map bj_Header (jst_Blocks jst) = segment ledger a n;
  ju_next : jst_Next jst = Some (ledger (a + Z.of_nat n));
  ju_start : first_at ledger start a;
  ju_stop : first_at ledger stop (a + Z.of_nat n);
}.

Lemma rules_justified sysCfg head b hotshot byNumber jst next origin ledger :
  records ledger hotshot -> no_forgery ledger (jst_headers jst) ->
  espresso_rules sysCfg head b hotshot byNumber jst next origin ->
  exists a n, justified ledger (l2_Time head +₆₄ BlockTime cfg) (l2_Time head +₆₄ BlockTime cfg +₆₄ BlockTime cfg) jst a n.
Proof.
  intros Hrec Hfake R. destruct (er_committed _ _ _ _ _ _ _ _ R) as (first & Hf & Hc).
  pose proof (er_next _ _ _ _ _ _ _ _ R) as Hn.
  assert (Hu : is_u64 (hd_Height first)) by (apply Hfake; destruct (jst_headers jst); [done|injection Hf as ->; by left]).
  apply (committed_segment ledger) in Hc as Hseg; [|done|done|done]. destruct Hu as [Hh _]. unfold jst_headers in Hseg, Hf. rewrite Hn in Hseg, Hf.
  change (option_list (Some next)) with [next] in Hseg, Hf. pose proof (er_start _ _ _ _ _ _ _ _ R) as [(h & Hhead & Hle & Hgen) Hbefore].
  pose proof (er_end _ _ _ _ _ _ _ _ R) as [(x & Hx & Hlex & _) Hbefore']. injection Hx as <-.
  set (P := option_list (jst_Prev jst)) in *. set (bl := map bj_Header (jst_Blocks jst)) in *.
  set (a := hd_Height first + Z.of_nat (length P)).
  assert (HP : match jst_Prev jst with Some p => p = ledger (a - 1) /\ 0 < a | None => a = 0 end).
  { apply segment_split in Hseg as [HP _]. unfold a, P in *. destruct (jst_Prev jst) as [p|]; cbn in HP |- *.
    - injection HP as HP. split; [|lia]. rewrite HP. f_equal. lia.
    - assert (Hhf : Some h = Some first) by (rewrite <- Hhead, <- Hf; reflexivity).
      injection Hhf as ->. rewrite Hgen by done. done. }
  assert (Ha : 0 <= a) by (unfold a; lia).
  assert (Hrest : bl = segment ledger a (length bl) /\ next = ledger (a + Z.of_nat (length bl)) /\ h = ledger a).
  { apply segment_split in Hseg as [_ Hrest]. fold a in Hrest.
    assert (h = ledger a) as ->. { rewrite Hrest, length_app, Nat.add_1_r in Hhead. by injection Hhead. }
    apply segment_split in Hrest as [H1 H2]. split; [done|]. apply (f_equal list.head) in H2. cbn in H2.
    split; [congruence|done]. }
  destruct Hrest as (Hbl & Hnext & Hh0). clearbody a. exists a, (length bl). constructor; [|done|congruence| |].
  - unfold block_before. destruct (jst_Prev jst) as [p|]; [destruct HP as [-> HP]|by rewrite HP].
    by rewrite (proj2 (Z.eqb_neq a 0)) by lia.
  - split; [done|]. rewrite <- Hh0. split; [done|]. intros Hpos. unfold P in Hbefore.
    destruct (jst_Prev jst) as [p|]; [|rewrite HP in Hpos; lia]. destruct HP as [-> _]. by apply Hbefore.
  - split; [lia|]. rewrite <- Hnext. split; [done|]. intros Hpos. apply Hbefore'. rewrite Hbl.
    revert Hpos. destruct (length bl) as [|m] eqn:El; cbn [segment]; intros Hpos.
    + rewrite app_nil_r. unfold P. destruct (jst_Prev jst) as [p|]; [|cbn in Hpos; lia]. destruct HP as [-> _].
      change (Some (ledger (a - 1)) = Some (ledger (a + Z.of_nat 0 - 1))). do 2 f_equal. lia.
    + change (ledger a :: segment ledger (a + 1) m) with (segment ledger a (S m)).
      rewrite last_app, segment_last, ?length_segment. do 2 f_equal. lia.
Qed.

(** C8. The singular batches that are accepted, with the commitments read
    from the contract, are exactly those with the next timestamp, on the safe
    head, included within the sequencing window, with an L1 origin in the
    current or next epoch that is not in their future, within the drift rule,
    and with neither empty transactions nor deposits; in Espresso mode,
    moreover, those with a justification whose headers, the ones before and
    after the window included, are recorded in the contract from the height of
    the first one on, cross the start and the end of the window at the right
    places (only the genesis block has none before it), name the L1 origin,
    and prove the transactions, of which there are none when the batch has run
    out of sequencer drift. *)
Theorem singular_accept_iff (sysCfg : SystemConfig) (l1Blocks : list L1BlockRef) (head : L2BlockRef)
  (b : SingularBatch) (incl : L1BlockRef) (hotshot : HotshotCaller) (byNumber : Z -> res L1BlockRef) :
  checkSingularBatch cfg sysCfg l1Blocks head b incl (EspressoProvider hotshot byNumber) = Ok BatchAccept <->
  singular_rules sysCfg l1Blocks head b incl /\
  (Espresso sysCfg = true -> exists jst next origin, espresso_rules sysCfg head b hotshot byNumber jst next origin).
Proof. by rewrite checkSingularBatch_accept, CheckBatchEspresso_accept, singular_rules_iff, espresso_rules_iff. Qed.

(** C9. An accepted Espresso batch contains the whole window of its block.
    When the contract records the commitments of one ledger, and none of the
    headers of the justification was forged to have the commitment of another
    block of it, the blocks of the justification are blocks [a], ..., [a + n -
    1] of the ledger without a gap, [Prev] is the block right before them
    (missing only if [a] is block 0) and [Next] the one right after, and block
    time crosses the start of the window at block [a] and its end at [a + n].
    If the time of the ledger never decreases, these are exactly the blocks of
    the ledger with a timestamp in the window. *)
Theorem espresso_window_covered (sysCfg : SystemConfig) (l1Blocks : list L1BlockRef) (head : L2BlockRef)
  (b : SingularBatch) (incl : L1BlockRef) (hotshot : HotshotCaller) (byNumber : Z -> res L1BlockRef)
  (jst : L2BatchJustification) (ledger : Z -> Header)
  (Hmode : Espresso sysCfg = true) (Hjst : sb_Justification b = Some jst)
  (Hrecords : records ledger hotshot) (Hforge : no_forgery ledger (jst_headers jst))
  (Haccept : checkSingularBatch cfg sysCfg l1Blocks head b incl (EspressoProvider hotshot byNumber) = Ok BatchAccept) :
  let windowStart := l2_Time head +₆₄ BlockTime cfg in
  let windowEnd := windowStart +₆₄ BlockTime cfg in
  exists a n,
    jst_Prev jst = block_before ledger a /\
    map bj_Header (jst_Blocks jst) = segment ledger a n /\
    jst_Next jst = Some (ledger (a + Z.of_nat n)) /\
    first_at ledger windowStart a /\ first_at ledger windowEnd (a + Z.of_nat n) /\
    (ledger_sorted ledger -> forall m, 0 <= m ->
      windowStart <= hd_Timestamp (ledger m) < windowEnd <-> a <= m < a + Z.of_nat n).
Proof.
  intros ws we. apply checkSingularBatch_accept in Haccept as [_ He].
  apply CheckBatchEspresso_accept, espresso_rules_iff in He as (j & next & o & R); [|done].
  pose proof (er_jst _ _ _ _ _ _ _ _ R). assert (j = jst) as -> by congruence.
  destruct (rules_justified _ _ _ _ _ _ _ _ _ Hrecords Hforge R) as (a & n & [H1 H2 H3 H4 H5]).
  exists a, n. do 5 (split; [done|]). intros Hs m Hm.
  pose proof (first_at_splits _ _ _ m Hs H4 Hm). pose proof (first_at_splits _ _ _ m Hs H5 Hm). unfold we, ws. lia.
Qed.
End Rules.

(** ** Witnesses

    Block 4 of the ledger is before the window [108, 110), block 5 in it and
    block 6 after; the contract has the first ten blocks. *)

#[local] Existing Instance ex_lib.

Definition ex_ledger (n : Z) : Header :=
  (n, if n <=? 4 then 107 else if n <=? 5 then 108 else 110, if n <=? 5 then 6 else 7).

Definition ex_hotshot : HotshotCaller :=
  {| hs_BlockHeight := Ok 10;
     hs_Commitments := fun n => Ok (if (0 <=? n) && (n <? 10) then Commit (ex_ledger n) else 0) |}.

Lemma ex_records : records ex_ledger ex_hotshot.
Proof.
  intros n v. cbn -[Commit]. destruct (Z.leb_spec 0 n), (Z.ltb_spec n 10); cbn [andb]; intros Hv; apply Ok_inj in Hv; subst v; try done.
  intros _. split; [done|]. intros c Hc. by apply Ok_inj in Hc.
Qed.

Lemma ex_ledger_sorted : ledger_sorted ex_ledger.
Proof. intros n m H. cbn. zcases; lia. Qed.

Lemma ex_no_forgery : no_forgery ex_ledger (jst_headers ex_window).
Proof.
  intros h Hin. assert (Hk : exists k, h = ex_ledger k /\ is_u64 k).
  { cbn in Hin. repeat (apply elem_of_cons in Hin as [->|Hin]; [first [by exists 4|by exists 5|by exists 6]|]).
    by apply not_elem_of_nil in Hin. }
  destruct Hk as (k & -> & Hk). split; [exact Hk|]. intros n Hc. cbn in Hc. by subst k.
Qed.

Lemma espresso_window_covered_witness :
  checkSingularBatch ex_cfg ex_espresso_cfg [ex_l1_at 6 100; ex_l1_at 7 108] ex_head ex_espresso_batch (ex_l1_at 7 108)
    (EspressoProvider ex_hotshot ex_l1_chain) = Ok BatchAccept /\
  exists a n, map bj_Header (jst_Blocks ex_window) = segment ex_ledger a n /\
    forall m, 0 <= m -> 108 <= hd_Timestamp (ex_ledger m) < 110 <-> a <= m < a + Z.of_nat n.
Proof.
  assert (H : checkSingularBatch ex_cfg ex_espresso_cfg [ex_l1_at 6 100; ex_l1_at 7 108] ex_head ex_espresso_batch
    (ex_l1_at 7 108) (EspressoProvider ex_hotshot ex_l1_chain) = Ok BatchAccept) by (vm_compute; reflexivity).
  split; [exact H|].
  apply (espresso_window_covered ex_cfg ex_espresso_cfg _ ex_head ex_espresso_batch _ _ _ ex_window ex_ledger eq_refl eq_refl
    ex_records ex_no_forgery) in H as (a & n & _ & Hb & _ & _ & _ & Hall).
  exists a, n. split; [exact Hb|]. exact (Hall ex_ledger_sorted).
Defined.

(** Dropped: a justification without the header before the window, one that
    starts a block too late, one that leaves a block out. Undecided: one whose
    headers the contract does not have yet. *)
Lemma uncovered_window_dropped :
  let check jst := checkSingularBatch ex_cfg ex_espresso_cfg [ex_l1_at 6 100; ex_l1_at 7 108] ex_head
    {| sb_ParentHash := hash_of 20; sb_EpochNum := 6; sb_EpochHash := hash_of 6; sb_Timestamp := 108;
       sb_Transactions := []; sb_Justification := Some jst |} (ex_l1_at 7 108) (EspressoProvider ex_hotshot ex_l1_chain) in
  check {| jst_Blocks := [mkBlockJst (ex_ledger 5) []]; jst_Prev := None; jst_Next := Some (ex_ledger 6) |} = Ok BatchDrop /\
  check {| jst_Blocks := []; jst_Prev := Some (ex_ledger 5); jst_Next := Some (ex_ledger 6) |} = Ok BatchDrop /\
  check {| jst_Blocks := []; jst_Prev := Some (ex_ledger 4); jst_Next := Some (ex_ledger 6) |} = Ok BatchDrop /\
  check {| jst_Blocks := []; jst_Prev := Some (ex_ledger 9); jst_Next := Some (ex_ledger 10) |} = Ok BatchUndecided.
Proof. vm_compute. repeat split. Qed.
