(* ===== verification/BitCodec.v ===== *)
(** * Bit lists and variable-length integers

    The two encodings the span batch format is built of: the bit lists that
    [span_batch.go] and [span_batch_txs.go] write for a [big.Int] (least
    significant bit first, padded to whole bytes), and the unsigned varints
    of Go's [encoding/binary]. *)

From S2P Require Import Prelude Frame.

Definition ErrTooBigSpanBatchSize : go_error := Errorf "span batch size limit reached".

(** *** [big.Int] as a bit set *)

Definition Bit (x : Z) (i : nat) : Z := Z.b2z (Z.testbit x (Z.of_nat i)).

(** [SetBit(x, i, b)] for a bit [b]. *)
Definition SetBit (x : Z) (i : nat) (b : Z) : Z :=
  if b =? 1 then Z.setbit x (Z.of_nat i) else Z.clearbit x (Z.of_nat i).

(** *** Bit lists *)

(** [n / 8], rounded up. *)
Definition bitBufferLen (n : Z) : Z :=
  let len := n / 8 in
  if negb (n mod 8 =? 0) then len + 1 else len.

(** The indices [j] of the inner loops: from [i] = [8*k] to [end], which is
    [i + 8] unless that is less than [n], and then [n]. *)
Definition chunk (n : Z) (k : nat) : list nat := seq (8 * k) (Z.to_nat (Z.max 8 (n - 8 * Z.of_nat k))).

(** The shifts are in a [uint] of 64 bits. *)
Definition encode_byte (n bits : Z) (k : nat) : byte :=
  u8 (fold_left (fun acc j => Z.lor acc (u64 (Z.shiftl (Bit bits j) (Z.of_nat (j - 8 * k))))) (chunk n k) 0).

Definition encodeBits (n bits : Z) : bytes :=
  map (encode_byte n bits) (seq 0 (Z.to_nat (bitBufferLen n))).

Definition decode_chunk (n : Z) (buffer : bytes) (acc : Z) (k : nat) : Z :=
  let b := nth k buffer 0 in
  fold_left (fun acc j => SetBit acc j (Z.land (Z.shiftr b (Z.of_nat (j - 8 * k))) 1)) (chunk n k) acc.

(** [msg] is the error message of the caller. *)
Definition decodeBits (msg : string) (n : Z) (r : bytes) : res (Z * bytes) :=
  let len := bitBufferLen n in
  if MaxSpanBatchSize <? len then Err ErrTooBigSpanBatchSize else
  '(buffer, r) ← map_err (Wrapf msg) (ReadFull len r);
  Ok (fold_left (decode_chunk n buffer) (seq 0 (Z.to_nat len)) 0, r).

(** *** Varints *)

Definition MaxVarintLen64 : nat := 10.

(** [PutUvarint]; ten bytes hold 64 bits. *)
Fixpoint put_uvarint (fuel : nat) (x : Z) : bytes :=
  match fuel with
  | O => []
  | S fuel =>
      if 128 <=? x then Z.lor (u8 x) 128 :: put_uvarint fuel (Z.shiftr x 7)
      else [u8 x]
  end.

Definition PutUvarint (x : Z) : bytes := put_uvarint MaxVarintLen64 x.

(** [ReadUvarint]: [fuel] bytes are left of the ten allowed, [s] bits are in
    [x] already. *)
Fixpoint read_uvarint (fuel : nat) (x s : Z) (r : bytes) : res (Z * bytes) :=
  match fuel with
  | O => Err (Errorf "binary: varint overflows a 64-bit integer")
  | S fuel' =>
      match r with
      | [] => Err (if s =? 0 then EOF else ErrUnexpectedEOF)
      | b :: r =>
          if b <? 128 then
            if (fuel' =? 0)%nat && (1 <? b) then Err (Errorf "binary: varint overflows a 64-bit integer")
            else Ok (Z.lor x (u64 (Z.shiftl b s)), r)
          else read_uvarint fuel' (Z.lor x (u64 (Z.shiftl (Z.land b 127) s))) (s + 7) r
      end
  end.

Definition ReadUvarint (r : bytes) : res (Z * bytes) := read_uvarint MaxVarintLen64 0 0 r.

(** ** Varints round trip *)

Lemma land_127 z : Z.land z 127 = z mod 128.
Proof. exact (Z.land_ones z 7 ltac:(lia)). Qed.

Lemma lor_ge a b : 0 <= a -> 0 <= b -> b <= Z.lor a b.
Proof.
  intros Ha Hb. assert (Hd : Z.land b (Z.ldiff a b) = 0).
  { apply Z.bits_inj'. intros n _. rewrite Z.land_spec, Z.ldiff_spec, Z.bits_0.
    by destruct (Z.testbit a n), (Z.testbit b n). }
  assert (H : Z.lor a b = b + Z.ldiff a b).
  { rewrite Z.add_nocarry_lxor by done. apply Z.bits_inj'. intros n _.
    rewrite Z.lor_spec, Z.lxor_spec, Z.ldiff_spec. by destruct (Z.testbit a n), (Z.testbit b n). }
  rewrite H. pose proof (proj2 (Z.ldiff_nonneg a b) (or_introl Ha)). lia.
Qed.

Lemma u8_lor_128 x : Z.land (Z.lor (u8 x) 128) 127 = x mod 128 /\ 128 <= Z.lor (u8 x) 128.
Proof.
  rewrite Z.land_lor_distr_l, land_127. change (Z.land 128 127) with 0. rewrite Z.lor_0_r. split.
  - unfold u8. change (2 ^ 8) with (128 * 2). rewrite Z.rem_mul_r by lia.
    rewrite Z.mul_comm, Z_mod_plus_full. apply Z.mod_mod. lia.
  - apply lor_ge; [|lia]. unfold u8. apply Z.mod_pos_bound. lia.
Qed.

(** Low bits and high bits put together. *)
Lemma lor_shift_add a b s : 0 <= s -> 0 <= a < 2 ^ s -> Z.lor a (Z.shiftl b s) = a + b * 2 ^ s.
Proof.
  intros Hs Ha. rewrite Z.shiftl_mul_pow2 by done.
  assert (Hland : Z.land a (b * 2 ^ s) = 0).
  { apply Z.bits_inj'. intros n Hn. rewrite Z.land_spec, Z.bits_0.
    destruct (decide (n < s)).
    - rewrite Z.mul_pow2_bits_low by done. apply andb_false_r.
    - rewrite <- (Z.mod_small a (2 ^ s)) by done. rewrite Z.mod_pow2_bits_high by lia. done. }
  rewrite <- Z.lxor_lor by done. symmetry. by apply Z.add_nocarry_lxor.
Qed.

(** Reading back what [put_uvarint] wrote, with [s] bits read before. *)
Lemma read_put_uvarint fuel x acc s r :
  0 <= x -> x * 2 ^ s < 2 ^ 64 -> 0 <= acc < 2 ^ s -> 0 <= s -> s + 7 * Z.of_nat fuel = 70 -> (0 < fuel)%nat ->
  read_uvarint fuel acc s (put_uvarint fuel x ++ r) = Ok (acc + x * 2 ^ s, r).
Proof.
  revert x acc s. induction fuel as [|fuel IH]; intros x acc s Hx Hb Ha Hs Hf Hf0; [lia|].
  cbn [put_uvarint]. assert (Hp : 0 < 2 ^ s) by (apply Z.pow_pos_nonneg; lia).
  destruct (Z.leb_spec 128 x).
  - cbn [app read_uvarint]. destruct (u8_lor_128 x) as [Hl Hge].
    destruct (Z.ltb_spec (Z.lor (u8 x) 128) 128); [lia|]. rewrite Hl.
    pose proof (Z.mod_pos_bound x 128 ltac:(lia)). pose proof (Z.div_mod x 128 ltac:(lia)).
    rewrite Z.shiftl_mul_pow2 by done. rewrite u64_id by (unfold is_u64; nia).
    rewrite <- Z.shiftl_mul_pow2, lor_shift_add by done.
    assert (Hs7 : 2 ^ (s + 7) = 2 ^ s * 128) by (rewrite Z.pow_add_r by lia; done).
    rewrite Z.shiftr_div_pow2 by lia. change (2 ^ 7) with 128.
    destruct fuel as [|fuel]; [exfalso; replace s with 63 in * by lia; lia|].
    rewrite IH.
    + f_equal. f_equal. rewrite Hs7. nia.
    + apply Z.div_pos; lia.
    + rewrite Hs7. nia.
    + rewrite Hs7. nia.
    + lia.
    + lia.
    + lia.
  - cbn [app read_uvarint]. unfold u8. rewrite Z.mod_small by lia.
    destruct (Z.ltb_spec x 128); [|lia].
    destruct (Nat.eqb_spec fuel 0) as [->|]; cbn [andb].
    + replace s with 63 in * by lia. destruct (Z.ltb_spec 1 x); [lia|].
      rewrite Z.shiftl_mul_pow2 by lia. rewrite u64_id by (unfold is_u64; lia).
      rewrite <- Z.shiftl_mul_pow2, lor_shift_add by lia. by rewrite ?Z.shiftl_mul_pow2 by lia.
    + rewrite Z.shiftl_mul_pow2 by lia. rewrite u64_id by (unfold is_u64; nia).
      rewrite <- Z.shiftl_mul_pow2, lor_shift_add by lia. by rewrite ?Z.shiftl_mul_pow2 by lia.
Qed.

Lemma ReadUvarint_put x r : is_u64 x -> ReadUvarint (PutUvarint x ++ r) = Ok (x, r).
Proof.
  intros Hx. unfold ReadUvarint, PutUvarint, MaxVarintLen64. unfold is_u64 in Hx.
  rewrite read_put_uvarint by (change (2 ^ 0) with 1; lia). change (2 ^ 0) with 1.
  by rewrite Z.mul_1_r, Z.add_0_l.
Qed.

Lemma lor_u64 x y : is_u64 x -> is_u64 y -> is_u64 (Z.lor x y).
Proof.
  unfold is_u64. intros Hx Hy. split; [apply Z.lor_nonneg; lia|]. destruct (decide (Z.lor x y = 0)); [lia|].
  assert (Hp : 0 < Z.lor x y) by (assert (0 <= Z.lor x y) by (apply Z.lor_nonneg; lia); lia).
  assert (forall z, 0 <= z < 2 ^ 64 -> Z.log2 z < 64).
  { intros z Hz. destruct (decide (z = 0)) as [->|]; [done|]. apply Z.log2_lt_pow2; lia. }
  apply Z.log2_lt_pow2; [done|]. rewrite Z.log2_lor by lia. apply Z.max_lub_lt; auto.
Qed.

Lemma ReadUvarint_u64 r x r' : ReadUvarint r = Ok (x, r') -> is_u64 x.
Proof.
  unfold ReadUvarint. assert (H0 : is_u64 0) by (unfold is_u64; lia). revert H0. generalize 0 at 1 2 as acc. generalize 0 as s.
  generalize MaxVarintLen64 as fuel. intros fuel. revert r.
  induction fuel as [|fuel IH]; intros r s acc Hacc H; [done|]. cbn [read_uvarint] in H. destruct r as [|b r]; [done|].
  destruct (b <? 128).
  - destruct (_ && _); [done|]. apply Ok_inj in H. injection H as <- <-. apply lor_u64; [done|apply u64_range].
  - apply IH in H; [done|]. apply lor_u64; [done|apply u64_range].
Qed.

(** ** Bit lists round trip *)

Lemma bitBufferLen_spec n : 0 <= n -> 8 * (bitBufferLen n - 1) < n <= 8 * bitBufferLen n /\ 0 <= bitBufferLen n.
Proof.
  intros. unfold bitBufferLen. destruct (Z.eqb_spec (n mod 8) 0); cbn [negb]; Z.to_euclidean_division_equations; lia.
Qed.

Lemma testbit_SetBit x i b k : (b = 0 \/ b = 1) -> 0 <= k ->
  Z.testbit (SetBit x i b) k = if decide (k = Z.of_nat i) then b =? 1 else Z.testbit x k.
Proof.
  intros Hb Hk. unfold SetBit. destruct Hb as [-> | ->]; cbn [Z.eqb Pos.eqb]; case_decide as E.
  - subst. apply Z.clearbit_eq.
  - apply Z.clearbit_neq. lia.
  - subst. apply Z.setbit_eq. lia.
  - apply Z.setbit_neq; lia.
Qed.

Lemma SetBit_nonneg x i b : 0 <= x -> 0 <= SetBit x i b.
Proof.
  intros. unfold SetBit. destruct (b =? 1).
  - rewrite Z.setbit_spec'. apply Z.lor_nonneg. split; [done|]. apply Z.pow_nonneg. lia.
  - unfold Z.clearbit. apply Z.ldiff_nonneg. by left.
Qed.

(** A run of [SetBit]s, bit by bit. *)
Lemma testbit_set_run (f : nat -> Z) js acc k : (forall j, f j = 0 \/ f j = 1) -> 0 <= k ->
  Z.testbit (fold_left (fun acc j => SetBit acc j (f j)) js acc) k =
    if decide (Z.to_nat k ∈ js) then f (Z.to_nat k) =? 1 else Z.testbit acc k.
Proof.
  intros Hf Hk. revert acc. induction js as [|j js IH]; intros acc; cbn [fold_left].
  { by rewrite decide_False by apply not_elem_of_nil. }
  rewrite IH, testbit_SetBit by done. destruct (decide (Z.to_nat k ∈ js)).
  - rewrite decide_True by (apply elem_of_cons; by right). done.
  - case_decide as E.
    + rewrite decide_True by (apply elem_of_cons; left; lia). by rewrite E, Nat2Z.id.
    + rewrite decide_False; [done|]. rewrite elem_of_cons. intros [?|?]; [lia|done].
Qed.

Lemma testbit_lor_run (f : nat -> Z) k8 js acc i : (forall j, f j = 0 \/ f j = 1) -> 0 <= i < 64 ->
  (forall j, j ∈ js -> (k8 <= j)%nat) ->
  Z.testbit (fold_left (fun acc j => Z.lor acc (u64 (Z.shiftl (f j) (Z.of_nat (j - k8))))) js acc) i =
    Z.testbit acc i || bool_decide ((k8 + Z.to_nat i)%nat ∈ js) && (f (k8 + Z.to_nat i)%nat =? 1).
Proof.
  intros Hf Hi. revert acc. induction js as [|j js IH]; intros acc Hjs; cbn [fold_left].
  { rewrite bool_decide_eq_false_2 by apply not_elem_of_nil. cbn. by rewrite orb_false_r. }
  rewrite IH by (intros; apply Hjs; apply elem_of_cons; by right).
  rewrite Z.lor_spec, <- orb_assoc. f_equal. unfold u64. rewrite Z.mod_pow2_bits_low, Z.shiftl_spec by lia.
  assert (Hj : (k8 <= j)%nat) by (apply Hjs, elem_of_cons; by left).
  destruct (decide (j = (k8 + Z.to_nat i)%nat)) as [->|N].
  - rewrite (bool_decide_eq_true_2 (_ ∈ _ :: js)) by (apply elem_of_cons; by left). cbn [andb].
    replace (i - Z.of_nat (k8 + Z.to_nat i - k8)) with 0 by lia.
    destruct (Hf (k8 + Z.to_nat i)%nat) as [-> | ->]; cbn; [by rewrite andb_false_r|done].
  - rewrite (bool_decide_ext (k8 + Z.to_nat i ∈ j :: js)%nat (k8 + Z.to_nat i ∈ js)%nat)
      by (rewrite elem_of_cons; naive_solver).
    replace (Z.testbit (f j) (i - Z.of_nat (j - k8))) with false; [done|].
    destruct (Hf j) as [-> | ->]; [by rewrite Z.testbit_0_l|].
    destruct (decide (i - Z.of_nat (j - k8) < 0)); [by rewrite Z.testbit_neg_r|].
    symmetry. apply (Z.pow2_bits_false 0). lia.
Qed.

Lemma elem_of_chunk n k j : j ∈ chunk n k <-> (8 * k <= j)%nat /\ (Z.of_nat j < n \/ (j < 8 * k + 8)%nat).
Proof. unfold chunk. rewrite elem_of_seq. lia. Qed.

Lemma Bit_01 x j : Bit x j = 0 \/ Bit x j = 1.
Proof. unfold Bit. destruct (Z.testbit x _); [by right|by left]. Qed.

Lemma land_1_01 x : Z.land x 1 = 0 \/ Z.land x 1 = 1.
Proof.
  rewrite (Z.land_ones x 1 ltac:(lia) : Z.land x 1 = x mod 2). pose proof (Z.mod_pos_bound x 2 ltac:(lia)). lia.
Qed.

Lemma shiftr_land_1 b i : 0 <= i -> Z.land (Z.shiftr b i) 1 = Z.b2z (Z.testbit b i).
Proof. intros. rewrite (Z.land_ones (Z.shiftr b i) 1 ltac:(lia) : Z.land (Z.shiftr b i) 1 = Z.shiftr b i mod 2).
  rewrite <- Z.bit0_mod, Z.shiftr_spec by lia. done. Qed.

Lemma testbit_encode_byte n bits k i : 0 <= i < 8 ->
  Z.testbit (encode_byte n bits k) i = Z.testbit bits (Z.of_nat (8 * k) + i).
Proof.
  intros Hi. unfold encode_byte, u8. rewrite Z.mod_pow2_bits_low by lia.
  rewrite (testbit_lor_run (Bit bits)); [|intros; apply Bit_01|lia|intros j; rewrite elem_of_chunk; lia].
  rewrite Z.testbit_0_l, bool_decide_eq_true_2 by (rewrite elem_of_chunk; lia). cbn [orb andb].
  unfold Bit. rewrite Nat2Z.inj_add, Z2Nat.id by lia. by destruct (Z.testbit _ _).
Qed.

Lemma testbit_byte_high b i : is_u8 b -> 8 <= i -> Z.testbit b i = false.
Proof. intros Hb Hi. rewrite <- (Z.mod_small b (2 ^ 8)) by exact Hb. apply Z.mod_pow2_bits_high. lia. Qed.

(** The buffer is read byte by byte: a chunk that runs past its byte writes
    zeros, which the next chunks overwrite. *)
Lemma testbit_decode_prefix n buf K i : bytes_ok buf -> 0 <= i ->
  Z.testbit (fold_left (decode_chunk n buf) (seq 0 K) 0) i =
    bool_decide (i < 8 * Z.of_nat K) && Z.testbit (nth (Z.to_nat i / 8) buf 0) (i mod 8).
Proof.
  intros Hok Hi. induction K as [|K IH].
  { cbn [seq fold_left]. rewrite Z.testbit_0_l, bool_decide_eq_false_2 by lia. done. }
  rewrite seq_S, fold_left_app, Nat.add_0_l. cbn [fold_left]. unfold decode_chunk at 1.
  rewrite (testbit_set_run (fun j => Z.land (Z.shiftr (nth K buf 0) (Z.of_nat (j - 8 * K))) 1))
    by (done || intros; apply land_1_01).
  rewrite shiftr_land_1 by lia.
  assert (Hb : is_u8 (nth K buf 0)).
  { destruct (nth_in_or_default K buf 0) as [Hin | ->]; [|unfold is_u8; lia].
    unfold bytes_ok in Hok. rewrite Forall_forall in Hok. by apply Hok, list_elem_of_In. }
  destruct (decide (i < 8 * Z.of_nat K)) as [Hlt|Hge].
  - rewrite decide_False by (rewrite elem_of_chunk; lia). rewrite IH, !bool_decide_eq_true_2 by lia. done.
  - rewrite IH, (bool_decide_eq_false_2 (i < 8 * Z.of_nat K)) by lia. cbn [andb].
    destruct (decide (i < 8 * Z.of_nat (S K))) as [Hlt|Hhi].
    + rewrite decide_True by (rewrite elem_of_chunk; lia). rewrite bool_decide_eq_true_2 by lia.
      assert ((Z.to_nat i / 8)%nat = K) as -> by (symmetry; apply (Nat.div_unique _ 8 K (Z.to_nat i - 8 * K)); lia).
      replace (i mod 8) with (Z.of_nat (Z.to_nat i - 8 * K)) by (apply (Z.mod_unique_pos _ _ (Z.of_nat K)); lia).
      cbn [andb]. by destruct (Z.testbit (nth K buf 0) (Z.of_nat (Z.to_nat i - 8 * K))).
    + rewrite bool_decide_eq_false_2 by lia. destruct (decide (Z.to_nat i ∈ chunk n K)); [|done].
      rewrite (testbit_byte_high (nth K buf 0)); [done|done|lia].
Qed.

Lemma length_encodeBits n bits : 0 <= n -> blen (encodeBits n bits) = bitBufferLen n.
Proof.
  intros Hn. pose proof (bitBufferLen_spec n Hn). unfold blen, encodeBits. rewrite length_map, length_seq. lia.
Qed.

Lemma encodeBits_ok n bits : bytes_ok (encodeBits n bits).
Proof.
  unfold encodeBits. apply Forall_forall. intros b Hb. apply list_elem_of_fmap in Hb as (k & -> & _).
  unfold encode_byte, is_u8, u8. apply Z.mod_pos_bound. lia.
Qed.

(** A bit set of [n] bits survives the encoding. *)
Lemma decode_encodeBits msg n bits r : 0 <= n -> 0 <= bits < 2 ^ n -> bitBufferLen n <= MaxSpanBatchSize ->
  decodeBits msg n (encodeBits n bits ++ r) = Ok (bits, r).
Proof.
  intros Hn Hb Hm. unfold decodeBits. destruct (Z.ltb_spec MaxSpanBatchSize (bitBufferLen n)); [lia|].
  rewrite ReadFull_app by (by rewrite length_encodeBits). cbn [map_err mbind res_bind]. f_equal. f_equal.
  apply Z.bits_inj'. intros k Hk. rewrite testbit_decode_prefix; [|apply encodeBits_ok|done].
  pose proof (bitBufferLen_spec n Hn). rewrite Z2Nat.id by lia. case_bool_decide as Hlt; cbn [andb].
  - pose proof (Nat.div_mod (Z.to_nat k) 8 ltac:(lia)). pose proof (Nat.mod_upper_bound (Z.to_nat k) 8 ltac:(lia)).
    unfold encodeBits. rewrite (nth_indep _ 0 (encode_byte n bits 0)) by (rewrite length_map, length_seq; lia).
    rewrite map_nth, seq_nth, Nat.add_0_l by lia. pose proof (Z.mod_pos_bound k 8 ltac:(lia)).
    rewrite testbit_encode_byte by lia. f_equal. pose proof (Z.div_mod k 8 ltac:(lia)).
    rewrite Nat2Z.inj_mul, Nat2Z.inj_div, Z2Nat.id by lia. lia.
  - rewrite <- (Z.mod_small bits (2 ^ n)) by done. by rewrite Z.mod_pow2_bits_high by lia.
Qed.

(** ** The bit set of a list of bits *)

Fixpoint bits_of (l : list Z) : Z :=
  match l with
  | [] => 0
  | b :: l => b + 2 * bits_of l
  end.

Definition is_bit (b : Z) : Prop := b = 0 \/ b = 1.

Lemma bits_of_bounds l : Forall is_bit l -> 0 <= bits_of l < 2 ^ Z.of_nat (length l).
Proof.
  induction 1 as [|b l Hb Hl IH]; [done|]. cbn [bits_of length]. rewrite Nat2Z.inj_succ, Z.pow_succ_r by lia.
  destruct Hb as [-> | ->]; lia.
Qed.

Lemma testbit_bits_of l i : Forall is_bit l -> Z.testbit (bits_of l) (Z.of_nat i) = (nth i l 0 =? 1).
Proof.
  intros Hl. revert i. induction Hl as [|b l Hb Hl IH]; intros i; [destruct i; apply Z.testbit_0_l|].
  cbn [bits_of]. destruct i as [|i].
  - change (Z.of_nat 0) with 0. rewrite Z.bit0_odd, Z.odd_add_mul_2. by destruct Hb as [-> | ->].
  - rewrite Nat2Z.inj_succ. cbn [nth]. rewrite <- IH. destruct Hb as [-> | ->].
    + rewrite Z.add_0_l. apply Z.testbit_even_succ. lia.
    + rewrite Z.add_comm. apply Z.testbit_odd_succ. lia.
Qed.

Lemma Bit_bits_of l i : Forall is_bit l -> Bit (bits_of l) i = if nth i l 0 =? 1 then 1 else 0.
Proof. intros. unfold Bit. rewrite testbit_bits_of by done. by destruct (_ =? 1). Qed.

Lemma SetBit_bits_of l b : Forall is_bit l -> is_bit b -> SetBit (bits_of l) (length l) b = bits_of (l ++ [b]).
Proof.
  intros Hl Hb. apply Z.bits_inj'. intros k Hk. rewrite testbit_SetBit by done.
  replace k with (Z.of_nat (Z.to_nat k)) by lia. rewrite !testbit_bits_of; [|by apply Forall_app; split; [|constructor]|done].
  case_decide as E.
  - assert (Z.to_nat k = length l) as -> by lia. by rewrite nth_middle.
  - destruct (decide (Z.to_nat k < length l)%nat); [by rewrite app_nth1|].
    rewrite app_nth2, !nth_overflow by (cbn [length]; lia). done.
Qed.
