(* ===== verification/SpanBatchTxs.v ===== *)
(** * The transactions of a span batch

    [op-node/rollup/derive/span_batch_tx.go], [span_batch_txs.go] and
    [ReadTxData] of [span_batch.go]: the transactions of a span are split into
    columns (bits, signatures, recipients, data, nonces, gas limits) and put
    together again. *)

From S2P Require Import Prelude Eth Frame BitCodec.

Section Txs.
(** go-ethereum's access lists. *)
Context {AccessList : Type}.

(** *** Data *)

Inductive spanBatchTxData :=
| spanBatchLegacyTxData (Value GasPrice : Z) (Data : bytes)
| spanBatchAccessListTxData (Value GasPrice : Z) (Data : bytes) (al : AccessList)
| spanBatchDynamicFeeTxData (Value GasTipCap GasFeeCap : Z) (Data : bytes) (al : AccessList).

(** go-ethereum's [types.Transaction]: the fields of the three types the
    source converts from and to; any other type is only a number here. *)
Inductive Transaction :=
| LegacyTx (Nonce GasPrice Gas : Z) (To : option Address) (Value : Z) (Data : bytes) (V R S : Z)
| AccessListTx (ChainID Nonce GasPrice Gas : Z) (To : option Address) (Value : Z) (Data : bytes)
    (al : AccessList) (V R S : Z)
| DynamicFeeTx (ChainID Nonce GasTipCap GasFeeCap Gas : Z) (To : option Address) (Value : Z) (Data : bytes)
    (al : AccessList) (V R S : Z)
| OtherTx (type Nonce Gas : Z) (To : option Address) (V R S : Z).

Definition LegacyTxType : Z := 0.
Definition AccessListTxType : Z := 1.
Definition DynamicFeeTxType : Z := 2.

(** The accessors of [types.Transaction]. *)
Definition tx_Type (tx : Transaction) : Z :=
  match tx with
  | LegacyTx _ _ _ _ _ _ _ _ _ => LegacyTxType
  | AccessListTx _ _ _ _ _ _ _ _ _ _ _ => AccessListTxType
  | DynamicFeeTx _ _ _ _ _ _ _ _ _ _ _ _ => DynamicFeeTxType
  | OtherTx ty _ _ _ _ _ _ => ty
  end.

Definition tx_Nonce (tx : Transaction) : Z :=
  match tx with
  | LegacyTx n _ _ _ _ _ _ _ _ | AccessListTx _ n _ _ _ _ _ _ _ _ _
  | DynamicFeeTx _ n _ _ _ _ _ _ _ _ _ _ | OtherTx _ n _ _ _ _ _ => n
  end.

Definition tx_Gas (tx : Transaction) : Z :=
  match tx with
  | LegacyTx _ _ g _ _ _ _ _ _ | AccessListTx _ _ _ g _ _ _ _ _ _ _
  | DynamicFeeTx _ _ _ _ g _ _ _ _ _ _ _ | OtherTx _ _ g _ _ _ _ => g
  end.

Definition tx_To (tx : Transaction) : option Address :=
  match tx with
  | LegacyTx _ _ _ t _ _ _ _ _ | AccessListTx _ _ _ _ t _ _ _ _ _ _
  | DynamicFeeTx _ _ _ _ _ t _ _ _ _ _ _ | OtherTx _ _ _ t _ _ _ => t
  end.

(** [RawSignatureValues] *)
Definition tx_VRS (tx : Transaction) : Z * Z * Z :=
  match tx with
  | LegacyTx _ _ _ _ _ _ v r s | AccessListTx _ _ _ _ _ _ _ _ v r s
  | DynamicFeeTx _ _ _ _ _ _ _ _ _ v r s | OtherTx _ _ _ _ v r s => (v, r, s)
  end.

(** What an [rlp.Stream] finds at the front of a reader: an error (a value
    larger than the limit, or another one), a list whose raw encoding it
    reads, or something that is not a list. *)
Inductive stream_item :=
| StreamErr (tooLarge : bool)
| StreamList (raw : res (bytes * bytes))
| StreamOther.

(** go-ethereum: transaction codec, replay protection and RLP. *)
Class TxLib := {
  tx_UnmarshalBinary : bytes -> res Transaction;
  tx_MarshalBinary : Transaction -> res bytes;
  Protected : Transaction -> bool;
  ChainId : Transaction -> Z;
  rlp_encode_inner : spanBatchTxData -> res bytes;
  rlp_decode_legacy : bytes -> res spanBatchTxData;
  rlp_decode_access : bytes -> res spanBatchTxData;
  rlp_decode_dynamic : bytes -> res spanBatchTxData;
  rlp_stream : bytes -> stream_item;
}.
Context `{L : TxLib}.

(** *** [span_batch_tx.go] *)

Definition txType (inner : spanBatchTxData) : Z :=
  match inner with
  | spanBatchLegacyTxData _ _ _ => LegacyTxType
  | spanBatchAccessListTxData _ _ _ _ => AccessListTxType
  | spanBatchDynamicFeeTxData _ _ _ _ _ => DynamicFeeTxType
  end.

Definition stx_MarshalBinary (inner : spanBatchTxData) : res bytes :=
  if txType inner =? LegacyTxType then rlp_encode_inner inner
  else
    b ← rlp_encode_inner inner;
    Ok (u8 (txType inner) :: b).

Definition stx_decodeTyped (b : bytes) : res spanBatchTxData :=
  match b with
  | ty :: ((_ :: _) as payload) =>
      if ty =? AccessListTxType then
        map_err (Wrapf "failed to decode spanBatchAccessListTxData") (rlp_decode_access payload)
      else if ty =? DynamicFeeTxType then
        map_err (Wrapf "failed to decode spanBatchDynamicFeeTxData") (rlp_decode_dynamic payload)
      else Err (Errorf "transaction type not supported")
  | _ => Err (Errorf "typed transaction too short")
  end.

Definition stx_UnmarshalBinary (b : bytes) : res spanBatchTxData :=
  match b with
  | h :: _ =>
      if 127 <? h then map_err (Wrapf "failed to decode spanBatchLegacyTxData") (rlp_decode_legacy b)
      else stx_decodeTyped b
  | [] => stx_decodeTyped b
  end.

Definition convertToFullTx (inner : spanBatchTxData) (nonce gas : Z) (to : option Address) (chainID V R S : Z)
    : Transaction :=
  match inner with
  | spanBatchLegacyTxData value gasPrice data => LegacyTx nonce gasPrice gas to value data V R S
  | spanBatchAccessListTxData value gasPrice data al => AccessListTx chainID nonce gasPrice gas to value data al V R S
  | spanBatchDynamicFeeTxData value tip cap data al => DynamicFeeTx chainID nonce tip cap gas to value data al V R S
  end.

Definition newSpanBatchTx (tx : Transaction) : res spanBatchTxData :=
  match tx with
  | LegacyTx _ gasPrice _ _ value data _ _ _ => Ok (spanBatchLegacyTxData value gasPrice data)
  | AccessListTx _ _ gasPrice _ _ value data al _ _ _ => Ok (spanBatchAccessListTxData value gasPrice data al)
  | DynamicFeeTx _ _ tip cap _ _ value data al _ _ _ => Ok (spanBatchDynamicFeeTxData value tip cap data al)
  | OtherTx _ _ _ _ _ _ _ => Err (Errorf "invalid tx type")
  end.

(** *** [span_batch_txs.go] *)

Record spanBatchSignature := mkSig { sig_v : Z; sig_r : Z; sig_s : Z }.

Record spanBatchTxs := mkTxs {
  totalBlockTxCount : Z;
  contractCreationBits : Z;
  yParityBits : Z;
  txSigs : list spanBatchSignature;
  txNonces : list Z;
  txGases : list Z;
  txTos : list Address;
  txDatas : list bytes;
  txTypes : list Z;
}.

Definition invalid_tx_type : go_error := GoPanic "invalid tx type".

Definition convertVToYParity (v ty : Z) : res Z :=
  if ty =? LegacyTxType then Ok (Z.land (v -₆₄ 35) 1)
  else if ty =? AccessListTxType then Ok v
  else if ty =? DynamicFeeTxType then Ok v
  else Err invalid_tx_type.

(** [big.Int.SetBit] refuses anything but a bit. *)
Definition SetBit_checked (x : Z) (i : nat) (b : Z) : res Z :=
  if (b =? 0) || (b =? 1) then Ok (SetBit x i b) else Err (GoPanic "set bit is not 0 or 1").

(** One iteration of the loop of [newSpanBatchTxs]. *)
Definition append_tx (chainID : Z) (idx : nat) (btx : spanBatchTxs) (raw : bytes) : res spanBatchTxs :=
  tx ← map_err (fun _ => Errorf "failed to decode tx") (tx_UnmarshalBinary raw);
  if Protected tx && negb (ChainId tx =? chainID) then Err (Errorf "protected tx has chain ID")
  else
  let '(v, r, s) := tx_VRS tx in
  let txSig := {| sig_v := u64 v; sig_r := r mod 2 ^ 256; sig_s := s mod 2 ^ 256 |} in
  let contractCreationBit := match tx_To tx with Some _ => 0 | None => 1 end in
  yParityBit ← convertVToYParity (sig_v txSig) (tx_Type tx);
  yBits ← SetBit_checked (yParityBits btx) idx yParityBit;
  stx ← newSpanBatchTx tx;
  txData ← stx_MarshalBinary stx;
  Ok {| totalBlockTxCount := totalBlockTxCount btx;
        contractCreationBits := SetBit (contractCreationBits btx) idx contractCreationBit;
        yParityBits := yBits;
        txSigs := txSigs btx ++ [txSig]; txNonces := txNonces btx ++ [tx_Nonce tx];
        txGases := txGases btx ++ [tx_Gas tx];
        txTos := txTos btx ++ match tx_To tx with Some to => [to] | None => [] end;
        txDatas := txDatas btx ++ [txData]; txTypes := txTypes btx ++ [tx_Type tx] |}.

Fixpoint append_txs (chainID : Z) (idx : nat) (btx : spanBatchTxs) (txs : list bytes) : res spanBatchTxs :=
  match txs with
  | [] => Ok btx
  | raw :: txs =>
      btx ← append_tx chainID idx btx raw;
      append_txs chainID (S idx) btx txs
  end.

Definition newSpanBatchTxs (txs : list bytes) (chainID : Z) : res spanBatchTxs :=
  append_txs chainID 0
    {| totalBlockTxCount := Z.of_nat (length txs); contractCreationBits := 0; yParityBits := 0; txSigs := [];
       txNonces := []; txGases := []; txTos := []; txDatas := []; txTypes := [] |} txs.

Definition encodeContractCreationBits (btx : spanBatchTxs) : bytes :=
  encodeBits (totalBlockTxCount btx) (contractCreationBits btx).
Definition encodeYParityBits (btx : spanBatchTxs) : bytes :=
  encodeBits (totalBlockTxCount btx) (yParityBits btx).
Definition encodeTxSigsRS (btx : spanBatchTxs) : bytes :=
  concat (map (fun s => put_be 32 (sig_r s) ++ put_be 32 (sig_s s)) (txSigs btx)).
Definition encodeTxTos (btx : spanBatchTxs) : bytes := concat (txTos btx).
Definition encodeTxDatas (btx : spanBatchTxs) : bytes := concat (txDatas btx).
Definition encodeTxNonces (btx : spanBatchTxs) : bytes := concat (map PutUvarint (txNonces btx)).
Definition encodeTxGases (btx : spanBatchTxs) : bytes := concat (map PutUvarint (txGases btx)).

(** [spanBatchTxs.encode] *)
Definition encode_txs (btx : spanBatchTxs) : bytes :=
  encodeContractCreationBits btx ++ encodeYParityBits btx ++
  encodeTxSigsRS btx ++ encodeTxTos btx ++ encodeTxDatas btx ++ encodeTxNonces btx ++ encodeTxGases btx.

(** A loop that reads [n] items. *)
Fixpoint read_n {A} (rd : bytes -> res (A * bytes)) (n : nat) (r : bytes) : res (list A * bytes) :=
  match n with
  | O => Ok ([], r)
  | S n =>
      '(x, r) ← rd r;
      '(xs, r) ← read_n rd n r;
      Ok (x :: xs, r)
  end.

Definition read_sig (r : bytes) : res (spanBatchSignature * bytes) :=
  '(rb, r) ← map_err (Wrapf "failed to read tx sig r") (ReadFull 32 r);
  '(sb, r) ← map_err (Wrapf "failed to read tx sig s") (ReadFull 32 r);
  Ok ({| sig_v := 0; sig_r := get_be rb; sig_s := get_be sb |}, r).

Definition contractCreationCount (total bits : Z) : Z :=
  fold_left (fun n i => if Bit bits i =? 1 then n + 1 else n) (seq 0 (Z.to_nat total)) 0.

(** [ReadTxData]: the data of a transaction and its type. *)
Definition ReadTxData (r : bytes) : res (bytes * Z * bytes) :=
  '(b, rest) ← map_err (Wrapf "failed to read tx initial byte") (ReadByte r);
  let '(prefix, ty, reader) := if b <=? 127 then ([b], b, rest) else ([], 0, r) in
  match rlp_stream reader with
  | StreamErr tooLarge =>
      if tooLarge then Err ErrTooBigSpanBatchSize else Err (Errorf "failed to read tx RLP prefix")
  | StreamList raw =>
      '(txPayload, reader) ← map_err (Wrapf "failed to read tx RLP payload") raw;
      Ok (prefix ++ txPayload, ty, reader)
  | StreamOther => Err (Errorf "tx RLP prefix type must be list")
  end.

Definition decodeContractCreationBits (total : Z) (r : bytes) : res (Z * bytes) :=
  decodeBits "failed to read contract creation bits" total r.
Definition decodeYParityBits (total : Z) (r : bytes) : res (Z * bytes) :=
  decodeBits "failed to read y parity bits" total r.
Definition decodeTxSigsRS (total : Z) (r : bytes) : res (list spanBatchSignature * bytes) :=
  read_n read_sig (Z.to_nat total) r.
Definition decodeTxTos (total creation : Z) (r : bytes) : res (list Address * bytes) :=
  read_n (fun r => map_err (Wrapf "failed to read tx to address") (ReadFull 20 r))
         (Z.to_nat (total -₆₄ contractCreationCount total creation)) r.
Definition decodeTxDatas (total : Z) (r : bytes) : res (list (bytes * Z) * bytes) :=
  read_n ReadTxData (Z.to_nat total) r.
Definition decodeTxNonces (total : Z) (r : bytes) : res (list Z * bytes) :=
  read_n (fun r => map_err (Wrapf "failed to read tx nonce") (ReadUvarint r)) (Z.to_nat total) r.
Definition decodeTxGases (total : Z) (r : bytes) : res (list Z * bytes) :=
  read_n (fun r => map_err (Wrapf "failed to read tx gas") (ReadUvarint r)) (Z.to_nat total) r.

(** [spanBatchTxs.decode] for a given [totalBlockTxCount]. *)
Definition decode_txs (total : Z) (r : bytes) : res (spanBatchTxs * bytes) :=
  '(creation, r) ← decodeContractCreationBits total r;
  '(yparity, r) ← decodeYParityBits total r;
  '(sigs, r) ← decodeTxSigsRS total r;
  '(tos, r) ← decodeTxTos total creation r;
  '(datas, r) ← decodeTxDatas total r;
  '(nonces, r) ← decodeTxNonces total r;
  '(gases, r) ← decodeTxGases total r;
  Ok ({| totalBlockTxCount := total; contractCreationBits := creation; yParityBits := yparity; txSigs := sigs;
         txNonces := nonces; txGases := gases; txTos := tos; txDatas := map fst datas; txTypes := map snd datas |}, r).

(** [recoverV] *)
Definition recover_one (chainID yBits : Z) (idx : nat) (ty : Z) (sig : spanBatchSignature) : res spanBatchSignature :=
  let bit := Bit yBits idx in
  v ← (if ty =? LegacyTxType then Ok (u64 chainID *₆₄ 2 +₆₄ 35 +₆₄ bit)
       else if ty =? AccessListTxType then Ok bit
       else if ty =? DynamicFeeTxType then Ok bit
       else Err invalid_tx_type);
  Ok {| sig_v := v; sig_r := sig_r sig; sig_s := sig_s sig |}.

Fixpoint recover_sigs (chainID yBits : Z) (idx : nat) (types : list Z) (sigs : list spanBatchSignature)
    : res (list spanBatchSignature) :=
  match types, sigs with
  | ty :: types, sig :: sigs =>
      sig ← recover_one chainID yBits idx ty sig;
      sigs ← recover_sigs chainID yBits (S idx) types sigs;
      Ok (sig :: sigs)
  | _, _ => Ok []
  end.

Definition recoverV (chainID : Z) (btx : spanBatchTxs) : res spanBatchTxs :=
  if negb (length (txTypes btx) =? length (txSigs btx))%nat then
    Err (GoPanic "tx type length and tx sigs length mismatch")
  else
    sigs ← recover_sigs chainID (yParityBits btx) 0 (txTypes btx) (txSigs btx);
    Ok {| totalBlockTxCount := totalBlockTxCount btx; contractCreationBits := contractCreationBits btx;
          yParityBits := yParityBits btx; txSigs := sigs; txNonces := txNonces btx; txGases := txGases btx;
          txTos := txTos btx; txDatas := txDatas btx; txTypes := txTypes btx |}.

(** [fullTxs]: the loop from index [idx] on, [toIdx] recipients used. *)
Fixpoint full_txs_loop (chainID : Z) (btx : spanBatchTxs) (n idx toIdx : nat) : res (list bytes) :=
  match n with
  | O => Ok []
  | S n =>
      data ← index (txDatas btx) (Z.of_nat idx);
      stx ← stx_UnmarshalBinary data;
      nonce ← index (txNonces btx) (Z.of_nat idx);
      gas ← index (txGases btx) (Z.of_nat idx);
      '(to, toIdx) ← (if Bit (contractCreationBits btx) idx =? 0 then
                        match txTos btx !! toIdx with
                        | None => Err (Errorf "tx to not enough")
                        | Some to => Ok (Some to, S toIdx)
                        end
                      else Ok (None, toIdx));
      sig ← index (txSigs btx) (Z.of_nat idx);
      encodedTx ← tx_MarshalBinary (convertToFullTx stx nonce gas to chainID (sig_v sig) (sig_r sig) (sig_s sig));
      txs ← full_txs_loop chainID btx n (S idx) toIdx;
      Ok (encodedTx :: txs)
  end.

Definition fullTxs (chainID : Z) (btx : spanBatchTxs) : res (list bytes) :=
  full_txs_loop chainID btx (Z.to_nat (totalBlockTxCount btx)) 0 0.

(** ** The columns of a list of transactions *)

Record tx_info := mkInfo {
  in_sig : spanBatchSignature;
  in_to : option Address;
  in_nonce : Z;
  in_gas : Z;
  in_data : bytes;
  in_type : Z;
  in_y : Z;
}.

Definition creation_bit (i : tx_info) : Z := match in_to i with Some _ => 0 | None => 1 end.

Definition columns (total : Z) (xs : list tx_info) : spanBatchTxs :=
  {| totalBlockTxCount := total; contractCreationBits := bits_of (map creation_bit xs);
     yParityBits := bits_of (map in_y xs); txSigs := map in_sig xs; txNonces := map in_nonce xs;
     txGases := map in_gas xs; txTos := omap in_to xs; txDatas := map in_data xs; txTypes := map in_type xs |}.

(** What [newSpanBatchTxs] records of one transaction. *)
Record tx_recorded (chainID : Z) (raw : bytes) (i : tx_info) : Prop := {
  tr_ex : exists tx inner, tx_UnmarshalBinary raw = Ok tx /\ newSpanBatchTx tx = Ok inner /\
    stx_MarshalBinary inner = Ok (in_data i) /\
    (Protected tx = true -> ChainId tx = chainID) /\
    in_sig i = {| sig_v := u64 (tx_VRS tx).1.1; sig_r := (tx_VRS tx).1.2 mod 2 ^ 256; sig_s := (tx_VRS tx).2 mod 2 ^ 256 |} /\
    in_to i = tx_To tx /\ in_nonce i = tx_Nonce tx /\ in_gas i = tx_Gas tx /\ in_type i = tx_Type tx /\
    convertVToYParity (u64 (tx_VRS tx).1.1) (tx_Type tx) = Ok (in_y i);
  tr_bit : is_bit (in_y i);
}.

Lemma creation_bits xs : Forall is_bit (map creation_bit xs).
Proof. apply Forall_fmap, Forall_forall. intros i _. unfold compose, is_bit, creation_bit. destruct (in_to i); [by left|by right]. Qed.

Lemma append_tx_columns chainID total xs raw btx :
  Forall is_bit (map in_y xs) ->
  append_tx chainID (length xs) (columns total xs) raw = Ok btx ->
  exists i, tx_recorded chainID raw i /\ btx = columns total (xs ++ [i]).
Proof.
  intros Hy H. unfold append_tx in H.
  destruct (tx_UnmarshalBinary raw) as [tx|] eqn:Eu; cbn [map_err mbind res_bind] in H; [|done].
  destruct (Protected tx && negb (ChainId tx =? chainID)) eqn:Ep; [done|].
  destruct (tx_VRS tx) as [[v r] s] eqn:Ev. cbn [sig_v] in H.
  destruct (convertVToYParity (u64 v) (tx_Type tx)) as [y|] eqn:Ey; cbn [mbind res_bind] in H; [|done].
  unfold SetBit_checked in H. destruct ((y =? 0) || (y =? 1)) eqn:Eb; cbn [mbind res_bind] in H; [|done].
  destruct (newSpanBatchTx tx) as [inner|] eqn:Ei; cbn [mbind res_bind] in H; [|done].
  destruct (stx_MarshalBinary inner) as [data|] eqn:Ed; cbn [mbind res_bind] in H; [|done].
  apply Ok_inj in H. subst btx.
  assert (Hb : is_bit y) by (apply orb_true_iff in Eb as [Eb|Eb]; apply Z.eqb_eq in Eb; [by left|by right]).
  exists {| in_sig := {| sig_v := u64 v; sig_r := r mod 2 ^ 256; sig_s := s mod 2 ^ 256 |};
            in_to := tx_To tx; in_nonce := tx_Nonce tx; in_gas := tx_Gas tx; in_data := data;
            in_type := tx_Type tx; in_y := y |}.
  split.
  - constructor; [|done]. exists tx, inner. rewrite Ev. repeat split; try done.
    intros Hp. rewrite Hp in Ep. cbn in Ep. destruct (Z.eqb_spec (ChainId tx) chainID); done.
  - unfold columns. cbn [totalBlockTxCount contractCreationBits yParityBits txSigs txNonces txGases txTos txDatas txTypes].
    rewrite !map_app. cbn [map]. rewrite omap_app. f_equal.
    + rewrite <- (length_map creation_bit xs) at 1. rewrite SetBit_bits_of; [done|apply creation_bits|].
      destruct (tx_To tx); [by left|by right].
    + rewrite <- (length_map in_y xs) at 1. by rewrite SetBit_bits_of.
Qed.

Lemma append_txs_columns chainID total txs : forall xs btx,
  Forall is_bit (map in_y xs) ->
  append_txs chainID (length xs) (columns total xs) txs = Ok btx ->
  exists js, Forall2 (tx_recorded chainID) txs js /\ btx = columns total (xs ++ js).
Proof.
  induction txs as [|raw txs IH]; intros xs btx Hy H.
  { cbn in H. injection H as <-. exists []. by rewrite app_nil_r. }
  cbn [append_txs] in H. apply res_bind_ok in H as (b1 & H1 & H).
  destruct (append_tx_columns _ _ _ _ _ Hy H1) as (i & Hi & ->).
  replace (S (length xs)) with (length (xs ++ [i])) in H by (rewrite length_app; cbn; lia).
  apply IH in H as (js & Hjs & ->).
  - exists (i :: js). rewrite <- app_assoc. split; [by constructor|done].
  - rewrite map_app. apply Forall_app. split; [done|]. constructor; [|done]. apply Hi.
Qed.

Lemma newSpanBatchTxs_columns txs chainID btx : newSpanBatchTxs txs chainID = Ok btx ->
  exists xs, Forall2 (tx_recorded chainID) txs xs /\ btx = columns (Z.of_nat (length txs)) xs.
Proof. intros H. apply (append_txs_columns chainID _ txs []) in H; [done|constructor]. Qed.

(** ** Decoding the columns *)

(** What the source relies on of go-ethereum: the RLP of a struct is a list
    that a stream reads back whole and that decodes to the struct; the
    encoding of transactions is canonical; the chain id of a protected legacy
    transaction is the one in its [V] (EIP-155), the one of a typed
    transaction its field. *)
Record tx_laws : Prop := {
  law_inner : forall d b, rlp_encode_inner d = Ok b ->
    (exists h t, b = h :: t /\ 192 <= h) /\
    (blen b <= MaxSpanBatchSize -> forall rest, rlp_stream (b ++ rest) = StreamList (Ok (b, rest))) /\
    match d with
    | spanBatchLegacyTxData _ _ _ => rlp_decode_legacy b
    | spanBatchAccessListTxData _ _ _ _ => rlp_decode_access b
    | spanBatchDynamicFeeTxData _ _ _ _ _ => rlp_decode_dynamic b
    end = Ok d;
  law_canonical : forall b t, tx_UnmarshalBinary b = Ok t -> tx_MarshalBinary t = Ok b;
  law_chain : forall b t, tx_UnmarshalBinary b = Ok t -> Protected t = true ->
    match t with
    | LegacyTx _ _ _ _ _ _ v _ _ => 35 <= v -> exists y, is_bit y /\ v = 2 * ChainId t + 35 + y
    | AccessListTx c _ _ _ _ _ _ _ _ _ _ | DynamicFeeTx c _ _ _ _ _ _ _ _ _ _ _ => ChainId t = c
    | OtherTx _ _ _ _ _ _ _ => True
    end;
}.

Lemma stx_marshal_cases (W : tx_laws) inner b : stx_MarshalBinary inner = Ok b ->
  exists p, rlp_encode_inner inner = Ok p /\
    b = (if txType inner =? LegacyTxType then [] else [txType inner]) ++ p.
Proof.
  unfold stx_MarshalBinary. destruct inner; cbn [txType Z.eqb LegacyTxType AccessListTxType DynamicFeeTxType Pos.eqb];
    try (intros ->; by eexists); destruct (rlp_encode_inner _) as [p|] eqn:Ep; cbn [mbind res_bind]; try done;
    intros H; apply Ok_inj in H; subst b; exists p; split; done.
Qed.

Lemma ReadTxData_marshal (W : tx_laws) inner b rest : stx_MarshalBinary inner = Ok b -> blen b <= MaxSpanBatchSize ->
  ReadTxData (b ++ rest) = Ok (b, txType inner, rest).
Proof.
  intros Hm Hl. destruct (stx_marshal_cases W _ _ Hm) as (p & Hp & ->).
  destruct (law_inner W _ _ Hp) as ((h & t & -> & Hh) & Hs & _).
  rewrite blen_app in Hl. pose proof (blen_nonneg (if txType inner =? LegacyTxType then [] else [txType inner])).
  specialize (Hs ltac:(lia)). unfold ReadTxData.
  destruct inner; cbn [txType Z.eqb LegacyTxType AccessListTxType DynamicFeeTxType Pos.eqb app ReadByte map_err mbind res_bind].
  - destruct (Z.leb_spec h 127); [lia|].
    rewrite (Hs rest : rlp_stream (h :: t ++ rest) = _). done.
  - change (AccessListTxType <=? 127) with true. cbv beta iota. by rewrite (Hs rest : rlp_stream (h :: t ++ rest) = _).
  - change (DynamicFeeTxType <=? 127) with true. cbv beta iota. by rewrite (Hs rest : rlp_stream (h :: t ++ rest) = _).
Qed.

Lemma stx_unmarshal_marshal (W : tx_laws) inner b : stx_MarshalBinary inner = Ok b -> stx_UnmarshalBinary b = Ok inner.
Proof.
  intros Hm. destruct (stx_marshal_cases W _ _ Hm) as (p & Hp & ->).
  destruct (law_inner W _ _ Hp) as ((h & t & -> & Hh) & _ & Hd). unfold stx_UnmarshalBinary.
  destruct inner; cbn [txType Z.eqb LegacyTxType AccessListTxType DynamicFeeTxType Pos.eqb app].
  - destruct (Z.ltb_spec 127 h); [by rewrite Hd|lia].
  - change (127 <? AccessListTxType) with false. cbn [stx_decodeTyped]. by rewrite Z.eqb_refl, Hd.
  - change (127 <? DynamicFeeTxType) with false. cbn [stx_decodeTyped].
    change (DynamicFeeTxType =? AccessListTxType) with false. cbv iota. by rewrite Z.eqb_refl, Hd.
Qed.

(** Reading the items one by one that were written one after the other. *)
Lemma read_n_concat {A B} (rd : bytes -> res (A * bytes)) (enc : B -> bytes) (dec : B -> A) (xs : list B) r :
  Forall (fun x => forall r, rd (enc x ++ r) = Ok (dec x, r)) xs ->
  read_n rd (length xs) (concat (map enc xs) ++ r) = Ok (map dec xs, r).
Proof.
  induction 1 as [|x xs Hx Hxs IH]; [done|]. cbn [read_n length map concat]. rewrite <- app_assoc, Hx.
  cbn [mbind res_bind]. rewrite IH. done.
Qed.

Definition info_wf (i : tx_info) : Prop :=
  (forall a, in_to i = Some a -> length a = 20%nat) /\ is_u64 (in_nonce i) /\ is_u64 (in_gas i) /\
  is_u256 (sig_r (in_sig i)) /\ is_u256 (sig_s (in_sig i)) /\ is_bit (in_y i) /\
  exists inner, stx_MarshalBinary inner = Ok (in_data i) /\ blen (in_data i) <= MaxSpanBatchSize /\
    in_type i = txType inner.

Definition clear_v (i : tx_info) : tx_info :=
  {| in_sig := {| sig_v := 0; sig_r := sig_r (in_sig i); sig_s := sig_s (in_sig i) |}; in_to := in_to i;
     in_nonce := in_nonce i; in_gas := in_gas i; in_data := in_data i; in_type := in_type i; in_y := in_y i |}.

Lemma count_run (l : list Z) : Forall is_bit l -> forall pre acc, Forall is_bit pre ->
  fold_left (fun n i => if Bit (bits_of (pre ++ l)) i =? 1 then n + 1 else n) (seq (length pre) (length l)) acc
  = acc + foldr Z.add 0 l.
Proof.
  induction 1 as [|b l Hb Hl IH]; intros pre acc Hpre; cbn [seq length fold_left foldr]; [lia|].
  replace (pre ++ b :: l) with ((pre ++ [b]) ++ l) by (by rewrite <- app_assoc).
  replace (S (length pre)) with (length (pre ++ [b])) by (rewrite length_app; cbn; lia).
  rewrite IH by (apply Forall_app; split; [done|by constructor]).
  rewrite Bit_bits_of by (repeat (apply Forall_app; split); try done; by constructor).
  rewrite <- app_assoc. cbn [app]. rewrite nth_middle. destruct Hb as [-> | ->]; cbn; lia.
Qed.

Lemma creation_count xs :
  contractCreationCount (Z.of_nat (length xs)) (bits_of (map creation_bit xs)) =
    Z.of_nat (length xs) - Z.of_nat (length (omap in_to xs)).
Proof.
  unfold contractCreationCount. rewrite Nat2Z.id, <- (length_map creation_bit xs).
  pose proof (count_run (map creation_bit xs) (creation_bits xs) [] 0 ltac:(constructor)) as H. cbn [app length] in H.
  rewrite H. clear H. rewrite length_map. induction xs as [|x xs IH]; [done|].
  cbn [map foldr length omap list_omap]. unfold creation_bit at 1. destruct (in_to x); cbn [length]; lia.
Qed.

Lemma creation_nonneg xs : (length (omap in_to xs) <= length xs)%nat.
Proof. induction xs as [|x xs IH]; [done|]. cbn. destruct (in_to x); cbn; lia. Qed.

Lemma omap_clear xs : omap in_to (map clear_v xs) = omap in_to xs.
Proof. induction xs as [|x xs IH]; [done|]. cbn. destruct (in_to x); by rewrite IH. Qed.

Lemma decode_columns (W : tx_laws) xs r :
  Forall info_wf xs -> Z.of_nat (length xs) <= MaxSpanBatchSize ->
  decode_txs (Z.of_nat (length xs)) (encode_txs (columns (Z.of_nat (length xs)) xs) ++ r) =
    Ok (columns (Z.of_nat (length xs)) (map clear_v xs), r).
Proof.
  intros Hwf Hmax. set (n := Z.of_nat (length xs)) in *. unfold decode_txs, encode_txs, decodeContractCreationBits,
    decodeYParityBits, decodeTxSigsRS, decodeTxTos, decodeTxDatas, decodeTxNonces, decodeTxGases, encodeContractCreationBits,
    encodeYParityBits.
  cbn [totalBlockTxCount contractCreationBits yParityBits columns]. rewrite <- !app_assoc.
  assert (Hlen : bitBufferLen n <= MaxSpanBatchSize).
  { pose proof (bitBufferLen_spec n ltac:(lia)). unfold MaxSpanBatchSize in *. lia. }
  assert (Hy : Forall is_bit (map in_y xs)).
  { apply Forall_fmap. eapply Forall_impl; [exact Hwf|]. by intros x (_ & _ & _ & _ & _ & ? & _). }
  assert (Hb1 : 0 <= bits_of (map creation_bit xs) < 2 ^ n).
  { pose proof (bits_of_bounds _ (creation_bits xs)) as Hb. by rewrite length_map in Hb. }
  assert (Hb2 : 0 <= bits_of (map in_y xs) < 2 ^ n).
  { pose proof (bits_of_bounds _ Hy) as Hb. by rewrite length_map in Hb. }
  rewrite decode_encodeBits by (done || lia). cbn [mbind res_bind].
  rewrite decode_encodeBits by (done || lia). cbn [mbind res_bind].
  unfold encodeTxSigsRS. cbn [txSigs columns]. rewrite map_map. unfold n in *. rewrite Nat2Z.id.
  rewrite (read_n_concat read_sig _ (fun i => in_sig (clear_v i))); cycle 1.
  { eapply Forall_impl; [exact Hwf|]. intros x (_ & _ & _ & Hr & Hs & _) q. unfold read_sig, is_u256 in *.
    rewrite <- app_assoc, ReadFull_app by (by rewrite blen_put_be). cbn [map_err mbind res_bind].
    rewrite ReadFull_app by (by rewrite blen_put_be). cbn [map_err mbind res_bind].
    by rewrite !get_put_be by (cbn; lia). }
  cbn [mbind res_bind]. rewrite creation_count.
  pose proof (creation_nonneg xs).
  assert (Htn : Z.to_nat (Z.of_nat (length xs) -₆₄ (Z.of_nat (length xs) - Z.of_nat (length (omap in_to xs)))) = length (omap in_to xs)).
  { unfold sub64. rewrite u64_id by (unfold is_u64, MaxSpanBatchSize, MaxRLPBytesPerChannel in *; lia). lia. }
  rewrite Htn.
  unfold encodeTxTos. cbn [txTos columns].
  pose proof (read_n_concat (fun r => map_err (Wrapf "failed to read tx to address") (ReadFull 20 r))
    (fun a : Address => a) (fun a => a) (omap in_to xs)) as Htos.
  rewrite !map_id in Htos. rewrite Htos; cycle 1.
  { apply Forall_forall. intros a Ha. apply list_elem_of_omap in Ha as (x & Hx & Hxa). rewrite Forall_forall in Hwf.
    destruct (Hwf x Hx) as (Hto & _). intros q. rewrite ReadFull_app; [done|]. unfold blen. by rewrite (Hto a Hxa). }
  cbn [mbind res_bind]. unfold encodeTxDatas. cbn [txDatas columns].
  rewrite (read_n_concat ReadTxData in_data (fun i => (in_data i, in_type i))); cycle 1.
  { eapply Forall_impl; [exact Hwf|]. intros x (_ & _ & _ & _ & _ & _ & inner & Hm & Hl & Ht) q.
    rewrite (ReadTxData_marshal W inner) by done. by rewrite Ht. }
  cbn [mbind res_bind]. unfold encodeTxNonces, encodeTxGases. cbn [txNonces txGases columns]. rewrite !map_map.
  rewrite (read_n_concat _ (fun x => PutUvarint (in_nonce x)) in_nonce); cycle 1.
  { eapply Forall_impl; [exact Hwf|]. intros x (_ & ? & _) q. by rewrite ReadUvarint_put. }
  cbn [mbind res_bind].
  rewrite (read_n_concat _ (fun x => PutUvarint (in_gas x)) in_gas); cycle 1.
  { eapply Forall_impl; [exact Hwf|]. intros x (_ & _ & ? & _) q. by rewrite ReadUvarint_put. }
  cbn [mbind res_bind]. unfold columns. by rewrite omap_clear, !map_map.
Qed.

(** ** Putting the transactions together again *)

(** A signed transaction as it stands in an L2 block: replay protected, with
    fields of their width. *)
Definition valid_tx (raw : bytes) : Prop :=
  exists t, tx_UnmarshalBinary raw = Ok t /\ Protected t = true /\
    is_u64 (tx_Nonce t) /\ is_u64 (tx_Gas t) /\ (forall a, tx_To t = Some a -> length a = 20%nat) /\
    is_u256 (tx_VRS t).1.2 /\ is_u256 (tx_VRS t).2 /\
    (if tx_Type t =? LegacyTxType then 35 <= (tx_VRS t).1.1 else is_bit (tx_VRS t).1.1).

Definition sig_of (i : tx_info) : spanBatchSignature := in_sig i.

(** What one recorded transaction gives back. *)
Record tx_restored (chainID : Z) (raw : bytes) (i : tx_info) : Prop := {
  rs_wf : blen (in_data i) <= MaxSpanBatchSize -> info_wf i;
  rs_recover : forall yBits idx, Bit yBits idx = in_y i ->
    recover_one chainID yBits idx (in_type i) (in_sig (clear_v i)) = Ok (in_sig i);
  rs_full : exists stx, stx_UnmarshalBinary (in_data i) = Ok stx /\
    tx_MarshalBinary (convertToFullTx stx (in_nonce i) (in_gas i) (in_to i) chainID
      (sig_v (in_sig i)) (sig_r (in_sig i)) (sig_s (in_sig i))) = Ok raw;
}.

Lemma parity_eip155 c y : 0 <= c -> 2 * c + 36 < 2 ^ 64 -> is_bit y ->
  u64 (2 * c + 35 + y) = 2 * c + 35 + y /\ Z.land ((2 * c + 35 + y) -₆₄ 35) 1 = y /\
  u64 c *₆₄ 2 +₆₄ 35 +₆₄ y = 2 * c + 35 + y.
Proof.
  intros Hc Hm Hy. assert (0 <= y <= 1) by (destruct Hy; lia).
  split; [apply u64_id; unfold is_u64; lia|]. split.
  - unfold sub64. rewrite u64_id by (unfold is_u64; lia).
    rewrite (Z.land_ones _ 1 ltac:(lia) : Z.land _ 1 = _ mod 2).
    replace (2 * c + 35 + y - 35) with (y + c * 2) by lia. rewrite Z_mod_plus_full. apply Z.mod_small. lia.
  - unfold add64, mul64. rewrite (u64_id c) by (unfold is_u64; lia). rewrite (u64_id (c * 2)) by (unfold is_u64; lia).
    rewrite (u64_id (c * 2 + 35)) by (unfold is_u64; lia). rewrite u64_id by (unfold is_u64; lia). lia.
Qed.

Lemma mod256 x : is_u256 x -> x mod 2 ^ 256 = x.
Proof. intros H. apply Z.mod_small. exact H. Qed.

Lemma recorded_restored (W : tx_laws) chainID raw i : 0 <= chainID -> 2 * chainID + 36 < 2 ^ 64 ->
  tx_recorded chainID raw i -> valid_tx raw -> tx_restored chainID raw i.
Proof.
  intros Hc Hm [(tx & inner & Hu & Hi & Hd & Hch & Hsig & Hto & Hn & Hg & Hty & Hy) Hbit]
    (t & Hu' & Hp & Hnw & Hgw & Htw & Hrw & Hsw & Hvw).
  assert (t = tx) as -> by congruence. specialize (Hch Hp).
  pose proof (law_chain W _ _ Hu Hp) as Hlaw. pose proof (law_canonical W _ _ Hu) as Hcan.
  assert (Htyi : tx_Type tx = txType inner).
  { destruct tx; cbn in Hi; try discriminate; injection Hi as <-; done. }
  assert (Hv : u64 (tx_VRS tx).1.1 = (tx_VRS tx).1.1 /\
    forall yBits idx, Bit yBits idx = in_y i ->
      recover_one chainID yBits idx (in_type i) (in_sig (clear_v i)) =
        Ok {| sig_v := (tx_VRS tx).1.1; sig_r := sig_r (in_sig i); sig_s := sig_s (in_sig i) |}).
  { rewrite Hty. destruct tx; cbn in Hi; try discriminate; cbn [tx_VRS tx_Type fst snd] in *.
    - cbn in Hvw. destruct (Hlaw Hvw) as (y & Hyb & Hv). rewrite Hch in Hv. destruct (parity_eip155 chainID y Hc Hm Hyb) as (E1 & E2 & E3).
      rewrite Hv in *. rewrite E1 in *. split; [done|]. intros yBits idx Hb. unfold convertVToYParity in Hy.
      rewrite Z.eqb_refl, E2 in Hy. apply Ok_inj in Hy. unfold recover_one. rewrite Hb, Z.eqb_refl, <- Hy, E3. done.
    - assert (Hvb : is_bit V) by exact Hvw. assert (u64 V = V) as E by (destruct Hvb as [-> | ->]; done).
      rewrite E in *. split; [done|]. intros yBits idx Hb. apply Ok_inj in Hy. unfold recover_one. rewrite Hb, <- Hy. done.
    - assert (Hvb : is_bit V) by exact Hvw. assert (u64 V = V) as E by (destruct Hvb as [-> | ->]; done).
      rewrite E in *. split; [done|]. intros yBits idx Hb. apply Ok_inj in Hy. unfold recover_one. rewrite Hb, <- Hy. done. }
  destruct Hv as [Hv Hrec]. rewrite !mod256 in Hsig by done. rewrite Hv in Hsig.
  constructor.
  - intros Hl. unfold info_wf. rewrite Hn, Hg, Hto, Hsig. cbn [sig_r sig_s].
    repeat (split; [done|]). exists inner. repeat split; congruence.
  - intros yBits idx Hb. rewrite (Hrec _ _ Hb), Hsig. done.
  - exists inner. split; [by apply stx_unmarshal_marshal|]. rewrite Hsig, Hn, Hg, Hto. cbn [sig_v sig_r sig_s].
    rewrite <- Hcan. f_equal.
    destruct tx; cbn in Hi; try discriminate; injection Hi as <-; cbn in *; congruence.
Qed.

Lemma index_middle {A} (pre : list A) x post : index (pre ++ x :: post) (Z.of_nat (length pre)) = Ok x.
Proof.
  unfold index. destruct (Z.ltb_spec (Z.of_nat (length pre)) 0); [lia|]. by rewrite Nat2Z.id, list_lookup_middle.
Qed.

Lemma index_map {A} (f : tx_info -> A) pre x xs :
  index (map f pre ++ f x :: map f xs) (Z.of_nat (length pre)) = Ok (f x).
Proof. rewrite <- (length_map f pre). apply index_middle. Qed.

Lemma Bit_middle pre x post : Forall is_bit (pre ++ x :: post) -> Bit (bits_of (pre ++ x :: post)) (length pre) = x.
Proof.
  intros H. rewrite Bit_bits_of by done. rewrite nth_middle.
  apply Forall_app in H as [_ H]. apply Forall_cons_1 in H as [[-> | ->] _]; done.
Qed.

Lemma recover_columns chainID raws xs : Forall2 (tx_restored chainID) raws xs ->
  forall pre, Forall is_bit (pre ++ map in_y xs) ->
  recover_sigs chainID (bits_of (pre ++ map in_y xs)) (length pre) (map in_type xs) (map in_sig (map clear_v xs)) =
    Ok (map in_sig xs).
Proof.
  induction 1 as [|raw x raws xs Hx Hxs IH]; intros pre Hb; [done|]. cbn [map recover_sigs].
  rewrite (rs_recover _ _ _ Hx) by (by apply Bit_middle). cbn [mbind res_bind].
  replace (pre ++ in_y x :: map in_y xs) with ((pre ++ [in_y x]) ++ map in_y xs) by (by rewrite <- app_assoc).
  replace (S (length pre)) with (length (pre ++ [in_y x])) by (rewrite length_app; cbn; lia).
  cbn [map] in Hb.
  replace (pre ++ in_y x :: map in_y xs) with ((pre ++ [in_y x]) ++ map in_y xs) in Hb by (by rewrite <- app_assoc).
  by rewrite (IH _ Hb).
Qed.

Lemma full_columns chainID total raws xs : Forall2 (tx_restored chainID) raws xs ->
  forall pre, full_txs_loop chainID (columns total (pre ++ xs)) (length xs) (length pre) (length (omap in_to pre)) = Ok raws.
Proof.
  induction 1 as [|raw x raws xs Hx Hxs IH]; intros pre; [done|]. cbn [length full_txs_loop].
  cbn [columns txDatas txNonces txGases txSigs txTos contractCreationBits]. rewrite !map_app. cbn [map].
  rewrite (index_map in_data). cbn [mbind res_bind].
  destruct (rs_full _ _ _ Hx) as (stx & Hstx & Hm). rewrite Hstx. cbn [mbind res_bind].
  rewrite (index_map in_nonce). cbn [mbind res_bind]. rewrite (index_map in_gas). cbn [mbind res_bind].
  assert (Hbit : Bit (bits_of (map creation_bit pre ++ creation_bit x :: map creation_bit xs)) (length pre) = creation_bit x).
  { rewrite <- (length_map creation_bit pre). apply Bit_middle.
    pose proof (creation_bits (pre ++ x :: xs)) as Hcb. by rewrite map_app in Hcb. }
  rewrite Hbit, (index_map in_sig), omap_app.
  specialize (IH (pre ++ [x])). rewrite <- app_assoc in IH. cbn [app] in IH.
  rewrite length_app, Nat.add_1_r, omap_app in IH. cbn [omap list_omap] in IH |- *. unfold creation_bit at 1.
  destruct (in_to x) as [to|] eqn:Et; cbn [Z.eqb mbind res_bind].
  - rewrite list_lookup_middle by done. cbn [mbind res_bind]. rewrite Hm. cbn [mbind res_bind].
    rewrite length_app, Nat.add_1_r in IH. by rewrite IH.
  - rewrite Hm. cbn [mbind res_bind]. rewrite app_nil_r in IH. by rewrite IH.
Qed.

(** Encoding and decoding the transactions, then recovering the signatures and
    assembling them, gives back the transactions. *)
Lemma txs_roundtrip (W : tx_laws) chainID txs btx r :
  0 <= chainID -> 2 * chainID + 36 < 2 ^ 64 -> Z.of_nat (length txs) <= MaxSpanBatchSize ->
  Forall valid_tx txs -> newSpanBatchTxs txs chainID = Ok btx -> blen (encodeTxDatas btx) <= MaxSpanBatchSize ->
  exists btx' full, decode_txs (Z.of_nat (length txs)) (encode_txs btx ++ r) = Ok (btx', r) /\
    recoverV chainID btx' = Ok full /\ fullTxs chainID full = Ok txs.
Proof.
  intros Hc Hm Hlen Hv Hnew Hdata. apply newSpanBatchTxs_columns in Hnew as (xs & Hxs & ->).
  assert (Hr : Forall2 (tx_restored chainID) txs xs).
  { clear Hlen Hdata. induction Hxs as [|raw x txs xs Hx Hxs IH]; [constructor|].
    apply Forall_cons_1 in Hv as [Hv1 Hv]. constructor; [|by apply IH]. by apply (recorded_restored W). }
  assert (Hwf : Forall info_wf xs).
  { apply Forall_forall. intros x Hx. apply list_elem_of_lookup in Hx as [k Hk].
    destruct (Forall2_lookup_r _ _ _ _ _ Hr Hk) as (raw & _ & Hraw). apply (rs_wf _ _ _ Hraw).
    etrans; [|exact Hdata]. unfold encodeTxDatas. cbn [txDatas columns]. apply list_elem_of_lookup_2 in Hk.
    clear - Hk. induction xs as [|y xs IH]; [by apply not_elem_of_nil in Hk|]. cbn [map concat]. rewrite blen_app.
    pose proof (blen_nonneg (concat (map in_data xs))). pose proof (blen_nonneg (in_data y)).
    apply elem_of_cons in Hk as [->|Hk]; [lia|]. specialize (IH Hk). lia. }
  pose proof (Forall2_length _ _ _ Hxs) as Hl. rewrite Hl in *.
  exists (columns (Z.of_nat (length xs)) (map clear_v xs)), (columns (Z.of_nat (length xs)) xs).
  split; [by apply decode_columns|]. split.
  - unfold recoverV. cbn [columns txTypes txSigs yParityBits]. rewrite !length_map, Nat.eqb_refl. cbn [negb].
    assert (Hty : map in_type (map clear_v xs) = map in_type xs) by (by rewrite map_map).
    assert (Hyy : map in_y (map clear_v xs) = map in_y xs) by (by rewrite map_map).
    rewrite Hty, Hyy. pose proof (recover_columns chainID txs xs Hr []) as Hrec. cbn [app length] in Hrec.
    rewrite Hrec; cycle 1.
    { apply Forall_fmap. eapply Forall_impl; [exact Hwf|]. by intros x (_ & _ & _ & _ & _ & ? & _). }
    cbn [mbind res_bind]. unfold columns. rewrite omap_clear. cbn [totalBlockTxCount contractCreationBits yParityBits
      txNonces txGases txTos txDatas txTypes]. by rewrite !map_map.
  - unfold fullTxs. cbn [totalBlockTxCount columns]. rewrite Nat2Z.id. by apply (full_columns chainID _ txs xs Hr []).
Qed.
End Txs.
