(* ===== verification/SpanBatch.v ===== *)
(** * The span batch format

    [op-node/rollup/derive/span_batch.go]: a run of L2 blocks packed into a
    prefix and a payload of columns, its byte encoding, and the way back to
    the blocks. *)

From S2P Require Import Prelude Eth Frame BitCodec SpanBatchTxs Espresso L1Info Batches.

Definition ErrEmptySpanBatch : go_error := Errorf "span-batch must not be empty".

Section SpanBatch.
Context {AccessList : Type} `{L : TxLib (AccessList := AccessList)}.

(** [spanBatchPrefix] and [spanBatchPayload] *)
Record RawSpanBatch := mkRaw {
  relTimestamp : Z;
  l1OriginNum : Z;
  raw_parentCheck : bytes;
  raw_l1OriginCheck : bytes;
  blockCount : Z;
  originBits : Z;
  blockTxCounts : list Z;
  raw_txs : spanBatchTxs;
}.

(** *** Encoding *)

Definition encodePrefix (b : RawSpanBatch) : bytes :=
  PutUvarint (relTimestamp b) ++ PutUvarint (l1OriginNum b) ++ raw_parentCheck b ++ raw_l1OriginCheck b.

Definition encodePayload (b : RawSpanBatch) : bytes :=
  PutUvarint (blockCount b) ++ encodeBits (blockCount b) (originBits b) ++
  concat (map PutUvarint (blockTxCounts b)) ++ encode_txs (raw_txs b).

Definition encode_raw (b : RawSpanBatch) : bytes := encodePrefix b ++ encodePayload b.

(** *** Decoding *)

Definition decodeBlockCount (r : bytes) : res (Z * bytes) :=
  '(blockCount, r) ← map_err (Wrapf "failed to read block count") (ReadUvarint r);
  if MaxSpanBatchSize <? blockCount then Err ErrTooBigSpanBatchSize
  else if blockCount =? 0 then Err ErrEmptySpanBatch
  else Ok (blockCount, r).

Definition read_tx_count (r : bytes) : res (Z * bytes) :=
  '(c, r) ← map_err (Wrapf "failed to read block tx count") (ReadUvarint r);
  if MaxSpanBatchSize <? c then Err ErrTooBigSpanBatchSize else Ok (c, r).

(** [math.SafeAdd]: overflow is an error. *)
Fixpoint sum_counts (counts : list Z) (total : Z) : res Z :=
  match counts with
  | [] => Ok total
  | c :: counts =>
      if 2 ^ 64 <=? total + c then Err ErrTooBigSpanBatchSize
      else sum_counts counts (total + c)
  end.

Definition decodeTxs (counts : list Z) (r : bytes) : res (spanBatchTxs * bytes) :=
  total ← sum_counts counts 0;
  if MaxSpanBatchSize <? total then Err ErrTooBigSpanBatchSize
  else decode_txs total r.

Definition decodeOriginBits (count : Z) (r : bytes) : res (Z * bytes) :=
  decodeBits "failed to read origin bits" count r.

Definition decodeBlockTxCounts (count : Z) (r : bytes) : res (list Z * bytes) :=
  read_n read_tx_count (Z.to_nat count) r.

(** The four fields of the prefix and what is left to read. *)
Definition decodePrefix (r : bytes) : res (Z * Z * bytes * bytes * bytes) :=
  '(rel, r) ← map_err (Wrapf "failed to read rel timestamp") (ReadUvarint r);
  '(num, r) ← map_err (Wrapf "failed to read l1 origin num") (ReadUvarint r);
  '(parent, r) ← map_err (Wrapf "failed to read parent check") (ReadFull 20 r);
  '(origin, r) ← map_err (Wrapf "failed to read l1 origin check") (ReadFull 20 r);
  Ok (rel, num, parent, origin, r).

(** The four fields of the payload and what is left to read. *)
Definition decodePayload (r : bytes) : res (Z * Z * list Z * spanBatchTxs * bytes) :=
  '(count, r) ← decodeBlockCount r;
  '(bits, r) ← decodeOriginBits count r;
  '(counts, r) ← decodeBlockTxCounts count r;
  '(txs, r) ← decodeTxs counts r;
  Ok (count, bits, counts, txs, r).

(** [RawSpanBatch.decode] *)
Definition decode_raw (r : bytes) : res (RawSpanBatch * bytes) :=
  if MaxSpanBatchSize <? blen r then Err ErrTooBigSpanBatchSize else
  '(rel, num, parent, origin, r) ← decodePrefix r;
  '(count, bits, counts, txs, r) ← decodePayload r;
  Ok ({| relTimestamp := rel; l1OriginNum := num; raw_parentCheck := parent; raw_l1OriginCheck := origin;
         blockCount := count; originBits := bits; blockTxCounts := counts; raw_txs := txs |}, r).

(** *** From the raw batch to its blocks *)

(** The loop from the last block down: the epochs of the first [n] blocks when
    the last of them has epoch [cur]. *)
Fixpoint origin_nums (bits : Z) (n : nat) (cur : Z) : list Z :=
  match n with
  | O => []
  | S i => origin_nums bits i (if (Bit bits i =? 1) && (0 <? Z.of_nat i) then cur -₆₄ 1 else cur) ++ [cur]
  end.

(** The loop over the blocks, with the transactions not handed out yet. *)
Fixpoint derive_blocks (blockTime start : Z) (i : nat) (nums counts : list Z) (txs : list bytes)
    : res (list spanBatchElement) :=
  match nums with
  | [] => Ok []
  | num :: nums =>
      match counts with
      | [] => Err (GoPanic "index out of range")
      | c :: counts =>
          if Z.of_nat (length txs) <? c then Err (GoPanic "index out of range") else
          rest ← derive_blocks blockTime start (S i) nums counts (drop (Z.to_nat c) txs);
          Ok ({| el_EpochNum := num; el_Timestamp := start +₆₄ (blockTime *₆₄ Z.of_nat i);
                 el_Transactions := take (Z.to_nat c) txs |} :: rest)
      end
  end.

Definition derive (b : RawSpanBatch) (blockTime genesisTimestamp chainID : Z) : res SpanBatch :=
  if blockCount b =? 0 then Err ErrEmptySpanBatch else
  let blockOriginNums := origin_nums (originBits b) (Z.to_nat (blockCount b)) (l1OriginNum b) in
  txs ← recoverV chainID (raw_txs b);
  full ← fullTxs chainID txs;
  els ← derive_blocks blockTime (genesisTimestamp +₆₄ relTimestamp b) 0 blockOriginNums (blockTxCounts b) full;
  Ok {| parentCheck := raw_parentCheck b; l1OriginCheck := raw_l1OriginCheck b; batches := els |}.

(** *** From blocks to the raw batch *)

(** [sort.Slice] by timestamp; equal timestamps, for which Go leaves the order
    open, do not occur in a chain. *)
Fixpoint insert_by_time (x : spanBatchElement) (l : list spanBatchElement) : list spanBatchElement :=
  match l with
  | [] => [x]
  | y :: l => if el_Timestamp x <=? el_Timestamp y then x :: y :: l else y :: insert_by_time x l
  end.

Definition sort_by_time (l : list spanBatchElement) : list spanBatchElement := foldr insert_by_time [] l.

(** The loop that sets the bit of every block after the first. *)
Fixpoint set_origin_bits (acc : Z) (i : nat) (prev : spanBatchElement) (els : list spanBatchElement) : Z :=
  match els with
  | [] => acc
  | el :: els => set_origin_bits (SetBit acc i (if el_EpochNum prev <? el_EpochNum el then 1 else 0)) (S i) el els
  end.

Definition ToRawSpanBatch (b : SpanBatch) (originChangedBit genesisTimestamp chainID : Z) : res RawSpanBatch :=
  let els := sort_by_time (batches b) in
  match els, last els with
  | span_start :: rest, Some span_end =>
      stxs ← newSpanBatchTxs (concat (map el_Transactions els)) chainID;
      Ok {| relTimestamp := el_Timestamp span_start -₆₄ genesisTimestamp; l1OriginNum := el_EpochNum span_end;
            raw_parentCheck := parentCheck b; raw_l1OriginCheck := l1OriginCheck b;
            blockCount := Z.of_nat (length els);
            originBits := set_origin_bits (SetBit 0 0 originChangedBit) 1 span_start rest;
            blockTxCounts := map (fun el => Z.of_nat (length (el_Transactions el))) els;
            raw_txs := stxs |}
  | _, _ => Err (Errorf "cannot merge empty singularBatch list")
  end.

(** *** [SpanBatchBuilder] *)

Context `{E : EspressoLib}.

Record SpanBatchBuilder := mkBuilder {
  bd_genesisTimestamp : Z;
  bd_chainID : Z;
  bd_spanBatch : SpanBatch;
  bd_originChangedBit : Z;
}.

Definition empty_SpanBatch : SpanBatch := {| parentCheck := zeros 20; l1OriginCheck := zeros 20; batches := [] |}.

Definition NewSpanBatchBuilder (genesisTimestamp chainID : Z) : SpanBatchBuilder :=
  {| bd_genesisTimestamp := genesisTimestamp; bd_chainID := chainID; bd_spanBatch := empty_SpanBatch;
     bd_originChangedBit := 0 |}.

(** [SpanBatch.AppendSingularBatch] *)
Definition AppendSingularBatch (b : SpanBatch) (s : SingularBatch) : SpanBatch :=
  {| parentCheck := match batches b with [] => take 20 (sb_ParentHash s) | _ :: _ => parentCheck b end;
     l1OriginCheck := take 20 (sb_EpochHash s);
     batches := batches b ++ [singularBatchToElement s] |}.

Definition bd_GetBlockCount (b : SpanBatchBuilder) : Z := Z.of_nat (length (batches (bd_spanBatch b))).

Definition bd_AppendSingularBatch (s : SingularBatch) (seqNum : Z) (b : SpanBatchBuilder) : SpanBatchBuilder :=
  {| bd_genesisTimestamp := bd_genesisTimestamp b; bd_chainID := bd_chainID b;
     bd_spanBatch := AppendSingularBatch (bd_spanBatch b) s;
     bd_originChangedBit := if bd_GetBlockCount b =? 0 then (if seqNum =? 0 then 1 else 0) else bd_originChangedBit b |}.

Definition bd_GetRawSpanBatch (b : SpanBatchBuilder) : res RawSpanBatch :=
  ToRawSpanBatch (bd_spanBatch b) (bd_originChangedBit b) (bd_genesisTimestamp b) (bd_chainID b).

Definition bd_Reset (b : SpanBatchBuilder) : SpanBatchBuilder :=
  {| bd_genesisTimestamp := bd_genesisTimestamp b; bd_chainID := bd_chainID b; bd_spanBatch := empty_SpanBatch;
     bd_originChangedBit := bd_originChangedBit b |}.

(** ** Specification *)

(** A span of consecutive L2 blocks: evenly spaced timestamps from the genesis
    time on, epochs that grow by at most one, and valid transactions. *)
Record span_wf (blockTime genesis : Z) (b : SpanBatch) (first : spanBatchElement) : Prop := {
  sw_first : head (batches b) = Some first;
  sw_genesis : 0 <= genesis <= el_Timestamp first;
  sw_step : 0 < blockTime;
  sw_times : forall i el, batches b !! i = Some el ->
    el_Timestamp el = el_Timestamp first + blockTime * Z.of_nat i /\ el_Timestamp el < 2 ^ 64;
  sw_epochs : Forall (fun el => is_u64 (el_EpochNum el)) (batches b);
  sw_steps : epoch_steps (batches b);
  sw_checks : length (parentCheck b) = 20%nat /\ length (l1OriginCheck b) = 20%nat;
  sw_txs : Forall (fun el => Forall valid_tx (el_Transactions el)) (batches b);
}.

(** ** Origin bits *)

Fixpoint step_bits (prev : spanBatchElement) (els : list spanBatchElement) : list Z :=
  match els with
  | [] => []
  | el :: els => (if el_EpochNum prev <? el_EpochNum el then 1 else 0) :: step_bits el els
  end.

Lemma step_bits_bit prev els : Forall is_bit (step_bits prev els).
Proof.
  revert prev. induction els as [|el els IH]; intros prev; cbn [step_bits]; constructor; [|apply IH].
  unfold is_bit. destruct (_ <? _); [by right|by left].
Qed.

Lemma length_step_bits prev els : length (step_bits prev els) = length els.
Proof. revert prev. induction els as [|el els IH]; intros prev; cbn; [done|]. by rewrite IH. Qed.

Lemma set_origin_bits_spec els : forall pre prev, Forall is_bit pre ->
  set_origin_bits (bits_of pre) (length pre) prev els = bits_of (pre ++ step_bits prev els).
Proof.
  induction els as [|el els IH]; intros pre prev Hpre; cbn [set_origin_bits step_bits]; [by rewrite app_nil_r|].
  assert (Hb : is_bit (if el_EpochNum prev <? el_EpochNum el then 1 else 0)) by (destruct (_ <? _); [by right|by left]).
  rewrite SetBit_bits_of by done.
  replace (S (length pre)) with (length (pre ++ [if el_EpochNum prev <? el_EpochNum el then 1 else 0]))
    by (rewrite length_app; cbn; lia).
  rewrite IH by (apply Forall_app; split; [done|by constructor]). by rewrite <- app_assoc.
Qed.

Lemma nth_step_bits prev els i a b : (prev :: els) !! i = Some a -> els !! i = Some b ->
  nth i (step_bits prev els) 0 = if el_EpochNum a <? el_EpochNum b then 1 else 0.
Proof.
  revert prev i. induction els as [|el els IH]; intros prev i Ha Hb; [done|].
  destruct i as [|i]; cbn in Ha, Hb |- *; [by simplify_eq|]. by apply IH.
Qed.

Lemma epoch_steps_lookup els i a b : epoch_steps els -> els !! i = Some a -> els !! S i = Some b ->
  el_EpochNum b = el_EpochNum a \/ el_EpochNum b = el_EpochNum a + 1.
Proof.
  revert i. induction els as [|x els IH]; intros i Hs Ha Hb; [done|].
  destruct els as [|y els]; [by destruct i|]. destruct Hs as [Hxy Hs].
  destruct i as [|i]; [cbn in Ha, Hb; by simplify_eq|]. by apply (IH i).
Qed.

Lemma origin_nums_S bits i cur : origin_nums bits (S i) cur =
  origin_nums bits i (if (Bit bits i =? 1) && (0 <? Z.of_nat i) then cur -₆₄ 1 else cur) ++ [cur].
Proof. done. Qed.

Lemma origin_nums_spec b0 first els k z : is_bit b0 ->
  epoch_steps (first :: els) -> Forall (fun el => is_u64 (el_EpochNum el)) (first :: els) ->
  (first :: els) !! k = Some z ->
  origin_nums (bits_of (b0 :: step_bits first els)) (S k) (el_EpochNum z) = map el_EpochNum (take (S k) (first :: els)).
Proof.
  intros Hb0 Hs Hu. revert z. induction k as [|k IH]; intros z Hz; [cbn in Hz; simplify_eq; done|].
  rewrite origin_nums_S, (take_S_r _ _ z) by done. rewrite map_app. cbn [map]. f_equal.
  assert (Hp : is_Some ((first :: els) !! k)).
  { apply lookup_lt_is_Some_2. apply lookup_lt_Some in Hz. lia. }
  destruct Hp as [p Hp].
  rewrite Bit_bits_of by (constructor; [done|apply step_bits_bit]). cbn [nth].
  rewrite (nth_step_bits first els k p z) by done.
  destruct (Z.ltb_spec 0 (Z.of_nat (S k))); [|lia]. rewrite andb_true_r.
  assert (Hcur : (if (if (if el_EpochNum p <? el_EpochNum z then 1 else 0) =? 1 then 1 else 0) =? 1
     then el_EpochNum z -₆₄ 1 else el_EpochNum z) = el_EpochNum p); [|rewrite Hcur; by apply IH].
  rewrite Forall_forall in Hu. pose proof (Hu p (list_elem_of_lookup_2 _ _ _ Hp)). pose proof (Hu z (list_elem_of_lookup_2 _ _ _ Hz)).
  destruct (epoch_steps_lookup _ _ _ _ Hs Hp Hz) as [He|He].
  - rewrite He, Z.ltb_irrefl. done.
  - destruct (Z.ltb_spec (el_EpochNum p) (el_EpochNum z)); [|lia]. cbn [Z.eqb Pos.eqb].
    rewrite sub64_small by (unfold is_u64 in *; lia). lia.
Qed.

(** ** Sorting and blocks *)

Lemma sort_sorted bt t els i : 0 < bt -> (forall j el, els !! j = Some el -> el_Timestamp el = t + bt * Z.of_nat (i + j)) ->
  sort_by_time els = els.
Proof.
  intros Hbt. revert i. induction els as [|x els IH]; intros i Ht; [done|].
  unfold sort_by_time in *. cbn [foldr]. rewrite (IH (S i)); cycle 1.
  { intros j el Hj. rewrite (Ht (S j) el Hj). f_equal. lia. }
  destruct els as [|y els]; [done|]. cbn [insert_by_time].
  rewrite (Ht 0%nat x), (Ht 1%nat y) by done. destruct (Z.leb_spec (t + bt * Z.of_nat (i + 0)) (t + bt * Z.of_nat (i + 1))); [done|lia].
Qed.

Lemma derive_blocks_spec blockTime start els i :
  (forall j el, els !! j = Some el -> start +₆₄ (blockTime *₆₄ Z.of_nat (i + j)) = el_Timestamp el) ->
  derive_blocks blockTime start i (map el_EpochNum els)
    (map (fun el => Z.of_nat (length (el_Transactions el))) els) (concat (map el_Transactions els)) = Ok els.
Proof.
  revert i. induction els as [|x els IH]; intros i Ht; [done|]. cbn [map derive_blocks concat].
  rewrite length_app. destruct (Z.ltb_spec (Z.of_nat (length (el_Transactions x) + length (concat (map el_Transactions els))))
    (Z.of_nat (length (el_Transactions x)))); [lia|].
  rewrite Nat2Z.id, drop_app_length, take_app_length. rewrite IH; cycle 1.
  { intros j el Hj. rewrite <- (Ht (S j) el Hj). do 3 f_equal. lia. }
  cbn [mbind res_bind]. specialize (Ht 0%nat x eq_refl). rewrite Nat.add_0_r in Ht. rewrite Ht. by destruct x.
Qed.

Lemma sum_counts_spec els acc : 0 <= acc ->
  acc + Z.of_nat (length (concat (map el_Transactions els))) < 2 ^ 64 ->
  sum_counts (map (fun el => Z.of_nat (length (el_Transactions el))) els) acc =
    Ok (acc + Z.of_nat (length (concat (map el_Transactions els)))).
Proof.
  revert acc. induction els as [|x els IH]; intros acc Ha Hb; [cbn; f_equal; lia|].
  cbn [map sum_counts concat] in *. rewrite length_app in *.
  destruct (Z.leb_spec (2 ^ 64) (acc + Z.of_nat (length (el_Transactions x)))); [lia|].
  rewrite IH by lia. f_equal. lia.
Qed.

(** ** Sizes *)

Lemma PutUvarint_nonempty x : 1 <= blen (PutUvarint x).
Proof. unfold PutUvarint. cbn [put_uvarint MaxVarintLen64]. destruct (128 <=? x); unfold blen; cbn [length]; lia. Qed.

Lemma blen_concat_ge {A} (f : A -> bytes) k (l : list A) : (forall x, k <= blen (f x)) ->
  k * Z.of_nat (length l) <= blen (concat (map f l)).
Proof.
  intros Hf. induction l as [|x l IH]; cbn [map concat length]; [unfold blen; cbn; lia|].
  rewrite blen_app. specialize (Hf x). lia.
Qed.

(** What [ToRawSpanBatch] makes of a well-formed span. *)
Lemma ToRaw_spec blockTime genesis chainID b bit first raw : span_wf blockTime genesis b first -> is_bit bit ->
  ToRawSpanBatch b bit genesis chainID = Ok raw ->
  exists rest z, batches b = first :: rest /\ last (batches b) = Some z /\
    raw_parentCheck raw = parentCheck b /\ raw_l1OriginCheck raw = l1OriginCheck b /\
    relTimestamp raw = el_Timestamp first - genesis /\ l1OriginNum raw = el_EpochNum z /\
    blockCount raw = Z.of_nat (length (batches b)) /\
    originBits raw = bits_of (bit :: step_bits first rest) /\
    blockTxCounts raw = map (fun el => Z.of_nat (length (el_Transactions el))) (batches b) /\
    newSpanBatchTxs (concat (map el_Transactions (batches b))) chainID = Ok (raw_txs raw).
Proof.
  intros W Hbit H. unfold ToRawSpanBatch in H.
  rewrite (sort_sorted blockTime (el_Timestamp first) (batches b) 0) in H;
    [|apply W|intros j el Hj; rewrite Nat.add_0_l; by apply (sw_times _ _ _ _ W)].
  pose proof (sw_first _ _ _ _ W) as Hf. destruct (batches b) as [|x rest] eqn:Eb; [done|]. cbn in Hf. injection Hf as ->.
  destruct (last (first :: rest)) as [z|] eqn:Ez; [|done].
  destruct (newSpanBatchTxs _ chainID) as [btx|] eqn:En; cbn [mbind res_bind] in H; [|done].
  apply Ok_inj in H. subst raw. cbn [raw_parentCheck raw_l1OriginCheck relTimestamp l1OriginNum blockCount originBits blockTxCounts raw_txs].
  exists rest, z. repeat (split; [done|]). split.
  { pose proof (sw_genesis _ _ _ _ W). destruct (sw_times _ _ _ _ W 0%nat first ltac:(by rewrite Eb)) as [_ Hlt].
    apply sub64_small; [unfold is_u64; lia|lia]. }
  repeat (split; [done|]). split; [|done].
  change (SetBit 0 0 bit) with (SetBit (bits_of []) (length (A := Z) []) bit).
  rewrite SetBit_bits_of by (done || constructor). cbn [app].
  apply (set_origin_bits_spec rest [bit] first). by constructor.
Qed.

(** Decoding what was encoded. *)
Lemma decode_encode_raw (W : tx_laws) blockTime genesis chainID b bit first raw :
  span_wf blockTime genesis b first -> is_bit bit -> 0 <= chainID -> 2 * chainID + 36 < 2 ^ 64 ->
  ToRawSpanBatch b bit genesis chainID = Ok raw -> blen (encode_raw raw) <= MaxSpanBatchSize ->
  exists txs full, decode_raw (encode_raw raw) =
    Ok ({| relTimestamp := relTimestamp raw; l1OriginNum := l1OriginNum raw; raw_parentCheck := raw_parentCheck raw;
           raw_l1OriginCheck := raw_l1OriginCheck raw; blockCount := blockCount raw; originBits := originBits raw;
           blockTxCounts := blockTxCounts raw; raw_txs := txs |}, []) /\
    recoverV chainID txs = Ok full /\ fullTxs chainID full = Ok (concat (map el_Transactions (batches b))).
Proof.
  intros S Hbit Hc Hm Hraw Hlen.
  destruct (ToRaw_spec _ _ _ _ _ _ _ S Hbit Hraw) as (rest & z & Eb & Ez & Hpc & Hoc & Hrel & Hnum & Hcnt & Hbits & Htc & Htx).
  set (n := Z.of_nat (length (batches b))) in *. set (txs := concat (map el_Transactions (batches b))) in *.
  apply newSpanBatchTxs_columns in Htx as Hcol. destruct Hcol as (xs & Hxs & Hcols). apply Forall2_length in Hxs.
  assert (Hsizes : n <= MaxSpanBatchSize /\ Z.of_nat (length txs) <= MaxSpanBatchSize /\
    blen (encodeTxDatas (raw_txs raw)) <= MaxSpanBatchSize).
  { revert Hlen. unfold encode_raw, encodePrefix, encodePayload, encode_txs. rewrite !blen_app.
    pose proof (blen_concat_ge PutUvarint 1 (blockTxCounts raw) PutUvarint_nonempty) as H1.
    rewrite Htc, length_map in H1. fold n in H1. rewrite <- Htc in H1.
    pose proof (blen_concat_ge (fun s => put_be 32 (sig_r s) ++ put_be 32 (sig_s s)) 1 (txSigs (raw_txs raw))
      ltac:(intros; cbv beta; rewrite blen_app, !blen_put_be; lia)) as H2.
    fold (encodeTxSigsRS (raw_txs raw)) in H2. rewrite Hcols in H2 at 1. cbn [txSigs columns] in H2. rewrite length_map, <- Hxs in H2.
    repeat match goal with |- context [blen ?l] => lazymatch goal with
      | _ : 0 <= blen l |- _ => fail | _ => pose proof (blen_nonneg l) end end. lia. }
  destruct Hsizes as (Hn & Ht & Hd).
  assert (Hv : Forall valid_tx txs).
  { unfold txs. apply Forall_concat, Forall_fmap. exact (sw_txs _ _ _ _ S). }
  destruct (txs_roundtrip W chainID txs (raw_txs raw) [] Hc Hm Ht Hv Htx Hd) as (btx & full & Hdec & Hrec & Hfull).
  exists btx, full. split; [|done]. unfold decode_raw. destruct (Z.ltb_spec MaxSpanBatchSize (blen (encode_raw raw))); [lia|].
  pose proof (sw_genesis _ _ _ _ S). destruct (sw_times _ _ _ _ S 0%nat first ltac:(by rewrite Eb)) as [_ Hft].
  destruct (sw_checks _ _ _ _ S) as [Hc1 Hc2].
  assert (Hu : is_u64 (l1OriginNum raw)).
  { rewrite Hnum. pose proof (sw_epochs _ _ _ _ S) as He. rewrite Forall_forall in He. apply He. by apply last_Some_elem_of. }
  assert (Hn1 : 1 <= n) by (unfold n; rewrite Eb; cbn [length]; lia).
  assert (Hmax : MaxSpanBatchSize < 2 ^ 63) by done.
  unfold encode_raw, encodePrefix, encodePayload, decodePrefix. rewrite <- !app_assoc.
  rewrite ReadUvarint_put by (unfold is_u64; lia). cbn [map_err mbind res_bind].
  rewrite ReadUvarint_put by done. cbn [map_err mbind res_bind].
  rewrite ReadFull_app by (unfold blen; rewrite Hpc; lia). cbn [map_err mbind res_bind].
  rewrite ReadFull_app by (unfold blen; rewrite Hoc; lia). cbn [map_err mbind res_bind].
  unfold decodePayload, decodeOriginBits, decodeBlockTxCounts, decodeBlockCount. rewrite Hcnt, ReadUvarint_put by (unfold is_u64; lia). cbn [map_err mbind res_bind].
  destruct (Z.ltb_spec MaxSpanBatchSize n); [lia|]. destruct (Z.eqb_spec n 0); [lia|]. cbn [mbind res_bind].
  rewrite Hbits, decode_encodeBits; [|lia| |].
  2: { pose proof (bits_of_bounds (bit :: step_bits first rest) ltac:(constructor; [done|apply step_bits_bit])) as Hbb.
       cbn [length] in Hbb. rewrite length_step_bits in Hbb. unfold n. by rewrite Eb. }
  2: { pose proof (bitBufferLen_spec n ltac:(lia)). lia. }
  cbn [mbind res_bind]. rewrite Htc.
  assert (Hcounts : forall el, el ∈ batches b -> (length (el_Transactions el) <= length txs)%nat).
  { intros el Hel. unfold txs. apply list_elem_of_split in Hel as (l1 & l2 & ->).
    rewrite map_app, concat_app. cbn [map concat]. rewrite !length_app. lia. }
  pose proof (read_n_concat read_tx_count PutUvarint (fun c => c) (map (fun el => Z.of_nat (length (el_Transactions el))) (batches b))
    (encode_txs (raw_txs raw) ++ [])) as Hrd.
  rewrite length_map, map_id in Hrd. replace (Z.to_nat n) with (length (batches b)) by (unfold n; lia).
  rewrite <- (app_nil_r (encode_txs (raw_txs raw))).
  rewrite Hrd; cycle 1.
  { apply Forall_fmap, Forall_forall. intros el Hel q. specialize (Hcounts el Hel). unfold compose, read_tx_count.
    rewrite ReadUvarint_put by (unfold is_u64; lia). cbn [map_err mbind res_bind].
    destruct (Z.ltb_spec MaxSpanBatchSize (Z.of_nat (length (el_Transactions el)))); [lia|done]. }
  cbn [mbind res_bind]. unfold decodeTxs. rewrite sum_counts_spec by (fold txs; lia). rewrite Z.add_0_l. fold txs.
  cbn [mbind res_bind]. destruct (Z.ltb_spec MaxSpanBatchSize (Z.of_nat (length txs))); [lia|].
  rewrite Hdec. cbn [mbind res_bind]. by rewrite <- Hcnt.
Qed.

(** Packing, encoding, decoding and deriving a span. *)
Lemma span_back (W : tx_laws) (blockTime genesis chainID : Z) (b : SpanBatch) (bit : Z)
  (first : spanBatchElement) (raw : RawSpanBatch)
  (Hwf : span_wf blockTime genesis b first) (Hbit : is_bit bit)
  (Hchain : 0 <= chainID /\ 2 * chainID + 36 < 2 ^ 64)
  (Hraw : ToRawSpanBatch b bit genesis chainID = Ok raw)
  (Hsize : blen (encode_raw raw) <= MaxSpanBatchSize) :
  exists raw', decode_raw (encode_raw raw) = Ok (raw', []) /\
    derive raw' blockTime genesis chainID = Ok b.
Proof.
  destruct Hchain as [Hc Hm].
  destruct (decode_encode_raw W _ _ _ _ _ _ _ Hwf Hbit Hc Hm Hraw Hsize) as (txs & full & Hdec & Hrec & Hfull).
  destruct (ToRaw_spec _ _ _ _ _ _ _ Hwf Hbit Hraw) as (rest & z & Eb & Ez & Hpc & Hoc & Hrel & Hnum & Hcnt & Hbits & Htc & _).
  eexists. split; [exact Hdec|]. unfold derive. cbn [blockCount originBits l1OriginNum raw_txs relTimestamp blockTxCounts
    raw_parentCheck raw_l1OriginCheck]. rewrite Hcnt.
  destruct (Z.eqb_spec (Z.of_nat (length (batches b))) 0); [rewrite Eb in *; done|].
  rewrite Nat2Z.id, Hrec. cbn [mbind res_bind]. rewrite Hfull. cbn [mbind res_bind].
  assert (Hnums : origin_nums (originBits raw) (length (batches b)) (l1OriginNum raw) = map el_EpochNum (batches b)).
  { rewrite Hbits, Hnum. pose proof (sw_steps _ _ _ _ Hwf) as Hs. pose proof (sw_epochs _ _ _ _ Hwf) as Hu.
    rewrite last_lookup in Ez. rewrite Eb in *. cbn [length pred] in *.
    rewrite (origin_nums_spec bit first rest _ z Hbit Hs Hu Ez). f_equal. apply take_ge. cbn [length]. lia. }
  rewrite Hnums, Htc, Hrel. pose proof (sw_genesis _ _ _ _ Hwf). pose proof (sw_step _ _ _ _ Hwf).
  destruct (sw_times _ _ _ _ Hwf 0%nat first ltac:(by rewrite Eb)) as [_ Hft].
  rewrite derive_blocks_spec.
  - cbn [mbind res_bind]. rewrite Hpc, Hoc. by destruct b.
  - intros j el Hj. destruct (sw_times _ _ _ _ Hwf j el Hj) as [Ht Hlt]. rewrite Nat.add_0_l, Ht.
    rewrite (add64_small genesis) by (unfold is_u64; lia).
    assert (0 <= blockTime * Z.of_nat j) by nia.
    unfold mul64. rewrite u64_id by (unfold is_u64; lia).
    rewrite add64_small by (unfold is_u64; lia). lia.
Qed.

(** C10. The span batch format loses nothing: a span of consecutive blocks
    that is packed, encoded within the size limit, decoded and derived with
    the same chain parameters gives back the span, its blocks, timestamps,
    epochs, checks and transactions, and no byte is left over. *)
Theorem span_batch_roundtrip (W : tx_laws) (blockTime genesis chainID : Z) (b : SpanBatch) (bit : Z)
  (first : spanBatchElement) (raw : RawSpanBatch)
  (Hwf : span_wf blockTime genesis b first) (Hbit : is_bit bit)
  (Hchain : 0 <= chainID /\ 2 * chainID + 36 < 2 ^ 64)
  (Hraw : ToRawSpanBatch b bit genesis chainID = Ok raw)
  (Hsize : blen (encode_raw raw) <= MaxSpanBatchSize) :
  exists raw', decode_raw (encode_raw raw) = Ok (raw', []) /\
    derive raw' blockTime genesis chainID = Ok b.
Proof. exact (span_back W blockTime genesis chainID b bit first raw Hwf Hbit Hchain Hraw Hsize). Qed.

(** *** Unknown transaction types *)

Lemma recover_sigs_bad chainID y types : forall idx sigs ty, length types = length sigs -> ty ∈ types ->
  ty <> LegacyTxType -> ty <> AccessListTxType -> ty <> DynamicFeeTxType ->
  recover_sigs chainID y idx types sigs = Err invalid_tx_type.
Proof.
  induction types as [|t types IH]; intros idx sigs ty Hl Hin H0 H1 H2; [by apply not_elem_of_nil in Hin|].
  destruct sigs as [|sg sigs]; [done|]. cbn [recover_sigs]. unfold recover_one.
  destruct (Z.eqb_spec t LegacyTxType); [|destruct (Z.eqb_spec t AccessListTxType); [|destruct (Z.eqb_spec t DynamicFeeTxType); [|done]]];
    cbn [mbind res_bind]; apply elem_of_cons in Hin as [->|Hin]; try congruence;
    by rewrite (IH _ _ ty ltac:(by injection Hl) Hin).
Qed.

Lemma read_n_length {A} (rd : bytes -> res (A * bytes)) n r xs r' : read_n rd n r = Ok (xs, r') -> length xs = n.
Proof.
  revert r xs. induction n as [|n IH]; intros r xs H; cbn [read_n] in H; [by injection H as <- <-|].
  apply res_bind_ok in H as ([x r1] & _ & H). apply res_bind_ok in H as ([ys r2] & Hys & H).
  injection H as <- <-. cbn [length]. f_equal. by eapply IH.
Qed.

Lemma decode_txs_lengths total r btx r' : decode_txs total r = Ok (btx, r') -> length (txTypes btx) = length (txSigs btx).
Proof.
  unfold decode_txs. intros H.
  apply res_bind_ok in H as ([cr r1] & _ & H). apply res_bind_ok in H as ([yp r2] & _ & H).
  apply res_bind_ok in H as ([sg r3] & Hs & H). apply res_bind_ok in H as ([tos r4] & _ & H).
  apply res_bind_ok in H as ([ds r5] & Hd & H). apply res_bind_ok in H as ([ns r6] & _ & H).
  apply res_bind_ok in H as ([gs r7] & _ & H). injection H as <- <-. cbn [txTypes txSigs].
  apply read_n_length in Hs, Hd. rewrite length_map. congruence.
Qed.

(** A span batch that decodes without an error can still crash the node:
    if any of its transactions carries a type byte other than those of legacy,
    access list and dynamic fee transactions (decoding accepts every type byte
    up to 0x7f), deriving the blocks panics instead of dropping the batch. *)
Lemma unknown_tx_type_panics (data : bytes) (raw : RawSpanBatch) (rest : bytes) (ty blockTime genesis chainID : Z)
  (Hdecode : decode_raw data = Ok (raw, rest)) (Hin : ty ∈ txTypes (raw_txs raw))
  (Hty : ty <> LegacyTxType /\ ty <> AccessListTxType /\ ty <> DynamicFeeTxType) :
  derive raw blockTime genesis chainID = Err (GoPanic "invalid tx type").
Proof.
  unfold decode_raw in Hdecode. destruct (MaxSpanBatchSize <? blen data); [done|].
  apply res_bind_ok in Hdecode as ([[[[rel num] pc] oc] r1] & _ & Hdecode).
  apply res_bind_ok in Hdecode as ([[[[cnt bits] counts] btx] r2] & H & Hdecode). injection Hdecode as <- <-.
  apply res_bind_ok in H as ([cnt' r5] & Hcnt & H). apply res_bind_ok in H as ([bits' r6] & _ & H).
  apply res_bind_ok in H as ([counts' r7] & _ & H). apply res_bind_ok in H as ([btx' r8] & Htx & H).
  injection H as -> -> -> -> ->. cbn [raw_txs] in Hin. unfold derive. cbn [blockCount raw_txs].
  unfold decodeBlockCount in Hcnt. apply res_bind_ok in Hcnt as ([c r9] & _ & Hcnt).
  destruct (MaxSpanBatchSize <? c); [done|]. destruct (c =? 0) eqn:Ec; [done|]. injection Hcnt as <- <-. rewrite Ec.
  unfold decodeTxs in Htx. apply res_bind_ok in Htx as (total & _ & Htx). destruct (MaxSpanBatchSize <? total); [done|].
  apply decode_txs_lengths in Htx. destruct Hty as (H0 & H1 & H2). unfold recoverV. rewrite Htx, Nat.eqb_refl. cbn [negb].
  by rewrite (recover_sigs_bad _ _ _ _ _ ty Htx Hin H0 H1 H2).
Qed.
End SpanBatch.

(** ** Examples *)

(** A toy codec for the witnesses: a legacy transaction of chain 10 is five
    bytes (value, gas price, parity, nonce, whether it has a recipient), and
    its data is the list [200; value; price]. *)
Definition toy_unmarshal (b : bytes) : res (Transaction (AccessList := unit)) :=
  match b with
  | [value; price; y; nonce; to] =>
      if ((y =? 0) || (y =? 1)) && ((to =? 0) || (to =? 1)) && (0 <=? nonce) && (nonce <? 256) then
        Ok (LegacyTx nonce price 21000 (if to =? 1 then Some (zeros 20) else None) value [] (55 + y) 3 4)
      else Err (Errorf "toy")
  | _ => Err (Errorf "toy")
  end.

Definition toy_inner (d : spanBatchTxData (AccessList := unit)) : res bytes :=
  match d with
  | spanBatchLegacyTxData value price [] => Ok [200; value; price]
  | _ => Err (Errorf "toy")
  end.

Definition toy_decode (b : bytes) : res (spanBatchTxData (AccessList := unit)) :=
  match b with
  | [_; value; price] => Ok (spanBatchLegacyTxData value price [])
  | _ => Err (Errorf "toy")
  end.

#[local] Instance toy_lib : TxLib (AccessList := unit) := {|
  tx_UnmarshalBinary := toy_unmarshal;
  tx_MarshalBinary t :=
    match t with
    | LegacyTx nonce price _ to value _ v _ _ => Ok [value; price; v - 55; nonce; match to with Some _ => 1 | None => 0 end]
    | _ => Err (Errorf "toy")
    end;
  Protected _ := true;
  ChainId t := match t with LegacyTx _ _ _ _ _ _ v _ _ => (v - 35) / 2 | _ => 0 end;
  rlp_encode_inner := toy_inner;
  rlp_decode_legacy := toy_decode;
  rlp_decode_access := toy_decode;
  rlp_decode_dynamic := toy_decode;
  rlp_stream b := match b with
                  | h :: x :: y :: rest => if 192 <=? h then StreamList (Ok ([h; x; y], rest)) else StreamOther
                  | _ => StreamErr false
                  end;
|}.

Lemma toy_unmarshal_ok b t : toy_unmarshal b = Ok t -> exists value price y nonce to,
  b = [value; price; y; nonce; to] /\ is_bit y /\ is_bit to /\
  t = LegacyTx nonce price 21000 (if to =? 1 then Some (zeros 20) else None) value [] (55 + y) 3 4.
Proof.
  destruct b as [|value [|price [|y [|nonce [|to [|]]]]]]; try done. cbn [toy_unmarshal].
  destruct (_ && (nonce <? 256)) eqn:Eb; [|done]. intros H. apply Ok_inj in H. subst t.
  exists value, price, y, nonce, to. unfold is_bit. split; [done|]. split; [lia|]. split; [lia|done].
Qed.

Lemma toy_laws : tx_laws.
Proof.
  constructor.
  - intros [value price [|]| |] b H; try done. cbn in H. apply Ok_inj in H. subst b.
    split; [by eexists _, _|]. split; [|done]. intros _ rest. done.
  - intros b t H. apply toy_unmarshal_ok in H as (value & price & y & nonce & to & -> & Hy & Hto & ->).
    cbn [tx_MarshalBinary toy_lib]. replace (55 + y - 55) with y by lia. by destruct Hto as [-> | ->].
  - intros b t H _. apply toy_unmarshal_ok in H as (value & price & y & nonce & to & -> & Hy & Hto & ->).
    intros _. exists y. split; [done|]. by destruct Hy as [-> | ->].
Qed.

Definition ex_span : SpanBatch :=
  {| parentCheck := zeros 20; l1OriginCheck := zeros 20;
     batches := [{| el_EpochNum := 7; el_Timestamp := 110; el_Transactions := [[1; 2; 0; 5; 1]] |};
                 {| el_EpochNum := 8; el_Timestamp := 112; el_Transactions := [] |};
                 {| el_EpochNum := 8; el_Timestamp := 114; el_Transactions := [[9; 3; 1; 6; 0]; [4; 4; 1; 7; 1]] |}] |}.

Definition ex_first : spanBatchElement := {| el_EpochNum := 7; el_Timestamp := 110; el_Transactions := [[1; 2; 0; 5; 1]] |}.

Lemma ex_span_wf : span_wf 2 100 ex_span ex_first.
Proof.
  assert (Hv : forall a b y n t, is_bit y -> is_bit t -> 0 <= n < 256 -> valid_tx [a; b; y; n; t]).
  { intros a b y n t Hy Ht Hn. exists (LegacyTx n b 21000 (if t =? 1 then Some (zeros 20) else None) a [] (55 + y) 3 4).
    split.
    - cbn [tx_UnmarshalBinary toy_lib toy_unmarshal].
      replace (((y =? 0) || (y =? 1)) && ((t =? 0) || (t =? 1)) && (0 <=? n) && (n <? 256)) with true; [done|].
      unfold is_bit in *. lia.
    - cbn. unfold is_u64, is_u256. repeat split; try (unfold is_bit in *; lia); try done. intros addr Ha. destruct (t =? 1); by simplify_eq. }
  constructor; try done.
  - intros [|[|[|i]]] el H; cbn in H; simplify_eq; cbn; lia.
  - repeat constructor; cbn; unfold is_u64; lia.
  - cbn. lia.
  - repeat constructor; apply Hv; unfold is_bit; lia.
Qed.

Definition ex_raw : RawSpanBatch :=
  match ToRawSpanBatch ex_span 1 100 10 with Ok raw => raw | Err _ =>
    {| relTimestamp := 0; l1OriginNum := 0; raw_parentCheck := []; raw_l1OriginCheck := []; blockCount := 0; originBits := 0;
       blockTxCounts := []; raw_txs := columns 0 [] |} end.

Lemma span_batch_roundtrip_witness :
  exists raw', decode_raw (encode_raw ex_raw) = Ok (raw', []) /\ derive raw' 2 100 10 = Ok ex_span.
Proof.
  apply (span_batch_roundtrip toy_laws 2 100 10 ex_span 1 ex_first ex_raw).
  - exact ex_span_wf.
  - by right.
  - lia.
  - vm_compute. reflexivity.
  - vm_compute. discriminate.
Defined.

(** A decodable batch of one block with one transaction of type 5. *)
Definition bad_batch : bytes :=
  [0; 0] ++ zeros 20 ++ zeros 20 ++ [1] ++ [0] ++ [1] ++ [0] ++ [0] ++ zeros 64 ++ zeros 20 ++ [5; 200; 1; 1] ++ [0] ++ [0].

Definition bad_raw : RawSpanBatch :=
  match decode_raw bad_batch with Ok (raw, _) => raw | Err _ => ex_raw end.

Lemma unknown_tx_type_panics_witness :
  decode_raw bad_batch = Ok (bad_raw, []) /\ derive bad_raw 2 100 10 = Err (GoPanic "invalid tx type").
Proof.
  assert (Hd : decode_raw bad_batch = Ok (bad_raw, [])) by (vm_compute; reflexivity).
  split; [exact Hd|]. apply (unknown_tx_type_panics bad_batch bad_raw [] 5 2 100 10 Hd).
  - vm_compute. by left.
  - repeat split; discriminate.
Defined.
