(* ===== verification/BatchQueue.v ===== *)
(** * The batch queue

    [op-node/rollup/derive/batch_queue.go]: orders the batches, unrolls span
    batches and fills in empty batches when the sequencing window of an epoch
    has passed. [reachable] are the states of the queue on a safe head that the
    engine moves, drops payloads of, or resets. *)

From S2P Require Import Prelude Eth Frame Solabi SystemConfig Deposits Espresso L1Info Stages Attributes Batches.

Record BatchQueue `{EspressoLib} (P : Type) := mkBatchQueue {
  bq_prev : P;
  bq_origin : L1BlockRef;
  bq_l1Blocks : list L1BlockRef;
  bq_batches : list BatchWithL1InclusionBlock;
  bq_nextSpan : list SingularBatch;
}.
Arguments mkBatchQueue {_ P} _ _ _ _ _.
Arguments bq_prev {_ P} _.
Arguments bq_origin {_ P} _.
Arguments bq_l1Blocks {_ P} _.
Arguments bq_batches {_ P} _.
Arguments bq_nextSpan {_ P} _.

Section BatchQueue.
Context `{E : EspressoLib}.
Variable Keccak256Hash : bytes -> Hash.
Variable rlp_decode_jst : bytes -> res L2BatchJustification.
Variable decode_tx : bytes -> res (Z * bytes).
Variable cfg : Config.
Variable l1 : L1Provider.
Variable l2 : SafeBlockFetcher.
Context {P : Type} `{NextBatchProvider P Batch}.

#[local] Notation bqueue := (BatchQueue P).
#[local] Notation check := (CheckBatch Keccak256Hash rlp_decode_jst decode_tx cfg).

Definition with_prev (p : P) (bq : bqueue) : bqueue :=
  mkBatchQueue p (bq_origin bq) (bq_l1Blocks bq) (bq_batches bq) (bq_nextSpan bq).
Definition with_l1Blocks (bs : list L1BlockRef) (bq : bqueue) : bqueue :=
  mkBatchQueue (bq_prev bq) (bq_origin bq) bs (bq_batches bq) (bq_nextSpan bq).
Definition with_batches (bs : list BatchWithL1InclusionBlock) (bq : bqueue) : bqueue :=
  mkBatchQueue (bq_prev bq) (bq_origin bq) (bq_l1Blocks bq) bs (bq_nextSpan bq).
Definition with_nextSpan (bs : list SingularBatch) (bq : bqueue) : bqueue :=
  mkBatchQueue (bq_prev bq) (bq_origin bq) (bq_l1Blocks bq) (bq_batches bq) bs.

Definition NewBatchQueue (prev : P) : bqueue := mkBatchQueue prev zero_L1BlockRef [] [] [].

Definition bq_Origin (bq : bqueue) : L1BlockRef := Origin (bq_prev bq).

Definition set_ParentHash (h : Hash) (b : SingularBatch) : SingularBatch :=
  {| sb_ParentHash := h; sb_EpochNum := sb_EpochNum b; sb_EpochHash := sb_EpochHash b;
     sb_Timestamp := sb_Timestamp b; sb_Transactions := sb_Transactions b;
     sb_Justification := sb_Justification b |}.

Definition popNextBatch (safeL2Head : L2BlockRef) : stM bqueue SingularBatch := fun bq =>
  match bq_nextSpan bq with
  | [] => (bq, Err (GoPanic "popping non-existent span-batch, invalid state"))
  | nextBatch :: rest => (with_nextSpan rest bq, Ok (set_ParentHash (l2_Hash safeL2Head) nextBatch))
  end.

Definition maybeAdvanceEpoch (nextBatch : SingularBatch) (bq : bqueue) : bqueue :=
  match bq_l1Blocks bq with
  | [] => bq
  | b :: rest => if sb_EpochNum nextBatch =? l1_Number b +₆₄ 1 then with_l1Blocks rest bq else bq
  end.

Definition AddBatch (sysCfg : SystemConfig) (batch : Batch) (l2SafeHead : L2BlockRef) : stM bqueue unit := fun bq =>
  match bq_l1Blocks bq with
  | [] => (bq, Err (GoPanic "cannot add batch, no origin was prepared"))
  | _ :: _ =>
      let data := {| L1InclusionBlock := bq_origin bq; bl_Batch := batch |} in
      match check sysCfg (bq_l1Blocks bq) l2SafeHead data l1 l2 with
      | Err e => (bq, Err e)
      | Ok BatchDrop => (bq, Ok tt)
      | Ok _ => (with_batches (bq_batches bq ++ [data]) bq, Ok tt)
      end
  end.

(** How the loop over the buffered batches ends. *)
Inductive loop_end := LoopAccept (b : Batch) | LoopUndecided | LoopDone.

(** [batchLoop]: the remaining batches and how it ended. *)
Fixpoint batchLoop (sysCfg : SystemConfig) (l1Blocks : list L1BlockRef) (l2SafeHead : L2BlockRef)
    (batches remaining : list BatchWithL1InclusionBlock) : res (list BatchWithL1InclusionBlock * loop_end) :=
  match batches with
  | [] => Ok (remaining, LoopDone)
  | batch :: later =>
      validity ← check sysCfg l1Blocks l2SafeHead batch l1 l2;
      match validity with
      | BatchFuture => batchLoop sysCfg l1Blocks l2SafeHead later (remaining ++ [batch])
      | BatchDrop => batchLoop sysCfg l1Blocks l2SafeHead later remaining
      | BatchAccept => Ok (remaining ++ later, LoopAccept (bl_Batch batch))
      | BatchUndecided => Ok (remaining ++ batch :: later, LoopUndecided)
      end
  end.

(** The end of [deriveNextBatch], when no buffered batch was accepted. *)
Definition forceEmptyBatch (epoch : L1BlockRef) (outOfData : bool) (l2SafeHead : L2BlockRef) : stM bqueue Batch := fun bq =>
  let nextTimestamp := l2_Time l2SafeHead +₆₄ BlockTime cfg in
  let expiryEpoch := l1_Number epoch +₆₄ SeqWindowSize cfg in
  let forceEmptyBatches := ((expiryEpoch =? l1_Number (bq_origin bq)) && outOfData)
                           || (expiryEpoch <? l1_Number (bq_origin bq)) in
  let firstOfEpoch := l1_Number epoch =? id_Number (l2_L1Origin l2SafeHead) +₆₄ 1 in
  if negb forceEmptyBatches then (bq, Err EOF)
  else
    match bq_l1Blocks bq with
    | _ :: ((nextEpoch :: _) as rest) =>
        if (nextTimestamp <? l1_Time nextEpoch) || firstOfEpoch then
          (bq, Ok (Singular {| sb_ParentHash := l2_Hash l2SafeHead; sb_EpochNum := l1_Number epoch;
                               sb_EpochHash := l1_Hash epoch; sb_Timestamp := nextTimestamp;
                               sb_Transactions := []; sb_Justification := None |}))
        else (with_l1Blocks rest bq, Err EOF)
    | _ => (bq, Err EOF)
    end.

Definition deriveNextBatch (sysCfg : SystemConfig) (outOfData : bool) (l2SafeHead : L2BlockRef) : stM bqueue Batch := fun bq =>
  match bq_l1Blocks bq with
  | [] => (bq, Err (NewCriticalError (Errorf "cannot derive next batch, no origin was prepared")))
  | epoch :: _ =>
      if negb (bool_decide (l2_L1Origin l2SafeHead = L1BlockRef_ID epoch))
         && negb (id_Number (l2_L1Origin l2SafeHead) =? l1_Number epoch -₆₄ 1) then
        (bq, Err (NewResetError (Errorf "buffered L1 chain epoch in batch queue does not match safe head origin")))
      else
        match batchLoop sysCfg (bq_l1Blocks bq) l2SafeHead (bq_batches bq) [] with
        | Err e => (bq, Err e)
        | Ok (remaining, LoopUndecided) => (with_batches remaining bq, Err EOF)
        | Ok (remaining, LoopAccept batch) => (with_batches remaining bq, Ok batch)
        | Ok (remaining, LoopDone) => forceEmptyBatch epoch outOfData l2SafeHead (with_batches remaining bq)
        end
  end.

(** [NextBatch]: the update of the origin. *)
Definition advance_origin (originBehind : bool) (bq : bqueue) : bqueue :=
  let origin := Origin (bq_prev bq) in
  if bool_decide (bq_origin bq = origin) then bq
  else mkBatchQueue (bq_prev bq) origin (if originBehind then [] else bq_l1Blocks bq ++ [origin])
                    (bq_batches bq) (bq_nextSpan bq).

(** [NextBatch]: loading a batch; the result says whether the previous stage
    is out of data. *)
Definition load_batch (sysCfg : SystemConfig) (originBehind : bool) (safeL2Head : L2BlockRef) : stM bqueue bool := fun bq =>
  let '(p, r) := NextBatch (bq_prev bq) in
  let bq := with_prev p bq in
  match r with
  | Err EOF => (bq, Ok true)
  | Err e => (bq, Err e)
  | Ok batch =>
      if negb originBehind then
        match AddBatch sysCfg batch safeL2Head bq with
        | (bq, Ok _) => (bq, Ok false)
        | (bq, Err e) => (bq, Err e)
        end
      else (bq, Ok false)
  end.

(** [NextBatch]: the first block of the batch that was derived. *)
Definition take_batch (safeL2Head : L2BlockRef) (batch : Batch) : stM bqueue SingularBatch := fun bq =>
  match batch with
  | Singular b => (bq, Ok b)
  | Span b =>
      match GetSingularBatches b (bq_l1Blocks bq) safeL2Head with
      | Err e => (bq, Err (NewCriticalError e))
      | Ok singularBatches => popNextBatch safeL2Head (with_nextSpan singularBatches bq)
      end
  end.

(** An error at the end of the data is the end only if the previous stage is
    out of data as well. *)
Definition eof_or_retry (outOfData : bool) (e : go_error) : go_error :=
  match e with EOF => if outOfData then EOF else NotEnoughData | _ => e end.

Definition finish (r : bqueue * res SingularBatch) : bqueue * res SingularBatch :=
  match r with
  | (bq, Ok b) => (maybeAdvanceEpoch b bq, Ok b)
  | (bq, Err e) => (bq, Err e)
  end.

Definition bq_NextBatch (safeL2Head : L2BlockRef) : stM bqueue SingularBatch := fun bq =>
  match bq_nextSpan bq with
  | _ :: _ => finish (popNextBatch safeL2Head bq)
  | [] =>
      let originBehind := l1_Number (Origin (bq_prev bq)) <? id_Number (l2_L1Origin safeL2Head) in
      let bq := advance_origin originBehind bq in
      match L2SystemConfigByHash l2 (l2_Hash safeL2Head) with
      | Err e => (bq, Err (NewTemporaryError (Wrapf "failed to retrieve L2 parent SystemConfig" e)))
      | Ok sysCfg =>
          match load_batch sysCfg originBehind safeL2Head bq with
          | (bq, Err e) => (bq, Err e)
          | (bq, Ok outOfData) =>
              if originBehind then (bq, Err (if outOfData then EOF else NotEnoughData))
              else
                match deriveNextBatch sysCfg outOfData safeL2Head bq with
                | (bq, Err e) => (bq, Err (eof_or_retry outOfData e))
                | (bq, Ok batch) => finish (take_batch safeL2Head batch bq)
                end
          end
      end
  end.

Definition bq_Reset (base : L1BlockRef) (bq : bqueue) : bqueue * res unit :=
  (mkBatchQueue (bq_prev bq) base [base] [] [], Err EOF).

#[global] Instance BatchQueue_batches : SafeBatchProvider bqueue SingularBatch :=
  { sb_origin := bq_Origin; NextSafeBatch := bq_NextBatch }.

(** ** Specification of [deriveNextBatch] *)

Section Derive.
Variable sysCfg : SystemConfig.
Variable outOfData : bool.
Variable safe : L2BlockRef.

(** The batches a scan over [pre] passes by, and those of them it keeps. *)
Definition passed_by (l1Blocks : list L1BlockRef) (pre : list BatchWithL1InclusionBlock) : Prop :=
  Forall (fun b => check sysCfg l1Blocks safe b l1 l2 = Ok BatchFuture \/ check sysCfg l1Blocks safe b l1 l2 = Ok BatchDrop) pre.

Definition kept (l1Blocks : list L1BlockRef) (pre : list BatchWithL1InclusionBlock) : list BatchWithL1InclusionBlock :=
  filter (fun b => check sysCfg l1Blocks safe b l1 l2 = Ok BatchFuture) pre.

(** The sequencing window of an epoch has passed. *)
Definition expired (epoch origin : L1BlockRef) : Prop :=
  let expiryEpoch := l1_Number epoch +₆₄ SeqWindowSize cfg in
  (expiryEpoch = l1_Number origin /\ outOfData = true) \/ expiryEpoch < l1_Number origin.

Definition empty_batch (epoch : L1BlockRef) : SingularBatch :=
  {| sb_ParentHash := l2_Hash safe; sb_EpochNum := l1_Number epoch; sb_EpochHash := l1_Hash epoch;
     sb_Timestamp := l2_Time safe +₆₄ BlockTime cfg; sb_Transactions := []; sb_Justification := None |}.

(** What one derivation does to a queue that tracks [epoch :: later]: it takes
    the first buffered batch that is accepted; it stops at one it cannot judge
    yet; and only when every buffered batch was passed by and the window of
    the epoch has expired does it make an empty batch, or move to the next
    epoch when the empty blocks have reached its time. *)
Inductive derivation (epoch : L1BlockRef) (later : list L1BlockRef) (bq : bqueue) : bqueue -> res Batch -> Prop :=
| derive_accept pre b post :
    bq_batches bq = pre ++ b :: post -> passed_by (epoch :: later) pre ->
    check sysCfg (epoch :: later) safe b l1 l2 = Ok BatchAccept ->
    derivation epoch later bq (with_batches (kept (epoch :: later) pre ++ post) bq) (Ok (bl_Batch b))
| derive_undecided pre b post :
    bq_batches bq = pre ++ b :: post -> passed_by (epoch :: later) pre ->
    check sysCfg (epoch :: later) safe b l1 l2 = Ok BatchUndecided ->
    derivation epoch later bq (with_batches (kept (epoch :: later) pre ++ b :: post) bq) (Err EOF)
| derive_wait :
    passed_by (epoch :: later) (bq_batches bq) -> ~ expired epoch (bq_origin bq) \/ later = [] ->
    derivation epoch later bq (with_batches (kept (epoch :: later) (bq_batches bq)) bq) (Err EOF)
| derive_empty next rest :
    passed_by (epoch :: later) (bq_batches bq) -> expired epoch (bq_origin bq) -> later = next :: rest ->
    l2_Time safe +₆₄ BlockTime cfg < l1_Time next \/ l1_Number epoch = id_Number (l2_L1Origin safe) +₆₄ 1 ->
    derivation epoch later bq (with_batches (kept (epoch :: later) (bq_batches bq)) bq) (Ok (Singular (empty_batch epoch)))
| derive_next_epoch next rest :
    passed_by (epoch :: later) (bq_batches bq) -> expired epoch (bq_origin bq) -> later = next :: rest ->
    l1_Time next <= l2_Time safe +₆₄ BlockTime cfg -> l1_Number epoch <> id_Number (l2_L1Origin safe) +₆₄ 1 ->
    derivation epoch later bq
      (with_l1Blocks later (with_batches (kept (epoch :: later) (bq_batches bq)) bq)) (Err EOF).

(** What the loop over [bs] amounts to when it ends with [fin]. *)
Definition loop_outcome (l1Blocks : list L1BlockRef) (bs remaining remaining' : list BatchWithL1InclusionBlock)
    (fin : loop_end) : Prop :=
  match fin with
  | LoopDone => passed_by l1Blocks bs /\ remaining' = remaining ++ kept l1Blocks bs
  | LoopAccept x => exists pre b post, bs = pre ++ b :: post /\ passed_by l1Blocks pre /\
      check sysCfg l1Blocks safe b l1 l2 = Ok BatchAccept /\ x = bl_Batch b /\
      remaining' = remaining ++ kept l1Blocks pre ++ post
  | LoopUndecided => exists pre b post, bs = pre ++ b :: post /\ passed_by l1Blocks pre /\
      check sysCfg l1Blocks safe b l1 l2 = Ok BatchUndecided /\
      remaining' = remaining ++ kept l1Blocks pre ++ b :: post
  end.

Lemma kept_cons l1Blocks b pre : kept l1Blocks (b :: pre) = kept l1Blocks [b] ++ kept l1Blocks pre.
Proof. unfold kept. by rewrite <- filter_app. Qed.

Lemma loop_outcome_cons l1Blocks b bs remaining remaining' fin :
  check sysCfg l1Blocks safe b l1 l2 = Ok BatchFuture \/ check sysCfg l1Blocks safe b l1 l2 = Ok BatchDrop ->
  loop_outcome l1Blocks bs (remaining ++ kept l1Blocks [b]) remaining' fin ->
  loop_outcome l1Blocks (b :: bs) remaining remaining' fin.
Proof.
  intros Hb. destruct fin; cbn [loop_outcome].
  - intros (pre & x & post & -> & Hp & Hx & -> & ->). exists (b :: pre), x, post. rewrite (kept_cons _ b pre), <- !app_assoc.
    split; [done|]. split; [by constructor|]. done.
  - intros (pre & x & post & -> & Hp & Hx & ->). exists (b :: pre), x, post. rewrite (kept_cons _ b pre), <- !app_assoc.
    split; [done|]. split; [by constructor|]. done.
  - intros (Hp & ->). rewrite (kept_cons _ b bs), <- !app_assoc. split; [by constructor|done].
Qed.

Lemma batchLoop_spec l1Blocks bs : forall remaining remaining' fin,
  batchLoop sysCfg l1Blocks safe bs remaining = Ok (remaining', fin) -> loop_outcome l1Blocks bs remaining remaining' fin.
Proof.
  induction bs as [|b bs IH]; intros remaining remaining' fin Hl; cbn [batchLoop] in Hl.
  { injection Hl as <- <-. split; [constructor|]. unfold kept. by rewrite filter_nil, app_nil_r. }
  apply res_bind_ok in Hl as (v & Hv & Hl). destruct v.
  - apply loop_outcome_cons; [by right|]. apply IH. unfold kept. by rewrite filter_cons_False, filter_nil, app_nil_r by congruence.
  - injection Hl as <- <-. exists [], b, bs. split; [done|]. split; [constructor|]. done.
  - injection Hl as <- <-. exists [], b, bs. split; [done|]. split; [constructor|]. done.
  - apply loop_outcome_cons; [by left|]. apply IH. unfold kept. by rewrite filter_cons_True by done.
Qed.

Lemma forceEmptyBatch_spec epoch later bq bq' r : bq_l1Blocks bq = epoch :: later ->
  passed_by (epoch :: later) (bq_batches bq) ->
  forceEmptyBatch epoch outOfData safe (with_batches (kept (epoch :: later) (bq_batches bq)) bq) = (bq', r) ->
  derivation epoch later bq bq' r.
Proof.
  intros Hl Hp. unfold forceEmptyBatch. cbn [bq_origin with_batches bq_l1Blocks]. rewrite Hl.
  destruct ((_ && outOfData) || _) eqn:Ef; cbn [negb]; cycle 1.
  { intros [= <- <-]. apply derive_wait; [done|]. left. unfold expired. intros [[He Ho]|He].
    - rewrite He, Ho, Z.eqb_refl in Ef. done.
    - apply orb_false_iff in Ef as [_ Ef]. apply Z.ltb_ge in Ef. lia. }
  assert (He : expired epoch (bq_origin bq)).
  { unfold expired. apply orb_true_iff in Ef as [Ef|Ef]; [left|right; by apply Z.ltb_lt].
    apply andb_true_iff in Ef as [Ef ->]. split; [by apply Z.eqb_eq|done]. }
  destruct later as [|next rest]; [intros [= <- <-]; apply derive_wait; [done|by right]|].
  destruct ((_ <? _) || (_ =? _)) eqn:Et; intros [= <- <-].
  - eapply derive_empty; [done|done|reflexivity|]. apply orb_true_iff in Et as [Et|Et]; [left; by apply Z.ltb_lt|right; by apply Z.eqb_eq].
  - apply orb_false_iff in Et as [Et1 Et2]. eapply derive_next_epoch; [done|done|reflexivity|by apply Z.ltb_ge|by apply Z.eqb_neq].
Qed.

(** Which queues [deriveNextBatch] works on. *)
Definition origin_matches (epoch : L1BlockRef) : Prop :=
  l2_L1Origin safe = L1BlockRef_ID epoch \/ id_Number (l2_L1Origin safe) = l1_Number epoch -₆₄ 1.

Lemma deriveNextBatch_spec bq bq' r epoch later : bq_l1Blocks bq = epoch :: later -> origin_matches epoch ->
  (forall b, b ∈ bq_batches bq -> exists v, check sysCfg (epoch :: later) safe b l1 l2 = Ok v) ->
  deriveNextBatch sysCfg outOfData safe bq = (bq', r) -> derivation epoch later bq bq' r.
Proof.
  intros Hl Ho Hv. unfold deriveNextBatch. rewrite Hl.
  assert (negb (bool_decide (l2_L1Origin safe = L1BlockRef_ID epoch))
    && negb (id_Number (l2_L1Origin safe) =? l1_Number epoch -₆₄ 1) = false) as ->.
  { destruct Ho as [-> | ->]; [by rewrite bool_decide_eq_true_2|]. by rewrite Z.eqb_refl, andb_false_r. }
  destruct (batchLoop sysCfg (epoch :: later) safe (bq_batches bq) []) as [[remaining fin]|e] eqn:Eb.
  - apply batchLoop_spec in Eb. destruct fin.
    + destruct Eb as (pre & x & post & Hb & Hp & Hx & -> & ->). intros [= <- <-]. by eapply derive_accept.
    + destruct Eb as (pre & x & post & Hb & Hp & Hx & ->). intros [= <- <-]. by eapply derive_undecided.
    + destruct Eb as (Hp & ->). by apply forceEmptyBatch_spec.
  - exfalso. revert Eb. generalize (@nil BatchWithL1InclusionBlock). revert Hv. clear. generalize (bq_batches bq) as bs.
    induction bs as [|b bs IH]; intros Hv rem; [done|]. cbn [batchLoop].
    destruct (Hv b ltac:(apply elem_of_cons; by left)) as [v Hb]. rewrite Hb. cbn [mbind res_bind].
    destruct v; try done; apply IH; intros x Hx; apply Hv, elem_of_cons; by right.
Qed.

(** C11. [deriveNextBatch] implements the derivation rule, on every branch: the
    first buffered batch that is acceptable is taken and nothing that may still
    be needed is dropped; an empty batch is made only for an expired epoch
    that no buffered batch extends, and an epoch is left only then. *)
Theorem deriveNextBatch_refines (bq bq' : bqueue) (r : res Batch) (epoch : L1BlockRef) (later : list L1BlockRef)
  (Hblocks : bq_l1Blocks bq = epoch :: later) (Horigin : origin_matches epoch)
  (Hverdicts : forall b, b ∈ bq_batches bq -> exists v, check sysCfg (epoch :: later) safe b l1 l2 = Ok v)
  (Hrun : deriveNextBatch sysCfg outOfData safe bq = (bq', r)) :
  derivation epoch later bq bq' r.
Proof. by apply deriveNextBatch_spec. Qed.
End Derive.

(** ** The queue in the pipeline

    The L1 blocks the pipeline walks over are [chain n], one after the other
    ([Hnum]: the block with number [n]); asking the previous stage for a batch
    does not move its origin, and the span batches it yields are derived ones. *)

Section Pipeline.
Variable chain : Z -> L1BlockRef.
Hypothesis Hnum : forall n, l1_Number (chain n) = n.

(** What decoding gives: timestamps spaced by the block time and epochs that
    grow by at most one, both modulo 2^64. *)
Definition derived_span (b : SpanBatch) : Prop :=
  Z.of_nat (length (batches b)) <= MaxSpanBatchSize /\
  (exists t, is_u64 t /\ forall i el, batches b !! i = Some el -> el_Timestamp el = t +₆₄ (BlockTime cfg *₆₄ Z.of_nat i)) /\
  forall i x y, batches b !! i = Some x -> batches b !! S i = Some y ->
    el_EpochNum y = el_EpochNum x \/ el_EpochNum y = el_EpochNum x +₆₄ 1.

Definition derived_batch (b : Batch) : Prop :=
  match b with Singular _ => True | Span b => derived_span b end.

Hypothesis Hprev_origin : forall p : P, Origin (NextBatch (B := Batch) p).1 = Origin p.
Hypothesis Hprev_spans : forall (p : P) p' b, NextBatch p = (p', Ok b) -> derived_batch b.
Hypothesis Hblocktime : 0 < BlockTime cfg.
Hypothesis Hl2 : forall n p, L2BlockRefByNumber l2 n = Ok p -> 0 <= id_Number (l2_L1Origin p) < 2 ^ 63.

#[local] Notation origin_of head := (id_Number (l2_L1Origin head)).

(** A safe head on the chain: its L1 origin is a block of the chain that is not
    in its future. *)
Record head_ok (head : L2BlockRef) : Prop := {
  ho_origin : l2_L1Origin head = L1BlockRef_ID (chain (origin_of head));
  ho_number : 0 <= origin_of head;
  ho_time : l1_Time (chain (origin_of head)) <= l2_Time head;
  ho_next : 0 <= l2_Time head /\ l2_Time head + BlockTime cfg * (MaxSpanBatchSize + 1) < 2 ^ 64;
}.

(** A batch whose epoch is a block of the chain that is not in its future. *)
Definition on_chain (b : SingularBatch) : Prop :=
  sb_EpochHash b = l1_Hash (chain (sb_EpochNum b)) /\ l1_Time (chain (sb_EpochNum b)) <= sb_Timestamp b.

(** The L1 blocks from [k] to [m]. *)
Definition run (k m : Z) : list L1BlockRef := map chain (seqZ k (m - k + 1)).

(** Batches that follow one another from time [t] and epoch [o] on, with epochs up to [m]. *)
Fixpoint follows (m t o : Z) (bs : list SingularBatch) : Prop :=
  match bs with
  | [] => True
  | b :: bs => sb_Timestamp b = t + BlockTime cfg /\ on_chain b /\ o <= sb_EpochNum b <= o + 1 /\ sb_EpochNum b <= m /\
               follows m (sb_Timestamp b) (sb_EpochNum b) bs
  end.

(** The L1 blocks of a queue with origin [m] start at the origin of the safe
    head, or at the next block once that is due. *)
Definition window (m : Z) (head : L2BlockRef) (bs : list L1BlockRef) (k : Z) : Prop :=
  origin_of head <= k <= origin_of head + 1 /\ k <= m /\ bs = run k m /\
  (k = origin_of head + 1 -> l1_Time (chain k) <= l2_Time head + BlockTime cfg).

(** The rest of a span in the queue: the next blocks after the safe head, or,
    when the payload of one of its blocks was dropped, later ones. *)
Definition span_rest (m : Z) (head : L2BlockRef) (k : Z) (span : list SingularBatch) : Prop :=
  span = [] \/
  (k = origin_of head /\ follows m (l2_Time head) (origin_of head) span) \/
  (exists t o, l2_Time head < t /\ origin_of head <= o /\ follows m t o span).

Definition tracks (m : Z) (head : L2BlockRef) (bs : list L1BlockRef) (span : list SingularBatch) : Prop :=
  (m < origin_of head /\ span = [] /\ (bs = [] \/ bs = [chain m])) \/
  (1 <= origin_of head <= m /\ span = [] /\ bs = run (origin_of head - 1) m) \/
  (exists k, window m head bs k /\ span_rest m head k span).

Record bq_inv (bq : bqueue) (head : L2BlockRef) : Prop := {
  bi_head : head_ok head;
  bi_buffer : Forall (fun b => derived_batch (bl_Batch b)) (bq_batches bq);
  bi_tracks : exists m, bq_origin bq = chain m /\
    (exists m', Origin (bq_prev bq) = chain m' /\ (m' = m \/ m' = m + 1) /\ 0 <= m /\ m' < 2 ^ 63) /\
    tracks m head (bq_l1Blocks bq) (bq_nextSpan bq);
}.

(** *** The pipeline around the queue *)

(** What the attributes queue insists on before it hands the attributes of a
    batch to the engine queue: the parent, the timestamp, and an L1 origin that
    is the one of the parent or a child of it ([createNextAttributes],
    [PreparePayloadAttributes]). It asks for a reset otherwise. *)
Definition attributes_made (head : L2BlockRef) (b : SingularBatch) : Prop :=
  sb_ParentHash b = l2_Hash head /\ sb_Timestamp b = l2_Time head +₆₄ BlockTime cfg /\
  sb_EpochNum b <= origin_of head + 1.

(** The engine builds the block of the batch on the safe head. *)
Definition built_on (head : L2BlockRef) (b : SingularBatch) (head' : L2BlockRef) : Prop :=
  attributes_made head b /\ l2_Time head' = sb_Timestamp b /\ l2_L1Origin head' = Epoch b /\
  l2_Time head' + BlockTime cfg * (MaxSpanBatchSize + 1) < 2 ^ 64.

(** The queue and the safe head of the engine queue: after a reset to any L1
    block up to the origin of the safe head ([EngineQueue.Reset] walks back from
    it); after a batch whose block was built, or whose payload the engine
    refused, so that it was dropped and the safe head stayed
    ([forceNextSafeAttributes]); after a call that failed; after the L1
    traversal moved on. *)
Inductive reachable : bqueue -> L2BlockRef -> Prop :=
| reach_reset bq head m : head_ok head -> 0 <= m <= origin_of head -> origin_of head < 2 ^ 63 -> Origin (bq_prev bq) = chain m ->
    reachable (bq_Reset (chain m) bq).1 head
| reach_batch bq head bq' b head' : reachable bq head -> bq_NextBatch head bq = (bq', Ok b) ->
    built_on head b head' -> reachable bq' head'
| reach_dropped bq head bq' b : reachable bq head -> bq_NextBatch head bq = (bq', Ok b) ->
    attributes_made head b -> reachable bq' head
| reach_error bq head bq' e : reachable bq head -> bq_NextBatch head bq = (bq', Err e) -> reachable bq' head
| reach_l1 bq head p m : reachable bq head -> bq_origin bq = chain m -> Origin (bq_prev bq) = chain m ->
    m + 1 < 2 ^ 63 -> Origin p = chain (m + 1) -> reachable (with_prev p bq) head.

(** *** Runs of L1 blocks *)

Lemma run_nil k m : m < k -> run k m = [].
Proof. intros. unfold run. by rewrite seqZ_nil by lia. Qed.

Lemma run_cons k m : k <= m -> run k m = chain k :: run (k + 1) m.
Proof. intros. unfold run. rewrite seqZ_cons by lia. cbn [map]. f_equal. do 2 f_equal; lia. Qed.

Lemma run_snoc k m : k <= m + 1 -> run k m ++ [chain (m + 1)] = run k (m + 1).
Proof.
  intros. unfold run. replace (m + 1 - k + 1) with (Z.of_nat (S (Z.to_nat (m + 1 - k)))) by lia.
  rewrite seqZ_S, map_app. cbn [map]. f_equal; [do 2 f_equal; lia|]. do 2 f_equal. lia.
Qed.

Lemma elem_of_run k m x : x ∈ run k m <-> exists n, x = chain n /\ k <= n <= m.
Proof.
  unfold run. rewrite list_elem_of_fmap. setoid_rewrite elem_of_seqZ. split; intros (n & -> & ?); exists n; (split; [done|lia]).
Qed.

Lemma batch_origin_run k m n o : k <= m -> m < 2 ^ 63 -> 0 <= k -> batch_origin (run k m) n o ->
  o = chain n /\ k <= n <= k + 1 /\ n <= m.
Proof.
  intros Hk Hm Hk0 Ho. rewrite run_cons in Ho by done. destruct Ho as [e l El -> |e nx l El _ ->].
  - injection El as <- _. rewrite Hnum. split; [done|lia].
  - injection El as <- El. rewrite Hnum, add64_small by (unfold is_u64; lia).
    destruct (decide (k + 1 <= m)); [|by rewrite run_nil in El by lia].
    rewrite run_cons in El by lia. injection El as <- _. split; [done|lia].
Qed.

(** *** Unrolling an accepted span *)

Fixpoint timed (t : Z) (els : list spanBatchElement) : Prop :=
  match els with
  | [] => True
  | el :: els => el_Timestamp el = t /\ timed (t + BlockTime cfg) els
  end.

Lemma timed_lookup t els : (forall i el, els !! i = Some el -> el_Timestamp el = t + BlockTime cfg * Z.of_nat i) -> timed t els.
Proof.
  revert t. induction els as [|el els IH]; intros t Ht; [done|]. split.
  - rewrite (Ht 0%nat el eq_refl). lia.
  - apply IH. intros i x Hx. rewrite (Ht (S i) x Hx). lia.
Qed.

Lemma derived_span_plain b first : derived_span b -> list.head (batches b) = Some first ->
  el_Timestamp first + BlockTime cfg * MaxSpanBatchSize < 2 ^ 64 ->
  0 <= el_EpochNum first -> el_EpochNum first + MaxSpanBatchSize < 2 ^ 64 ->
  timed (el_Timestamp first) (batches b) /\ epoch_steps (batches b).
Proof.
  intros (Hlen & (t & Htu & Ht) & Hs) Hf Hb He0 He. destruct (batches b) as [|x els] eqn:Eb; [done|]. injection Hf as ->.
  pose proof (Ht 0%nat first eq_refl) as Hft. unfold mul64 in Hft. rewrite Z.mul_0_r in Hft. change (u64 0) with 0 in Hft.
  unfold add64 in Hft. rewrite Z.add_0_r, u64_id in Hft by done. split.
  - apply timed_lookup. intros i el Hi. rewrite (Ht i el Hi), Hft. apply lookup_lt_Some in Hi. unfold is_u64 in Htu.
    assert (BlockTime cfg * Z.of_nat i <= BlockTime cfg * MaxSpanBatchSize) by nia.
    unfold mul64. rewrite u64_id by (unfold is_u64; nia). apply add64_small; [done|nia|lia].
  - clear Ht Htu Hft t Hb Eb. revert first He0 He Hs Hlen. generalize MaxSpanBatchSize as n.
    induction els as [|y els IH]; intros n first He0 He Hs Hlen; [done|].
    assert (Hxy : el_EpochNum y = el_EpochNum first \/ el_EpochNum y = el_EpochNum first + 1).
    { destruct (Hs 0%nat first y eq_refl eq_refl) as [?|Hy]; [by left|]. right. rewrite Hy. apply add64_small; [|lia|];
      unfold is_u64; cbn [length] in Hlen; lia. }
    split; [done|]. apply (IH (n - 1)); [lia|lia| |cbn [length] in *; lia].
    intros i a b0 Ha Hb0. by apply (Hs (S i)).
Qed.

Lemma epoch_steps_drop n els : epoch_steps els -> epoch_steps (drop n els).
Proof.
  revert els. induction n as [|n IH]; intros els Hs; [done|]. destruct els as [|x els]; [done|]. cbn [drop].
  apply IH. by destruct els; [|destruct Hs].
Qed.

(** The blocks after the safe head are a suffix that starts one block time
    after it. *)
Lemma timed_filter T t els : (exists q, t = T - BlockTime cfg * q /\ -1 <= q) -> timed t els ->
  exists n, filter (fun el => T < el_Timestamp el) els = drop n els /\ timed (T + BlockTime cfg) (drop n els).
Proof.
  revert t. induction els as [|el els IH]; intros t (q & Hq & Hq1) Ht; [by exists 0%nat|].
  destruct Ht as [Hel Ht]. destruct (decide (q = -1)) as [->|].
  - exists 0%nat. split; [|split; [lia|by replace (T + BlockTime cfg) with t by lia]].
    rewrite filter_cons_True by lia. cbn [drop]. f_equal.
    clear IH Hel. assert (Hlo : T < t + BlockTime cfg) by lia. revert Hlo Ht. generalize (t + BlockTime cfg) as u. clear - Hblocktime.
    induction els as [|x els IH]; intros u Hu Ht; [done|]. destruct Ht as [Hx Ht].
    rewrite filter_cons_True by lia. f_equal. apply (IH (u + BlockTime cfg)); [lia|done].
  - rewrite filter_cons_False by nia. destruct (IH (t + BlockTime cfg)) as (k & Hk & Hk2); [|done|by exists (S k)].
    exists (q - 1). split; lia.
Qed.

Lemma span_unroll l1Blocks head adv els : forall prevEpoch idx bs,
  check_span_blocks cfg l1Blocks head prevEpoch adv idx els = None ->
  singular_loop l1Blocks head idx els = Ok bs ->
  Forall2 (singular_of l1Blocks) (filter (fun el => l2_Time head < el_Timestamp el) els) bs.
Proof.
  induction els as [|el els IH]; intros prevEpoch idx bs Hc Hb; cbn [check_span_blocks singular_loop] in *.
  { injection Hb as <-. constructor. }
  destruct (check_span_block cfg l1Blocks head prevEpoch adv idx el) as [v|idx'] eqn:Eb; [done|].
  destruct (Z.leb_spec (el_Timestamp el) (l2_Time head)).
  - rewrite filter_cons_False by lia. unfold check_span_block in Eb.
    destruct (Z.leb_spec (el_Timestamp el) (l2_Time head)); [|lia]. injection Eb as <-. by eapply IH.
  - rewrite filter_cons_True by done.
    destruct (find_origin (el_EpochNum el) idx (drop idx l1Blocks)) as [[j o]|] eqn:Ef; [|done].
    apply res_bind_ok in Hb as (rest & Hrest & Hb). apply Ok_inj in Hb. subst bs.
    destruct (check_span_block_ok cfg l1Blocks head prevEpoch adv idx el j o idx' ltac:(lia) Ef Eb) as (-> & Htime & Htx).
    apply find_origin_drop in Ef as (_ & Hlj & Hn). constructor; [|by eapply IH].
    exists o. split; [by eapply list_elem_of_lookup_2|]. done.
Qed.

Lemma checkSpanBatch_not_future l1Blocks head batch incl first :
  checkSpanBatch Keccak256Hash rlp_decode_jst decode_tx cfg l1Blocks head batch incl l2 = Ok BatchAccept ->
  list.head (batches batch) = Some first -> el_Timestamp first <= l2_Time head +₆₄ BlockTime cfg.
Proof.
  unfold checkSpanBatch. destruct l1Blocks as [|epoch later]; [done|]. intros Ha Hf.
  assert (Hts : GetTimestamp batch = Ok (el_Timestamp first)).
  { unfold GetTimestamp. destruct (batches batch); [done|]. by injection Hf as ->. }
  rewrite Hts in Ha. cbn [mbind res_bind] in Ha. by destruct (Z.ltb_spec (l2_Time head +₆₄ BlockTime cfg) (el_Timestamp first)).
Qed.

(** *** The operations *)

(** The queue between the update of its origin and the end of the call. *)
Record settled (m : Z) (bq : bqueue) (head : L2BlockRef) : Prop := {
  se_head : head_ok head;
  se_buffer : Forall (fun b => derived_batch (bl_Batch b)) (bq_batches bq);
  se_origin : bq_origin bq = chain m /\ exists m', Origin (bq_prev bq) = chain m' /\ (m' = m \/ m' = m + 1) /\ m' < 2 ^ 63;
  se_range : 0 <= m < 2 ^ 63;
  se_tracks : tracks m head (bq_l1Blocks bq) [];
  se_span : bq_nextSpan bq = [];
}.

Lemma settled_inv m bq head : settled m bq head -> bq_inv bq head.
Proof.
  intros [Hh Hb [Ho (m' & Hp & Hmm & Hm')] Hm Ht Hs]. constructor; [done|done|]. exists m. split; [done|]. rewrite Hs.
  split; [|done]. exists m'. split; [done|]. split; [done|lia].
Qed.

Lemma advance_origin_ok bq head : bq_inv bq head -> bq_nextSpan bq = [] ->
  exists m, settled m (advance_origin (l1_Number (Origin (bq_prev bq)) <? origin_of head) bq) head /\
    l1_Number (Origin (bq_prev bq)) = m.
Proof.
  intros [Hh Hb (m & Ho & (m' & Hp & Hmm & Hm & Hr) & Ht)] Hs. exists m'. rewrite Hp, Hnum, Hs in *. split; [|done].
  unfold advance_origin. rewrite Ho, Hp. case_bool_decide as Heq.
  { assert (m = m') as -> by (rewrite <- (Hnum m), <- (Hnum m'); by f_equal).
    constructor; try done. split; [done|]. exists m'. split; [done|]. split; [by left|done]. }
  assert (m' = m + 1) as -> by (destruct Hmm; [congruence|done]). clear Heq Hmm.
  constructor; cbn [bq_batches bq_origin bq_prev bq_l1Blocks bq_nextSpan]; try done.
  { split; [done|]. exists (m + 1). split; [done|]. split; [by left|done]. }
  { lia. }
  destruct (Z.ltb_spec (m + 1) (origin_of head)); [left; split; [done|]; split; [done|by left]|]. right.
  destruct Ht as [(Hlt & _ & [-> | ->])|[(Hlt & _ & ->)|(k & (Hk1 & Hk2 & -> & Hk3) & _)]].
  - right. exists (m + 1). split; [|by left]. split; [lia|]. split; [lia|]. split; [|lia].
    by rewrite run_cons, run_nil by lia.
  - left. split; [lia|]. split; [done|]. replace (origin_of head - 1) with m by lia.
    rewrite <- run_snoc by lia. by rewrite run_cons, run_nil by lia.
  - left. split; [lia|]. split; [done|]. apply run_snoc. lia.
  - right. exists k. split; [|by left]. split; [done|]. split; [lia|]. split; [|done]. apply run_snoc. lia.
Qed.

Lemma AddBatch_ok sysCfg batch head bq bq' r : AddBatch sysCfg batch head bq = (bq', r) ->
  bq' = bq \/ bq' = with_batches (bq_batches bq ++ [{| L1InclusionBlock := bq_origin bq; bl_Batch := batch |}]) bq.
Proof.
  unfold AddBatch. destruct (bq_l1Blocks bq); [intros [= <- <-]; by left|].
  destruct (CheckBatch _ _ _ _ _ _ _ _ _ _) as [[]|]; intros [= <- <-]; (by left) || (by right).
Qed.

Lemma load_batch_ok m sysCfg ob head bq bq' r : settled m bq head ->
  load_batch sysCfg ob head bq = (bq', r) -> settled m bq' head.
Proof.
  intros Hs. unfold load_batch.
  pose proof (Hprev_origin (bq_prev bq)) as Hpo. pose proof (Hprev_spans (bq_prev bq)) as Hps.
  destruct (NextBatch (bq_prev bq)) as [p r0] eqn:En. cbn [fst] in Hpo.
  assert (Hs1 : settled m (with_prev p bq) head).
  { destruct Hs as [Hh Hb [Ho Hp] Hm Ht Hsp]. constructor; cbn; try done. split; [done|]. by rewrite Hpo. }
  destruct r0 as [batch|e]; cycle 1.
  { destruct e; intros [= <- _]; done. }
  destruct (negb ob); [|intros [= <- _]; done].
  destruct (AddBatch sysCfg batch head (with_prev p bq)) as [bq1 r1] eqn:Ea. apply AddBatch_ok in Ea.
  intros Hr. assert (bq' = bq1) as -> by (by destruct r1; injection Hr as <- _).
  destruct Ea as [-> | ->]; [done|]. destruct Hs1 as [Hh Hb Ho Hm Ht Hsp]. constructor; try done.
  cbn [with_batches bq_batches]. apply Forall_app. split; [done|]. constructor; [|constructor]. by apply (Hps p).
Qed.

(** What may be taken from the queue as the next batch. *)
Definition good (m k : Z) (head : L2BlockRef) (b : SingularBatch) : Prop :=
  sb_ParentHash b = l2_Hash head /\ sb_Timestamp b = l2_Time head + BlockTime cfg /\ on_chain b /\ k <= sb_EpochNum b <= m.

Definition derivable (m k : Z) (head : L2BlockRef) (l1Blocks : list L1BlockRef) (batch : Batch) : Prop :=
  match batch with
  | Singular b => good m k head b
  | Span b => derived_span b /\ exists incl,
      checkSpanBatch Keccak256Hash rlp_decode_jst decode_tx cfg l1Blocks head b incl l2 = Ok BatchAccept
  end.

Lemma next_time head : head_ok head -> l2_Time head +₆₄ BlockTime cfg = l2_Time head + BlockTime cfg.
Proof.
  intros [_ _ _ [Ht Hn]]. apply add64_small; [|lia|]; unfold is_u64, MaxSpanBatchSize, MaxRLPBytesPerChannel in *; nia.
Qed.

Lemma accepted_derivable m k head sysCfg b : head_ok head -> 0 <= k <= m -> m < 2 ^ 63 -> derived_batch (bl_Batch b) ->
  check sysCfg (run k m) head b l1 l2 = Ok BatchAccept -> derivable m k head (run k m) (bl_Batch b).
Proof.
  intros Hh Hk Hm Hd. unfold CheckBatch. destruct (bl_Batch b) as [sb|sp]; cbn [derivable].
  - intros Ha. apply checkSingularBatch_accept in Ha as [(Hts & Hp & _ & _ & o & Ho & Hhash & Htime & _) _].
    apply batch_origin_run in Ho as (-> & Hr & Hr2); [|lia|lia|lia]. rewrite next_time in Hts by done.
    split; [done|]. split; [done|]. split; [done|lia].
  - intros Ha. apply res_bind_ok in Ha as (ts & _ & Ha). destruct (negb _); [done|]. split; [done|by eexists].
Qed.

Lemma kept_derived sysCfg head bs pre : Forall (fun b => derived_batch (bl_Batch b)) pre ->
  Forall (fun b => derived_batch (bl_Batch b)) (kept sysCfg head bs pre).
Proof.
  intros Hp. apply Forall_forall. intros x Hx. apply list_elem_of_filter in Hx as [_ Hx].
  rewrite Forall_forall in Hp. by apply Hp.
Qed.

Lemma settled_buffer m bq head bs : settled m bq head -> Forall (fun b => derived_batch (bl_Batch b)) bs ->
  settled m (with_batches bs bq) head.
Proof. by intros [Hh Hb Ho Hm Ht Hsp] Hbs. Qed.

Lemma add1_small n : 0 <= n < 2 ^ 63 -> n +₆₄ 1 = n + 1.
Proof. intros. apply add64_small; unfold is_u64; lia. Qed.

(** A queue whose blocks start right before the origin of the safe head. *)
Lemma stuck_derive m head sysCfg ood bq : 1 <= origin_of head <= m -> m < 2 ^ 63 ->
  bq_l1Blocks bq = run (origin_of head - 1) m ->
  exists e, deriveNextBatch sysCfg ood head bq = (bq, Err (NewResetError e)).
Proof.
  intros Ho Hm Hbs. unfold deriveNextBatch. rewrite Hbs, run_cons by lia. rewrite Hnum.
  rewrite bool_decide_eq_false_2; cycle 1.
  { intros Heq. apply (f_equal id_Number) in Heq. cbn in Heq. rewrite Hnum in Heq. lia. }
  rewrite (proj2 (Z.eqb_neq _ _)) by (unfold sub64, u64; Z.to_euclidean_division_equations; lia).
  cbn [negb andb]. by eexists.
Qed.

Lemma empty_good m k head : head_ok head -> window m head (run k m) k -> good m k head (empty_batch head (chain k)).
Proof.
  intros Hh (Hk1 & Hk2 & _ & Ht). unfold good, on_chain, empty_batch.
  cbn [sb_ParentHash sb_Timestamp sb_EpochHash sb_EpochNum]. rewrite Hnum, next_time by done.
  split; [done|]. split; [done|]. split; [split; [done|]|lia].
  destruct (decide (k = origin_of head + 1)); [by apply Ht|]. assert (k = origin_of head) as -> by lia.
  pose proof (ho_time _ Hh). lia.
Qed.

Lemma derive_ok m k bq head sysCfg ood bq' r : settled m bq head -> window m head (bq_l1Blocks bq) k ->
  deriveNextBatch sysCfg ood head bq = (bq', r) ->
  settled m bq' head /\
  match r with
  | Ok batch => bq_l1Blocks bq' = run k m /\ derivable m k head (run k m) batch
  | Err _ => True
  end.
Proof.
  intros Hs Hw. pose proof Hw as (Hk1 & Hk2 & Hbs & Ht). pose proof (se_head _ _ _ Hs) as Hh.
  pose proof (ho_number _ Hh) as Hn0. pose proof (se_range _ _ _ Hs) as Hm. pose proof (se_buffer _ _ _ Hs) as Hbuf.
  unfold deriveNextBatch. rewrite Hbs, run_cons by done. destruct (_ && _); [by intros [= <- <-]|].
  rewrite <- run_cons by done.
  destruct (batchLoop sysCfg (run k m) head (bq_batches bq) []) as [[remaining fin]|e] eqn:Eb; [|by intros [= <- <-]].
  apply batchLoop_spec in Eb. destruct fin as [x| |].
  - destruct Eb as (pre & b & post & Hb & Hp & Hx & -> & ->). intros [= <- <-].
    rewrite Hb in Hbuf. apply Forall_app in Hbuf as [Hpre Hbuf]. apply Forall_cons_1 in Hbuf as [Hb1 Hpost].
    split; [|split; [done|apply (accepted_derivable _ _ _ sysCfg); done || lia]].
    apply settled_buffer; [done|]. apply Forall_app. split; [by apply kept_derived|done].
  - destruct Eb as (pre & b & post & Hb & Hp & Hx & ->). intros [= <- <-]. split; [|done].
    rewrite Hb in Hbuf. apply Forall_app in Hbuf as [Hpre Hbuf]. apply settled_buffer; [done|].
    apply Forall_app. split; [by apply kept_derived|done].
  - destruct Eb as (Hp & ->). cbn [app]. intros Hf.
    rewrite run_cons in Hbs by done. rewrite run_cons in Hp, Hf by done.
    apply (forceEmptyBatch_spec sysCfg _ _ _ _ _ _ _ Hbs Hp) in Hf.
    assert (Hk : settled m (with_batches (kept sysCfg head (chain k :: run (k + 1) m) (bq_batches bq)) bq) head)
      by (apply settled_buffer; [done|by apply kept_derived]).
    inversion Hf as [pre b post Hb Hpre Hx|pre b post Hb Hpre Hx|Hp2 Hw2|nx rest Hp2 He Hl Hc|nx rest Hp2 He Hl Hc1 Hc2]; subst.
    + exfalso. rewrite Hb in Hp. apply Forall_app in Hp as [_ Hp]. apply Forall_cons_1 in Hp as [Hp _]. destruct Hp as [Hp|Hp]; congruence.
    + exfalso. rewrite Hb in Hp. apply Forall_app in Hp as [_ Hp]. apply Forall_cons_1 in Hp as [Hp _]. destruct Hp as [Hp|Hp]; congruence.
    + done.
    + split; [done|]. split; [by rewrite (run_cons k m)|]. cbn [derivable]. by apply empty_good.
    + split; [|done]. rewrite Hnum, add1_small in Hc2 by lia. assert (k = origin_of head) as -> by lia.
      destruct Hk as [Hh' Hb' Ho Hm' _ Hsp]. constructor; try done.
      cbn [with_l1Blocks bq_l1Blocks]. right. right. exists (origin_of head + 1).
      destruct (decide (origin_of head + 1 <= m)) as [Hle|]; [|by rewrite run_nil in Hl by lia].
      rewrite run_cons in Hl by done. injection Hl as <- _. rewrite next_time in Hc1 by done.
      split; [|by left]. split; [lia|]. split; [lia|]. split; [done|done].
Qed.

(** The blocks of an accepted span follow one another. *)
Lemma span_follows m k els : forall sbs T, timed (T + BlockTime cfg) els -> epoch_steps els ->
  Forall2 (singular_of (run k m)) els sbs ->
  match sbs with
  | [] => True
  | b :: rest => sb_Timestamp b = T + BlockTime cfg /\ on_chain b /\ k <= sb_EpochNum b <= m /\
                 follows m (sb_Timestamp b) (sb_EpochNum b) rest
  end.
Proof.
  induction els as [|el els IH]; intros sbs T Ht Hs Hf; [by apply Forall2_nil_inv_l in Hf as ->|].
  apply Forall2_cons_inv_l in Hf as (sb & sbs' & (o & Ho & Hn & Htime & _ & ->) & Hf & ->).
  apply elem_of_run in Ho as (n & -> & Hr). rewrite Hnum in Hn. subst n. destruct Ht as [Hel Ht].
  cbn [sb_Timestamp sb_EpochNum]. split; [done|]. split; [by split|]. split; [lia|]. rewrite Hel in *.
  assert (Hs' : epoch_steps els) by (by destruct els; [|destruct Hs]).
  specialize (IH sbs' (T + BlockTime cfg) Ht Hs' Hf). destruct sbs' as [|b2 rest]; [done|]. cbn [follows].
  destruct IH as (H1 & H2 & H3 & H4). repeat (split; [done|]). split; [|split; [lia|done]].
  destruct els as [|e2 els]; [by apply Forall2_nil_inv_l in Hf|].
  apply Forall2_cons_inv_l in Hf as (sb2 & sbs2 & (o2 & _ & _ & _ & _ & Hsb2) & _ & [= -> _]).
  destruct Hs as [He _]. rewrite Hsb2. cbn [sb_EpochNum]. lia.
Qed.

Lemma take_ok m k bq head batch bq' r : settled m bq head -> window m head (bq_l1Blocks bq) k ->
  derivable m k head (bq_l1Blocks bq) batch -> take_batch head batch bq = (bq', r) ->
  match r with
  | Ok b => good m k head b /\ exists rest, bq' = with_nextSpan rest bq /\ follows m (sb_Timestamp b) (sb_EpochNum b) rest
  | Err _ => settled m bq' head
  end.
Proof.
  intros Hs Hw Hd. pose proof Hw as (Hk1 & Hk2 & Hbs & _). pose proof (se_head _ _ _ Hs) as Hh.
  destruct batch as [b|sp]; cbn [take_batch derivable] in *.
  { intros [= <- <-]. split; [done|]. exists []. split; [|done]. pose proof (se_span _ _ _ Hs) as Hsp.
    destruct bq; cbn in *. by rewrite Hsp. }
  destruct Hd as (Hsp & incl & Hacc).
  destruct (GetSingularBatches sp (bq_l1Blocks bq) head) as [sbs|e] eqn:Eg; [|by intros [= <- <-]].
  apply checkSpanBatch_accept in Hacc as Ha. destruct Ha as (first & z & pn & parent & Hf & Hz & _ & Hpar & _ & _ & Hse & Hblocks).
  pose proof (checkSpanBatch_not_future _ _ _ _ _ Hacc Hf) as Hnf. rewrite next_time in Hnf by done.
  pose proof (ho_next _ Hh) as [Ht0 Hnx]. pose proof (ho_number _ Hh). pose proof (se_range _ _ _ Hs) as Hm.
  assert (Hpo : 0 <= origin_of parent < 2 ^ 63).
  { unfold span_parent in Hpar. repeat (case_match; try done); simplify_eq; [by eapply Hl2|lia]. }
  rewrite add1_small in Hse by done.
  destruct (derived_span_plain sp first Hsp Hf) as [Htd Hst]; [nia|lia|unfold MaxSpanBatchSize, MaxRLPBytesPerChannel; lia|].
  pose proof (span_unroll _ _ _ _ _ _ _ Hblocks Eg) as Hun.
  destruct (timed_filter (l2_Time head) (el_Timestamp first) (batches sp)) as (n & Hn & Hn2); [|done|].
  { unfold span_parent in Hpar. rewrite next_time in Hpar by done.
    destruct (Z.ltb_spec (el_Timestamp first) (l2_Time head + BlockTime cfg)); [|exists (-1); lia].
    destruct (Z.ltb_spec (l2_Time head) (el_Timestamp first)); [done|].
    destruct (Z.eqb_spec (BlockTime cfg) 0); [done|].
    destruct (Z.eqb_spec ((l2_Time head -₆₄ el_Timestamp first) mod BlockTime cfg) 0) as [Hmod|]; [|done].
    destruct Hsp as (_ & (t & Htu & Htt) & _). assert (0 <= el_Timestamp first).
    { rewrite (Htt 0%nat first) by (by destruct (batches sp); [|injection Hf as ->]). apply u64_range. }
    assert (l2_Time head < 2 ^ 64) by (assert (0 < MaxSpanBatchSize) by done; nia).
    rewrite sub64_small in Hmod by (unfold is_u64; lia).
    exists ((l2_Time head - el_Timestamp first) / BlockTime cfg). pose proof (Z.div_mod (l2_Time head - el_Timestamp first) (BlockTime cfg) ltac:(lia)).
    pose proof (Z.div_pos (l2_Time head - el_Timestamp first) (BlockTime cfg)). lia. }
  rewrite Hn, Hbs in Hun. pose proof (span_follows m k _ sbs (l2_Time head) Hn2 (epoch_steps_drop n _ Hst) Hun) as Hfo.
  unfold popNextBatch. destruct sbs as [|b rest]; cbn [bq_nextSpan with_nextSpan]; intros [= <- <-].
  { destruct Hs. by constructor. }
  destruct Hfo as (H1 & H2 & H3 & H4). split; [|by exists rest]. split; [done|]. split; [done|]. split; [done|exact H3].
Qed.

(** The queue after a batch was handed out and its block built. *)
Lemma finish_inv m k bq head b rest head' : settled m bq head -> window m head (bq_l1Blocks bq) k ->
  good m k head b -> follows m (sb_Timestamp b) (sb_EpochNum b) rest -> built_on head b head' ->
  bq_inv (maybeAdvanceEpoch b (with_nextSpan rest bq)) head'.
Proof.
  intros Hs (Hk1 & Hk2 & Hbs & _) (_ & Hts & (Hhash & Htime) & Hr) Hf ((_ & _ & Hadj) & Ht' & Ho' & Hnx).
  pose proof (se_head _ _ _ Hs) as Hh. pose proof (ho_number _ Hh). pose proof (ho_next _ Hh) as [? _].
  destruct (se_origin _ _ _ Hs) as [Hbo Hpo]. pose proof (se_range _ _ _ Hs) as Hm.
  assert (Hn' : origin_of head' = sb_EpochNum b) by (by rewrite Ho').
  assert (Hh' : head_ok head').
  { constructor; rewrite ?Hn', ?Ht'; [|lia|done|split; [lia|by rewrite <- Ht']].
    rewrite Ho'. unfold Epoch, L1BlockRef_ID. by rewrite Hnum, <- Hhash. }
  assert (Hwin : forall bs, bs = run (sb_EpochNum b) m ->
    bq_inv (with_l1Blocks bs (with_nextSpan rest bq)) head').
  { intros bs ->. constructor; [done|by apply Hs|]. exists m. split; [done|].
    split; [destruct Hpo as (m' & ? & ? & ?); exists m'; split; [done|]; split; [done|lia]|].
    right. right. exists (sb_EpochNum b). unfold window, span_rest. rewrite Hn', Ht'.
    split; [|right; left; by split]. split; [lia|]. split; [lia|]. split; [done|lia]. }
  unfold maybeAdvanceEpoch. cbn [with_nextSpan bq_l1Blocks]. rewrite Hbs, run_cons by done. rewrite Hnum, add1_small by lia.
  destruct (Z.eqb_spec (sb_EpochNum b) (k + 1)) as [E1|].
  - apply Hwin. by rewrite E1.
  - assert (sb_EpochNum b = k) as E1 by lia. specialize (Hwin (run k m) ltac:(by rewrite E1)).
    rewrite <- Hbs in Hwin. by destruct bq.
Qed.

(** The queue after the payload of the batch was dropped: the queue may have
    moved on to the next L1 block although the safe head has not, and the rest
    of a span is one block ahead. *)
Lemma dropped_inv m k bq head b rest : settled m bq head -> window m head (bq_l1Blocks bq) k ->
  good m k head b -> follows m (sb_Timestamp b) (sb_EpochNum b) rest -> attributes_made head b ->
  bq_inv (maybeAdvanceEpoch b (with_nextSpan rest bq)) head.
Proof.
  intros Hs (Hk1 & Hk2 & Hbs & Hk3) (_ & Hts & (Hhash & Htime) & Hr) Hf (_ & _ & Hadj).
  pose proof (se_head _ _ _ Hs) as Hh. pose proof (ho_number _ Hh).
  destruct (se_origin _ _ _ Hs) as [Hbo Hpo]. pose proof (se_range _ _ _ Hs) as Hm.
  assert (Hwin : forall j bs, window m head bs j -> bq_inv (with_l1Blocks bs (with_nextSpan rest bq)) head).
  { intros j bs Hw. constructor; [done|by apply Hs|]. exists m. split; [done|].
    split; [destruct Hpo as (m' & ? & ? & ?); exists m'; split; [done|]; split; [done|lia]|].
    right. right. exists j. split; [done|]. right. right. exists (sb_Timestamp b), (sb_EpochNum b). split; [lia|]. by split; [lia|]. }
  unfold maybeAdvanceEpoch. cbn [with_nextSpan bq_l1Blocks]. rewrite Hbs, run_cons by done. rewrite Hnum, add1_small by lia.
  destruct (Z.eqb_spec (sb_EpochNum b) (k + 1)) as [E1|].
  - apply (Hwin (k + 1)). split; [lia|]. split; [lia|]. split; [done|]. intros _. rewrite <- E1, <- Hts. done.
  - assert (Hw : window m head (run k m) k) by (repeat split; try done; lia). specialize (Hwin k (run k m) Hw).
    rewrite <- Hbs in Hwin. by destruct bq.
Qed.

(** A batch from the queue: on top of the safe head, or, as the rest of a span
    a block of which was dropped, later than that. *)
Definition late (m : Z) (head : L2BlockRef) (b : SingularBatch) : Prop :=
  sb_ParentHash b = l2_Hash head /\ l2_Time head + BlockTime cfg < sb_Timestamp b /\ on_chain b /\
  origin_of head <= sb_EpochNum b <= m.

Definition safe_batch (m : Z) (head : L2BlockRef) (b : SingularBatch) : Prop :=
  good m (origin_of head) head b \/ late m head b.

Lemma good_mono m k k' head b : k' <= k -> good m k head b -> good m k' head b.
Proof. intros Hk (? & ? & ? & ?). repeat (split; [done|]). lia. Qed.

Lemma NextBatch_step bq head bq' r : bq_inv bq head -> bq_NextBatch head bq = (bq', r) ->
  match r with
  | Err _ => bq_inv bq' head
  | Ok b => (exists m, bq_origin bq' = chain m /\ safe_batch m head b) /\
            (forall head', built_on head b head' -> bq_inv bq' head') /\
            (attributes_made head b -> bq_inv bq' head)
  end.
Proof.
  intros Hi. unfold bq_NextBatch. destruct (bq_nextSpan bq) as [|b rest] eqn:Esp.
  - destruct (advance_origin_ok bq head Hi Esp) as (m & Hs & Hm). rewrite Hm in *.
    set (bq1 := advance_origin _ bq) in *. clearbody bq1. clear Hi Esp Hm.
    destruct (L2SystemConfigByHash l2 (l2_Hash head)) as [sysCfg|]; [|intros [= <- <-]; by eapply settled_inv].
    destruct (load_batch sysCfg (m <? origin_of head) head bq1) as [bq2 r2] eqn:El.
    apply (load_batch_ok _ _ _ _ _ _ _ Hs) in El. clear Hs. destruct r2 as [ood|]; [|intros [= <- <-]; by eapply settled_inv].
    destruct (Z.ltb_spec m (origin_of head)); [intros [= <- <-]; by eapply settled_inv|].
    destruct (deriveNextBatch sysCfg ood head bq2) as [bq3 r3] eqn:Ed.
    destruct (se_tracks _ _ _ El) as [(? & _)|[(Hlt & _ & Hbs)|(k & Hw & _)]]; [lia| |].
    { destruct (stuck_derive m head sysCfg ood bq2 Hlt) as [e He]; [apply El|done|]. rewrite He in Ed. injection Ed as <- <-.
      intros [= <- <-]. by eapply settled_inv. }
    destruct (derive_ok _ _ _ _ _ _ _ _ El Hw Ed) as (Hs3 & H3). destruct r3 as [batch|]; [|intros [= <- <-]; by eapply settled_inv].
    destruct H3 as [Hl3 Hd]. rewrite <- Hl3 in Hd.
    assert (Hw3 : window m head (bq_l1Blocks bq3) k) by (rewrite Hl3; by destruct Hw as (? & ? & _ & ?)).
    destruct (take_batch head batch bq3) as [bq4 r4] eqn:Et. pose proof (take_ok _ _ _ _ _ _ _ Hs3 Hw3 Hd Et) as H4.
    destruct r4 as [b|]; cbn [finish]; intros [= <- <-]; [|by eapply settled_inv].
    destruct H4 as (Hg & rest & -> & Hf). split.
    + exists m. split; [|left; apply (good_mono m k); [by destruct Hw as [[? _] _]|done]].
      unfold maybeAdvanceEpoch. destruct (se_origin _ _ _ Hs3) as [Ho3 _].
      cbn [with_nextSpan bq_l1Blocks]. destruct (bq_l1Blocks bq3); [done|]. by destruct (_ =? _).
    + split; [intros head' Hb; by eapply finish_inv|]. intros Hb. by eapply dropped_inv.
  - destruct Hi as [Hh Hbuf (m & Ho & (m' & Hp & Hmm & Hm & Hr) & Ht)]. rewrite Esp in Ht.
    destruct Ht as [(_ & ? & _)|[(_ & ? & _)|(k & Hw & [?|[[-> Hf]|(t & o & Hlt & Hge & Hf)]])]]; [done|done|done| |].
    all: destruct Hf as (H1 & [H2 H2'] & H3 & H4 & H5); unfold popNextBatch; rewrite Esp; cbn [finish]; intros [= <- <-].
    + assert (Hs : settled m (with_nextSpan [] bq) head).
      { constructor; try done; [split; [done|]; by exists m'|lia|]. right. right. exists (origin_of head). by split; [|left]. }
      assert (Hg : good m (origin_of head) head (set_ParentHash (l2_Hash head) b)) by (repeat split; try done; cbn; lia).
      split; [|split].
      * exists m. split; [|by left]. unfold maybeAdvanceEpoch. cbn [with_nextSpan bq_l1Blocks].
        destruct (bq_l1Blocks bq); [done|]. by destruct (_ =? _).
      * intros head' Hb. exact (finish_inv m (origin_of head) _ head _ rest head' Hs Hw Hg H5 Hb).
      * intros Hb. exact (dropped_inv m (origin_of head) _ head _ rest Hs Hw Hg H5 Hb).
    + assert (Hts : l2_Time head +₆₄ BlockTime cfg < sb_Timestamp b) by (rewrite next_time by done; lia).
      split; [|split].
      * exists m. split; [|right; repeat split; cbn; try done; lia]. unfold maybeAdvanceEpoch. cbn [with_nextSpan bq_l1Blocks].
        destruct (bq_l1Blocks bq); [done|]. by destruct (_ =? _).
      * intros head' ((_ & He & _) & _). cbn in He. lia.
      * intros (_ & He & _). cbn in He. lia.
Qed.

Lemma Reset_inv bq head m : head_ok head -> 0 <= m <= origin_of head -> origin_of head < 2 ^ 63 ->
  Origin (bq_prev bq) = chain m -> bq_inv (bq_Reset (chain m) bq).1 head.
Proof.
  intros Hh Hm Hmax Ho. constructor; [done|constructor|]. exists m. split; [done|].
  split; [exists m; split; [done|]; split; [by left|lia]|]. cbn [bq_Reset fst bq_l1Blocks bq_nextSpan].
  destruct (decide (m = origin_of head)) as [->|]; [right; right|left; split; [lia|]; split; [done|by right]].
  exists (origin_of head). split; [|by left]. split; [lia|]. split; [lia|]. split; [by rewrite run_cons, run_nil by lia|lia].
Qed.

Lemma reachable_inv bq head : reachable bq head -> bq_inv bq head.
Proof.
  induction 1 as [bq head m Hh Hm Hmax Ho|bq head bq' b head' _ IH Hn Hb|bq head bq' b _ IH Hn Hb|bq head bq' e _ IH Hn
    |bq head p m _ IH Ho Hp Hm Hp'].
  - by apply Reset_inv.
  - destruct (NextBatch_step _ _ _ _ IH Hn) as (_ & Hi & _). by apply Hi.
  - destruct (NextBatch_step _ _ _ _ IH Hn) as (_ & _ & Hi). by apply Hi.
  - exact (NextBatch_step _ _ _ _ IH Hn).
  - destruct IH as [Hh Hb (m0 & Ho' & (m' & Hp0 & Hmm & Hm0 & Hr) & Ht)].
    assert (m0 = m) as -> by (rewrite <- (Hnum m0), <- (Hnum m); congruence).
    constructor; [done|done|]. exists m. split; [done|]. split; [|done]. exists (m + 1). split; [done|]. split; [by right|lia].
Qed.


(** Every batch the queue hands out goes on top of the safe head, or is later
    than that and refused. *)
Lemma batch_queue_safe (bq : bqueue) (head : L2BlockRef) (bq' : bqueue) (b : SingularBatch) :
  reachable bq head -> bq_NextBatch head bq = (bq', Ok b) ->
  sb_ParentHash b = l2_Hash head /\
  (sb_Timestamp b = l2_Time head + BlockTime cfg \/
   l2_Time head + BlockTime cfg < sb_Timestamp b /\ l2_Time head +₆₄ BlockTime cfg = l2_Time head + BlockTime cfg) /\
  sb_EpochHash b = l1_Hash (chain (sb_EpochNum b)) /\
  l1_Time (chain (sb_EpochNum b)) <= sb_Timestamp b /\
  origin_of head <= sb_EpochNum b <= l1_Number (bq_origin bq').
Proof.
  intros Hreach Hnext. pose proof (reachable_inv _ _ Hreach) as Hi.
  destruct (NextBatch_step _ _ _ _ Hi Hnext) as [(m & Ho & [(Hp & Ht & [Hh Htime] & Hr)|(Hp & Ht & [Hh Htime] & Hr)]) _];
    rewrite Ho, Hnum; (split; [done|]); (split; [|done]); [by left|right].
  split; [done|]. apply next_time, Hi.
Qed.
End Pipeline.

(** ** A skipped epoch *)

Variable rlp_encode_jst : option L2BatchJustification -> res bytes.
Variable encode_deposit : DepositTx -> res bytes.

(** The rule for singular batches compares the epoch of a batch with the
    first L1 block of the queue, not with the origin of the safe head. Once
    the queue has moved on to the epoch after the safe head's (its window
    expired), a batch of the epoch after that is accepted although it skips an
    epoch; the attributes queue then refuses it with a reset error, and the
    batch is accepted again after every reset. *)
Lemma skipped_epoch_resets (sysCfg : SystemConfig) (outOfData : bool) (bq : bqueue) (head : L2BlockRef)
  (epoch next : L1BlockRef) (later : list L1BlockRef) (b : SingularBatch) (incl : L1BlockRef)
  (post : list BatchWithL1InclusionBlock) (ba : Fetchers) (info : BlockInfo) (receipts : list Receipt) (c : SystemConfig)
  (Hmode : Espresso sysCfg = false)
  (Hblocks : bq_l1Blocks bq = epoch :: next :: later)
  (Hbuffer : bq_batches bq = {| L1InclusionBlock := incl; bl_Batch := Singular b |} :: post)
  (Hahead : id_Number (l2_L1Origin head) = l1_Number epoch -₆₄ 1)
  (Hskip : sb_EpochNum b = l1_Number next /\ l1_Number next <> id_Number (l2_L1Origin head))
  (Hvalid : singular_valid cfg sysCfg (epoch :: next :: later) head b incl)
  (Hsys : SystemConfigByL2Hash ba (l2_Hash head) = Ok c)
  (Hinfo : FetchReceipts ba (sb_EpochHash b) = Ok (info, receipts))
  (Hparent : bi_ParentHash info <> id_Hash (l2_L1Origin head)) :
  (deriveNextBatch sysCfg outOfData head bq).2 = Ok (Singular b) /\
  exists msg, createNextAttributes Keccak256Hash rlp_encode_jst encode_deposit cfg ba b head = Err (NewResetError msg).
Proof.
  assert (Ha : checkSingularBatch cfg sysCfg (epoch :: next :: later) head b incl l1 = Ok BatchAccept)
    by (apply checkSingularBatch_accept; split; [done|congruence]).
  destruct Hvalid as (Hts & Hp & _). destruct Hskip as [Hs1 Hs2]. split.
  - unfold deriveNextBatch. rewrite Hblocks, Hahead, Z.eqb_refl, andb_false_r, Hbuffer. cbn [batchLoop].
    unfold CheckBatch. cbn [bl_Batch L1InclusionBlock]. rewrite Ha. cbn [mbind res_bind app bl_Batch]. done.
  - unfold createNextAttributes. rewrite bool_decide_eq_true_2 by done. cbn [negb].
    rewrite Hts, Z.eqb_refl. cbn [negb]. unfold PreparePayloadAttributes, epoch_data, Epoch. cbn [id_Number id_Hash].
    rewrite Hsys. cbn [map_err mbind res_bind]. rewrite Hs1. destruct (Z.eqb_spec (id_Number (l2_L1Origin head)) (l1_Number next)); [congruence|].
    cbn [negb]. rewrite Hinfo. cbn [map_err mbind res_bind]. rewrite (bool_decide_eq_false_2 (id_Hash (l2_L1Origin head) = bi_ParentHash info)) by congruence.
    cbn [negb mbind res_bind]. by eexists.
Qed.
End BatchQueue.

(** ** Witnesses *)

#[local] Existing Instance ex_lib.

(** A previous stage that yields singular batches. *)
#[local] Instance ex_prev_stage : NextBatchProvider (L1BlockRef * list SingularBatch) Batch := {
  nbt_origin := fst;
  NextBatch := fun p => match p.2 with [] => (p, Err EOF) | b :: bs => ((p.1, bs), Ok (Singular b)) end;
}.

Definition ex_chain (n : Z) : L1BlockRef := ex_l1_at n (12 * n).

Definition ex_short_cfg : Config :=
  {| cfg_Genesis := cfg_Genesis ex_cfg; BlockTime := 2; MaxSequencerDrift := 600; SeqWindowSize := 1; ChannelTimeout := 30;
     L1ChainID := Some 1; L2ChainID := Some 10; RegolithTime := Some 0; CanyonTime := Some 0;
     SpanBatchTime := Some 0; BatchInboxAddress := replicate 20 3; DepositContractAddress := replicate 20 4;
     L1SystemConfigAddress := replicate 20 5; HotShotContractAddress := None |}.

#[local] Notation ex_next := (bq_NextBatch ex_keccak ex_rlp_decode ex_decode_tx ex_short_cfg (ex_provider ex_l1_chain) ex_safe_fetcher).
#[local] Notation ex_reachable := (reachable ex_keccak ex_rlp_decode ex_decode_tx ex_short_cfg (ex_provider ex_l1_chain)
  ex_safe_fetcher ex_chain).

(** The queue is reset at L1 block 6, the origin of the safe head; block 7 ends
    the window of block 6 and the queue moves on; block 8 carries a batch of
    epoch 8. *)
Definition ex_bq0 : BatchQueue (L1BlockRef * list SingularBatch) :=
  (bq_Reset (ex_chain 6) (mkBatchQueue (ex_chain 6, []) zero_L1BlockRef [] [] [])).1.
Definition ex_bq1 := (ex_next ex_head ex_bq0).1.
Definition ex_bq2 := (ex_next ex_head (with_prev (ex_chain 7, []) ex_bq1)).1.
Definition ex_skip_batch : SingularBatch := ex_plain_batch 8 108 [].
Definition ex_bq3 := with_prev (ex_chain 8, [ex_skip_batch]) ex_bq2.



(** A reset to block 5, right before the origin of the safe head: the queue
    keeps that block when it gets to block 6, and asks for a reset. *)
Lemma reset_one_behind :
  let bq0 := (bq_Reset (ex_chain 5) (mkBatchQueue (ex_chain 5, []) zero_L1BlockRef [] [] [])).1 in
  let bq1 := (ex_next ex_head bq0).1 in
  let '(bq2, r) := ex_next ex_head (with_prev (ex_chain 6, []) bq1) in
  (ex_next ex_head bq0).2 = Err EOF /\ bq_l1Blocks bq2 = [ex_chain 5; ex_chain 6] /\
  exists e, r = Err (NewResetError e).
Proof. vm_compute. split; [reflexivity|]. split; [reflexivity|]. by eexists. Qed.

Lemma deriveNextBatch_refines_witness :
  exists bq', derivation ex_keccak ex_rlp_decode ex_decode_tx ex_short_cfg (ex_provider ex_l1_chain) ex_safe_fetcher
    ex_sysCfg true ex_head (ex_chain 7) [] ex_bq2 bq' (Err EOF).
Proof.
  eexists. apply (deriveNextBatch_refines ex_keccak ex_rlp_decode ex_decode_tx ex_short_cfg (ex_provider ex_l1_chain)
    ex_safe_fetcher); [vm_compute; reflexivity|right; vm_compute; reflexivity| |vm_compute; reflexivity].
  intros b Hb. by apply not_elem_of_nil in Hb.
Defined.


(** The queue of [ex_bq3] once the batch is loaded, and the L1 block of the
    skipped-to epoch. *)
Definition ex_loaded : BatchQueue (L1BlockRef * list SingularBatch) :=
  (load_batch ex_keccak ex_rlp_decode ex_decode_tx ex_short_cfg (ex_provider ex_l1_chain) ex_safe_fetcher
     ex_sysCfg false ex_head (advance_origin false ex_bq3)).1.

Definition ex_epoch8 : BlockInfo :=
  {| bi_Hash := hash_of 8; bi_ParentHash := hash_of 7; bi_Number := 8; bi_Time := 96; bi_MixDigest := hash_of 9; bi_BaseFee := 7 |}.

Definition ex_skip_fetchers : Fetchers :=
  {| InfoByHash := fun _ => Ok ex_epoch8; FetchReceipts := fun _ => Ok (ex_epoch8, []);
     SystemConfigByL2Hash := fun _ => Ok ex_sysCfg |}.

Lemma ex_skip_valid : singular_valid ex_short_cfg ex_sysCfg [ex_chain 7; ex_chain 8] ex_head ex_skip_batch (ex_chain 8).
Proof.
  split; [vm_compute; reflexivity|]. split; [reflexivity|]. split; [vm_compute; discriminate|]. split; [reflexivity|].
  exists (ex_chain 8). split; [apply (NextEpoch _ _ (ex_chain 7) (ex_chain 8) []); vm_compute; reflexivity|].
  split; [reflexivity|]. split; [vm_compute; discriminate|]. left. vm_compute. discriminate.
Qed.

Lemma skipped_epoch_resets_witness :
  exists msg, createNextAttributes ex_keccak ex_rlp_encode ex_encode_deposit ex_short_cfg ex_skip_fetchers ex_skip_batch ex_head
    = Err (NewResetError msg).
Proof.
  assert (Hl : bq_l1Blocks ex_loaded = [ex_chain 7; ex_chain 8]) by (vm_compute; reflexivity).
  assert (Hb : bq_batches ex_loaded = [{| L1InclusionBlock := ex_chain 8; bl_Batch := Singular ex_skip_batch |}])
    by (vm_compute; reflexivity).
  assert (Hp : bi_ParentHash ex_epoch8 <> id_Hash (l2_L1Origin ex_head)) by (intros H; vm_compute in H; discriminate H).
  assert (Hk : sb_EpochNum ex_skip_batch = l1_Number (ex_chain 8) /\ l1_Number (ex_chain 8) <> id_Number (l2_L1Origin ex_head)).
  { split; [reflexivity|]. intros H; vm_compute in H; discriminate H. }
  destruct (skipped_epoch_resets ex_keccak ex_rlp_decode ex_decode_tx ex_short_cfg (ex_provider ex_l1_chain) ex_safe_fetcher
    ex_rlp_encode ex_encode_deposit ex_sysCfg false ex_loaded ex_head (ex_chain 7) (ex_chain 8) [] ex_skip_batch
    (ex_chain 8) [] ex_skip_fetchers ex_epoch8 [] ex_sysCfg eq_refl Hl Hb eq_refl Hk ex_skip_valid eq_refl eq_refl Hp)
    as [_ H]. exact H.
Defined.
