(* ===== verification/ChannelInReader.v ===== *)
(** * Batches out of channels

    [op-node/rollup/derive/batch.go] (typed batch encoding), [BatchReader] of
    [channel.go] and [channel_in_reader.go]: the batches of a channel are read
    one by one from the decompressed channel data. *)

From S2P Require Import Prelude Eth Frame BitCodec SystemConfig Espresso L1Info Stages Attributes Batches SpanBatchTxs SpanBatch BatchQueue.

Definition SingularBatchType : Z := 0.
Definition SpanBatchType : Z := 1.

(** zlib and RLP: opening a decompressor on the channel data with an RLP stream
    on top of it, the next byte string of that stream, and the RLP of a
    singular batch. *)
Class ChannelLib `{EspressoLib} := {
  rlp_reader : Type;
  zlib_open : bytes -> res rlp_reader;
  stream_Bytes : stM rlp_reader bytes;
  rlp_decode_singular : bytes -> res SingularBatch;
  rlp_encode_singular : SingularBatch -> res bytes;
}.

Section Reader.
Context `{E : EspressoLib} {AccessList : Type} `{L : TxLib (AccessList := AccessList)} `{C : !ChannelLib}.
Variable cfg : Config.

(** *** Typed batches *)

Inductive BatchData :=
| SingularData (b : SingularBatch)
| SpanData (b : RawSpanBatch).

Definition GetBatchType (b : BatchData) : Z :=
  match b with SingularData _ => SingularBatchType | SpanData _ => SpanBatchType end.

Definition encodeTyped (b : BatchData) : res bytes :=
  inner ← match b with SingularData b => rlp_encode_singular b | SpanData b => Ok (encode_raw b) end;
  Ok (GetBatchType b :: inner).

Definition decodeTyped (data : bytes) : res BatchData :=
  match data with
  | [] => Err (Errorf "batch too short")
  | ty :: rest =>
      if ty =? SingularBatchType then SingularData <$> rlp_decode_singular rest
      else if ty =? SpanBatchType then (fun r => SpanData r.1) <$> decode_raw rest
      else Err (Errorf "unrecognized batch type")
  end.

(** The function [BatchReader] returns: the next item of the stream, decoded. *)
Definition read_batch : stM rlp_reader BatchData := fun r =>
  match stream_Bytes r with
  | (r, Ok v) => (r, decodeTyped v)
  | (r, Err e) => (r, Err e)
  end.

(** *** The stage *)

Record ChannelInReader (P : Type) := mkReader {
  cr_prev : P;
  nextBatchFn : option rlp_reader;
}.
Arguments mkReader {P} _ _.
Arguments cr_prev {P} _.
Arguments nextBatchFn {P} _.

Section Stage.
Context {P : Type} `{NextDataProvider P}.

Definition NewChannelInReader (prev : P) : ChannelInReader P := mkReader prev None.

Definition cr_Origin (cr : ChannelInReader P) : L1BlockRef := Origin (cr_prev cr).

Definition WriteChannel (data : bytes) : stM (ChannelInReader P) unit := fun cr =>
  match zlib_open data with
  | Ok f => (mkReader (cr_prev cr) (Some f), Ok tt)
  | Err e => (cr, Err e)
  end.

Definition NextChannel (cr : ChannelInReader P) : ChannelInReader P := mkReader (cr_prev cr) None.

(** The first part of [NextBatch]: open the next channel if none is open. *)
Definition ensure_open : stM (ChannelInReader P) rlp_reader := fun cr =>
  match nextBatchFn cr with
  | Some r => (cr, Ok r)
  | None =>
      match NextData (cr_prev cr) with
      | (p, Err e) => (mkReader p None, Err e)
      | (p, Ok data) =>
          match WriteChannel data (mkReader p None) with
          | (cr, Err e) => (cr, Err (NewTemporaryError e))
          | (cr, Ok _) =>
              match nextBatchFn cr with
              | Some r => (cr, Ok r)
              | None => (cr, Err (GoPanic "nil function"))
              end
          end
      end
  end.

(** What a decoded batch becomes, for a reader at L1 block [origin]. *)
Definition batch_of (origin : L1BlockRef) (data : BatchData) : res Batch :=
  match data with
  | SingularData b => Ok (Singular b)
  | SpanData raw =>
      if negb (IsSpanBatch cfg (l1_Time origin)) then
        Err (NewTemporaryError (Errorf "cannot accept span batch in L1 block"))
      else
        chainID ← deref (L2ChainID cfg);
        Span <$> derive raw (BlockTime cfg) (gen_L2Time (cfg_Genesis cfg)) chainID
  end.

(** [NextBatch] *)
Definition cr_NextBatch : stM (ChannelInReader P) Batch := fun cr =>
  match ensure_open cr with
  | (cr, Err e) => (cr, Err e)
  | (cr, Ok r) =>
      match read_batch r with
      | (r, Err (GoPanic s)) => (mkReader (cr_prev cr) (Some r), Err (GoPanic s))
      | (r, Err _) => (NextChannel cr, Err NotEnoughData)
      | (r, Ok data) => (mkReader (cr_prev cr) (Some r), batch_of (cr_Origin cr) data)
      end
  end.

Definition cr_Reset (cr : ChannelInReader P) : ChannelInReader P * res unit :=
  (mkReader (cr_prev cr) None, Err EOF).

#[global] Instance ChannelInReader_batches : NextBatchProvider (ChannelInReader P) Batch :=
  { nbt_origin := cr_Origin; NextBatch := cr_NextBatch }.
End Stage.

(** ** What a decoded span looks like *)







(** ** Draining a channel *)

Section Drain.
Context {P : Type} `{NextDataProvider P}.

(** The items left in a stream; it ends with an error, [io.EOF] or another one
    when the compressed data is cut off. *)
Fixpoint holds (r : rlp_reader) (items : list bytes) : Prop :=
  match items with
  | [] => exists r' e, stream_Bytes r = (r', Err e) /\ forall s, e <> GoPanic s
  | x :: items => exists r', stream_Bytes r = (r', Ok x) /\ holds r' items
  end.

(** The items up to the first one that does not decode. *)
Fixpoint decodable (items : list bytes) : list BatchData :=
  match items with
  | [] => []
  | x :: items => match decodeTyped x with Ok d => d :: decodable items | Err _ => [] end
  end.

(** [n] calls of [NextBatch]. *)
Fixpoint calls (n : nat) (cr : ChannelInReader P) : ChannelInReader P * list (res Batch) :=
  match n with
  | O => (cr, [])
  | S n => let '(cr, r) := cr_NextBatch cr in
           let '(cr, rs) := calls n cr in
           (cr, r :: rs)
  end.

Lemma calls_open p items : forall r, holds r items ->
  (forall x s, x ∈ items -> decodeTyped x <> Err (GoPanic s)) ->
  calls (S (length (decodable items))) (mkReader p (Some r)) =
    (mkReader p None, map (batch_of (Origin p)) (decodable items) ++ [Err NotEnoughData]).
Proof.
  induction items as [|x items IH]; intros r Hr Hp; cbn [calls].
  - destruct Hr as (r' & e & Hr & He). unfold cr_NextBatch, ensure_open, read_batch. cbn [nextBatchFn]. rewrite Hr.
    destruct e; try done. by destruct (He msg).
  - destruct Hr as (r' & Hr & Hrest). cbn [decodable]. unfold cr_NextBatch at 1, ensure_open, read_batch. cbn [nextBatchFn].
    rewrite Hr. destruct (decodeTyped x) as [d|e] eqn:Ed.
    + cbn [length cr_prev map app]. unfold cr_Origin. cbn [cr_prev]. rewrite (IH r' Hrest); [done|].
      intros y s Hy. apply Hp, elem_of_cons. by right.
    + cbn [length calls map app cr_prev]. specialize (Hp x). rewrite Ed in Hp.
      destruct e; try done. by destruct (Hp msg ltac:(apply elem_of_cons; by left)).
Qed.

(** A channel is read in order and once: with the channel data the
    previous stage hands over, the calls of [NextBatch] yield what each batch
    of the decompressed data stands for, one by one, up to the end of the data
    or the first item that is not a batch; the rest of the channel is dropped,
    and one more call asks to be called again and leaves the reader ready for
    the next channel. *)
Lemma channel_batches_in_order (p p' : P) (data : bytes) (r : rlp_reader) (items : list bytes)
  (Hdata : NextData p = (p', Ok data)) (Hopen : zlib_open data = Ok r) (Hitems : holds r items)
  (Hpanic : forall x s, x ∈ items -> decodeTyped x <> Err (GoPanic s)) :
  calls (S (length (decodable items))) (mkReader p None) =
    (mkReader p' None, map (batch_of (Origin p')) (decodable items) ++ [Err NotEnoughData]).
Proof.
  rewrite <- (calls_open p' items r Hitems Hpanic). cbn [calls].
  assert (Hn : cr_NextBatch (mkReader p None) = cr_NextBatch (mkReader p' (Some r))); [|by rewrite Hn].
  unfold cr_NextBatch, ensure_open. cbn [nextBatchFn cr_prev]. rewrite Hdata. unfold WriteChannel. by rewrite Hopen.
Qed.

(** ** The reader below the batch queue *)

Hypothesis Hdata_origin : forall p : P, Origin (NextData p).1 = Origin p.




Variable Keccak256Hash : bytes -> Hash.
Variable rlp_decode_jst : bytes -> res L2BatchJustification.
Variable decode_tx : bytes -> res (Z * bytes).
Variable l1 : L1Provider.
Variable l2 : SafeBlockFetcher.
Variable chain : Z -> L1BlockRef.

End Drain.
End Reader.
Arguments mkReader {_ _ P} _ _.
Arguments cr_prev {_ _ P} _.
Arguments nextBatchFn {_ _ P} _.

(** ** Witnesses *)

#[local] Existing Instance ex_lib.
#[local] Existing Instance toy_lib.

(** Toy codecs: the channel data is one item after the other, each with its
    length in front; a singular batch is its epoch and its timestamp. *)
Definition toy_next : stM bytes bytes := fun r =>
  match r with
  | [] => ([], Err EOF)
  | n :: r => (drop (Z.to_nat n) r, Ok (take (Z.to_nat n) r))
  end.

#[local] Instance toy_channels : ChannelLib := {|
  rlp_reader := bytes;
  zlib_open := fun data => Ok data;
  stream_Bytes := toy_next;
  rlp_decode_singular := fun b => match b with [epoch; ts] => Ok (ex_plain_batch epoch ts []) | _ => Err (Errorf "toy") end;
  rlp_encode_singular := fun b => Ok [sb_EpochNum b; sb_Timestamp b];
|}.

Definition ex_items : list bytes := [[0; 8; 108]; [0; 8; 110]; [7]; [0; 8; 112]].
Definition ex_channel : bytes := concat (map (fun x => Z.of_nat (length x) :: x) ex_items).

Lemma channel_batches_in_order_witness :
  (calls ex_cfg 3 (mkReader (mkScript (ex_chain 8) [Ok ex_channel]) None)).2 =
    [Ok (Singular (ex_plain_batch 8 108 [])); Ok (Singular (ex_plain_batch 8 110 [])); Err NotEnoughData].
Proof.
  pose proof (channel_batches_in_order ex_cfg (mkScript (ex_chain 8) [Ok ex_channel]) (mkScript (ex_chain 8) [])
    ex_channel ex_channel ex_items eq_refl eq_refl) as H.
  assert (Hh : holds ex_channel ex_items) by (do 4 (eexists; split; [reflexivity|]); by eexists _, EOF).
  specialize (H Hh). change (S (length (decodable ex_items))) with 3%nat in H. rewrite H; [reflexivity|].
  intros x s Hx. repeat (apply elem_of_cons in Hx as [->|Hx]; [vm_compute; discriminate|]). by apply not_elem_of_nil in Hx.
Defined.

#[local] Instance ex_reader_stage : NextBatchProvider (ChannelInReader (script bytes)) Batch := ChannelInReader_batches ex_short_cfg.

#[local] Notation ex_read_next := (bq_NextBatch (P := ChannelInReader (script bytes)) ex_keccak ex_rlp_decode ex_decode_tx
  ex_short_cfg (ex_provider ex_l1_chain) ex_safe_fetcher).
#[local] Notation ex_read_reachable := (reachable (P := ChannelInReader (script bytes)) ex_keccak ex_rlp_decode ex_decode_tx
  ex_short_cfg (ex_provider ex_l1_chain) ex_safe_fetcher ex_chain).




