(* ===== verification/Heap.v ===== *)
(** * Binary heaps

    Go's [container/heap] on a slice, for an order given by an integer key:
    what [payloads_queue.go] uses of it. *)

From S2P Require Import Prelude.

Section Heap.
Context {A : Type}.
Variable key : A -> Z.

(** [Less(i, j)] and [Swap(i, j)] of the interface, on indices in range. *)
Definition less (l : list A) (i j : nat) : bool :=
  match l !! i, l !! j with Some x, Some y => key x <? key y | _, _ => false end.

Definition swap (l : list A) (i j : nat) : list A :=
  match l !! i, l !! j with Some x, Some y => <[i:=y]> (<[j:=x]> l) | _, _ => l end.

Fixpoint up (fuel : nat) (l : list A) (j : nat) : list A :=
  match fuel with
  | O => l
  | S fuel =>
      let i := ((j - 1) / 2)%nat in
      if (i =? j)%nat || negb (less l j i) then l else up fuel (swap l i j) i
  end.

Fixpoint down (fuel : nat) (l : list A) (i n : nat) : list A :=
  match fuel with
  | O => l
  | S fuel =>
      let j1 := (2 * i + 1)%nat in
      if (n <=? j1)%nat then l else
      let j2 := (j1 + 1)%nat in
      let j := if (j2 <? n)%nat && less l j2 j1 then j2 else j1 in
      if negb (less l j i) then l else down fuel (swap l i j) j n
  end.

Definition heap_Push (l : list A) (x : A) : list A :=
  up (S (length l)) (l ++ [x]) (length l).

(** [heap.Pop] of a non-empty heap: the element and the rest. *)
Definition heap_Pop (l : list A) : option (A * list A) :=
  let n := pred (length l) in
  let l := down (S n) (swap l 0 n) 0 n in
  match l !! n with Some x => Some (x, take n l) | None => None end.

(** ** The heap property *)

Definition child (i c : nat) : Prop := c = (2 * i + 1)%nat \/ c = (2 * i + 2)%nat.

Definition at_key (l : list A) (i : nat) : Z := match l !! i with Some x => key x | None => 0 end.

(** The first [n] elements are a heap. *)
Definition heapn (n : nat) (l : list A) : Prop :=
  forall i c, child i c -> (c < n)%nat -> at_key l i <= at_key l c.
Definition heap (l : list A) : Prop := heapn (length l) l.

(** A heap but for the edge above [j], and but for the edges below [i]. *)
Definition heap_above (n : nat) (l : list A) (j : nat) : Prop :=
  (forall i c, child i c -> (c < n)%nat -> c <> j -> at_key l i <= at_key l c) /\
  (forall g c, child g j -> child j c -> (c < n)%nat -> at_key l g <= at_key l c).
Definition heap_below (n : nat) (l : list A) (i : nat) : Prop :=
  (forall p c, child p c -> (c < n)%nat -> p <> i -> at_key l p <= at_key l c) /\
  (forall g c, child g i -> child i c -> (c < n)%nat -> at_key l g <= at_key l c).

Lemma length_swap l i j : length (swap l i j) = length l.
Proof. unfold swap. destruct (l !! i), (l !! j); by rewrite ?length_insert. Qed.

Lemma swap_perm l i j : swap l i j ≡ₚ l.
Proof.
  unfold swap. destruct (l !! i) as [x|] eqn:Ei; [|done]. destruct (l !! j) as [y|] eqn:Ej; [|done].
  by apply Permutation_insert_swap.
Qed.

Lemma at_key_swap l i j k : (i < length l)%nat -> (j < length l)%nat ->
  at_key (swap l i j) k = if decide (k = i) then at_key l j else if decide (k = j) then at_key l i else at_key l k.
Proof.
  intros Hi Hj. apply lookup_lt_is_Some_2 in Hi as Hx. apply lookup_lt_is_Some_2 in Hj as Hy.
  destruct Hx as [x Hx], Hy as [y Hy]. unfold swap. rewrite Hx, Hy. unfold at_key.
  repeat case_decide; subst; rewrite ?list_lookup_insert_eq by (by rewrite ?length_insert); rewrite ?Hx, ?Hy; try done.
  - rewrite list_lookup_insert_ne, list_lookup_insert_eq by done. done.
  - by rewrite !list_lookup_insert_ne by done.
Qed.

Lemma less_at l i j : (i < length l)%nat -> (j < length l)%nat -> less l i j = (at_key l i <? at_key l j).
Proof.
  intros Hi Hj. apply lookup_lt_is_Some_2 in Hi as [x Hx]. apply lookup_lt_is_Some_2 in Hj as [y Hy].
  unfold less, at_key. by rewrite Hx, Hy.
Qed.

Lemma parent_child j : (0 < j)%nat -> child ((j - 1) / 2) j.
Proof.
  intros. unfold child. pose proof (Nat.div_mod (j - 1) 2 ltac:(lia)). pose proof (Nat.mod_upper_bound (j - 1) 2 ltac:(lia)). lia.
Qed.

Lemma child_inj p q c : child p c -> child q c -> p = q.
Proof. unfold child. lia. Qed.

Lemma child_lt p c : child p c -> (p < c)%nat.
Proof. unfold child. lia. Qed.

Lemma swap_above n l i j : heap_above n l j -> child i j -> (j < n)%nat -> (n <= length l)%nat ->
  at_key l j < at_key l i -> heap_above n (swap l i j) i.
Proof.
  intros [H1 H2] Hij Hj Hn Hlt. pose proof (child_lt _ _ Hij).
  assert (Hk : forall k, at_key (swap l i j) k = if decide (k = i) then at_key l j else if decide (k = j) then at_key l i else at_key l k)
    by (intros; apply at_key_swap; lia).
  split; intros p c Hpc.
  - intros Hc Hci. rewrite !Hk. pose proof (child_lt _ _ Hpc). destruct (decide (c = j)) as [->|].
    + assert (p = i) as -> by (by eapply child_inj). rewrite decide_True, decide_False by (done || lia). lia.
    + rewrite (decide_False (P := c = i)) by done. specialize (H1 p c Hpc Hc ltac:(done)). repeat case_decide; subst; try lia.
      by apply H2.
  - intros Hic Hc. rewrite !Hk. pose proof (child_lt _ _ Hpc). pose proof (child_lt _ _ Hic).
    pose proof (H1 p i Hpc ltac:(lia) ltac:(lia)). rewrite (decide_False (P := p = i)), (decide_False (P := p = j)) by lia.
    rewrite (decide_False (P := c = i)) by lia. case_decide; [lia|]. specialize (H1 i c Hic Hc ltac:(done)). lia.
Qed.

Lemma up_spec n fuel : forall l j, (j < n)%nat -> n = length l -> (j < fuel)%nat -> heap_above n l j ->
  up fuel l j ≡ₚ l /\ heapn n (up fuel l j).
Proof.
  induction fuel as [|fuel IH]; intros l j Hj Hn Hf Ha; [lia|]. cbn [up].
  destruct (Nat.eqb_spec ((j - 1) / 2) j) as [E|E]; cbn [orb].
  - split; [done|]. destruct (decide (j = 0)%nat) as [->|]; [|pose proof (child_lt _ _ (parent_child j ltac:(lia))); lia].
    intros i c Hic Hc. destruct Ha as [Ha _]. apply Ha; [done|done|]. pose proof (child_lt _ _ Hic). lia.
  - assert (0 < j)%nat by (destruct j; [done|lia]). pose proof (parent_child j ltac:(lia)) as Hp. pose proof (child_lt _ _ Hp).
    rewrite less_at by lia. destruct (Z.ltb_spec (at_key l j) (at_key l ((j - 1) / 2))) as [Hlt|Hge]; cbn [negb].
    + destruct (IH (swap l ((j - 1) / 2) j) ((j - 1) / 2)%nat) as [HP HH]; [lia|by rewrite length_swap|lia|apply swap_above; try done; lia|].
      split; [|done]. by rewrite HP, swap_perm.
    + split; [done|]. intros i c Hic Hc. destruct (decide (c = j)) as [->|]; [|by destruct Ha as [Ha _]; apply Ha].
      assert (i = ((j - 1) / 2)%nat) as -> by (by eapply child_inj). lia.
Qed.

Lemma heap_Push_spec l x : heap l -> heap_Push l x ≡ₚ x :: l /\ heap (heap_Push l x).
Proof.
  intros Hh. destruct (up_spec (length (l ++ [x])) (S (length l)) (l ++ [x]) (length l)) as [HP HH].
  - rewrite length_app. cbn. lia.
  - done.
  - lia.
  - rewrite length_app. cbn [length]. assert (Ha : forall k, (k < length l)%nat -> at_key (l ++ [x]) k = at_key l k)
      by (intros; unfold at_key; by rewrite lookup_app_l).
    split.
    + intros i c Hic Hc Hne. pose proof (child_lt _ _ Hic). rewrite !Ha by lia. apply Hh; [done|lia].
    + intros g c _ Hc1 Hc. pose proof (child_lt _ _ Hc1). lia.
  - unfold heap_Push, heap. split; [by rewrite HP, <- Permutation_cons_append|]. by rewrite HP at 1.
Qed.

Lemma swap_below n l i j : heap_below n l i -> child i j -> (j < n)%nat -> (n <= length l)%nat ->
  at_key l j < at_key l i -> (forall c, child i c -> (c < n)%nat -> at_key l j <= at_key l c) ->
  heap_below n (swap l i j) j.
Proof.
  intros [H1 H2] Hij Hj Hn Hlt Hmin. pose proof (child_lt _ _ Hij).
  assert (Hk : forall k, at_key (swap l i j) k = if decide (k = i) then at_key l j else if decide (k = j) then at_key l i else at_key l k)
    by (intros; apply at_key_swap; lia).
  split; intros p c Hpc.
  - intros Hc Hpj. rewrite !Hk. pose proof (child_lt _ _ Hpc). rewrite (decide_False (P := p = j)) by done.
    destruct (decide (p = i)) as [->|].
    + rewrite (decide_False (P := c = i)) by lia. case_decide; [lia|by apply Hmin].
    + destruct (decide (c = j)) as [->|]; [by destruct (child_inj _ _ _ Hpc Hij)|].
      specialize (H1 p c Hpc Hc ltac:(done)). case_decide; [|done]. subst. by apply H2.
  - intros Hjc Hc. assert (p = i) as -> by (by eapply child_inj). rewrite !Hk. pose proof (child_lt _ _ Hjc).
    rewrite decide_True, (decide_False (P := c = i)), (decide_False (P := c = j)) by lia. apply H1; [done|done|lia].
Qed.

Lemma down_spec n fuel : forall l i, (n <= length l)%nat -> (n <= i + fuel)%nat -> heap_below n l i ->
  down fuel l i n ≡ₚ l /\ heapn n (down fuel l i n) /\ forall k, (n <= k)%nat -> down fuel l i n !! k = l !! k.
Proof.
  induction fuel as [|fuel IH]; intros l i Hn Hf [H1 H2]; cbn [down].
  { split; [done|]. split; [|done]. intros p c Hpc Hc. apply H1; [done|done|]. pose proof (child_lt _ _ Hpc). lia. }
  destruct (Nat.leb_spec n (2 * i + 1)).
  { split; [done|]. split; [|done]. intros p c Hpc Hc. apply H1; [done|done|]. unfold child in Hpc. lia. }
  set (j := if ((2 * i + 1 + 1 <? n)%nat && less l (2 * i + 1 + 1) (2 * i + 1)) then (2 * i + 1 + 1)%nat else (2 * i + 1)%nat).
  assert (Hj : child i j /\ (j < n)%nat /\ forall c, child i c -> (c < n)%nat -> at_key l j <= at_key l c).
  { unfold j. destruct (Nat.ltb_spec (2 * i + 1 + 1) n) as [Hj2|Hj2]; cbn [andb].
    - rewrite less_at by lia. destruct (Z.ltb_spec (at_key l (2 * i + 1 + 1)) (at_key l (2 * i + 1))).
      + split; [right; lia|]. split; [lia|]. intros c [-> | ->] _; [lia|]. replace (2 * i + 2)%nat with (2 * i + 1 + 1)%nat by lia. lia.
      + split; [left; lia|]. split; [lia|]. intros c [-> | ->] _; [lia|]. replace (2 * i + 2)%nat with (2 * i + 1 + 1)%nat by lia. lia.
    - split; [left; lia|]. split; [lia|]. intros c [-> | ->] Hc; lia. }
  destruct Hj as (Hij & Hjn & Hmin). clearbody j. pose proof (child_lt _ _ Hij).
  rewrite less_at by lia. destruct (Z.ltb_spec (at_key l j) (at_key l i)) as [Hlt|Hge]; cbn [negb].
  - destruct (IH (swap l i j) j) as (HP & HH & HT); [by rewrite length_swap|lia|by apply swap_below|].
    split; [by rewrite HP, swap_perm|]. split; [done|]. intros k Hk. rewrite HT by done.
    unfold swap. destruct (l !! i), (l !! j); try done. by rewrite !list_lookup_insert_ne by lia.
  - split; [done|]. split; [|done]. intros p c Hpc Hc. destruct (decide (p = i)) as [->|]; [|by apply H1].
    specialize (Hmin c Hpc Hc). lia.
Qed.

Lemma heap_Pop_spec l x l' : heap l -> heap_Pop l = Some (x, l') ->
  head l = Some x /\ l ≡ₚ x :: l' /\ heap l'.
Proof.
  unfold heap_Pop. intros Hh Hp. destruct l as [|a l]; [done|]. set (n := length l). change (pred (length (a :: l))) with n in Hp.
  set (l1 := swap (a :: l) 0 n) in *.
  assert (Hlen : length l1 = S n) by (unfold l1; by rewrite length_swap).
  assert (Hk : forall k, at_key l1 k = if decide (k = 0%nat) then at_key (a :: l) n else if decide (k = n) then at_key (a :: l) 0 else at_key (a :: l) k)
    by (intros; apply at_key_swap; cbn; lia).
  destruct (down_spec n (S n) l1 0) as (HP & HH & HT); [lia|lia| |].
  { split; intros p c Hpc; [|unfold child in Hpc; lia]. intros Hc Hne. pose proof (child_lt _ _ Hpc). rewrite !Hk.
    rewrite !decide_False by lia. apply Hh; [done|cbn; lia]. }
  rewrite HT in Hp by done.
  assert (Hlast : l1 !! n = Some a).
  { unfold l1, swap. destruct ((a :: l) !! n) as [z|] eqn:Ez.
    - cbn [lookup list_lookup]. destruct n as [|n']; [cbn in Ez |- *; by simplify_eq|].
      rewrite list_lookup_insert_ne by done. rewrite list_lookup_insert_eq; [done|]. by apply lookup_lt_Some in Ez.
    - apply lookup_ge_None in Ez. cbn in Ez. lia. }
  rewrite Hlast in Hp. apply Some_inj, pair_equal_spec in Hp as [<- <-]. split; [done|].
  set (l2 := down (S n) l1 0 n) in *. assert (Hl2 : length l2 = S n) by (by rewrite HP).
  assert (Hn2 : l2 !! n = Some a) by (by rewrite HT).
  assert (Hsp : l2 = take n l2 ++ [a]).
  { rewrite <- (take_drop n l2) at 1. f_equal. erewrite drop_S by done. by rewrite drop_ge by lia. }
  split.
  - rewrite (Permutation_cons_append (take n l2) a), <- Hsp, HP. unfold l1. by rewrite swap_perm.
  - unfold heap. rewrite length_take, Nat.min_l by lia. intros i c Hic Hc. pose proof (child_lt _ _ Hic).
    assert (Ha : forall k, (k < n)%nat -> at_key (take n l2) k = at_key l2 k) by (intros; unfold at_key; by rewrite lookup_take_lt by lia).
    rewrite !Ha by lia. by apply HH.
Qed.

Lemma heap_Pop_total l : l <> [] -> heap l -> exists x l', heap_Pop l = Some (x, l').
Proof.
  intros Hne _. unfold heap_Pop. set (n := pred (length l)).
  assert (Hd : forall fuel m l i, length (down fuel l i m) = length l).
  { induction fuel as [|fuel IH]; intros m l0 i; cbn [down]; [done|]. destruct (_ <=? _)%nat; [done|].
    destruct (negb _); [done|]. by rewrite IH, length_swap. }
  destruct (down (S n) (swap l 0 n) 0 n !! n) as [x|] eqn:E; [by eexists _, _|].
  apply lookup_ge_None in E. rewrite Hd, length_swap in E. subst n. destruct l; [done|]. cbn in E. lia.
Qed.

(** The first element has the least key. *)
Lemma heap_head_min l x y : heap l -> head l = Some x -> y ∈ l -> key x <= key y.
Proof.
  intros Hh Hx Hy. apply list_elem_of_lookup in Hy as [k Hk].
  enough (H : forall k, (k < length l)%nat -> at_key l 0 <= at_key l k).
  { specialize (H k ltac:(by eapply lookup_lt_Some)). unfold at_key in H. rewrite Hk in H. destruct l; [done|]. cbn in *. by simplify_eq. }
  clear k Hk. intros k. induction (lt_wf k) as [k _ IH]. intros Hk. destruct (decide (k = 0)%nat) as [->|]; [lia|].
  pose proof (parent_child k ltac:(lia)) as Hp. pose proof (child_lt _ _ Hp).
  specialize (IH _ ltac:(done) ltac:(lia)). specialize (Hh _ _ Hp Hk). lia.
Qed.
End Heap.
