(* ===== verification/PayloadsQueue.v ===== *)
(** * The queue of unsafe payloads

    [op-node/rollup/derive/payloads_queue.go]: payloads ordered by block number
    within a memory limit; the lowest numbers are evicted first. *)

From S2P Require Import Prelude Eth Espresso Heap.

(** A payload and its size. *)
Record payloadAndSize := mkSized {
  ps_payload : ExecutionPayload;
  ps_size : Z;
}.

Definition payloadMemFixedCost : Z := 800.
Definition payloadTxMemOverhead : Z := 24.

Definition payloadMemSize (p : option ExecutionPayload) : Z :=
  match p with
  | None => payloadMemFixedCost
  | Some p => fold_left (fun out tx => out +₆₄ (u64 (blen tx) +₆₄ payloadTxMemOverhead)) (pl_Transactions p) payloadMemFixedCost
  end.

(** The order of [payloadsByNumber]. *)
Definition by_number (p : payloadAndSize) : Z := pl_BlockNumber (ps_payload p).

Record PayloadsQueue := mkQueue {
  pq : list payloadAndSize;
  currentSize : Z;
  MaxSize : Z;
  blockHashes : gset Hash;
  SizeFn : option ExecutionPayload -> Z;
}.

Definition NewPayloadsQueue (maxSize : Z) (sizeFn : option ExecutionPayload -> Z) : PayloadsQueue :=
  {| pq := []; currentSize := 0; MaxSize := maxSize; blockHashes := ∅; SizeFn := sizeFn |}.

Definition pq_Len (q : PayloadsQueue) : Z := Z.of_nat (length (pq q)).
Definition MemSize (q : PayloadsQueue) : Z := currentSize q.

Definition Peek (q : PayloadsQueue) : option ExecutionPayload := ps_payload <$> head (pq q).

Definition Pop (q : PayloadsQueue) : PayloadsQueue * option ExecutionPayload :=
  match heap_Pop by_number (pq q) with
  | None => (q, None)
  | Some (ps, rest) =>
      ({| pq := rest; currentSize := currentSize q -₆₄ ps_size ps; MaxSize := MaxSize q;
          blockHashes := blockHashes q ∖ {[ pl_BlockHash (ps_payload ps) ]}; SizeFn := SizeFn q |},
       Some (ps_payload ps))
  end.

(** [for upq.currentSize > upq.MaxSize { upq.Pop() }]; [None] when [fuel]
    iterations are not enough. *)
Fixpoint evict (fuel : nat) (q : PayloadsQueue) : option PayloadsQueue :=
  if MaxSize q <? currentSize q then
    match fuel with O => None | S fuel => evict fuel (Pop q).1 end
  else Some q.

(** [Push]; an eviction that does not end within one iteration per payload
    never ends, since then the queue is empty and still too large. *)
Definition Push (p : option ExecutionPayload) : stM PayloadsQueue unit := fun q =>
  match p with
  | None => (q, Err (Errorf "cannot add nil payload"))
  | Some p =>
      if decide (pl_BlockHash p ∈ blockHashes q) then (q, Err (Errorf "cannot add duplicate payload"))
      else
        let size := SizeFn q (Some p) in
        if MaxSize q <? size then (q, Err (Errorf "cannot add payload, larger than max queue size"))
        else
          let q := {| pq := heap_Push by_number (pq q) {| ps_payload := p; ps_size := size |};
                      currentSize := currentSize q +₆₄ size; MaxSize := MaxSize q;
                      blockHashes := blockHashes q; SizeFn := SizeFn q |} in
          match evict (length (pq q)) q with
          | None => (q, Err (GoPanic "infinite loop"))
          | Some q =>
              ({| pq := pq q; currentSize := currentSize q; MaxSize := MaxSize q;
                  blockHashes := blockHashes q ∪ {[ pl_BlockHash p ]}; SizeFn := SizeFn q |}, Ok tt)
          end
  end.

(** ** Specification *)

Definition payloads (q : PayloadsQueue) : list ExecutionPayload := map ps_payload (pq q).

Definition total_size (l : list payloadAndSize) : Z := foldr (fun p n => ps_size p + n) 0 l.

(** The queue but for its limit. *)
Record pq_ok (q : PayloadsQueue) : Prop := {
  ok_heap : heap by_number (pq q);
  ok_size : currentSize q = total_size (pq q);
  ok_sizes : Forall (fun p => 0 <= ps_size p <= MaxSize q) (pq q);
  ok_range : 0 <= currentSize q < 2 ^ 64 /\ 0 <= MaxSize q < 2 ^ 63;
  ok_nodup : NoDup (map pl_BlockHash (payloads q));
}.

Record pq_inv (q : PayloadsQueue) : Prop := {
  pi_ok : pq_ok q;
  pi_limit : currentSize q <= MaxSize q;
  pi_hashes : Forall (fun p => pl_BlockHash p ∈ blockHashes q) (payloads q);
}.

Inductive queue_op := OpPush (p : option ExecutionPayload) | OpPop.

Definition run_op (q : PayloadsQueue) (op : queue_op) : PayloadsQueue :=
  match op with OpPush p => (Push p q).1 | OpPop => (Pop q).1 end.

Lemma total_size_perm l l' : l ≡ₚ l' -> total_size l = total_size l'.
Proof. unfold total_size. induction 1; cbn [foldr]; lia. Qed.

Lemma total_size_nonneg m l : Forall (fun p => 0 <= ps_size p <= m) l -> 0 <= total_size l.
Proof. unfold total_size. induction 1; cbn [foldr]; lia. Qed.

Lemma Pop_spec q p q' : pq_ok q -> Pop q = (q', Some p) ->
  pq_ok q' /\ payloads q ≡ₚ p :: payloads q' /\ Peek q = Some p /\ MaxSize q' = MaxSize q /\ SizeFn q' = SizeFn q /\
  blockHashes q' = blockHashes q ∖ {[ pl_BlockHash p ]} /\
  (forall r, r ∈ payloads q' -> pl_BlockNumber p <= pl_BlockNumber r).
Proof.
  intros [Hh Hs Hz Hr Hn]. unfold Pop. destruct (heap_Pop by_number (pq q)) as [[ps rest]|] eqn:Ep; [|done].
  intros [= <- <-]. destruct (heap_Pop_spec _ _ _ _ Hh Ep) as (Hhd & Hp & Hh').
  assert (Hpp : payloads q ≡ₚ ps_payload ps :: map ps_payload rest) by (unfold payloads; by rewrite Hp).
  rewrite Hp in Hz. apply Forall_cons_1 in Hz as [Hz1 Hz2]. apply total_size_perm in Hp as Ht. cbn [total_size foldr] in Ht.
  fold (total_size rest) in Ht. pose proof (total_size_nonneg _ _ Hz2).
  split; [|split; [done|split; [unfold Peek; by rewrite Hhd|split; [done|split; [done|split; [done|]]]]]].
  - constructor; cbn [pq currentSize MaxSize payloads]; try done.
    + rewrite sub64_small by (unfold is_u64; lia). lia.
    + rewrite sub64_small by (unfold is_u64; lia). lia.
    + rewrite Hpp in Hn. by apply NoDup_cons in Hn as [_ Hn].
  - intros r Hr'. unfold payloads in Hr'. cbn [pq] in Hr'. apply list_elem_of_fmap in Hr' as (rs & -> & Hrs).
    apply (heap_head_min by_number (pq q)); [done|done|]. rewrite Hp. apply elem_of_cons. by right.
Qed.

Lemma Pop_nonempty q : pq_ok q -> pq q <> [] -> exists q' p, Pop q = (q', Some p).
Proof.
  intros H Hne. unfold Pop. destruct (heap_Pop_total by_number (pq q) Hne (ok_heap _ H)) as (x & l' & ->). by eexists _, _.
Qed.

(** Evicting ends, with the lowest numbers gone and not one payload more than
    needed. *)
Lemma evict_spec fuel : forall q, pq_ok q -> (length (pq q) <= fuel)%nat ->
  exists q' gone, evict fuel q = Some q' /\ pq_ok q' /\ currentSize q' <= MaxSize q' /\ MaxSize q' = MaxSize q /\
    payloads q ≡ₚ gone ++ payloads q' /\ SizeFn q' = SizeFn q /\
    (forall e r, e ∈ gone -> r ∈ payloads q' -> pl_BlockNumber e <= pl_BlockNumber r) /\
    blockHashes q' = blockHashes q ∖ list_to_set (map pl_BlockHash gone) /\
    (pq q <> [] -> pq q' <> []).
Proof.
  induction fuel as [|fuel IH]; intros q Hq Hl.
  - assert (Hnil : pq q = []) by (destruct (pq q); [done|cbn in Hl; lia]).
    cbn [evict]. rewrite (ok_size _ Hq), Hnil. cbn [total_size foldr]. pose proof (ok_range _ Hq).
    destruct (Z.ltb_spec (MaxSize q) 0); [lia|]. exists q, [].
    rewrite (ok_size _ Hq), Hnil. cbn [total_size foldr map list_to_set app]. repeat (split; [done || lia|]).
    split; [|split; [set_solver|done]]. intros e r He. by apply not_elem_of_nil in He.
  - cbn [evict]. destruct (Z.ltb_spec (MaxSize q) (currentSize q)); cycle 1.
    { exists q, []. repeat (split; [done || lia|]). split; [|split; [cbn; set_solver|done]].
      intros e r He. by apply not_elem_of_nil in He. }
    destruct (Pop_nonempty q Hq) as (q1 & p & Ep).
    { intros Hnil. rewrite (ok_size _ Hq), Hnil in *. cbn in *. pose proof (ok_range _ Hq). lia. }
    rewrite Ep. cbn [fst]. destruct (Pop_spec _ _ _ Hq Ep) as (Hq1 & Hp & _ & Hm & Hf & Hb & Hmin).
    assert (Hl1 : (length (pq q1) <= fuel)%nat).
    { apply Permutation_length in Hp. unfold payloads in Hp. cbn [length] in Hp. rewrite !length_map in Hp. lia. }
    destruct (IH q1 Hq1 Hl1) as (q' & gone & He & Hq' & Hle & Hm' & Hp' & Hf' & Hmin' & Hb' & Hne').
    exists q', (p :: gone). split; [done|]. split; [done|]. split; [done|]. split; [congruence|].
    split; [by rewrite Hp, Hp'|]. split; [congruence|]. split.
    + intros e r He' Hr. apply elem_of_cons in He' as [->|He']; [|by apply Hmin'].
      apply Hmin. rewrite Hp'. apply elem_of_app. by right.
    + split; [rewrite Hb', Hb; cbn [map list_to_set]; set_solver|]. intros _. apply Hne'. intros Hnil.
      unfold payloads in Hp. rewrite Hnil in Hp. apply Permutation_singleton_r in Hp.
      pose proof (ok_size _ Hq) as Hs. pose proof (ok_sizes _ Hq) as Hz. pose proof (ok_range _ Hq).
      destruct (pq q) as [|x [|]]; try done. apply Forall_cons_1 in Hz as [Hz _]. cbn in Hs. lia.
Qed.

(** What [Push] does on each of its branches. *)
Definition push_result (q : PayloadsQueue) (p : ExecutionPayload) (q' : PayloadsQueue) (r : res unit) : Prop :=
  match r with
  | Err _ => q' = q /\ (pl_BlockHash p ∈ blockHashes q \/ MaxSize q < SizeFn q (Some p))
  | Ok _ =>
      pl_BlockHash p ∉ blockHashes q /\ SizeFn q (Some p) <= MaxSize q /\
      exists gone, p :: payloads q ≡ₚ gone ++ payloads q' /\ payloads q' <> [] /\
        forall e x, e ∈ gone -> x ∈ payloads q' -> pl_BlockNumber e <= pl_BlockNumber x
  end.

Lemma Push_spec q p q' r : pq_inv q -> 0 <= SizeFn q (Some p) -> Push (Some p) q = (q', r) ->
  pq_inv q' /\ MaxSize q' = MaxSize q /\ SizeFn q' = SizeFn q /\ push_result q p q' r.
Proof.
  intros Hi Hsz. pose proof Hi as [[Hh Hs Hz [Hr1 Hr2] Hn] Hl Hb]. unfold Push.
  destruct (decide (pl_BlockHash p ∈ blockHashes q)) as [Hin|Hin]; [intros [= <- <-]; split; [done|]; split; [done|]; split; [done|]; by split; [|left]|].
  destruct (Z.ltb_spec (MaxSize q) (SizeFn q (Some p))); [intros [= <- <-]; split; [done|]; split; [done|]; split; [done|]; by split; [|right]|].
  set (x := {| ps_payload := p; ps_size := SizeFn q (Some p) |}).
  destruct (heap_Push_spec by_number (pq q) x Hh) as [HP HH].
  assert (Hpay : map ps_payload (heap_Push by_number (pq q) x) ≡ₚ p :: payloads q) by (by rewrite HP).
  match goal with |- context [evict _ ?q0] => set (q1 := q0) end.
  assert (Hq1 : pq_ok q1).
  { constructor; cbn [q1 pq currentSize MaxSize payloads].
    - done.
    - rewrite (total_size_perm _ _ HP). cbn [total_size foldr x ps_size]. fold (total_size (pq q)).
      rewrite add64_small by (unfold is_u64; lia). lia.
    - rewrite HP. constructor; [cbn; lia|done].
    - rewrite add64_small by (unfold is_u64; lia). lia.
    - unfold payloads. cbn [pq q1]. rewrite Hpay. cbn [map]. apply NoDup_cons. split; [|done]. intros Hp.
      apply list_elem_of_fmap in Hp as (y & Hy & Hyq). rewrite Forall_forall in Hb. apply Hin. rewrite Hy. by apply Hb. }
  destruct (evict_spec (length (pq q1)) q1 Hq1 (le_n _)) as (q2 & gone & He & Hq2 & Hle & Hm & Hp & Hf & Hmin & Hbh & Hne).
  rewrite He. intros [= <- <-]. assert (Hp2 : p :: payloads q ≡ₚ gone ++ payloads q2) by (by rewrite <- Hpay, <- Hp).
  assert (Hall : NoDup (map pl_BlockHash (gone ++ payloads q2))) by (rewrite <- Hp; apply Hq1).
  rewrite map_app in Hall. apply NoDup_app in Hall as (_ & Hdis & _).
  split; [|split; [done|split; [done|]]].
  - split; [by destruct Hq2|done|]. apply Forall_forall. intros y Hy. cbn [blockHashes]. unfold payloads in Hy. cbn [pq] in Hy.
    fold (payloads q2) in Hy. assert (Hyq : y ∈ p :: payloads q) by (rewrite Hp2; apply elem_of_app; by right).
    apply elem_of_cons in Hyq as [->|Hyq]; [set_solver|]. rewrite Hbh. cbn [q1 blockHashes].
    assert (pl_BlockHash y ∉ map pl_BlockHash gone).
    { intros Hg. apply (Hdis _ Hg). apply list_elem_of_fmap. by exists y. }
    rewrite Forall_forall in Hb. specialize (Hb y Hyq). set_solver.
  - split; [done|]. split; [done|]. exists gone. split; [done|]. split; [|done].
    unfold payloads. cbn [pq]. intros Hnil. apply map_eq_nil in Hnil. revert Hnil. apply Hne. cbn [q1 pq].
    intros Hnil. rewrite Hnil in HP. by apply Permutation_nil_cons in HP.
Qed.

Lemma Pop_inv q : pq_inv q -> pq_inv (Pop q).1 /\ MaxSize (Pop q).1 = MaxSize q /\ SizeFn (Pop q).1 = SizeFn q.
Proof.
  intros [Ho Hl Hb]. destruct (Pop q) as [q' [p|]] eqn:Ep; cycle 1.
  { unfold Pop in Ep. destruct (heap_Pop _ _) as [[]|]; by simplify_eq. }
  destruct (Pop_spec _ _ _ Ho Ep) as (Ho' & Hp & _ & Hm & Hf & Hbh & _). cbn [fst].
  split; [|done]. pose proof (ok_size _ Ho) as Hs. pose proof (ok_size _ Ho') as Hs'.
  assert (Hn : NoDup (map pl_BlockHash (p :: payloads q'))) by (rewrite <- Hp; apply Ho).
  apply NoDup_cons in Hn as [Hn _]. split; [done| |].
  - unfold Pop in Ep. destruct (heap_Pop by_number (pq q)) as [[x rest]|] eqn:Eh; [|done]. injection Ep as <- _.
    cbn [currentSize MaxSize] in *. destruct (heap_Pop_spec _ _ _ _ (ok_heap _ Ho) Eh) as (_ & HP & _).
    pose proof (ok_sizes _ Ho) as Hz. rewrite HP in Hz. apply Forall_cons_1 in Hz as [Hz _].
    rewrite sub64_small; [lia| |]; pose proof (ok_range _ Ho); [unfold is_u64; lia|].
    rewrite Hs, (total_size_perm _ _ HP). cbn [total_size foldr]. pose proof (ok_sizes _ Ho') as Hz'. cbn [pq MaxSize] in Hz'.
    apply total_size_nonneg in Hz'. unfold total_size in Hz'. lia.
  - rewrite Hbh. apply Forall_forall. intros y Hy. rewrite Forall_forall in Hb.
    assert (y ∈ payloads q) by (rewrite Hp; apply elem_of_cons; by right).
    assert (pl_BlockHash y <> pl_BlockHash p) by (intros Heq; apply Hn; rewrite <- Heq; apply list_elem_of_fmap; by exists y).
    specialize (Hb y ltac:(done)). set_solver.
Qed.

Lemma run_op_inv q op : pq_inv q -> (forall p, 0 <= SizeFn q p) ->
  pq_inv (run_op q op) /\ MaxSize (run_op q op) = MaxSize q /\ SizeFn (run_op q op) = SizeFn q.
Proof.
  intros Hi Hf. destruct op as [[p|]|]; cbn [run_op]; [|done|by apply Pop_inv].
  destruct (Push (Some p) q) as [q' r] eqn:Ep. destruct (Push_spec _ _ _ _ Hi (Hf _) Ep) as (? & ? & ? & _). done.
Qed.

Lemma run_ops_inv ops : forall q, pq_inv q -> (forall p, 0 <= SizeFn q p) ->
  pq_inv (fold_left run_op ops q) /\ MaxSize (fold_left run_op ops q) = MaxSize q.
Proof.
  induction ops as [|op ops IH]; intros q Hi Hf; [done|]. cbn [fold_left].
  destruct (run_op_inv q op Hi Hf) as (Hi' & Hm & Hs). destruct (IH (run_op q op) Hi') as [H1 H2]; [by rewrite Hs|].
  split; [done|]. by rewrite H2.
Qed.

Lemma New_inv maxSize sizeFn : 0 <= maxSize < 2 ^ 63 -> pq_inv (NewPayloadsQueue maxSize sizeFn).
Proof.
  intros Hmax. split; [|cbn; lia|constructor]. constructor.
  - intros i c _ Hc. cbn in Hc. lia.
  - done.
  - constructor.
  - cbn. lia.
  - constructor.
Qed.

(** C16. Whatever is pushed and popped, the queue stays within its memory limit
    and accounts for it exactly, holds no block twice, and its first payload
    has the lowest block number of all. *)
Theorem payloads_queue_bounded (maxSize : Z) (sizeFn : option ExecutionPayload -> Z) (ops : list queue_op)
  (Hmax : 0 <= maxSize < 2 ^ 63) (Hsize : forall p, 0 <= sizeFn p) :
  let q := fold_left run_op ops (NewPayloadsQueue maxSize sizeFn) in
  MemSize q = total_size (pq q) /\ 0 <= MemSize q <= maxSize /\ NoDup (map pl_BlockHash (payloads q)) /\
  match Peek q with
  | Some p => p ∈ payloads q /\ forall r, r ∈ payloads q -> pl_BlockNumber p <= pl_BlockNumber r
  | None => payloads q = []
  end.
Proof.
  destruct (run_ops_inv ops _ (New_inv maxSize sizeFn Hmax) Hsize) as [[Ho Hl _] Hm]. cbn [MaxSize NewPayloadsQueue] in Hm.
  intros q. fold q in Ho, Hl, Hm. split; [apply Ho|]. split; [pose proof (ok_range _ Ho); unfold MemSize; lia|].
  split; [apply Ho|]. unfold Peek. destruct (head (pq q)) as [x|] eqn:Eh; cbn [fmap option_fmap option_map].
  - split; [apply list_elem_of_fmap; exists x; split; [done|by apply head_Some_elem_of]|].
    intros r Hr. apply list_elem_of_fmap in Hr as (y & -> & Hy). by apply (heap_head_min by_number (pq q)); [apply Ho| |].
  - unfold payloads. by destruct (pq q).
Qed.

(** [Push] refuses exactly the duplicates and the oversized payloads, and
    leaves the queue as it was then; otherwise it adds the payload and evicts
    payloads of the lowest block numbers, possibly the new one itself, and
    never all of them; the eviction loop ends. *)
Lemma push_evicts_lowest (q q' : PayloadsQueue) (p : ExecutionPayload) (r : res unit)
  (Hinv : pq_inv q) (Hsize : 0 <= SizeFn q (Some p)) (Hrun : Push (Some p) q = (q', r)) :
  push_result q p q' r /\ pq_inv q'.
Proof. by destruct (Push_spec _ _ _ _ Hinv Hsize Hrun) as (? & _ & _ & ?). Qed.

(** A payload that [Push] evicts at once stays recorded as if it were queued:
    it is refused as a duplicate from then on. *)
Lemma evicted_payload_refused q p q' : Push (Some p) q = (q', Ok tt) -> p ∉ payloads q' ->
  Push (Some p) q' = (q', Err (Errorf "cannot add duplicate payload")).
Proof.
  unfold Push at 1. destruct (decide _); [done|]. destruct (_ <? _); [done|].
  destruct (evict _ _) as [q2|]; [|done]. intros [= <-] _. unfold Push. cbn [blockHashes].
  rewrite decide_True; [done|set_solver].
Qed.

(** ** Witnesses *)

Definition ex_numbered (n : Z) : ExecutionPayload :=
  {| pl_ParentHash := hash_of (n - 1); pl_FeeRecipient := zeros 20; pl_StateRoot := hash_of 1; pl_ReceiptsRoot := hash_of 1;
     pl_LogsBloom := []; pl_PrevRandao := hash_of 2; pl_BlockNumber := n; pl_GasLimit := 30000000; pl_GasUsed := 0;
     pl_Timestamp := 2 * n; pl_ExtraData := []; pl_BaseFeePerGas := 7; pl_BlockHash := hash_of n; pl_Withdrawals := None;
     pl_Transactions := [] |}.

(** Room for three payloads. *)
Definition ex_queue : PayloadsQueue :=
  fold_left run_op (map (fun n => OpPush (Some (ex_numbered n))) [7; 5; 9]) (NewPayloadsQueue 2400 payloadMemSize).

Lemma payloadMemSize_nonneg p : 0 <= payloadMemSize p.
Proof.
  destruct p as [p|]; [|done]. cbn [payloadMemSize]. assert (H : 0 <= payloadMemFixedCost) by done. revert H.
  generalize payloadMemFixedCost as acc. induction (pl_Transactions p) as [|tx txs IH]; intros acc Ha; [done|].
  cbn [fold_left]. apply IH. apply u64_range.
Qed.

Lemma payloads_queue_bounded_witness : MemSize ex_queue <= 2400 /\ Peek ex_queue = Some (ex_numbered 5).
Proof.
  destruct (payloads_queue_bounded 2400 payloadMemSize (map (fun n => OpPush (Some (ex_numbered n))) [7; 5; 9])
    ltac:(lia) payloadMemSize_nonneg) as (_ & [_ H] & _).
  split; [exact H|vm_compute; reflexivity].
Defined.

(** A fourth payload pushes out block 5; block 6 after it is evicted at once,
    and refused from then on. *)
Definition ex_queue4 : PayloadsQueue := (Push (Some (ex_numbered 8)) ex_queue).1.

Example block_6_refused :
  (Push (Some (ex_numbered 6)) ex_queue4).2 = Ok tt /\
  (Push (Some (ex_numbered 6)) (Push (Some (ex_numbered 6)) ex_queue4).1).2 = Err (Errorf "cannot add duplicate payload").
Proof. split; vm_compute; reflexivity. Qed.

Lemma push_evicts_lowest_witness :
  exists gone, ex_numbered 8 :: payloads ex_queue ≡ₚ gone ++ payloads ex_queue4 /\
    forall e x, e ∈ gone -> x ∈ payloads ex_queue4 -> pl_BlockNumber e <= pl_BlockNumber x.
Proof.
  assert (Hi : pq_inv ex_queue).
  { apply (run_ops_inv _ (NewPayloadsQueue 2400 payloadMemSize)); [apply New_inv; lia|apply payloadMemSize_nonneg]. }
  destruct (Push (Some (ex_numbered 8)) ex_queue) as [q' r] eqn:Ep.
  pose proof (push_evicts_lowest _ _ _ _ Hi (payloadMemSize_nonneg _) Ep) as [H _].
  assert (Hr : (Push (Some (ex_numbered 8)) ex_queue).2 = Ok tt) by (vm_compute; reflexivity).
  assert (Hq : ex_queue4 = q') by (unfold ex_queue4; rewrite Ep; reflexivity). rewrite Ep in Hr. cbn [snd] in Hr.
  rewrite Hr in H. destruct H as (_ & _ & gone & H1 & _ & H2). rewrite Hq. exists gone. split; [exact H1|exact H2].
Defined.
