(* ===== verification/SyncStart.v ===== *)
(** * Where to start deriving from

    [op-node/rollup/sync/start.go]: after a reset the node walks the L2 chain
    back from its unsafe head to find a head whose L1 origin is still
    plausible and a safe block that is a full sequencing window below it. *)

From S2P Require Import Prelude Eth Espresso L1Info EngineUpdate.

(** [sync.Config] *)
Record SyncConfig := mkSyncConfig {
  EngineSync : bool;
  SkipSyncStartCheck : bool;
}.

(** The L1 node of [L1Chain], as it answers during one call. *)
Record L1Chain := mkL1Chain {
  lc_L1BlockRefByNumber : Z -> res L1BlockRef;
  lc_L1BlockRefByHash : Hash -> res L1BlockRef;
}.

(** [L2Chain]: the engine, whose state is [W]. *)
Class L2Chain (W : Type) := {
  L2BlockRefByHash : Hash -> stM W L2BlockRef;
  L2BlockRefByLabel : BlockLabel -> stM W L2BlockRef;
}.

Definition ReorgFinalizedErr : go_error := Errorf "cannot reorg finalized block".
Definition WrongChainErr : go_error := Errorf "wrong chain".
Definition TooDeepReorgErr : go_error := Errorf "reorg is too deep".

Definition MaxReorgSeqWindows : Z := 5.

Record FindHeadsResult := mkHeads {
  fh_Unsafe : L2BlockRef;
  fh_Safe : L2BlockRef;
  fh_Finalized : L2BlockRef;
}.

Section Start.
Context {W : Type} `{!L2Chain W}.
Variable cfg : Config.
Variable syncCfg : SyncConfig.
Variable l1 : L1Chain.

Definition currentHeads : stM W FindHeadsResult :=
  finalized ← wrapping (Wrapf "failed to find the finalized L2 block")
    (on_err (L2BlockRefByLabel Finalized) (fun e =>
       if errors_Is e NotFound then L2BlockRefByHash (id_Hash (gen_L2 (cfg_Genesis cfg))) else throw e));
  safe ← on_err (L2BlockRefByLabel Safe) (fun e =>
    if errors_Is e NotFound then mret finalized else throw (Wrapf "failed to find the safe L2 block" e));
  unsafe ← wrapping (Wrapf "failed to find the L2 head block") (L2BlockRefByLabel Unsafe);
  mret {| fh_Unsafe := unsafe; fh_Safe := safe; fh_Finalized := finalized |}.

(** The variables of the loop of [FindL2Heads]. *)
Record walk := mkWalk {
  wk_n : L2BlockRef;
  wk_Unsafe : L2BlockRef;
  wk_highest : L2BlockRef;
  wk_l1Block : L1BlockRef;
  wk_ahead : bool;
  wk_ready : bool;
}.

(** The L1 block at the height of the origin of [n]; an error that is not
    [NotFound] ends the walk, and a block that is not found is the zero
    reference. *)
Definition fetch_l1 (n : L2BlockRef) (l1Block : L1BlockRef) (ahead : bool) : res (L1BlockRef * bool) :=
  let origin := l2_L1Origin n in
  if bool_decide (id_Hash origin = l1_ParentHash l1Block) then
    b ← map_err (Wrapf "failed to retrieve L1 block") (lc_L1BlockRefByHash l1 (id_Hash origin));
    Ok (b, false)
  else if bool_decide (l1Block = zero_L1BlockRef) || negb (bool_decide (id_Hash origin = l1_Hash l1Block)) then
    match lc_L1BlockRefByNumber l1 (id_Number origin) with
    | Ok b => Ok (b, false)
    | Err e =>
        if errors_Is e NotFound then Ok (zero_L1BlockRef, true)
        else Err (Wrapf "failed to retrieve block from L1 for comparison" e)
    end
  else Ok (l1Block, ahead).

Definition check_genesis (n : L2BlockRef) (l1Block : L1BlockRef) (ahead : bool) : res unit :=
  if l2_Number n =? id_Number (gen_L2 (cfg_Genesis cfg)) then
    if negb (bool_decide (l2_Hash n = id_Hash (gen_L2 (cfg_Genesis cfg)))) then Err (Wrapf "L2: genesis" WrongChainErr)
    else if negb ahead && negb (bool_decide (l1_Hash l1Block = id_Hash (gen_L1 (cfg_Genesis cfg)))) then
      Err (Wrapf "L1: genesis" WrongChainErr)
    else Ok tt
  else Ok tt.

(** The unsafe head, [n] if there is no usable one. *)
Definition usable_unsafe (prevUnsafe n unsafe : L2BlockRef) : res L2BlockRef :=
  if bool_decide (unsafe = zero_L2BlockRef) then
    if id_Number (l2_L1Origin n) +₆₄ (MaxReorgSeqWindows *₆₄ SeqWindowSize cfg) <? id_Number (l2_L1Origin prevUnsafe)
    then Err (Wrapf "traversed back to L2 block, but too deep compared to previous unsafe block" TooDeepReorgErr)
    else Ok n
  else Ok unsafe.

(** The unsafe head and the highest canonical block, after looking at [n]. *)
Definition discard_noncanonical (n unsafe highest : L2BlockRef) (l1Block : L1BlockRef) (ahead : bool) : L2BlockRef * L2BlockRef :=
  if ahead then (unsafe, highest)
  else if bool_decide (l1_Hash l1Block = id_Hash (l2_L1Origin n)) then
    (unsafe, if bool_decide (highest = zero_L2BlockRef) then n else highest)
  else (zero_L2BlockRef, zero_L2BlockRef).

Definition check_parent (n parent : L2BlockRef) (l1Block : L1BlockRef) : res unit :=
  if negb (bool_decide (l2_L1Origin parent = l2_L1Origin n)) then
    if negb (id_Number (l2_L1Origin parent) +₆₄ 1 =? id_Number (l2_L1Origin n)) then
      Err (Errorf "l2 parent has L1 origin that is not before")
    else if negb (l2_SequenceNumber n =? 0) then
      Err (Errorf "l2 block has parent with different L1 origin, but non-zero sequence number")
    else if bool_decide (l1_Hash l1Block = id_Hash (l2_L1Origin n)) &&
            negb (bool_decide (l1_ParentHash l1Block = id_Hash (l2_L1Origin parent))) then
      Err (Errorf "parent L2 block has unexpected origin")
    else Ok tt
  else if negb (l2_SequenceNumber parent +₆₄ 1 =? l2_SequenceNumber n) then
    Err (Errorf "sequence number inconsistency between l2 blocks")
  else Ok tt.

(** [n] is not above the previous safe head, starts an epoch, and a full
    sequencing window of canonical L1 blocks is above it. *)
Definition window_seen (n safe highest : L2BlockRef) : bool :=
  (l2_Number n <=? l2_Number safe) &&
  (id_Number (l2_L1Origin n) +₆₄ SeqWindowSize cfg <? id_Number (l2_L1Origin highest)) &&
  (l2_SequenceNumber n =? 0).

(** One turn of the loop: go on, or return. *)
Definition walk_iter (prevUnsafe safe finalized : L2BlockRef) (wk : walk) : stM W (walk + FindHeadsResult) :=
  let n := wk_n wk in
  '(l1Block, ahead) ← lift (fetch_l1 n (wk_l1Block wk) (wk_ahead wk));
  _ ← lift (check_genesis n l1Block ahead);
  if (l2_Number n =? l2_Number finalized) && negb (bool_decide (l2_Hash n = l2_Hash finalized)) then
    throw (Wrapf "finalized" ReorgFinalizedErr)
  else
  unsafe ← lift (usable_unsafe prevUnsafe n (wk_Unsafe wk));
  let '(unsafe, highest) := discard_noncanonical n unsafe (wk_highest wk) l1Block ahead in
  let ready := wk_ready wk || window_seen n safe highest in
  if l2_Number n =? l2_Number finalized then
    mret (inr {| fh_Unsafe := unsafe; fh_Safe := n; fh_Finalized := finalized |})
  else if SkipSyncStartCheck syncCfg && bool_decide (l2_Hash highest = l2_Hash n) then
    mret (inl {| wk_n := safe; wk_Unsafe := unsafe; wk_highest := highest; wk_l1Block := l1Block;
                 wk_ahead := ahead; wk_ready := ready |})
  else
  parent ← wrapping (Wrapf "failed to fetch L2 block by hash") (L2BlockRefByHash (l2_ParentHash n));
  _ ← lift (check_parent n parent l1Block);
  if ready : bool then mret (inr {| fh_Unsafe := unsafe; fh_Safe := parent; fh_Finalized := finalized |})
  else mret (inl {| wk_n := parent; wk_Unsafe := unsafe; wk_highest := highest; wk_l1Block := l1Block;
                    wk_ahead := ahead; wk_ready := ready |}).

Fixpoint walk_loop (fuel : nat) (prevUnsafe safe finalized : L2BlockRef) (wk : walk) : stM W FindHeadsResult :=
  match fuel with
  | O => throw (GoPanic "infinite loop")
  | S fuel =>
      next ← walk_iter prevUnsafe safe finalized wk;
      match next with
      | inl wk => walk_loop fuel prevUnsafe safe finalized wk
      | inr result => mret result
      end
  end.

Definition walk_start (heads : FindHeadsResult) : walk :=
  {| wk_n := fh_Unsafe heads; wk_Unsafe := fh_Unsafe heads; wk_highest := zero_L2BlockRef;
     wk_l1Block := zero_L1BlockRef; wk_ahead := false; wk_ready := false |}.

(** Turns for the walk from the unsafe head to genesis, and once more from the
    safe head. *)
Definition walk_fuel (heads : FindHeadsResult) : nat :=
  (Z.to_nat (l2_Number (fh_Unsafe heads)) + Z.to_nat (l2_Number (fh_Safe heads)) + 2)%nat.

Definition FindL2Heads : stM W FindHeadsResult :=
  heads ← wrapping (Wrapf "failed to fetch current L2 forkchoice state") currentHeads;
  walk_loop (walk_fuel heads) (fh_Unsafe heads) (fh_Safe heads) (fh_Finalized heads) (walk_start heads).

(** ** Specification *)

(** What the source relies on of the engine: the references it returns are
    blocks, a block is looked up by its hash, and a parent is one number
    below. *)
Record l2_laws (blk : L2BlockRef -> Prop) : Prop := {
  ll_label : forall l w w' b, L2BlockRefByLabel l w = (w', Ok b) -> blk b;
  ll_hash : forall h w w' b, L2BlockRefByHash h w = (w', Ok b) -> blk b /\ l2_Hash b = h;
  ll_parent : forall n w w' p, blk n -> L2BlockRefByHash (l2_ParentHash n) w = (w', Ok p) -> l2_Number p + 1 = l2_Number n;
  ll_range : forall b, blk b -> 0 <= l2_Number b /\ id_Hash (l2_L1Origin b) <> zeros 32;
}.

(** And of the L1 node: one chain of blocks linked by their hashes. *)
Record l1_laws : Prop := {
  l1l_hash : forall h b, lc_L1BlockRefByHash l1 h = Ok b -> l1_Hash b = h;
  l1l_parent : forall k b p, lc_L1BlockRefByNumber l1 k = Ok b -> lc_L1BlockRefByHash l1 (l1_ParentHash b) = Ok p ->
    exists k', lc_L1BlockRefByNumber l1 k' = Ok p;
  l1l_nonzero : forall k b, lc_L1BlockRefByNumber l1 k = Ok b -> l1_Hash b <> zeros 32;
}.

(** The L1 origin of a block is canonical, not seen yet, or not canonical. *)
Definition canonical (b : L2BlockRef) : Prop :=
  exists k l1b, lc_L1BlockRefByNumber l1 k = Ok l1b /\ l1_Hash l1b = id_Hash (l2_L1Origin b).
Definition unseen (b : L2BlockRef) : Prop :=
  exists e, lc_L1BlockRefByNumber l1 (id_Number (l2_L1Origin b)) = Err e /\ errors_Is e NotFound = true.
Definition reorged (b : L2BlockRef) : Prop :=
  exists l1b, lc_L1BlockRefByNumber l1 (id_Number (l2_L1Origin b)) = Ok l1b /\ l1_Hash l1b <> id_Hash (l2_L1Origin b).
Definition plausible (b : L2BlockRef) : Prop := canonical b \/ unseen b.

(** Each block is followed by its parent. *)
Fixpoint descending (bs : list L2BlockRef) : Prop :=
  match bs with
  | a :: (b :: _) as rest => l2_ParentHash a = l2_Hash b /\ l2_Number b + 1 = l2_Number a /\ descending rest
  | _ => True
  end.

(** The walk went down [pre ++ s]: [s] is the longest plausible end of it. *)
Record walked (top : L2BlockRef) (pre s : list L2BlockRef) : Prop := {
  wd_top : list.head (pre ++ s) = Some top;
  wd_desc : descending (pre ++ s);
  wd_plausible : Forall plausible s;
  wd_reorged : forall b, last pre = Some b -> reorged b;
}.

(** What [FindL2Heads] promises: it walked down from the head of the engine;
    the unsafe head is the highest block of the plausible end of the walk (the
    zero reference if the last block is reorged); the safe head is the
    finalized block, where the walk stops, or the parent of the block it
    reached: one that starts an epoch, is not above the old safe head, and
    has a full sequencing window of L1 blocks below a canonical origin. *)
Definition heads_found (heads res : FindHeadsResult) : Prop :=
  exists pre s n, walked (fh_Unsafe heads) pre s /\ last (pre ++ s) = Some n /\
    fh_Finalized res = fh_Finalized heads /\
    fh_Unsafe res = default zero_L2BlockRef (list.head s) /\
    ((l2_Number n = l2_Number (fh_Finalized heads) /\ l2_Hash n = l2_Hash (fh_Finalized heads) /\ fh_Safe res = n) \/
     (Forall (fun b => l2_Number b <> l2_Number (fh_Finalized heads)) (pre ++ s) /\
      l2_Hash (fh_Safe res) = l2_ParentHash n /\ l2_Number (fh_Safe res) + 1 = l2_Number n /\
      l2_Number n <= l2_Number (fh_Safe heads) /\ l2_SequenceNumber n = 0 /\
      exists c, c ∈ s /\ canonical c /\
        id_Number (l2_L1Origin n) +₆₄ SeqWindowSize cfg < id_Number (l2_L1Origin c))).

(** The loop without fuel: how a run that ends does so. *)
Inductive returns (prevUnsafe safe finalized : L2BlockRef) : walk -> W -> W * res FindHeadsResult -> Prop :=
| ReturnsHeads wk w w' r : walk_iter prevUnsafe safe finalized wk w = (w', Ok (inr r)) ->
    returns prevUnsafe safe finalized wk w (w', Ok r)
| ReturnsError wk w w' e : walk_iter prevUnsafe safe finalized wk w = (w', Err e) ->
    returns prevUnsafe safe finalized wk w (w', Err e)
| ReturnsLater wk w w1 wk1 out : walk_iter prevUnsafe safe finalized wk w = (w1, Ok (inl wk1)) ->
    returns prevUnsafe safe finalized wk1 w1 out -> returns prevUnsafe safe finalized wk w out.

(** ** The walk *)

Lemma currentHeads_ok blk (L : l2_laws blk) w w' heads : currentHeads w = (w', Ok heads) ->
  blk (fh_Unsafe heads) /\ blk (fh_Safe heads) /\ blk (fh_Finalized heads).
Proof.
  unfold currentHeads. intros H. apply stM_bind_ok in H as (w1 & fin & Hf & H).
  apply stM_bind_ok in H as (w2 & safe & Hs & H). apply stM_bind_ok in H as (w3 & unsafe & Hu & H).
  injection H as _ <-. cbn. apply wrapping_ok in Hf, Hu.
  assert (blk fin).
  { apply on_err_ok in Hf as [Hf|(? & e & _ & Hf)]; [by eapply ll_label|].
    destruct (errors_Is e NotFound); [|done]. by eapply ll_hash in Hf as [? _]. }
  split; [by eapply ll_label|]. split; [|done].
  apply on_err_ok in Hs as [Hs|(? & e & _ & Hs)]; [by eapply ll_label|].
  destruct (errors_Is e NotFound); [|done]. by injection Hs as _ <-.
Qed.

Section Walk.
Variables prevUnsafe safe finalized : L2BlockRef.
Notation iter := (walk_iter prevUnsafe safe finalized).

(** What an iteration that goes on, or returns heads, has checked. *)
Lemma walk_iter_ok wk w w' out : iter wk w = (w', Ok out) ->
  exists l1Block ahead u, fetch_l1 (wk_n wk) (wk_l1Block wk) (wk_ahead wk) = Ok (l1Block, ahead) /\
    usable_unsafe prevUnsafe (wk_n wk) (wk_Unsafe wk) = Ok u /\
    let n := wk_n wk in
    let '(unsafe, highest) := discard_noncanonical n u (wk_highest wk) l1Block ahead in
    let ready := wk_ready wk || window_seen n safe highest in
    ((l2_Number n = l2_Number finalized /\ l2_Hash n = l2_Hash finalized /\
        out = inr {| fh_Unsafe := unsafe; fh_Safe := n; fh_Finalized := finalized |}) \/
     (l2_Number n <> l2_Number finalized /\ SkipSyncStartCheck syncCfg = true /\
        out = inl {| wk_n := safe; wk_Unsafe := unsafe; wk_highest := highest; wk_l1Block := l1Block;
                     wk_ahead := ahead; wk_ready := ready |}) \/
     (l2_Number n <> l2_Number finalized /\ exists parent, L2BlockRefByHash (l2_ParentHash n) w = (w', Ok parent) /\
        out = if ready then inr {| fh_Unsafe := unsafe; fh_Safe := parent; fh_Finalized := finalized |}
              else inl {| wk_n := parent; wk_Unsafe := unsafe; wk_highest := highest; wk_l1Block := l1Block;
                          wk_ahead := ahead; wk_ready := ready |})).
Proof.
  unfold walk_iter. intros H. apply stM_bind_ok in H as (w1 & [l1Block ahead] & Hf & H).
  apply lift_ok in Hf as [-> Hf]. apply stM_bind_ok in H as (w1 & [] & Hg & H). apply lift_ok in Hg as [-> _].
  destruct (Z.eqb_spec (l2_Number (wk_n wk)) (l2_Number finalized)) as [En|Nn]; cbn [andb] in H.
  - case_bool_decide as Eh; cbn [negb] in H; [|done]. apply stM_bind_ok in H as (w1 & u & Hu & H).
    apply lift_ok in Hu as [-> Hu]. exists l1Block, ahead, u. split; [done|]. split; [done|].
    destruct (discard_noncanonical _ _ _ _ _) as [unsafe highest]. injection H as -> <-. by left.
  - apply stM_bind_ok in H as (w1 & u & Hu & H). apply lift_ok in Hu as [-> Hu].
    exists l1Block, ahead, u. split; [done|]. split; [done|].
    destruct (discard_noncanonical _ _ _ _ _) as [unsafe highest]. right.
    destruct (SkipSyncStartCheck syncCfg); cbn [andb] in H.
    + case_bool_decide; [injection H as -> <-; by left|]. right. split; [done|].
      apply stM_bind_ok in H as (w1 & parent & Hp & H). apply wrapping_ok in Hp.
      apply stM_bind_ok in H as (w2 & [] & Hc & H). apply lift_ok in Hc as [-> _].
      exists parent. destruct (wk_ready wk || _); injection H as -> <-; done.
    + right. split; [done|].
      apply stM_bind_ok in H as (w1 & parent & Hp & H). apply wrapping_ok in Hp.
      apply stM_bind_ok in H as (w2 & [] & Hc & H). apply lift_ok in Hc as [-> _].
      exists parent. destruct (wk_ready wk || _); injection H as -> <-; done.
Qed.

(** Without the skip, every turn goes one block down. *)
Lemma walk_iter_down blk (L : l2_laws blk) wk w w' wk' : SkipSyncStartCheck syncCfg = false ->
  blk (wk_n wk) -> iter wk w = (w', Ok (inl wk')) -> blk (wk_n wk') /\ l2_Number (wk_n wk') + 1 = l2_Number (wk_n wk).
Proof.
  intros Hskip Hb H. destruct (walk_iter_ok _ _ _ _ H) as (l1Block & ahead & u & _ & _ & Hout). cbv zeta in Hout.
  destruct (discard_noncanonical _ _ _ _ _) as [unsafe highest].
  destruct Hout as [(_ & _ & [=])|[(_ & Hs & _)|(_ & p & Hp & Hout)]]; [congruence|].
  destruct (wk_ready wk || _); [done|]. injection Hout as ->. cbn [wk_n].
  split; [by eapply ll_hash in Hp as [? _]|]. by eapply ll_parent.
Qed.

Lemma walk_loop_returns blk (L : l2_laws blk) fuel : forall wk w, SkipSyncStartCheck syncCfg = false ->
  blk (wk_n wk) -> l2_Number (wk_n wk) < Z.of_nat fuel ->
  returns prevUnsafe safe finalized wk w (walk_loop fuel prevUnsafe safe finalized wk w).
Proof.
  induction fuel as [|fuel IH]; intros wk w Hskip Hb Hn.
  { destruct (ll_range _ L _ Hb). lia. }
  cbn [walk_loop]. unfold mbind, stM_bind. destruct (iter wk w) as [w1 [[wk1|r]|e]] eqn:Ei.
  - destruct (walk_iter_down _ L _ _ _ _ Hskip Hb Ei) as [Hb1 Hn1].
    eapply ReturnsLater; [done|]. apply IH; [done|done|lia].
  - by apply ReturnsHeads.
  - by apply ReturnsError.
Qed.

(** *** What the walk has seen *)

(** The L1 block of the loop: none, or a canonical one. *)
Definition l1_seen (l1Block : L1BlockRef) (ahead : bool) : Prop :=
  l1Block = zero_L1BlockRef \/ (ahead = false /\ exists k, lc_L1BlockRefByNumber l1 k = Ok l1Block).

Lemma fetch_l1_spec (LL : l1_laws) n l1Block ahead b a : id_Hash (l2_L1Origin n) <> zeros 32 ->
  l1_seen l1Block ahead -> fetch_l1 n l1Block ahead = Ok (b, a) ->
  l1_seen b a /\ ((a = true /\ unseen n) \/ (a = false /\ l1_Hash b = id_Hash (l2_L1Origin n) /\ canonical n) \/
    (a = false /\ l1_Hash b <> id_Hash (l2_L1Origin n) /\ reorged n)).
Proof.
  intros Hz Hseen. unfold fetch_l1. case_bool_decide as Hp.
  - destruct Hseen as [->|[_ [k Hk]]]; [by rewrite Hp in Hz|].
    intros H. apply res_bind_ok in H as (p & H & [= <- <-]). apply map_err_ok in H.
    pose proof (l1l_hash LL _ _ H) as Hh. rewrite Hp in H. destruct (l1l_parent LL _ _ _ Hk H) as [k' Hk'].
    split; [right; eauto|]. right; left. split; [done|]. split; [done|]. by exists k', p.
  - case_bool_decide as E0; cbn [orb]; [|case_bool_decide as Hh; cbn [negb]].
    2: { intros [= <- <-]. destruct Hseen as [?|[-> [k Hk]]]; [done|].
         split; [right; eauto|]. right; left. split; [done|]. split; [done|]. by exists k, l1Block. }
    all: destruct (lc_L1BlockRefByNumber l1 (id_Number (l2_L1Origin n))) as [b1|e] eqn:En.
    1,3: intros [= <- <-]; split; [right; eauto|]; right;
         destruct (decide (l1_Hash b1 = id_Hash (l2_L1Origin n))); [left|right]; (split; [done|]; split; [done|]);
         [by eexists _, b1|by exists b1].
    all: destruct (errors_Is e NotFound) eqn:Ee; [|done]; intros [= <- <-]; (split; [by left|]); left; split; [done|]; by exists e.
Qed.

Lemma descending_snoc bs a b : descending (bs ++ [a]) -> l2_ParentHash a = l2_Hash b -> l2_Number b + 1 = l2_Number a ->
  descending ((bs ++ [a]) ++ [b]).
Proof.
  intros H Hh Hn. induction bs as [|x bs IH]; cbn; [done|]. destruct bs as [|y bs]; cbn in *; naive_solver.
Qed.

Lemma descending_numbers bs a n : descending bs -> list.head bs = Some a -> last bs = Some n ->
  l2_Number n + Z.of_nat (length bs) = l2_Number a + 1.
Proof.
  revert a. induction bs as [|x bs IH]; intros a Hd Ha Hn; [done|]. injection Ha as ->.
  destruct bs as [|y bs]; [injection Hn as ->; cbn; lia|]. destruct Hd as (_ & Hy & Hd).
  specialize (IH y Hd eq_refl Hn). cbn [length] in *. lia.
Qed.

Lemma descending_above bs n b : descending bs -> last bs = Some n -> b ∈ bs -> l2_Number n <= l2_Number b.
Proof.
  induction bs as [|x bs IH]; intros Hd Hn Hb; [done|].
  pose proof (descending_numbers (x :: bs) x n Hd eq_refl Hn) as Hx. cbn [length] in Hx.
  apply elem_of_cons in Hb as [->|Hb]; [lia|]. destruct bs as [|y bs]; [by apply not_elem_of_nil in Hb|].
  apply IH; [apply Hd|done|done].
Qed.

(** The highest canonical block seen, if any. *)
Definition highest_of (s : list L2BlockRef) (highest : L2BlockRef) : Prop :=
  highest = zero_L2BlockRef \/ (highest ∈ s /\ canonical highest).

Record loop_inv (blk : L2BlockRef -> Prop) (wk : walk) (pre s : list L2BlockRef) : Prop := {
  li_top : list.head ((pre ++ s) ++ [wk_n wk]) = Some prevUnsafe;
  li_desc : descending ((pre ++ s) ++ [wk_n wk]);
  li_plausible : Forall plausible s;
  li_reorged : forall b, last pre = Some b -> reorged b;
  li_above : Forall (fun b => l2_Number b <> l2_Number finalized) (pre ++ s);
  li_unsafe : wk_Unsafe wk = match s with b :: _ => b | [] => if decide (pre = []) then wk_n wk else zero_L2BlockRef end;
  li_highest : highest_of s (wk_highest wk);
  li_ready : wk_ready wk = false;
  li_l1 : l1_seen (wk_l1Block wk) (wk_ahead wk);
  li_blk : Forall blk (pre ++ s ++ [wk_n wk]);
}.

Lemma blk_nonzero blk (L : l2_laws blk) b : blk b -> b <> zero_L2BlockRef.
Proof. intros Hb ->. by destruct (ll_range _ L _ Hb) as [_ []]. Qed.

(** The lists after looking at the block of the loop. *)
Lemma looked_at blk (L : l2_laws blk) (LL : l1_laws) wk pre s l1Block ahead u :
  loop_inv blk wk pre s -> fetch_l1 (wk_n wk) (wk_l1Block wk) (wk_ahead wk) = Ok (l1Block, ahead) ->
  usable_unsafe prevUnsafe (wk_n wk) (wk_Unsafe wk) = Ok u ->
  exists pre' s', pre' ++ s' = (pre ++ s) ++ [wk_n wk] /\ Forall plausible s' /\
    (forall b, last pre' = Some b -> reorged b) /\ l1_seen l1Block ahead /\
    let '(unsafe, highest) := discard_noncanonical (wk_n wk) u (wk_highest wk) l1Block ahead in
    unsafe = default zero_L2BlockRef (list.head s') /\ highest_of s' highest.
Proof.
  intros [Ht Hd Hp Hr Ha Hu Hh _ Hl Hb] Hf Hus. rewrite !Forall_app, Forall_singleton in Hb. destruct Hb as (Hb1 & Hb2 & Hb3).
  assert (Hu' : u = default zero_L2BlockRef (list.head (s ++ [wk_n wk]))).
  { unfold usable_unsafe in Hus. rewrite Hu in Hus. destruct s as [|b s]; cbn [app list.head default].
    - destruct (decide (pre = [])).
      + rewrite bool_decide_eq_false_2 in Hus by (by eapply blk_nonzero). by apply Ok_inj in Hus.
      + rewrite bool_decide_eq_true_2 in Hus by done. destruct (_ <? _); [done|]. by apply Ok_inj in Hus.
    - apply Forall_cons_1 in Hb2 as [Hb2 _]. rewrite bool_decide_eq_false_2 in Hus by (by eapply blk_nonzero).
      by apply Ok_inj in Hus. }
  destruct (fetch_l1_spec LL _ _ _ _ _ (proj2 (ll_range _ L _ Hb3)) Hl Hf) as [Hl' Hc].
  unfold discard_noncanonical. destruct Hc as [[-> Hc]|[(-> & Hh' & Hc)|(-> & Hh' & Hc)]].
  - exists pre, (s ++ [wk_n wk]). split; [by rewrite app_assoc|].
    split; [apply Forall_app; split; [done|]; constructor; [by right|done]|]. split; [done|]. split; [done|].
    split; [done|]. destruct Hh as [->|[Hh1 Hh2]]; [by left|right; split; [|done]]. apply elem_of_app. by left.
  - rewrite bool_decide_eq_true_2 by done. exists pre, (s ++ [wk_n wk]). split; [by rewrite app_assoc|].
    split; [apply Forall_app; split; [done|]; constructor; [by left|done]|]. split; [done|]. split; [done|].
    split; [done|]. right. case_bool_decide as Hz.
    + split; [|done]. apply elem_of_app. right. apply list_elem_of_singleton. done.
    + destruct Hh as [Hh|[Hh1 Hh2]]; [done|]. split; [|done]. apply elem_of_app. by left.
  - rewrite bool_decide_eq_false_2 by done. exists ((pre ++ s) ++ [wk_n wk]), []. rewrite app_nil_r.
    split; [done|]. split; [done|]. split; [|split; [done|split; [done|by left]]].
    intros b. rewrite last_snoc. by intros [= <-].
Qed.

Notation heads := (mkHeads prevUnsafe safe finalized).

Lemma window_seen_spec n highest s : highest_of s highest -> window_seen n safe highest = true ->
  l2_Number n <= l2_Number safe /\ l2_SequenceNumber n = 0 /\
  exists c, c ∈ s /\ canonical c /\ id_Number (l2_L1Origin n) +₆₄ SeqWindowSize cfg < id_Number (l2_L1Origin c).
Proof.
  unfold window_seen. intros Hh H. apply andb_true_iff in H as [H Hq]. apply andb_true_iff in H as [Hn Hw].
  apply Z.leb_le in Hn. apply Z.ltb_lt in Hw. apply Z.eqb_eq in Hq. split; [done|]. split; [done|].
  destruct Hh as [->|[? ?]]; [|by exists highest]. cbn [zero_L2BlockRef l2_L1Origin id_Number] in Hw. ulia.
Qed.

Lemma walk_iter_inv blk (L : l2_laws blk) (LL : l1_laws) wk pre s w w' out : SkipSyncStartCheck syncCfg = false ->
  loop_inv blk wk pre s -> iter wk w = (w', Ok out) ->
  match out with
  | inl wk' => exists pre' s', loop_inv blk wk' pre' s'
  | inr res => heads_found heads res
  end.
Proof.
  intros Hskip I H. destruct (walk_iter_ok _ _ _ _ H) as (l1Block & ahead & u & Hf & Hu & Hout). cbv zeta in Hout.
  destruct (looked_at _ L LL _ _ _ _ _ _ I Hf Hu) as (pre' & s' & Hps & Hpl & Hre & Hl1 & Hd).
  destruct (discard_noncanonical _ _ _ _ _) as [unsafe highest]. destruct Hd as [Hun Hhi].
  assert (Hw : walked prevUnsafe pre' s') by (split; rewrite ?Hps; try done; apply I).
  assert (Hlast : last (pre' ++ s') = Some (wk_n wk)) by (by rewrite Hps, last_snoc).
  destruct Hout as [(Hn & Hh & ->)|[(_ & Hs & _)|(Hn & p & Hp & Hout)]]; [|congruence|].
  { exists pre', s', (wk_n wk). do 4 (split; [done|]). left. done. }
  assert (Hb : blk (wk_n wk)) by (pose proof (li_blk _ _ _ _ I) as Hb; rewrite !Forall_app, Forall_singleton in Hb; apply Hb).
  destruct (ll_hash _ L _ _ _ _ Hp) as [Hbp Hhp]. pose proof (ll_parent _ L _ _ _ _ Hb Hp) as Hnp.
  assert (Habove : Forall (fun b => l2_Number b <> l2_Number finalized) (pre' ++ s')).
  { rewrite Hps. apply Forall_app; split; [apply I|]. by constructor. }
  rewrite (li_ready _ _ _ _ I) in Hout. cbn [orb] in Hout.
  destruct (window_seen (wk_n wk) safe highest) eqn:Ew; subst out.
  - destruct (window_seen_spec _ _ _ Hhi Ew) as (Hns & Hq & Hc).
    exists pre', s', (wk_n wk). do 4 (split; [done|]). right. cbn [fh_Safe fh_Finalized].
    do 5 (split; [done|]). done.
  - exists pre', s'. split; cbn [wk_n wk_Unsafe wk_highest wk_ready wk_l1Block wk_ahead]; try done.
    + rewrite Hps. pose proof (li_top _ _ _ _ I) as Ht. destruct (pre ++ s); cbn in *; done.
    + rewrite Hps. apply descending_snoc; [apply I|done|lia].
    + rewrite Hun. destruct s' as [|b s']; [|done]. cbn [list.head default]. rewrite decide_False; [done|].
      intros ->. rewrite app_nil_l in Hps. by destruct (pre ++ s).
    + assert (Hall : pre' ++ s' ++ [p] = (pre ++ s) ++ [wk_n wk] ++ [p]) by (rewrite app_assoc, Hps, <- !app_assoc; done).
      rewrite Hall. pose proof (li_blk _ _ _ _ I) as Hbs. rewrite app_assoc in Hbs. apply Forall_app in Hbs as [Hb1 Hb2].
      apply Forall_app; split; [done|]. apply Forall_app; split; [done|]. by constructor.
Qed.

Lemma walk_loop_found blk (L : l2_laws blk) (LL : l1_laws) fuel : forall wk pre s w w' res,
  SkipSyncStartCheck syncCfg = false -> loop_inv blk wk pre s ->
  walk_loop fuel prevUnsafe safe finalized wk w = (w', Ok res) -> heads_found heads res.
Proof.
  induction fuel as [|fuel IH]; intros wk pre s w w' res Hskip I H; [done|]. cbn [walk_loop] in H.
  apply stM_bind_ok in H as (w1 & [wk1|r] & Hi & H); pose proof (walk_iter_inv _ L LL _ _ _ _ _ _ Hskip I Hi) as HI; cbn in HI.
  - destruct HI as (pre' & s' & HI). by eapply IH.
  - injection H as _ <-. done.
Qed.

Lemma start_inv blk : blk prevUnsafe -> loop_inv blk (walk_start heads) [] [].
Proof.
  intros Hb. split; cbn; try done; [by left|by left|]. by constructor.
Qed.
End Walk.

(** Every reference it returns is a block, but for a missing unsafe head. *)
Definition heads_are (blk : L2BlockRef -> Prop) (res : FindHeadsResult) : Prop :=
  blk (fh_Finalized res) /\ blk (fh_Safe res) /\ (fh_Unsafe res = zero_L2BlockRef \/ blk (fh_Unsafe res)).

Lemma walk_loop_blk blk (L : l2_laws blk) prevUnsafe safe finalized fuel : blk safe -> blk finalized -> forall wk w w' res,
  blk (wk_n wk) -> (wk_Unsafe wk = zero_L2BlockRef \/ blk (wk_Unsafe wk)) ->
  walk_loop fuel prevUnsafe safe finalized wk w = (w', Ok res) -> heads_are blk res.
Proof.
  intros Hs Hf. induction fuel as [|fuel IH]; intros wk w w' res Hn Hu H; [done|]. cbn [walk_loop] in H.
  apply stM_bind_ok in H as (w1 & out & Hi & H).
  destruct (walk_iter_ok _ _ _ _ _ _ _ Hi) as (l1Block & ahead & u & _ & Hus & Hout). cbv zeta in Hout.
  assert (Hd : (discard_noncanonical (wk_n wk) u (wk_highest wk) l1Block ahead).1 = zero_L2BlockRef \/
    blk (discard_noncanonical (wk_n wk) u (wk_highest wk) l1Block ahead).1).
  { assert (Hu' : u = zero_L2BlockRef \/ blk u).
    { unfold usable_unsafe in Hus. repeat (case_match; try done); apply Ok_inj in Hus; subst u; auto. }
    unfold discard_noncanonical. repeat case_match; cbn [fst]; auto. }
  destruct (discard_noncanonical _ _ _ _ _) as [unsafe highest]. cbn [fst] in Hd.
  destruct Hout as [(Hnum & Hh & ->)|[(_ & _ & ->)|(_ & p & Hp & ->)]].
  - injection H as _ <-. done.
  - by eapply IH in H.
  - apply (ll_hash _ L) in Hp as [Hp _]. destruct (_ || _); [injection H as _ <-; done|by eapply IH in H].
Qed.

Lemma FindL2Heads_blk blk (L : l2_laws blk) w w' res : FindL2Heads w = (w', Ok res) -> heads_are blk res.
Proof.
  intros H. unfold FindL2Heads in H. apply stM_bind_ok in H as (w1 & heads & Hh & H). apply wrapping_ok in Hh.
  destruct (currentHeads_ok _ L _ _ _ Hh) as (Hu & Hs & Hf). eapply walk_loop_blk in H; eauto.
Qed.

(** The heads are in order when the engine's are. *)
Lemma heads_found_order heads res : heads_found heads res ->
  l2_Number (fh_Finalized heads) <= l2_Number (fh_Unsafe heads) ->
  l2_Number (fh_Finalized res) <= l2_Number (fh_Safe res) /\
  (fh_Unsafe res <> zero_L2BlockRef -> l2_Number (fh_Safe res) <= l2_Number (fh_Unsafe res) <= l2_Number (fh_Unsafe heads)).
Proof.
  intros (pre & s & n & [Ht Hd _ _] & Hn & -> & -> & Hs) Hle.
  assert (Hu : default zero_L2BlockRef (list.head s) <> zero_L2BlockRef ->
    l2_Number n <= l2_Number (default zero_L2BlockRef (list.head s)) <= l2_Number (fh_Unsafe heads)).
  { destruct s as [|b s]; cbn [list.head default]; [done|]. intros _. split.
    - apply (descending_above (pre ++ b :: s)); [done|done|]. apply elem_of_app. right. by left.
    - assert (Hlen : last (pre ++ [b]) = Some b) by apply last_snoc.
      assert (Hd' : descending (pre ++ [b])).
      { clear -Hd. induction pre as [|x pre IH]; [done|]. destruct pre as [|y pre]; cbn in *; naive_solver. }
      assert (Ht' : list.head (pre ++ [b]) = Some (fh_Unsafe heads)) by (destruct pre; cbn in *; done).
      pose proof (descending_numbers _ _ _ Hd' Ht' Hlen). rewrite length_app in *. cbn [length] in *. unfold id. lia. }
  destruct Hs as [(Hnum & _ & ->)|(Hne & _ & Hp & _)].
  - split; [lia|]. done.
  - split; [|intros Hz; specialize (Hu Hz); lia].
    (* the walk never met the finalized number, so it is still above it *)
    destruct (decide (l2_Number (fh_Finalized heads) < l2_Number n)) as [|Hle']; [lia|]. exfalso.
    assert (Hex : forall bs a, descending bs -> list.head bs = Some a -> last bs = Some n ->
      forall k, l2_Number n <= k <= l2_Number a -> exists b, b ∈ bs /\ l2_Number b = k).
    { clear. intros bs. induction bs as [|x bs IH]; intros a Hd Ha Hn k Hk; [done|]. injection Ha as ->.
      destruct (decide (k = l2_Number a)) as [->|]; [exists a; split; [by left|done]|].
      destruct bs as [|y bs]; [injection Hn as ->; lia|]. destruct Hd as (_ & Hy & Hd).
      destruct (IH y Hd eq_refl Hn k ltac:(lia)) as (b & Hb & ?). exists b. split; [by right|done]. }
    destruct (Hex _ _ Hd Ht Hn (l2_Number (fh_Finalized heads))) as (b & Hb & Hbn); [lia|].
    rewrite Forall_forall in Hne. by apply (Hne b Hb).
Qed.

Lemma FindL2Heads_found blk (L : l2_laws blk) (LL : l1_laws) w w' res : SkipSyncStartCheck syncCfg = false ->
  FindL2Heads w = (w', Ok res) -> exists w1 heads, currentHeads w = (w1, Ok heads) /\ heads_found heads res.
Proof.
  intros Hskip H. unfold FindL2Heads in H. apply stM_bind_ok in H as (w1 & heads & Hh & H). apply wrapping_ok in Hh.
  exists w1, heads. split; [done|]. destruct (currentHeads_ok _ L _ _ _ Hh) as (Hu & _).
  destruct heads as [u s f]. eapply (walk_loop_found u s f blk L LL); [done| |done]. by apply start_inv.
Qed.

(** Without the skip, finding the heads ends, whatever the L1 node answers:
    a turn per block from the unsafe head down is enough, so the fuel of the
    model is never the reason why it stops. *)
Lemma find_heads_terminates (blk : L2BlockRef -> Prop) (L : l2_laws blk) (Hskip : SkipSyncStartCheck syncCfg = false)
  (w w1 : W) (heads : FindHeadsResult) (Hheads : currentHeads w = (w1, Ok heads)) :
  returns (fh_Unsafe heads) (fh_Safe heads) (fh_Finalized heads) (walk_start heads) w1 (FindL2Heads w).
Proof.
  unfold FindL2Heads, mbind, stM_bind, wrapping. rewrite Hheads. cbn [map_err].
  destruct (currentHeads_ok _ L _ _ _ Hheads) as (Hu & Hs & _).
  apply (walk_loop_returns _ _ _ blk L); [done|done|].
  destruct (ll_range _ L _ Hu), (ll_range _ L _ Hs). unfold walk_fuel. cbn [walk_start wk_n]. lia.
Qed.

(** C17. Without the skip, the heads it finds are what it promises; they are in
    order if the engine's finalized block is not above its head: finalized,
    then safe, then unsafe, unless the finalized block itself is reorged, when
    the unsafe head is the zero reference. *)
Theorem find_heads_correct (blk : L2BlockRef -> Prop) (L : l2_laws blk) (LL : l1_laws)
  (Hskip : SkipSyncStartCheck syncCfg = false) (w w1 w' : W) (heads res : FindHeadsResult)
  (Hheads : currentHeads w = (w1, Ok heads)) (Hfind : FindL2Heads w = (w', Ok res)) :
  heads_found heads res /\
  (l2_Number (fh_Finalized heads) <= l2_Number (fh_Unsafe heads) ->
    l2_Number (fh_Finalized res) <= l2_Number (fh_Safe res) /\
    (fh_Unsafe res <> zero_L2BlockRef -> l2_Number (fh_Safe res) <= l2_Number (fh_Unsafe res))).
Proof.
  destruct (FindL2Heads_found blk L LL w w' res Hskip Hfind) as (w2 & heads' & Hh & Hf).
  rewrite Hheads in Hh. injection Hh as <- <-.
  split; [done|]. intros Hle. destruct (heads_found_order _ _ Hf Hle) as [H1 H2]. split; [done|]. intros Hz. by apply H2.
Qed.

(** With the skip, a node whose unsafe head is its safe head, not yet
    finalized, on a canonical L1 origin, never starts: the loop jumps from the
    head to itself for ever. *)
Lemma skip_check_loops (heads : FindHeadsResult) (b : L1BlockRef) (Hskip : SkipSyncStartCheck syncCfg = true)
  (Hsafe : fh_Safe heads = fh_Unsafe heads) (Hfin : l2_Number (fh_Unsafe heads) <> l2_Number (fh_Finalized heads))
  (Hgen : l2_Number (fh_Unsafe heads) <> id_Number (gen_L2 (cfg_Genesis cfg)))
  (Hblk : fh_Unsafe heads <> zero_L2BlockRef)
  (Hcanon : lc_L1BlockRefByNumber l1 (id_Number (l2_L1Origin (fh_Unsafe heads))) = Ok b)
  (Hhash : l1_Hash b = id_Hash (l2_L1Origin (fh_Unsafe heads))) (Hz : l1_Hash b <> zeros 32)
  (Hparent : l1_ParentHash b <> l1_Hash b) (w : W) (out : W * res FindHeadsResult) :
  ~ returns (fh_Unsafe heads) (fh_Safe heads) (fh_Finalized heads) (walk_start heads) w out.
Proof.
  rewrite Hsafe. set (u := fh_Unsafe heads) in *. set (f := fh_Finalized heads) in *.
  (* the states of the loop: the head again, with or without the L1 block *)
  assert (Hiter : forall wk w, wk_n wk = u -> wk_Unsafe wk = u ->
    (wk_highest wk = zero_L2BlockRef \/ wk_highest wk = u) -> (wk_l1Block wk = zero_L1BlockRef \/ wk_l1Block wk = b) ->
    wk_ahead wk = false -> exists r, walk_iter u u f wk w = (w, Ok (inl (mkWalk u u u b false r)))).
  { intros wk w0 Hn Hu Hh Hb Ha. unfold walk_iter. rewrite Hn, Hu, Ha.
    assert (Hf : fetch_l1 u (wk_l1Block wk) false = Ok (b, false)).
    { unfold fetch_l1. destruct Hb as [-> | ->].
      - rewrite bool_decide_eq_false_2 by (cbn [zero_L1BlockRef l1_ParentHash]; congruence).
        rewrite bool_decide_eq_true_2 by done. cbn [orb]. by rewrite Hcanon.
      - rewrite bool_decide_eq_false_2 by congruence. rewrite (bool_decide_eq_true_2 (id_Hash _ = _)) by done.
        cbn [negb]. rewrite orb_false_r. case_bool_decide as Hbz; [|done]. by rewrite Hbz in Hz. }
    unfold lift, mbind, stM_bind. rewrite Hf. unfold check_genesis.
    destruct (Z.eqb_spec (l2_Number u) (id_Number (gen_L2 (cfg_Genesis cfg)))); [done|].
    destruct (Z.eqb_spec (l2_Number u) (l2_Number f)); [done|]. cbn [andb].
    unfold usable_unsafe. rewrite bool_decide_eq_false_2 by done. unfold discard_noncanonical.
    rewrite (bool_decide_eq_true_2 (l1_Hash b = _)) by done.
    assert (Hhigh : (if bool_decide (wk_highest wk = zero_L2BlockRef) then u else wk_highest wk) = u)
      by (destruct Hh as [->| ->]; case_bool_decide; congruence).
    rewrite Hhigh, Hskip. rewrite bool_decide_eq_true_2 by done. cbn [andb]. by eexists. }
  intros Hr. remember (walk_start heads) as wk eqn:Ewk.
  assert (Hwk : wk_n wk = u /\ wk_Unsafe wk = u /\ (wk_highest wk = zero_L2BlockRef \/ wk_highest wk = u) /\
    (wk_l1Block wk = zero_L1BlockRef \/ wk_l1Block wk = b) /\ wk_ahead wk = false) by (subst wk; cbn; auto 10).
  clear Ewk. induction Hr as [wk w w' r Hi|wk w w' e Hi|wk w w1 wk1 out Hi Hr IH];
    destruct Hwk as (H1 & H2 & H3 & H4 & H5); destruct (Hiter wk w H1 H2 H3 H4 H5) as [r' Hi']; rewrite Hi' in Hi; [done..|].
  injection Hi as <- <-. apply IH. cbn. auto 10.
Qed.
End Start.

(** ** Witnesses

    An L2 chain of two blocks per L1 block, whose last L1 blocks, from 14 on,
    have been replaced. *)

Definition ex_l1_byte (k : Z) : Z := if k <? 14 then k + 1 else k + 60.

Definition ex_canon (k : Z) : L1BlockRef :=
  {| l1_Hash := hash_of (ex_l1_byte k); l1_Number := k; l1_ParentHash := hash_of (ex_l1_byte (k - 1)); l1_Time := 12 * k |}.

Definition ex_l1_node : L1Chain :=
  {| lc_L1BlockRefByNumber := fun k => if decide (0 <= k <= 15) then Ok (ex_canon k) else Err (Wrapf "failed to fetch header" NotFound);
     lc_L1BlockRefByHash := fun h =>
       let x := default 0 (list.head h) in
       let k := if x <? 15 then x - 1 else x - 60 in
       if decide (0 <= k <= 15 /\ h = l1_Hash (ex_canon k)) then Ok (ex_canon k) else Err NotFound |}.

Definition ex_l2 (n : Z) : L2BlockRef :=
  {| l2_Hash := hash_of (n + 100); l2_Number := n; l2_ParentHash := hash_of (n + 99); l2_Time := 6 * n;
     l2_L1Origin := mkBlockID (hash_of (n / 2 + 1)) (n / 2); l2_SequenceNumber := n mod 2 |}.

(** An engine at given heads. *)
Definition ex_engine (unsafe safe finalized : Z) : L2Chain unit :=
  {| L2BlockRefByHash := fun h w =>
       let n := default 0 (list.head h) - 100 in
       (w, if decide (0 <= n <= 30 /\ h = hash_of (n + 100)) then Ok (ex_l2 n) else Err NotFound);
     L2BlockRefByLabel := fun l w =>
       (w, Ok (ex_l2 (match l with Unsafe => unsafe | Safe => safe | Finalized => finalized end))) |}.

Definition ex_blk (b : L2BlockRef) : Prop := exists n, 0 <= n <= 30 /\ b = ex_l2 n.

Lemma ex_l2_laws unsafe safe finalized : 0 <= unsafe <= 30 -> 0 <= safe <= 30 -> 0 <= finalized <= 30 ->
  l2_laws (L2Chain0 := ex_engine unsafe safe finalized) ex_blk.
Proof.
  intros Hu Hs Hf. split.
  - intros l w w' b [= _ <-]. destruct l; (eexists; split; [|reflexivity]; lia).
  - intros h w w' b [= _ H]. case_decide as Hd; [|done]. apply Ok_inj in H. subst b. destruct Hd as [Hn Hh].
    split; [by eexists|]. symmetry. exact Hh.
  - intros n w w' p (m & Hm & ->) [= _ H]. case_decide as Hd; [|done]. apply Ok_inj in H. subst p.
    cbn. lia.
  - intros b (n & Hn & ->). cbn [ex_l2 l2_Number l2_L1Origin id_Hash]. split; [lia|]. intros [= Hz].
    pose proof (Z.div_pos n 2). lia.
Qed.

Lemma ex_l1_laws : l1_laws ex_l1_node.
Proof.
  split.
  - intros h b. cbn [ex_l1_node lc_L1BlockRefByHash]. case_decide as Hd; [|done].
    intros H. apply Ok_inj in H. subst b. symmetry. apply Hd.
  - intros k b p _ Hp. cbn [ex_l1_node lc_L1BlockRefByHash lc_L1BlockRefByNumber] in *.
    case_decide as Hd; [|done]. destruct Hd as [Hr _]. apply Ok_inj in Hp. subst p.
    match type of Hr with 0 <= ?k' <= 15 => exists k' end. by rewrite decide_True.
  - intros k b. cbn [ex_l1_node lc_L1BlockRefByNumber]. case_decide; [|done]. intros Hb.
    apply Ok_inj in Hb. subst b.
    cbn [ex_canon l1_Hash]. unfold ex_l1_byte. destruct (Z.ltb_spec k 14); intros [= Hz]; lia.
Qed.

Definition ex_sync (skip : bool) : SyncConfig := {| EngineSync := false; SkipSyncStartCheck := skip |}.

Definition ex_heads : FindHeadsResult := {| fh_Unsafe := ex_l2 30; fh_Safe := ex_l2 28; fh_Finalized := ex_l2 2 |}.

(** Blocks 28 to 30 are given up, and the safe head goes back to block 3. *)
Definition ex_found : FindHeadsResult := {| fh_Unsafe := ex_l2 27; fh_Safe := ex_l2 3; fh_Finalized := ex_l2 2 |}.

Definition ex_find (skip : bool) : unit * res FindHeadsResult :=
  FindL2Heads (L2Chain0 := ex_engine 30 28 2) ex_cfg (ex_sync skip) ex_l1_node tt.

Example ex_find_ok : ex_find false = (tt, Ok ex_found).
Proof. vm_compute. reflexivity. Qed.

Lemma find_heads_terminates_witness :
  returns (L2Chain0 := ex_engine 30 28 2) ex_cfg (ex_sync false) ex_l1_node (ex_l2 30) (ex_l2 28) (ex_l2 2)
    (walk_start ex_heads) tt (ex_find false).
Proof.
  apply (find_heads_terminates (L2Chain0 := ex_engine 30 28 2) ex_cfg (ex_sync false) ex_l1_node ex_blk
    (ex_l2_laws 30 28 2 ltac:(lia) ltac:(lia) ltac:(lia)) eq_refl tt tt ex_heads).
  reflexivity.
Defined.

Lemma find_heads_correct_witness : heads_found ex_cfg ex_l1_node ex_heads ex_found.
Proof.
  apply (find_heads_correct (L2Chain0 := ex_engine 30 28 2) ex_cfg (ex_sync false) ex_l1_node ex_blk
    (ex_l2_laws 30 28 2 ltac:(lia) ltac:(lia) ltac:(lia)) ex_l1_laws eq_refl tt tt tt ex_heads ex_found).
  - reflexivity.
  - vm_compute. reflexivity.
Defined.

(** A node synced from L1 only: its safe head, block 20, is its unsafe head. *)
Definition ex_same_heads : FindHeadsResult := {| fh_Unsafe := ex_l2 20; fh_Safe := ex_l2 20; fh_Finalized := ex_l2 2 |}.

Lemma skip_check_loops_witness :
  fh_Unsafe ex_same_heads = ex_l2 20 /\
  ~ exists out, returns (L2Chain0 := ex_engine 20 20 2) ex_cfg (ex_sync true) ex_l1_node (ex_l2 20) (ex_l2 20) (ex_l2 2)
      (walk_start ex_same_heads) tt out.
Proof.
  split; [reflexivity|]. intros [out H]. revert H.
  apply (skip_check_loops (L2Chain0 := ex_engine 20 20 2) ex_cfg (ex_sync true) ex_l1_node ex_same_heads (ex_canon 10));
    first [reflexivity|vm_decide|discriminate].
Defined.
