(* ===== verification/EngineQueue.v ===== *)
(** * The engine queue

    [op-node/rollup/derive/engine_queue.go]: the stage that turns attributes
    into blocks. It keeps the finalized, safe and unsafe heads, follows unsafe
    payloads, consolidates the unsafe chain with the attributes derived from
    L1 or replaces it, and finalizes blocks as L1 does. *)

From S2P Require Import Prelude Eth Espresso L1Info Stages Heap PayloadsQueue EngineUpdate SyncStart.

(** [NextAttributesProvider]: the attributes queue before the engine queue. *)
Class AttributesProvider (P : Type) := {
  ap_origin :: OriginProvider P;
  ap_NextAttributes : L2BlockRef -> stM P PayloadAttributes;
}.

(** The engine is the L2 chain [FindL2Heads] walks on. *)
#[export] Instance engine_L2Chain {W} `{!Engine W} : L2Chain W :=
  { L2BlockRefByHash := eng_L2BlockRefByHash; L2BlockRefByLabel := eng_L2BlockRefByLabel }.

Definition maxUnsafePayloadsMemory : Z := 500 * 1024 * 1024.
Definition finalityLookback : nat := 4 * 32 + 1.
Definition finalityDelay : Z := 64.

Record FinalityData := mkFinality {
  fd_L2Block : L2BlockRef;
  fd_L1Block : BlockID;
}.

(** A zero payload id means that no block is being built; queued attributes
    come with the block they go on. *)
Record EngineQueue (W P : Type) := mkEngineQueue {
  eq_finalized : L2BlockRef;
  eq_safeHead : L2BlockRef;
  eq_unsafeHead : L2BlockRef;
  eq_engineSyncTarget : L2BlockRef;
  eq_buildingOnto : L2BlockRef;
  eq_buildingID : PayloadID;
  eq_buildingSafe : bool;
  eq_needForkchoiceUpdate : bool;
  eq_finalizedL1 : L1BlockRef;
  eq_triedFinalizeAt : L1BlockRef;
  eq_safeAttributes : option (PayloadAttributes * L2BlockRef);
  eq_unsafePayloads : PayloadsQueue;
  eq_finalityData : list FinalityData;
  eq_engine : W;
  eq_prev : P;
  eq_origin : L1BlockRef;
  eq_sysCfg : SystemConfig;
}.
Arguments mkEngineQueue {W P} _ _ _ _ _ _ _ _ _ _ _ _ _ _ _ _ _.
Arguments eq_finalized {W P} _.
Arguments eq_safeHead {W P} _.
Arguments eq_unsafeHead {W P} _.
Arguments eq_engineSyncTarget {W P} _.
Arguments eq_buildingOnto {W P} _.
Arguments eq_buildingID {W P} _.
Arguments eq_buildingSafe {W P} _.
Arguments eq_needForkchoiceUpdate {W P} _.
Arguments eq_finalizedL1 {W P} _.
Arguments eq_triedFinalizeAt {W P} _.
Arguments eq_safeAttributes {W P} _.
Arguments eq_unsafePayloads {W P} _.
Arguments eq_finalityData {W P} _.
Arguments eq_engine {W P} _.
Arguments eq_prev {W P} _.
Arguments eq_origin {W P} _.
Arguments eq_sysCfg {W P} _.

(** ** Assignments to the fields *)

Section Fields.
Context {W P : Type}.
Notation equeue := (EngineQueue W P).

Definition set_finalized (x : L2BlockRef) (q : equeue) : equeue :=
  mkEngineQueue
    x (eq_safeHead q) (eq_unsafeHead q) (eq_engineSyncTarget q) (eq_buildingOnto q) (eq_buildingID q)
    (eq_buildingSafe q) (eq_needForkchoiceUpdate q) (eq_finalizedL1 q) (eq_triedFinalizeAt q)
    (eq_safeAttributes q) (eq_unsafePayloads q) (eq_finalityData q) (eq_engine q) (eq_prev q) (eq_origin q)
    (eq_sysCfg q).
Definition set_safeHead (x : L2BlockRef) (q : equeue) : equeue :=
  mkEngineQueue
    (eq_finalized q) x (eq_unsafeHead q) (eq_engineSyncTarget q) (eq_buildingOnto q) (eq_buildingID q)
    (eq_buildingSafe q) (eq_needForkchoiceUpdate q) (eq_finalizedL1 q) (eq_triedFinalizeAt q)
    (eq_safeAttributes q) (eq_unsafePayloads q) (eq_finalityData q) (eq_engine q) (eq_prev q) (eq_origin q)
    (eq_sysCfg q).
Definition set_unsafeHead (x : L2BlockRef) (q : equeue) : equeue :=
  mkEngineQueue
    (eq_finalized q) (eq_safeHead q) x (eq_engineSyncTarget q) (eq_buildingOnto q) (eq_buildingID q)
    (eq_buildingSafe q) (eq_needForkchoiceUpdate q) (eq_finalizedL1 q) (eq_triedFinalizeAt q)
    (eq_safeAttributes q) (eq_unsafePayloads q) (eq_finalityData q) (eq_engine q) (eq_prev q) (eq_origin q)
    (eq_sysCfg q).
Definition set_engineSyncTarget (x : L2BlockRef) (q : equeue) : equeue :=
  mkEngineQueue
    (eq_finalized q) (eq_safeHead q) (eq_unsafeHead q) x (eq_buildingOnto q) (eq_buildingID q)
    (eq_buildingSafe q) (eq_needForkchoiceUpdate q) (eq_finalizedL1 q) (eq_triedFinalizeAt q)
    (eq_safeAttributes q) (eq_unsafePayloads q) (eq_finalityData q) (eq_engine q) (eq_prev q) (eq_origin q)
    (eq_sysCfg q).
Definition set_buildingOnto (x : L2BlockRef) (q : equeue) : equeue :=
  mkEngineQueue
    (eq_finalized q) (eq_safeHead q) (eq_unsafeHead q) (eq_engineSyncTarget q) x (eq_buildingID q)
    (eq_buildingSafe q) (eq_needForkchoiceUpdate q) (eq_finalizedL1 q) (eq_triedFinalizeAt q)
    (eq_safeAttributes q) (eq_unsafePayloads q) (eq_finalityData q) (eq_engine q) (eq_prev q) (eq_origin q)
    (eq_sysCfg q).
Definition set_buildingID (x : PayloadID) (q : equeue) : equeue :=
  mkEngineQueue
    (eq_finalized q) (eq_safeHead q) (eq_unsafeHead q) (eq_engineSyncTarget q) (eq_buildingOnto q) x
    (eq_buildingSafe q) (eq_needForkchoiceUpdate q) (eq_finalizedL1 q) (eq_triedFinalizeAt q)
    (eq_safeAttributes q) (eq_unsafePayloads q) (eq_finalityData q) (eq_engine q) (eq_prev q) (eq_origin q)
    (eq_sysCfg q).
Definition set_buildingSafe (x : bool) (q : equeue) : equeue :=
  mkEngineQueue
    (eq_finalized q) (eq_safeHead q) (eq_unsafeHead q) (eq_engineSyncTarget q) (eq_buildingOnto q)
    (eq_buildingID q) x (eq_needForkchoiceUpdate q) (eq_finalizedL1 q) (eq_triedFinalizeAt q)
    (eq_safeAttributes q) (eq_unsafePayloads q) (eq_finalityData q) (eq_engine q) (eq_prev q) (eq_origin q)
    (eq_sysCfg q).
Definition set_needForkchoiceUpdate (x : bool) (q : equeue) : equeue :=
  mkEngineQueue
    (eq_finalized q) (eq_safeHead q) (eq_unsafeHead q) (eq_engineSyncTarget q) (eq_buildingOnto q)
    (eq_buildingID q) (eq_buildingSafe q) x (eq_finalizedL1 q) (eq_triedFinalizeAt q) (eq_safeAttributes q)
    (eq_unsafePayloads q) (eq_finalityData q) (eq_engine q) (eq_prev q) (eq_origin q) (eq_sysCfg q).
Definition set_finalizedL1 (x : L1BlockRef) (q : equeue) : equeue :=
  mkEngineQueue
    (eq_finalized q) (eq_safeHead q) (eq_unsafeHead q) (eq_engineSyncTarget q) (eq_buildingOnto q)
    (eq_buildingID q) (eq_buildingSafe q) (eq_needForkchoiceUpdate q) x (eq_triedFinalizeAt q)
    (eq_safeAttributes q) (eq_unsafePayloads q) (eq_finalityData q) (eq_engine q) (eq_prev q) (eq_origin q)
    (eq_sysCfg q).
Definition set_triedFinalizeAt (x : L1BlockRef) (q : equeue) : equeue :=
  mkEngineQueue
    (eq_finalized q) (eq_safeHead q) (eq_unsafeHead q) (eq_engineSyncTarget q) (eq_buildingOnto q)
    (eq_buildingID q) (eq_buildingSafe q) (eq_needForkchoiceUpdate q) (eq_finalizedL1 q) x (eq_safeAttributes
    q) (eq_unsafePayloads q) (eq_finalityData q) (eq_engine q) (eq_prev q) (eq_origin q) (eq_sysCfg q).
Definition set_safeAttributes (x : option (PayloadAttributes * L2BlockRef)) (q : equeue) : equeue :=
  mkEngineQueue
    (eq_finalized q) (eq_safeHead q) (eq_unsafeHead q) (eq_engineSyncTarget q) (eq_buildingOnto q)
    (eq_buildingID q) (eq_buildingSafe q) (eq_needForkchoiceUpdate q) (eq_finalizedL1 q) (eq_triedFinalizeAt
    q) x (eq_unsafePayloads q) (eq_finalityData q) (eq_engine q) (eq_prev q) (eq_origin q) (eq_sysCfg q).
Definition set_unsafePayloads (x : PayloadsQueue) (q : equeue) : equeue :=
  mkEngineQueue
    (eq_finalized q) (eq_safeHead q) (eq_unsafeHead q) (eq_engineSyncTarget q) (eq_buildingOnto q)
    (eq_buildingID q) (eq_buildingSafe q) (eq_needForkchoiceUpdate q) (eq_finalizedL1 q) (eq_triedFinalizeAt
    q) (eq_safeAttributes q) x (eq_finalityData q) (eq_engine q) (eq_prev q) (eq_origin q) (eq_sysCfg q).
Definition set_finalityData (x : list FinalityData) (q : equeue) : equeue :=
  mkEngineQueue
    (eq_finalized q) (eq_safeHead q) (eq_unsafeHead q) (eq_engineSyncTarget q) (eq_buildingOnto q)
    (eq_buildingID q) (eq_buildingSafe q) (eq_needForkchoiceUpdate q) (eq_finalizedL1 q) (eq_triedFinalizeAt
    q) (eq_safeAttributes q) (eq_unsafePayloads q) x (eq_engine q) (eq_prev q) (eq_origin q) (eq_sysCfg q).
Definition set_engine (x : W) (q : equeue) : equeue :=
  mkEngineQueue
    (eq_finalized q) (eq_safeHead q) (eq_unsafeHead q) (eq_engineSyncTarget q) (eq_buildingOnto q)
    (eq_buildingID q) (eq_buildingSafe q) (eq_needForkchoiceUpdate q) (eq_finalizedL1 q) (eq_triedFinalizeAt
    q) (eq_safeAttributes q) (eq_unsafePayloads q) (eq_finalityData q) x (eq_prev q) (eq_origin q) (eq_sysCfg
    q).
Definition set_prev (x : P) (q : equeue) : equeue :=
  mkEngineQueue
    (eq_finalized q) (eq_safeHead q) (eq_unsafeHead q) (eq_engineSyncTarget q) (eq_buildingOnto q)
    (eq_buildingID q) (eq_buildingSafe q) (eq_needForkchoiceUpdate q) (eq_finalizedL1 q) (eq_triedFinalizeAt
    q) (eq_safeAttributes q) (eq_unsafePayloads q) (eq_finalityData q) (eq_engine q) x (eq_origin q)
    (eq_sysCfg q).
Definition set_origin (x : L1BlockRef) (q : equeue) : equeue :=
  mkEngineQueue
    (eq_finalized q) (eq_safeHead q) (eq_unsafeHead q) (eq_engineSyncTarget q) (eq_buildingOnto q)
    (eq_buildingID q) (eq_buildingSafe q) (eq_needForkchoiceUpdate q) (eq_finalizedL1 q) (eq_triedFinalizeAt
    q) (eq_safeAttributes q) (eq_unsafePayloads q) (eq_finalityData q) (eq_engine q) (eq_prev q) x (eq_sysCfg
    q).
Definition set_sysCfg (x : SystemConfig) (q : equeue) : equeue :=
  mkEngineQueue
    (eq_finalized q) (eq_safeHead q) (eq_unsafeHead q) (eq_engineSyncTarget q) (eq_buildingOnto q)
    (eq_buildingID q) (eq_buildingSafe q) (eq_needForkchoiceUpdate q) (eq_finalizedL1 q) (eq_triedFinalizeAt
    q) (eq_safeAttributes q) (eq_unsafePayloads q) (eq_finalityData q) (eq_engine q) (eq_prev q) (eq_origin q)
    x.
End Fields.

Section EngineQueue.
Context `{E : EspressoLib}.
Variable Keccak256Hash : bytes -> Hash.
Variable rlp_decode_jst : bytes -> res L2BatchJustification.
Variable decode_tx : bytes -> res (Z * bytes).
Variable cfg : Config.
Variable syncCfg : SyncConfig.
Context {W : Type} `{!Engine W} {P : Type} `{!AttributesProvider P}.
Notation equeue := (EngineQueue W P).

Definition toBlockRef (p : ExecutionPayload) : res L2BlockRef :=
  PayloadToBlockRef Keccak256Hash rlp_decode_jst decode_tx p (cfg_Genesis cfg).

Definition noPayloadID : PayloadID := zeros 8.

Definition zero_SystemConfig : SystemConfig :=
  {| BatcherAddr := zeros 20; Overhead := zeros 32; Scalar := zeros 32; GasLimit := 0; Espresso := false; EspressoL1ConfDepth := 0 |}.

Definition NewEngineQueue (engine : W) (prev : P) : equeue :=
  {| eq_finalized := zero_L2BlockRef; eq_safeHead := zero_L2BlockRef; eq_unsafeHead := zero_L2BlockRef;
     eq_engineSyncTarget := zero_L2BlockRef; eq_buildingOnto := zero_L2BlockRef; eq_buildingID := noPayloadID;
     eq_buildingSafe := false; eq_needForkchoiceUpdate := false; eq_finalizedL1 := zero_L1BlockRef;
     eq_triedFinalizeAt := zero_L1BlockRef; eq_safeAttributes := None;
     eq_unsafePayloads := NewPayloadsQueue maxUnsafePayloadsMemory payloadMemSize; eq_finalityData := [];
     eq_engine := engine; eq_prev := prev; eq_origin := zero_L1BlockRef; eq_sysCfg := zero_SystemConfig |}.

Definition call_engine {A} (m : stM W A) (q : equeue) : equeue * res A :=
  let '(w, r) := m (eq_engine q) in (set_engine w q, r).

Definition pop_unsafe (q : equeue) : equeue := set_unsafePayloads (Pop (eq_unsafePayloads q)).1 q.

Definition isEngineSyncing (q : equeue) : bool :=
  negb (bool_decide (l2_Hash (eq_unsafeHead q) = l2_Hash (eq_engineSyncTarget q))).

Definition SetUnsafeHead (head : L2BlockRef) (q : equeue) : equeue := set_unsafeHead head q.
Definition SetEngineSyncTarget (head : L2BlockRef) (q : equeue) : equeue := set_engineSyncTarget head q.

(** A payload that does not fit is only logged; [Peek] after a successful
    [Push] is dereferenced. *)
Definition AddUnsafePayload (payload : option ExecutionPayload) : stM equeue unit := fun q =>
  match payload with
  | None => (q, Ok tt)
  | Some _ =>
      match Push payload (eq_unsafePayloads q) with
      | (u, Err (GoPanic m)) => (set_unsafePayloads u q, Err (GoPanic m))
      | (u, Err _) => (set_unsafePayloads u q, Ok tt)
      | (u, Ok _) => (set_unsafePayloads u q, _ ← deref (Peek u); Ok tt)
      end
  end.

(** *** Finality *)

(** The loop of [tryFinalizeL2]: the block to finalize, and whether the engine
    has to be told. *)
Definition finalize_loop (finalizedL1 : Z) (data : list FinalityData) (finalized : L2BlockRef) (need : bool) : L2BlockRef * bool :=
  fold_left (fun '(finalizedL2, need) fd =>
    if (l2_Number finalizedL2 <? l2_Number (fd_L2Block fd)) && (id_Number (fd_L1Block fd) <=? finalizedL1)
    then (fd_L2Block fd, true) else (finalizedL2, need)) data (finalized, need).

Definition tryFinalizeL2 (q : equeue) : equeue :=
  if bool_decide (eq_finalizedL1 q = zero_L1BlockRef) then q
  else
    let '(finalizedL2, need) :=
      finalize_loop (l1_Number (eq_finalizedL1 q)) (eq_finalityData q) (eq_finalized q) (eq_needForkchoiceUpdate q) in
    set_finalized finalizedL2 (set_needForkchoiceUpdate need (set_triedFinalizeAt (eq_origin q) q)).

Definition Finalize (l1Origin : L1BlockRef) (q : equeue) : equeue :=
  if l1_Number l1Origin <? l1_Number (eq_finalizedL1 q) then q
  else
    let q := set_finalizedL1 l1Origin q in
    if existsb (fun fd => bool_decide (fd_L1Block fd = L1BlockRef_ID l1Origin)) (eq_finalityData q) then tryFinalizeL2 q else q.

Definition postProcessSafeL2 (q : equeue) : equeue :=
  let data := if (finalityLookback <=? length (eq_finalityData q))%nat
              then take (finalityLookback - 1) (drop 1 (eq_finalityData q)) else eq_finalityData q in
  let extended := data ++ [mkFinality (eq_safeHead q) (L1BlockRef_ID (eq_origin q))] in
  match last data with
  | None => set_finalityData extended q
  | Some lst =>
      if id_Number (fd_L1Block lst) <? l1_Number (eq_origin q) then set_finalityData extended q
      else set_finalityData (take (pred (length data)) data ++ [mkFinality (eq_safeHead q) (fd_L1Block lst)]) q
  end.

(** *** The forkchoice of the engine *)

(** How the two callers of [ForkchoiceUpdate] report its error. *)
Definition forkchoice_error (inconsistent failed : string) (e : go_error) : go_error :=
  match as_InputError e with
  | Some (inner, code) =>
      if code =? InvalidForkchoiceState then NewResetError (Wrapf inconsistent inner)
      else NewTemporaryError (Wrapf "unexpected error code in forkchoice-updated response" e)
  | None => NewTemporaryError (Wrapf failed e)
  end.

Definition tryUpdateEngine : stM equeue unit := fun q =>
  let fc := {| HeadBlockHash := l2_Hash (eq_engineSyncTarget q); SafeBlockHash := l2_Hash (eq_safeHead q);
               FinalizedBlockHash := l2_Hash (eq_finalized q) |} in
  match call_engine (ForkchoiceUpdate fc None) q with
  | (q, Err e) =>
      (q, Err (forkchoice_error "forkchoice update was inconsistent with engine, need reset to resolve"
                                "failed to sync forkchoice with engine" e))
  | (q, Ok _) => (set_needForkchoiceUpdate false q, Ok tt)
  end.

Definition checkNewPayloadStatus (status : ExecutePayloadStatus) : bool :=
  if EngineSync syncCfg then
    bool_decide (status = ExecutionValid) || bool_decide (status = ExecutionSyncing) || bool_decide (status = ExecutionAccepted)
  else bool_decide (status = ExecutionValid).

Definition checkForkchoiceUpdatedStatus (status : ExecutePayloadStatus) : bool :=
  if EngineSync syncCfg then bool_decide (status = ExecutionValid) || bool_decide (status = ExecutionSyncing)
  else bool_decide (status = ExecutionValid).

(** *** Unsafe payloads *)

(** The second half of [tryNextUnsafePayload]: the engine takes the payload and
    makes it its head. *)
Definition insert_unsafe (first : ExecutionPayload) (ref : L2BlockRef) : stM equeue unit := fun q =>
  match call_engine (NewPayload first) q with
  | (q, Err e) => (q, Err (NewTemporaryError (Wrapf "failed to update insert payload" e)))
  | (q, Ok status) =>
      if negb (checkNewPayloadStatus (Status status)) then
        (pop_unsafe q, Err (NewTemporaryError (Errorf "cannot process unsafe payload")))
      else
        let fc := {| HeadBlockHash := pl_BlockHash first; SafeBlockHash := l2_Hash (eq_safeHead q);
                     FinalizedBlockHash := l2_Hash (eq_finalized q) |} in
        match call_engine (ForkchoiceUpdate fc None) q with
        | (q, Err e) =>
            (q, Err (forkchoice_error "pre-unsafe-block forkchoice update was inconsistent with engine, need reset to resolve"
                                      "failed to update forkchoice to prepare for new unsafe payload" e))
        | (q, Ok fcRes) =>
            let status := Status (fc_PayloadStatus fcRes) in
            if negb (checkForkchoiceUpdatedStatus status) then
              (pop_unsafe q, Err (NewTemporaryError (Errorf "cannot prepare unsafe chain for new payload")))
            else
              let q := set_engineSyncTarget ref q in
              let q := if bool_decide (status = ExecutionValid) then set_unsafeHead ref q else q in
              (pop_unsafe q, Ok tt)
        end
  end.

Definition tryNextUnsafePayload : stM equeue unit := fun q =>
  match deref (Peek (eq_unsafePayloads q)) with
  | Err e => (q, Err e)
  | Ok first =>
      if pl_BlockNumber first <=? l2_Number (eq_safeHead q) then (pop_unsafe q, Ok tt)
      else if pl_BlockNumber first <=? l2_Number (eq_unsafeHead q) then (pop_unsafe q, Ok tt)
      else if negb (EngineSync syncCfg) && negb (bool_decide (pl_ParentHash first = l2_Hash (eq_unsafeHead q))) then
        ((if pl_BlockNumber first =? l2_Number (eq_unsafeHead q) +₆₄ 1 then pop_unsafe q else q), Err EOF)
      else
        match toBlockRef first with
        | Err (GoPanic m) => (q, Err (GoPanic m))
        | Err _ => (pop_unsafe q, Ok tt)
        | Ok ref => insert_unsafe first ref q
        end
  end.

(** *** Building blocks *)

Definition resetBuildingState (q : equeue) : equeue :=
  set_buildingID noPayloadID (set_buildingOnto zero_L2BlockRef (set_buildingSafe false q)).

Definition eq_StartPayload (parent : L2BlockRef) (attrs : PayloadAttributes) (updateSafe : bool) (q : equeue)
    : equeue * insertion unit :=
  if isEngineSyncing q then (q, (BlockInsertTemporaryErr, Err (Errorf "engine is in progess of p2p sync")))
  else
    let fc := {| HeadBlockHash := l2_Hash parent; SafeBlockHash := l2_Hash (eq_safeHead q);
                 FinalizedBlockHash := l2_Hash (eq_finalized q) |} in
    let '(w, (errTyp, r)) := StartPayload fc attrs (eq_engine q) in
    let q := set_engine w q in
    match r with
    | Err e => (q, (errTyp, Err e))
    | Ok id => (set_buildingID id (set_buildingSafe updateSafe (set_buildingOnto parent q)), (BlockInsertOK, Ok tt))
    end.

Definition eq_ConfirmPayload (q : equeue) : equeue * insertion ExecutionPayload :=
  if bool_decide (eq_buildingID q = noPayloadID) then
    (q, (BlockInsertPrestateErr, Err (Errorf "cannot complete payload building: not currently building a payload")))
  else
    let fc := {| HeadBlockHash := zeros 32; SafeBlockHash := l2_Hash (eq_safeHead q);
                 FinalizedBlockHash := l2_Hash (eq_finalized q) |} in
    let '(w, (errTyp, r)) := ConfirmPayload fc (eq_buildingID q) (eq_buildingSafe q) (eq_engine q) in
    let q := set_engine w q in
    match r with
    | Err e => (q, (errTyp, Err (wrap_err (Wrapf "failed to complete building on top of L2 chain") e)))
    | Ok payload =>
        match toBlockRef payload with
        | Err e =>
            (q, (BlockInsertPayloadErr,
                 Err (wrap_err (fun e => NewResetError (Wrapf "failed to decode L2 block ref from payload" e)) e)))
        | Ok ref =>
            let q := set_engineSyncTarget ref (set_unsafeHead ref q) in
            let q := if eq_buildingSafe q then postProcessSafeL2 (set_safeHead ref q) else q in
            (resetBuildingState q, (BlockInsertOK, Ok payload))
        end
    end.

Definition eq_CancelPayload (force : bool) : stM equeue unit := fun q =>
  if bool_decide (eq_buildingID q = noPayloadID) then (q, Ok tt)
  else
    match call_engine (GetPayload (eq_buildingID q)) q with
    | (q, Err e) => if force then (resetBuildingState q, Ok tt) else (q, Err e)
    | (q, Ok _) => (resetBuildingState q, Ok tt)
    end.

Definition BuildingPayload (q : equeue) : L2BlockRef * PayloadID * bool :=
  (eq_buildingOnto q, eq_buildingID q, eq_buildingSafe q).

(** *** Safe attributes *)

(** [len(tx) > 0 && tx[0] == types.DepositTxType] *)
Definition starts_deposit (tx : bytes) : bool :=
  match tx with b :: _ => b =? DepositTxType | [] => false end.

Definition depositCount (txs : list bytes) : nat :=
  fold_left (fun n tx => if starts_deposit tx then S n else n) txs 0%nat.

(** The switch on the severity of a failed insertion. *)
Definition insertion_failed (attrs : PayloadAttributes) (errType : BlockInsertionErrType) (e : go_error) : stM equeue unit := fun q =>
  match errType with
  | BlockInsertTemporaryErr => (q, Err (NewTemporaryError (Wrapf "temporarily cannot insert new safe block" e)))
  | BlockInsertPrestateErr =>
      ((eq_CancelPayload true q).1, Err (NewResetError (Wrapf "need reset to resolve pre-state problem" e)))
  | BlockInsertPayloadErr =>
      let q := (eq_CancelPayload true q).1 in
      if (length (pa_Transactions attrs) =? depositCount (pa_Transactions attrs))%nat then
        (q, Err (NewCriticalError (Wrapf "failed to process block with only deposit transactions" e)))
      else (set_safeAttributes None q, Ok tt)
  | BlockInsertOK => (q, Err (NewCriticalError (Wrapf "unknown InsertHeadBlock error type" e)))
  end.

Definition forceNextSafeAttributes : stM equeue unit := fun q =>
  match eq_safeAttributes q with
  | None => (q, Ok tt)
  | Some (attrs, _) =>
      let '(q, (errType, r)) :=
        match eq_StartPayload (eq_safeHead q) attrs true q with
        | (q, (errType, Err e)) => (q, (errType, Err e))
        | (q, (_, Ok _)) => eq_ConfirmPayload q
        end in
      match r with
      | Ok _ => (set_safeAttributes None q, Ok tt)
      | Err (GoPanic m) => (q, Err (GoPanic m))
      | Err e => insertion_failed attrs errType e q
      end
  end.

Definition consolidateNextSafeAttributes (attrs : PayloadAttributes) : stM equeue unit := fun q =>
  match call_engine (eng_PayloadByNumber (l2_Number (eq_safeHead q) +₆₄ 1)) q with
  | (q, Err e) =>
      (q, Err (if errors_Is e NotFound
               then NewResetError (Wrapf "expected engine was synced and had unsafe block to reconcile, but cannot find the block" e)
               else NewTemporaryError (Wrapf "failed to get existing unsafe payload to compare against derived attributes from L1" e)))
  | (q, Ok payload) =>
      match AttributesMatchBlock attrs (l2_Hash (eq_safeHead q)) payload with
      | Err _ => forceNextSafeAttributes q
      | Ok _ =>
          match map_err (fun e => NewResetError (Wrapf "failed to decode L2 block ref from payload" e)) (toBlockRef payload) with
          | Err e => (q, Err e)
          | Ok ref => (postProcessSafeL2 (set_safeAttributes None (set_needForkchoiceUpdate true (set_safeHead ref q))), Ok tt)
          end
      end
  end.

Definition tryNextSafeAttributes : stM equeue unit := fun q =>
  match eq_safeAttributes q with
  | None => (q, Ok tt)
  | Some (attrs, parent) =>
      let safe := eq_safeHead q in
      if negb (bool_decide (safe = parent)) then
        if bool_decide (l2_ParentHash safe = l2_Hash parent) then (set_safeAttributes None q, Ok tt)
        else (q, Err (NewResetError (Errorf "safe head changed, conflicting with queued safe attributes")))
      else if l2_Number safe <? l2_Number (eq_unsafeHead q) then consolidateNextSafeAttributes attrs q
      else if l2_Number safe =? l2_Number (eq_unsafeHead q) then forceNextSafeAttributes q
      else (set_engineSyncTarget safe (set_unsafeHead safe q), Ok tt)
  end.

(** *** Steps; [l1] is the L1 node as it answers during the call *)

Variable l1 : L1Chain.

Definition verifyNewL1Origin (q : equeue) (newOrigin : L1BlockRef) : res unit :=
  let unsafeOrigin := l2_L1Origin (eq_unsafeHead q) in
  if bool_decide (newOrigin = eq_origin q) then Ok tt
  else if (l1_Number newOrigin =? id_Number unsafeOrigin) && negb (bool_decide (L1BlockRef_ID newOrigin = unsafeOrigin)) then
    Err (NewResetError (Errorf "l1 origin was inconsistent with l2 unsafe head origin, need reset to resolve"))
  else if (l1_Number newOrigin =? id_Number unsafeOrigin +₆₄ 1) && negb (bool_decide (l1_ParentHash newOrigin = id_Hash unsafeOrigin)) then
    Err (NewResetError (Errorf "l2 unsafe head origin is no longer canonical, need reset to resolve"))
  else if id_Number unsafeOrigin +₆₄ 1 <? l1_Number newOrigin then
    canonical ← map_err (fun e => NewTemporaryError (Wrapf "failed to fetch canonical L1 block" e))
                        (lc_L1BlockRefByNumber l1 (id_Number unsafeOrigin));
    if negb (bool_decide (L1BlockRef_ID canonical = unsafeOrigin)) then
      Err (NewResetError (Errorf "l2 unsafe head origin is no longer canonical, need reset to resolve"))
    else Ok tt
  else Ok tt.

Definition tryFinalizePastL2Blocks : stM equeue unit := fun q =>
  if bool_decide (eq_finalizedL1 q = zero_L1BlockRef) then (q, Ok tt)
  else if l1_Number (eq_finalizedL1 q) <? l1_Number (eq_origin q) then (q, Ok tt)
  else if negb (bool_decide (eq_triedFinalizeAt q = zero_L1BlockRef)) &&
          (l1_Number (eq_origin q) <=? l1_Number (eq_triedFinalizeAt q) +₆₄ finalityDelay) then (q, Ok tt)
  else
    match lc_L1BlockRefByNumber l1 (l1_Number (eq_origin q)) with
    | Err e => (q, Err (NewTemporaryError (Wrapf "failed to check if on finalizing L1 chain" e)))
    | Ok ref =>
        if negb (bool_decide (l1_Hash ref = l1_Hash (eq_origin q))) then
          (q, Err (NewResetError (Errorf "need to reset, we are not on the finalizing L1 chain")))
        else (tryFinalizeL2 q, Ok tt)
    end.

(** The end of [Step], once nothing is queued: look at the origin, and ask for
    the next attributes. *)
Definition next_attributes : stM equeue unit := fun q =>
  let newOrigin := Origin (eq_prev q) in
  match verifyNewL1Origin q newOrigin with
  | Err e => (q, Err e)
  | Ok _ =>
      match tryFinalizePastL2Blocks (postProcessSafeL2 (set_origin newOrigin q)) with
      | (q, Err e) => (q, Err e)
      | (q, Ok _) =>
          match ap_NextAttributes (eq_safeHead q) (eq_prev q) with
          | (p, Err e) => (set_prev p q, Err e)
          | (p, Ok next) => (set_safeAttributes (Some (next, eq_safeHead q)) (set_prev p q), Err NotEnoughData)
          end
      end
  end.

Definition eq_Step : stM equeue unit := fun q =>
  if eq_needForkchoiceUpdate q then tryUpdateEngine q
  else
    match (if 0 <? pq_Len (eq_unsafePayloads q) then tryNextUnsafePayload q else (q, Err EOF)) with
    | (q, Err EOF) =>
        if isEngineSyncing q then (q, Err EngineP2PSyncing)
        else match eq_safeAttributes q with
             | Some _ => tryNextSafeAttributes q
             | None => next_attributes q
             end
    | r => r
    end.

(** *** Reset *)

(** The walk back to an L2 block whose L1 origin is a channel timeout before
    that of the safe head; an L2 block number per turn. *)
Fixpoint walk_back (fuel : nat) (l1Origin : L1BlockRef) (pipelineL2 : L2BlockRef) : stM W L2BlockRef :=
  match fuel with
  | O => throw (GoPanic "infinite loop")
  | S fuel =>
      if (id_Number (gen_L2 (cfg_Genesis cfg)) <? l2_Number pipelineL2) &&
         (id_Number (gen_L1 (cfg_Genesis cfg)) <? id_Number (l2_L1Origin pipelineL2)) &&
         (l1_Number l1Origin <? id_Number (l2_L1Origin pipelineL2) +₆₄ ChannelTimeout cfg) then
        parent ← on_err (eng_L2BlockRefByHash (l2_ParentHash pipelineL2))
                        (fun _ => throw (NewResetError (Errorf "failed to fetch L2 parent block")));
        walk_back fuel l1Origin parent
      else mret pipelineL2
  end.

(** What [Reset] finds out before it changes anything: the heads, the L1 block
    to restart from, and the configuration there. *)
Definition reset_target : stM W (FindHeadsResult * L1BlockRef * SystemConfig) :=
  result ← wrapping (fun e => NewTemporaryError (Wrapf "failed to find the L2 Heads to start from" e))
                    (FindL2Heads cfg syncCfg l1);
  let safe := fh_Safe result in
  l1Origin ← lift (map_err (fun e => NewTemporaryError (Wrapf "failed to fetch the new L1 progress" e))
                           (lc_L1BlockRefByHash l1 (id_Hash (l2_L1Origin safe))));
  if l2_Time safe <? l1_Time l1Origin then
    throw (NewResetError (Errorf "cannot reset block derivation: time invariant is broken"))
  else
  pipelineL2 ← walk_back (S (Z.to_nat (l2_Number safe))) l1Origin safe;
  pipelineOrigin ← lift (map_err (fun e => NewTemporaryError (Wrapf "failed to fetch the new L1 progress" e))
                                 (lc_L1BlockRefByHash l1 (id_Hash (l2_L1Origin pipelineL2))));
  l1Cfg ← wrapping (fun e => NewTemporaryError (Wrapf "failed to fetch L1 config of L2 block" e))
                   (eng_SystemConfigByL2Hash (l2_Hash pipelineL2));
  mret (result, pipelineOrigin, l1Cfg).

Definition eq_Reset : stM equeue unit := fun q =>
  match call_engine reset_target q with
  | (q, Err e) => (q, Err e)
  | (q, Ok (result, pipelineOrigin, l1Cfg)) =>
      let q := set_engineSyncTarget (fh_Unsafe result) (set_unsafeHead (fh_Unsafe result) q) in
      let q := set_finalized (fh_Finalized result) (set_safeAttributes None (set_safeHead (fh_Safe result) q)) in
      let q := set_finalityData [] (set_needForkchoiceUpdate true (resetBuildingState q)) in
      (set_sysCfg l1Cfg (set_origin pipelineOrigin q), Err EOF)
  end.

Definition UnsafeL2SyncTarget (q : equeue) : res L2BlockRef :=
  match Peek (eq_unsafePayloads q) with
  | None => Ok zero_L2BlockRef
  | Some first =>
      match toBlockRef first with
      | Err (GoPanic m) => Err (GoPanic m)
      | Err _ => Ok zero_L2BlockRef
      | Ok ref => Ok ref
      end
  end.
End EngineQueue.
