(* ===== verification/EngineSafety.v ===== *)
(** * What the engine queue guarantees

    Theorems about [EngineQueue.v], for an engine that follows the engine API:
    the order of the heads, how the safe head advances, what is finalized and
    when, and how a failed insertion of a safe block is handled. *)

From S2P Require Import Prelude Eth SystemConfig Espresso L1Info Stages Heap PayloadsQueue EngineUpdate SyncStart EngineQueue.

(** ** The finality data *)

(** What [postProcessSafeL2] makes of the finality data. *)
Definition pruned (data : list FinalityData) : list FinalityData :=
  if (finalityLookback <=? length data)%nat then take (finalityLookback - 1) (drop 1 data) else data.

Definition finality_update (data : list FinalityData) (safe : L2BlockRef) (origin : L1BlockRef) : list FinalityData :=
  match last (pruned data) with
  | Some lst =>
      if id_Number (fd_L1Block lst) <? l1_Number origin then pruned data ++ [mkFinality safe (L1BlockRef_ID origin)]
      else take (pred (length (pruned data))) (pruned data) ++ [mkFinality safe (fd_L1Block lst)]
  | None => pruned data ++ [mkFinality safe (L1BlockRef_ID origin)]
  end.

Lemma postProcessSafeL2_eq {W P} (q : EngineQueue W P) :
  postProcessSafeL2 q = set_finalityData (finality_update (eq_finalityData q) (eq_safeHead q) (eq_origin q)) q.
Proof. unfold postProcessSafeL2, finality_update. fold (pruned (eq_finalityData q)). by repeat case_match. Qed.

Definition fd_before (a b : FinalityData) : Prop :=
  id_Number (fd_L1Block a) < id_Number (fd_L1Block b) /\ l2_Number (fd_L2Block a) <= l2_Number (fd_L2Block b).

(** Finality data, oldest L1 block first, up to L2 number [top]. *)
Record fds_ok (blk : L2BlockRef -> Prop) (top : Z) (data : list FinalityData) : Prop := {
  fo_blocks : Forall (fun fd => blk (fd_L2Block fd) /\ l2_Number (fd_L2Block fd) <= top) data;
  fo_sorted : StronglySorted fd_before data;
  fo_length : (length data <= finalityLookback)%nat;
}.

Lemma pruned_part data : exists a b, data = a ++ pruned data ++ b.
Proof.
  unfold pruned. destruct (_ <=? _)%nat; [|exists [], []; by rewrite app_nil_r].
  exists (take 1 data), (drop (finalityLookback - 1) (drop 1 data)). by rewrite !take_drop.
Qed.

Lemma pruned_length data : (length (pruned data) < finalityLookback)%nat.
Proof.
  unfold pruned. destruct (Nat.leb_spec finalityLookback (length data)); [|done].
  rewrite length_take. eapply Nat.le_lt_trans; [apply Nat.le_min_l|]. apply Nat.ltb_lt. reflexivity.
Qed.

Lemma pruned_ok blk top data : fds_ok blk top data -> fds_ok blk top (pruned data).
Proof.
  intros [Hb Hs Hl]. destruct (pruned_part data) as (a & b & Hd). rewrite Hd in Hb, Hs.
  rewrite !Forall_app in Hb. split; [apply Hb| |pose proof (pruned_length data); lia].
  by apply StronglySorted_app_1_r, StronglySorted_app_1_l in Hs.
Qed.

Lemma fds_snoc blk top data fd : fds_ok blk top data -> (length data < finalityLookback)%nat ->
  blk (fd_L2Block fd) -> top <= l2_Number (fd_L2Block fd) ->
  Forall (fun d => id_Number (fd_L1Block d) < id_Number (fd_L1Block fd)) data ->
  fds_ok blk (l2_Number (fd_L2Block fd)) (data ++ [fd]).
Proof.
  intros [Hb Hs Hl] Hlen Hblk Htop Hl1. rewrite Forall_forall in Hb, Hl1. split.
  - apply Forall_app; split; [|by constructor]. apply Forall_forall. intros d Hd. destruct (Hb d Hd). split; [done|lia].
  - apply StronglySorted_app. split; [|split; [done|repeat constructor]].
    intros d x Hd Hx. apply list_elem_of_singleton in Hx as ->. split; [by apply Hl1|]. destruct (Hb d Hd). lia.
  - rewrite length_app. cbn [length]. lia.
Qed.

Lemma finality_update_ok blk top data safe origin : fds_ok blk top data -> blk safe -> top <= l2_Number safe ->
  fds_ok blk (l2_Number safe) (finality_update data safe origin).
Proof.
  intros Hd Hs Htop. apply pruned_ok in Hd. pose proof (pruned_length data) as Hl. unfold finality_update.
  destruct (last (pruned data)) as [lst|] eqn:El.
  - apply last_Some in El as (l0 & El). pose proof Hd as [Hb Hsrt _]. rewrite El in Hb, Hsrt.
    apply StronglySorted_app in Hsrt as (Hbefore & Hs0 & _). apply Forall_app in Hb as [Hb0 _].
    destruct (Z.ltb_spec (id_Number (fd_L1Block lst)) (l1_Number origin)).
    + apply (fds_snoc blk top _ (mkFinality safe (L1BlockRef_ID origin))); [done..|]. cbn.
      rewrite El. apply Forall_app; split; [|by constructor]. apply Forall_forall. intros d Hd'.
      destruct (Hbefore d lst Hd' ltac:(by left)). lia.
    + rewrite El, length_app, Nat.add_1_r. cbn [pred]. rewrite take_app_length.
      rewrite El, length_app in Hl. cbn [length] in Hl.
      apply (fds_snoc blk top _ (mkFinality safe (fd_L1Block lst))); [|lia|done|done|].
      * split; [done|done|lia].
      * apply Forall_forall. intros d Hd'. by destruct (Hbefore d lst Hd' ltac:(by left)).
  - by apply (fds_snoc blk top _ (mkFinality safe (L1BlockRef_ID origin))); [..|apply last_None in El as ->].
Qed.

(** An entry is old, or records the safe head at an L1 block not below the
    origin: the origin, or the block of the entry it takes the place of. *)
Definition fd_entry (data : list FinalityData) (safe : L2BlockRef) (origin : L1BlockRef) (fd : FinalityData) : Prop :=
  fd ∈ data \/
  (fd_L2Block fd = safe /\ l1_Number origin <= id_Number (fd_L1Block fd) /\
   (fd_L1Block fd = L1BlockRef_ID origin \/ exists old, old ∈ data /\ fd_L1Block fd = fd_L1Block old)).

Lemma finality_update_elem data safe origin fd : fd ∈ finality_update data safe origin -> fd_entry data safe origin fd.
Proof.
  assert (Hp : forall x, x ∈ pruned data -> x ∈ data).
  { intros x Hx. destruct (pruned_part data) as (a & b & ->). rewrite !elem_of_app. auto. }
  assert (Ht : forall n x, x ∈ take n (pruned data) -> x ∈ data).
  { intros n x Hx. apply Hp. rewrite <- (take_drop n (pruned data)). apply elem_of_app. by left. }
  unfold finality_update, fd_entry. intros H. destruct (last (pruned data)) as [lst|] eqn:El.
  - destruct (Z.ltb_spec (id_Number (fd_L1Block lst)) (l1_Number origin)); apply elem_of_app in H as [H|H]; eauto;
      apply list_elem_of_singleton in H as ->; right; (split; [done|]); cbn.
    + split; [lia|by left].
    + split; [lia|]. right. exists lst. split; [|done]. apply Hp. by apply last_Some_elem_of.
  - apply elem_of_app in H as [H|H]; eauto. apply list_elem_of_singleton in H as ->. right. split; [done|]. cbn.
    split; [lia|by left].
Qed.

(** The loop of [tryFinalizeL2] finds the highest of the current finalized block
    and the blocks derived from finalized L1 blocks. *)
Lemma finalize_loop_spec n data : forall fin need fin' need', finalize_loop n data fin need = (fin', need') ->
  ((fin' = fin /\ need' = need) \/
   (need' = true /\ l2_Number fin < l2_Number fin' /\ exists fd, fd ∈ data /\ fin' = fd_L2Block fd /\ id_Number (fd_L1Block fd) <= n)) /\
  Forall (fun fd => id_Number (fd_L1Block fd) <= n -> l2_Number (fd_L2Block fd) <= l2_Number fin') data.
Proof.
  unfold finalize_loop. induction data as [|fd data IH]; intros fin need fin' need' H; cbn [fold_left] in H.
  - injection H as <- <-. split; [by left|constructor].
  - destruct (Z.ltb_spec (l2_Number fin) (l2_Number (fd_L2Block fd))), (Z.leb_spec (id_Number (fd_L1Block fd)) n); cbn [andb] in H;
      apply IH in H as [[[-> ->]|(-> & Hlt & fd' & Hin & -> & Hle)] Hall]; split; try (by left);
      try (constructor; [lia|done]);
      try (right; split; [done|]; split; [lia|]; exists fd'; split; [by right|done]).
    right. split; [done|]. split; [done|]. exists fd. split; [by left|done].
Qed.

Section Safety.
Context `{E : EspressoLib}.
Variable Keccak256Hash : bytes -> Hash.
Variable rlp_decode_jst : bytes -> res L2BatchJustification.
Variable decode_tx : bytes -> res (Z * bytes).
Variable cfg : Config.
Variable syncCfg : SyncConfig.
Context {W : Type} `{!Engine W} {P : Type} `{!AttributesProvider P}.
Notation equeue := (EngineQueue W P).
Notation toRef := (toBlockRef Keccak256Hash rlp_decode_jst decode_tx cfg).

(** The number of the block with a hash, if it is the hash of a block. *)
Variable num : Hash -> option Z.

Definition numbered (b : L2BlockRef) : Prop := num (l2_Hash b) = Some (l2_Number b).

(** The references of the blocks of the engine. *)
Variable is_block : L2BlockRef -> Prop.

(** The engine API, as far as the node relies on it: references are those of
    blocks; the hash of a payload that is not refused is that of its contents;
    a payload that is valid is one above its parent; a forkchoice that is
    valid has its safe and finalized blocks at or below its head; a block is
    found under its number; a block that is built goes on the head it was
    asked for. *)
Record engine_laws : Prop := {
  el_range : forall h n, num h = Some n -> is_u64 n;
  el_block : forall b, is_block b -> numbered b /\ id_Hash (l2_L1Origin b) <> zeros 32;
  el_label : forall l w w' b, eng_L2BlockRefByLabel l w = (w', Ok b) -> is_block b;
  el_hash : forall h w w' b, eng_L2BlockRefByHash h w = (w', Ok b) -> is_block b /\ l2_Hash b = h;
  el_parent : forall n w w' p, is_block n -> eng_L2BlockRefByHash (l2_ParentHash n) w = (w', Ok p) -> l2_Number p + 1 = l2_Number n;
  el_finalized : forall w w' heads, currentHeads cfg w = (w', Ok heads) -> l2_Number (fh_Finalized heads) <= l2_Number (fh_Unsafe heads);
  el_new : forall p w w' st, NewPayload p w = (w', Ok st) ->
    Status st = ExecutionValid \/ Status st = ExecutionSyncing \/ Status st = ExecutionAccepted ->
    num (pl_BlockHash p) = Some (pl_BlockNumber p);
  el_child : forall p w w' st, NewPayload p w = (w', Ok st) -> Status st = ExecutionValid ->
    num (pl_ParentHash p) = Some (pl_BlockNumber p - 1);
  el_forkchoice : forall fc a w w' r, ForkchoiceUpdate fc a w = (w', Ok r) -> Status (fc_PayloadStatus r) = ExecutionValid ->
    forall h b, num (HeadBlockHash fc) = Some h ->
      num (SafeBlockHash fc) = Some b \/ num (FinalizedBlockHash fc) = Some b -> b <= h;
  el_number : forall k w w' p, eng_PayloadByNumber k w = (w', Ok p) -> pl_BlockNumber p = k /\ num (pl_BlockHash p) = Some k;
  el_build : forall fc a w w1 w2 r id p, ForkchoiceUpdate fc (Some a) w = (w1, Ok r) ->
    Status (fc_PayloadStatus r) = ExecutionValid -> fc_PayloadID r = Some id ->
    GetPayload id w1 = (w2, Ok p) -> pl_ParentHash p = HeadBlockHash fc;
}.

Variable L : engine_laws.

Lemma engine_l2_laws : l2_laws (W := W) is_block.
Proof.
  split; [apply L|apply L|apply L|]. intros b Hb. destruct (el_block L _ Hb) as [Hn Hz].
  split; [by apply (el_range L) in Hn as [? _]|done].
Qed.

(** The invariant of the heads and of the finality data. *)
Record heads_inv (q : equeue) : Prop := {
  hi_finalized : numbered (eq_finalized q);
  hi_safe : numbered (eq_safeHead q);
  hi_unsafe : numbered (eq_unsafeHead q);
  hi_order : l2_Number (eq_finalized q) <= l2_Number (eq_safeHead q) <= l2_Number (eq_unsafeHead q);
  hi_fds : fds_ok numbered (l2_Number (eq_safeHead q)) (eq_finalityData q);
}.

(** What the invariant is about. *)
Definition same_heads (q q' : equeue) : Prop :=
  eq_finalized q' = eq_finalized q /\ eq_safeHead q' = eq_safeHead q /\ eq_unsafeHead q' = eq_unsafeHead q /\
  eq_finalityData q' = eq_finalityData q /\ eq_origin q' = eq_origin q /\ eq_finalizedL1 q' = eq_finalizedL1 q.

#[local] Instance same_heads_preorder : PreOrder same_heads.
Proof. split; [repeat split|intros a b c; unfold same_heads; naive_solver congruence]. Qed.

Lemma same_heads_inv q q' : same_heads q q' -> heads_inv q -> heads_inv q'.
Proof. intros (H1 & H2 & H3 & H4 & _) [? ? ? ? ?]. split; by rewrite ?H1, ?H2, ?H3, ?H4. Qed.

Lemma toRef_ok p ref : toRef p = Ok ref ->
  l2_Hash ref = pl_BlockHash p /\ l2_Number ref = pl_BlockNumber p /\ l2_ParentHash ref = pl_ParentHash p.
Proof. unfold toBlockRef, PayloadToBlockRef. intros H. apply res_bind_ok in H as ([o s] & _ & H). apply Ok_inj in H. by subst ref. Qed.

Lemma call_engine_same {A} (m : stM W A) (q q' : equeue) r : call_engine m q = (q', r) ->
  q' = set_engine (eq_engine q') q /\ m (eq_engine q) = (eq_engine q', r).
Proof. unfold call_engine. destruct (m (eq_engine q)). by intros [= <- <-]. Qed.

Lemma set_engine_same w (q : equeue) : same_heads q (set_engine w q).
Proof. done. Qed.

Lemma pop_unsafe_same (q : equeue) : same_heads q (pop_unsafe q).
Proof. done. Qed.

Lemma postProcess_inv q : heads_inv q -> heads_inv (postProcessSafeL2 q).
Proof.
  intros [? ? ? ? ?]. rewrite postProcessSafeL2_eq. split; try done. by eapply finality_update_ok.
Qed.

Lemma tryFinalizeL2_inv q : heads_inv q -> heads_inv (tryFinalizeL2 q).
Proof.
  intros [Hf Hs Hu Ho Hd]. unfold tryFinalizeL2. case_bool_decide; [done|].
  destruct (finalize_loop _ _ _ _) as [fin need] eqn:El. apply finalize_loop_spec in El as [Hfin _].
  assert (numbered fin /\ l2_Number fin <= l2_Number (eq_safeHead q)) as [? ?].
  { destruct Hfin as [[-> _]|(_ & _ & fd & Hin & -> & _)]; [split; [done|lia]|].
    pose proof (fo_blocks _ _ _ Hd) as Hb. rewrite Forall_forall in Hb. by apply Hb. }
  split; cbn; [done..| |done]. lia.
Qed.

(** *** Building *)

Lemma eq_StartPayload_cases parent attrs updateSafe (q q' : equeue) k r : eq_StartPayload parent attrs updateSafe q = (q', (k, r)) ->
  match r with
  | Err _ => k <> BlockInsertOK /\ exists w, q' = set_engine w q
  | Ok _ => exists w id fcRes,
      q' = set_buildingID id (set_buildingSafe updateSafe (set_buildingOnto parent (set_engine w q))) /\
      ForkchoiceUpdate {| HeadBlockHash := l2_Hash parent; SafeBlockHash := l2_Hash (eq_safeHead q);
                          FinalizedBlockHash := l2_Hash (eq_finalized q) |} (Some attrs) (eq_engine q) = (w, Ok fcRes) /\
      Status (fc_PayloadStatus fcRes) = ExecutionValid /\ fc_PayloadID fcRes = Some id
  end.
Proof.
  unfold eq_StartPayload. destruct (isEngineSyncing q).
  - intros [= <- <- <-]. split; [done|]. exists (eq_engine q). by destruct q.
  - destruct (StartPayload _ attrs (eq_engine q)) as [w [k1 [id|e]]] eqn:Es.
    + intros [= <- <- <-]. apply StartPayload_ok in Es as (_ & fcRes & ? & ? & ?). by exists w, id, fcRes.
    + intros [= <- <- <-]. split; [by eapply StartPayload_err|]. by exists w.
Qed.

(** The state after a block was confirmed. *)
Definition confirmed (ref : L2BlockRef) (w : W) (q : equeue) : equeue :=
  let q' := set_engineSyncTarget ref (set_unsafeHead ref (set_engine w q)) in
  resetBuildingState (if eq_buildingSafe q then postProcessSafeL2 (set_safeHead ref q') else q').

Lemma eq_ConfirmPayload_cases (q q' : equeue) k r :
  eq_ConfirmPayload Keccak256Hash rlp_decode_jst decode_tx cfg q = (q', (k, r)) ->
  match r with
  | Err _ => k <> BlockInsertOK /\ exists w, q' = set_engine w q
  | Ok p => exists ref w w1 w2 st fcRes, toRef p = Ok ref /\ q' = confirmed ref w q /\
      GetPayload (eq_buildingID q) (eq_engine q) = (w1, Ok p) /\ deposits_first (pl_Transactions p) /\
      NewPayload p w1 = (w2, Ok st) /\ Status st = ExecutionValid /\
      ForkchoiceUpdate {| HeadBlockHash := pl_BlockHash p;
                          SafeBlockHash := if eq_buildingSafe q then pl_BlockHash p else l2_Hash (eq_safeHead q);
                          FinalizedBlockHash := l2_Hash (eq_finalized q) |} None w2 = (w, Ok fcRes) /\
      Status (fc_PayloadStatus fcRes) = ExecutionValid
  end.
Proof.
  unfold eq_ConfirmPayload. case_bool_decide.
  { intros [= <- <- <-]. split; [done|]. exists (eq_engine q). by destruct q. }
  destruct (ConfirmPayload _ _ _ (eq_engine q)) as [w [k1 [p|e]]] eqn:Ec.
  - apply ConfirmPayload_ok in Ec as (_ & w1 & w2 & st & fcRes & Hc).
    destruct (toRef p) as [ref|e] eqn:Er.
    + intros [= <- <- <-]. exists ref, w, w1, w2, st, fcRes. split; [done|]. split; [done|]. exact Hc.
    + intros [= <- <- <-]. split; [done|]. by exists w.
  - intros [= <- <- <-]. split; [by eapply ConfirmPayload_err|]. by exists w.
Qed.

Lemma eq_CancelPayload_same force (q : equeue) : same_heads q (eq_CancelPayload force q).1 /\
  eq_safeAttributes (eq_CancelPayload force q).1 = eq_safeAttributes q.
Proof.
  unfold eq_CancelPayload. case_bool_decide; [done|]. unfold call_engine.
  destruct (GetPayload _ _) as [w [p|e]]; [done|]. by destruct force.
Qed.

(** The engine built the payload from the attributes, on a block. *)
Definition built_from (attrs : PayloadAttributes) (parent : Hash) (p : ExecutionPayload) : Prop :=
  pl_ParentHash p = parent /\ deposits_first (pl_Transactions p) /\
  exists fc w w1 w2 fcRes id, ForkchoiceUpdate fc (Some attrs) w = (w1, Ok fcRes) /\
    fc_PayloadID fcRes = Some id /\ GetPayload id w1 = (w2, Ok p).

Lemma deposit_count_spec txs n :
  (fold_left (fun n tx => if starts_deposit tx then S n else n) txs n <= n + length txs)%nat /\
  (fold_left (fun n tx => if starts_deposit tx then S n else n) txs n = (n + length txs)%nat <-> Forall deposit_tx txs).
Proof.
  revert n. induction txs as [|tx txs IH]; intros n; cbn [fold_left length].
  { split; [lia|]. split; [constructor|lia]. }
  rewrite Forall_cons. assert (Ht : deposit_tx tx <-> starts_deposit tx = true).
  { unfold deposit_tx. destruct tx as [|b tx]; cbn; [done|]. rewrite Z.eqb_eq. split; congruence. }
  rewrite Ht. destruct (starts_deposit tx); [destruct (IH (S n)) as [H1 H2]|destruct (IH n) as [H1 H2]].
  - split; [lia|]. rewrite <- H2. split; [intros; split; [done|lia]|intros [_ ?]; lia].
  - split; [lia|]. split; [lia|by intros [? _]].
Qed.

Lemma depositCount_all txs : (length txs =? depositCount txs)%nat = true <-> Forall deposit_tx txs.
Proof. destruct (deposit_count_spec txs 0) as [_ H]. rewrite Nat.eqb_eq, <- H. unfold depositCount. cbn. split; congruence. Qed.

Lemma eq_CancelPayload_idle (q : equeue) : eq_buildingID (eq_CancelPayload true q).1 = noPayloadID.
Proof.
  unfold eq_CancelPayload. case_bool_decide; [done|]. unfold call_engine. by destruct (GetPayload _ _) as [w [p|e]].
Qed.

(** How the insertion of queued attributes on the safe head ends. *)
Inductive force_outcome (q : equeue) (attrs : PayloadAttributes) (q' : equeue) : res unit -> Prop :=
| ForceBuilt p ref : toRef p = Ok ref -> built_from attrs (l2_Hash (eq_safeHead q)) p ->
    numbered ref -> num (l2_ParentHash ref) = Some (l2_Number ref - 1) ->
    (forall n, num (l2_Hash (eq_finalized q)) = Some n -> n <= l2_Number ref) ->
    eq_safeHead q' = ref -> eq_unsafeHead q' = ref -> eq_finalized q' = eq_finalized q ->
    eq_finalityData q' = finality_update (eq_finalityData q) ref (eq_origin q) ->
    eq_origin q' = eq_origin q -> eq_finalizedL1 q' = eq_finalizedL1 q ->
    eq_safeAttributes q' = None -> eq_buildingID q' = noPayloadID ->
    force_outcome q attrs q' (Ok tt)
| ForceDropped : same_heads q q' -> eq_safeAttributes q' = None -> eq_buildingID q' = noPayloadID ->
    ~ Forall deposit_tx (pa_Transactions attrs) -> force_outcome q attrs q' (Ok tt)
| ForceRetry e : same_heads q q' -> eq_safeAttributes q' = eq_safeAttributes q ->
    force_outcome q attrs q' (Err (NewTemporaryError e))
| ForceReset e : same_heads q q' -> eq_safeAttributes q' = eq_safeAttributes q -> eq_buildingID q' = noPayloadID ->
    force_outcome q attrs q' (Err (NewResetError e))
| ForceCritical e : same_heads q q' -> eq_safeAttributes q' = eq_safeAttributes q -> eq_buildingID q' = noPayloadID ->
    Forall deposit_tx (pa_Transactions attrs) -> force_outcome q attrs q' (Err (NewCriticalError e))
| ForcePanic m : same_heads q q' -> eq_safeAttributes q' = eq_safeAttributes q -> force_outcome q attrs q' (Err (GoPanic m)).

(** The error branches, from the state in which the insertion failed. *)
Lemma force_failed q attrs q1 k e q' r :
  same_heads q q1 -> eq_safeAttributes q1 = eq_safeAttributes q -> k <> BlockInsertOK ->
  match e with GoPanic m => (q1, Err (GoPanic m)) | _ => insertion_failed attrs k e q1 end = (q', r) ->
  force_outcome q attrs q' r.
Proof.
  intros Hs1 Ha1 Hk H.
  destruct (eq_CancelPayload_same true q1) as [Hs2 Ha2]. pose proof (eq_CancelPayload_idle q1) as Hi.
  assert (Hs : same_heads q (eq_CancelPayload true q1).1) by (by etrans).
  assert (Hc : insertion_failed attrs k e q1 = (q', r) -> force_outcome q attrs q' r).
  { clear H. unfold insertion_failed. destruct k; [done|..].
    - intros [= <- <-]. by apply ForceRetry.
    - intros [= <- <-]. apply ForceReset; [done|congruence|done].
    - destruct (length (pa_Transactions attrs) =? depositCount (pa_Transactions attrs))%nat eqn:Ed; intros [= <- <-].
      + apply ForceCritical; [done|congruence|done|by apply depositCount_all].
      + apply ForceDropped; [done|done|done|]. intros Hall. apply depositCount_all in Hall. congruence. }
  destruct e; try by apply Hc. injection H as <- <-. by apply ForcePanic.
Qed.

Lemma force_cases q attrs parent q' r : eq_safeAttributes q = Some (attrs, parent) ->
  forceNextSafeAttributes Keccak256Hash rlp_decode_jst decode_tx cfg q = (q', r) -> force_outcome q attrs q' r.
Proof.
  intros Ha. unfold forceNextSafeAttributes. rewrite Ha.
  destruct (eq_StartPayload (eq_safeHead q) attrs true q) as [q1 [k1 [[]|e1]]] eqn:E1;
    pose proof (eq_StartPayload_cases _ _ _ _ _ _ _ E1) as H1; cbn in H1.
  - destruct H1 as (w & id & fcRes & -> & Hfc & Hst & Hid).
    match goal with |- context [eq_ConfirmPayload _ _ _ _ ?q1] => set (q1' := q1) in * end.
    destruct (eq_ConfirmPayload _ _ _ _ q1') as [q2 [k2 [p|e2]]] eqn:E2;
      pose proof (eq_ConfirmPayload_cases _ _ _ _ E2) as H2; cbn in H2.
    + destruct H2 as (ref & w' & w1 & w2 & st & fcRes2 & Hr & -> & Hg & Hdep & Hn & Hst2 & Hf2 & Hv2).
      intros [= <- <-]. destruct (toRef_ok _ _ Hr) as (Hh & Hnm & Hp).
      eapply ForceBuilt; [done| |..]; unfold confirmed; cbn [q1' eq_buildingSafe set_buildingID set_buildingSafe];
        rewrite ?postProcessSafeL2_eq; try done.
      * split; [exact (el_build L _ _ _ _ _ _ _ _ Hfc Hst Hid Hg)|]. split; [done|]. by eexists _, _, _, _, _, _.
      * unfold numbered. rewrite Hh, Hnm. eapply (el_new L); [done|by left].
      * rewrite Hp, Hnm. by eapply (el_child L).
      * intros n Hfin. rewrite Hnm. eapply (el_forkchoice L); [done|done| |by right].
        cbn. eapply (el_new L); [done|by left].
    + destruct H2 as [Hk [w' ->]]. intros H. eapply force_failed; [| |done|exact H]; done.
  - destruct H1 as [Hk [w' ->]]. intros H. eapply force_failed; [| |done|exact H]; done.
Qed.

(** *** The effect of an operation

    New finality data record the safe head of the new state; a finalized block
    comes from the finality data, and only after the check of the operation
    ([checked]); the safe head moves to a child that was consolidated with, or
    built from, the attributes queued on it. *)
Definition fd_from (q q' : equeue) : Prop :=
  forall fd, fd ∈ eq_finalityData q' -> fd_entry (eq_finalityData q) (eq_safeHead q') (eq_origin q') fd.

Section Effect.
Variable checked : equeue -> Prop.

Definition fin_from (q q' : equeue) : Prop :=
  eq_finalized q' = eq_finalized q \/
  (l2_Number (eq_finalized q) < l2_Number (eq_finalized q') /\ checked q' /\ exists fd, fd ∈ eq_finalityData q' /\
    eq_finalized q' = fd_L2Block fd /\ id_Number (fd_L1Block fd) <= l1_Number (eq_finalizedL1 q')).

Definition safe_from (q q' : equeue) : Prop :=
  eq_safeHead q' = eq_safeHead q \/
  exists attrs p, eq_safeAttributes q = Some (attrs, eq_safeHead q) /\ eq_safeAttributes q' = None /\
    toRef p = Ok (eq_safeHead q') /\ l2_ParentHash (eq_safeHead q') = l2_Hash (eq_safeHead q) /\
    l2_Number (eq_safeHead q') = l2_Number (eq_safeHead q) + 1 /\
    (block_carries attrs (l2_Hash (eq_safeHead q)) p \/ built_from attrs (l2_Hash (eq_safeHead q)) p).

Record effect (q q' : equeue) : Prop := {
  ef_inv : heads_inv q';
  ef_fd : fd_from q q';
  ef_fin : fin_from q q';
  ef_safe : safe_from q q';
}.

Lemma same_heads_effect q q' : heads_inv q -> same_heads q q' -> effect q q'.
Proof.
  intros Hi Hs. pose proof (same_heads_inv _ _ Hs Hi). destruct Hs as (H1 & H2 & H3 & H4 & H5 & H6).
  split; [done| | |]; unfold fd_from, fd_entry, fin_from, safe_from; rewrite ?H1, ?H2, ?H4; auto.
Qed.

Lemma effect_after_same q q1 q' : same_heads q q1 -> eq_safeAttributes q1 = eq_safeAttributes q -> effect q1 q' -> effect q q'.
Proof.
  intros (H1 & H2 & H3 & H4 & H5 & H6) Ha [Hi Hfd Hfin Hsafe].
  unfold fd_from, fin_from, safe_from in *. rewrite H1, H2, H4, Ha in *. done.
Qed.

(** A new unsafe head that the engine accepted on top of the safe head. *)
Lemma new_unsafe_effect q q' ref : heads_inv q -> same_heads (set_unsafeHead ref q) q' ->
  numbered ref -> l2_Number (eq_safeHead q) <= l2_Number ref -> effect q q'.
Proof.
  intros [Hf Hs Hu Ho Hd] Hsame Hr Hle.
  assert (Hi : heads_inv (set_unsafeHead ref q)) by (split; cbn; try done; lia).
  destruct (same_heads_effect _ _ Hi Hsame) as [Hi' Hfd Hfin Hsafe].
  split; [done|exact Hfd|exact Hfin|]. destruct Hsame as (_ & H2 & _). by left.
Qed.

(** A new safe head: the finality data follow it. *)
Lemma new_safe_effect q q' ref p attrs : heads_inv q -> eq_safeAttributes q = Some (attrs, eq_safeHead q) ->
  toRef p = Ok ref -> block_carries attrs (l2_Hash (eq_safeHead q)) p \/ built_from attrs (l2_Hash (eq_safeHead q)) p ->
  numbered ref -> l2_Number ref = l2_Number (eq_safeHead q) + 1 -> numbered (eq_unsafeHead q') ->
  l2_Number ref <= l2_Number (eq_unsafeHead q') ->
  eq_safeHead q' = ref -> eq_finalized q' = eq_finalized q -> eq_safeAttributes q' = None ->
  eq_finalityData q' = finality_update (eq_finalityData q) ref (eq_origin q) -> eq_origin q' = eq_origin q -> effect q q'.
Proof.
  intros [Hf Hs Hu Ho Hd] Ha Hp Hfrom Hr Hn Hu' Hle Hs' Hf' Ha' Hd' Ho'. subst ref. split.
  - split; rewrite ?Hf', ?Hd'; try done; [lia|]. eapply finality_update_ok; [done|done|lia].
  - intros fd. rewrite Hd', Ho'. apply finality_update_elem.
  - by left.
  - right. exists attrs, p. destruct (toRef_ok _ _ Hp) as (_ & _ & Hpp). do 3 (split; [done|]).
    split; [rewrite Hpp; by destruct Hfrom as [[? _]|[? _]]|]. done.
Qed.

Lemma confirm_unsafe_effect q q' k r : heads_inv q -> eq_buildingSafe q = false ->
  eq_ConfirmPayload Keccak256Hash rlp_decode_jst decode_tx cfg q = (q', (k, r)) -> effect q q'.
Proof.
  intros Hi Hb H. apply eq_ConfirmPayload_cases in H. destruct r as [p|e].
  - destruct H as (ref & w & w1 & w2 & st & fcRes & Hr & -> & _ & _ & Hn & Hst & Hf & Hv).
    rewrite Hb in Hf. destruct (toRef_ok _ _ Hr) as (Hh & Hnum & _).
    assert (Hnr : num (pl_BlockHash p) = Some (pl_BlockNumber p)) by (eapply (el_new L); [done|by left]).
    apply (new_unsafe_effect q _ ref Hi); [unfold confirmed; by rewrite Hb|unfold numbered; congruence|].
    rewrite Hnum. eapply (el_forkchoice L _ _ _ _ _ Hf Hv); [exact Hnr|left; apply Hi].
  - destruct H as [_ [w ->]]. by apply same_heads_effect.
Qed.

Lemma force_effect q attrs q' r : heads_inv q -> eq_safeAttributes q = Some (attrs, eq_safeHead q) ->
  forceNextSafeAttributes Keccak256Hash rlp_decode_jst decode_tx cfg q = (q', r) -> effect q q'.
Proof.
  intros Hi Ha H. destruct (force_cases _ _ _ _ _ Ha H) as [p ref Hr Hb Hnr Hpar _ Hs' Hu' Hf' Hd' Ho' _ Ha' _| | | | |];
    [|by apply same_heads_effect..].
  assert (Hn : l2_Number ref = l2_Number (eq_safeHead q) + 1).
  { pose proof (hi_safe _ Hi) as Hs. unfold numbered in Hs. destruct (toRef_ok _ _ Hr) as (_ & _ & Hpp).
    destruct Hb as [Hp _]. rewrite Hpp, Hp, Hs in Hpar. injection Hpar. lia. }
  eapply new_safe_effect; [done|done|done|by right|done|done|..]; try done; by rewrite Hu'.
Qed.

Lemma next_number q : heads_inv q -> l2_Number (eq_safeHead q) < l2_Number (eq_unsafeHead q) ->
  l2_Number (eq_safeHead q) +₆₄ 1 = l2_Number (eq_safeHead q) + 1.
Proof.
  intros Hi Hlt. pose proof (el_range L _ _ (hi_unsafe _ Hi)) as Hu. pose proof (el_range L _ _ (hi_safe _ Hi)) as Hs.
  unfold is_u64 in *. apply add64_small; [unfold is_u64; lia|lia|lia].
Qed.

Lemma consolidate_effect q attrs q' r : heads_inv q -> eq_safeAttributes q = Some (attrs, eq_safeHead q) ->
  l2_Number (eq_safeHead q) < l2_Number (eq_unsafeHead q) ->
  consolidateNextSafeAttributes Keccak256Hash rlp_decode_jst decode_tx cfg attrs q = (q', r) -> effect q q'.
Proof.
  intros Hi Ha Hlt. unfold consolidateNextSafeAttributes. rewrite (next_number _ Hi Hlt).
  destruct (call_engine _ q) as [q1 rp] eqn:Ec. apply call_engine_same in Ec as [-> Hc]. set (w := eq_engine q1) in *.
  assert (Hsame : same_heads q (set_engine w q)) by done.
  destruct rp as [p|e]; [|intros [= <- <-]; by apply same_heads_effect].
  destruct (el_number L _ _ _ _ Hc) as [Hk Hnum].
  destruct (AttributesMatchBlock _ _ _) as [[]|e] eqn:Em.
  - apply AttributesMatchBlock_spec in Em. destruct (toRef p) as [ref|e] eqn:Er; cbn [map_err].
    + intros [= <- <-]. destruct (toRef_ok _ _ Er) as (Hh & Hn & _). rewrite postProcessSafeL2_eq.
      eapply (new_safe_effect q _ ref p attrs); try done; cbn; [by left|unfold numbered; congruence|congruence|apply Hi|lia].
    + intros [= <- <-]. by apply same_heads_effect.
  - intros H. eapply effect_after_same; [exact Hsame|done|]. eapply force_effect; [|done|exact H]. by eapply same_heads_inv.
Qed.

Lemma tryNextSafe_effect q q' r : heads_inv q ->
  tryNextSafeAttributes Keccak256Hash rlp_decode_jst decode_tx cfg q = (q', r) -> effect q q'.
Proof.
  intros Hi. unfold tryNextSafeAttributes. destruct (eq_safeAttributes q) as [[attrs parent]|] eqn:Ha;
    [|intros [= <- <-]; by apply same_heads_effect].
  case_bool_decide as Hp; cbn [negb]; cycle 1.
  { case_bool_decide; intros [= <- <-]; by apply same_heads_effect. }
  subst parent. destruct (Z.ltb_spec (l2_Number (eq_safeHead q)) (l2_Number (eq_unsafeHead q))).
  - by apply consolidate_effect.
  - destruct (Z.eqb_spec (l2_Number (eq_safeHead q)) (l2_Number (eq_unsafeHead q))).
    + by apply (force_effect q attrs).
    + pose proof (hi_order _ Hi). lia.
Qed.

Lemma insert_unsafe_effect q first ref q' r : heads_inv q -> toRef first = Ok ref ->
  insert_unsafe syncCfg first ref q = (q', r) -> effect q q'.
Proof.
  intros Hi Hr. unfold insert_unsafe.
  destruct (call_engine (NewPayload first) q) as [q1 rn] eqn:En. apply call_engine_same in En as [-> Hn].
  set (w := eq_engine q1) in *. destruct rn as [st|e]; [|intros [= <- <-]; by apply same_heads_effect].
  destruct (checkNewPayloadStatus syncCfg (Status st)) eqn:Ev; cbn [negb]; [|intros [= <- <-]; by apply same_heads_effect].
  match goal with |- context [call_engine ?m ?s] => destruct (call_engine m s) as [q2 rf] eqn:Ef end.
  apply call_engine_same in Ef as [-> Hf]. set (w2 := eq_engine q2) in *.
  destruct rf as [fcRes|e]; [|intros [= <- <-]; by apply same_heads_effect].
  destruct (checkForkchoiceUpdatedStatus _ _); cbn [negb]; [|intros [= <- <-]; by apply same_heads_effect].
  intros [= <- <-]. case_bool_decide as Hst; [|by apply same_heads_effect].
  destruct (toRef_ok _ _ Hr) as (Hh & Hnum & _).
  assert (Hnr : num (pl_BlockHash first) = Some (pl_BlockNumber first)).
  { apply (el_new L _ _ _ _ Hn). unfold checkNewPayloadStatus in Ev.
    destruct (EngineSync syncCfg); [|by left; apply bool_decide_eq_true in Ev].
    apply orb_true_iff in Ev as [Ev|Ev]; [apply orb_true_iff in Ev as [Ev|Ev]|]; apply bool_decide_eq_true in Ev; auto. }
  apply (new_unsafe_effect q _ ref Hi); [done|unfold numbered; congruence|].
  rewrite Hnum. eapply (el_forkchoice L _ _ _ _ _ Hf Hst); [exact Hnr|left; apply Hi].
Qed.

(** When the payload cannot be processed now, the queue goes on as it was. *)
Lemma tryNextUnsafe_effect q q' r : heads_inv q ->
  tryNextUnsafePayload Keccak256Hash rlp_decode_jst decode_tx cfg syncCfg q = (q', r) ->
  effect q q' /\ (r = Err EOF -> same_heads q q' /\ eq_safeAttributes q' = eq_safeAttributes q).
Proof.
  intros Hi. unfold tryNextUnsafePayload. unfold deref.
  destruct (Peek (eq_unsafePayloads q)) as [first|]; [|intros [= <- <-]; split; [by apply same_heads_effect|done]].
  destruct (_ <=? _); [intros [= <- <-]; split; [by apply same_heads_effect|done]|].
  destruct (_ <=? _); [intros [= <- <-]; split; [by apply same_heads_effect|done]|].
  destruct (_ && _).
  { intros [= <- <-]. destruct (_ =? _); (split; [by apply same_heads_effect|done]). }
  destruct (toRef first) as [ref|e] eqn:Er.
  - intros H. split; [by eapply insert_unsafe_effect|]. intros ->. exfalso. revert H. unfold insert_unsafe.
    destruct (call_engine _ q) as [q1 [st|e]]; [|done]. destruct (negb _); [done|].
    destruct (call_engine _ q1) as [q2 [fcRes|e]]; [destruct (negb _); done|].
    unfold forkchoice_error. repeat case_match; done.
  - destruct e; intros [= <- <-]; (split; [by apply same_heads_effect|done]).
Qed.

Lemma post_origin_effect q origin : heads_inv q -> effect q (postProcessSafeL2 (set_origin origin q)).
Proof.
  intros Hi. assert (Hi' : heads_inv (set_origin origin q)) by (destruct Hi; by split).
  pose proof (postProcess_inv _ Hi') as Hp. rewrite postProcessSafeL2_eq in *. split; [done| |by left|by left].
  intros fd. apply finality_update_elem.
Qed.

Lemma tryFinalizeL2_fields (q : equeue) : eq_safeHead (tryFinalizeL2 q) = eq_safeHead q /\
  eq_finalityData (tryFinalizeL2 q) = eq_finalityData q /\ eq_origin (tryFinalizeL2 q) = eq_origin q /\
  eq_finalizedL1 (tryFinalizeL2 q) = eq_finalizedL1 q /\ eq_safeAttributes (tryFinalizeL2 q) = eq_safeAttributes q.
Proof. unfold tryFinalizeL2. case_bool_decide; [done|]. by destruct (finalize_loop _ _ _ _). Qed.

Lemma finalize_effect q q1 : effect q q1 -> eq_finalized q1 = eq_finalized q -> checked (tryFinalizeL2 q1) ->
  effect q (tryFinalizeL2 q1).
Proof.
  intros [Hi Hfd Hfin Hs] Hf Hcheck. destruct (tryFinalizeL2_fields q1) as (H1 & H2 & H3 & H4 & H5).
  split; [by apply tryFinalizeL2_inv| | |].
  - unfold fd_from in *. by rewrite H1, H2, H3.
  - unfold fin_from. rewrite H2, H4. revert Hcheck. unfold tryFinalizeL2. case_bool_decide; [by left|].
    destruct (finalize_loop _ _ _ _) as [fin need] eqn:El. apply finalize_loop_spec in El as [Hl _]. intros Hcheck. cbn in *.
    rewrite Hf in Hl. destruct Hl as [[-> _]|(_ & Hlt & fd & Hin & -> & Hle)]; [by left|].
    right. split; [done|]. split; [done|]. by exists fd.
  - unfold safe_from in *. by rewrite H1, H5.
Qed.
End Effect.

Section Steps.
Variable l1 : L1Chain.

(** The L1 client has the block the node is at, with the same hash, and a block
    at or above it is finalized. *)
Definition origin_checked (q : equeue) : Prop :=
  l1_Number (eq_origin q) <= l1_Number (eq_finalizedL1 q) /\
  exists ref, lc_L1BlockRefByNumber l1 (l1_Number (eq_origin q)) = Ok ref /\ l1_Hash ref = l1_Hash (eq_origin q).

#[local] Notation effect := (effect origin_checked).

Lemma next_attributes_effect q q' r : heads_inv q -> next_attributes l1 q = (q', r) -> effect q q'.
Proof.
  intros Hi. unfold next_attributes. destruct (verifyNewL1Origin _ _ _); [|intros [= <- <-]; by apply same_heads_effect].
  pose proof (post_origin_effect origin_checked q (Origin (eq_prev q)) Hi) as He. rewrite postProcessSafeL2_eq in *.
  set (q1 := set_finalityData _ _) in *.
  assert (Hf : forall q2 r2, tryFinalizePastL2Blocks l1 q1 = (q2, r2) ->
    effect q q2 /\ eq_safeHead q2 = eq_safeHead q /\ eq_safeAttributes q2 = eq_safeAttributes q).
  { intros q2 r2. unfold tryFinalizePastL2Blocks.
    destruct (bool_decide (_ = _)); [by intros [= <- <-]|]. destruct (Z.ltb_spec (l1_Number (eq_finalizedL1 q1)) (l1_Number (eq_origin q1)));
      [by intros [= <- <-]|].
    destruct (_ && _); [by intros [= <- <-]|].
    destruct (lc_L1BlockRefByNumber l1 (l1_Number (eq_origin q1))) as [ref|e] eqn:Er; [|by intros [= <- <-]].
    case_bool_decide as Hh; cbn [negb]; intros [= <- <-]; [|done].
    destruct (tryFinalizeL2_fields q1) as (H1 & _ & H3 & H4 & H5). split; [|by rewrite H1, H5].
    apply finalize_effect; [done|done|]. unfold origin_checked. rewrite H3, H4. split; [done|]. by exists ref. }
  destruct (tryFinalizePastL2Blocks l1 q1) as [q2 [[]|e]] eqn:E2; destruct (Hf _ _ eq_refl) as ([Hi2 Hfd2 Hfin2 _] & Hs2 & Ha2);
    [|intros [= <- <-]; split; try done; by left].
  destruct (ap_NextAttributes _ _) as [p [next|e]]; intros [= <- <-];
    (split; [destruct Hi2; by split|exact Hfd2|exact Hfin2|by left]).
Qed.

Lemma eq_Step_effect q q' r : heads_inv q ->
  eq_Step Keccak256Hash rlp_decode_jst decode_tx cfg syncCfg l1 q = (q', r) -> effect q q'.
Proof.
  intros Hi. unfold eq_Step. destruct (eq_needForkchoiceUpdate q).
  { unfold tryUpdateEngine. destruct (call_engine _ q) as [q1 [u|e]] eqn:Ec; apply call_engine_same in Ec as [-> _];
      intros [= <- <-]; by apply same_heads_effect. }
  set (first := if 0 <? pq_Len (eq_unsafePayloads q) then _ else _).
  assert (Hfirst : effect q first.1 /\ (first.2 = Err EOF -> same_heads q first.1 /\ eq_safeAttributes first.1 = eq_safeAttributes q)).
  { unfold first. destruct (0 <? _); [|split; [by apply same_heads_effect|done]].
    destruct (tryNextUnsafePayload _ _ _ _ _ q) as [q1 r1] eqn:E1. by apply (tryNextUnsafe_effect origin_checked) in E1. }
  clearbody first. destruct first as [q1 [u|e]]; cbn [fst snd] in Hfirst; [intros [= <- <-]; by apply Hfirst|].
  destruct (decide (e = EOF)) as [->|Hne]; [|destruct e; try (by destruct Hne); intros [= <- <-]; by apply Hfirst].
  destruct Hfirst as [He Hs]. destruct (Hs eq_refl) as [Hsame Ha]. pose proof (ef_inv _ _ _ He) as Hi1. clear Hs.
  destruct (isEngineSyncing q1); [by intros [= <- <-]|].
  intros H. eapply effect_after_same; [done|done|].
  destruct (eq_safeAttributes q1) eqn:Ea; [by eapply tryNextSafe_effect|by eapply next_attributes_effect].
Qed.
End Steps.

(** *** Runs *)

(** The calls the node makes. The sequencer confirms a block only when the one
    being built is not a safe one ([sequencer.go]: it stands back while the
    queue builds a safe block). [OpOutside] is what happens elsewhere: new
    data in the stages before, blocks in the engine, a reset that failed. *)
Inductive engine_op :=
| OpStep (l1 : L1Chain)
| OpAddUnsafe (payload : option ExecutionPayload)
| OpFinalize (l1Origin : L1BlockRef)
| OpStart (parent : L2BlockRef) (attrs : PayloadAttributes)
| OpConfirm
| OpCancel (force : bool)
| OpOutside (w : W) (p : P).

Definition run_op (op : engine_op) (q : equeue) : equeue :=
  match op with
  | OpStep l1 => (eq_Step Keccak256Hash rlp_decode_jst decode_tx cfg syncCfg l1 q).1
  | OpAddUnsafe payload => (AddUnsafePayload payload q).1
  | OpFinalize o => Finalize o q
  | OpStart parent attrs => (eq_StartPayload parent attrs false q).1
  | OpConfirm => (eq_ConfirmPayload Keccak256Hash rlp_decode_jst decode_tx cfg q).1
  | OpCancel force => (eq_CancelPayload force q).1
  | OpOutside w p => set_prev p (set_engine w q)
  end.

Definition op_allowed (op : engine_op) (q : equeue) : Prop :=
  match op with OpConfirm => eq_buildingSafe q = false | _ => True end.

(** The states since a reset that found an unsafe head, the latest first. *)
Inductive engine_run : list equeue -> Prop :=
| RunReset l1 q q' : l1_laws l1 -> eq_Reset cfg syncCfg l1 q = (q', Err EOF) ->
    eq_unsafeHead q' <> zero_L2BlockRef -> engine_run [q']
| RunOp op q qs : engine_run (q :: qs) -> op_allowed op q -> engine_run (run_op op q :: q :: qs).

(** What an operation has checked when it finalizes a block: the signal is for
    a block of the finality data, or the L1 client has the block the node is
    at. *)
Definition finality_checked (op : engine_op) (q : equeue) : Prop :=
  match op with
  | OpStep l1 => origin_checked l1 q
  | OpFinalize o => eq_finalizedL1 q = o /\ exists fd, fd ∈ eq_finalityData q /\ fd_L1Block fd = L1BlockRef_ID o
  | _ => False
  end.

Lemma run_op_effect op q : heads_inv q -> op_allowed op q -> effect (finality_checked op) q (run_op op q).
Proof.
  intros Hi Ha. destruct op as [l1|payload|o|parent attrs| |force|w p]; cbn [run_op].
  - destruct (eq_Step _ _ _ _ _ _ q) as [q' r] eqn:Es. by eapply eq_Step_effect.
  - unfold AddUnsafePayload. destruct payload as [pl|]; [|by apply same_heads_effect].
    destruct (Push _ _) as [u [[]|e]]; [by apply same_heads_effect|]. destruct e; by apply same_heads_effect.
  - unfold Finalize. destruct (_ <? _); [by apply same_heads_effect|].
    assert (He : effect (finality_checked (OpFinalize o)) q (set_finalizedL1 o q)) by (split; [destruct Hi; by split|by left|by left|by left]).
    destruct (existsb _ _) eqn:Ex; [|done]. apply finalize_effect; [done|done|].
    destruct (tryFinalizeL2_fields (set_finalizedL1 o q)) as (_ & H2 & _ & H4 & _). cbn [finality_checked]. rewrite H2, H4.
    split; [done|]. apply existsb_exists in Ex as (fd & Hin & Hfd). apply bool_decide_eq_true in Hfd.
    exists fd. split; [by apply list_elem_of_In|done].
  - destruct (eq_StartPayload parent attrs false q) as [q' [k r]] eqn:Es. apply eq_StartPayload_cases in Es.
    destruct r as [[]|e]; [destruct Es as (w & id & fcRes & -> & _)|destruct Es as [_ [w ->]]]; by apply same_heads_effect.
  - destruct (eq_ConfirmPayload _ _ _ _ q) as [q' [k r]] eqn:Ec. by eapply confirm_unsafe_effect.
  - apply same_heads_effect; [done|]. apply eq_CancelPayload_same.
  - by apply same_heads_effect.
Qed.

Lemma wrapping_reset_err {A} f (m : stM W A) w w' e : (forall x, f x <> EOF) -> wrapping f m w = (w', Err e) -> e <> EOF.
Proof.
  unfold wrapping. destruct (m w) as [w1 [a|e1]]; [done|]. cbn. intros Hf [= _ <-]. destruct e1; cbn; try apply Hf. done.
Qed.

Lemma walk_back_err fuel l1Origin : forall b w w' e, walk_back cfg fuel l1Origin b w = (w', Err e) -> e <> EOF.
Proof.
  induction fuel as [|fuel IH]; intros b w w' e; cbn [walk_back]; [by intros [= _ <-]|].
  destruct (_ && _); [|done]. unfold mbind, stM_bind, on_err.
  destruct (eng_L2BlockRefByHash _ w) as [w1 [p|e1]]; [apply IH|by intros [= _ <-]].
Qed.

(** A reset that returns [EOF] has set the heads to those it found. *)
Lemma eq_Reset_ok l1 (q q' : equeue) : eq_Reset cfg syncCfg l1 q = (q', Err EOF) ->
  exists w w' res, FindL2Heads cfg syncCfg l1 w = (w', Ok res) /\
    eq_finalized q' = fh_Finalized res /\ eq_safeHead q' = fh_Safe res /\ eq_unsafeHead q' = fh_Unsafe res /\
    eq_finalityData q' = [].
Proof.
  unfold eq_Reset. destruct (call_engine _ q) as [q1 [[[res o] c]|e]] eqn:Ec; apply call_engine_same in Ec as [-> Ht].
  - intros [= <-]. unfold reset_target in Ht. apply stM_bind_ok in Ht as (w1 & res' & Hf & Ht).
    apply wrapping_ok in Hf. apply stM_bind_ok in Ht as (w2 & l1Origin & _ & Ht). destruct (_ <? _); [done|].
    apply stM_bind_ok in Ht as (w3 & pl & _ & Ht). apply stM_bind_ok in Ht as (w4 & po & _ & Ht).
    apply stM_bind_ok in Ht as (w5 & lc & _ & Ht). injection Ht as _ <- _ _. by exists (eq_engine q), w1, res'.
  - intros [= _ ->]. exfalso. unfold reset_target in Ht.
    unfold mbind at 1, stM_bind at 1 in Ht. destruct (wrapping _ (FindL2Heads _ _ _) _) as [w1 [res|e1]] eqn:E1;
      [|injection Ht as _ ->; by eapply wrapping_reset_err in E1].
    unfold mbind at 1, stM_bind at 1 in Ht. unfold lift at 1 in Ht.
    destruct (lc_L1BlockRefByHash l1 _) as [lo|e2]; cbn [map_err] in Ht; [|destruct e2; by injection Ht].
    destruct (_ <? _); [done|]. unfold mbind at 1, stM_bind at 1 in Ht.
    destruct (walk_back _ _ _ _ _) as [w2 [pl|e3]] eqn:E3; [|injection Ht as _ ->; by eapply walk_back_err in E3].
    unfold mbind at 1, stM_bind at 1 in Ht. unfold lift at 1 in Ht.
    destruct (lc_L1BlockRefByHash l1 _) as [po|e4]; cbn [map_err] in Ht; [|destruct e4; by injection Ht].
    unfold mbind, stM_bind in Ht. destruct (wrapping _ (eng_SystemConfigByL2Hash _) _) as [w3 [lc|e5]] eqn:E5; [done|].
    injection Ht as _ ->. by eapply wrapping_reset_err in E5.
Qed.

Hypothesis Hskip : SkipSyncStartCheck syncCfg = false.

Lemma eq_Reset_inv l1 q q' : l1_laws l1 -> eq_Reset cfg syncCfg l1 q = (q', Err EOF) ->
  eq_unsafeHead q' <> zero_L2BlockRef -> heads_inv q'.
Proof.
  intros LL H Hz. apply eq_Reset_ok in H as (w & w' & res & Hf & Hfin & Hs & Hu & Hd).
  destruct (FindL2Heads_blk _ _ _ is_block engine_l2_laws _ _ _ Hf) as (Bf & Bs & Bu).
  apply (el_block L) in Bf as [Bf _]. apply (el_block L) in Bs as [Bs _].
  destruct (FindL2Heads_found _ _ _ is_block engine_l2_laws LL _ _ _ Hskip Hf) as (w1 & heads & Hh & Hfound).
  destruct (heads_found_order _ _ _ _ Hfound (el_finalized L _ _ _ Hh)) as [Ho1 Ho2].
  rewrite Hu in Hz. destruct Bu as [?|Bu]; [done|]. apply (el_block L) in Bu as [Bu _]. specialize (Ho2 Hz).
  split; rewrite ?Hfin, ?Hs, ?Hu, ?Hd; try done; [lia|]. split; [constructor|constructor|apply Nat.le_0_l].
Qed.

(** What is true of all the states since the reset: an entry of the finality
    data has the safe head of one of them, at an L1 block up to the one of the
    entry, which is the origin of one of them. *)
Lemma run_inv qs : engine_run qs -> exists q rest, qs = q :: rest /\ heads_inv q /\
  forall fd, fd ∈ eq_finalityData q ->
    (exists p, p ∈ qs /\ fd_L2Block fd = eq_safeHead p /\ l1_Number (eq_origin p) <= id_Number (fd_L1Block fd)) /\
    (exists s, s ∈ qs /\ fd_L1Block fd = L1BlockRef_ID (eq_origin s)).
Proof.
  induction 1 as [l1 q q' LL Hr Hz|op q qs Hrun IH Ha].
  - exists q', []. split; [done|]. split; [by eapply eq_Reset_inv|]. intros fd.
    destruct (eq_Reset_ok _ _ _ Hr) as (_ & _ & _ & _ & _ & _ & _ & ->). intros Hin. by apply not_elem_of_nil in Hin.
  - destruct IH as (q0 & rest & [= <- <-] & Hi & Hfd). pose proof (run_op_effect op q Hi Ha) as [Hi' Hfd' _ _].
    exists (run_op op q), (q :: qs). split; [done|]. split; [done|]. intros fd Hin.
    destruct (Hfd' fd Hin) as [Hold|(Hs & Ho & Hl)].
    + destruct (Hfd fd Hold) as ((p & Hp & ?) & (s & Hs & ?)). split; [exists p|exists s]; (split; [by right|done]).
    + split; [exists (run_op op q); split; [by left|done]|]. destruct Hl as [Hl|(old & Hold & Hl)].
      * exists (run_op op q). split; [by left|done].
      * destruct (Hfd old Hold) as (_ & (s & Hs' & ?)). exists s. split; [by right|congruence].
Qed.

(** C18. Since a reset, whatever the engine, L1 and the peers do, the finalized
    block is not above the safe head, nor the safe head above the unsafe
    head; and the finality data have at most one entry per L1 block, in
    order, none above the safe head, and at most [finalityLookback] of
    them. *)
Theorem engine_heads_ordered (q : equeue) (qs : list equeue) (Hrun : engine_run (q :: qs)) :
  l2_Number (eq_finalized q) <= l2_Number (eq_safeHead q) <= l2_Number (eq_unsafeHead q) /\
  StronglySorted fd_before (eq_finalityData q) /\ (length (eq_finalityData q) <= finalityLookback)%nat /\
  Forall (fun fd => l2_Number (fd_L2Block fd) <= l2_Number (eq_safeHead q)) (eq_finalityData q).
Proof.
  destruct (run_inv _ Hrun) as (q0 & rest & [= <- <-] & Hi & _). pose proof (hi_fds _ Hi) as [Hb Hs Hl].
  split; [apply Hi|]. split; [done|]. split; [done|]. eapply Forall_impl; [exact Hb|]. by intros fd [_ ?].
Qed.

(** C19. Since a reset, the safe head moves only one block at a time, onto a
    child of the safe head that either carries the attributes queued for it
    or was built from them by the engine, and the attributes are then gone. *)
Theorem safe_head_advances (q : equeue) (qs : list equeue) (op : engine_op) (Hrun : engine_run (q :: qs))
  (Hop : op_allowed op q) : safe_from q (run_op op q).
Proof. destruct (run_inv _ Hrun) as (q0 & rest & [= <- <-] & Hi & _). apply (run_op_effect op q Hi Hop). Qed.

(** The L1 blocks the node was at in these states (the latest first) are
    blocks of one chain, and it never went back. The L1 traversal moves from a
    block to a child of it ([L1Stages.v]). *)
Definition walked (chain : Z -> L1BlockRef) (qs : list equeue) : Prop :=
  (forall p, p ∈ qs -> eq_origin p = chain (l1_Number (eq_origin p))) /\
  StronglySorted (fun newer older => l1_Number (eq_origin older) <= l1_Number (eq_origin newer)) qs.

(** The finalized L1 chain is [final]: the signals are for its blocks, and the
    L1 client gives them by their numbers up to the last signal. *)
Definition final_chain (final : Z -> L1BlockRef) (op : engine_op) (q : equeue) : Prop :=
  match op with
  | OpFinalize o => o = final (l1_Number o)
  | OpStep l1 => forall n b, n <= l1_Number (eq_finalizedL1 q) -> lc_L1BlockRefByNumber l1 n = Ok b -> b = final n
  | _ => True
  end.

(** C20. Since a reset, the finalized block only moves up, to a block that was
    the safe head while the node was at an L1 block of the finalized chain: it
    is not above the last finalized one and has the hash of the finalized
    chain at its number, whatever chain the node has been following. [Hlink]:
    a block hash commits to the hashes of the blocks below. *)
Theorem finalized_was_derived (q : equeue) (qs : list equeue) (op : engine_op) (chain final : Z -> L1BlockRef)
  (Hrun : engine_run (q :: qs)) (Hop : op_allowed op q)
  (Hwalk : walked chain (run_op op q :: q :: qs)) (Hfinal : final_chain final op (run_op op q))
  (Hlink : forall n m, n <= m -> l1_Hash (chain m) = l1_Hash (final m) -> l1_Hash (chain n) = l1_Hash (final n)) :
  let q' := run_op op q in
  eq_finalized q' = eq_finalized q \/
  (l2_Number (eq_finalized q) < l2_Number (eq_finalized q') /\
   exists p, p ∈ q' :: q :: qs /\ eq_finalized q' = eq_safeHead p /\
     l1_Number (eq_origin p) <= l1_Number (eq_finalizedL1 q') /\
     l1_Hash (eq_origin p) = l1_Hash (final (l1_Number (eq_origin p)))).
Proof.
  intros q'. destruct (run_inv _ Hrun) as (q0 & rest & [= <- <-] & Hi & _). destruct Hwalk as [Hchain Hsort].
  pose proof (run_op_effect op q Hi Hop) as He.
  destruct (ef_fin _ _ _ He) as [?|(Hlt & Hcheck & fd & Hin & Hf & Hle)]; [by left|]. right. split; [done|].
  destruct (run_inv _ (RunOp _ _ _ Hrun Hop)) as (q0 & rest & [= <- <-] & _ & Hfd).
  destruct (Hfd fd Hin) as [(p & Hp & Hs & Ho) _]. exists p. split; [done|]. split; [unfold q'; congruence|].
  split; [unfold q'; lia|]. rewrite (Hchain p Hp) at 1.
  destruct op as [l1|?|o|? ?| |?|? ?]; cbn [finality_checked final_chain] in Hcheck, Hfinal; try done.
  - destruct Hcheck as (Hle1 & ref & Hr & Hh). apply (Hlink _ (l1_Number (eq_origin q'))).
    + apply StronglySorted_cons in Hsort as [Hall _]. rewrite Forall_forall in Hall.
      apply elem_of_cons in Hp as [->|Hp]; [done|by apply Hall].
    + rewrite <- (Hchain q') by left. unfold q'. rewrite <- Hh. f_equal. by apply Hfinal.
  - destruct Hcheck as (Hfl & fo & Hfo & Hid). destruct (Hfd fo Hfo) as [_ (s & Hs' & Hso)].
    rewrite Hid in Hso. rewrite Hfl in Hle. apply (Hlink _ (l1_Number o)); [lia|]. rewrite <- Hfinal.
    assert (Hn : l1_Number o = l1_Number (eq_origin s)) by (by apply (f_equal id_Number) in Hso).
    rewrite Hn, <- (Hchain s Hs'). by apply (f_equal id_Hash) in Hso.
Qed.

(** Inserting the queued attributes ends in one of six ways: the block is
    built on the safe head and becomes the safe and the unsafe head; the
    attributes are dropped (only if they have more than deposits); the
    insertion is retried later; a reset; a critical error (only for a block of
    deposits); or a panic. But for the first, no head changes. *)
Lemma insertion_outcomes (q q' : equeue) (attrs : PayloadAttributes) (parent : L2BlockRef) (r : res unit)
  (Hattrs : eq_safeAttributes q = Some (attrs, parent))
  (Hrun : forceNextSafeAttributes Keccak256Hash rlp_decode_jst decode_tx cfg q = (q', r)) :
  force_outcome q attrs q' r.
Proof. by eapply force_cases. Qed.
End Safety.

(** ** Witnesses

    An engine whose block [n] has a hash of bytes [n + 1]; its state is the
    head it builds on, and the transactions. *)

#[local] Existing Instance ex_lib.

Definition ex_num (h : Hash) : option Z :=
  match h with
  | x :: _ => if decide (h = hash_of x /\ 1 <= x <= 100) then Some (x - 1) else None
  | [] => None
  end.

Definition ex_ref (n : Z) : L2BlockRef :=
  {| l2_Hash := hash_of (n + 1); l2_Number := n; l2_ParentHash := hash_of n; l2_Time := 110 + 2 * n;
     l2_L1Origin := mkBlockID (hash_of 7) 7; l2_SequenceNumber := n |}.

Definition ex_block (n : Z) (txs : list bytes) : ExecutionPayload :=
  {| pl_ParentHash := hash_of n; pl_FeeRecipient := zeros 20; pl_StateRoot := hash_of 1; pl_ReceiptsRoot := hash_of 1;
     pl_LogsBloom := []; pl_PrevRandao := hash_of 3; pl_BlockNumber := n; pl_GasLimit := 30000000; pl_GasUsed := 0;
     pl_Timestamp := 110 + 2 * n; pl_ExtraData := []; pl_BaseFeePerGas := 7; pl_BlockHash := hash_of (n + 1);
     pl_Withdrawals := None; pl_Transactions := txs |}.

Definition ex_status (valid : bool) : PayloadStatusV1 :=
  {| Status := if valid then ExecutionValid else ExecutionInvalid; LatestValidHash := None; ValidationError := None |}.

(** At or below the head, if a block. *)
Definition ex_below (h : Hash) (head : Z) : bool :=
  match ex_num h with Some b => b <=? head | None => true end.

#[local] Instance ex_engine_api : Engine (Z * list bytes) := {|
  GetPayload := fun id w => (w, Ok (ex_block (w.1 + 1) w.2));
  ForkchoiceUpdate := fun fc attrs w =>
    match ex_num (HeadBlockHash fc) with
    | Some n =>
        if ex_below (SafeBlockHash fc) n && ex_below (FinalizedBlockHash fc) n then
          match attrs with
          | Some a => ((n, pa_Transactions a), Ok (mkFcResult (ex_status true) (Some (replicate 8 1))))
          | None => (w, Ok (mkFcResult (ex_status true) None))
          end
        else (w, Err (InputError (Errorf "invalid forkchoice state") InvalidForkchoiceState))
    | None => (w, Ok (mkFcResult (ex_status false) None))
    end;
  NewPayload := fun p w =>
    (w, Ok (ex_status (bool_decide (ex_num (pl_BlockHash p) = Some (pl_BlockNumber p) /\
                                    ex_num (pl_ParentHash p) = Some (pl_BlockNumber p - 1)))));
  eng_PayloadByNumber := fun k w => (w, if decide (0 <= k < 100) then Ok (ex_block k [ex_info_tx]) else Err NotFound);
  eng_L2BlockRefByLabel := fun l w => (w, Ok (ex_ref (match l with Unsafe => 10 | Safe => 8 | Finalized => 5 end)));
  eng_L2BlockRefByHash := fun h w => (w, match ex_num h with Some n => Ok (ex_ref n) | None => Err NotFound end);
  eng_SystemConfigByL2Hash := fun h w => (w, Ok ex_sysCfg);
|}.

#[local] Instance ex_attributes : AttributesProvider (script PayloadAttributes) := { ap_NextAttributes := fun _ => script_next }.

Definition ex_is_block (b : L2BlockRef) : Prop := exists n, 0 <= n < 100 /\ b = ex_ref n.

Lemma ex_num_hash n : 0 <= n < 100 -> ex_num (hash_of (n + 1)) = Some n.
Proof.
  intros Hn. unfold ex_num, hash_of. cbn [replicate]. rewrite decide_True by (split; [done|lia]). f_equal. lia.
Qed.

Lemma ex_num_inv h n : ex_num h = Some n -> 0 <= n < 100 /\ h = hash_of (n + 1).
Proof.
  unfold ex_num. destruct h as [|x h]; [done|]. case_decide as Hd; [|done]. intros [= <-].
  destruct Hd as [Hh Hx]. split; [lia|]. rewrite Hh. f_equal. lia.
Qed.

Lemma ex_engine_laws : engine_laws ex_cfg ex_num ex_is_block.
Proof.
  split.
  - intros h n Hn. apply ex_num_inv in Hn as [Hn _]. unfold is_u64. lia.
  - intros b (n & Hn & ->). split; [by apply ex_num_hash|discriminate].
  - intros l w w' b [= _ <-]. destruct l; (eexists; split; [|reflexivity]; lia).
  - intros h w w' b [= _ H]. destruct (ex_num h) as [n|] eqn:En; [|done]. apply Ok_inj in H. subst b.
    apply ex_num_inv in En as [Hn ->]. split; [by exists n|done].
  - intros b w w' p (n & Hn & ->) H. cbn [eng_L2BlockRefByHash ex_engine_api ex_ref l2_ParentHash] in H.
    apply pair_equal_spec in H as [_ H]. destruct (ex_num _) as [m|] eqn:En; [|done]. apply Ok_inj in H. subst p.
    apply ex_num_inv in En as [Hm Hh]. cbn [ex_ref l2_Number].
    apply (f_equal list.head) in Hh. injection Hh. lia.
  - intros w w' heads [= _ <-]. cbn. lia.
  - intros p w w' st [= _ <-]. cbn [ex_status Status]. case_bool_decide as Hd; [by destruct Hd|]. intros [|[|]]; done.
  - intros p w w' st [= _ <-]. cbn [ex_status Status]. case_bool_decide as Hd; [by destruct Hd|done].
  - intros fc a w w' r. cbn [ForkchoiceUpdate ex_engine_api]. destruct (ex_num (HeadBlockHash fc)) as [n|] eqn:En; [|by intros [= _ <-]].
    destruct (ex_below (SafeBlockHash fc) n) eqn:E1, (ex_below (FinalizedBlockHash fc) n) eqn:E2; cbn [andb]; try done.
    intros _ _ h b [= <-]. unfold ex_below in *. intros [Hb|Hb]; rewrite Hb in *; by apply Z.leb_le.
  - intros k w w' p. cbn [eng_PayloadByNumber ex_engine_api]. case_decide; [|done]. intros Hp.
    apply pair_equal_spec in Hp as [_ Hp]. apply Ok_inj in Hp. subst p. split; [done|]. by apply ex_num_hash.
  - intros fc a w w1 w2 r id p. cbn [ForkchoiceUpdate GetPayload ex_engine_api].
    destruct (ex_num (HeadBlockHash fc)) as [n|] eqn:En; [|by intros [= _ <-]].
    destruct (_ && _); [|done]. intros [= <- <-] _ _ [= _ <-]. apply ex_num_inv in En as [_ ->]. done.
Qed.

Definition ex_l1_7 : L1BlockRef := {| l1_Hash := hash_of 7; l1_Number := 7; l1_ParentHash := hash_of 6; l1_Time := 103 |}.

Definition ex_l1_only7 : L1Chain :=
  {| lc_L1BlockRefByNumber := fun k => if k =? 7 then Ok ex_l1_7 else Err NotFound;
     lc_L1BlockRefByHash := fun h => if decide (h = hash_of 7) then Ok ex_l1_7 else Err NotFound |}.

Lemma ex_l1_only7_laws : l1_laws ex_l1_only7.
Proof.
  split; cbn [ex_l1_only7 lc_L1BlockRefByNumber lc_L1BlockRefByHash].
  - intros h b. case_decide as Hd; [|done]. intros H. apply Ok_inj in H. by subst.
  - intros k b p. destruct (k =? 7); [|done]. intros H. apply Ok_inj in H. subst b. by vm_compute.
  - intros k b. destruct (k =? 7); [|done]. intros H. apply Ok_inj in H. by subst b.
Qed.

(** Attributes that block 6 of the unsafe chain carries. *)
Definition ex_match6 : PayloadAttributes :=
  {| pa_Timestamp := 122; pa_PrevRandao := hash_of 3; pa_SuggestedFeeRecipient := zeros 20; pa_Withdrawals := None;
     pa_Transactions := [ex_info_tx]; pa_NoTxPool := true; pa_Espresso := false; pa_GasLimit := Some 30000000 |}.

(** The same with a transaction that block 6 does not have. *)
Definition ex_other6 : PayloadAttributes :=
  {| pa_Timestamp := 122; pa_PrevRandao := hash_of 3; pa_SuggestedFeeRecipient := zeros 20; pa_Withdrawals := None;
     pa_Transactions := [ex_info_tx; [2; 5]]; pa_NoTxPool := true; pa_Espresso := false; pa_GasLimit := Some 30000000 |}.

Notation ex_queue_t := (EngineQueue (Z * list bytes) (script PayloadAttributes)).
Notation ex_op := (engine_op (W := Z * list bytes) (P := script PayloadAttributes)).
Definition ex_run_op : ex_op -> ex_queue_t -> ex_queue_t :=
  run_op ex_keccak ex_rlp_decode ex_decode_tx ex_cfg (ex_sync false).
Definition ex_engine_run : list ex_queue_t -> Prop :=
  engine_run ex_keccak ex_rlp_decode ex_decode_tx ex_cfg (ex_sync false).
Definition ex_step : ex_op := OpStep ex_l1_only7.

Definition ex_start_queue (attrs : PayloadAttributes) : ex_queue_t :=
  (eq_Reset ex_cfg (ex_sync false) ex_l1_only7 (NewEngineQueue (0, []) (mkScript ex_l1_7 [Ok attrs]))).1.

(** The forkchoice update, the attributes, and block 6 becomes safe. *)
Definition ex_q1 := ex_run_op ex_step (ex_start_queue ex_match6).
Definition ex_q2 := ex_run_op ex_step ex_q1.
Definition ex_q3 := ex_run_op ex_step ex_q2.

Example ex_heads_move :
  map (fun q => (l2_Number (eq_finalized q), l2_Number (eq_safeHead q), l2_Number (eq_unsafeHead q)))
    [ex_start_queue ex_match6; ex_q1; ex_q2; ex_q3; ex_run_op (OpFinalize ex_l1_7) ex_q3]
  = [(5, 5, 10); (5, 5, 10); (5, 5, 10); (5, 6, 10); (6, 6, 10)].
Proof. vm_compute. reflexivity. Qed.

Lemma ex_start_run attrs : ex_engine_run [ex_start_queue attrs].
Proof.
  apply (RunReset _ _ _ _ _ ex_l1_only7 (NewEngineQueue (0, []) (mkScript ex_l1_7 [Ok attrs]))).
  - apply ex_l1_only7_laws.
  - unfold ex_start_queue. rewrite (surjective_pairing (eq_Reset _ _ _ _)). f_equal.
  - intros H. apply (f_equal l2_Number) in H. vm_compute in H. discriminate.
Qed.

Lemma ex_run_step q qs : ex_engine_run (q :: qs) -> ex_engine_run (ex_run_op ex_step q :: q :: qs).
Proof. intros H. by apply (RunOp _ _ _ _ _ ex_step). Qed.

Lemma ex_q3_run : ex_engine_run [ex_q3; ex_q2; ex_q1; ex_start_queue ex_match6].
Proof. apply ex_run_step, ex_run_step, ex_run_step, ex_start_run. Qed.

Lemma engine_heads_ordered_witness :
  l2_Number (eq_finalized ex_q3) <= l2_Number (eq_safeHead ex_q3) <= l2_Number (eq_unsafeHead ex_q3).
Proof.
  exact (proj1 (engine_heads_ordered ex_keccak ex_rlp_decode ex_decode_tx ex_cfg (ex_sync false) ex_num ex_is_block
    ex_engine_laws eq_refl _ _ ex_q3_run)).
Defined.

Lemma safe_head_advances_witness : l2_Number (eq_safeHead ex_q3) = l2_Number (eq_safeHead ex_q2) + 1.
Proof.
  destruct (safe_head_advances ex_keccak ex_rlp_decode ex_decode_tx ex_cfg (ex_sync false) ex_num ex_is_block
    ex_engine_laws eq_refl ex_q2 _ ex_step (ex_run_step _ _ (ex_run_step _ _ (ex_start_run ex_match6))) I)
    as [H|(attrs & p & _ & _ & _ & _ & H & _)].
  - apply (f_equal l2_Number) in H. vm_compute in H. discriminate.
  - exact H.
Defined.

(** The L1 chain of the run, which is the finalized one. *)
Definition ex_final (n : Z) : L1BlockRef :=
  {| l1_Hash := hash_of n; l1_Number := n; l1_ParentHash := hash_of (n - 1); l1_Time := 103 |}.

Lemma ex_walked : walked ex_final [ex_run_op (OpFinalize ex_l1_7) ex_q3; ex_q3; ex_q2; ex_q1; ex_start_queue ex_match6].
Proof.
  assert (H : Forall (fun p => eq_origin p = ex_l1_7) [ex_run_op (OpFinalize ex_l1_7) ex_q3; ex_q3; ex_q2; ex_q1; ex_start_queue ex_match6])
    by (repeat constructor).
  split.
  - intros p Hp. rewrite Forall_forall in H. by rewrite (H p Hp).
  - induction H as [|p qs Hp Hqs IH]; constructor; [done|]. eapply Forall_impl; [exact Hqs|]. intros x Hx. cbn beta in *. rewrite Hp, Hx. lia.
Qed.

Lemma finalized_was_derived_witness :
  exists p, p ∈ [ex_run_op (OpFinalize ex_l1_7) ex_q3; ex_q3; ex_q2; ex_q1; ex_start_queue ex_match6] /\
    l2_Number (eq_safeHead p) = 6 /\ l1_Number (eq_origin p) <= 7 /\
    l1_Hash (eq_origin p) = l1_Hash (ex_final (l1_Number (eq_origin p))).
Proof.
  destruct (finalized_was_derived ex_keccak ex_rlp_decode ex_decode_tx ex_cfg (ex_sync false) ex_num ex_is_block
    ex_engine_laws eq_refl ex_q3 _ (OpFinalize ex_l1_7) ex_final ex_final ex_q3_run I ex_walked eq_refl)
    as [H|(_ & p & Hp & Hf & Ho & Hh)].
  - done.
  - apply (f_equal l2_Number) in H. vm_compute in H. discriminate.
  - exists p. split; [exact Hp|]. change (eq_finalized _) with (eq_finalized (ex_run_op (OpFinalize ex_l1_7) ex_q3)) in Hf.
    assert (H2 : l1_Number (eq_finalizedL1 (ex_run_op (OpFinalize ex_l1_7) ex_q3)) = 7) by (vm_compute; reflexivity).
    change (eq_finalizedL1 _) with (eq_finalizedL1 (ex_run_op (OpFinalize ex_l1_7) ex_q3)) in Ho. rewrite H2 in Ho.
    split; [|split; [exact Ho|exact Hh]]. rewrite <- Hf. vm_compute. reflexivity.
Defined.

(** Block 6 does not carry the attributes: it is replaced. *)
Definition ex_other_queue : ex_queue_t := ex_run_op ex_step (ex_run_op ex_step (ex_start_queue ex_other6)).

Lemma insertion_outcomes_witness :
  exists q' r, forceNextSafeAttributes ex_keccak ex_rlp_decode ex_decode_tx ex_cfg ex_other_queue = (q', r) /\
    force_outcome ex_keccak ex_rlp_decode ex_decode_tx ex_cfg ex_num ex_other_queue ex_other6 q' r.
Proof.
  destruct (forceNextSafeAttributes ex_keccak ex_rlp_decode ex_decode_tx ex_cfg ex_other_queue) as [q' r] eqn:Ef.
  exists q', r. split; [reflexivity|].
  apply (insertion_outcomes ex_keccak ex_rlp_decode ex_decode_tx ex_cfg ex_num ex_is_block ex_engine_laws
    ex_other_queue q' ex_other6 (eq_safeHead ex_other_queue) r); [vm_compute; reflexivity|exact Ef].
Defined.
