(* ===== verification/Pipeline.v ===== *)
(** * The derivation pipeline

    [op-node/rollup/derive/pipeline.go]: the stages put together, reset one
    after the other from the engine queue up, and stepped by their last
    stage, the engine queue. *)

From S2P Require Import Prelude Eth Frame Channel Stages ChannelBank Solabi SystemConfig Deposits Espresso L1Info Attributes L1Stages Batches.
From S2P Require Import BitCodec SpanBatchTxs SpanBatch BatchQueue ChannelInReader Heap PayloadsQueue EngineUpdate SyncStart EngineQueue EngineSafety.

(** Runs an operation on a part of a state. *)
Definition focus {S T A} (get : T -> S) (put : S -> T -> T) (m : stM S A) : stM T A := fun t =>
  let '(s, r) := m (get t) in (put s t, r).

Section Pipeline.
Context `{E : EspressoLib} {AccessList : Type} `{T : TxLib (AccessList := AccessList)} `{C : !ChannelLib}.
Variable Keccak256Hash : bytes -> Hash.
Variable rlp_encode_jst : option L2BatchJustification -> res bytes.
Variable rlp_decode_jst : bytes -> res L2BatchJustification.
Variable encode_deposit : DepositTx -> res bytes.
Variable decode_tx : bytes -> res (Z * bytes).
Context {Tx : Type}.
Variable tx_To : Tx -> option Address.
Variable tx_Data : Tx -> bytes.
Variable Sender : Tx -> res Address.
Context {W : Type} `{!Engine W}.
Variable cfg : Config.
Variable syncCfg : SyncConfig.

(** What the nodes behind the RPC clients of the stages answer during a call. *)
Record Environment := mkEnvironment {
  env_client : L1Client (Tx := Tx);
  env_provider : L1Provider;
  env_chain : L1Chain;
  env_fetchers : Attributes.Fetchers;
  env_l2 : SafeBlockFetcher;
}.

(** The stages, from the L1 traversal to the engine queue. *)
Definition retrieval : Type := L1Retrieval L1Traversal.
Definition bank : Type := ChannelBank (FrameQueue retrieval).
Definition batch_queue : Type := BatchQueue (ChannelInReader bank).
Definition queue : Type := EngineQueue W (AttributesQueue batch_queue).

Definition on_attributes (m : stM (AttributesQueue batch_queue) unit) : stM queue unit := focus eq_prev set_prev m.
Definition on_batches (m : stM batch_queue unit) : stM queue unit :=
  on_attributes (focus aq_prev (fun p aq => mkAttributesQueue p (aq_batch aq)) m).
Definition on_reader (m : stM (ChannelInReader bank) unit) : stM queue unit := on_batches (focus bq_prev with_prev m).
Definition on_bank (m : stM bank unit) : stM queue unit :=
  on_reader (focus cr_prev (fun p cr => mkReader p (nextBatchFn cr)) m).
Definition on_frames (m : stM (FrameQueue retrieval) unit) : stM queue unit :=
  on_bank (focus cb_prev (fun p cb => mkChannelBank (channels cb) (channelQueue cb) p) m).
Definition on_retrieval (m : stM retrieval unit) : stM queue unit :=
  on_frames (focus fq_prev (fun p fq => mkFrameQueue p (fq_frames fq)) m).
Definition on_traversal (m : stM L1Traversal unit) : stM queue unit :=
  on_retrieval (focus lr_prev (fun p lr => mkL1Retrieval p (lr_datas lr)) m).

Record DerivationPipeline := mkPipeline {
  dp_resetting : nat;
  dp_eng : queue;
}.

(** The stages as they are reset: the engine queue first, then up from the L1
    traversal. *)
Definition stages_count : nat := 8.

(** [NewDerivationPipeline] *)
Definition NewDerivationPipeline (engine : W) : DerivationPipeline :=
  let traversal := mkL1Traversal zero_L1BlockRef false zero_SystemConfig in
  let frames := mkFrameQueue (mkL1Retrieval traversal None) [] in
  let reader := NewChannelInReader (NewChannelBank frames) in
  {| dp_resetting := 0; dp_eng := NewEngineQueue engine (mkAttributesQueue (NewBatchQueue reader) None) |}.

Section Step.
Variable env : Environment.

#[local] Instance retrieval_datas : NextDataProvider retrieval := L1Retrieval_datas cfg tx_To tx_Data Sender (env_client env).
#[local] Instance frame_queue_frames : NextFrameProvider (FrameQueue retrieval) := FrameQueue_frames.
#[local] Instance bank_datas : NextDataProvider bank := ChannelBank_data cfg.
#[local] Instance reader_batches : NextBatchProvider (ChannelInReader bank) Batch := ChannelInReader_batches cfg.
#[local] Instance batch_queue_batches : SafeBatchProvider batch_queue SingularBatch :=
  BatchQueue_batches Keccak256Hash rlp_decode_jst decode_tx cfg (env_provider env) (env_l2 env).
#[local] Instance attributes_provider : AttributesProvider (AttributesQueue batch_queue) := {
  ap_origin := aq_Origin;
  ap_NextAttributes := NextAttributes Keccak256Hash rlp_encode_jst encode_deposit cfg (env_fetchers env);
}.

(** [dp.stages[i].Reset(ctx, base, baseCfg)] *)
Definition reset_stage (i : nat) (base : L1BlockRef) (baseCfg : SystemConfig) : stM queue unit :=
  match i with
  | 0%nat => eq_Reset cfg syncCfg (env_chain env)
  | 1%nat => on_traversal (tr_Reset base baseCfg)
  | 2%nat => on_retrieval (lr_Reset cfg tx_To tx_Data Sender (env_client env) base baseCfg)
  | 3%nat => on_frames fq_Reset
  | 4%nat => on_bank cb_Reset
  | 5%nat => on_reader cr_Reset
  | 6%nat => on_batches (bq_Reset base)
  | _ => on_attributes aq_Reset
  end.

Definition dp_Step : stM DerivationPipeline unit := fun dp =>
  let i := dp_resetting dp in
  if (i <? stages_count)%nat then
    match reset_stage i (eq_origin (dp_eng dp)) (eq_sysCfg (dp_eng dp)) (dp_eng dp) with
    | (q, Err EOF) => (mkPipeline (S i) q, Ok tt)
    | (q, r) => (mkPipeline i q, map_err (Wrapf "stage failed resetting") r)
    end
  else
    match eq_Step Keccak256Hash rlp_decode_jst decode_tx cfg syncCfg (env_chain env) (dp_eng dp) with
    | (q, Err EOF) =>
        let '(q, r) := on_traversal (AdvanceL1Block Keccak256Hash cfg (env_client env)) q in (mkPipeline i q, r)
    | (q, Err e) =>
        (mkPipeline i q, Err (if errors_Is e EngineP2PSyncing then e else wrap_err (Wrapf "engine stage failed") e))
    | (q, Ok _) => (mkPipeline i q, Ok tt)
    end.
End Step.

Definition EngineReady (dp : DerivationPipeline) : bool := (0 <? dp_resetting dp)%nat.
Definition dp_Reset (dp : DerivationPipeline) : DerivationPipeline := mkPipeline 0 (dp_eng dp).
Definition dp_Origin (dp : DerivationPipeline) : L1BlockRef := eq_origin (dp_eng dp).
Definition dp_Finalize (l1Origin : L1BlockRef) (dp : DerivationPipeline) : DerivationPipeline :=
  mkPipeline (dp_resetting dp) (Finalize l1Origin (dp_eng dp)).
Definition dp_AddUnsafePayload (p : option ExecutionPayload) : stM DerivationPipeline unit :=
  focus dp_eng (fun q dp => mkPipeline (dp_resetting dp) q) (AddUnsafePayload p).

(** ** Resetting *)

(** Steps, until one fails; the nodes may answer differently at each. *)
Fixpoint dp_steps (envs : list Environment) : stM DerivationPipeline unit := fun dp =>
  match envs with
  | [] => (dp, Ok tt)
  | env :: envs =>
      match dp_Step env dp with
      | (dp, Err e) => (dp, Err e)
      | (dp, Ok _) => dp_steps envs dp
      end
  end.

(** The stages start over at an L1 block with a configuration: nothing is left
    of what they had read, and the retrieval opens the data of that block. *)
Record stages_at (client : L1Client (Tx := Tx)) (base : L1BlockRef) (c : SystemConfig)
    (aq : AttributesQueue batch_queue) : Prop := {
  sa_attributes : aq_batch aq = None;
  sa_batches : aq_prev aq = mkBatchQueue (bq_prev (aq_prev aq)) base [base] [] [];
  sa_reader : nextBatchFn (bq_prev (aq_prev aq)) = None;
  sa_bank : channels (cr_prev (bq_prev (aq_prev aq))) = ∅ /\ channelQueue (cr_prev (bq_prev (aq_prev aq))) = [];
  sa_frames : fq_frames (cb_prev (cr_prev (bq_prev (aq_prev aq)))) = [];
  sa_retrieval : fq_prev (cb_prev (cr_prev (bq_prev (aq_prev aq)))) =
    mkL1Retrieval (mkL1Traversal base false c)
      (Some (NewDataSource cfg tx_To tx_Data Sender client (L1BlockRef_ID base) (BatcherAddr c)));
}.

Lemma eq_Reset_not_ok l1 q q' u : eq_Reset cfg syncCfg l1 q <> ((q' : queue), Ok u).
Proof. unfold eq_Reset. destruct (call_engine _ q) as [q1 [[[r o] c]|e]]; discriminate. Qed.

(** The state of the stages after their resets. *)
Definition restarted (client : L1Client (Tx := Tx)) (base : L1BlockRef) (c : SystemConfig) : AttributesQueue batch_queue :=
  let source := NewDataSource cfg tx_To tx_Data Sender client (L1BlockRef_ID base) (BatcherAddr c) in
  let frames := mkFrameQueue (mkL1Retrieval (mkL1Traversal base false c) (Some source)) [] in
  mkAttributesQueue (mkBatchQueue (mkReader (mkChannelBank ∅ [] frames) None) base [base] [] []) None.

Lemma reset_stages env1 env2 env3 env4 env5 env6 env7 (q : queue) :
  dp_steps [env1; env2; env3; env4; env5; env6; env7] (mkPipeline 1 q) =
    (mkPipeline stages_count (set_prev (restarted (env_client env2) (eq_origin q) (eq_sysCfg q)) q), Ok tt).
Proof.
  destruct q as [f sf u t bo bi bs nf fl tf sa up fd w aq o c]. destruct aq as [[[[chs cq [[[tb td tc] ds] fs]] r] bo' bl bb bsp] b].
  reflexivity.
Qed.

(** Once the engine queue is reset, seven more steps reset every other stage,
    whatever the nodes answer: the pipeline starts over at the L1 block and
    with the configuration the engine queue found, and its heads are not
    touched again. *)
Lemma reset_completes (dp dp1 : DerivationPipeline) (env0 env1 env2 env3 env4 env5 env6 env7 : Environment)
  (Hstart : dp_resetting dp = 0%nat) (Hengine : dp_Step env0 dp = (dp1, Ok tt)) :
  exists aq, dp_steps [env1; env2; env3; env4; env5; env6; env7] dp1 =
      (mkPipeline stages_count (set_prev aq (dp_eng dp1)), Ok tt) /\
    stages_at (env_client env2) (dp_Origin dp1) (eq_sysCfg (dp_eng dp1)) aq /\
    Origin (lr_prev (fq_prev (cb_prev (cr_prev (bq_prev (aq_prev aq)))))) = dp_Origin dp1.
Proof.
  unfold dp_Step in Hengine. rewrite Hstart in Hengine. cbn [Nat.ltb Nat.leb stages_count reset_stage] in Hengine.
  destruct (eq_Reset _ _ _ _) as [q [u|e]] eqn:Er; [by apply eq_Reset_not_ok in Er|].
  assert (Hdp : dp1 = mkPipeline 1 q) by (destruct e; by injection Hengine).
  subst dp1. cbn [dp_eng dp_Origin]. clear Hengine Er.
  rewrite (reset_stages env1 env2 env3 env4 env5 env6 env7 q).
  eexists. split; [reflexivity|]. split; [by split|done].
Qed.
End Pipeline.

(** ** Witness *)

#[local] Existing Instance ex_lib.
#[local] Existing Instance toy_lib.
#[local] Existing Instance toy_channels.
#[local] Existing Instance ex_engine_api.

Definition ex_env : Environment (Tx := ex_tx) :=
  {| env_client := ex_client; env_provider := ex_provider ex_l1_chain; env_chain := ex_l1_only7;
     env_fetchers := ex_fetchers; env_l2 := ex_safe_fetcher |}.

Definition ex_to (tx : ex_tx) : option Address := tx.1.1.
Definition ex_data (tx : ex_tx) : bytes := tx.1.2.
Definition ex_sender (tx : ex_tx) : res Address := Ok tx.2.

Notation ex_dp_step := (dp_Step ex_keccak ex_rlp_encode ex_rlp_decode ex_encode_deposit ex_decode_tx
  ex_to ex_data ex_sender ex_cfg (ex_sync false) ex_env).
Notation ex_dp_steps := (dp_steps ex_keccak ex_rlp_encode ex_rlp_decode ex_encode_deposit ex_decode_tx
  ex_to ex_data ex_sender ex_cfg (ex_sync false)).

Definition ex_dp0 : DerivationPipeline (W := Z * list bytes) := NewDerivationPipeline (0, []).
Definition ex_dp1 := (ex_dp_step ex_dp0).1.

Lemma reset_completes_witness :
  exists dp, ex_dp_steps (replicate 7 ex_env) ex_dp1 = (dp, Ok tt) /\ dp_resetting dp = 8%nat /\ dp_Origin ex_dp1 = ex_l1_7.
Proof.
  assert (H1 : ex_dp_step ex_dp0 = (ex_dp1, Ok tt)).
  { unfold ex_dp1. rewrite (surjective_pairing (ex_dp_step ex_dp0)) at 1. f_equal. }
  destruct (reset_completes ex_keccak ex_rlp_encode ex_rlp_decode ex_encode_deposit ex_decode_tx ex_to ex_data ex_sender
    ex_cfg (ex_sync false) ex_dp0 ex_dp1 ex_env ex_env ex_env ex_env ex_env ex_env ex_env ex_env eq_refl H1)
    as (aq & Hs & _).
  eexists. split; [exact Hs|]. split; [reflexivity|]. vm_compute. reflexivity.
Defined.
