(* ===== verification/Sequencer.v ===== *)
(** * The sequencer

    [op-node/rollup/driver/sequencer.go] with what it is given in
    [driver.go]: the L1 origin selector of [origin_selector.go] on top of the
    confirmation depth of [conf_depth.go]. In Espresso mode the sequencer
    polls the Espresso query service for the blocks of the time window of the
    next L2 block and seals the window when a later block exists; in legacy
    mode it lets the engine fill the block. *)

From S2P Require Import Prelude Eth Espresso L1Info EngineUpdate Deposits Attributes Batches SyncStart EngineQueue Pipeline.

(** ** Time

    A [time.Time] is a number of nanoseconds since the Unix epoch, a
    [time.Duration] an [int64] of nanoseconds; [Sub] saturates. *)
Definition time_Second : Z := 1000000000.
Definition sealingDuration : Z := 50 * 1000000.

(** [time.Second * time.Duration(n)] for a [uint64]. *)
Definition seconds (n : Z) : Z := i64 (time_Second * i64 n).

(** [t.Sub(u)] *)
Definition time_Sub (t u : Z) : Z := Z.max (- 2 ^ 63) (Z.min (2 ^ 63 - 1) (t - u)).

(** [time.Unix(int64(sec), 0)] *)
Definition time_Unix (sec : Z) : Z := i64 sec * time_Second.

(** ** L1 as the sequencer sees it *)

(** [confDepth.L1BlockRefByNumber]: blocks too close to the L1 head are
    hidden; before a head is known nothing is. *)
Definition confDepth_byNumber (l1Head : L1BlockRef) (depth : Z) (fetcher : Z -> res L1BlockRef) (num : Z) : res L1BlockRef :=
  if bool_decide (l1Head = zero_L1BlockRef) then fetcher num
  else if (num =? 0) || (depth =? 0) || (num +₆₄ depth <=? l1_Number l1Head) then fetcher num
  else Err NotFound.

(** [NewConfDepth]: fetching by hash is passed on. *)
Definition NewConfDepth (depth : Z) (l1Head : L1BlockRef) (fetcher : L1Chain) : L1Chain :=
  {| lc_L1BlockRefByNumber := confDepth_byNumber l1Head depth (lc_L1BlockRefByNumber fetcher);
     lc_L1BlockRefByHash := lc_L1BlockRefByHash fetcher |}.

(** [L1OriginSelector.FindL1Origin] *)
Definition FindL1Origin (cfg : Config) (los : L1Chain) (l2Head : L2BlockRef) : res L1BlockRef :=
  currentOrigin ← lc_L1BlockRefByHash los (id_Hash (l2_L1Origin l2Head));
  let pastSeqDrift := l1_Time currentOrigin +₆₄ MaxSequencerDrift cfg <? l2_Time l2Head +₆₄ BlockTime cfg in
  match lc_L1BlockRefByNumber los (l1_Number currentOrigin +₆₄ 1) with
  | Err e =>
      if pastSeqDrift then
        Err (wrap_err (Wrapf "cannot build next L2 block past current L1 origin by more than sequencer time drift, and failed to find next L1 origin") e)
      else Ok currentOrigin
  | Ok nextOrigin =>
      if l1_Time nextOrigin <=? l2_Time l2Head +₆₄ BlockTime cfg then Ok nextOrigin else Ok currentOrigin
  end.

(** ** What the sequencer is built on *)

(** [derive.ResettableEngineControl], over the state [C] behind it. *)
Class EngineControl (C : Type) := {
  ec_UnsafeL2Head : C -> L2BlockRef;
  ec_StartPayload : L2BlockRef -> PayloadAttributes -> bool -> C -> C * insertion unit;
  ec_ConfirmPayload : C -> C * insertion ExecutionPayload;
  ec_CancelPayload : bool -> stM C unit;
  ec_BuildingPayload : C -> L2BlockRef * PayloadID * bool;
  ec_Reset : C -> C;
}.

(** The Espresso query service, a remote node with a state [Q] of its own:
    the answer to a request for a window is the last block before it (when it
    exists), the blocks in it and the first block after it (when it exists). *)
Section Query.
Context `{E : EspressoLib}.

Record WindowStartHeaders := mkWindowHeaders {
  wh_Prev : option Header;
  wh_Window : list Header;
  wh_Next : option Header;
}.

Record WindowMoreHeaders := mkMoreHeaders {
  wm_Window : list Header;
  wm_Next : option Header;
}.

Record TransactionsInBlock := mkTransactionsInBlock {
  tb_Transactions : list bytes;
  tb_Proof : NmtProof;
}.

Class QueryService (Q : Type) := {
  FetchHeadersForWindow : Z -> Z -> stM Q WindowStartHeaders;
  FetchRemainingHeadersForWindow : Z -> Z -> stM Q WindowMoreHeaders;
  FetchTransactionsInBlock : Header -> Z -> stM Q TransactionsInBlock;
}.
End Query.

(** The sentinels [errors.Is] is asked about: only their level counts. *)
Definition ErrTemporary : go_error := NewTemporaryError (Errorf "").
Definition ErrReset : go_error := NewResetError (Errorf "").
Definition ErrCritical : go_error := NewCriticalError (Errorf "").

Inductive SequencerMode := ModeEspresso | ModeLegacy | ModeUnknown.
#[export] Instance SequencerMode_eq_dec : EqDecision SequencerMode.
Proof. solve_decision. Defined.

Section Sequencer.
Context `{E : EspressoLib}.
Variable Keccak256Hash : bytes -> Hash.
Variable rlp_encode_jst : option L2BatchJustification -> res bytes.
Variable encode_deposit : DepositTx -> res bytes.
(** The zero value [espresso.NmtProof{}]. *)
Variable noProof : NmtProof.
Variable cfg : Config.
Context {C : Type} `{!EngineControl C} {Q : Type} `{!QueryService Q}.

Record InProgressBatch := mkInProgress {
  ib_onto : L2BlockRef;
  ib_jst : L2BatchJustification;
  ib_transactions : list bytes;
  ib_windowStart : Z;
  ib_windowEnd : Z;
}.

Definition complete (b : InProgressBatch) : bool := bool_decide (is_Some (jst_Next (ib_jst b))).

Record Sequencer := mkSequencer {
  sq_mode : SequencerMode;
  sq_engine : C;
  sq_espresso : Q;
  sq_nextAction : Z;
  sq_espressoBatch : option InProgressBatch;
}.

(** [NewSequencer]; the zero [time.Time] is the first instant of year 1. *)
Definition NewSequencer (engine : C) (espresso : Q) : Sequencer :=
  {| sq_mode := ModeUnknown; sq_engine := engine; sq_espresso := espresso;
     sq_nextAction := -62135596800 * time_Second; sq_espressoBatch := None |}.

Definition set_mode (m : SequencerMode) (d : Sequencer) : Sequencer :=
  mkSequencer m (sq_engine d) (sq_espresso d) (sq_nextAction d) (sq_espressoBatch d).
Definition set_engineControl (c : C) (d : Sequencer) : Sequencer :=
  mkSequencer (sq_mode d) c (sq_espresso d) (sq_nextAction d) (sq_espressoBatch d).
Definition set_queryService (q : Q) (d : Sequencer) : Sequencer :=
  mkSequencer (sq_mode d) (sq_engine d) q (sq_nextAction d) (sq_espressoBatch d).
Definition set_nextAction (t : Z) (d : Sequencer) : Sequencer :=
  mkSequencer (sq_mode d) (sq_engine d) (sq_espresso d) t (sq_espressoBatch d).
Definition set_espressoBatch (b : option InProgressBatch) (d : Sequencer) : Sequencer :=
  mkSequencer (sq_mode d) (sq_engine d) (sq_espresso d) (sq_nextAction d) b.

(** The nodes behind the sequencer, as they answer during one action: the
    fetchers of the attributes builder (whose L2 side is also [cfgFetcher])
    and L1 through the confirmation depth. *)
Record Sources := mkSources {
  src_fetchers : Attributes.Fetchers;
  src_l1 : L1Chain;
}.
Variable src : Sources.

(** *** Espresso batches *)

(** The loop of [updateEspressoBatch]. A header before the window or before
    its predecessor is only logged. *)
Fixpoint append_headers (newHeaders : list Header) (batch : InProgressBatch) (q : Q) : Q * (InProgressBatch * res unit) :=
  match newHeaders with
  | [] => (q, (batch, Ok tt))
  | header :: newHeaders =>
      if ib_windowEnd batch <=? hd_Timestamp header then
        (q, (batch, Err (NewCriticalError (Errorf "inconsistent data from Espresso query service: header in window has timestamp after window end"))))
      else
      match deref (L2ChainID cfg) with
      | Err e => (q, (batch, Err e))
      | Ok chainID =>
          match FetchTransactionsInBlock header (u64 chainID) q with
          | (q, Err e) => (q, (batch, Err e))
          | (q, Ok txs) =>
              let jst := ib_jst batch in
              append_headers newHeaders
                {| ib_onto := ib_onto batch;
                   ib_jst := {| jst_Blocks := jst_Blocks jst ++ [{| bj_Header := header; bj_Proof := tb_Proof txs |}];
                                jst_Prev := jst_Prev jst; jst_Next := jst_Next jst |};
                   ib_transactions := ib_transactions batch ++ tb_Transactions txs;
                   ib_windowStart := ib_windowStart batch; ib_windowEnd := ib_windowEnd batch |} q
          end
      end
  end.

Definition set_Next (next : option Header) (b : InProgressBatch) : InProgressBatch :=
  {| ib_onto := ib_onto b;
     ib_jst := {| jst_Blocks := jst_Blocks (ib_jst b); jst_Prev := jst_Prev (ib_jst b); jst_Next := next |};
     ib_transactions := ib_transactions b; ib_windowStart := ib_windowStart b; ib_windowEnd := ib_windowEnd b |}.

Definition nil_batch : go_error := GoPanic "nil pointer dereference".

(** What was appended before an error stays in the batch. *)
Definition updateEspressoBatch (newHeaders : list Header) (next : option Header) : stM Sequencer unit := fun d =>
  match sq_espressoBatch d with
  | None => (d, Err nil_batch)
  | Some batch =>
      match append_headers newHeaders batch (sq_espresso d) with
      | (q, (batch, Err e)) => (set_espressoBatch (Some batch) (set_queryService q d), Err e)
      | (q, (batch, Ok _)) => (set_espressoBatch (Some (set_Next next batch)) (set_queryService q d), Ok tt)
      end
  end.

Definition startBuildingEspressoBatch (l2Head : L2BlockRef) : stM Sequencer unit := fun d =>
  let windowStart := l2_Time l2Head +₆₄ BlockTime cfg in
  let windowEnd := windowStart +₆₄ BlockTime cfg in
  match FetchHeadersForWindow windowStart windowEnd (sq_espresso d) with
  | (q, Err e) => (set_queryService q d, Err e)
  | (q, Ok blocks) =>
      let batch := {| ib_onto := l2Head;
                      ib_jst := {| jst_Blocks := []; jst_Prev := wh_Prev blocks; jst_Next := None |};
                      ib_transactions := []; ib_windowStart := windowStart; ib_windowEnd := windowEnd |} in
      updateEspressoBatch (wh_Window blocks) (wh_Next blocks) (set_espressoBatch (Some batch) (set_queryService q d))
  end.

(** The batch without transactions and proofs. *)
Definition empty_batch (b : InProgressBatch) : InProgressBatch :=
  {| ib_onto := ib_onto b;
     ib_jst := {| jst_Blocks := map (fun bj => {| bj_Header := bj_Header bj; bj_Proof := noProof |}) (jst_Blocks (ib_jst b));
                  jst_Prev := jst_Prev (ib_jst b); jst_Next := jst_Next (ib_jst b) |};
     ib_transactions := []; ib_windowStart := ib_windowStart b; ib_windowEnd := ib_windowEnd b |}.

(** The first part of [sealEspressoBatch], up to the call of the engine; it
    may empty the batch, also when it fails afterwards. *)
Definition seal_attributes (batch : InProgressBatch) : InProgressBatch * res PayloadAttributes :=
  match SystemConfigByL2Hash (src_fetchers src) (l2_Hash (ib_onto batch)) with
  | Err e => (batch, Err e)
  | Ok sysCfg =>
      match (next ← deref (jst_Next (ib_jst batch));
             EspressoL1Origin cfg sysCfg (ib_onto batch) (hd_L1Head next) (lc_L1BlockRefByNumber (src_l1 src))) with
      | Err e => (batch, Err e)
      | Ok l1Origin =>
          let batch := if EspressoBatchMustBeEmpty cfg l1Origin (ib_windowStart batch) then empty_batch batch else batch in
          (batch,
           attrs ← PreparePayloadAttributes Keccak256Hash rlp_encode_jst encode_deposit cfg (src_fetchers src)
                     (ib_onto batch) (L1BlockRef_ID l1Origin) (Some (ib_jst batch));
           Ok {| pa_Timestamp := pa_Timestamp attrs; pa_PrevRandao := pa_PrevRandao attrs;
                 pa_SuggestedFeeRecipient := pa_SuggestedFeeRecipient attrs; pa_Withdrawals := pa_Withdrawals attrs;
                 pa_Transactions := pa_Transactions attrs ++ ib_transactions batch; pa_NoTxPool := true;
                 pa_Espresso := pa_Espresso attrs; pa_GasLimit := pa_GasLimit attrs |})
      end
  end.

Definition is_panic (e : go_error) : bool := match e with GoPanic _ => true | _ => false end.

Definition sealEspressoBatch : stM Sequencer (option ExecutionPayload) := fun d =>
  match sq_espressoBatch d with
  | None => (d, Err nil_batch)
  | Some batch =>
      let '(batch, r) := seal_attributes batch in
      let d := set_espressoBatch (Some batch) d in
      match r with
      | Err e => (d, Err e)
      | Ok attrs =>
          let '(c, (_, r)) := ec_StartPayload (ib_onto batch) attrs false (sq_engine d) in
          let d := set_engineControl c d in
          match r with
          | Err e => (d, Err (wrap_err (Wrapf "failed to start building on top of L2 chain") e))
          | Ok _ =>
              let '(c, (_, r)) := ec_ConfirmPayload (sq_engine d) in
              let d := set_engineControl c d in
              match r with
              | Err e =>
                  if is_panic e then (d, Err e)
                  else (set_engineControl (ec_CancelPayload true (sq_engine d)).1 d,
                        Err (Wrapf "failed to complete building block" e))
              | Ok payload => (set_espressoBatch None d, Ok (Some payload))
              end
          end
      end
  end.

Definition tryToSealEspressoBatch : stM Sequencer (option ExecutionPayload) := fun d =>
  match sq_espressoBatch d with
  | None => (d, Err nil_batch)
  | Some batch =>
      let '(d, r) :=
        if complete batch then (d, Ok tt)
        else match Last (ib_jst batch) with
             | None => (d, Err nil_batch)
             | Some last =>
                 match FetchRemainingHeadersForWindow (hd_Height last +₆₄ 1) (ib_windowEnd batch) (sq_espresso d) with
                 | (q, Err e) => (set_queryService q d, Err e)
                 | (q, Ok blocks) => updateEspressoBatch (wm_Window blocks) (wm_Next blocks) (set_queryService q d)
                 end
             end in
      match r with
      | Err e => (d, Err e)
      | Ok _ =>
          match sq_espressoBatch d with
          | Some batch => if complete batch then sealEspressoBatch d else (d, Ok None)
          | None => (d, Err nil_batch)
          end
      end
  end.

Definition cancelBuildingEspressoBatch (d : Sequencer) : Sequencer := set_espressoBatch None d.

(** *** Legacy blocks *)

Definition startBuildingLegacyBlock : stM Sequencer unit := fun d =>
  let l2Head := ec_UnsafeL2Head (sq_engine d) in
  match FindL1Origin cfg (src_l1 src) l2Head with
  | Err e => (d, Err e)
  | Ok l1Origin =>
      if negb (bool_decide (id_Hash (l2_L1Origin l2Head) = l1_ParentHash l1Origin) ||
               bool_decide (id_Hash (l2_L1Origin l2Head) = l1_Hash l1Origin)) then
        (d, Err (NewResetError (Errorf "cannot build new L2 block with L1 origin on current L2 head")))
      else
      match PreparePayloadAttributes Keccak256Hash rlp_encode_jst encode_deposit cfg (src_fetchers src)
              l2Head (L1BlockRef_ID l1Origin) None with
      | Err e => (d, Err e)
      | Ok attrs =>
          let attrs := {| pa_Timestamp := pa_Timestamp attrs; pa_PrevRandao := pa_PrevRandao attrs;
                          pa_SuggestedFeeRecipient := pa_SuggestedFeeRecipient attrs;
                          pa_Withdrawals := pa_Withdrawals attrs; pa_Transactions := pa_Transactions attrs;
                          pa_NoTxPool := l1_Time l1Origin +₆₄ MaxSequencerDrift cfg <? pa_Timestamp attrs;
                          pa_Espresso := pa_Espresso attrs; pa_GasLimit := pa_GasLimit attrs |} in
          let '(c, (_, r)) := ec_StartPayload l2Head attrs false (sq_engine d) in
          (set_engineControl c d, map_err (Wrapf "failed to start building on top of L2 chain") r)
      end
  end.

Definition completeBuildingLegacyBlock : stM Sequencer ExecutionPayload := fun d =>
  let '(c, (_, r)) := ec_ConfirmPayload (sq_engine d) in
  (set_engineControl c d, map_err (Wrapf "failed to complete building block") r).

Definition cancelBuildingLegacyBlock (d : Sequencer) : Sequencer :=
  set_engineControl (ec_CancelPayload true (sq_engine d)).1 d.

(** *** Planning *)



Definition planNextEspressoSequencerAction (now : Z) (d : Sequencer) : Z :=
  let head := ec_UnsafeL2Head (sq_engine d) in
  let delay := time_Sub (sq_nextAction d) now in
  let reorg := match sq_espressoBatch d with
               | Some b => negb (bool_decide (l2_Hash (ib_onto b) = l2_Hash head))
               | None => false
               end in
  if (0 <? delay) && negb reorg then delay else 0.

Definition planNextLegacySequencerAction (now : Z) (d : Sequencer) : Z :=
  let head := ec_UnsafeL2Head (sq_engine d) in
  let '(buildingOnto, buildingID, _) := ec_BuildingPayload (sq_engine d) in
  let delay := time_Sub (sq_nextAction d) now in
  if (0 <? delay) && bool_decide (l2_Hash buildingOnto = l2_Hash head) then delay
  else
    let blockTime := seconds (BlockTime cfg) in
    let payloadTime := time_Unix (l2_Time head +₆₄ BlockTime cfg) in
    let remainingTime := time_Sub payloadTime now in
    if negb (bool_decide (buildingID = noPayloadID)) && bool_decide (l2_Hash buildingOnto = l2_Hash head) then
      if remainingTime <? sealingDuration then 0 else i64 (remainingTime - sealingDuration)
    else
      if blockTime <? remainingTime then i64 (remainingTime - blockTime) else 0.

Definition PlanNextSequencerAction (now : Z) (d : Sequencer) : Z :=
  let '(_, _, safe) := ec_BuildingPayload (sq_engine d) in
  if safe : bool then seconds (BlockTime cfg)
  else match sq_mode d with
       | ModeEspresso => planNextEspressoSequencerAction now d
       | ModeLegacy => planNextLegacySequencerAction now d
       | ModeUnknown => 0
       end.

Definition BuildingOnto (d : Sequencer) : L2BlockRef :=
  match sq_espressoBatch d with
  | Some b => ib_onto b
  | None => let '(ref, _, _) := ec_BuildingPayload (sq_engine d) in ref
  end.

(** *** Starting, completing, cancelling *)

Definition detectMode : stM Sequencer unit := fun d =>
  let head := ec_UnsafeL2Head (sq_engine d) in
  match SystemConfigByL2Hash (src_fetchers src) (l2_Hash head) with
  | Err e => (d, Err e)
  | Ok sysCfg => (set_mode (if Espresso sysCfg then ModeEspresso else ModeLegacy) d, Ok tt)
  end.

(** The function calls itself once the mode is known; a second call never
    finds it unknown, so that a depth of one is enough. *)
Fixpoint start_building (depth : nat) : stM Sequencer unit := fun d =>
  match sq_mode d with
  | ModeEspresso => startBuildingEspressoBatch (ec_UnsafeL2Head (sq_engine d)) d
  | ModeLegacy => startBuildingLegacyBlock d
  | ModeUnknown =>
      match detectMode d with
      | (d, Err e) => (d, Err e)
      | (d, Ok _) => match depth with O => (d, Err (GoPanic "stack overflow")) | S depth => start_building depth d end
      end
  end.

Definition StartBuildingBlock : stM Sequencer unit := start_building 1.

Definition CompleteBuildingBlock : stM Sequencer (option ExecutionPayload) := fun d =>
  match sq_mode d with
  | ModeEspresso => tryToSealEspressoBatch d
  | ModeLegacy => let '(d, r) := completeBuildingLegacyBlock d in (d, Some <$> r)
  | ModeUnknown => (d, Err (Errorf "not building a block"))
  end.

Definition CancelBuildingBlock (d : Sequencer) : Sequencer :=
  match sq_mode d with
  | ModeEspresso => cancelBuildingEspressoBatch d
  | ModeLegacy => cancelBuildingLegacyBlock d
  | ModeUnknown => d
  end.

(** *** Running the next action

    [now] is the time of the one call of [timeNow] an action makes. *)

Variable now : Z.

(** A panic is no error to handle. *)
Definition handleNonEngineError (e : go_error) (d : Sequencer) : Sequencer * res unit :=
  if is_panic e then (d, Err e)
  else if errors_Is e ErrCritical then (d, Err e)
  else if errors_Is e ErrTemporary then (set_nextAction (now + time_Second) d, Ok tt)
  else (set_nextAction (now + time_Second) d, Ok tt).

Definition handlePossibleEngineError (e : go_error) (d : Sequencer) : Sequencer * res unit :=
  if is_panic e then (d, Err e)
  else if errors_Is e ErrCritical then (d, Err e)
  else if errors_Is e ErrReset then
    let d := set_nextAction (now + seconds (BlockTime cfg)) d in
    (set_engineControl (ec_Reset (sq_engine d)) d, Ok tt)
  else handleNonEngineError e d.

(** [return nil, handle(err)] *)
Definition no_payload (x : Sequencer * res unit) : Sequencer * res (option ExecutionPayload) :=
  let '(d, r) := x in (d, (fun _ => None) <$> r).

Definition buildEspressoBatch : stM Sequencer (option ExecutionPayload) := fun d =>
  let head := ec_UnsafeL2Head (sq_engine d) in
  let d := match sq_espressoBatch d with
           | Some b => if bool_decide (l2_Hash (ib_onto b) = l2_Hash head) then d else set_espressoBatch None d
           | None => d
           end in
  let '(d, r) := match sq_espressoBatch d with
                 | Some _ => (d, Ok tt)
                 | None => startBuildingEspressoBatch head d
                 end in
  match r with
  | Err e => no_payload (handleNonEngineError e d)
  | Ok _ =>
      match tryToSealEspressoBatch d with
      | (d, Err e) => no_payload (handlePossibleEngineError e d)
      | (d, Ok None) => (set_nextAction (now + time_Second) d, Ok None)
      | (d, Ok (Some block)) => (d, Ok (Some block))
      end
  end.

Definition buildLegacyBlock (building : bool) : stM Sequencer (option ExecutionPayload) := fun d =>
  if building then
    match completeBuildingLegacyBlock d with
    | (d, Ok payload) => (d, Ok (Some payload))
    | (d, Err e) =>
        if is_panic e then (d, Err e)
        else if errors_Is e ErrCritical then (d, Err e)
        else if errors_Is e ErrReset then
          let d := cancelBuildingLegacyBlock (set_nextAction (now + seconds (BlockTime cfg)) d) in
          (set_engineControl (ec_Reset (sq_engine d)) d, Ok None)
        else if errors_Is e ErrTemporary then (set_nextAction (now + time_Second) d, Ok None)
        else (cancelBuildingLegacyBlock (set_nextAction (now + time_Second) d), Ok None)
    end
  else
    match startBuildingLegacyBlock d with
    | (d, Err e) => no_payload (handlePossibleEngineError e d)
    | (d, Ok _) => (d, Ok None)
    end.

Definition RunNextSequencerAction : stM Sequencer (option ExecutionPayload) := fun d =>
  let '(_, buildingID, safe) := ec_BuildingPayload (sq_engine d) in
  if negb (bool_decide (buildingID = noPayloadID)) && safe then
    (set_nextAction (now + seconds (BlockTime cfg)) d, Ok None)
  else
    match sq_mode d with
    | ModeEspresso => buildEspressoBatch d
    | ModeLegacy => buildLegacyBlock (negb (bool_decide (buildingID = noPayloadID))) d
    | ModeUnknown =>
        match detectMode d with
        | (d, Err e) => no_payload (handleNonEngineError e d)
        | (d, Ok _) => (d, Ok None)
        end
    end.
End Sequencer.
