(* ===== verification/Driver.v ===== *)
(** * The driver

    [op-node/rollup/driver/state.go], [l1_state.go], [driver.go] and
    [metered_engine.go]: the event loop that owns the derivation pipeline and
    the sequencer. One iteration of the loop is a function of the event that
    [select] picks. The sequencer builds blocks with the pipeline of the
    driver: there is one pipeline, and it lives in the sequencer's state. *)

From S2P Require Import Prelude Eth Espresso L1Info EngineUpdate Solabi SystemConfig Deposits Frame SpanBatchTxs ChannelInReader L1Stages Attributes Batches SyncStart EngineQueue Pipeline Sequencer.

(** ** L1 as the driver knows it: [l1_state.go] *)

Record L1State := mkL1State {
  ls_l1Head : L1BlockRef;
  ls_l1Safe : L1BlockRef;
  ls_l1Finalized : L1BlockRef;
}.

Definition NewL1State : L1State := mkL1State zero_L1BlockRef zero_L1BlockRef zero_L1BlockRef.
(** Comparing the new head with the old one only chooses a log message. *)
Definition HandleNewL1HeadBlock (head : L1BlockRef) (s : L1State) : L1State := mkL1State head (ls_l1Safe s) (ls_l1Finalized s).
Definition HandleNewL1SafeBlock (safe : L1BlockRef) (s : L1State) : L1State := mkL1State (ls_l1Head s) safe (ls_l1Finalized s).
Definition HandleNewL1FinalizedBlock (finalized : L1BlockRef) (s : L1State) : L1State := mkL1State (ls_l1Head s) (ls_l1Safe s) finalized.

(** ** The interface [DerivationPipeline] of [driver.go]

    [V] is what the nodes behind the pipeline answer during one step. *)
Class Derivation (C V : Type) := {
  der_engine :: EngineControl C;
  der_Step : V -> stM C unit;
  der_AddUnsafePayload : option ExecutionPayload -> stM C unit;
  der_UnsafeL2SyncTarget : C -> res L2BlockRef;
  der_Finalize : L1BlockRef -> C -> C;
  der_FinalizedL1 : C -> L1BlockRef;
  der_Finalized : C -> L2BlockRef;
  der_SafeL2Head : C -> L2BlockRef;
  der_Origin : C -> L1BlockRef;
  der_EngineReady : C -> bool;
  der_EngineSyncTarget : C -> L2BlockRef;
}.

(** [derive.DerivationPipeline] is one, with the engine calls passed on to the
    engine queue; [MeteredEngine] adds metrics only. *)
Section Instance_.
Context `{EL : EspressoLib} {AccessList : Type} `{T : TxLib (AccessList := AccessList)} `{CL : !ChannelLib}.
Variable Keccak256Hash : bytes -> Hash.
Variable rlp_encode_jst : option L2BatchJustification -> res bytes.
Variable rlp_decode_jst : bytes -> res L2BatchJustification.
Variable encode_deposit : DepositTx -> res bytes.
Variable decode_tx : bytes -> res (Z * bytes).
Context {Tx : Type}.
Variable tx_To : Tx -> option Address.
Variable tx_Data : Tx -> bytes.
Variable Sender : Tx -> res Address.
Context {W : Type} `{!Engine W}.
Variable cfg : Config.
Variable syncCfg : SyncConfig.

#[local] Notation pipeline := (DerivationPipeline (W := W)).

(** A method of the engine queue, called on the pipeline. *)
Definition on_eng {A} (m : queue -> queue * A) (dp : pipeline) : pipeline * A :=
  let '(q, r) := m (dp_eng dp) in (mkPipeline (dp_resetting dp) q, r).

Definition Pipeline_EngineControl : EngineControl pipeline := {|
  ec_UnsafeL2Head := fun dp => eq_unsafeHead (dp_eng dp);
  ec_StartPayload := fun parent attrs updateSafe => on_eng (eq_StartPayload parent attrs updateSafe);
  ec_ConfirmPayload := on_eng (eq_ConfirmPayload Keccak256Hash rlp_decode_jst decode_tx cfg);
  ec_CancelPayload := fun force => on_eng (eq_CancelPayload force);
  ec_BuildingPayload := fun dp => BuildingPayload (dp_eng dp);
  ec_Reset := dp_Reset;
|}.

Definition Pipeline_Derivation : Derivation pipeline (Environment (Tx := Tx)) := {|
  der_engine := Pipeline_EngineControl;
  der_Step := dp_Step Keccak256Hash rlp_encode_jst rlp_decode_jst encode_deposit decode_tx tx_To tx_Data Sender cfg syncCfg;
  der_AddUnsafePayload := dp_AddUnsafePayload;
  der_UnsafeL2SyncTarget := fun dp => UnsafeL2SyncTarget Keccak256Hash rlp_decode_jst decode_tx cfg (dp_eng dp);
  der_Finalize := dp_Finalize;
  der_FinalizedL1 := fun dp => eq_finalizedL1 (dp_eng dp);
  der_Finalized := fun dp => eq_finalized (dp_eng dp);
  der_SafeL2Head := fun dp => eq_safeHead (dp_eng dp);
  der_Origin := dp_Origin;
  der_EngineReady := EngineReady;
  der_EngineSyncTarget := fun dp => eq_engineSyncTarget (dp_eng dp);
|}.
End Instance_.

(** ** The driver *)

Section Driver.
Context `{EL : EspressoLib}.
Variable Keccak256Hash : bytes -> Hash.
Variable rlp_encode_jst : option L2BatchJustification -> res bytes.
Variable encode_deposit : DepositTx -> res bytes.
Variable noProof : NmtProof.
Variable cfg : Config.
Context {C V : Type} `{D : !Derivation C V} {Q : Type} `{!QueryService Q}.

#[local] Notation sequencer := (Sequencer (C := C) (Q := Q)).

(** [Config] of [config.go]; [SequencerStopped] is a field of the driver below
    because the loop changes it. *)
Record DriverConfig := mkDriverConfig {
  VerifierConfDepth : Z;
  SequencerConfDepth : Z;
  SequencerEnabled : bool;
  SequencerMaxSafeLag : Z;
}.
Variable driverConfig : DriverConfig.

(** The state of the driver and the local variables of [eventLoop]: a timer
    channel that is not nil is [Some] of the delay it was set to, [stepReqCh]
    holds at most one request. *)
Record Driver := mkDriver {
  dv_l1State : L1State;
  dv_sequencer : sequencer;
  dv_SequencerStopped : bool;
  dv_stepReq : bool;
  dv_delayedStepReq : bool;
  dv_stepAttempts : Z;
  dv_sequencerCh : option Z;
  dv_lastUnsafeL2 : L2BlockRef;
  dv_closed : bool;
}.

Definition dv_derivation (s : Driver) : C := sq_engine (dv_sequencer s).

Definition set_l1State (x : L1State) (s : Driver) : Driver :=
  mkDriver x (dv_sequencer s) (dv_SequencerStopped s) (dv_stepReq s) (dv_delayedStepReq s) (dv_stepAttempts s) (dv_sequencerCh s) (dv_lastUnsafeL2 s) (dv_closed s).
Definition set_sequencer (x : sequencer) (s : Driver) : Driver :=
  mkDriver (dv_l1State s) x (dv_SequencerStopped s) (dv_stepReq s) (dv_delayedStepReq s) (dv_stepAttempts s) (dv_sequencerCh s) (dv_lastUnsafeL2 s) (dv_closed s).
Definition set_derivation (x : C) (s : Driver) : Driver := set_sequencer (set_engineControl x (dv_sequencer s)) s.
Definition set_stopped (x : bool) (s : Driver) : Driver :=
  mkDriver (dv_l1State s) (dv_sequencer s) x (dv_stepReq s) (dv_delayedStepReq s) (dv_stepAttempts s) (dv_sequencerCh s) (dv_lastUnsafeL2 s) (dv_closed s).
Definition set_steps (req delayed : bool) (attempts : Z) (s : Driver) : Driver :=
  mkDriver (dv_l1State s) (dv_sequencer s) (dv_SequencerStopped s) req delayed attempts (dv_sequencerCh s) (dv_lastUnsafeL2 s) (dv_closed s).
Definition set_sequencerCh (x : option Z) (s : Driver) : Driver :=
  mkDriver (dv_l1State s) (dv_sequencer s) (dv_SequencerStopped s) (dv_stepReq s) (dv_delayedStepReq s) (dv_stepAttempts s) x (dv_lastUnsafeL2 s) (dv_closed s).
Definition set_lastUnsafeL2 (x : L2BlockRef) (s : Driver) : Driver :=
  mkDriver (dv_l1State s) (dv_sequencer s) (dv_SequencerStopped s) (dv_stepReq s) (dv_delayedStepReq s) (dv_stepAttempts s) (dv_sequencerCh s) x (dv_closed s).
Definition close (s : Driver) : Driver :=
  mkDriver (dv_l1State s) (dv_sequencer s) (dv_SequencerStopped s) (dv_stepReq s) (dv_delayedStepReq s) (dv_stepAttempts s) (dv_sequencerCh s) (dv_lastUnsafeL2 s) true.

(** *** The closures of the loop *)

(** [step]: the request is dropped when one is in the channel already. *)
Definition step (s : Driver) : Driver := set_steps true (dv_delayedStepReq s) (dv_stepAttempts s) s.

(** [reqStep]: after a failure with a delay, unless that is scheduled already. *)
Definition reqStep (s : Driver) : Driver :=
  if 0 <? dv_stepAttempts s then set_steps (dv_stepReq s) true (dv_stepAttempts s) s else step s.

Definition planSequencerAction (now : Z) (s : Driver) : Driver :=
  set_sequencerCh (Some (PlanNextSequencerAction cfg now (dv_sequencer s))) s.

(** [Start] and the part of [eventLoop] before the loop; the pipeline is reset
    and one step requested. *)
Definition start_loop (sequencer : sequencer) (stopped : bool) : Driver :=
  let sequencer := set_engineControl (ec_Reset (sq_engine sequencer)) sequencer in
  step {| dv_l1State := NewL1State; dv_sequencer := sequencer; dv_SequencerStopped := stopped; dv_stepReq := false;
          dv_delayedStepReq := false; dv_stepAttempts := 0; dv_sequencerCh := None;
          dv_lastUnsafeL2 := ec_UnsafeL2Head (sq_engine sequencer); dv_closed := false |}.

(** What an iteration does before [select]. *)
Definition loop_head (now : Z) (s : Driver) : Driver :=
  let c := dv_derivation s in
  let s :=
    if SequencerEnabled driverConfig && negb (dv_SequencerStopped s) &&
       negb (bool_decide (ls_l1Head (dv_l1State s) = zero_L1BlockRef)) && der_EngineReady c then
      if (0 <? SequencerMaxSafeLag driverConfig) &&
         (l2_Number (der_SafeL2Head c) +₆₄ SequencerMaxSafeLag driverConfig <=? l2_Number (ec_UnsafeL2Head c)) then
        set_sequencerCh None s
      else if negb (bool_decide (L2BlockRef_ID (BuildingOnto (dv_sequencer s)) = L2BlockRef_ID (ec_UnsafeL2Head c))) then
        planSequencerAction now s
      else s
    else set_sequencerCh None s in
  set_lastUnsafeL2 (ec_UnsafeL2Head c) s.

(** *** Events *)

(** What [select] can pick, with what the outside answers during the handling:
    the nodes of the sequencer and of the pipeline, the time, and the error of
    the [SequencerStateListener]. *)
Inductive Event :=
| SequencerAction (src : Sources) (now : Z)
| AltSyncTick
| UnsafePayload (payload : ExecutionPayload)
| L1HeadSig (head : L1BlockRef)
| L1SafeSig (safe : L1BlockRef)
| L1FinalizedSig (finalized : L1BlockRef)
| DelayedStep
| StepReq (env : V)
| StateReq
| ForceReset
| StartSequencer (hash : Hash) (listener : option go_error) (now : Z)
| StopSequencer (listener : option go_error)
| SequencerActive
| Done.

(** A timer or a request fires only when it is set. *)
Definition enabled (ev : Event) (s : Driver) : bool :=
  match ev with
  | SequencerAction _ _ => bool_decide (is_Some (dv_sequencerCh s))
  | DelayedStep => dv_delayedStepReq s
  | StepReq _ => dv_stepReq s
  | _ => true
  end.

(** What the loop sends out. *)
Inductive Output :=
| PublishL2Payload (p : ExecutionPayload)
| RequestL2Range (start fin : L2BlockRef)
| Reply (err : option go_error)
| ReplyHash (h : Hash)
| ReplyActive (b : bool).

(** [checkForGapInUnsafeQueue] *)
Definition checkForGapInUnsafeQueue (s : Driver) : res (list Output) :=
  let start := ec_UnsafeL2Head (dv_derivation s) in
  fin ← der_UnsafeL2SyncTarget (dv_derivation s);
  if bool_decide (fin = zero_L2BlockRef) then Ok [RequestL2Range start zero_L2BlockRef]
  else if l2_Number start +₆₄ 1 <? l2_Number fin then Ok [RequestL2Range start fin]
  else Ok [].

(** The outcome of a derivation step. The step counts as an attempt first. *)
Definition handle_step (env : V) (s : Driver) : Driver :=
  let s := set_steps false (dv_delayedStepReq s) (dv_stepAttempts s) s in
  let '(c, r) := der_Step env (dv_derivation s) in
  let s := set_derivation c s in
  let attempts := dv_stepAttempts s + 1 in
  let with_attempts n := set_steps (dv_stepReq s) (dv_delayedStepReq s) n s in
  match r with
  | Ok _ => reqStep (with_attempts 0)
  | Err e =>
      if is_panic e then close s
      else if bool_decide (e = EOF) then with_attempts 0
      else if errors_Is e EngineP2PSyncing then with_attempts 0
      else if errors_Is e ErrReset then set_derivation (ec_Reset (dv_derivation s)) (with_attempts attempts)
      else if errors_Is e ErrTemporary then reqStep (with_attempts attempts)
      else if errors_Is e ErrCritical then close (with_attempts attempts)
      else if errors_Is e NotEnoughData then reqStep (with_attempts 0)
      else reqStep (with_attempts attempts)
  end.

(** The body of [select]. A panic ends the loop (and the process). *)
Definition handle (ev : Event) (s : Driver) : Driver * list Output :=
  match ev with
  | SequencerAction src now =>
      let '(d, r) := RunNextSequencerAction Keccak256Hash rlp_encode_jst encode_deposit noProof cfg src now (dv_sequencer s) in
      let s := set_sequencer d s in
      match r with
      | Err _ => (close s, [])
      | Ok payload =>
          (planSequencerAction now s, match payload with Some p => [PublishL2Payload p] | None => [] end)
      end
  | AltSyncTick =>
      match checkForGapInUnsafeQueue s with
      | Err _ => (close s, [])
      | Ok out => (s, out)
      end
  | UnsafePayload payload =>
      match der_AddUnsafePayload (Some payload) (dv_derivation s) with
      | (c, Err _) => (close (set_derivation c s), [])
      | (c, Ok _) => (reqStep (set_derivation c s), [])
      end
  | L1HeadSig head => (reqStep (set_l1State (HandleNewL1HeadBlock head (dv_l1State s)) s), [])
  | L1SafeSig safe => (set_l1State (HandleNewL1SafeBlock safe (dv_l1State s)) s, [])
  | L1FinalizedSig finalized =>
      let s := set_l1State (HandleNewL1FinalizedBlock finalized (dv_l1State s)) s in
      (reqStep (set_derivation (der_Finalize finalized (dv_derivation s)) s), [])
  | DelayedStep => (step (set_steps (dv_stepReq s) false (dv_stepAttempts s) s), [])
  | StepReq env => (handle_step env s, [])
  | StateReq => (s, [])
  | ForceReset => (set_derivation (ec_Reset (dv_derivation s)) s, [Reply None])
  | StartSequencer hash listener now =>
      if negb (dv_SequencerStopped s) then (s, [Reply (Some (Errorf "sequencer already running"))])
      else if negb (bool_decide (l2_Hash (ec_UnsafeL2Head (dv_derivation s)) = hash)) then
        (s, [Reply (Some (Errorf "block hash does not match"))])
      else match listener with
           | Some e => (s, [Reply (Some (Wrapf "sequencer start notification" e))])
           | None => (planSequencerAction now (set_stopped false s), [Reply None])
           end
  | StopSequencer listener =>
      if dv_SequencerStopped s then (s, [Reply (Some (Errorf "sequencer not running"))])
      else match listener with
           | Some e => (s, [Reply (Some (Wrapf "sequencer start notification" e))])
           | None =>
               let s := set_stopped true s in
               (set_sequencer (CancelBuildingBlock (dv_sequencer s)) s,
                [ReplyHash (l2_Hash (ec_UnsafeL2Head (dv_derivation s)))])
           end
  | SequencerActive => (s, [ReplyActive (negb (dv_SequencerStopped s))])
  | Done => (close s, [])
  end.

(** One iteration; [now] is the time of its head. *)
Definition iteration (now : Z) (ev : Event) (s : Driver) : option (Driver * list Output) :=
  if dv_closed s then None
  else let s := loop_head now s in
       if enabled ev s then Some (handle ev s) else None.

(** Iterations, one after the other, with everything that is sent out. *)
Inductive runs : Driver -> list Event -> Driver -> list Output -> Prop :=
| runs_nil s : runs s [] s []
| runs_cons now ev evs s s1 s2 out1 out2 :
    iteration now ev s = Some (s1, out1) -> runs s1 evs s2 out2 -> runs s (ev :: evs) s2 (out1 ++ out2).

(** [syncStatus] *)
Record DriverStatus := mkStatus {
  st_CurrentL1 : L1BlockRef;
  st_CurrentL1Finalized : L1BlockRef;
  st_HeadL1 : L1BlockRef;
  st_SafeL1 : L1BlockRef;
  st_FinalizedL1 : L1BlockRef;
  st_UnsafeL2 : L2BlockRef;
  st_SafeL2 : L2BlockRef;
  st_FinalizedL2 : L2BlockRef;
  st_UnsafeL2SyncTarget : L2BlockRef;
  st_EngineSyncTarget : L2BlockRef;
}.

Definition syncStatus (s : Driver) : res DriverStatus :=
  let c := dv_derivation s in
  target ← der_UnsafeL2SyncTarget c;
  Ok {| st_CurrentL1 := der_Origin c; st_CurrentL1Finalized := der_FinalizedL1 c;
        st_HeadL1 := ls_l1Head (dv_l1State s); st_SafeL1 := ls_l1Safe (dv_l1State s);
        st_FinalizedL1 := ls_l1Finalized (dv_l1State s);
        st_UnsafeL2 := ec_UnsafeL2Head c; st_SafeL2 := der_SafeL2Head c; st_FinalizedL2 := der_Finalized c;
        st_UnsafeL2SyncTarget := target; st_EngineSyncTarget := der_EngineSyncTarget c |}.

(** ** Theorems *)

(** A reset makes the pipeline not ready. *)
Class DerivationLaws : Prop := reset_not_ready : forall c, der_EngineReady (ec_Reset c) = false.

(** *** A derivation step *)

Definition step_pending (s : Driver) : bool := dv_stepReq s || dv_delayedStepReq s.

Lemma reqStep_pending s : step_pending (reqStep s) = true.
Proof. unfold reqStep, step, step_pending. case_match; cbn; [apply orb_true_r|done]. Qed.

Lemma reqStep_closed s : dv_closed (reqStep s) = dv_closed s.
Proof. unfold reqStep. by case_match. Qed.

Definition fatal (e : go_error) : Prop := is_panic e = true \/ errors_Is e ErrCritical = true.

(** After a derivation step the driver is in one of four situations: the
    loop has ended, because of a critical error or a panic; another step is
    requested, at once after a success and with a delay after a failure; the
    pipeline waits for L1 data or for the engine, with its attempts forgotten;
    or it needed a reset, and is not ready until it has been reset. *)
Lemma derivation_step_contract `{!DerivationLaws} (env : V) (s : Driver) (Hopen : dv_closed s = false) :
  let s' := handle_step env s in
  match (der_Step env (dv_derivation s)).2 with
  | Ok _ => dv_closed s' = false /\ dv_stepReq s' = true /\ dv_stepAttempts s' = 0
  | Err e =>
      (dv_closed s' = true /\ fatal e) \/
      (dv_closed s' = false /\ step_pending s' = true /\ (dv_stepAttempts s' = 0 \/ dv_stepAttempts s' = dv_stepAttempts s + 1)) \/
      (dv_closed s' = false /\ dv_stepAttempts s' = 0 /\ (e = EOF \/ errors_Is e EngineP2PSyncing = true)) \/
      (dv_closed s' = false /\ errors_Is e ErrReset = true /\ der_EngineReady (dv_derivation s') = false)
  end.
Proof.
  cbv zeta. unfold handle_step. change (dv_derivation (set_steps _ _ _ s)) with (dv_derivation s).
  destruct (der_Step env (dv_derivation s)) as [c [[]|e]]; cbn [snd].
  { unfold reqStep. cbn. done. }
  destruct (is_panic e) eqn:E1; [left; split; [done|by left]|].
  case_bool_decide as E2; [right; right; left; by split; [|split; [|left]]|].
  destruct (errors_Is e EngineP2PSyncing); [right; right; left; by split; [|split; [|right]]|].
  destruct (errors_Is e ErrReset); [right; right; right; split; [done|]; split; [done|apply reset_not_ready]|].
  assert (Hreq : forall n (d : Driver), dv_closed d = false -> dv_stepAttempts d = n ->
    dv_closed (reqStep d) = false /\ step_pending (reqStep d) = true /\ dv_stepAttempts (reqStep d) = n).
  { intros n d Hd Hn. rewrite reqStep_closed, reqStep_pending. split; [done|]. split; [done|]. unfold reqStep. by case_match. }
  destruct (errors_Is e ErrTemporary).
  { right. left. destruct (Hreq _ (set_steps (dv_stepReq (set_derivation c (set_steps false (dv_delayedStepReq s) (dv_stepAttempts s) s)))
      (dv_delayedStepReq s) (dv_stepAttempts s + 1) (set_derivation c (set_steps false (dv_delayedStepReq s) (dv_stepAttempts s) s))) Hopen eq_refl)
      as (H1 & H2 & H3). split; [exact H1|]. split; [exact H2|]. right. exact H3. }
  destruct (errors_Is e ErrCritical) eqn:E5; [left; split; [done|by right]|].
  destruct (errors_Is e NotEnoughData); right; left.
  - split; [by rewrite reqStep_closed|]. split; [by rewrite reqStep_pending|]. by left.
  - split; [by rewrite reqStep_closed|]. split; [by rewrite reqStep_pending|]. right. unfold reqStep. by case_match.
Qed.

(** *** Resets and the sequencer *)

Definition admin (ev : Event) : bool :=
  match ev with StartSequencer _ _ _ | StopSequencer _ => true | _ => false end.

(** The sequencer has a batch in progress on the head and is not scheduled, or
    will not be at the next iteration. *)
Definition stalled (b : InProgressBatch) (s : Driver) : Prop :=
  sq_espressoBatch (dv_sequencer s) = Some b /\
  L2BlockRef_ID (ec_UnsafeL2Head (dv_derivation s)) = L2BlockRef_ID (ib_onto b) /\
  (der_EngineReady (dv_derivation s) = false \/ dv_sequencerCh s = None).

Lemma loop_head_batch now s : sq_espressoBatch (dv_sequencer (loop_head now s)) = sq_espressoBatch (dv_sequencer s).
Proof. unfold loop_head. by repeat case_match. Qed.

Lemma loop_head_stalled now b s : stalled b s -> dv_sequencerCh (loop_head now s) = None.
Proof.
  intros (Hb & Hh & Hr). unfold loop_head.
  destruct (SequencerEnabled driverConfig && _ && _); cbn [andb]; [|done].
  destruct (der_EngineReady (dv_derivation s)) eqn:Er; [|done].
  destruct Hr as [?|Hr]; [done|]. destruct (_ && _); [done|].
  unfold BuildingOnto. rewrite Hb, Hh, bool_decide_eq_true_2 by done. done.
Qed.

Lemma reqStep_sequencer s : dv_sequencer (reqStep s) = dv_sequencer s /\ dv_sequencerCh (reqStep s) = dv_sequencerCh s.
Proof. unfold reqStep. by case_match. Qed.

(** Nothing but an action of the sequencer or its administration touches the
    batch and the schedule. *)
Lemma handle_keeps ev s s' out : handle ev s = (s', out) -> admin ev = false ->
  (forall src now, ev <> SequencerAction src now) ->
  sq_espressoBatch (dv_sequencer s') = sq_espressoBatch (dv_sequencer s) /\ dv_sequencerCh s' = dv_sequencerCh s /\
  forall p, PublishL2Payload p ∉ out.
Proof.
  intros H Ha Hs. destruct ev as [src now| |p|h|h|h| |env| | |hash l now|l| |]; cbn [handle] in H; try done.
  - by destruct (Hs src now).
  - unfold checkForGapInUnsafeQueue in H. destruct (der_UnsafeL2SyncTarget _) as [fin|e]; cbn [mbind res_bind] in H;
      [|injection H as <- <-; split; [done|]; split; [done|]; intros p; apply not_elem_of_nil].
    repeat case_match; simplify_eq; (split; [done|]; split; [done|]; intros p Hp;
      repeat (apply elem_of_cons in Hp as [Hp|Hp]; [done|]); by apply not_elem_of_nil in Hp).
  - destruct (der_AddUnsafePayload _ _) as [c [[]|e]]; injection H as <- <-.
    + destruct (reqStep_sequencer (set_derivation c s)) as [-> ->]. split; [done|]. split; [done|]. intros p'. apply not_elem_of_nil.
    + split; [done|]. split; [done|]. intros p'. apply not_elem_of_nil.
  - injection H as <- <-. destruct (reqStep_sequencer (set_l1State (HandleNewL1HeadBlock h (dv_l1State s)) s)) as [-> ->].
    split; [done|]. split; [done|]. intros p'. apply not_elem_of_nil.
  - injection H as <- <-. split; [done|]. split; [done|]. intros p'. apply not_elem_of_nil.
  - injection H as <- <-.
    match goal with |- context [reqStep ?d] => destruct (reqStep_sequencer d) as [-> ->] end.
    split; [done|]. split; [done|]. intros p'. apply not_elem_of_nil.
  - injection H as <- <-. split; [done|]. split; [done|]. intros p'. apply not_elem_of_nil.
  - injection H as <- <-. enough (Hk : sq_espressoBatch (dv_sequencer (handle_step env s)) = sq_espressoBatch (dv_sequencer s) /\
      dv_sequencerCh (handle_step env s) = dv_sequencerCh s)
      by (destruct Hk; split; [done|]; split; [done|]; intros p'; apply not_elem_of_nil).
    unfold handle_step. destruct (der_Step _ _) as [c [[]|e]].
    + match goal with |- context [reqStep ?d] => destruct (reqStep_sequencer d) as [-> ->] end. done.
    + repeat case_match; try match goal with |- context [reqStep ?d] => destruct (reqStep_sequencer d) as [-> ->] end; done.
  - injection H as <- <-. split; [done|]. split; [done|]. intros p'. apply not_elem_of_nil.
  - injection H as <- <-. split; [done|]. split; [done|]. intros p' Hp.
    apply elem_of_cons in Hp as [Hp|Hp]; [done|]. by apply not_elem_of_nil in Hp.
  - injection H as <- <-. split; [done|]. split; [done|]. intros p' Hp.
    apply elem_of_cons in Hp as [Hp|Hp]; [done|]. by apply not_elem_of_nil in Hp.
  - injection H as <- <-. split; [done|]. split; [done|]. intros p'. apply not_elem_of_nil.
Qed.

(** C24. A reset of the pipeline stops an Espresso sequencer. While the pipeline
    is being reset the loop drops the sequencer's timer, and it sets it again
    only if the sequencer does not build on the head. So when there is a batch
    in progress on the head, and the head stays where it is (which is what the
    sequencer is there to change), then until an operator restarts it the
    sequencer never acts again, whatever else happens: the batch stays as it
    is and no payload is published. *)
Theorem espresso_reset_stalls (s s' : Driver) (b : InProgressBatch) (evs : list Event) (out : list Output)
  (Hbatch : sq_espressoBatch (dv_sequencer s) = Some b)
  (Hready : der_EngineReady (dv_derivation s) = false)
  (Hhead : forall evs1 evs2 s1 out1, evs = evs1 ++ evs2 -> runs s evs1 s1 out1 ->
     L2BlockRef_ID (ec_UnsafeL2Head (dv_derivation s1)) = L2BlockRef_ID (ib_onto b))
  (Hadmin : Forall (fun ev => admin ev = false) evs)
  (Hrun : runs s evs s' out) :
  Forall (fun ev => forall src now, ev <> SequencerAction src now) evs /\
  sq_espressoBatch (dv_sequencer s') = Some b /\ forall p, PublishL2Payload p ∉ out.
Proof.
  assert (Hst : stalled b s).
  { split; [done|]. split; [|by left]. apply (Hhead [] evs s []); [done|constructor]. }
  clear Hbatch Hready. induction Hrun as [s|now ev evs s s1 s2 out1 out2 Hit Hrun IH].
  { split; [constructor|]. split; [apply Hst|]. intros p. apply not_elem_of_nil. }
  apply Forall_cons in Hadmin as [Ha Hadmin].
  assert (Hstep : runs s [ev] s1 out1) by (rewrite <- (app_nil_r out1); by eapply runs_cons; [|constructor]).
  pose proof (loop_head_stalled now b s Hst) as Hnone. pose proof (loop_head_batch now s) as Hlb.
  pose proof Hit as Hit0. unfold iteration in Hit. destruct (dv_closed s); [done|].
  destruct (enabled ev (loop_head now s)) eqn:Een; [|done]. injection Hit as Hit.
  assert (Hev : forall src now', ev <> SequencerAction src now').
  { intros src now' ->. cbn [enabled] in Een. rewrite Hnone in Een. by apply bool_decide_eq_true, is_Some_None in Een. }
  destruct (handle_keeps _ _ _ _ Hit Ha Hev) as (Hb1 & Hc1 & Ho1).
  destruct IH as (H1 & H2 & H3).
  - intros evs1 evs2 s3 out3 -> Hr3. apply (Hhead (ev :: evs1) evs2 s3 (out1 ++ out3)); [done|].
    eapply runs_cons; [exact Hit0|exact Hr3].
  - done.
  - split; [|split].
    + rewrite Hb1, Hlb. apply Hst.
    + by apply (Hhead [ev] evs s1 out1).
    + right. by rewrite Hc1.
  - split; [by constructor|]. split; [done|]. intros p Hp. apply elem_of_app in Hp as [Hp|Hp]; [by apply (Ho1 p)|by apply (H3 p)].
Qed.
End Driver.

(** ** Witnesses *)

#[local] Existing Instance ex_lib.

(** A pipeline that is ready or being reset, on one head. *)
Definition toy_engine : EngineControl bool := {|
  ec_UnsafeL2Head := fun _ => ex_head;
  ec_StartPayload := fun _ _ _ c => (c, (BlockInsertTemporaryErr, Err (Errorf "no engine")));
  ec_ConfirmPayload := fun c => (c, (BlockInsertTemporaryErr, Err (Errorf "no engine")));
  ec_CancelPayload := fun _ c => (c, Ok tt);
  ec_BuildingPayload := fun _ => (zero_L2BlockRef, noPayloadID, false);
  ec_Reset := fun _ => false;
|}.

#[local] Instance toy_derivation : Derivation bool (option go_error) := {|
  der_engine := toy_engine;
  der_Step := fun env c => (true, match env with Some e => Err e | None => Ok tt end);
  der_AddUnsafePayload := fun _ c => (c, Ok tt);
  der_UnsafeL2SyncTarget := fun _ => Ok zero_L2BlockRef;
  der_Finalize := fun _ c => c;
  der_FinalizedL1 := fun _ => zero_L1BlockRef;
  der_Finalized := fun _ => zero_L2BlockRef;
  der_SafeL2Head := fun _ => zero_L2BlockRef;
  der_Origin := fun _ => zero_L1BlockRef;
  der_EngineReady := fun c => c;
  der_EngineSyncTarget := fun _ => zero_L2BlockRef;
|}.

#[local] Instance toy_laws : DerivationLaws (D := toy_derivation).
Proof. done. Qed.

#[local] Instance toy_service : QueryService unit := {
  FetchHeadersForWindow := fun _ _ q => (q, Err NotFound);
  FetchRemainingHeadersForWindow := fun _ _ q => (q, Err NotFound);
  FetchTransactionsInBlock := fun _ _ q => (q, Err NotFound);
}.

Definition toy_batch_onto : InProgressBatch :=
  {| ib_onto := ex_head; ib_jst := {| jst_Blocks := []; jst_Prev := Some (4, 107, 6); jst_Next := None |};
     ib_transactions := []; ib_windowStart := 108; ib_windowEnd := 110 |}.

Definition toy_driver_config : DriverConfig := mkDriverConfig 0 0 true 0.

(** A running driver with a batch in progress, and what a forced reset makes of it. *)
Definition toy_driver : Driver (C := bool) (Q := unit) :=
  {| dv_l1State := mkL1State (mkL1BlockRef (hash_of 9) 9 (hash_of 8) 120) zero_L1BlockRef zero_L1BlockRef;
     dv_sequencer := {| sq_mode := ModeEspresso; sq_engine := true; sq_espresso := tt; sq_nextAction := 0;
                        sq_espressoBatch := Some toy_batch_onto |};
     dv_SequencerStopped := false; dv_stepReq := false; dv_delayedStepReq := false; dv_stepAttempts := 0;
     dv_sequencerCh := Some 5; dv_lastUnsafeL2 := ex_head; dv_closed := false |}.

Abbreviation toy_iteration := (iteration ex_keccak ex_rlp_encode ex_encode_deposit [] ex_cfg toy_driver_config) (only parsing).
Abbreviation toy_runs := (runs ex_keccak ex_rlp_encode ex_encode_deposit [] ex_cfg toy_driver_config) (only parsing).

Definition toy_reset : Driver (C := bool) (Q := unit) :=
  match toy_iteration 0 ForceReset toy_driver with Some (s, _) => s | None => toy_driver end.

Definition toy_events : list Event :=
  [L1HeadSig (mkL1BlockRef (hash_of 10) 10 (hash_of 9) 132); StepReq None; AltSyncTick;
   L1HeadSig (mkL1BlockRef (hash_of 11) 11 (hash_of 10) 144); StepReq (Some EOF)].

(** The reset is over after the first step, and the sequencer stays silent. *)
Lemma espresso_reset_stalls_witness :
  exists s' out, toy_runs toy_reset toy_events s' out /\ der_EngineReady (dv_derivation s') = true /\
    sq_espressoBatch (dv_sequencer s') = Some toy_batch_onto /\ forall p, PublishL2Payload p ∉ out.
Proof.
  assert (Hrun : exists s' out, toy_runs toy_reset toy_events s' out /\ der_EngineReady (dv_derivation s') = true).
  { eexists _, _. split; [|shelve]. eapply (runs_cons _ _ _ _ _ _ 1); [vm_compute; reflexivity|].
    eapply (runs_cons _ _ _ _ _ _ 2); [vm_compute; reflexivity|]. eapply (runs_cons _ _ _ _ _ _ 3); [vm_compute; reflexivity|].
    eapply (runs_cons _ _ _ _ _ _ 4); [vm_compute; reflexivity|]. eapply (runs_cons _ _ _ _ _ _ 5); [vm_compute; reflexivity|].
    apply runs_nil. Unshelve. reflexivity. }
  destruct Hrun as (s' & out & Hrun & Hready). exists s', out. split; [exact Hrun|]. split; [exact Hready|].
  destruct (espresso_reset_stalls ex_keccak ex_rlp_encode ex_encode_deposit [] ex_cfg toy_driver_config toy_reset s' toy_batch_onto
    toy_events out) as (_ & H1 & H2); [vm_compute; reflexivity|vm_compute; reflexivity|by intros|by repeat constructor|exact Hrun|].
  exact (conj H1 H2).
Defined.

Lemma derivation_step_contract_witness :
  dv_closed (handle_step (Some EOF) toy_driver) = false /\
  der_EngineReady (dv_derivation (handle_step (Some (NewResetError (Errorf "reorg"))) toy_driver)) = false.
Proof.
  split; [vm_compute; reflexivity|].
  destruct (derivation_step_contract (Some (NewResetError (Errorf "reorg"))) toy_driver eq_refl)
    as [[H _]|[(_ & H & _)|[(_ & H & _)|(_ & _ & H)]]]; [vm_compute in H; discriminate H..|exact H].
Defined.
