(* ===== verification/Compressor.v ===== *)
(** * Compressors

    [op-batcher/compressor/ratio_compressor.go] and [shadow_compressor.go]:
    the two ways the batcher decides that a channel holds enough data, on top
    of Go's zlib writer, and the interface [Compressor] of
    [op-node/rollup/derive/channel_out.go] with the laws its users rely on. *)

From S2P Require Import Prelude Frame.

Definition CompressorFullErr : go_error := Errorf "compressor is full".

(** ** [compress/zlib]

    A writer over a [bytes.Buffer]: each operation returns what the writer
    hands to the buffer. *)
Class ZlibWriter := {
  zwriter : Type;
  zw_New : zwriter;
  zw_Write : bytes -> stM zwriter bytes;
  zw_Flush : stM zwriter bytes;
  zw_Close : stM zwriter bytes;
}.

Section Zlib.
Context `{ZW : ZlibWriter}.

(** A writer that was given [i] and has put out [o] so far. *)
Inductive zw_run : zwriter -> bytes -> bytes -> Prop :=
| zw_run_New : zw_run zw_New [] []
| zw_run_Write z i o p z' o' : zw_run z i o -> zw_Write p z = (z', Ok o') -> zw_run z' (i ++ p) (o ++ o')
| zw_run_Flush z i o z' o' : zw_run z i o -> zw_Flush z = (z', Ok o') -> zw_run z' i (o ++ o').

(** [o] is all that a writer given [i] has put out when it was flushed or closed. *)
Inductive deflated (i o : bytes) : Prop :=
| deflated_Flush z z' o1 o2 : zw_run z i o1 -> zw_Flush z = (z', Ok o2) -> o = o1 ++ o2 -> deflated i o
| deflated_Close z z' o1 o2 : zw_run z i o1 -> zw_Close z = (z', Ok o2) -> o = o1 ++ o2 -> deflated i o.

(** A buffer takes every write, so an open writer does not fail; what it puts
    out are bytes, and not none of them: a stream has a header. *)
Record zlib_laws : Prop := {
  zl_Write : forall z i o p, zw_run z i o -> exists z' o', zw_Write p z = (z', Ok o') /\ bytes_ok o';
  zl_Flush : forall z i o, zw_run z i o -> exists z' o', zw_Flush z = (z', Ok o') /\ bytes_ok o';
  zl_Close : forall z i o, zw_run z i o -> exists z' o', zw_Close z = (z', Ok o') /\ bytes_ok o';
  zl_header : forall i o, deflated i o -> o <> [];
}.

Lemma zw_run_ok (Laws : zlib_laws) z i o : zw_run z i o -> bytes_ok o.
Proof.
  induction 1 as [|z i o p z' o' H IH Hw|z i o z' o' H IH Hw]; [constructor|..]; apply bytes_ok_app; split; try done.
  - destruct (zl_Write Laws _ _ _ p H) as (? & ? & E & ?). congruence.
  - destruct (zl_Flush Laws _ _ _ H) as (? & ? & E & ?). congruence.
Qed.

Lemma deflated_ok (Laws : zlib_laws) i o : deflated i o -> bytes_ok o.
Proof.
  intros [z z' o1 o2 H Hf ->|z z' o1 o2 H Hf ->]; apply bytes_ok_app; (split; [by eapply zw_run_ok|]).
  - destruct (zl_Flush Laws _ _ _ H) as (? & ? & E & ?). congruence.
  - destruct (zl_Close Laws _ _ _ H) as (? & ? & E & ?). congruence.
Qed.
End Zlib.

(** ** The interface *)

(** [cmp_ReadFull] is [io.ReadFull] on the compressor, [cmp_ReadAll] what
    [io.Copy] takes out of it. *)
Class Compressor (C : Type) := {
  cmp_Write : bytes -> stM C Z;
  cmp_Close : stM C unit;
  cmp_ReadFull : Z -> stM C bytes;
  cmp_ReadAll : stM C bytes;
  cmp_Reset : C -> C;
  cmp_Len : C -> Z;
  cmp_Flush : stM C unit;
  cmp_FullErr : C -> option go_error;
}.

(** [has c i t closed]: [c] was given [i], and [t] was read out of it. *)
Record compressor_laws `{ZlibWriter} (C : Type) `{!Compressor C} (has : C -> bytes -> bytes -> bool -> Prop) : Prop := {
  cl_Reset : forall c, has (cmp_Reset c) [] [] false;
  cl_Write : forall c i t p c' n, has c i t false -> cmp_Write p c = (c', Ok n) -> has c' (i ++ p) t false;
  cl_Write_fail : forall c i t p c' e, has c i t false -> cmp_Write p c = (c', Err e) -> has c' i t false;
  cl_Write_full : forall c i t p c' e, has c i t false -> cmp_Write p c = (c', Err e) -> cmp_FullErr c' <> None;
  cl_Write_first : forall c p c' e, cmp_FullErr c = None -> cmp_Write p (cmp_Reset c) <> (c', Err e);
  cl_Flush : forall c i t, has c i t false -> exists c', cmp_Flush c = (c', Ok tt) /\ has c' i t false /\
    forall d, (cmp_ReadAll c').2 = Ok d -> deflated i (t ++ d);
  cl_Close : forall c i t, has c i t false -> exists c', cmp_Close c = (c', Ok tt) /\ has c' i t true;
  cl_Len : forall c, 0 <= cmp_Len c;
  cl_ReadFull : forall c i t closed n, has c i t closed -> 0 <= n <= cmp_Len c ->
    exists c' d, cmp_ReadFull n c = (c', Ok d) /\ has c' i (t ++ d) closed /\ blen d = n /\ cmp_Len c' = cmp_Len c - n;
  cl_header : forall i o, deflated i o -> o <> [];
  cl_deflated : forall i o, deflated i o -> bytes_ok o;
  cl_bytes : forall c i t closed, has c i t closed -> bytes_ok t;
  cl_ReadAll : forall c i t closed, has c i t closed ->
    exists c' d, cmp_ReadAll c = (c', Ok d) /\ has c' i (t ++ d) closed /\ blen d = cmp_Len c;
  cl_drained : forall c i t, has c i t true -> cmp_Len c = 0 -> deflated i t;
}.

(** ** [bytes.Buffer] *)

Definition buf_ReadFull (n : Z) (buf : bytes) : bytes * res bytes :=
  match ReadFull n buf with Ok (d, rest) => (rest, Ok d) | Err e => ([], Err e) end.

Lemma buf_ReadFull_ok n buf : 0 <= n <= blen buf ->
  exists d rest, buf_ReadFull n buf = (rest, Ok d) /\ buf = d ++ rest /\ blen d = n /\ blen rest = blen buf - n.
Proof.
  intros Hn. exists (take (Z.to_nat n) buf), (drop (Z.to_nat n) buf). unfold blen in *.
  rewrite length_take, length_drop, take_drop. split; [|split; [done|lia]].
  unfold buf_ReadFull. rewrite <- (take_drop (Z.to_nat n) buf) at 1. rewrite ReadFull_app; [done|].
  unfold blen. rewrite length_take. lia.
Qed.

(** ** A zlib writer and its buffer *)

Section Compressors.
Context `{ZW : ZlibWriter}.

Record zbuf := mkZbuf { zb_writer : zwriter; zb_data : bytes }.

(** Runs an operation of the writer and keeps what it puts out. *)
Definition zb_emit (m : stM zwriter bytes) : stM zbuf unit := fun b =>
  match m (zb_writer b) with
  | (z, Ok o) => (mkZbuf z (zb_data b ++ o), Ok tt)
  | (z, Err e) => (mkZbuf z (zb_data b), Err e)
  end.

Definition zb_new : zbuf := mkZbuf zw_New [].

Definition zb_Write (p : bytes) : stM zbuf Z := zb_emit (zw_Write p) ≫= (fun _ => mret (blen p)).

Definition zb_ReadFull (n : Z) : stM zbuf bytes := fun b =>
  let '(buf, r) := buf_ReadFull n (zb_data b) in (mkZbuf (zb_writer b) buf, r).

Definition zb_ReadAll : stM zbuf bytes := fun b => (mkZbuf (zb_writer b) [], Ok (zb_data b)).

(** [zb_has b i t closed]: the writer was given [i]; of what it put out, [t] was read. *)
Definition zb_has (b : zbuf) (i t : bytes) (closed : bool) : Prop :=
  if closed then deflated i (t ++ zb_data b) else zw_run (zb_writer b) i (t ++ zb_data b).

Lemma zb_has_new : zb_has zb_new [] [] false.
Proof. constructor. Qed.

Lemma zb_has_Write b i t p b' n : zb_has b i t false -> zb_Write p b = (b', Ok n) -> zb_has b' (i ++ p) t false.
Proof.
  intros H Hw. apply stM_bind_ok in Hw as (b1 & [] & Hw & Hr). injection Hr as <- <-. unfold zb_emit in Hw.
  destruct (zw_Write p (zb_writer b)) as [z [o|]] eqn:Ez; [|done]. injection Hw as <-.
  cbn. rewrite app_assoc. by eapply zw_run_Write.
Qed.

Lemma zb_has_ReadFull b i t closed n : zb_has b i t closed -> 0 <= n <= blen (zb_data b) ->
  exists b' d, zb_ReadFull n b = (b', Ok d) /\ zb_has b' i (t ++ d) closed /\ blen d = n /\
    blen (zb_data b') = blen (zb_data b) - n.
Proof.
  intros H Hn. destruct (buf_ReadFull_ok _ _ Hn) as (d & rest & Hb & Hsplit & Hd & Hr).
  exists (mkZbuf (zb_writer b) rest), d. unfold zb_ReadFull. rewrite Hb. split; [done|]. split; [|done].
  unfold zb_has in *. cbn [zb_writer zb_data]. by rewrite <- app_assoc, <- Hsplit.
Qed.

Lemma zb_has_ReadAll b i t closed : zb_has b i t closed ->
  zb_has (zb_ReadAll b).1 i (t ++ zb_data b) closed.
Proof. intros H. unfold zb_has in *. cbn. by rewrite app_nil_r. Qed.

Hypothesis Laws : zlib_laws.

Lemma zb_has_ok b i t closed : zb_has b i t closed -> bytes_ok t.
Proof using Laws.
  unfold zb_has. destruct closed; intros H.
  - apply (deflated_ok Laws), bytes_ok_app in H. by destruct H.
  - apply (zw_run_ok Laws), bytes_ok_app in H. by destruct H.
Qed.

Lemma zb_has_fail b i t p b' e : zb_has b i t false -> zb_Write p b = (b', Err e) -> False.
Proof using Laws.
  intros H Hw. destruct (zl_Write Laws _ _ _ p H) as (z' & o' & E & _).
  revert Hw. unfold zb_Write, mbind, stM_bind, zb_emit. by rewrite E.
Qed.

Lemma zb_has_Flush b i t : zb_has b i t false -> exists b', zb_emit zw_Flush b = (b', Ok tt) /\ zb_has b' i t false /\
  deflated i (t ++ zb_data b').
Proof using Laws.
  intros H. destruct (zl_Flush Laws _ _ _ H) as (z' & o' & E & _). exists (mkZbuf z' (zb_data b ++ o')).
  unfold zb_emit. rewrite E. split; [done|]. cbn. rewrite app_assoc.
  split; [by eapply zw_run_Flush|by eapply deflated_Flush].
Qed.

Lemma zb_has_Close b i t : zb_has b i t false -> exists b', zb_emit zw_Close b = (b', Ok tt) /\ zb_has b' i t true.
Proof using Laws.
  intros H. destruct (zl_Close Laws _ _ _ H) as (z' & o' & E & _). exists (mkZbuf z' (zb_data b ++ o')).
  unfold zb_emit. rewrite E. split; [done|]. cbn. rewrite app_assoc. by eapply deflated_Close.
Qed.

(** ** [ratio_compressor.go] *)

(** [InputThreshold] is a floating-point expression of the configuration; its
    value is the field [rc_InputThreshold]. *)
Record RatioCompressor := mkRatio {
  rc_InputThreshold : Z;
  rc_inputBytes : Z;
  rc_compress : zbuf;
}.

Definition NewRatioCompressor (threshold : Z) : RatioCompressor := mkRatio threshold 0 zb_new.

Definition inputTargetReached (t : RatioCompressor) : bool := rc_InputThreshold t <=? u64 (rc_inputBytes t).

Definition rc_FullErr (t : RatioCompressor) : option go_error :=
  if inputTargetReached t then Some CompressorFullErr else None.

(** Runs an operation on the zlib writer and its buffer. *)
Definition rc_on {A} (m : stM zbuf A) : stM RatioCompressor A := fun t =>
  let '(b, r) := m (rc_compress t) in (mkRatio (rc_InputThreshold t) (rc_inputBytes t) b, r).

Definition rc_Write (p : bytes) : stM RatioCompressor Z := fun t =>
  match rc_FullErr t with
  | Some e => (t, Err e)
  | None => rc_on (zb_Write p) (mkRatio (rc_InputThreshold t) (rc_inputBytes t + blen p) (rc_compress t))
  end.

Definition rc_Reset (t : RatioCompressor) : RatioCompressor := mkRatio (rc_InputThreshold t) 0 zb_new.

#[global] Instance Ratio_Compressor : Compressor RatioCompressor := {
  cmp_Write := rc_Write;
  cmp_Close := rc_on (zb_emit zw_Close);
  cmp_ReadFull := fun n => rc_on (zb_ReadFull n);
  cmp_ReadAll := rc_on zb_ReadAll;
  cmp_Reset := rc_Reset;
  cmp_Len := fun t => blen (zb_data (rc_compress t));
  cmp_Flush := rc_on (zb_emit zw_Flush);
  cmp_FullErr := rc_FullErr;
}.

(** ** [shadow_compressor.go] *)

Record ShadowCompressor := mkShadow {
  sc_TargetFrameSize : Z;
  sc_TargetNumFrames : Z;
  sc_compress : zbuf;
  sc_shadow : zbuf;
  sc_fullErr : option go_error;
}.

Definition NewShadowCompressor (frameSize numFrames : Z) : ShadowCompressor :=
  mkShadow frameSize numFrames zb_new zb_new None.

Definition sc_on {A} (m : stM zbuf A) : stM ShadowCompressor A := fun t =>
  let '(b, r) := m (sc_compress t) in
  (mkShadow (sc_TargetFrameSize t) (sc_TargetNumFrames t) b (sc_shadow t) (sc_fullErr t), r).

Definition sc_on_shadow {A} (m : stM zbuf A) : stM ShadowCompressor A := fun t =>
  let '(b, r) := m (sc_shadow t) in
  (mkShadow (sc_TargetFrameSize t) (sc_TargetNumFrames t) (sc_compress t) b (sc_fullErr t), r).

Definition set_fullErr (e : option go_error) (t : ShadowCompressor) : ShadowCompressor :=
  mkShadow (sc_TargetFrameSize t) (sc_TargetNumFrames t) (sc_compress t) (sc_shadow t) e.

Definition sc_Len (t : ShadowCompressor) : Z := blen (zb_data (sc_compress t)).

(** The second half of [Write]: the data goes to the real writer unless the
    shadow is over the target and this is not the first write. *)
Definition sc_store (p : bytes) : stM ShadowCompressor Z := fun t =>
  if sc_TargetFrameSize t *₆₄ u64 (sc_TargetNumFrames t) <? blen (zb_data (sc_shadow t)) then
    let t := set_fullErr (Some CompressorFullErr) t in
    if 0 <? sc_Len t then (t, Err CompressorFullErr) else sc_on (zb_Write p) t
  else sc_on (zb_Write p) t.

Definition sc_Write (p : bytes) : stM ShadowCompressor Z :=
  _ ← sc_on_shadow (zb_Write p);
  _ ← sc_on_shadow (zb_emit zw_Flush);
  sc_store p.

Definition sc_Reset (t : ShadowCompressor) : ShadowCompressor :=
  mkShadow (sc_TargetFrameSize t) (sc_TargetNumFrames t) zb_new zb_new None.

#[global] Instance Shadow_Compressor : Compressor ShadowCompressor := {
  cmp_Write := sc_Write;
  cmp_Close := sc_on (zb_emit zw_Close);
  cmp_ReadFull := fun n => sc_on (zb_ReadFull n);
  cmp_ReadAll := sc_on zb_ReadAll;
  cmp_Reset := sc_Reset;
  cmp_Len := sc_Len;
  cmp_Flush := sc_on (zb_emit zw_Flush);
  cmp_FullErr := sc_fullErr;
}.

(** ** Both implement the interface *)

Definition rc_has (t : RatioCompressor) := zb_has (rc_compress t).

Lemma ratio_laws : compressor_laws RatioCompressor rc_has.
Proof using Laws.
  split; unfold rc_has; cbn [cmp_Write cmp_Close cmp_ReadFull cmp_ReadAll cmp_Reset cmp_Len cmp_Flush Ratio_Compressor].
  - intros c. apply zb_has_new.
  - intros c i t p c' n H. unfold rc_Write, rc_on. destruct (rc_FullErr c); [done|]. cbn [rc_compress].
    destruct (zb_Write p (rc_compress c)) as [b r] eqn:E. intros [= <- ->]. by eapply zb_has_Write.
  - intros c i t p c' e H. unfold rc_Write, rc_on. destruct (rc_FullErr c); [by intros [= <- _]|]. cbn [rc_compress].
    destruct (zb_Write p (rc_compress c)) as [b r] eqn:E. intros [= <- ->]. by destruct (zb_has_fail _ _ _ _ _ _ H E).
  - intros c i t p c' e H. cbn [cmp_FullErr]. unfold rc_Write, rc_on. destruct (rc_FullErr c) eqn:Ef; [intros [= <- _]; cbn; by rewrite Ef|].
    cbn [rc_compress]. destruct (zb_Write p (rc_compress c)) as [b r] eqn:E. intros [= <- ->].
    by destruct (zb_has_fail _ _ _ _ _ _ H E).
  - intros c p c' e Hf. change (rc_FullErr c = None) in Hf. unfold rc_Write, rc_on, rc_FullErr, inputTargetReached, rc_Reset in *.
    cbn [rc_InputThreshold rc_inputBytes rc_compress].
    revert Hf. destruct (Z.leb_spec (rc_InputThreshold c) (u64 (rc_inputBytes c))) as [|Hlt]; [done|]. intros _.
    pose proof (u64_range (rc_inputBytes c)). destruct (Z.leb_spec (rc_InputThreshold c) (u64 0)); [ulia|].
    destruct (zb_Write p zb_new) as [b r] eqn:E. intros [= <- ->]. by destruct (zb_has_fail _ _ _ _ _ _ zb_has_new E).
  - intros c i t H. destruct (zb_has_Flush _ _ _ H) as (b & E & Hb & Hd). unfold rc_on. rewrite E. eexists.
    split; [done|]. split; [done|]. cbn. intros d [= <-]. done.
  - intros c i t H. destruct (zb_has_Close _ _ _ H) as (b & E & Hb). unfold rc_on. rewrite E. by eexists.
  - intros c. apply blen_nonneg.
  - intros c i t cl n H Hn. destruct (zb_has_ReadFull _ _ _ _ _ H Hn) as (b & d & E & Hb & Hd & Hl).
    unfold rc_on. rewrite E. by eexists _, _.
  - apply (zl_header Laws).
  - apply (deflated_ok Laws).
  - intros c i t cl. apply zb_has_ok.
  - intros c i t cl H. apply zb_has_ReadAll in H. by eexists _, _.
  - intros c i t H Hl. unfold zb_has in H. destruct (zb_data (rc_compress c)); [by rewrite app_nil_r in H|].
    unfold blen in Hl. cbn in Hl. lia.
Qed.

Definition sc_has (t : ShadowCompressor) (i r : bytes) (closed : bool) : Prop :=
  zb_has (sc_compress t) i r closed /\ (closed = false -> exists i' r', zb_has (sc_shadow t) i' r' false).

Lemma sc_Write_cases c i t p c' r : sc_has c i t false -> sc_Write p c = (c', r) ->
  match r with Ok _ => sc_has c' (i ++ p) t false | Err _ => sc_has c' i t false /\ sc_fullErr c' <> None /\ 0 < sc_Len c end.
Proof using Laws.
  intros [H Hs] Hw. destruct (Hs eq_refl) as (i' & r' & Hs'). unfold sc_Write, mbind, stM_bind, sc_on_shadow in Hw. unfold sc_store in Hw.
  destruct (zb_Write p (sc_shadow c)) as [b [n|e]] eqn:E; [|by destruct (zb_has_fail _ _ _ _ _ _ Hs' E)].
  apply (zb_has_Write _ _ _ _ _ _ Hs') in E. cbn [sc_shadow sc_compress sc_TargetFrameSize sc_TargetNumFrames sc_fullErr] in Hw.
  destruct (zb_has_Flush _ _ _ E) as (b' & E' & Hb' & _). rewrite E' in Hw.
  assert (Hgo : forall t0, sc_compress t0 = sc_compress c -> sc_shadow t0 = b' -> sc_on (zb_Write p) t0 = (c', r) ->
    match r with Ok _ => sc_has c' (i ++ p) t false | Err _ => sc_has c' i t false /\ sc_fullErr c' <> None /\ 0 < sc_Len c end).
  { intros t0 Hc Ht. unfold sc_on. rewrite Hc. destruct (zb_Write p (sc_compress c)) as [b2 r2] eqn:E2. intros [= <- <-].
    destruct r2 as [k|e]; [|by destruct (zb_has_fail _ _ _ _ _ _ H E2)].
    split; cbn; [by eapply zb_has_Write|]. rewrite Ht. eauto. }
  destruct (_ <? _); [|by eapply Hgo; [| |exact Hw]].
  destruct (Z.ltb_spec 0 (sc_Len (set_fullErr (Some CompressorFullErr)
    (mkShadow (sc_TargetFrameSize c) (sc_TargetNumFrames c) (sc_compress c) b' (sc_fullErr c))))) as [Hlen|];
    [|by eapply Hgo; [| |exact Hw]].
  injection Hw as <- <-. split; [split; cbn; eauto|done].
Qed.

Lemma shadow_laws : compressor_laws ShadowCompressor sc_has.
Proof using Laws.
  split; cbn [cmp_Write cmp_Close cmp_ReadFull cmp_ReadAll cmp_Reset cmp_Len cmp_Flush Shadow_Compressor].
  - intros c. split; [apply zb_has_new|]. intros _. eexists _, _. apply zb_has_new.
  - intros c i t p c' n H Hw. by apply (sc_Write_cases _ _ _ _ _ _ H) in Hw.
  - intros c i t p c' e H Hw. by apply (sc_Write_cases _ _ _ _ _ _ H) in Hw as [? _].
  - intros c i t p c' e H Hw. by apply (sc_Write_cases _ _ _ _ _ _ H) in Hw as (_ & ? & _).
  - intros c p c' e _ Hw. assert (H : sc_has (sc_Reset c) [] [] false).
    { split; [apply zb_has_new|]. intros _. eexists _, _. apply zb_has_new. }
    apply (sc_Write_cases _ _ _ _ _ _ H) in Hw as (_ & _ & Hl). by vm_compute in Hl.
  - intros c i t [H Hs]. destruct (zb_has_Flush _ _ _ H) as (b & E & Hb & Hd). unfold sc_on. rewrite E. eexists.
    split; [done|]. split; [by split|]. cbn. intros d [= <-]. done.
  - intros c i t [H Hs]. destruct (zb_has_Close _ _ _ H) as (b & E & Hb). unfold sc_on. rewrite E. eexists.
    split; [done|]. by split.
  - intros c. apply blen_nonneg.
  - intros c i t cl n [H Hs] Hn. destruct (zb_has_ReadFull _ _ _ _ _ H Hn) as (b & d & E & Hb & Hd & Hl).
    unfold sc_on. rewrite E. eexists _, _. split; [done|]. split; [by split|done].
  - apply (zl_header Laws).
  - apply (deflated_ok Laws).
  - intros c i t cl [H _]. by apply zb_has_ok in H.
  - intros c i t cl [H Hs]. apply zb_has_ReadAll in H. eexists _, _. split; [done|]. split; [by split|done].
  - intros c i t [H _] Hl. unfold zb_has in H. unfold sc_Len in Hl. destruct (zb_data (sc_compress c)); [by rewrite app_nil_r in H|].
    unfold blen in Hl. cbn in Hl. lia.
Qed.
End Compressors.

(** ** A toy writer, for concrete examples

    A number is written in unary, with its sign; a flush or the end leaves a
    mark. *)
Definition toy_put (z : Z) : bytes := replicate (Z.to_nat (Z.abs z)) 1 ++ [if z <? 0 then 2 else 0].

Fixpoint toy_get (n : nat) (out : bytes) : bytes :=
  match out with
  | [] => []
  | b :: out =>
      if b =? 1 then toy_get (S n) out
      else if b =? 0 then Z.of_nat n :: toy_get 0 out
      else if b =? 2 then (- Z.of_nat n) :: toy_get 0 out
      else toy_get n out
  end.

#[local] Instance toy_zlib : ZlibWriter := {|
  zwriter := unit;
  zw_New := tt;
  zw_Write := fun p z => (z, Ok (concat (map toy_put p)));
  zw_Flush := fun z => (z, Ok [3]);
  zw_Close := fun z => (z, Ok [3]);
|}.

Lemma toy_get_put z out : toy_get 0 (toy_put z ++ out) = z :: toy_get 0 out.
Proof.
  assert (H : forall k n, toy_get n (replicate k 1 ++ [if z <? 0 then 2 else 0] ++ out) =
    (if z <? 0 then - Z.of_nat (n + k) else Z.of_nat (n + k)) :: toy_get 0 out).
  { induction k as [|k IH]; intros n; cbn [replicate app toy_get].
    - rewrite Nat.add_0_r. by destruct (z <? 0).
    - rewrite Z.eqb_refl, IH. by rewrite Nat.add_succ_r. }
  unfold toy_put. rewrite <- app_assoc, H. f_equal. destruct (Z.ltb_spec z 0); lia.
Qed.

Lemma toy_get_puts p out : toy_get 0 (concat (map toy_put p) ++ out) = p ++ toy_get 0 out.
Proof. induction p as [|z p IH]; [done|]. cbn [map concat app]. by rewrite <- app_assoc, toy_get_put, IH. Qed.

Lemma toy_run_get z i o : zw_run z i o -> forall out, toy_get 0 (o ++ out) = i ++ toy_get 0 out.
Proof.
  induction 1 as [|z i o p z' o' _ IH Hw|z i o z' o' _ IH Hw]; intros out; [done|..].
  - injection Hw as _ <-. by rewrite <- !app_assoc, IH, toy_get_puts.
  - injection Hw as _ <-. by rewrite <- !app_assoc, IH.
Qed.

Lemma toy_inflate i o : deflated i o -> toy_get 0 o = i.
Proof.
  intros [z z' o1 o2 Hr Hf ->|z z' o1 o2 Hr Hf ->]; injection Hf as _ <-; rewrite (toy_run_get _ _ _ Hr); apply app_nil_r.
Qed.

Lemma toy_zlib_laws : zlib_laws.
Proof.
  assert (Hp : forall p, bytes_ok (concat (map toy_put p))).
  { induction p as [|z p IH]; [constructor|]. cbn. apply bytes_ok_app. split; [|done]. unfold toy_put. apply bytes_ok_app. split.
    - apply Forall_replicate. ulia.
    - constructor; [|constructor]. destruct (z <? 0); ulia. }
  split.
  - intros z i o p _. eexists _, _. split; [done|]. apply Hp.
  - intros z i o _. eexists _, _. split; [done|]. vm_decide.
  - intros z i o _. eexists _, _. split; [done|]. vm_decide.
  - intros i o [z z' o1 o2 _ Hf ->|z z' o1 o2 _ Hf ->]; injection Hf as _ <-; by destruct o1.
Qed.
