(* ===== verification/ChannelOut.v ===== *)
(** * Writing channels

    [op-node/rollup/derive/channel_out.go] and [span_channel_out.go]: how the
    batcher turns L2 blocks into batches, batches into a compressed channel,
    and a channel into frames. *)

From S2P Require Import Prelude Eth Frame Channel BitCodec SystemConfig Espresso L1Info Stages Attributes Batches SpanBatchTxs SpanBatch BatchQueue ChannelInReader Compressor.

Definition ErrMaxFrameSizeTooSmall : go_error := Errorf "maxSize is too small to fit the fixed frame overhead".
Definition ErrNotDepositTx : go_error := Errorf "first transaction in block is not a deposit tx".
Definition ErrTooManyRLPBytes : go_error := Errorf "batch would cause RLP bytes to go over limit".
Definition FrameV0OverHeadSize : Z := 23.

(** ** Blocks

    go-ethereum's blocks, of the fork that records the transactions it
    rejected, and the RLP encoding of a byte string. *)
Class BlockLib := {
  EthTx : Type;
  etx_Type : EthTx -> Z;
  etx_Data : EthTx -> bytes;
  etx_MarshalBinary : EthTx -> res bytes;
  rlp_string : bytes -> bytes;
}.

Section Blocks.
Context `{B : BlockLib} `{E : EspressoLib}.

Record RejectedTransaction := mkRejected {
  rj_Data : bytes;
  rj_Pos : Z;
}.

Record Block := mkBlock {
  bk_Hash : Hash;
  bk_ParentHash : Hash;
  bk_Number : Z;
  bk_Time : Z;
  bk_Transactions : list EthTx;
  bk_Rejected : list RejectedTransaction;
}.

(** The loop of [BlockToSingularBatch]: included and rejected transactions in
    the order the sequencer had them, less the included deposits. *)
Fixpoint opaque_txs (blockTxs : list EthTx) : Z -> list RejectedTransaction -> res (list bytes) :=
  fix inner (pos : Z) (rejected : list RejectedTransaction) : res (list bytes) :=
    let next (rejected : list RejectedTransaction) : res (list bytes) :=
      match blockTxs with
      | [] => Err (GoPanic "index out of range")
      | tx :: blockTxs =>
          if etx_Type tx =? DepositTxType then opaque_txs blockTxs (pos +₆₄ 1) rejected
          else
            otx ← map_err (Wrapf "could not encode tx") (etx_MarshalBinary tx);
            rest ← opaque_txs blockTxs (pos +₆₄ 1) rejected;
            Ok (otx :: rest)
      end in
    match rejected with
    | [] => match blockTxs with [] => Ok [] | _ :: _ => next [] end
    | r :: rest =>
        if rj_Pos r =? pos then
          txs ← inner pos rest;
          Ok (rj_Data r :: txs)
        else next (r :: rest)
    end.

Variable Keccak256Hash : bytes -> Hash.
Variable rlp_decode_jst : bytes -> res L2BatchJustification.

Definition BlockToSingularBatch (block : Block) : res (SingularBatch * L1BlockInfo) :=
  opaqueTxs ← opaque_txs (bk_Transactions block) 0 (bk_Rejected block);
  match bk_Transactions block with
  | [] => Err (Errorf "block has no transactions")
  | l1InfoTx :: _ =>
      if negb (etx_Type l1InfoTx =? DepositTxType) then Err ErrNotDepositTx else
      l1Info ← map_err (Wrapf "could not parse the L1 Info deposit")
                       (L1InfoDepositTxData Keccak256Hash rlp_decode_jst (etx_Data l1InfoTx));
      Ok ({| sb_ParentHash := bk_ParentHash block; sb_EpochNum := li_Number l1Info;
             sb_EpochHash := li_BlockHash l1Info; sb_Timestamp := bk_Time block;
             sb_Transactions := opaqueTxs; sb_Justification := li_Justification l1Info |}, l1Info)
  end.

(** [L2BlockToBlockRef] of [l2block_util.go] *)
Definition L2BlockToBlockRef (block : Block) (genesis : Genesis) : res L2BlockRef :=
  '(l1Origin, sequenceNumber) ←
    (if bk_Number block =? id_Number (gen_L2 genesis) then
       if negb (bool_decide (bk_Hash block = id_Hash (gen_L2 genesis))) then
         Err (Errorf "expected L2 genesis hash to match L2 block at genesis block number")
       else Ok (gen_L1 genesis, 0)
     else
       match bk_Transactions block with
       | [] => Err (Errorf "l2 block is missing L1 info deposit tx")
       | tx :: _ =>
           if negb (etx_Type tx =? DepositTxType) then Err (Errorf "first payload tx has unexpected tx type") else
           info ← map_err (Wrapf "failed to parse L1 info deposit tx from L2 block")
                          (L1InfoDepositTxData Keccak256Hash rlp_decode_jst (etx_Data tx));
           Ok (mkBlockID (li_BlockHash info) (li_Number info), li_SequenceNumber info)
       end);
  Ok {| l2_Hash := bk_Hash block; l2_Number := bk_Number block;
        l2_ParentHash := bk_ParentHash block; l2_Time := bk_Time block;
        l2_L1Origin := l1Origin; l2_SequenceNumber := sequenceNumber |}.

(** What the execution engine makes of the transactions it is given, from
    position [pos] of the block on: each is included, or rejected and recorded
    with the position it would have had; [seq] are the given transactions less
    the included deposits. *)
Inductive sequenced : Z -> list bytes -> list EthTx -> list RejectedTransaction -> Prop :=
| sequenced_done pos : sequenced pos [] [] []
| sequenced_deposit pos seq tx txs rej : etx_Type tx = DepositTxType ->
    sequenced (pos + 1) seq txs rej -> sequenced pos seq (tx :: txs) rej
| sequenced_included pos otx seq tx txs rej : etx_Type tx <> DepositTxType -> etx_MarshalBinary tx = Ok otx ->
    sequenced (pos + 1) seq txs rej -> sequenced pos (otx :: seq) (tx :: txs) rej
| sequenced_rejected pos otx seq txs rej :
    sequenced pos seq txs rej -> sequenced pos (otx :: seq) txs (mkRejected otx pos :: rej).

Lemma sequenced_rejected_pos pos seq txs rej : sequenced pos seq txs rej ->
  Forall (fun r => pos <= rj_Pos r) rej.
Proof.
  induction 1 as [| ? ? ? ? ? ? H IH | ? ? ? ? ? ? ? ? H IH |]; try constructor; cbn; try lia; try done;
    (eapply Forall_impl; [exact IH|]; cbn; lia).
Qed.

Lemma opaque_txs_eq txs pos rej : opaque_txs txs pos rej =
  match rej with
  | r :: rest =>
      if rj_Pos r =? pos then txs' ← opaque_txs txs pos rest; Ok (rj_Data r :: txs')
      else match txs with
           | [] => Err (GoPanic "index out of range")
           | tx :: txs =>
               if etx_Type tx =? DepositTxType then opaque_txs txs (pos +₆₄ 1) rej
               else otx ← map_err (Wrapf "could not encode tx") (etx_MarshalBinary tx);
                    rest ← opaque_txs txs (pos +₆₄ 1) rej; Ok (otx :: rest)
           end
  | [] =>
      match txs with
      | [] => Ok []
      | tx :: txs =>
          if etx_Type tx =? DepositTxType then opaque_txs txs (pos +₆₄ 1) rej
          else otx ← map_err (Wrapf "could not encode tx") (etx_MarshalBinary tx);
               rest ← opaque_txs txs (pos +₆₄ 1) rej; Ok (otx :: rest)
      end
  end.
Proof. by destruct txs, rej. Qed.

(** Included and rejected transactions are merged back into the list the
    engine was given. *)
Lemma opaque_txs_sequenced pos seq txs rej : sequenced pos seq txs rej -> 0 <= pos ->
  pos + Z.of_nat (length txs) < 2 ^ 64 -> opaque_txs txs pos rej = Ok seq.
Proof.
  intros H. induction H as [pos|pos seq tx txs rej Ht H IH|pos otx seq tx txs rej Ht Hm H IH|pos otx seq txs rej H IH];
    intros Hp Hl; cbn [length] in Hl; rewrite opaque_txs_eq.
  - done.
  - pose proof (sequenced_rejected_pos _ _ _ _ H) as Hr. rewrite (add64_small pos 1) by (unfold is_u64; lia).
    rewrite IH by lia. rewrite Ht, Z.eqb_refl. destruct rej as [|r rej]; [done|].
    apply Forall_cons_1 in Hr as [Hr _]. destruct (Z.eqb_spec (rj_Pos r) pos); [lia|done].
  - pose proof (sequenced_rejected_pos _ _ _ _ H) as Hr. rewrite (add64_small pos 1) by (unfold is_u64; lia).
    rewrite IH by lia. rewrite Hm. destruct (Z.eqb_spec (etx_Type tx) DepositTxType); [done|].
    destruct rej as [|r rej]; [done|].
    apply Forall_cons_1 in Hr as [Hr _]. destruct (Z.eqb_spec (rj_Pos r) pos); [lia|done].
  - cbn [rj_Pos rj_Data]. rewrite Z.eqb_refl, IH by lia. done.
Qed.
End Blocks.

(** ** Closing a channel by hand: [ForceCloseTxData] *)

(** The loop over the frames: whether one of them is the last, its number, and
    the numbers there are. *)
Fixpoint force_close_scan (id : ChannelID) (frames : list Frame) (closed : bool) (closeNumber : Z) (numbers : gset Z)
    : res (bool * Z * gset Z) :=
  match frames with
  | [] => Ok (closed, closeNumber, numbers)
  | f :: frames =>
      let closeNumber := if negb closed && IsLast f then FrameNumber f else closeNumber in
      if negb (bool_decide (ID f = id)) then Err (Errorf "invalid ID in list")
      else force_close_scan id frames (closed || IsLast f) closeNumber (numbers ∪ {[ FrameNumber f ]})
  end.

(** The loop over the frame numbers, which wrap around. *)
Fixpoint force_close_fill (fuel : nat) (id : ChannelID) (closeNumber : Z) (numbers : gset Z) (i : Z) : res bytes :=
  if i <=? closeNumber then
    match fuel with
    | O => Err (GoPanic "infinite loop")
    | S fuel =>
        rest ← force_close_fill fuel id closeNumber numbers (u16 (i + 1));
        Ok ((if decide (i ∈ numbers) then [] else MarshalBinary (mkFrame id i [] false)) ++ rest)
    end
  else Ok [].

Definition ForceCloseTxData (frames : list Frame) : res bytes :=
  match frames with
  | [] => Err (Errorf "must provide at least one frame")
  | first :: _ =>
      '(closed, closeNumber, numbers) ← force_close_scan (ID first) frames false 0 ∅;
      rest ← (if (closed : bool) then force_close_fill (Z.to_nat (closeNumber + 1)) (ID first) closeNumber numbers 0
              else Ok (MarshalBinary (mkFrame (ID first) 0 [] true)));
      Ok (DerivationVersion0 :: rest)
  end.

(** The frame that is to close an open channel has number 0, so it is a
    duplicate in a channel whose frame 0 has arrived, and closes nothing. *)
Lemma force_close_duplicate (id : ChannelID) (ch : Channel) (l1 : L1BlockRef) :
  ch_id ch = id -> ch_closed ch = false -> is_Some (ch_inputs ch !! 0) ->
  AddFrame ch (mkFrame id 0 [] true) l1 = (ch, Err DuplicateErr).
Proof.
  intros Hid Hc Hs. unfold AddFrame. cbn [ID IsLast FrameNumber]. rewrite Hid, Hc, bool_decide_eq_true_2 by done.
  cbn [negb andb]. by rewrite bool_decide_eq_true_2.
Qed.

(** ** The interface

    A write of frames that ends a channel returns its data and [io.EOF]
    together, so [co_OutputFrame] returns the bytes it wrote, the frame number
    and an error. A new channel takes its random identifier as argument. *)
Class ChannelOut `{EspressoLib} (O : Type) := {
  co_ID : O -> ChannelID;
  co_Reset : ChannelID -> O -> O;
  co_AddSingularBatch : SingularBatch -> Z -> stM O Z;
  co_InputBytes : O -> Z;
  co_ReadyBytes : O -> Z;
  co_Flush : stM O unit;
  co_FullErr : O -> option go_error;
  co_Close : stM O unit;
  co_OutputFrame : Z -> O -> O * (bytes * Z * option go_error);
}.

(** [createEmptyFrame]: the data is allocated and filled in later. The number
    of ready bytes is a length, which as an [int] and as a [uint64] is the
    same. *)
Definition createEmptyFrame (id : ChannelID) (frame readyBytes : Z) (closed : bool) (maxSize : Z) : Frame :=
  let maxDataSize := maxSize -₆₄ FrameV0OverHeadSize in
  let all := readyBytes <? maxDataSize in
  let maxDataSize := if all then readyBytes else maxDataSize in
  {| ID := id; FrameNumber := u16 frame; Data := zeros (Z.to_nat maxDataSize); IsLast := all && closed |}.

Definition set_Data (data : bytes) (f : Frame) : Frame :=
  {| ID := ID f; FrameNumber := FrameNumber f; Data := data; IsLast := IsLast f |}.

(** A channel takes batches, then it is sealed, then closed. *)
Inductive out_status := Adding | Sealed | Ended.
#[export] Instance out_status_eq_dec : EqDecision out_status.
Proof. solve_decision. Defined.

Section Out.
Context `{B : BlockLib} `{E : EspressoLib} {AccessList : Type} `{L : TxLib (AccessList := AccessList)} `{Ch : !ChannelLib}.
Context {C : Type} `{CC : Compressor C}.

(** [rlp.Encode] of a [BatchData]. *)
Definition encode_batch (b : BatchData) : res bytes := rlp_string <$> encodeTyped b.

(** ** [SingularChannelOut] *)

Record SingularChannelOut := mkSingularOut {
  so_id : ChannelID;
  so_frame : Z;
  so_rlpLength : Z;
  so_compress : C;
  so_closed : bool;
}.

Definition NewSingularChannelOut (compress : C) (id : ChannelID) : SingularChannelOut :=
  mkSingularOut id 0 0 compress false.

Definition so_Reset (id : ChannelID) (co : SingularChannelOut) : SingularChannelOut :=
  mkSingularOut id 0 0 (cmp_Reset (so_compress co)) false.

(** Runs an operation of the compressor. *)
Definition so_on {A} (m : stM C A) : stM SingularChannelOut A := fun co =>
  let '(c, r) := m (so_compress co) in
  (mkSingularOut (so_id co) (so_frame co) (so_rlpLength co) c (so_closed co), r).

Definition so_AddSingularBatch (batch : SingularBatch) (_ : Z) : stM SingularChannelOut Z := fun co =>
  if so_closed co then (co, Err (Errorf "already closed")) else
  match encode_batch (SingularData batch) with
  | Err e => (co, Err e)
  | Ok buf =>
      if MaxRLPBytesPerChannel <? so_rlpLength co + blen buf then
        (co, Err (Wrapf "could not add bytes to channel" ErrTooManyRLPBytes))
      else
        so_on (cmp_Write buf)
          (mkSingularOut (so_id co) (so_frame co) (so_rlpLength co + blen buf) (so_compress co) (so_closed co))
  end.

Definition so_ReadyBytes (co : SingularChannelOut) : Z := cmp_Len (so_compress co).

Definition so_Close : stM SingularChannelOut unit := fun co =>
  if so_closed co then (co, Err (Errorf "already closed"))
  else so_on cmp_Close (mkSingularOut (so_id co) (so_frame co) (so_rlpLength co) (so_compress co) true).

Definition so_OutputFrame (maxSize : Z) (co : SingularChannelOut) : SingularChannelOut * (bytes * Z * option go_error) :=
  if maxSize <? FrameV0OverHeadSize then (co, ([], 0, Some ErrMaxFrameSizeTooSmall)) else
  let f := createEmptyFrame (so_id co) (so_frame co) (so_ReadyBytes co) (so_closed co) maxSize in
  match so_on (cmp_ReadFull (blen (Data f))) co with
  | (co, Err e) => (co, ([], 0, Some e))
  | (co, Ok data) =>
      let f := set_Data data f in
      (mkSingularOut (so_id co) (so_frame co +₆₄ 1) (so_rlpLength co) (so_compress co) (so_closed co),
       (MarshalBinary f, FrameNumber f, if IsLast f then Some EOF else None))
  end.

#[global] Instance Singular_ChannelOut : ChannelOut SingularChannelOut := {
  co_ID := so_id;
  co_Reset := so_Reset;
  co_AddSingularBatch := so_AddSingularBatch;
  co_InputBytes := so_rlpLength;
  co_ReadyBytes := so_ReadyBytes;
  co_Flush := so_on cmp_Flush;
  co_FullErr := fun co => cmp_FullErr (so_compress co);
  co_Close := so_Close;
  co_OutputFrame := so_OutputFrame;
}.

(** ** [SpanChannelOut] *)

Record SpanChannelOut := mkSpanOut {
  po_id : ChannelID;
  po_frame : Z;
  po_rlpLength : Z;
  po_compress : C;
  po_closed : bool;
  po_builder : SpanBatchBuilder;
  po_reader : bytes;
}.

Definition NewSpanChannelOut (compress : C) (builder : SpanBatchBuilder) (id : ChannelID) : SpanChannelOut :=
  mkSpanOut id 0 0 compress false builder [].

Definition po_Reset (id : ChannelID) (co : SpanChannelOut) : SpanChannelOut :=
  mkSpanOut id 0 0 (cmp_Reset (po_compress co)) false (bd_Reset (po_builder co)) [].

Definition po_set_builder (b : SpanBatchBuilder) (co : SpanChannelOut) : SpanChannelOut :=
  mkSpanOut (po_id co) (po_frame co) (po_rlpLength co) (po_compress co) (po_closed co) b (po_reader co).
Definition po_set_rlpLength (n : Z) (co : SpanChannelOut) : SpanChannelOut :=
  mkSpanOut (po_id co) (po_frame co) n (po_compress co) (po_closed co) (po_builder co) (po_reader co).
Definition po_set_compress (c : C) (co : SpanChannelOut) : SpanChannelOut :=
  mkSpanOut (po_id co) (po_frame co) (po_rlpLength co) c (po_closed co) (po_builder co) (po_reader co).
Definition po_set_reader (r : bytes) (co : SpanChannelOut) : SpanChannelOut :=
  mkSpanOut (po_id co) (po_frame co) (po_rlpLength co) (po_compress co) (po_closed co) (po_builder co) r.

Definition po_on {A} (m : stM C A) : stM SpanChannelOut A := fun co =>
  let '(c, r) := m (po_compress co) in (po_set_compress c co, r).

(** [io.Copy(co.reader, co.compress)]; after an error the reader is emptied. *)
Definition po_copy (msg : string) : stM SpanChannelOut unit := fun co =>
  match po_on cmp_ReadAll co with
  | (co, Ok d) => (po_set_reader (po_reader co ++ d) co, Ok tt)
  | (co, Err e) => (po_set_reader [] co, Err (wrap_err (Wrapf msg) e))
  end.

(** Keeps the compressed form of the span without the newest block. *)
Definition po_preserve : stM SpanChannelOut unit := fun co =>
  if 1 <? bd_GetBlockCount (po_builder co) then
    (_ ← wrapping (Wrapf "failed to flush compressor") (po_on cmp_Flush);
     po_copy "failed to copy compressed data to reader") co
  else (co, Ok tt).

(** Rewrites the whole span, now with the newest block. *)
Definition po_rewrite (buf : bytes) : stM SpanChannelOut Z := fun co =>
  let '(co, r) := po_on (cmp_Write buf) (po_set_compress (cmp_Reset (po_compress co)) co) in
  match cmp_FullErr (po_compress co) with
  | Some e =>
      if bd_GetBlockCount (po_builder co) =? 1 then (co, Ok (match r with Ok n => n | Err _ => 0 end))
      else (co, Err e)
  | None => (po_set_reader [] co, r)
  end.

Definition po_AddSingularBatch (batch : SingularBatch) (seqNum : Z) : stM SpanChannelOut Z := fun co =>
  if po_closed co then (co, Err (Errorf "already closed")) else
  match cmp_FullErr (po_compress co) with
  | Some e => (co, Err e)
  | None =>
      let co := po_set_builder (bd_AppendSingularBatch batch seqNum (po_builder co)) co in
      match bd_GetRawSpanBatch (po_builder co) with
      | Err e => (co, Err (wrap_err (Wrapf "failed to convert SpanBatch into RawSpanBatch") e))
      | Ok raw =>
          match encode_batch (SpanData raw) with
          | Err e => (co, Err (wrap_err (Wrapf "failed to encode RawSpanBatch into bytes") e))
          | Ok buf =>
              if MaxRLPBytesPerChannel <? blen buf then
                (co, Err (Wrapf "could not take bytes as replacement of channel" ErrTooManyRLPBytes))
              else (_ ← po_preserve; po_rewrite buf) (po_set_rlpLength (blen buf) co)
          end
      end
  end.

Definition po_ReadyBytes (co : SpanChannelOut) : Z := blen (po_reader co).

Definition po_Flush : stM SpanChannelOut unit := fun co =>
  match po_on cmp_Flush co with
  | (co, Err e) => (co, Err e)
  | (co, Ok _) =>
      if po_closed co && (po_ReadyBytes co =? 0) && (0 <? cmp_Len (po_compress co)) then
        po_copy "failed to flush compressed data to reader" co
      else (co, Ok tt)
  end.

Definition po_Close : stM SpanChannelOut unit := fun co =>
  if po_closed co then (co, Err (Errorf "already closed")) else
  (_ ← po_Flush; po_on cmp_Close)
    (mkSpanOut (po_id co) (po_frame co) (po_rlpLength co) (po_compress co) true (po_builder co) (po_reader co)).

Definition po_OutputFrame (maxSize : Z) (co : SpanChannelOut) : SpanChannelOut * (bytes * Z * option go_error) :=
  if maxSize <? FrameV0OverHeadSize then (co, ([], 0, Some ErrMaxFrameSizeTooSmall)) else
  let f := createEmptyFrame (po_id co) (po_frame co) (po_ReadyBytes co) (po_closed co) maxSize in
  match buf_ReadFull (blen (Data f)) (po_reader co) with
  | (reader, Err e) => (po_set_reader reader co, ([], 0, Some e))
  | (reader, Ok data) =>
      let f := set_Data data f in
      (mkSpanOut (po_id co) (po_frame co +₆₄ 1) (po_rlpLength co) (po_compress co) (po_closed co) (po_builder co) reader,
       (MarshalBinary f, FrameNumber f, if IsLast f then Some EOF else None))
  end.

#[global] Instance Span_ChannelOut : ChannelOut SpanChannelOut := {
  co_ID := po_id;
  co_Reset := po_Reset;
  co_AddSingularBatch := po_AddSingularBatch;
  co_InputBytes := po_rlpLength;
  co_ReadyBytes := po_ReadyBytes;
  co_Flush := po_Flush;
  co_FullErr := fun co => cmp_FullErr (po_compress co);
  co_Close := po_Close;
  co_OutputFrame := po_OutputFrame;
}.

(** [AddBlock] of either kind: the batch of a block. *)
Section AddBlock.
Variable Keccak256Hash : bytes -> Hash.
Variable rlp_decode_jst : bytes -> res L2BatchJustification.

Definition so_AddBlock (block : Block) : stM SingularChannelOut Z := fun co =>
  if so_closed co then (co, Err (Errorf "already closed")) else
  match BlockToSingularBatch Keccak256Hash rlp_decode_jst block with
  | Err e => (co, Err e)
  | Ok (batch, l1Info) => so_AddSingularBatch batch (li_SequenceNumber l1Info) co
  end.

Definition po_AddBlock (block : Block) : stM SpanChannelOut Z := fun co =>
  if po_closed co then (co, Err (Errorf "already closed")) else
  match BlockToSingularBatch Keccak256Hash rlp_decode_jst block with
  | Err e => (co, Err e)
  | Ok (batch, l1Info) => po_AddSingularBatch batch (li_SequenceNumber l1Info) co
  end.
End AddBlock.

(** ** Specification

    What a user of a channel relies on: batches are added until the channel
    refuses one, then it is closed, and its frames carry a compressed stream of
    the items that stand for the batches. A batch comes with its sequence
    number. *)

Context `{ZW : ZlibWriter}.

Definition rlp_items (items : list bytes) : bytes := concat (map rlp_string items).

(** [carries represents bs out]: [out] is a compressed channel of [bs]. *)
Definition carries (represents : list (SingularBatch * Z) -> list bytes -> Prop) (bs : list (SingularBatch * Z)) (out : bytes) : Prop :=
  exists items, represents bs items /\ deflated (rlp_items items) out /\ blen (rlp_items items) <= MaxRLPBytesPerChannel.

Record channel_out_laws {O : Type} `{!ChannelOut O} (represents : list (SingularBatch * Z) -> list bytes -> Prop)
  (holds_out : O -> ChannelID -> list (SingularBatch * Z) -> list bytes -> out_status -> Prop) : Prop := {
  ol_id : forall co id bs parts st, holds_out co id bs parts st -> co_ID co = id;
  ol_add : forall co id bs parts b n co' k, holds_out co id bs parts Adding ->
    co_AddSingularBatch b n co = (co', Ok k) -> holds_out co' id (bs ++ [(b, n)]) parts Adding;
  ol_add_fail : forall co id bs parts b n co' e, holds_out co id bs parts Adding ->
    co_AddSingularBatch b n co = (co', Err e) -> holds_out co' id bs parts Sealed;
  ol_seal : forall co id bs parts, holds_out co id bs parts Adding -> holds_out co id bs parts Sealed;
  ol_close : forall co id bs parts, holds_out co id bs parts Sealed ->
    exists co', co_Close co = (co', Ok tt) /\ holds_out co' id bs parts Ended;
  ol_closed : forall co id bs parts, holds_out co id bs parts Ended -> exists msg, co_Close co = (co, Err (Errorf msg));
  ol_output : forall co id bs parts st maxSize, holds_out co id bs parts st -> st <> Sealed ->
    FrameV0OverHeadSize <= maxSize < 2 ^ 64 ->
    exists co' d, let last := bool_decide (co_ReadyBytes co < maxSize - FrameV0OverHeadSize /\ st = Ended) in
      let f := mkFrame id (u16 (Z.of_nat (length parts))) d last in
      co_OutputFrame maxSize co = (co', (MarshalBinary f, FrameNumber f, if last then Some EOF else None)) /\
      blen d = Z.min (co_ReadyBytes co) (maxSize - FrameV0OverHeadSize) /\ bytes_ok d /\
      co_ReadyBytes co' = co_ReadyBytes co - blen d /\ holds_out co' id bs (parts ++ [d]) st;
  ol_ready : forall co, 0 <= co_ReadyBytes co;
  ol_drained : forall co id bs parts, holds_out co id bs parts Ended -> co_ReadyBytes co = 0 ->
    carries represents bs (concat parts);
}.

Context (has : C -> bytes -> bytes -> bool -> Prop) (CL : compressor_laws C has).

Lemma createEmptyFrame_spec id n ready closed maxSize :
  0 <= ready -> FrameV0OverHeadSize <= maxSize < 2 ^ 64 ->
  createEmptyFrame id n ready closed maxSize =
    mkFrame id (u16 n) (zeros (Z.to_nat (Z.min ready (maxSize - FrameV0OverHeadSize))))
      (bool_decide (ready < maxSize - FrameV0OverHeadSize) && closed).
Proof.
  intros Hr Hm. unfold createEmptyFrame, FrameV0OverHeadSize in *.
  rewrite sub64_small by (unfold is_u64; lia). destruct (Z.ltb_spec ready (maxSize - 23)).
  - rewrite Z.min_l by lia. by rewrite bool_decide_eq_true_2.
  - rewrite Z.min_r by lia. by rewrite bool_decide_eq_false_2 by lia.
Qed.

(** *** Singular channels *)

Definition singular_items (bs : list (SingularBatch * Z)) (items : list bytes) : Prop :=
  Forall2 (fun b x => encodeTyped (SingularData b.1) = Ok x) bs items.

Definition so_holds (co : SingularChannelOut) (id : ChannelID) (bs : list (SingularBatch * Z)) (parts : list bytes)
    (st : out_status) : Prop :=
  so_id co = id /\ so_frame co = u64 (Z.of_nat (length parts)) /\ so_closed co = bool_decide (st = Ended) /\
  exists items, singular_items bs items /\ blen (rlp_items items) <= so_rlpLength co <= MaxRLPBytesPerChannel /\
    has (so_compress co) (rlp_items items) (concat parts) (bool_decide (st = Ended)).

Lemma rlp_items_snoc items x : rlp_items (items ++ [x]) = rlp_items items ++ rlp_string x.
Proof. unfold rlp_items. rewrite map_app, concat_app. cbn. by rewrite app_nil_r. Qed.

Lemma so_add_spec co id bs parts b n co' r : so_holds co id bs parts Adding ->
  so_AddSingularBatch b n co = (co', r) ->
  match r with Ok _ => so_holds co' id (bs ++ [(b, n)]) parts Adding | Err _ => so_holds co' id bs parts Adding end.
Proof using CL.
  intros (Hid & Hf & Hc & items & Hi & Hl & Hh) Hadd. unfold so_AddSingularBatch in Hadd. rewrite Hc in Hadd.
  rewrite bool_decide_eq_false_2 in Hadd, Hc, Hh by done.
  assert (Hkeep : so_holds co id bs parts Adding) by (split_and!; try done; by exists items).
  unfold encode_batch in Hadd. destruct (encodeTyped (SingularData b)) as [x|e] eqn:Ex; cbn in Hadd; [|by injection Hadd as <- <-].
  destruct (Z.ltb_spec MaxRLPBytesPerChannel (so_rlpLength co + blen (rlp_string x))); [by injection Hadd as <- <-|].
  unfold so_on in Hadd. cbn in Hadd. destruct (cmp_Write (rlp_string x) (so_compress co)) as [c [k|e]] eqn:Ew; injection Hadd as <- <-.
  - split; [done|]. split; [done|]. split; [done|]. exists (items ++ [x]). split; [by apply Forall2_app; [|constructor]|].
    rewrite rlp_items_snoc. cbn. rewrite blen_app. split; [lia|]. by eapply (cl_Write _ _ CL).
  - split; [done|]. split; [done|]. split; [done|]. exists items. split; [done|]. cbn.
    pose proof (blen_nonneg (rlp_string x)). split; [lia|]. by eapply (cl_Write_fail _ _ CL).
Qed.

Lemma frame_count_S (parts : list bytes) d : u64 (Z.of_nat (length parts)) +₆₄ 1 = u64 (Z.of_nat (length (parts ++ [d]))).
Proof. rewrite length_app, Nat2Z.inj_add. cbn [length]. unfold add64, u64. by rewrite Zplus_mod_idemp_l. Qed.

Lemma u16_u64 n : u16 (u64 n) = u16 n.
Proof. ulia. Qed.

Lemma concat_snoc (parts : list bytes) d : concat (parts ++ [d]) = concat parts ++ d.
Proof. rewrite concat_app. cbn. by rewrite app_nil_r. Qed.

Lemma so_output_spec co id bs parts st maxSize : so_holds co id bs parts st ->
  FrameV0OverHeadSize <= maxSize < 2 ^ 64 ->
  exists co' d, let last := bool_decide (so_ReadyBytes co < maxSize - FrameV0OverHeadSize /\ st = Ended) in
    let f := mkFrame id (u16 (Z.of_nat (length parts))) d last in
    so_OutputFrame maxSize co = (co', (MarshalBinary f, FrameNumber f, if last then Some EOF else None)) /\
    blen d = Z.min (so_ReadyBytes co) (maxSize - FrameV0OverHeadSize) /\ bytes_ok d /\
    so_ReadyBytes co' = so_ReadyBytes co - blen d /\ so_holds co' id bs (parts ++ [d]) st.
Proof using CL.
  intros (Hid & Hf & Hc & items & Hi & Hl & Hh) Hm.
  pose proof (cl_Len _ _ CL (so_compress co)) as Hlen. fold (so_ReadyBytes co) in Hlen.
  set (n := Z.min (so_ReadyBytes co) (maxSize - FrameV0OverHeadSize)).
  assert (Hn : 0 <= n <= so_ReadyBytes co) by (unfold n, FrameV0OverHeadSize in *; lia).
  destruct (cl_ReadFull _ _ CL _ _ _ _ n Hh Hn) as (c' & d & Hread & Hh' & Hd & Hleft).
  eexists (mkSingularOut id (u64 (Z.of_nat (length (parts ++ [d]))) ) (so_rlpLength co) c' (so_closed co)), d. cbn zeta.
  assert (Hz : blen (zeros (Z.to_nat n)) = n) by (unfold blen, zeros; rewrite length_replicate; lia).
  split; [|split; [done|]].
  - unfold so_OutputFrame. destruct (Z.ltb_spec maxSize FrameV0OverHeadSize); [lia|].
    rewrite createEmptyFrame_spec by (done || lia). cbn [Data]. fold n. rewrite Hz. unfold so_on. rewrite Hread.
    cbn [so_id so_frame so_rlpLength so_compress so_closed]. unfold set_Data. cbn [ID FrameNumber IsLast].
    rewrite Hid, Hf, u16_u64, frame_count_S with (d := d), Hc, <- bool_decide_and. done.
  - split; [|split; [unfold so_ReadyBytes in *; cbn; lia|]].
    + apply (cl_bytes _ _ CL) in Hh'. by apply bytes_ok_app in Hh' as [_ ?].
    + split; [done|]. split; [done|]. split; [done|]. exists items. rewrite concat_snoc. done.
Qed.

Lemma singular_out_laws : channel_out_laws singular_items so_holds.
Proof using CL.
  split; cbn [co_ID co_AddSingularBatch co_Close co_OutputFrame co_ReadyBytes Singular_ChannelOut].
  - by intros co id bs parts st [? _].
  - intros co id bs parts b n co' k H Ha. by apply (so_add_spec _ _ _ _ _ _ _ _ H) in Ha.
  - intros co id bs parts b n co' e H Ha. by apply (so_add_spec _ _ _ _ _ _ _ _ H) in Ha.
  - by intros co id bs parts H.
  - intros co id bs parts (Hid & Hf & Hc & items & Hi & Hl & Hh). unfold so_Close. rewrite Hc.
    rewrite bool_decide_eq_false_2 in * by done. destruct (cl_Close _ _ CL _ _ _ Hh) as (c' & Hcl & Hh').
    unfold so_on. cbn. rewrite Hcl. eexists. split; [done|]. split; [done|]. split; [done|]. split; [done|]. by exists items.
  - intros co id bs parts (_ & _ & Hc & _). unfold so_Close. rewrite Hc, bool_decide_eq_true_2 by done. by eexists.
  - intros co id bs parts st maxSize H _ Hm. by apply so_output_spec.
  - intros co. apply (cl_Len _ _ CL).
  - intros co id bs parts (_ & _ & _ & items & Hi & Hl & Hh) Hr. exists items. split; [done|]. split; [|lia].
    rewrite bool_decide_eq_true_2 in Hh by done. by eapply (cl_drained _ _ CL).
Qed.

Lemma so_holds_new id c : has c [] [] false -> so_holds (NewSingularChannelOut c id) id [] [] Adding.
Proof. intros Hc. split; [done|]. split; [done|]. split; [done|]. exists []. split; [constructor|]. split; [vm_decide|done]. Qed.

(** *** Span channels *)

Variables genesisTimestamp chainID : Z.

Definition span_built (bs : list (SingularBatch * Z)) : SpanBatchBuilder :=
  fold_left (fun bd p => bd_AppendSingularBatch p.1 p.2 bd) bs (NewSpanBatchBuilder genesisTimestamp chainID).

(** A span channel has one item, the span of all of its batches. *)
Definition span_items (bs : list (SingularBatch * Z)) (items : list bytes) : Prop :=
  match bs with
  | [] => items = []
  | _ :: _ => exists raw x, bd_GetRawSpanBatch (span_built bs) = Ok raw /\ encodeTyped (SpanData raw) = Ok x /\ items = [x]
  end.

(** The compressor was given the span of [bs] and nothing was read. *)
Definition po_stored (co : SpanChannelOut) (bs : list (SingularBatch * Z)) : Prop :=
  exists items, span_items bs items /\ blen (rlp_items items) <= MaxRLPBytesPerChannel /\
    has (po_compress co) (rlp_items items) [] false.

Definition po_holds (co : SpanChannelOut) (id : ChannelID) (bs : list (SingularBatch * Z)) (parts : list bytes)
    (st : out_status) : Prop :=
  po_id co = id /\ po_frame co = u64 (Z.of_nat (length parts)) /\ po_closed co = bool_decide (st = Ended) /\
  (st = Ended \/ concat parts = []) /\
  match st with
  | Adding => po_builder co = span_built bs /\ po_reader co = [] /\ po_stored co bs
  | Sealed => (po_reader co = [] /\ po_stored co bs) \/
              (carries span_items bs (po_reader co) /\ exists i, has (po_compress co) i [] false)
  | Ended => carries span_items bs (concat parts ++ po_reader co)
  end.

Lemma span_built_snoc bs b n : span_built (bs ++ [(b, n)]) = bd_AppendSingularBatch b n (span_built bs).
Proof. unfold span_built. by rewrite fold_left_app. Qed.

Lemma span_built_count bs : bd_GetBlockCount (span_built bs) = Z.of_nat (length bs).
Proof.
  induction bs as [|[b n] bs IH] using rev_ind; [done|]. rewrite span_built_snoc. unfold bd_GetBlockCount in *. cbn.
  rewrite !length_app. cbn. lia.
Qed.

Lemma rlp_items_one x : rlp_items [x] = rlp_string x.
Proof. unfold rlp_items. cbn. apply app_nil_r. Qed.

(** Flushing and copying moves the compressed span to the reader. *)
Lemma flush_copy_spec co bs msg : po_stored co bs -> po_reader co = [] ->
  exists co1 co2, po_on cmp_Flush co = (co1, Ok tt) /\ po_copy msg co1 = (co2, Ok tt) /\
    po_closed co1 = po_closed co /\ po_reader co1 = [] /\
    (exists i, has (po_compress co1) i [] false) /\ carries span_items bs (po_reader co2) /\
    (exists i t, has (po_compress co2) i t false) /\ blen (po_reader co2) = cmp_Len (po_compress co1) /\
    co1 = po_set_compress (po_compress co1) co /\
    co2 = po_set_reader (po_reader co2) (po_set_compress (po_compress co2) co).
Proof using CL.
  intros (items & Hi & Hl & Hh) Hr. destruct (cl_Flush _ _ CL _ _ _ Hh) as (c1 & Hf & Hh1 & Hd).
  destruct (cl_ReadAll _ _ CL _ _ _ _ Hh1) as (c2 & d & Ha & Hh2 & Hlen).
  exists (po_set_compress c1 co), (po_set_reader d (po_set_compress c2 co)). unfold po_on, po_copy. rewrite Hf.
  split; [done|]. unfold po_on. cbn [po_compress po_set_compress]. rewrite Ha. cbn [po_reader po_set_compress]. rewrite Hr.
  split; [done|]. split; [done|]. split; [done|]. split; [by eexists|]. split.
  { exists items. split; [done|]. split; [|done]. specialize (Hd d). rewrite Ha in Hd. by apply Hd. }
  split; [by eexists _, _|]. split; [done|]. by split.
Qed.

(** The rest of [AddSingularBatch], once the span with the new batch is encoded. *)
Lemma po_rewrite_spec bs b n co x raw co' r :
  po_builder co = span_built (bs ++ [(b, n)]) -> po_closed co = false -> po_reader co = [] -> po_stored co bs ->
  cmp_FullErr (po_compress co) = None ->
  bd_GetRawSpanBatch (span_built (bs ++ [(b, n)])) = Ok raw -> encodeTyped (SpanData raw) = Ok x ->
  blen (rlp_string x) <= MaxRLPBytesPerChannel ->
  (_ ← po_preserve; po_rewrite (rlp_string x)) co = (co', r) ->
  po_id co' = po_id co /\ po_frame co' = po_frame co /\ po_closed co' = po_closed co /\
  match r with
  | Ok _ => po_builder co' = span_built (bs ++ [(b, n)]) /\ po_reader co' = [] /\ po_stored co' (bs ++ [(b, n)])
  | Err _ => carries span_items bs (po_reader co') /\ exists i, has (po_compress co') i [] false
  end.
Proof using CL.
  intros Hb Hc Hr Hst Hfull Hraw Hx Hlen Hrun.
  assert (Hnew : forall c, has c (rlp_string x) [] false -> forall co2, po_compress co2 = c -> po_stored co2 (bs ++ [(b, n)])).
  { intros c Hh co2 <-. exists [x]. rewrite rlp_items_one. split; [|done].
    unfold span_items. destruct (bs ++ [(b, n)]) eqn:Eb; [by destruct bs|]. rewrite <- Eb in *. by exists raw, x. }
  pose proof (cl_Reset _ _ CL (po_compress co)) as Hreset.
  unfold mbind, stM_bind, po_preserve in Hrun. rewrite Hb, span_built_count, length_app in Hrun. cbn [length] in Hrun.
  destruct (Z.ltb_spec 1 (Z.of_nat (length bs + 1))) as [Hmany|Hone].
  - destruct (flush_copy_spec co bs "failed to copy compressed data to reader" Hst Hr)
      as (co1 & co2 & E1 & E2 & Hc1 & Hr1 & _ & Hcar & (i2 & t2 & Hh2) & _ & _ & Eq2).
    unfold wrapping, mbind, stM_bind in Hrun. rewrite E1 in Hrun. cbn [map_err] in Hrun. rewrite E2 in Hrun.
    set (rd := po_reader co2) in *. set (c2 := po_compress co2) in *. rewrite Eq2 in Hrun.
    unfold po_rewrite, po_on in Hrun. cbn in Hrun.
    destruct (cmp_Write (rlp_string x) (cmp_Reset c2)) as [c [k|e]] eqn:Ew.
    + pose proof (cl_Write _ _ CL _ _ _ _ _ _ (cl_Reset _ _ CL c2) Ew) as Hh. cbn in Hrun.
      destruct (cmp_FullErr c) as [e|].
      * rewrite Hb, span_built_count, length_app in Hrun. cbn in Hrun. destruct (Z.eqb_spec (Z.of_nat (length bs + 1)) 1); [lia|].
        injection Hrun as <- <-. do 3 (split; [done|]). cbn. split; [done|]. by eexists.
      * injection Hrun as <- <-. do 3 (split; [done|]). cbn. split; [done|]. split; [done|]. by eapply Hnew.
    + pose proof (cl_Write_full _ _ CL _ _ _ _ _ _ (cl_Reset _ _ CL c2) Ew) as Hf.
      pose proof (cl_Write_fail _ _ CL _ _ _ _ _ _ (cl_Reset _ _ CL c2) Ew) as Hh. cbn in Hrun.
      destruct (cmp_FullErr c) as [e'|]; [|done].
      rewrite Hb, span_built_count, length_app in Hrun. cbn in Hrun. destruct (Z.eqb_spec (Z.of_nat (length bs + 1)) 1); [lia|].
      injection Hrun as <- <-. do 3 (split; [done|]). cbn. split; [done|]. by eexists.
  - unfold po_rewrite, po_on in Hrun. cbn in Hrun.
    destruct (cmp_Write (rlp_string x) (cmp_Reset (po_compress co))) as [c [k|e]] eqn:Ew;
      [|by apply (cl_Write_first _ _ CL) in Ew].
    pose proof (cl_Write _ _ CL _ _ _ _ _ _ Hreset Ew) as Hh. cbn in Hrun.
    destruct (cmp_FullErr c) as [e|].
    + rewrite Hb, span_built_count, length_app in Hrun. cbn in Hrun. destruct (Z.eqb_spec (Z.of_nat (length bs + 1)) 1); [|lia].
      injection Hrun as <- <-. do 3 (split; [done|]). cbn. split; [done|]. split; [done|]. by eapply Hnew.
    + injection Hrun as <- <-. do 3 (split; [done|]). cbn. split; [done|]. split; [done|]. by eapply Hnew.
Qed.

Lemma po_add_spec co id bs parts b n co' r : po_holds co id bs parts Adding ->
  po_AddSingularBatch b n co = (co', r) ->
  match r with Ok _ => po_holds co' id (bs ++ [(b, n)]) parts Adding | Err _ => po_holds co' id bs parts Sealed end.
Proof using CL.
  intros (Hid & Hf & Hc & Hp & Hb & Hr & Hst) Hadd. rewrite bool_decide_eq_false_2 in Hc by done.
  destruct Hp as [|Hp]; [done|].
  assert (Hseal : forall co2, po_id co2 = po_id co -> po_frame co2 = po_frame co -> po_closed co2 = po_closed co ->
    po_reader co2 = [] -> po_compress co2 = po_compress co -> po_holds co2 id bs parts Sealed).
  { intros co2 E1 E2 E3 E4 E5. split; [by rewrite E1|]. split; [by rewrite E2|]. split; [by rewrite E3|]. split; [by right|].
    left. split; [done|]. unfold po_stored. by rewrite E5. }
  unfold po_AddSingularBatch in Hadd. rewrite Hc in Hadd.
  destruct (cmp_FullErr (po_compress co)) as [e|] eqn:Ef; [injection Hadd as <- <-; by apply Hseal|].
  rewrite Hb, <- span_built_snoc in Hadd. cbn [po_builder po_set_builder] in Hadd.
  destruct (bd_GetRawSpanBatch (span_built (bs ++ [(b, n)]))) as [raw|e] eqn:Eraw; [|injection Hadd as <- <-; by apply Hseal].
  unfold encode_batch in Hadd. destruct (encodeTyped (SpanData raw)) as [x|e] eqn:Ex; cbn [fmap res_fmap] in Hadd;
    [|injection Hadd as <- <-; by apply Hseal].
  destruct (Z.ltb_spec MaxRLPBytesPerChannel (blen (rlp_string x))); [injection Hadd as <- <-; by apply Hseal|].
  eapply po_rewrite_spec in Hadd; [|done..].
  destruct Hadd as (E1 & E2 & E3 & Hres). cbn in E1, E2, E3. destruct r as [k|e].
  - split; [by rewrite E1|]. split; [by rewrite E2|]. split; [by rewrite E3|]. split; [by right|]. done.
  - split; [by rewrite E1|]. split; [by rewrite E2|]. split; [by rewrite E3|]. split; [by right|]. by right.
Qed.

Lemma po_close_spec co id bs parts : po_holds co id bs parts Sealed ->
  exists co', po_Close co = (co', Ok tt) /\ po_holds co' id bs parts Ended.
Proof using CL.
  intros (Hid & Hf & Hc & Hp & Hs). rewrite bool_decide_eq_false_2 in Hc by done. destruct Hp as [|Hp]; [done|].
  unfold po_Close. rewrite Hc. set (co0 := mkSpanOut _ _ _ _ true _ _).
  assert (Hfl : exists co1, po_Flush co0 = (co1, Ok tt) /\ po_id co1 = id /\ po_frame co1 = po_frame co /\ po_closed co1 = true /\
    carries span_items bs (po_reader co1) /\ exists i t, has (po_compress co1) i t false).
  { destruct Hs as [[Hr Hst]|[Hcar [i Hi]]].
    - destruct (flush_copy_spec co0 bs "failed to flush compressed data to reader" Hst Hr)
        as (co1 & co2 & E1 & E2 & Hc1 & Hr1 & (i1 & Hi1) & Hcar & Hh2 & Hl2 & Eq1 & Eq2).
      unfold po_Flush. rewrite E1. unfold po_ReadyBytes. rewrite Hc1, Hr1. cbn [po_closed co0 andb Z.eqb blen length Z.of_nat].
      destruct (Z.ltb_spec 0 (cmp_Len (po_compress co1))) as [|Hz].
      + rewrite E2. exists co2. rewrite Eq2. cbn. split; [done|]. split; [done|]. split; [done|]. split; [done|]. done.
      + exfalso. destruct Hcar as (items & _ & Hd & _). apply (cl_header _ _ CL) in Hd.
        pose proof (cl_Len _ _ CL (po_compress co1)). destruct (po_reader co2); [done|]. unfold blen in Hl2. cbn in Hl2. lia.
    - destruct (cl_Flush _ _ CL _ _ _ Hi) as (c1 & Hfl & Hh1 & _).
      unfold po_Flush, po_on. cbn [po_compress co0]. rewrite Hfl. unfold po_ReadyBytes. cbn [po_reader po_set_compress co0 po_closed].
      destruct (Z.eqb_spec (blen (po_reader co)) 0) as [Hz|Hz].
      + exfalso. destruct Hcar as (items & _ & Hd & _). apply (cl_header _ _ CL) in Hd.
        destruct (po_reader co); [done|]. unfold blen in Hz. cbn in Hz. lia.
      + cbn [andb]. eexists. split; [done|]. cbn. split; [done|]. split; [done|]. split; [done|]. split; [done|]. by eexists _, _. }
  destruct Hfl as (co1 & E1 & Hi1 & Hf1 & Hc1 & Hcar & (i & t & Hh)).
  destruct (cl_Close _ _ CL _ _ _ Hh) as (c & Ec & _).
  unfold mbind, stM_bind. rewrite E1. unfold po_on. rewrite Ec. eexists. split; [done|].
  split; [done|]. split; [cbn; by rewrite Hf1|]. split; [by cbn; rewrite Hc1|]. split; [by left|]. cbn. by rewrite Hp.
Qed.

Lemma po_output_spec co id bs parts st maxSize : po_holds co id bs parts st -> st <> Sealed ->
  FrameV0OverHeadSize <= maxSize < 2 ^ 64 ->
  exists co' d, let last := bool_decide (po_ReadyBytes co < maxSize - FrameV0OverHeadSize /\ st = Ended) in
    let f := mkFrame id (u16 (Z.of_nat (length parts))) d last in
    po_OutputFrame maxSize co = (co', (MarshalBinary f, FrameNumber f, if last then Some EOF else None)) /\
    blen d = Z.min (po_ReadyBytes co) (maxSize - FrameV0OverHeadSize) /\ bytes_ok d /\
    po_ReadyBytes co' = po_ReadyBytes co - blen d /\ po_holds co' id bs (parts ++ [d]) st.
Proof using CL.
  intros (Hid & Hf & Hc & Hp & Hst) Hs Hm.
  set (n := Z.min (po_ReadyBytes co) (maxSize - FrameV0OverHeadSize)).
  assert (Hn : 0 <= n <= blen (po_reader co)).
  { unfold n, po_ReadyBytes, FrameV0OverHeadSize in *. pose proof (blen_nonneg (po_reader co)). lia. }
  destruct (buf_ReadFull_ok _ _ Hn) as (d & rest & Hread & Hsplit & Hd & Hleft).
  assert (Hok : bytes_ok d).
  { destruct st; [|done|].
    - destruct Hst as (_ & Hr0 & _). rewrite Hr0 in Hsplit. symmetry in Hsplit. apply app_eq_nil in Hsplit as [-> _]. constructor.
    - destruct Hst as (items & _ & Hdef & _). apply (cl_deflated _ _ CL) in Hdef. rewrite Hsplit in Hdef.
      rewrite !bytes_ok_app in Hdef. by destruct Hdef as (_ & ? & _). }
  eexists (mkSpanOut id (u64 (Z.of_nat (length (parts ++ [d])))) (po_rlpLength co) (po_compress co) (po_closed co)
    (po_builder co) rest), d. cbn zeta.
  assert (Hz : blen (zeros (Z.to_nat n)) = n) by (unfold blen, zeros; rewrite length_replicate; lia).
  split; [|split; [done|split; [done|split; [unfold po_ReadyBytes in *; cbn; lia|]]]].
  - unfold po_OutputFrame. destruct (Z.ltb_spec maxSize FrameV0OverHeadSize); [lia|].
    rewrite createEmptyFrame_spec by (unfold po_ReadyBytes in *; pose proof (blen_nonneg (po_reader co)); done || lia).
    cbn [Data]. fold n. rewrite Hz, Hread. unfold set_Data. cbn [ID FrameNumber IsLast].
    rewrite Hid, Hf, u16_u64, frame_count_S with (d := d), Hc, <- bool_decide_and. done.
  - split; [done|]. split; [done|]. split; [done|]. rewrite concat_snoc. destruct st; [|done|].
    + destruct Hst as (Hb & Hr0 & Hst). rewrite Hr0 in Hsplit. symmetry in Hsplit. apply app_eq_nil in Hsplit as [-> ->].
      rewrite app_nil_r. split; [done|]. done.
    + split; [by left|]. cbn. by rewrite <- app_assoc, <- Hsplit.
Qed.

Lemma span_out_laws : channel_out_laws span_items po_holds.
Proof using CL.
  split; cbn [co_ID co_AddSingularBatch co_Close co_OutputFrame co_ReadyBytes Span_ChannelOut].
  - by intros co id bs parts st [? _].
  - intros co id bs parts b n co' k H Ha. by apply (po_add_spec _ _ _ _ _ _ _ _ H) in Ha.
  - intros co id bs parts b n co' e H Ha. by apply (po_add_spec _ _ _ _ _ _ _ _ H) in Ha.
  - intros co id bs parts (Hid & Hf & Hc & Hp & Hb & Hr & Hst). split; [done|]. split; [done|]. split; [done|].
    split; [destruct Hp; [done|by right]|]. by left.
  - exact po_close_spec.
  - intros co id bs parts (_ & _ & Hc & _). unfold po_Close. rewrite Hc, bool_decide_eq_true_2 by done. by eexists.
  - intros co id bs parts st maxSize H. by apply po_output_spec.
  - intros co. apply blen_nonneg.
  - intros co id bs parts (_ & _ & _ & _ & Hcar) Hr. cbn in Hr. unfold po_ReadyBytes in Hr.
    destruct (po_reader co); [by rewrite app_nil_r in Hcar|]. unfold blen in Hr. cbn in Hr. lia.
Qed.

Lemma po_holds_new id c : has c [] [] false ->
  po_holds (NewSpanChannelOut c (NewSpanBatchBuilder genesisTimestamp chainID) id) id [] [] Adding.
Proof.
  intros Hc. split; [done|]. split; [done|]. split; [done|]. split; [by right|]. split; [done|]. split; [done|].
  exists []. split; [done|]. by split; [vm_decide|].
Qed.
End Out.

(** ** [NewChannelOut]: a channel of either kind *)

Section Either.
Context `{E : EspressoLib} {O1 O2 : Type} `{C1 : !ChannelOut O1} `{C2 : !ChannelOut O2}.

Definition on_left {A} (m : stM O1 A) (co : O1) : (O1 + O2) * res A := let '(co, r) := m co in (inl co, r).
Definition on_right {A} (m : stM O2 A) (co : O2) : (O1 + O2) * res A := let '(co, r) := m co in (inr co, r).

#[global] Instance Either_ChannelOut : ChannelOut (O1 + O2) := {
  co_ID := fun co => match co with inl co => co_ID co | inr co => co_ID co end;
  co_Reset := fun id co => match co with inl co => inl (co_Reset id co) | inr co => inr (co_Reset id co) end;
  co_AddSingularBatch := fun b n co =>
    match co with inl co => on_left (co_AddSingularBatch b n) co | inr co => on_right (co_AddSingularBatch b n) co end;
  co_InputBytes := fun co => match co with inl co => co_InputBytes co | inr co => co_InputBytes co end;
  co_ReadyBytes := fun co => match co with inl co => co_ReadyBytes co | inr co => co_ReadyBytes co end;
  co_Flush := fun co => match co with inl co => on_left co_Flush co | inr co => on_right co_Flush co end;
  co_FullErr := fun co => match co with inl co => co_FullErr co | inr co => co_FullErr co end;
  co_Close := fun co => match co with inl co => on_left co_Close co | inr co => on_right co_Close co end;
  co_OutputFrame := fun maxSize co =>
    match co with
    | inl co => let '(co, r) := co_OutputFrame maxSize co in (inl co, r)
    | inr co => let '(co, r) := co_OutputFrame maxSize co in (inr co, r)
    end;
}.
End Either.

Section New.
Context `{E : EspressoLib} {C : Type}.

Definition NewChannelOut (batchType : Z) (compress : C) (builder : SpanBatchBuilder) (id : ChannelID)
    : res (SingularChannelOut + SpanChannelOut) :=
  if batchType =? SingularBatchType then Ok (inl (NewSingularChannelOut (C := C) compress id))
  else if batchType =? SpanBatchType then Ok (inr (NewSpanChannelOut (C := C) compress builder id))
  else Err (Errorf "unrecognized batch type").
End New.
