(* ===== verification/SequencerSafety.v ===== *)
(** * What the sequencer promises

    The theorems about [Sequencer.v]: the batch in progress is always a
    segment of the Espresso ledger that belongs to its time window; the block
    made of a sealed batch is read back by the batcher as a batch that the
    verifier's rules accept; accepted Espresso batches are unique unless the
    timestamps of the ledger go back, for which there is an example. *)

From S2P Require Import Prelude Eth Frame Solabi SystemConfig Deposits Espresso L1Info EngineUpdate Attributes Batches EspressoRules SyncStart EngineQueue Pipeline ChannelOut Sequencer.

(** ** The Espresso ledger *)

Section Ledger.
Context `{EL : EspressoLib}.

Variable ledger : Z -> Header.

(** Block [n] says that it is number [n]. Nothing is assumed of the
    timestamps. *)
Record ledger_laws : Prop := {
  lg_height : forall n, is_u64 n -> hd_Height (ledger n) = n;
}.

(** [proves ns h p txs]: the proof shows that [txs] are the transactions of
    namespace [ns] in the block with header [h]. *)
Variable proves : Z -> Header -> NmtProof -> list bytes -> Prop.

(** A query service that answers from the ledger, as the one of
    [sequencer_test.go:328] does. A request for a window is answered with
    nothing at all while no block at or after its start exists, and from such
    a block on otherwise; the blocks it gives are consecutive and before the
    end of the window, and the next one, if it gives one, is not. *)
Record query_laws {Q : Type} `{!QueryService Q} : Prop := {
  ql_window : forall s e q q' w, FetchHeadersForWindow s e q = (q', Ok w) ->
    (wh_Prev w = None /\ wh_Window w = [] /\ wh_Next w = None) \/
    exists a n, first_at ledger s a /\ a + Z.of_nat n < 2 ^ 64 /\
      wh_Prev w = block_before ledger a /\ wh_Window w = segment ledger a n /\
      Forall (fun h => hd_Timestamp h < e) (wh_Window w) /\
      (wh_Next w = None \/ wh_Next w = Some (ledger (a + Z.of_nat n)) /\ e <= hd_Timestamp (ledger (a + Z.of_nat n)));
  ql_more : forall from e q q' w, 0 <= from -> FetchRemainingHeadersForWindow from e q = (q', Ok w) ->
    exists n, from + Z.of_nat n < 2 ^ 64 /\ wm_Window w = segment ledger from n /\
      Forall (fun h => hd_Timestamp h < e) (wm_Window w) /\
      (wm_Next w = None \/ wm_Next w = Some (ledger (from + Z.of_nat n)) /\ e <= hd_Timestamp (ledger (from + Z.of_nat n)));
  ql_txs : forall n ns q q' t, FetchTransactionsInBlock (ledger n) ns q = (q', Ok t) ->
    proves ns (ledger n) (tb_Proof t) (tb_Transactions t);
}.
End Ledger.

(** ** The batch in progress *)

Section Invariant.
Context `{EL : EspressoLib}.
Variable Keccak256Hash : bytes -> Hash.
Variable rlp_encode_jst : option L2BatchJustification -> res bytes.
Variable encode_deposit : DepositTx -> res bytes.
Variable noProof : NmtProof.
Variable cfg : Config.
Context {C : Type} `{!EngineControl C} {Q : Type} `{!QueryService Q}.
Variable ledger : Z -> Header.
Variable proves : Z -> Header -> NmtProof -> list bytes -> Prop.

#[local] Notation sequencer := (Sequencer (C := C) (Q := Q)).

(** The transactions of the blocks of a justification, block by block. *)
Definition contents (ns : Z) (bjs : list EspressoBlockJustification) (txss : list (list bytes)) : Prop :=
  Forall2 (fun bj txs => proves ns (bj_Header bj) (bj_Proof bj) txs) bjs txss.

(** The namespace of the rollup. *)
Definition namespace : Z := match L2ChainID cfg with Some id => u64 id | None => 0 end.

(** The batch has all the transactions of its blocks, with their proofs. *)
Definition batch_full (b : InProgressBatch) : Prop :=
  exists txss, ib_transactions b = concat txss /\ contents namespace (jst_Blocks (ib_jst b)) txss.

(** The batch was emptied by [sealEspressoBatch]. *)
Definition batch_emptied (b : InProgressBatch) : Prop :=
  complete b = true /\ ib_transactions b = [] /\ Forall (fun bj => bj_Proof bj = noProof) (jst_Blocks (ib_jst b)).

(** The blocks of the batch are the first [n] blocks of its window, which
    starts with block [a] of the ledger. *)
Record covers (a : Z) (n : nat) (b : InProgressBatch) : Prop := {
  cv_start : ib_windowStart b = l2_Time (ib_onto b) +₆₄ BlockTime cfg;
  cv_end : ib_windowEnd b = ib_windowStart b +₆₄ BlockTime cfg;
  cv_first : first_at ledger (ib_windowStart b) a;
  cv_range : a + Z.of_nat n < 2 ^ 64;
  cv_Prev : jst_Prev (ib_jst b) = block_before ledger a;
  cv_blocks : map bj_Header (jst_Blocks (ib_jst b)) = segment ledger a n;
  cv_inside : Forall (fun h => hd_Timestamp h < ib_windowEnd b) (segment ledger a n);
}.

(** Nothing is known of the window yet. *)
Record unstarted (b : InProgressBatch) : Prop := {
  us_start : ib_windowStart b = l2_Time (ib_onto b) +₆₄ BlockTime cfg;
  us_end : ib_windowEnd b = ib_windowStart b +₆₄ BlockTime cfg;
  us_jst : ib_jst b = {| jst_Blocks := []; jst_Prev := None; jst_Next := None |};
  us_txs : ib_transactions b = [];
}.

(** What the sequencer has of the window of its batch: nothing, or its blocks
    from the first one on, without a gap, and, when the batch is complete, the
    first block after the window as well. *)
Definition batch_wf (b : InProgressBatch) : Prop :=
  unstarted b \/
  exists a n, covers a n b /\
    (jst_Next (ib_jst b) = None \/
     jst_Next (ib_jst b) = Some (ledger (a + Z.of_nat n)) /\ ib_windowEnd b <= hd_Timestamp (ledger (a + Z.of_nat n))) /\
    (batch_full b \/ batch_emptied b).

(** The well-formed states: a batch is in progress in Espresso mode only. *)
Definition sequencer_wf (d : sequencer) : Prop :=
  match sq_espressoBatch d with
  | None => True
  | Some b => sq_mode d = ModeEspresso /\ batch_wf b
  end.

Context (LL : ledger_laws ledger) (QL : query_laws (Q := Q) ledger proves).

Lemma append_headers_covers headers : forall batch q q' batch' r a n m,
  append_headers cfg headers batch q = (q', (batch', r)) ->
  headers = segment ledger (a + Z.of_nat n) m -> a + Z.of_nat n + Z.of_nat m < 2 ^ 64 ->
  covers a n batch -> batch_full batch ->
  exists k, covers a (n + k) batch' /\ batch_full batch' /\ jst_Next (ib_jst batch') = jst_Next (ib_jst batch) /\
    ib_windowEnd batch' = ib_windowEnd batch /\ ib_onto batch' = ib_onto batch /\ (r = Ok tt -> k = m).
Proof using QL.
  induction headers as [|h headers IH]; intros batch q q' batch' r a n m Hrun Hseg Hm Hc Hf; cbn [append_headers] in Hrun.
  { injection Hrun as <- <- <-. exists 0%nat. rewrite Nat.add_0_r. repeat (split; [done|]). intros _. by destruct m. }
  assert (Hstop : forall e : go_error, exists k, covers a (n + k) batch /\ batch_full batch /\
    jst_Next (ib_jst batch) = jst_Next (ib_jst batch) /\ ib_windowEnd batch = ib_windowEnd batch /\
    ib_onto batch = ib_onto batch /\ (Err e = Ok tt -> k = m)).
  { exists 0%nat. rewrite Nat.add_0_r. done. }
  destruct (Z.leb_spec (ib_windowEnd batch) (hd_Timestamp h)) as [|Hin]; [injection Hrun as <- <- <-; apply Hstop|].
  destruct (L2ChainID cfg) as [id|] eqn:Eid; cbn [deref] in Hrun; [|injection Hrun as <- <- <-; apply Hstop].
  destruct (FetchTransactionsInBlock h (u64 id) q) as [q1 [txs|e]] eqn:Et; [|injection Hrun as <- <- <-; apply Hstop].
  destruct m as [|m]; [done|]. cbn [segment] in Hseg. injection Hseg as Hh Hseg.
  rewrite Hh in Et. apply (ql_txs _ _ QL) in Et. rewrite <- Hh in Et.
  apply (IH _ _ _ _ _ a (S n) m) in Hrun.
  - destruct Hrun as (k & H1 & H2 & H3 & H4 & H5 & H6). exists (S k). replace (n + S k)%nat with (S n + k)%nat by lia.
    repeat (split; [done|]). intros Hr. f_equal. by apply H6.
  - rewrite Hseg. f_equal. lia.
  - lia.
  - destruct Hc as [C1 C2 C3 C4 C5 C6 C7]. constructor; cbn -[segment Z.of_nat]; try done.
    + lia.
    + rewrite map_app, C6, segment_snoc. cbn -[segment]. by rewrite Hh.
    + rewrite segment_snoc. apply Forall_app. split; [done|]. constructor; [|done]. by rewrite <- Hh.
  - destruct Hf as (txss & Ht & Hcs). exists (txss ++ [tb_Transactions txs]). cbn [ib_transactions ib_jst jst_Blocks].
    split; [by rewrite concat_app, Ht; cbn; rewrite app_nil_r|].
    apply Forall2_app; [done|]. constructor; [|constructor]. unfold namespace. rewrite Eid. done.
Qed.

(** The state after more blocks were appended to a batch on [onto]. *)
Definition updated (onto : L2BlockRef) (d d' : sequencer) : Prop :=
  sequencer_wf d' /\ sq_engine d' = sq_engine d /\
  exists b, sq_espressoBatch d' = Some b /\ ib_onto b = onto /\ batch_full b.

Lemma update_wf next d d' r b a n m headers :
  sq_espressoBatch d = Some b -> sq_mode d = ModeEspresso ->
  headers = segment ledger (a + Z.of_nat n) m -> a + Z.of_nat n + Z.of_nat m < 2 ^ 64 ->
  covers a n b -> batch_full b -> jst_Next (ib_jst b) = None ->
  (next = None \/ next = Some (ledger (a + Z.of_nat (n + m))) /\ ib_windowEnd b <= hd_Timestamp (ledger (a + Z.of_nat (n + m)))) ->
  updateEspressoBatch cfg headers next d = (d', r) -> updated (ib_onto b) d d'.
Proof using QL.
  intros Hb Hmode Hseg Hm Hc Hf Hn Hnext. unfold updateEspressoBatch. rewrite Hb.
  destruct (append_headers cfg headers b (sq_espresso d)) as [q [b' r']] eqn:Ea.
  eapply append_headers_covers in Ea as (k & Hc' & Hf' & Hn' & He' & Ho' & Hk); [|done..].
  destruct r' as [[]|e]; intros [= <- <-]; unfold updated, sequencer_wf;
    cbn [sq_espressoBatch sq_mode sq_engine set_espressoBatch set_queryService].
  - split; [|split; [done|by eexists]]. split; [done|]. rewrite (Hk eq_refl) in *. right. exists a, (n + m)%nat. split; [|split].
    + by destruct Hc'; constructor.
    + cbn [set_Next ib_jst jst_Next ib_windowEnd]. destruct Hnext as [->|[-> Ht]]; [by left|right]. by rewrite He'.
    + by left.
  - split; [|split; [done|by eexists]]. split; [done|]. right. exists a, (n + k)%nat. split; [done|]. split; [|by left]. left. by rewrite Hn', Hn.
Qed.

Lemma start_updated head d d' r : sq_mode d = ModeEspresso ->
  startBuildingEspressoBatch cfg head d = (d', r) ->
  updated head d d' \/ (exists q e, d' = set_queryService q d /\ r = Err e).
Proof using QL.
  intros Hm. unfold startBuildingEspressoBatch.
  destruct (FetchHeadersForWindow _ _ _) as [q [w|e]] eqn:Ew; [|intros [= <- <-]; right; by exists q, e].
  apply (ql_window _ _ QL) in Ew as [(Hp & Hw & Hn)|(a & n & Hfirst & Hr & Hp & Hw & Hin & Hn)].
  { rewrite Hp, Hw, Hn. intros [= <- <-]. left. split; [|split; [done|]].
    - split; [exact Hm|]. left. by constructor.
    - eexists. split; [reflexivity|]. split; [done|]. exists []. split; [done|constructor]. }
  intros Hrun. left.
  match type of Hrun with updateEspressoBatch _ _ _ (set_espressoBatch (Some ?b0) ?d0) = _ =>
    change (updated (ib_onto b0) (set_espressoBatch (Some b0) d0) d') end.
  eapply (update_wf _ _ _ _ _ a 0 n) in Hrun; [exact Hrun|reflexivity|done|..]; cbn -[segment Z.of_nat Nat.add].
  - rewrite Hw. f_equal. lia.
  - lia.
  - by constructor; cbn -[Z.of_nat]; [done..|lia| |done|constructor].
  - exists []. split; [done|constructor].
  - done.
  - by rewrite Nat.add_0_l.
Qed.

Lemma start_wf head d d' r : sq_mode d = ModeEspresso -> sequencer_wf d ->
  startBuildingEspressoBatch cfg head d = (d', r) -> sequencer_wf d'.
Proof using QL. intros Hm Hd Hrun. destruct (start_updated _ _ _ _ Hm Hrun) as [[H _]|(q & e & -> & _)]; [exact H|exact Hd]. Qed.

Lemma empty_batch_covers a n b : covers a n b -> covers a n (empty_batch noProof b).
Proof. intros [C1 C2 C3 C4 C5 C6 C7]. constructor; cbn; try done. by rewrite map_map. Qed.

Lemma empty_batch_wf b : complete b = true -> batch_wf b -> batch_wf (empty_batch noProof b).
Proof.
  intros Hc [Hu|(a & n & Hcv & Hn & _)]; [by unfold complete in Hc; rewrite (us_jst _ Hu) in Hc|].
  right. exists a, n. split; [by apply empty_batch_covers|]. split; [done|].
  right. split; [done|]. split; [done|]. cbn. apply Forall_map. by apply Forall_true.
Qed.

Section Seal.
Variable src : Sources.

Lemma seal_attributes_wf b b' r : complete b = true -> batch_wf b ->
  seal_attributes Keccak256Hash rlp_encode_jst encode_deposit noProof cfg src b = (b', r) -> batch_wf b'.
Proof.
  intros Hc Hb. unfold seal_attributes. destruct (SystemConfigByL2Hash _ _) as [c|e]; [|by intros [= <- _]].
  destruct (_ ≫= _) as [o|e]; [|by intros [= <- _]]. intros [= <- _].
  destruct (EspressoBatchMustBeEmpty _ _ _); [by apply empty_batch_wf|done].
Qed.

Lemma seal_wf d d' r : sequencer_wf d -> (forall b, sq_espressoBatch d = Some b -> complete b = true) ->
  sealEspressoBatch Keccak256Hash rlp_encode_jst encode_deposit noProof cfg src d = (d', r) -> sequencer_wf d'.
Proof.
  unfold sequencer_wf, sealEspressoBatch. intros Hd Hc.
  destruct (sq_espressoBatch d) as [b|] eqn:Eb; [|intros [= <- _]; by rewrite Eb].
  destruct Hd as [Hm Hb]. specialize (Hc b eq_refl).
  destruct (seal_attributes _ _ _ _ _ _ _) as [b' r'] eqn:Es. apply seal_attributes_wf in Es; [|done..].
  destruct r' as [attrs|e]; [|by intros [= <- _]].
  destruct (ec_StartPayload _ _ _ _) as [c [k [[]|e]]]; [|by intros [= <- _]].
  destruct (ec_ConfirmPayload _) as [c2 [k2 [p|e]]]; [by intros [= <- _]|].
  destruct (is_panic e); by intros [= <- _].
Qed.

Lemma last_segment a n (bjs : list EspressoBlockJustification) : map bj_Header bjs = segment ledger a (S n) ->
  exists bj, last bjs = Some bj /\ bj_Header bj = ledger (a + Z.of_nat n).
Proof.
  intros H. assert (Hl : last (map bj_Header bjs) = Some (ledger (a + Z.of_nat n))) by (by rewrite H, segment_last).
  rewrite fmap_last in Hl. destruct (last bjs) as [bj|]; [|done]. exists bj. by injection Hl.
Qed.

(** The poll for more blocks goes on right after the blocks of the batch. *)
Lemma Last_height a n b h : covers a n b -> jst_Next (ib_jst b) = None -> Last (ib_jst b) = Some h ->
  hd_Height h +₆₄ 1 = a + Z.of_nat n.
Proof using LL.
  intros Hc Hn Hl. pose proof (cv_range _ _ _ Hc) as Hr. destruct (cv_first _ _ _ Hc) as (Ha & _).
  unfold Last in Hl. rewrite Hn in Hl. destruct n as [|n].
  - pose proof (cv_blocks _ _ _ Hc) as Hb. destruct (jst_Blocks (ib_jst b)); [|done]. cbn in Hl.
    rewrite (cv_Prev _ _ _ Hc) in Hl. unfold block_before in Hl. destruct (Z.eqb_spec a 0); [done|].
    injection Hl as <-. rewrite (lg_height _ LL) by (unfold is_u64; lia). rewrite add64_small by (unfold is_u64; lia). lia.
  - destruct (last_segment _ _ _ (cv_blocks _ _ _ Hc)) as (bj & Hbj & Hh). rewrite Hbj in Hl. injection Hl as <-.
    rewrite Hh, (lg_height _ LL) by (unfold is_u64; lia). rewrite add64_small by (unfold is_u64; lia). lia.
Qed.

(** The poll of [tryToSealEspressoBatch]. *)
Definition poll (b : InProgressBatch) (d : sequencer) : sequencer * res unit :=
  if complete b then (d, Ok tt)
  else match Last (ib_jst b) with
       | None => (d, Err nil_batch)
       | Some last =>
           match FetchRemainingHeadersForWindow (hd_Height last +₆₄ 1) (ib_windowEnd b) (sq_espresso d) with
           | (q, Err e) => (set_queryService q d, Err e)
           | (q, Ok blocks) => updateEspressoBatch cfg (wm_Window blocks) (wm_Next blocks) (set_queryService q d)
           end
       end.

Lemma tryToSeal_eq d b : sq_espressoBatch d = Some b ->
  tryToSealEspressoBatch Keccak256Hash rlp_encode_jst encode_deposit noProof cfg src d =
  match poll b d with
  | (d, Err e) => (d, Err e)
  | (d, Ok _) =>
      match sq_espressoBatch d with
      | Some b => if complete b then sealEspressoBatch Keccak256Hash rlp_encode_jst encode_deposit noProof cfg src d else (d, Ok None)
      | None => (d, Err nil_batch)
      end
  end.
Proof. intros Hb. unfold tryToSealEspressoBatch. rewrite Hb. fold (poll b d). by destruct (poll b d) as [d1 [[]|e]]. Qed.

Lemma poll_spec d b d' r : sequencer_wf d -> sq_espressoBatch d = Some b -> poll b d = (d', r) ->
  updated (ib_onto b) d d' \/ (d' = d \/ exists q, d' = set_queryService q d).
Proof using LL QL.
  intros Hd Hb. unfold poll. destruct (complete b) eqn:Ec; [intros [= <- <-]; by right; left|].
  destruct (Last (ib_jst b)) as [h|] eqn:El; [|intros [= <- <-]; by right; left].
  assert (Hnone : jst_Next (ib_jst b) = None).
  { unfold complete in Ec. apply bool_decide_eq_false in Ec. by destruct (jst_Next (ib_jst b)); [destruct Ec; eexists|]. }
  unfold sequencer_wf in Hd. rewrite Hb in Hd.
  destruct Hd as [Hm [Hu|(a & n & Hc & _ & Hf)]]; [by rewrite (us_jst _ Hu) in El|].
  destruct Hf as [Hf|(Hf & _)]; [|congruence]. destruct (cv_first _ _ _ Hc) as (Ha & _).
  rewrite (Last_height a n b h) by done.
  destruct (FetchRemainingHeadersForWindow _ _ _) as [q [w|e]] eqn:Ew; [|intros [= <- <-]; right; right; by exists q].
  apply (ql_more _ _ QL) in Ew as (m & Hr & Hw & Hin & Hn); [|lia].
  intros Hrun. left. change (updated (ib_onto b) (set_queryService q d) d').
  eapply (update_wf _ _ _ _ b a n m); [done..|lia|done|done|done| |exact Hrun].
  by rewrite Nat2Z.inj_add, Z.add_assoc.
Qed.

Lemma poll_wf d b d' r : sequencer_wf d -> sq_espressoBatch d = Some b -> poll b d = (d', r) -> sequencer_wf d'.
Proof using LL QL.
  intros Hd Hb Hp. destruct (poll_spec _ _ _ _ Hd Hb Hp) as [[H _]|[->|[q ->]]]; [exact H|exact Hd|exact Hd].
Qed.

Lemma tryToSeal_wf d d' r : sequencer_wf d ->
  tryToSealEspressoBatch Keccak256Hash rlp_encode_jst encode_deposit noProof cfg src d = (d', r) -> sequencer_wf d'.
Proof using LL QL.
  intros Hd. destruct (sq_espressoBatch d) as [b|] eqn:Eb;
    [|unfold tryToSealEspressoBatch; rewrite Eb; by intros [= <- _]].
  rewrite (tryToSeal_eq d b) by done. destruct (poll b d) as [d1 r1] eqn:Ep. apply poll_wf in Ep as Hp; [|done..].
  destruct r1 as [[]|e]; [|by intros [= <- _]].
  destruct (sq_espressoBatch d1) as [b1|] eqn:Eb1; [|by intros [= <- _]].
  destruct (complete b1) eqn:Ec1; [|by intros [= <- _]].
  apply seal_wf; [done|]. intros b2 Hb2. congruence.
Qed.

(** What the engine was asked for when a batch was sealed. *)
Definition sealed (b : InProgressBatch) (c : C) (d' : sequencer) (payload : ExecutionPayload) : Prop :=
  exists b' attrs c1 k1 k2,
    seal_attributes Keccak256Hash rlp_encode_jst encode_deposit noProof cfg src b = (b', Ok attrs) /\
    ec_StartPayload (ib_onto b') attrs false c = (c1, (k1, Ok tt)) /\
    ec_ConfirmPayload c1 = (sq_engine d', (k2, Ok payload)) /\ sq_espressoBatch d' = None.

Lemma seal_ok d d' payload : sealEspressoBatch Keccak256Hash rlp_encode_jst encode_deposit noProof cfg src d = (d', Ok (Some payload)) ->
  exists b, sq_espressoBatch d = Some b /\ sealed b (sq_engine d) d' payload.
Proof.
  unfold sealEspressoBatch, sealed. destruct (sq_espressoBatch d) as [b|]; [|done].
  destruct (seal_attributes _ _ _ _ _ _ _) as [b' [attrs|e]] eqn:Ea; [|done].
  destruct (ec_StartPayload _ _ _ _) as [c1 [k1 [[]|e]]] eqn:Es; [|done].
  destruct (ec_ConfirmPayload _) as [c2 [k2 [p|e]]] eqn:Ec; [|by destruct (is_panic e)].
  intros [= <- <-]. exists b. split; [done|]. exists b', attrs, c1, k1, k2. exact (conj Ea (conj Es (conj Ec eq_refl))).
Qed.

Lemma tryToSeal_ok d d' b payload : sequencer_wf d -> sq_espressoBatch d = Some b -> batch_full b ->
  tryToSealEspressoBatch Keccak256Hash rlp_encode_jst encode_deposit noProof cfg src d = (d', Ok (Some payload)) ->
  exists b1, ib_onto b1 = ib_onto b /\ batch_wf b1 /\ complete b1 = true /\ batch_full b1 /\ sealed b1 (sq_engine d) d' payload.
Proof using LL QL.
  intros Hd Hb Hf. rewrite (tryToSeal_eq d b) by done. destruct (poll b d) as [d1 r1] eqn:Ep.
  pose proof (poll_wf _ _ _ _ Hd Hb Ep) as Hwf. apply poll_spec in Ep as Hp; [|done..].
  destruct r1 as [[]|e]; [|done]. destruct (sq_espressoBatch d1) as [b1|] eqn:Eb1; [|done].
  destruct (complete b1) eqn:Ec1; [|done]. intros Hs. apply seal_ok in Hs as (b2 & Hb2 & Hs).
  assert (b2 = b1) as -> by congruence. exists b1. unfold sequencer_wf in Hwf. rewrite Eb1 in Hwf.
  assert (Ho : ib_onto b1 = ib_onto b /\ batch_full b1 /\ sq_engine d1 = sq_engine d).
  { destruct Hp as [(_ & He & b3 & Hb3 & Ho & Hf3)|[->|[q ->]]].
    - assert (b3 = b1) as -> by congruence. done.
    - assert (b1 = b) as -> by congruence. done.
    - assert (b1 = b) as -> by (cbn in Eb1; congruence). done. }
  destruct Ho as (Ho & Hf1 & He). rewrite He in Hs. by destruct Hwf.
Qed.

(** Handling an error yields no payload. *)
Lemma handled_none (x : sequencer * res unit) d' payload : no_payload x = (d', Ok (Some payload)) -> False.
Proof. by destruct x as [d1 [[]|e]]. Qed.

(** The block an action builds on: the one of the batch in progress, unless the
    head has moved away from it. *)
Definition build_parent (d : sequencer) : L2BlockRef :=
  let head := ec_UnsafeL2Head (sq_engine d) in
  match sq_espressoBatch d with
  | Some b => if bool_decide (l2_Hash (ib_onto b) = l2_Hash head) then ib_onto b else head
  | None => head
  end.

Lemma run_sealed now d d' payload : sequencer_wf d -> sq_mode d = ModeEspresso ->
  (forall b, sq_espressoBatch d = Some b -> batch_full b) ->
  RunNextSequencerAction Keccak256Hash rlp_encode_jst encode_deposit noProof cfg src now d = (d', Ok (Some payload)) ->
  exists b, ib_onto b = build_parent d /\ batch_wf b /\ complete b = true /\ batch_full b /\ sealed b (sq_engine d) d' payload.
Proof using LL QL.
  intros Hd Hm Hf. unfold RunNextSequencerAction. destruct (ec_BuildingPayload _) as [[onto id] safe].
  destruct (_ && safe); [done|]. rewrite Hm. unfold buildEspressoBatch.
  set (d1 := match sq_espressoBatch d with Some b => _ | None => d end).
  assert (H1 : sequencer_wf d1 /\ sq_mode d1 = ModeEspresso /\ sq_engine d1 = sq_engine d /\
    match sq_espressoBatch d1 with
    | Some b => batch_full b /\ ib_onto b = build_parent d
    | None => build_parent d = ec_UnsafeL2Head (sq_engine d)
    end).
  { subst d1. unfold build_parent. destruct (sq_espressoBatch d) as [b|] eqn:Eb; [case_bool_decide|].
    - repeat (split; [done|]). rewrite Eb. split; [by apply Hf|done].
    - split; [exact I|]. done.
    - repeat (split; [done|]). by rewrite Eb. }
  clearbody d1. destruct H1 as (Hd1 & Hm1 & He1 & Hf1).
  set (p := match sq_espressoBatch d1 with Some _ => (d1, Ok tt) | None => _ end).
  assert (Hp : p.2 = Ok tt -> sequencer_wf p.1 /\ sq_engine p.1 = sq_engine d /\
    exists b, sq_espressoBatch p.1 = Some b /\ batch_full b /\ ib_onto b = build_parent d).
  { subst p. destruct (sq_espressoBatch d1) as [b|] eqn:Eb.
    - intros _. cbn [fst]. split; [done|]. split; [done|]. by exists b.
    - destruct (startBuildingEspressoBatch _ _ _) as [d2 r2] eqn:Es. cbn [fst snd]. intros ->.
      apply start_updated in Es as [(Hwf & He & b & Hb & Ho & Hfull)|(q & e & _ & ?)]; [|done..].
      split; [done|]. split; [congruence|]. exists b. split; [done|]. split; [done|]. congruence. }
  clearbody p. destruct p as [d2 [[]|e]]; cbn [fst snd] in Hp; [|intros H; by apply handled_none in H].
  destruct (Hp eq_refl) as (Hd2 & He2 & b & Hb & Hfull & Ho).
  destruct (tryToSealEspressoBatch _ _ _ _ _ _ _) as [d3 [[q|]|e]] eqn:Et;
    [|done|intros H; by apply handled_none in H].
  intros [= -> ->]. eapply tryToSeal_ok in Et as (b1 & Ho1 & Hwf1 & Hc1 & Hf1' & Hs); [|done..].
  exists b1. rewrite Ho1. rewrite He2 in Hs. done.
Qed.

(** Errors are handled without touching the batch. *)
Lemma handled_wf now e d d' r : sequencer_wf d ->
  (handleNonEngineError now e d = (d', r) \/ handlePossibleEngineError cfg now e d = (d', r)) -> sequencer_wf d'.
Proof.
  intros Hd [H|H]; revert H; unfold handlePossibleEngineError, handleNonEngineError;
    repeat case_match; intros [= <- _]; exact Hd.
Qed.

Lemma no_payload_eq (x : sequencer * res unit) d' r : no_payload x = (d', r) -> x.1 = d'.
Proof. destruct x. by intros [= ->]. Qed.

Lemma buildEspresso_wf now d d' r : sq_mode d = ModeEspresso -> sequencer_wf d ->
  buildEspressoBatch Keccak256Hash rlp_encode_jst encode_deposit noProof cfg src now d = (d', r) -> sequencer_wf d'.
Proof using LL QL.
  intros Hm Hd. unfold buildEspressoBatch.
  set (d1 := match sq_espressoBatch d with Some b => _ | None => d end).
  assert (H1 : sequencer_wf d1 /\ sq_mode d1 = ModeEspresso).
  { subst d1. destruct (sq_espressoBatch d) eqn:Eb; [case_bool_decide|]; (split; [exact Hd || exact I|exact Hm]). }
  set (p := match sq_espressoBatch d1 with Some _ => (d1, Ok tt) | None => _ end).
  assert (Hp : sequencer_wf p.1).
  { subst p. destruct (sq_espressoBatch d1); [apply H1|].
    destruct (startBuildingEspressoBatch _ _ _) as [d2 r2] eqn:Es. eapply start_wf in Es; [exact Es|apply H1|apply H1]. }
  destruct p as [d2 [[]|e]]; cbn [fst] in Hp.
  - destruct (tryToSealEspressoBatch _ _ _ _ _ _ _) as [d3 r3] eqn:Et. apply tryToSeal_wf in Et; [|done].
    destruct r3 as [[p|]|e]; [by intros [= <- _]|by intros [= <- _]|].
    intros H. apply no_payload_eq in H. destruct (handlePossibleEngineError cfg now e d3) as [d4 r4] eqn:Eh.
    cbn [fst] in H. subst d4. eapply handled_wf; [exact Et|by right].
  - intros H. apply no_payload_eq in H. destruct (handleNonEngineError now e d2) as [d4 r4] eqn:Eh.
    cbn [fst] in H. subst d4. eapply handled_wf; [exact Hp|by left].
Qed.

(** In legacy mode there is no batch. *)
Lemma no_batch_wf d d' : sq_mode d <> ModeEspresso -> sequencer_wf d -> sq_espressoBatch d' = sq_espressoBatch d -> sequencer_wf d'.
Proof. unfold sequencer_wf. intros Hm Hd ->. destruct (sq_espressoBatch d); [by destruct Hd|done]. Qed.

Lemma buildLegacy_batch now building (d d' : sequencer) r :
  buildLegacyBlock Keccak256Hash rlp_encode_jst encode_deposit cfg src now building d = (d', r) ->
  sq_espressoBatch d' = sq_espressoBatch d.
Proof.
  unfold buildLegacyBlock, completeBuildingLegacyBlock, startBuildingLegacyBlock, handlePossibleEngineError, handleNonEngineError, no_payload.
  intros H. repeat (case_match; simplify_eq; try done).
Qed.

Lemma startLegacy_batch (d d' : sequencer) r : startBuildingLegacyBlock Keccak256Hash rlp_encode_jst encode_deposit cfg src d = (d', r) ->
  sq_espressoBatch d' = sq_espressoBatch d.
Proof. unfold startBuildingLegacyBlock. intros H. repeat (case_match; simplify_eq; try done). Qed.

Lemma detectMode_spec (d d' : sequencer) r : detectMode src d = (d', r) ->
  sq_espressoBatch d' = sq_espressoBatch d /\ sq_engine d' = sq_engine d /\ (r = Ok tt -> sq_mode d' <> ModeUnknown).
Proof.
  unfold detectMode. destruct (SystemConfigByL2Hash _ _) as [c|e]; intros [= <- <-]; [|done].
  cbn. repeat split. by destruct (Espresso c).
Qed.
End Seal.

(** *** Every run of the sequencer *)

(** What can happen to the sequencer: an action of its own, with the answers
    of the nodes and the time of that moment; the derivation pipeline and the
    engine move on; the query service does. *)
Inductive sequencer_step : sequencer -> sequencer -> Prop :=
| step_run src now d d' r :
    RunNextSequencerAction Keccak256Hash rlp_encode_jst encode_deposit noProof cfg src now d = (d', r) -> sequencer_step d d'
| step_start src d d' r :
    StartBuildingBlock Keccak256Hash rlp_encode_jst encode_deposit cfg src d = (d', r) -> sequencer_step d d'
| step_complete src d d' r :
    CompleteBuildingBlock Keccak256Hash rlp_encode_jst encode_deposit noProof cfg src d = (d', r) -> sequencer_step d d'
| step_cancel d : sequencer_step d (CancelBuildingBlock d)
| step_engine c d : sequencer_step d (set_engineControl c d)
| step_query q d : sequencer_step d (set_queryService q d).

Lemma run_wf src now d d' r : sequencer_wf d ->
  RunNextSequencerAction Keccak256Hash rlp_encode_jst encode_deposit noProof cfg src now d = (d', r) -> sequencer_wf d'.
Proof using LL QL.
  intros Hd. unfold RunNextSequencerAction. destruct (ec_BuildingPayload _) as [[onto id] safe].
  destruct (_ && safe); [by intros [= <- _]|]. destruct (sq_mode d) eqn:Em.
  - by apply buildEspresso_wf.
  - intros H. apply buildLegacy_batch in H. eapply no_batch_wf; [|done..]. congruence.
  - destruct (detectMode src d) as [d1 r1] eqn:Ed. apply detectMode_spec in Ed as (Hb & _).
    assert (H1 : sequencer_wf d1) by (eapply no_batch_wf; [|done..]; congruence).
    destruct r1 as [[]|e]; [by intros [= <- _]|]. intros H. apply no_payload_eq in H.
    destruct (handleNonEngineError now e d1) as [d4 r4] eqn:Eh. cbn [fst] in H. subst d4.
    eapply handled_wf; [exact H1|by left].
Qed.

Lemma start_building_wf src n d d' r : sequencer_wf d ->
  start_building Keccak256Hash rlp_encode_jst encode_deposit cfg src n d = (d', r) -> sequencer_wf d'.
Proof using QL.
  revert d. induction n as [|n IH]; intros d Hd; cbn [start_building]; destruct (sq_mode d) eqn:Em.
  1,4: by apply start_wf.
  1,3: intros H; apply startLegacy_batch in H; eapply no_batch_wf; [|done..]; congruence.
  all: destruct (detectMode src d) as [d1 r1] eqn:Ed; apply detectMode_spec in Ed as (Hb & _);
    assert (H1 : sequencer_wf d1) by (eapply no_batch_wf; [|done..]; congruence);
    destruct r1 as [[]|e]; [|by intros [= <- _]].
  - by intros [= <- _].
  - by apply IH.
Qed.

Lemma step_wf d d' : sequencer_step d d' -> sequencer_wf d -> sequencer_wf d'.
Proof using LL QL.
  destruct 1 as [src now d d' r H|src d d' r H|src d d' r H|d|c d|q d]; intros Hd.
  - by eapply run_wf.
  - by eapply start_building_wf.
  - revert H. unfold CompleteBuildingBlock. destruct (sq_mode d) eqn:Em.
    + by apply tryToSeal_wf.
    + unfold completeBuildingLegacyBlock. destruct (ec_ConfirmPayload _) as [c [k rr]]. intros [= <- _].
      eapply no_batch_wf; [|done..]; congruence.
    + by intros [= <- _].
  - unfold CancelBuildingBlock. destruct (sq_mode d) eqn:Em; [done| |done].
    eapply no_batch_wf; [|done..]; congruence.
  - done.
  - done.
Qed.

Lemma reachable_wf c q d : rtc sequencer_step (NewSequencer c q) d -> sequencer_wf d.
Proof using LL QL.
  intros Hreach. remember (NewSequencer c q) as d0 eqn:E0. assert (H0 : sequencer_wf d0) by (by subst d0). clear E0.
  induction Hreach as [|d0 d1 d2 Hs _ IH]; [done|]. apply IH. by eapply step_wf.
Qed.

(** C21. Whatever the sequencer does, and whatever fails on the way, the batch
    in progress is well-formed in every reachable state: there is one in
    Espresso mode only, its window is the time slot after the block it builds
    on, and, as soon as the query service knew a block for it, its
    justification is a gapless segment of the Espresso ledger that starts where
    block time reaches the window (the block before is earlier), has no block
    at or after the end of the window and is closed, when it is complete, by
    the block right after it, which is; its transactions are those of exactly
    these blocks (or none, when the batch had to be emptied). Timestamps may
    decrease; a block in the middle may then lie before the window. *)
Theorem sequencer_batch_wf (c : C) (q : Q) (d : sequencer)
  (Hreach : rtc sequencer_step (NewSequencer c q) d) : sequencer_wf d.
Proof using LL QL. by eapply reachable_wf. Qed.
End Invariant.

(** ** From the sequencer to the verifier *)

Section Accepted.
Context `{B : BlockLib} `{EL : EspressoLib}.
Variable Keccak256Hash : bytes -> Hash.
Variable rlp_encode_jst : option L2BatchJustification -> res bytes.
Variable rlp_decode_jst : bytes -> res L2BatchJustification.
Variable encode_deposit : DepositTx -> res bytes.
Variable decode_tx : bytes -> res (Z * bytes).
Variable noProof : NmtProof.
Variable cfg : Config.

(** What the engine makes of the transactions of the attributes, from position
    [pos] of the block on: it includes them, or rejects those that are no
    deposits and records where. *)
Inductive engine_txs : Z -> list bytes -> list EthTx -> list RejectedTransaction -> Prop :=
| engine_done pos : engine_txs pos [] [] []
| engine_included pos otx given tx txs rej : etx_MarshalBinary tx = Ok otx ->
    decode_tx otx = Ok (etx_Type tx, etx_Data tx) ->
    engine_txs (pos + 1) given txs rej -> engine_txs pos (otx :: given) (tx :: txs) rej
| engine_rejected pos otx given txs rej : (forall data, decode_tx otx <> Ok (DepositTxType, data)) ->
    engine_txs pos given txs rej -> engine_txs pos (otx :: given) txs (mkRejected otx pos :: rej).

(** The block the engine builds on [parent] for a time, from the transactions
    it is given. *)
Record engine_block (parent : L2BlockRef) (time : Z) (given : list bytes) (block : Block) : Prop := {
  eb_parent : bk_ParentHash block = l2_Hash parent;
  eb_time : bk_Time block = time;
  eb_size : Z.of_nat (length (bk_Transactions block)) < 2 ^ 64;
  eb_txs : engine_txs 0 given (bk_Transactions block) (bk_Rejected block);
}.

Definition is_deposit (b : bytes) : Prop := exists data, decode_tx b = Ok (DepositTxType, data).

(** The type of a transaction is its first byte. *)
Definition typed_first : Prop := forall b data, decode_tx b = Ok (DepositTxType, data) -> head b = Some DepositTxType.

Lemma engine_txs_users (T : typed_first) users : forall pos txs rej,
  batch_txs_ok users = true -> engine_txs pos users txs rej -> sequenced pos users txs rej.
Proof.
  induction users as [|u users IH]; intros pos txs rej Hok H; inversion H; subst.
  - constructor.
  - cbn in Hok. destruct u as [|b u]; [done|]. destruct (Z.eqb_spec b DepositTxType); [done|].
    apply sequenced_included; [|done|by apply IH].
    intros Ht. match goal with Hd : decode_tx _ = Ok _ |- _ => rewrite Ht in Hd; apply T in Hd; cbn in Hd; congruence end.
  - cbn in Hok. destruct u as [|b u]; [done|]. destruct (Z.eqb_spec b DepositTxType); [done|].
    apply sequenced_rejected. by apply IH.
Qed.

Lemma engine_txs_sequenced (T : typed_first) deps users : forall pos txs rej,
  Forall is_deposit deps -> batch_txs_ok users = true ->
  engine_txs pos (deps ++ users) txs rej -> sequenced pos users txs rej.
Proof.
  induction deps as [|d deps IH]; intros pos txs rej Hd Hok H; [by apply engine_txs_users|].
  apply Forall_cons in Hd as [[data Hdata] Hd]. cbn [app] in H. inversion H; subst.
  - assert (Ht : etx_Type tx = DepositTxType) by congruence. apply sequenced_deposit; [done|]. by apply IH.
  - match goal with Hr : forall data, _ |- _ => by apply Hr in Hdata end.
Qed.

Lemma engine_txs_head info given pos txs rej data : decode_tx info = Ok (DepositTxType, data) ->
  engine_txs pos (info :: given) txs rej ->
  exists tx txs', txs = tx :: txs' /\ etx_Type tx = DepositTxType /\ etx_Data tx = data.
Proof.
  intros Hd H. inversion H; subst.
  - exists tx, txs0. split; [done|]. split; congruence.
  - match goal with Hr : forall data, _ |- _ => by apply Hr in Hd end.
Qed.

(** A block whose transactions are an L1 info deposit, deposits and the
    transactions [users] is read back by the batcher as the batch of [users]. *)
Lemma engine_block_batch (CL : codec_laws Keccak256Hash rlp_encode_jst rlp_decode_jst encode_deposit decode_tx) (T : typed_first)
  parent time block seq info sysCfg jst regolith infoTx deps users :
  engine_block parent time (infoTx :: deps ++ users) block -> info_wf (info_of seq info sysCfg jst) ->
  L1InfoDepositBytes Keccak256Hash rlp_encode_jst encode_deposit seq info sysCfg jst regolith = Ok infoTx ->
  Forall is_deposit deps -> batch_txs_ok users = true ->
  BlockToSingularBatch Keccak256Hash rlp_decode_jst block =
    Ok ({| sb_ParentHash := l2_Hash parent; sb_EpochNum := bi_Number info; sb_EpochHash := bi_Hash info;
           sb_Timestamp := time; sb_Transactions := users; sb_Justification := jst |},
        info_of seq info sysCfg jst).
Proof.
  intros [Hp Ht Hs Htx] Hwf Hinfo Hdeps Hok.
  destruct (info_deposit_reads _ _ _ _ _ CL _ _ _ _ _ _ Hwf Hinfo) as (data & Hdec & Hread).
  destruct (engine_txs_head _ _ _ _ _ _ Hdec Htx) as (tx & txs & Hblk & Hty & Hdata).
  assert (Hseq : sequenced 0 users (bk_Transactions block) (bk_Rejected block)).
  { eapply (engine_txs_sequenced T (infoTx :: deps)); [|done|exact Htx]. constructor; [by eexists|done]. }
  apply opaque_txs_sequenced in Hseq; [|lia|lia].
  unfold BlockToSingularBatch. rewrite Hseq. cbn [mbind res_bind]. rewrite Hblk, Hty, Z.eqb_refl. cbn [negb].
  rewrite Hdata, Hread. cbn [map_err mbind res_bind]. by rewrite Hp, Ht.
Qed.

(** *** A complete window passes the Espresso rules *)

Variable ledger : Z -> Header.
Variable proves : Z -> Header -> NmtProof -> list bytes -> Prop.
Context (LL : ledger_laws ledger).

Lemma blocks_head a n (bjs : list EspressoBlockJustification) (next : Header) :
  map bj_Header bjs = segment ledger a n -> next = ledger (a + Z.of_nat n) ->
  match bjs with bj :: _ => bj_Header bj | [] => next end = ledger a.
Proof.
  intros Hb ->. destruct bjs as [|bj bjs], n as [|n]; cbn in Hb; try done.
  - f_equal. lia.
  - by injection Hb.
Qed.

Lemma window_first a n b next : covers cfg ledger a n b -> jst_Next (ib_jst b) = Some next -> next = ledger (a + Z.of_nat n) ->
  First (ib_jst b) = Some (ledger (if a =? 0 then 0 else a - 1)).
Proof.
  intros Hc Hn Hnext. unfold First. rewrite (cv_Prev _ _ _ _ _ Hc). unfold block_before.
  destruct (Z.eqb_spec a 0) as [->|]; [|done].
  pose proof (blocks_head _ _ _ _ (cv_blocks _ _ _ _ _ Hc) Hnext) as Hh.
  destruct (jst_Blocks (ib_jst b)); [by rewrite Hn, Hh|by rewrite Hh].
Qed.

Lemma window_commitments a n b next : covers cfg ledger a n b -> jst_Next (ib_jst b) = Some next -> next = ledger (a + Z.of_nat n) ->
  exists k, (if a =? 0 then 0 else a - 1) + Z.of_nat k = a + Z.of_nat n + 1 /\
    jst_commitments (ib_jst b) = Ok (map Commit (segment ledger (if a =? 0 then 0 else a - 1) k)).
Proof.
  intros Hc Hn ->. unfold jst_commitments. rewrite Hn. cbn [deref mbind res_bind].
  assert (Hb : map (fun bj => Commit (bj_Header bj)) (jst_Blocks (ib_jst b)) = map Commit (segment ledger a n))
    by (rewrite <- (cv_blocks _ _ _ _ _ Hc), map_map; done).
  rewrite Hb, (cv_Prev _ _ _ _ _ Hc). unfold block_before. destruct (Z.eqb_spec a 0) as [->|].
  - exists (S n). split; [lia|]. f_equal. rewrite segment_snoc, map_app. done.
  - exists (S (S n)). split; [lia|]. replace (segment ledger (a - 1) (S (S n))) with (ledger (a - 1) :: segment ledger a (S n))
      by (cbn [segment]; by replace (a - 1 + 1) with a by lia).
    rewrite segment_snoc. cbn [map]. by rewrite map_app.
Qed.

Lemma window_bookends a n b next : covers cfg ledger a n b -> jst_Next (ib_jst b) = Some next ->
  next = ledger (a + Z.of_nat n) -> ib_windowEnd b <= hd_Timestamp next -> ib_windowStart b <= ib_windowEnd b ->
  let first := ledger (if a =? 0 then 0 else a - 1) in
  bookends_ok (ib_windowStart b) (jst_Prev (ib_jst b)) first (jst_first_after (ib_jst b) next) /\
  bookends_ok (ib_windowEnd b) (jst_last_before (ib_jst b)) first next.
Proof using LL.
  intros Hc Hn Hnext Hend Hlt first. destruct (cv_first _ _ _ _ _ Hc) as (Ha & Hs & Hp).
  pose proof (blocks_head _ _ _ _ (cv_blocks _ _ _ _ _ Hc) Hnext) as Hh.
  assert (Hafter : jst_first_after (ib_jst b) next = ledger a) by (unfold jst_first_after; exact Hh).
  split.
  - rewrite Hafter, (cv_Prev _ _ _ _ _ Hc). unfold bookends_ok, block_before, first.
    destruct (Z.eqb_spec a 0) as [->|]; [|split; [apply Hp; lia|done]].
    split; [|done]. split; [by apply (lg_height _ LL); unfold is_u64|done].
  - unfold jst_last_before. destruct n as [|n].
    + pose proof (cv_blocks _ _ _ _ _ Hc) as Hb. destruct (jst_Blocks (ib_jst b)); [|done]. cbn [last].
      rewrite (cv_Prev _ _ _ _ _ Hc). unfold bookends_ok, block_before, first.
      destruct (Z.eqb_spec a 0) as [->|]; [|split; [specialize (Hp ltac:(lia)); lia|done]].
      split; [|done]. split; [by apply (lg_height _ LL); unfold is_u64|]. rewrite Hnext in Hend. done.
    + destruct (last_segment ledger _ _ _ (cv_blocks _ _ _ _ _ Hc)) as (bj & -> & Hbj).
      unfold bookends_ok. split; [|done]. rewrite Hbj. pose proof (cv_inside _ _ _ _ _ Hc) as Hin.
      rewrite segment_snoc in Hin. apply Forall_app in Hin as [_ Hin]. by apply Forall_cons_1 in Hin as [Hin _].
Qed.

(** What a verifier that follows the same chains has when it meets the batch
    of the block after [parent]: the configuration of that block, at least two
    L1 blocks from the parent's origin on, the L1 blocks the sequencer knows,
    an L1 client whose answers belong together, and an inclusion block within
    the window. *)
Record verifier_view (src : Sources) (parent : L2BlockRef) (sysCfg : SystemConfig) (l1Blocks : list L1BlockRef)
    (l1 : L1Provider) (incl : L1BlockRef) : Prop := {
  vv_config : SystemConfigByL2Hash (src_fetchers src) (l2_Hash parent) = Ok sysCfg;
  vv_mode : Espresso sysCfg = true;
  vv_time : 0 <= l2_Time parent /\ 0 <= BlockTime cfg /\ l2_Time parent + 2 * BlockTime cfg < 2 ^ 64;
  vv_origin : 0 <= id_Number (l2_L1Origin parent) /\ 0 <= SeqWindowSize cfg /\
    id_Number (l2_L1Origin parent) + 1 + SeqWindowSize cfg < 2 ^ 64;
  vv_blocks : exists epoch next later, l1Blocks = epoch :: next :: later /\
    L1BlockRefByNumber l1 (id_Number (l2_L1Origin parent)) = Ok epoch /\
    L1BlockRefByNumber l1 (id_Number (l2_L1Origin parent) + 1) = Ok next;
  vv_consistent : l1_consistent l1;
  vv_same : forall n b, lc_L1BlockRefByNumber (src_l1 src) n = Ok b -> L1BlockRefByNumber l1 n = Ok b;
  vv_info : forall n b i, L1BlockRefByNumber l1 n = Ok b ->
    InfoByHash (src_fetchers src) (l1_Hash b) = Ok i -> InfoToL1BlockRef i = b;
  vv_receipts : forall n b i rs, L1BlockRefByNumber l1 n = Ok b ->
    FetchReceipts (src_fetchers src) (l1_Hash b) = Ok (i, rs) -> InfoToL1BlockRef i = b;
  vv_incl : l1_Number incl <= id_Number (l2_L1Origin parent) + SeqWindowSize cfg;
}.

(** The sequencer contract confirms the blocks of the ledger below [upto]. *)
Definition contract_has (l1 : L1Provider) (upto : Z) : Prop :=
  forall a k, 0 <= a -> a + Z.of_nat k <= upto -> VerifyCommitments l1 a (map Commit (segment ledger a k)) = Ok true.

(** The window of a block on [parent]: [n] blocks of the ledger from block [a]
    on, all before its end, and the block after these is not. *)
Record ledger_window (parent : L2BlockRef) (a : Z) (n : nat) : Prop := {
  lw_start : first_at ledger (l2_Time parent +₆₄ BlockTime cfg) a;
  lw_inside : Forall (fun h => hd_Timestamp h < l2_Time parent +₆₄ BlockTime cfg +₆₄ BlockTime cfg) (segment ledger a n);
  lw_end : l2_Time parent +₆₄ BlockTime cfg +₆₄ BlockTime cfg <= hd_Timestamp (ledger (a + Z.of_nat n));
}.

(** An origin the selector's L1 gives is one the verifier gets as well. *)
Lemma EspressoL1Origin_mono sysCfg parent suggested (f g : Z -> res L1BlockRef) o :
  (forall n b, f n = Ok b -> g n = Ok b) ->
  EspressoL1Origin cfg sysCfg parent suggested f = Ok o ->
  EspressoL1Origin cfg sysCfg parent suggested g = Ok o /\ exists n, f n = Ok o.
Proof.
  intros Hfg. unfold EspressoL1Origin. fold (confirmed sysCfg suggested).
  destruct (_ +₆₄ 1 <? _).
  { destruct (f (_ +₆₄ 1)) as [b|e] eqn:Ef; cbn [map_err mbind res_bind]; [|done]. rewrite (Hfg _ _ Ef). cbn [map_err mbind res_bind].
    destruct (_ <=? _); [intros [= ->]; eauto|]. intros H. split; [by apply Hfg|eauto]. }
  destruct (_ <? id_Number _); [intros H; split; [by apply Hfg|eauto]|].
  destruct (f (confirmed sysCfg suggested)) as [b|e] eqn:Ef; cbn [map_err mbind res_bind]; [|done].
  rewrite (Hfg _ _ Ef). cbn [map_err mbind res_bind].
  destruct (_ <? _); [intros H; split; [by apply Hfg|eauto]|].
  destruct (_ <? _); intros H; [split; [by apply Hfg|eauto]|]. apply Ok_inj in H. subst. eauto.
Qed.

#[local] Notation seal src b := (seal_attributes Keccak256Hash rlp_encode_jst encode_deposit noProof cfg src b) (only parsing).

Lemma seal_attributes_ok src b b' attrs : seal src b = (b', Ok attrs) ->
  exists sysCfg next o base, SystemConfigByL2Hash (src_fetchers src) (l2_Hash (ib_onto b)) = Ok sysCfg /\
    jst_Next (ib_jst b) = Some next /\
    EspressoL1Origin cfg sysCfg (ib_onto b) (hd_L1Head next) (lc_L1BlockRefByNumber (src_l1 src)) = Ok o /\
    b' = (if EspressoBatchMustBeEmpty cfg o (ib_windowStart b) then empty_batch noProof b else b) /\
    PreparePayloadAttributes Keccak256Hash rlp_encode_jst encode_deposit cfg (src_fetchers src)
      (ib_onto b) (L1BlockRef_ID o) (Some (ib_jst b')) = Ok base /\
    pa_Timestamp attrs = pa_Timestamp base /\ pa_Transactions attrs = pa_Transactions base ++ ib_transactions b'.
Proof.
  unfold seal_attributes. destruct (SystemConfigByL2Hash _ _) as [c|] eqn:Ec; [|done].
  destruct (jst_Next (ib_jst b)) as [next|]; cbn [deref mbind res_bind]; [|done].
  destruct (EspressoL1Origin _ _ _ _ _) as [o|] eqn:Eo; [|done].
  set (b1 := if EspressoBatchMustBeEmpty cfg o (ib_windowStart b) then _ else b).
  destruct (PreparePayloadAttributes _ _ _ _ _ _ _ _) as [base|] eqn:Ep; cbn [mbind res_bind]; [|done].
  intros [= <- <-]. exists c, next, o, base. repeat (split; [done|]).
  assert (Ho : ib_onto b1 = ib_onto b) by (unfold b1; by destruct (EspressoBatchMustBeEmpty _ _ _)).
  rewrite Ho in Ep. done.
Qed.

(** The L1 block the attributes were prepared for is the origin. *)
Lemma origin_step_info src parent sysCfg l1Blocks l1 incl o info ds c seq parentCfg n :
  verifier_view src parent sysCfg l1Blocks l1 incl -> L1BlockRefByNumber l1 n = Ok o ->
  origin_step Keccak256Hash cfg (src_fetchers src) parent (L1BlockRef_ID o) parentCfg info ds c seq ->
  InfoToL1BlockRef info = o.
Proof.
  intros V Hn Hstep. inversion Hstep; subst.
  - by eapply (vv_receipts _ _ _ _ _ _ V).
  - by eapply (vv_info _ _ _ _ _ _ V).
Qed.

(** The origin is one of the first two L1 blocks of the verifier. *)
Lemma origin_in_blocks src parent sysCfg l1Blocks l1 incl o suggested :
  verifier_view src parent sysCfg l1Blocks l1 incl ->
  EspressoL1Origin cfg sysCfg parent suggested (L1BlockRefByNumber l1) = Ok o ->
  (exists n, L1BlockRefByNumber l1 n = Ok o) ->
  batch_origin l1Blocks (l1_Number o) o /\ l1_Number incl <= l1_Number o +₆₄ SeqWindowSize cfg /\
  (forall ts, drift_ok cfg true l1Blocks o ts []).
Proof.
  intros V Ho [n Hn]. destruct (vv_blocks _ _ _ _ _ _ V) as (epoch & next & later & -> & He & Hx).
  pose proof (vv_consistent _ _ _ _ _ _ V) as Hcons. destruct (vv_origin _ _ _ _ _ _ V) as (Hp & Hs & Hmax).
  pose proof (vv_incl _ _ _ _ _ _ V) as Hincl.
  pose proof (Hcons _ _ He) as Hen. pose proof (Hcons _ _ Hx) as Hxn. pose proof (Hcons _ _ Hn) as Hon.
  split; [|split].
  - apply EspressoL1Origin_spec in Ho as [[_ Ho]|[Ho _]]; [| |done|unfold is_u64; lia].
    + assert (o = epoch) as -> by congruence. by econstructor.
    + rewrite add64_small in Ho by (unfold is_u64; lia).
      assert (o = next) as -> by congruence. eapply NextEpoch; [done|lia|].
      rewrite Hxn, Hen. by rewrite add64_small by (unfold is_u64; lia).
  - apply EspressoL1Origin_spec in Ho as [[Ho _]|[Ho _]]; [| |done|unfold is_u64; lia]; rewrite Ho.
    + rewrite add64_small by (unfold is_u64; lia). lia.
    + rewrite (add64_small _ 1) by (unfold is_u64; lia). rewrite add64_small by (unfold is_u64; lia). lia.
  - intros ts. right. split; [done|]. right. exists next. split; [done|by left].
Qed.

(** Namespace proofs: transactions that are each proven pass the check. *)
Definition proofs_complete : Prop := forall ns bjs txss, contents proves ns bjs txss ->
  ValidateBatchTransactions ns (map (fun bj => hd_TransactionsRoot (bj_Header bj)) bjs) (map bj_Proof bjs) (concat txss) = None.

Lemma complete_window b next : batch_wf noProof cfg ledger proves b -> jst_Next (ib_jst b) = Some next ->
  exists a n, covers cfg ledger a n b /\ next = ledger (a + Z.of_nat n) /\ ledger_window (ib_onto b) a n.
Proof.
  intros [Hu|(a & n & Hc & [Hn'|[Hn' Hend]] & _)] Hn; [by rewrite (us_jst _ _ Hu) in Hn|congruence|].
  exists a, n. split; [done|]. split; [congruence|].
  destruct Hc as [C1 C2 C3 C4 C5 C6 C7]. rewrite C2, C1 in *. by constructor.
Qed.

Lemma window_accepted src b b' attrs base o sysCfg next l1Blocks l1 incl a m :
  proofs_complete -> covers cfg ledger a m b -> next = ledger (a + Z.of_nat m) -> ledger_window (ib_onto b) a m ->
  contract_has l1 (a + Z.of_nat m + 1) -> batch_full cfg proves b -> is_Some (L2ChainID cfg) ->
  verifier_view src (ib_onto b) sysCfg l1Blocks l1 incl ->
  jst_Next (ib_jst b) = Some next ->
  EspressoL1Origin cfg sysCfg (ib_onto b) (hd_L1Head next) (lc_L1BlockRefByNumber (src_l1 src)) = Ok o ->
  b' = (if EspressoBatchMustBeEmpty cfg o (ib_windowStart b) then empty_batch noProof b else b) ->
  l1_Time o <= pa_Timestamp attrs -> pa_Timestamp attrs = l2_Time (ib_onto b) +₆₄ BlockTime cfg ->
  batch_txs_ok (ib_transactions b') = true ->
  base = {| sb_ParentHash := l2_Hash (ib_onto b); sb_EpochNum := l1_Number o; sb_EpochHash := l1_Hash o;
            sb_Timestamp := pa_Timestamp attrs; sb_Transactions := ib_transactions b'; sb_Justification := Some (ib_jst b') |} ->
  checkSingularBatch cfg sysCfg l1Blocks (ib_onto b) base incl l1 = Ok BatchAccept.
Proof using LL.
  intros Hproofs Hc Hnx Hlw Hcontract Hfull [id Hid] V Hnext Ho Hb' Hlo Hts Hok ->.
  destruct (EspressoL1Origin_mono _ _ _ _ _ _ (vv_same _ _ _ _ _ _ V) Ho) as [Ho' [n Hn]].
  destruct (origin_in_blocks _ _ _ _ _ _ _ _ V Ho') as (Horigin & Hincl & Hdrift);
    [exists n; by apply (vv_same _ _ _ _ _ _ V)|].
  assert (Hend : ib_windowEnd b <= hd_Timestamp (ledger (a + Z.of_nat m)))
    by (rewrite (cv_end _ _ _ _ _ Hc), (cv_start _ _ _ _ _ Hc); apply (lw_end _ _ _ Hlw)).
  assert (Hempty : EspressoBatchMustBeEmpty cfg o (pa_Timestamp attrs) = EspressoBatchMustBeEmpty cfg o (ib_windowStart b))
    by (by rewrite Hts, (cv_start _ _ _ _ _ Hc)).
  assert (Hc' : covers cfg ledger a m b') by (rewrite Hb'; destruct (EspressoBatchMustBeEmpty _ _ _); [by apply empty_batch_covers|done]).
  assert (Hnj : jst_Next (ib_jst b') = Some next) by (rewrite Hb'; by destruct (EspressoBatchMustBeEmpty _ _ _)).
  assert (Hwin : ib_windowStart b' = ib_windowStart b /\ ib_windowEnd b' = ib_windowEnd b)
    by (rewrite Hb'; by destruct (EspressoBatchMustBeEmpty _ _ _)). destruct Hwin as [Hws Hwe].
  destruct (vv_time _ _ _ _ _ _ V) as (T1 & T2 & T3).
  pose proof (cv_start _ _ _ _ _ Hc) as Hstart. pose proof (cv_end _ _ _ _ _ Hc) as Hstop.
  destruct (window_bookends a m b' next Hc' Hnj Hnx) as [Hbs Hbe].
  { rewrite Hwe, Hnx. done. }
  { rewrite Hws, Hwe, Hstop, Hstart. rewrite (add64_small (l2_Time _)) by (unfold is_u64; lia).
    rewrite add64_small by (unfold is_u64; lia). lia. }
  destruct (window_commitments a m b' next Hc' Hnj Hnx) as (k & Hk & Hcomms).
  apply checkSingularBatch_accept. split.
  - unfold singular_valid. cbn [sb_Timestamp sb_ParentHash sb_EpochNum sb_EpochHash sb_Transactions].
    do 4 (split; [done|]). exists o. do 3 (split; [done|]). rewrite (vv_mode _ _ _ _ _ _ V).
    destruct (EspressoBatchMustBeEmpty cfg o (ib_windowStart b)) eqn:Em; rewrite Hb'; [apply Hdrift|].
    left. unfold EspressoBatchMustBeEmpty in Hempty. apply Z.ltb_ge in Hempty. lia.
  - intros _. apply CheckBatchEspresso_accept. destruct (cv_first _ _ _ _ _ Hc) as (Ha & _).
    exists (ib_jst b'), next, (ledger (if a =? 0 then 0 else a - 1)),
      (map Commit (segment ledger (if a =? 0 then 0 else a - 1) k)), o.
    assert (Hst : is_u64 (if a =? 0 then 0 else a - 1))
      by (pose proof (cv_range _ _ _ _ _ Hc); unfold is_u64; destruct (Z.eqb_spec a 0); lia).
    split; [done|]. split; [done|]. split; [by eapply window_first|]. split; [done|].
    split; [rewrite (lg_height _ LL); [apply Hcontract; [apply Hst|lia]|exact Hst]|].
    rewrite <- Hstart, <- Hstop, <- Hws, <- Hwe. split; [done|]. split; [done|]. split; [done|]. split; [done|].
    cbn [sb_Timestamp sb_Transactions]. rewrite Hempty.
    destruct (EspressoBatchMustBeEmpty cfg o (ib_windowStart b)); rewrite Hb'; [done|].
    exists id. split; [done|]. destruct Hfull as (txss & -> & Hcs). apply Hproofs. unfold namespace in Hcs. by rewrite Hid in Hcs.
Qed.

Lemma deposits_encoded (CL : codec_laws Keccak256Hash rlp_encode_jst rlp_decode_jst encode_deposit decode_tx) ds txs :
  Forall2 (fun d b => encode_deposit d = Ok b) ds txs -> Forall is_deposit txs.
Proof.
  intros Henc. apply Forall_forall. intros x Hx. apply list_elem_of_lookup in Hx as [i Hi].
  destruct (Forall2_lookup_r _ _ _ _ _ Henc Hi) as (d & _ & Hd). apply (tx_some _ _ _ _ _ CL) in Hd. by eexists.
Qed.

Lemma sealed_accepted (CL : codec_laws Keccak256Hash rlp_encode_jst rlp_decode_jst encode_deposit decode_tx)
  (T : typed_first) (P : proofs_complete) (Hid : is_Some (L2ChainID cfg)) src b b' attrs :
  fetchers_wf (src_fetchers src) -> batch_wf noProof cfg ledger proves b -> batch_full cfg proves b ->
  seal src b = (b', Ok attrs) ->
  ib_onto b' = ib_onto b /\
  exists infoTx deps a n, pa_Transactions attrs = infoTx :: deps ++ ib_transactions b' /\ Forall is_deposit deps /\
  ledger_window (ib_onto b) a n /\
  forall block sysCfg l1Blocks l1 incl,
    engine_block (ib_onto b) (pa_Timestamp attrs) (pa_Transactions attrs) block ->
    verifier_view src (ib_onto b) sysCfg l1Blocks l1 incl -> contract_has l1 (a + Z.of_nat n + 1) ->
    batch_txs_ok (ib_transactions b') = true ->
    exists batch info, BlockToSingularBatch Keccak256Hash rlp_decode_jst block = Ok (batch, info) /\
      sb_Transactions batch = ib_transactions b' /\
      checkSingularBatch cfg sysCfg l1Blocks (ib_onto b) batch incl l1 = Ok BatchAccept.
Proof using LL.
  intros W Hwf Hfull Hs. apply seal_attributes_ok in Hs as (sysCfg & next & o & base & Hcfg & Hnext & Ho & Hb' & Hprep & Hts & Htx).
  split; [rewrite Hb'; by destruct (EspressoBatchMustBeEmpty _ _ _)|].
  apply PreparePayloadAttributes_ok in Hprep as (pc & info & ds & c & seq & infoTx & txs & Hpc & Hstep & Hinfo & Ht & Hle & Hall & Henc & _).
  destruct (complete_window _ _ Hwf Hnext) as (a & n & Hc & Hnx & Hlw).
  exists infoTx, txs, a, n. split; [by rewrite Htx, Hall|].
  assert (Hdeps : Forall is_deposit txs) by (eapply deposits_encoded; [exact CL|exact Henc]).
  split; [done|]. split; [done|]. intros block sysCfg' l1Blocks l1 incl Hblock V Hcontract Hok.
  assert (sysCfg' = sysCfg) as -> by (pose proof (vv_config _ _ _ _ _ _ V); congruence).
  destruct (EspressoL1Origin_mono _ _ _ _ _ _ (vv_same _ _ _ _ _ _ V) Ho) as [_ [k Hn]].
  apply (vv_same _ _ _ _ _ _ V) in Hn.
  pose proof (origin_step_info _ _ _ _ _ _ _ _ _ _ _ _ _ V Hn Hstep) as Horigin.
  destruct (origin_step_wf _ _ _ _ _ _ _ _ _ _ W (fw_config _ W _ _ Hpc) Hstep) as ((? & ? & ? & ?) & (? & ? & ? & ?) & ?).
  rewrite <- Hts in Ht, Hle.
  rewrite Htx, Hall in Hblock.
  eexists _, _. split; [eapply (engine_block_batch CL T); [exact Hblock| |exact Hinfo|exact Hdeps|exact Hok]|].
  { by do 8 (split; [done|]). }
  split; [done|].
  eapply window_accepted; [done|exact Hc|exact Hnx|exact Hlw|exact Hcontract|exact Hfull|exact Hid|exact V|exact Hnext|exact Ho|exact Hb'| |exact Ht|exact Hok|].
  - rewrite <- Horigin. exact Hle.
  - by rewrite <- Horigin.
Qed.

Context {C : Type} `{!EngineControl C} {Q : Type} `{!QueryService Q} (QL : query_laws (Q := Q) ledger proves).

(** C22. When the Espresso sequencer seals a batch, it has told the engine to
    build on its head a block whose transactions are the L1 info deposit, the
    deposits and the transactions of the window, which is a gapless segment of
    the Espresso ledger from where block time reaches the start of the window
    to where it reaches its end; and whatever the engine makes of these, if
    none of them is empty or a deposit, the batch that the batcher reads back
    from the block is accepted by every verifier that follows the same L1 and
    L2 chains and whose contract has the ledger up to the block after the
    window. The batch in progress, if there was one, must still have the
    transactions of its blocks ([Hfresh]): one that [sealEspressoBatch]
    emptied in an attempt that failed later keeps no transactions, also if the
    next attempt finds an L1 origin with which they would be needed. Nothing is
    assumed of the timestamps of the ledger. *)
Theorem sealed_window_accepted (CL : codec_laws Keccak256Hash rlp_encode_jst rlp_decode_jst encode_deposit decode_tx)
  (T : typed_first) (P : proofs_complete) (Hid : is_Some (L2ChainID cfg))
  (src : Sources) (now : Z) (c : C) (q : Q) (d d' : Sequencer) (payload : ExecutionPayload)
  (W : fetchers_wf (src_fetchers src))
  (Hreach : rtc (sequencer_step Keccak256Hash rlp_encode_jst encode_deposit noProof cfg) (NewSequencer c q) d)
  (Hmode : sq_mode d = ModeEspresso)
  (Hfresh : forall b, sq_espressoBatch d = Some b -> batch_full cfg proves b)
  (Hrun : RunNextSequencerAction Keccak256Hash rlp_encode_jst encode_deposit noProof cfg src now d = (d', Ok (Some payload))) :
  exists attrs infoTx deps users c1 k1 k2 a n,
    ec_StartPayload (build_parent d) attrs false (sq_engine d) = (c1, (k1, Ok tt)) /\
    ec_ConfirmPayload c1 = (sq_engine d', (k2, Ok payload)) /\ sq_espressoBatch d' = None /\
    pa_Transactions attrs = infoTx :: deps ++ users /\ Forall is_deposit deps /\
    ledger_window (build_parent d) a n /\
    forall block sysCfg l1Blocks l1 incl,
      engine_block (build_parent d) (pa_Timestamp attrs) (pa_Transactions attrs) block ->
      verifier_view src (build_parent d) sysCfg l1Blocks l1 incl -> contract_has l1 (a + Z.of_nat n + 1) ->
      batch_txs_ok users = true ->
      exists batch info, BlockToSingularBatch Keccak256Hash rlp_decode_jst block = Ok (batch, info) /\
        sb_Transactions batch = users /\
        checkSingularBatch cfg sysCfg l1Blocks (build_parent d) batch incl l1 = Ok BatchAccept.
Proof using LL QL.
  assert (Hwf : sequencer_wf noProof cfg ledger proves d) by (by eapply reachable_wf).
  eapply (run_sealed _ _ _ _ _ ledger proves LL QL) in Hrun
    as (b & Hhead & Hbwf & _ & Hfull & b' & attrs & c1 & k1 & k2 & Hs & Hstart & Hconf & Hnone); [|done..].
  destruct (sealed_accepted CL T P Hid _ _ _ _ W Hbwf Hfull Hs) as (Honto & infoTx & deps & a & n & Htx & Hdeps & Hlw & Hall).
  rewrite Honto in Hstart. rewrite Hhead in *. by exists attrs, infoTx, deps, (ib_transactions b'), c1, k1, k2, a, n.
Qed.

(** *** Legacy blocks *)

(** What a verifier on the same L1 chain has when it meets the batch of a
    legacy block on [parent]. *)
Record legacy_view (src : Sources) (parent : L2BlockRef) (epoch next : L1BlockRef) (incl : L1BlockRef) : Prop := {
  lv_epoch : forall b, lc_L1BlockRefByHash (src_l1 src) (id_Hash (l2_L1Origin parent)) = Ok b -> b = epoch;
  lv_next : forall b, lc_L1BlockRefByNumber (src_l1 src) (l1_Number epoch +₆₄ 1) = Ok b -> b = next;
  lv_numbers : 0 <= l1_Number epoch /\ l1_Number next = l1_Number epoch + 1 /\ 0 <= SeqWindowSize cfg /\
    l1_Number next + SeqWindowSize cfg < 2 ^ 64;
  lv_info : forall b i, b = epoch \/ b = next ->
    InfoByHash (src_fetchers src) (l1_Hash b) = Ok i -> InfoToL1BlockRef i = b;
  lv_receipts : forall b i rs, b = epoch \/ b = next ->
    FetchReceipts (src_fetchers src) (l1_Hash b) = Ok (i, rs) -> InfoToL1BlockRef i = b;
  lv_incl : l1_Number incl <= l1_Number epoch + SeqWindowSize cfg;
}.

(** The origin the selector picks is one of the two, and leaves a block
    without transactions within the drift rule. *)
Lemma FindL1Origin_spec src parent epoch next incl o : legacy_view src parent epoch next incl ->
  FindL1Origin cfg (src_l1 src) parent = Ok o ->
  (o = epoch \/ o = next) /\
  (l2_Time parent +₆₄ BlockTime cfg <= l1_Time o +₆₄ MaxSequencerDrift cfg \/ o = next \/
   l2_Time parent +₆₄ BlockTime cfg < l1_Time next).
Proof.
  intros V. unfold FindL1Origin.
  destruct (lc_L1BlockRefByHash _ _) as [cur|] eqn:Ec; cbn [mbind res_bind]; [|done].
  apply (lv_epoch _ _ _ _ _ V) in Ec as ->.
  destruct (lc_L1BlockRefByNumber _ _) as [nx|e] eqn:En.
  - apply (lv_next _ _ _ _ _ V) in En as ->.
    destruct (Z.leb_spec (l1_Time next) (l2_Time parent +₆₄ BlockTime cfg)); intros H'; apply Ok_inj in H'; subst o.
    + split; [by right|]. right. by left.
    + split; [by left|]. right. by right.
  - destruct (Z.ltb_spec (l1_Time epoch +₆₄ MaxSequencerDrift cfg) (l2_Time parent +₆₄ BlockTime cfg)); [done|].
    intros H'. apply Ok_inj in H'. subst o. split; [by left|]. by left.
Qed.

Lemma legacy_drift parent src epoch next later incl o users : legacy_view src parent epoch next incl ->
  FindL1Origin cfg (src_l1 src) parent = Ok o ->
  (l1_Time o +₆₄ MaxSequencerDrift cfg < l2_Time parent +₆₄ BlockTime cfg -> users = []) ->
  drift_ok cfg false (epoch :: next :: later) o (l2_Time parent +₆₄ BlockTime cfg) users.
Proof.
  intros V Ho Hu. destruct (FindL1Origin_spec _ _ _ _ _ _ V Ho) as [_ Hd]. unfold drift_ok.
  destruct (Z.le_gt_cases (l2_Time parent +₆₄ BlockTime cfg) (l1_Time o +₆₄ MaxSequencerDrift cfg)); [by left|].
  right. split; [apply Hu; lia|]. destruct Hd as [?|[->|Hlt]]; [lia| |].
  - left. cbn. destruct (lv_numbers _ _ _ _ _ V) as (_ & Hn & _). intros [= ?]. lia.
  - right. exists next. split; [done|]. by right.
Qed.

(** A legacy block that was started is one the verifier accepts: whatever
    transactions the engine adds from its pool (none when it is told so, and
    none that are empty or deposits), the batch read back from the block
    passes the batch rules, the drift rule included, in every verifier on the
    same L1 chain. *)
Lemma legacy_block_accepted (CL : codec_laws Keccak256Hash rlp_encode_jst rlp_decode_jst encode_deposit decode_tx)
  (T : typed_first) (src : Sources) (d d' : Sequencer (C := C) (Q := Q))
  (W : fetchers_wf (src_fetchers src))
  (Hrun : startBuildingLegacyBlock Keccak256Hash rlp_encode_jst encode_deposit cfg src d = (d', Ok tt)) :
  exists attrs k, ec_StartPayload (ec_UnsafeL2Head (sq_engine d)) attrs false (sq_engine d) = (sq_engine d', (k, Ok tt)) /\
    forall pool block sysCfg epoch next later l1 incl,
      engine_block (ec_UnsafeL2Head (sq_engine d)) (pa_Timestamp attrs) (pa_Transactions attrs ++ pool) block ->
      (pa_NoTxPool attrs = true -> pool = []) -> batch_txs_ok pool = true ->
      Espresso sysCfg = false -> legacy_view src (ec_UnsafeL2Head (sq_engine d)) epoch next incl ->
      exists batch info, BlockToSingularBatch Keccak256Hash rlp_decode_jst block = Ok (batch, info) /\
        sb_Transactions batch = pool /\
        checkSingularBatch cfg sysCfg (epoch :: next :: later) (ec_UnsafeL2Head (sq_engine d)) batch incl l1 = Ok BatchAccept.
Proof.
  unfold startBuildingLegacyBlock in Hrun. set (head := ec_UnsafeL2Head (sq_engine d)) in *.
  destruct (FindL1Origin _ _ _) as [o|] eqn:Eo; [|done].
  destruct (negb _); [done|]. destruct (PreparePayloadAttributes _ _ _ _ _ _ _ _) as [base|] eqn:Ep; [|done].
  destruct (ec_StartPayload _ _ _ _) as [c1 [k r]] eqn:Es. injection Hrun as <- Hr. apply map_err_ok in Hr. subst r.
  eexists _, k. split; [exact Es|]. cbn [pa_Timestamp pa_Transactions pa_NoTxPool].
  intros pool block sysCfg epoch next later l1 incl Hblock Hpool Hok Hmode V.
  apply PreparePayloadAttributes_ok in Ep as (pc & info & ds & c & seq & infoTx & txs & Hpc & Hstep & Hinfo & Ht & Hle & Hall & Henc & _).
  destruct (FindL1Origin_spec _ _ _ _ _ _ V Eo) as [Hin _].
  assert (Horigin : InfoToL1BlockRef info = o).
  { inversion Hstep; subst; [by eapply (lv_receipts _ _ _ _ _ V)|by eapply (lv_info _ _ _ _ _ V)]. }
  destruct (origin_step_wf _ _ _ _ _ _ _ _ _ _ W (fw_config _ W _ _ Hpc) Hstep) as ((? & ? & ? & ?) & (? & ? & ? & ?) & ?).
  assert (Hdeps : Forall is_deposit txs) by (eapply deposits_encoded; [exact CL|exact Henc]).
  rewrite Hall in Hblock.
  eexists _, _. split; [eapply (engine_block_batch CL T); [exact Hblock| |exact Hinfo|exact Hdeps|exact Hok]|].
  { by do 8 (split; [done|]). }
  split; [done|]. apply checkSingularBatch_accept. split; [|congruence].
  destruct (lv_numbers _ _ _ _ _ V) as (N1 & N2 & N3 & N4). pose proof (lv_incl _ _ _ _ _ V) as Hincl.
  assert (Hnum : bi_Number info = l1_Number o) by (by rewrite <- Horigin).
  unfold singular_valid. cbn [sb_Timestamp sb_ParentHash sb_EpochNum sb_EpochHash sb_Transactions].
  split; [done|]. split; [done|]. split.
  { rewrite Hnum. destruct Hin as [->| ->]; rewrite add64_small by (unfold is_u64; lia); lia. }
  split; [done|]. exists o. rewrite Hnum. split; [|split; [|split]].
  - destruct Hin as [->| ->]; [by econstructor|]. eapply NextEpoch; [done|lia|].
    rewrite add64_small by (unfold is_u64; lia). done.
  - by rewrite <- Horigin.
  - by rewrite <- Horigin.
  - rewrite Hmode, Ht. eapply legacy_drift; [exact V|done|]. intros Hlt. apply Hpool. rewrite Ht. by apply Z.ltb_lt.
Qed.
End Accepted.


(** ** One batch per window *)

Section Unique.
Context `{EL : EspressoLib}.
Variable cfg : Config.
Variable ledger : Z -> Header.

(** An accepted Espresso batch, its justification a segment of the ledger, and
    what the verifier made of it. *)
Lemma valid_segment hotshot byNumber sysCfg head b :
  records ledger hotshot -> (forall jst, sb_Justification b = Some jst -> no_forgery ledger (jst_headers jst)) ->
  espresso_valid cfg sysCfg head b (EspressoProvider hotshot byNumber) ->
  exists jst a n o,
    first_at ledger (l2_Time head +₆₄ BlockTime cfg) a /\
    first_at ledger (l2_Time head +₆₄ BlockTime cfg +₆₄ BlockTime cfg) (a + Z.of_nat n) /\
    EspressoL1Origin cfg sysCfg head (hd_L1Head (ledger (a + Z.of_nat n))) byNumber = Ok o /\
    l1_Number o = sb_EpochNum b /\
    (l1_Time o +₆₄ MaxSequencerDrift cfg < sb_Timestamp b -> sb_Transactions b = []) /\
    (sb_Timestamp b <= l1_Time o +₆₄ MaxSequencerDrift cfg -> exists id, L2ChainID cfg = Some id /\
      ValidateBatchTransactions (u64 id) (map hd_TransactionsRoot (segment ledger a n)) (map bj_Proof (jst_Blocks jst)) (sb_Transactions b) = None).
Proof.
  intros Hrec Hfake He. apply espresso_rules_iff in He as (jst & next & o & R).
  destruct (rules_justified _ _ _ _ _ _ _ _ _ ledger Hrec (Hfake _ (er_jst _ _ _ _ _ _ _ _ _ R)) R)
    as (a & n & [H1 H2 H3 H4 H5]). destruct R as [R1 R2 R3 R4 R5 R6 R7 R8 R9].
  exists jst, a, n, o. split; [done|]. split; [done|]. assert (next = ledger (a + Z.of_nat n)) as -> by congruence.
  split; [by apply espresso_origin_iff|]. split; [done|]. split; [done|]. by rewrite <- H2, map_map.
Qed.

(** C23. Espresso leaves no choice, as long as its time does not go back: two
    batches that are accepted on the same safe head, whoever made them and
    wherever they are included, have the same parent and timestamp, and the
    same L1 origin and transactions too unless the timestamps of the ledger
    went back across the start or the end of the window. (They can, and then
    the verifier does accept different batches: [espresso_batch_not_unique].)
    The contracts the two were checked against record the same ledger; nobody
    forged a header of the two batches, nor two namespace proofs for them. *)
Theorem espresso_batch_unique (sysCfg : SystemConfig) (l1Blocks : list L1BlockRef) (head : L2BlockRef)
  (b1 b2 : SingularBatch) (incl1 incl2 : L1BlockRef) (hotshot1 hotshot2 : HotshotCaller) (byNumber : Z -> res L1BlockRef)
  (Hmode : Espresso sysCfg = true)
  (Hrec1 : records ledger hotshot1) (Hrec2 : records ledger hotshot2)
  (Hforge : forall b jst, b = b1 \/ b = b2 -> sb_Justification b = Some jst -> no_forgery ledger (jst_headers jst))
  (Hproofs : forall ns roots p p', ValidateBatchTransactions ns roots p (sb_Transactions b1) = None ->
    ValidateBatchTransactions ns roots p' (sb_Transactions b2) = None -> sb_Transactions b1 = sb_Transactions b2)
  (H1 : checkSingularBatch cfg sysCfg l1Blocks head b1 incl1 (EspressoProvider hotshot1 byNumber) = Ok BatchAccept)
  (H2 : checkSingularBatch cfg sysCfg l1Blocks head b2 incl2 (EspressoProvider hotshot2 byNumber) = Ok BatchAccept) :
  sb_ParentHash b1 = sb_ParentHash b2 /\ sb_Timestamp b1 = sb_Timestamp b2 /\
  (sb_EpochNum b1 = sb_EpochNum b2 /\ sb_EpochHash b1 = sb_EpochHash b2 /\ sb_Transactions b1 = sb_Transactions b2 \/
   goes_back ledger (l2_Time head +₆₄ BlockTime cfg) \/
   goes_back ledger (l2_Time head +₆₄ BlockTime cfg +₆₄ BlockTime cfg)).
Proof.
  apply checkSingularBatch_accept in H1 as [(Ht1 & Hp1 & _ & _ & o1 & Ho1 & Hh1 & _) He1].
  apply checkSingularBatch_accept in H2 as [(Ht2 & Hp2 & _ & _ & o2 & Ho2 & Hh2 & _) He2].
  split; [congruence|]. split; [congruence|].
  specialize (He1 Hmode). specialize (He2 Hmode). apply CheckBatchEspresso_accept in He1, He2.
  destruct (valid_segment _ _ _ _ _ Hrec1 (fun j => Hforge b1 j (or_introl eq_refl)) He1) as (j1 & a1 & n1 & r1 & Ha1 & Hn1 & Hr1 & Hx1 & Hd1 & Hv1).
  destruct (valid_segment _ _ _ _ _ Hrec2 (fun j => Hforge b2 j (or_intror eq_refl)) He2) as (j2 & a2 & n2 & r2 & Ha2 & Hn2 & Hr2 & Hx2 & Hd2 & Hv2).
  destruct (first_at_unique _ _ _ _ Ha1 Ha2) as [->|]; [|by right; left].
  destruct (first_at_unique _ _ _ _ Hn1 Hn2) as [Hn|]; [|by right; right]. assert (n1 = n2) as -> by lia. left.
  assert (r1 = r2) as -> by congruence. assert (Hnum : sb_EpochNum b1 = sb_EpochNum b2) by congruence.
  rewrite <- Hnum in Ho2. assert (o1 = o2) as ->.
  { destruct l1Blocks as [|e l]; [by inversion Ho1|]. apply singular_origin_iff in Ho1, Ho2. congruence. }
  split; [done|]. split; [congruence|]. rewrite <- Ht1 in Ht2. rewrite Ht2 in Hd2, Hv2.
  destruct (Z.lt_ge_cases (l1_Time r2 +₆₄ MaxSequencerDrift cfg) (sb_Timestamp b1)) as [Hlt|Hge].
  - by rewrite (Hd1 Hlt), (Hd2 Hlt).
  - destruct (Hv1 Hge) as (id1 & Hid1 & V1). destruct (Hv2 Hge) as (id2 & Hid2 & V2).
    assert (id1 = id2) as -> by congruence. by eapply Hproofs.
Qed.
End Unique.

(** ** What an action may return *)

Section Contract.
Context `{EL : EspressoLib}.
Variable Keccak256Hash : bytes -> Hash.
Variable rlp_encode_jst : option L2BatchJustification -> res bytes.
Variable encode_deposit : DepositTx -> res bytes.
Variable noProof : NmtProof.
Variable cfg : Config.
Context {C : Type} `{!EngineControl C} {Q : Type} `{!QueryService Q}.
#[local] Notation sequencer := (Sequencer (C := C) (Q := Q)).

Definition backoff (now : Z) (d : sequencer) : Prop :=
  sq_nextAction d = now + time_Second \/ sq_nextAction d = now + seconds (BlockTime cfg).

(** The outcomes of an action, from the state [d]. *)
Definition outcome (now : Z) (d d' : sequencer) (r : res (option ExecutionPayload)) : Prop :=
  (sq_mode d <> ModeUnknown -> sq_mode d' = sq_mode d) /\
  match r with
  | Err e => is_panic e = true \/ errors_Is e ErrCritical = true
  | Ok (Some p) => exists c k, ec_ConfirmPayload c = (sq_engine d', (k, Ok p))
  | Ok None => backoff now d' \/ (sq_mode d = ModeUnknown /\ sq_mode d' <> ModeUnknown) \/
      (sq_mode d = ModeLegacy /\ exists attrs c k, ec_StartPayload (ec_UnsafeL2Head c) attrs false c = (sq_engine d', (k, Ok tt)))
  end.

Lemma handled_outcome now e (d d1 d' : sequencer) r :
  (sq_mode d <> ModeUnknown -> sq_mode d1 = sq_mode d) ->
  no_payload (handleNonEngineError now e d1) = (d', r) \/ no_payload (handlePossibleEngineError cfg now e d1) = (d', r) ->
  outcome now d d' r.
Proof.
  intros Hm H.
  assert (Hr : (r = Err e /\ d' = d1 /\ (is_panic e = true \/ errors_Is e ErrCritical = true)) \/
    (r = Ok None /\ sq_mode d' = sq_mode d1 /\ backoff now d')).
  { destruct H as [H|H]; revert H; unfold no_payload, handlePossibleEngineError, handleNonEngineError, backoff;
      destruct (is_panic e), (errors_Is e ErrCritical), (errors_Is e ErrReset), (errors_Is e ErrTemporary);
      intros [= <- <-]; auto 10. }
  destruct Hr as [(-> & -> & He)|(-> & He & Hb)]; (split; [|by auto]); [done|by rewrite He].
Qed.

Lemma append_mode next headers (d d' : sequencer) r : updateEspressoBatch cfg headers next d = (d', r) -> sq_mode d' = sq_mode d.
Proof. unfold updateEspressoBatch. repeat case_match; by intros [= <- <-]. Qed.

Lemma start_mode head (d d' : sequencer) r : startBuildingEspressoBatch cfg head d = (d', r) -> sq_mode d' = sq_mode d.
Proof.
  unfold startBuildingEspressoBatch. destruct (FetchHeadersForWindow _ _ _) as [q [w|e]]; [|by intros [= <- _]].
  intros H. by apply append_mode in H.
Qed.

Section Action.
Variable src : Sources.

Lemma seal_mode (d d' : sequencer) r :
  sealEspressoBatch Keccak256Hash rlp_encode_jst encode_deposit noProof cfg src d = (d', r) ->
  sq_mode d' = sq_mode d /\ forall p, r = Ok (Some p) -> exists c k, ec_ConfirmPayload c = (sq_engine d', (k, Ok p)).
Proof.
  unfold sealEspressoBatch. destruct (sq_espressoBatch d) as [b|]; [|by intros [= <- <-]].
  destruct (seal_attributes _ _ _ _ _ _ _) as [b' [attrs|e]]; [|by intros [= <- <-]].
  destruct (ec_StartPayload _ _ _ _) as [c1 [k1 [[]|e]]]; [|by intros [= <- <-]].
  destruct (ec_ConfirmPayload _) as [c2 [k2 [p|e]]] eqn:Ec; [|destruct (is_panic e); by intros [= <- <-]].
  intros [= <- <-]. split; [done|]. intros p' [= <-]. eexists _, _. exact Ec.
Qed.

Lemma tryToSeal_mode (d d' : sequencer) r :
  tryToSealEspressoBatch Keccak256Hash rlp_encode_jst encode_deposit noProof cfg src d = (d', r) ->
  sq_mode d' = sq_mode d /\ forall p, r = Ok (Some p) -> exists c k, ec_ConfirmPayload c = (sq_engine d', (k, Ok p)).
Proof.
  destruct (sq_espressoBatch d) as [b|] eqn:Eb; [|unfold tryToSealEspressoBatch; rewrite Eb; by intros [= <- <-]].
  rewrite (tryToSeal_eq _ _ _ _ _ _ d b) by done. destruct (poll cfg b d) as [d1 r1] eqn:Ep.
  assert (H1 : sq_mode d1 = sq_mode d).
  { revert Ep. unfold poll. destruct (complete b); [by intros [= <- _]|]. destruct (Last _); [|by intros [= <- _]].
    destruct (FetchRemainingHeadersForWindow _ _ _) as [q [w|e]]; [|by intros [= <- _]]. intros H. by apply append_mode in H. }
  destruct r1 as [[]|e]; [|by intros [= <- <-]]. destruct (sq_espressoBatch d1) as [b1|]; [|by intros [= <- <-]].
  destruct (complete b1); [|by intros [= <- <-]]. intros H. apply seal_mode in H as [Hm Hp]. split; [congruence|done].
Qed.

Lemma Espresso_outcome now (d d' : sequencer) r :
  buildEspressoBatch Keccak256Hash rlp_encode_jst encode_deposit noProof cfg src now d = (d', r) -> outcome now d d' r.
Proof.
  unfold buildEspressoBatch. set (d1 := match sq_espressoBatch d with Some b => _ | None => d end).
  assert (H1 : sq_mode d1 = sq_mode d) by (subst d1; destruct (sq_espressoBatch d); [case_bool_decide|]; done).
  clearbody d1. set (p := match sq_espressoBatch d1 with Some _ => (d1, Ok tt) | None => _ end).
  assert (Hp : sq_mode p.1 = sq_mode d).
  { subst p. destruct (sq_espressoBatch d1); [done|]. destruct (startBuildingEspressoBatch _ _ _) as [d2 r2] eqn:Es.
    apply start_mode in Es. cbn. congruence. }
  clearbody p. destruct p as [d2 [[]|e]]; cbn [fst] in Hp; [|intros H; eapply handled_outcome; [|left; exact H]; congruence].
  destruct (tryToSealEspressoBatch _ _ _ _ _ _ _) as [d3 r3] eqn:Et. apply tryToSeal_mode in Et as [Hm Hc].
  destruct r3 as [[q|]|e].
  - intros [= <- <-]. split; [congruence|]. by apply Hc.
  - intros [= <- <-]. split; [cbn; congruence|]. left. by left.
  - intros H. eapply handled_outcome; [|right; exact H]. congruence.
Qed.

Lemma Legacy_outcome now building (d d' : sequencer) r : sq_mode d = ModeLegacy ->
  buildLegacyBlock Keccak256Hash rlp_encode_jst encode_deposit cfg src now building d = (d', r) -> outcome now d d' r.
Proof.
  intros Hm. unfold buildLegacyBlock. destruct building.
  - unfold completeBuildingLegacyBlock. destruct (ec_ConfirmPayload _) as [c [k [p|e]]] eqn:Ec; cbn [map_err].
    + intros [= <- <-]. split; [done|]. exists (sq_engine d), k. exact Ec.
    + set (w := wrap_err (Wrapf "failed to complete building block") e).
      destruct (is_panic w) eqn:E1; [intros [= <- <-]; by split; [|left]|].
      destruct (errors_Is w ErrCritical) eqn:E2; [intros [= <- <-]; by split; [|right]|].
      destruct (errors_Is w ErrReset); [intros [= <- <-]; split; [done|left; by right]|].
      destruct (errors_Is w ErrTemporary); intros [= <- <-]; (split; [done|left; by left]).
  - unfold startBuildingLegacyBlock. destruct (FindL1Origin _ _ _) as [o|e];
      [|intros H; eapply handled_outcome; [|right; exact H]; done].
    destruct (negb _); [intros H; eapply handled_outcome; [|right; exact H]; done|].
    destruct (PreparePayloadAttributes _ _ _ _ _ _ _ _) as [attrs|e]; [|intros H; eapply handled_outcome; [|right; exact H]; done].
    destruct (ec_StartPayload _ _ _ _) as [c [k [[]|e]]] eqn:Es; cbn [map_err];
      [|intros H; eapply handled_outcome; [|right; exact H]; done].
    intros [= <- <-]. split; [done|]. right. right. split; [done|]. eexists _, _, _. exact Es.
Qed.
End Action.

(** The contract of [RunNextSequencerAction]: the only errors that reach
    the caller are critical ones (and panics); a payload that is returned has
    been confirmed by the engine; without one, either the next action is put
    off by a second or by a block time, or the mode has been found out, or a
    legacy block has been started on the head; and a mode that is known never
    changes. *)
Lemma run_action_contract (src : Sources) (now : Z) (d : sequencer) :
  let '(d', r) := RunNextSequencerAction Keccak256Hash rlp_encode_jst encode_deposit noProof cfg src now d in
  outcome now d d' r.
Proof.
  destruct (RunNextSequencerAction _ _ _ _ _ _ _ _) as [d' r] eqn:Hrun. revert Hrun. unfold RunNextSequencerAction.
  destruct (ec_BuildingPayload _) as [[onto id] safe].
  destruct (_ && safe); [intros [= <- <-]; split; [done|]; left; by right|]. destruct (sq_mode d) eqn:Em.
  - by apply Espresso_outcome.
  - by apply Legacy_outcome.
  - destruct (detectMode src d) as [d1 r1] eqn:Ed. apply detectMode_spec in Ed as (_ & _ & Hk).
    destruct r1 as [[]|e].
    + intros [= <- <-]. split; [done|]. right. left. by split; [|apply Hk].
    + intros H. eapply handled_outcome; [|left; exact H]. done.
Qed.
End Contract.

(** ** Witnesses

    A toy Espresso chain: a header carries its height, its time, its L1 head
    and its transactions, which are also its root; its commitment is the height
    plus one. *)

#[local] Program Instance chain_lib : EspressoLib := {|
  Header := N * Z * Z * list bytes;
  NmtProof := unit;
  NmtRoot := list bytes;
  Commitment := Z;
  hd_Height := fun h => Z.of_N h.1.1.1;
  hd_Timestamp := fun h => h.1.1.2;
  hd_L1Head := fun h => h.1.2;
  hd_TransactionsRoot := fun h => h.2;
  Commit := fun h => Z.of_N (N.succ h.1.1.1);
  Commitment_Equals := Z.eqb;
  CommitmentFromUint256 := fun v => Ok v;
  ValidateBatchTransactions := fun _ roots _ txs =>
    if decide (concat roots = txs) then None else Some (Errorf "invalid proof");
|}.
Next Obligation. intros c c'. apply Z.eqb_eq. Qed.

#[local] Instance chain_blocks : BlockLib := {|
  EthTx := Z * bytes;
  etx_Type := fst;
  etx_Data := snd;
  etx_MarshalBinary := fun tx => Ok (tx.1 :: tx.2);
  rlp_string := fun b => Z.of_nat (length b) :: b;
|}.

#[local] Instance chain_header_eq : EqDecision Header.
Proof. change (EqDecision (N * Z * Z * list bytes)). apply _. Defined.
#[local] Instance chain_proof_eq : EqDecision NmtProof.
Proof. change (EqDecision unit). apply _. Defined.
#[local] Instance chain_blockjst_eq : EqDecision EspressoBlockJustification.
Proof. solve_decision. Defined.
#[local] Instance chain_jst_eq : EqDecision L2BatchJustification.
Proof. solve_decision. Defined.

(** Block 4 is before the window [108, 110), block 5 in it, block 6 after. *)
Definition chain_ledger (n : Z) : Header :=
  (Z.to_N n, if n <=? 4 then 107 else if n <=? 5 then 108 else 110, if n <=? 5 then 6 else 7,
   if n =? 5 then [[200]] else []).

Definition chain_proves (ns : Z) (h : Header) (p : NmtProof) (txs : list bytes) : Prop := hd_TransactionsRoot h = txs.

Lemma chain_ledger_laws : ledger_laws chain_ledger.
Proof.
  split. intros n Hn. cbn. unfold is_u64 in Hn. lia.
Qed.

(** A query service that knows one window. *)
#[local] Instance chain_service : QueryService unit := {
  FetchHeadersForWindow := fun s e q =>
    (q, if (s =? 108) && (e =? 110)
        then Ok {| wh_Prev := Some (chain_ledger 4); wh_Window := [chain_ledger 5]; wh_Next := Some (chain_ledger 6) |}
        else Err NotFound);
  FetchRemainingHeadersForWindow := fun _ _ q => (q, Err NotFound);
  FetchTransactionsInBlock := fun h _ q => (q, Ok {| tb_Transactions := hd_TransactionsRoot h; tb_Proof := tt |});
}.

Lemma chain_query_laws : query_laws (Q := unit) chain_ledger chain_proves.
Proof.
  split.
  - intros s e q q' w. cbn [FetchHeadersForWindow chain_service].
    destruct (Z.eqb_spec s 108) as [->|], (Z.eqb_spec e 110) as [->|]; cbn [andb]; try (by intros [=]).
    intros [= _ <-]. right. exists 5, 1%nat. cbn. repeat split; try lia; try done; [repeat constructor|]. by right.
  - by intros from e q q' w _ [=].
  - intros n ns q q' t. by intros [= _ <-].
Qed.

(** An engine that confirms the attributes it was given. *)
Definition chain_payload (attrs : PayloadAttributes) : ExecutionPayload :=
  {| pl_ParentHash := hash_of 20; pl_FeeRecipient := replicate 20 0; pl_StateRoot := hash_of 1;
     pl_ReceiptsRoot := hash_of 2; pl_LogsBloom := zeros 256; pl_PrevRandao := hash_of 3;
     pl_BlockNumber := 4; pl_GasLimit := 30000000; pl_GasUsed := 0; pl_Timestamp := pa_Timestamp attrs;
     pl_ExtraData := []; pl_BaseFeePerGas := 7; pl_BlockHash := hash_of 21;
     pl_Withdrawals := None; pl_Transactions := pa_Transactions attrs |}.

#[local] Instance chain_engine : EngineControl (option PayloadAttributes) := {
  ec_UnsafeL2Head := fun _ => ex_head;
  ec_StartPayload := fun _ attrs _ _ => (Some attrs, (BlockInsertOK, Ok tt));
  ec_ConfirmPayload := fun c => (None, match c with
    | Some attrs => (BlockInsertOK, Ok (chain_payload attrs))
    | None => (BlockInsertPrestateErr, Err (Errorf "not building")) end);
  ec_CancelPayload := fun _ _ => (None, Ok tt);
  ec_BuildingPayload := fun _ => (zero_L2BlockRef, noPayloadID, false);
  ec_Reset := fun c => c;
}.

Definition chain_info (n t : Z) : BlockInfo :=
  {| bi_Hash := hash_of n; bi_ParentHash := hash_of (n - 1); bi_Number := n; bi_Time := t;
     bi_MixDigest := hash_of 9; bi_BaseFee := 1000 |}.

Definition chain_sources (sysCfg : SystemConfig) : Sources :=
  {| src_fetchers :=
       {| InfoByHash := fun h => if decide (h = hash_of 6) then Ok (chain_info 6 100) else Err NotFound;
          FetchReceipts := fun h => if decide (h = hash_of 7) then Ok (chain_info 7 108, []) else Err NotFound;
          SystemConfigByL2Hash := fun _ => Ok sysCfg |};
     src_l1 := NewConfDepth 0 (ex_l1_at 9 120)
       {| lc_L1BlockRefByNumber := ex_l1_chain;
          lc_L1BlockRefByHash := fun h => if decide (h = hash_of 6) then Ok (ex_l1_at 6 100) else Err NotFound |} |}.

Definition chain_jst : L2BatchJustification :=
  {| jst_Blocks := [{| bj_Header := chain_ledger 5; bj_Proof := tt |}];
     jst_Prev := Some (chain_ledger 4); jst_Next := Some (chain_ledger 6) |}.

Definition chain_rlp_encode (j : option L2BatchJustification) : res bytes :=
  match j with
  | None => Ok [192]
  | Some j => if decide (j = chain_jst) then Ok [193; 1] else Err (Errorf "no encoding")
  end.
Definition chain_rlp_decode (b : bytes) : res L2BatchJustification :=
  if decide (b = [193; 1]) then Ok chain_jst else Err (Errorf "no encoding").

Lemma chain_codec_laws : codec_laws ex_keccak chain_rlp_encode chain_rlp_decode ex_encode_deposit ex_decode_tx.
Proof.
  constructor.
  - done.
  - intros j b. unfold chain_rlp_encode. destruct (decide (j = chain_jst)) as [->|]; [|done].
    intros H. apply Ok_inj in H. subst b. repeat split; [done|vm_decide].
  - intros d b H. apply Ok_inj in H. by subst b.
  - intros b. split; [apply length_put_be|apply put_be_ok].
Qed.

Lemma chain_typed_first : typed_first ex_decode_tx.
Proof. intros [|b l] data; [done|]. by intros [= -> _]. Qed.

Lemma chain_proofs_complete : proofs_complete chain_proves.
Proof.
  intros ns bjs txss H. cbn. rewrite decide_True; [done|]. f_equal.
  induction H as [|bj txs bjs txss Hp _ IH]; [done|]. cbn. by rewrite Hp, IH.
Qed.

Lemma chain_fetchers_wf sysCfg : sysCfg_wf sysCfg -> fetchers_wf (src_fetchers (chain_sources sysCfg)).
Proof.
  intros Hc. constructor; cbn.
  - intros h i. case_decide; [|done]. intros H'. apply Ok_inj in H'. subst i. repeat split; vm_decide.
  - intros h i rs. case_decide; [|done]. intros H'. apply Ok_inj in H'. injection H' as <- <-. split; [repeat split; vm_decide|constructor].
  - intros h c H'. apply Ok_inj in H'. by subst c.
Qed.

Abbreviation chain_run sysCfg d :=
  (RunNextSequencerAction ex_keccak chain_rlp_encode ex_encode_deposit tt ex_cfg (chain_sources sysCfg) 1000 d) (only parsing).

Definition chain_start : Sequencer := NewSequencer (C := option PayloadAttributes) None tt.
Definition chain_espresso : Sequencer := set_mode ModeEspresso chain_start.

Lemma chain_reach : rtc (sequencer_step ex_keccak chain_rlp_encode ex_encode_deposit tt ex_cfg) chain_start chain_espresso.
Proof.
  eapply rtc_l; [|apply rtc_refl]. apply (step_run _ _ _ _ _ (chain_sources ex_espresso_cfg) 1000 _ _ (Ok None)). vm_compute. reflexivity.
Qed.

(** A batch in progress, after the first request. *)
Abbreviation chain_building :=
  ((StartBuildingBlock ex_keccak chain_rlp_encode ex_encode_deposit ex_cfg (chain_sources ex_espresso_cfg) chain_espresso).1) (only parsing).

Lemma sequencer_batch_wf_witness :
  option_map ib_transactions (sq_espressoBatch chain_building) = Some [[200]] /\
  sequencer_wf tt ex_cfg chain_ledger chain_proves chain_building.
Proof.
  split; [vm_compute; reflexivity|].
  apply (sequencer_batch_wf ex_keccak chain_rlp_encode ex_encode_deposit tt ex_cfg chain_ledger chain_proves
    chain_ledger_laws chain_query_laws None tt).
  eapply rtc_r; [exact chain_reach|]. eapply (step_start _ _ _ _ _ (chain_sources ex_espresso_cfg)). reflexivity.
Defined.

(** A contract with the first ten blocks of a ledger. *)
Definition ten_blocks (ledger : Z -> Header) : HotshotCaller :=
  {| hs_BlockHeight := Ok 10; hs_Commitments := fun n => Ok (if (0 <=? n) && (n <? 10) then Commit (ledger n) else 0) |}.

Lemma ten_records ledger : records ledger (ten_blocks ledger).
Proof.
  intros n v. cbn -[Commit]. destruct (Z.leb_spec 0 n), (Z.ltb_spec n 10); cbn [andb]; intros Hv; apply Ok_inj in Hv; subst v; try done.
  intros _. split; [done|]. intros c Hc. by apply Ok_inj in Hc.
Qed.

Lemma ten_has ledger upto : upto <= 10 -> contract_has ledger (EspressoProvider (ten_blocks ledger) ex_l1_chain) upto.
Proof.
  intros Hu a k Ha Hk. apply VerifyCommitments_true. unfold committed. rewrite length_map, length_segment.
  split; [lia|]. split.
  - exists 10. split; [done|]. rewrite add64_small by (unfold is_u64; lia). rewrite i64_small by lia. lia.
  - intros i c Hc. rewrite list_lookup_fmap in Hc. destruct (segment ledger a k !! i) as [h|] eqn:Eh; [|done].
    assert (Hi : (i < k)%nat) by (apply lookup_lt_Some in Eh; by rewrite length_segment in Eh).
    rewrite segment_lookup in Eh by done. injection Eh as <-. cbn -[Commit Z.of_nat] in Hc. apply (inj Some) in Hc as <-.
    exists (Commit (ledger (a + Z.of_nat i))). rewrite add64_small by (unfold is_u64; lia). rewrite i64_small by lia.
    cbn -[Commit Z.of_nat]. destruct (Z.leb_spec 0 (a + Z.of_nat i)), (Z.ltb_spec (a + Z.of_nat i) 10); try lia.
    split; [done|]. split; [|done]. cbn. lia.
Qed.

Definition chain_provider : L1Provider := EspressoProvider (ten_blocks chain_ledger) ex_l1_chain.

(** Its only window that starts at 108 and ends at 110. *)
Lemma chain_window parent a n : l2_Time parent = 106 -> ledger_window ex_cfg chain_ledger parent a n -> a = 5 /\ (n <= 1)%nat.
Proof.
  intros Ht [(Ha & Ha1 & Ha2) Hin Hend]. rewrite Ht in *. change (106 +₆₄ BlockTime ex_cfg) with 108 in *.
  assert (a = 5) as ->.
  { revert Ha1 Ha2. cbn. zcases; [|lia|lia..]. lia. }
  split; [done|]. destruct n as [|[|n]]; [lia|lia|]. exfalso. cbn [segment] in Hin.
  apply Forall_cons_1 in Hin as [_ Hin]. apply Forall_cons_1 in Hin as [Hin _]. by vm_compute in Hin.
Qed.

Lemma ex_l1_chain_ok n b : ex_l1_chain n = Ok b -> (n = 6 /\ b = ex_l1_at 6 100) \/ (n = 7 /\ b = ex_l1_at 7 108).
Proof.
  unfold ex_l1_chain. destruct (Z.eqb_spec n 6) as [->|]; [by intros [= <-]; left|].
  destruct (Z.eqb_spec n 7) as [->|]; [by intros [= <-]; right|done].
Qed.

Lemma chain_view : verifier_view ex_cfg (chain_sources ex_espresso_cfg) ex_head ex_espresso_cfg
  [ex_l1_at 6 100; ex_l1_at 7 108] chain_provider (ex_l1_at 7 108).
Proof.
  split; try done.
  - exists (ex_l1_at 6 100), (ex_l1_at 7 108), []. done.
  - intros n b H. by apply ex_l1_chain_ok in H as [[-> ->]|[-> ->]].
  - intros n b. cbn [src_l1 chain_sources NewConfDepth lc_L1BlockRefByNumber chain_provider L1BlockRefByNumber].
    unfold confDepth_byNumber. case_bool_decide; [done|]. by rewrite orb_true_r.
  - intros n b i H. apply ex_l1_chain_ok in H as [[-> ->]|[-> ->]]; cbn; case_decide; try done.
    intros H'. apply Ok_inj in H'. by subst i.
  - intros n b i rs H. apply ex_l1_chain_ok in H as [[-> ->]|[-> ->]]; cbn; case_decide; try done.
    intros H'. apply Ok_inj in H'. by injection H' as <- _.
Qed.

(** The attributes of the sealed block, and the block an engine makes of them. *)
Definition chain_attrs : list bytes :=
  match (chain_run ex_espresso_cfg chain_espresso).2 with Ok (Some p) => pl_Transactions p | _ => [] end.

Definition chain_tx (b : bytes) : Z * bytes := match b with t :: l => (t, l) | [] => (0, []) end.

Definition chain_block : Block :=
  {| bk_Hash := hash_of 21; bk_ParentHash := hash_of 20; bk_Number := 4; bk_Time := 108;
     bk_Transactions := map chain_tx chain_attrs; bk_Rejected := [] |}.

Lemma chain_block_built : engine_block ex_decode_tx ex_head 108 chain_attrs chain_block.
Proof.
  split; [done|done|by vm_compute|]. cbn [chain_block bk_Transactions bk_Rejected].
  assert (H : Forall (fun b => b <> []) chain_attrs) by vm_decide. generalize 0. revert H. generalize chain_attrs.
  intros given. induction 1 as [|b given Hb _ IH]; intros pos; [constructor|].
  destruct b as [|t l]; [done|]. exact (engine_included ex_decode_tx pos (t :: l) given (t, l) (map chain_tx given) [] eq_refl eq_refl (IH (pos + 1))).
Qed.

Lemma sealed_window_accepted_witness :
  exists payload batch info, (chain_run ex_espresso_cfg chain_espresso).2 = Ok (Some payload) /\
    BlockToSingularBatch ex_keccak chain_rlp_decode chain_block = Ok (batch, info) /\ sb_Transactions batch = [[200]] /\
    checkSingularBatch ex_cfg ex_espresso_cfg [ex_l1_at 6 100; ex_l1_at 7 108] ex_head batch (ex_l1_at 7 108) chain_provider = Ok BatchAccept.
Proof.
  assert (Hsome : match chain_run ex_espresso_cfg chain_espresso with
    | (_, Ok (Some p)) => pl_Transactions p = chain_attrs /\ pl_Timestamp p = 108
    | _ => False end) by (vm_compute; repeat split; reflexivity).
  assert (Htail : tail chain_attrs = [[200]]) by (vm_compute; reflexivity).
  destruct (chain_run ex_espresso_cfg chain_espresso) as [d' [[payload|]|e]] eqn:Hrun; [|destruct Hsome|destruct Hsome].
  destruct Hsome as (Hpl & Htime).
  destruct (sealed_window_accepted ex_keccak chain_rlp_encode chain_rlp_decode ex_encode_deposit ex_decode_tx tt ex_cfg
    chain_ledger chain_proves chain_ledger_laws chain_query_laws chain_codec_laws chain_typed_first chain_proofs_complete
    (ltac:(by eexists)) (chain_sources ex_espresso_cfg) 1000 None tt chain_espresso d' payload
    (chain_fetchers_wf ex_espresso_cfg ltac:(repeat split; vm_decide)) chain_reach eq_refl ltac:(done) Hrun)
    as (attrs & infoTx & deps & users & c1 & k1 & k2 & a & n & Hstart & Hconf & _ & Htx & Hdeps & Hlw & Hall).
  injection Hstart as <- _. injection Hconf as _ _ <-. cbn [chain_payload pl_Transactions pl_Timestamp] in Hpl, Htime.
  assert (Husers : users = [[200]]).
  { rewrite Hpl in Htx. rewrite Htx in Htail. cbn [tail] in Htail. destruct deps as [|dep deps]; [done|].
    apply Forall_cons_1 in Hdeps as [[data Hd] _]. injection Htail as -> _. discriminate Hd. }
  rewrite Husers, Hpl, Htime in Hall. apply chain_window in Hlw as [-> Hn]; [|reflexivity].
  assert (Hup : 5 + Z.of_nat n + 1 <= 10) by lia.
  destruct (Hall chain_block ex_espresso_cfg [ex_l1_at 6 100; ex_l1_at 7 108] chain_provider (ex_l1_at 7 108)
    chain_block_built chain_view (ten_has _ _ Hup) eq_refl) as (batch & info & Hb & Ht & Hacc).
  exists (chain_payload attrs), batch, info. exact (conj eq_refl (conj Hb (conj Ht Hacc))).
Defined.

Lemma chain_no_forgery : no_forgery chain_ledger (jst_headers chain_jst).
Proof.
  intros h Hin. assert (Hk : exists k, h = chain_ledger k /\ 0 < k < 10).
  { cbn in Hin. repeat (apply elem_of_cons in Hin as [->|Hin]; [first [by exists 4|by exists 5|by exists 6]|]).
    by apply not_elem_of_nil in Hin. }
  destruct Hk as (k & -> & Hk). split; [change (is_u64 (Z.of_N (Z.to_N k))); unfold is_u64; lia|]. intros n Hc.
  change (Z.of_N (N.succ (Z.to_N k)) = Z.of_N (N.succ (Z.to_N n))) in Hc. by assert (k = n) as -> by lia.
Qed.

Definition chain_batch : SingularBatch :=
  {| sb_ParentHash := hash_of 20; sb_EpochNum := 6; sb_EpochHash := hash_of 6; sb_Timestamp := 108;
     sb_Transactions := [[200]]; sb_Justification := Some chain_jst |}.

Lemma espresso_batch_unique_witness :
  checkSingularBatch ex_cfg ex_espresso_cfg [ex_l1_at 6 100; ex_l1_at 7 108] ex_head chain_batch (ex_l1_at 7 108) chain_provider = Ok BatchAccept /\
  forall b incl, checkSingularBatch ex_cfg ex_espresso_cfg [ex_l1_at 6 100; ex_l1_at 7 108] ex_head b incl chain_provider = Ok BatchAccept ->
    (forall jst, sb_Justification b = Some jst -> no_forgery chain_ledger (jst_headers jst)) ->
    sb_Transactions b = [[200]].
Proof.
  assert (H1 : checkSingularBatch ex_cfg ex_espresso_cfg [ex_l1_at 6 100; ex_l1_at 7 108] ex_head chain_batch (ex_l1_at 7 108)
    chain_provider = Ok BatchAccept) by (vm_compute; reflexivity).
  split; [exact H1|]. intros b incl H2 Hb. symmetry.
  assert (Hback : forall t, ~ goes_back chain_ledger t)
    by (intros t; apply sorted_never_back; intros n m H; cbn; zcases; lia).
  destruct (espresso_batch_unique ex_cfg chain_ledger ex_espresso_cfg [ex_l1_at 6 100; ex_l1_at 7 108] ex_head chain_batch b
    (ex_l1_at 7 108) incl
    (ten_blocks chain_ledger) (ten_blocks chain_ledger) ex_l1_chain eq_refl (ten_records _) (ten_records _)) as (_ & _ & [Hu|[Hu|Hu]]).
  - intros b' jst [->| ->] Hj; [|by apply Hb]. injection Hj as <-. apply chain_no_forgery.
  - intros ns roots p p'. cbn. case_decide; [|done]. case_decide; [|done]. congruence.
  - exact H1.
  - exact H2.
  - apply Hu.
  - destruct (Hback _ Hu).
  - destruct (Hback _ Hu).
Defined.

(** A ledger whose time goes back: 107, 108, 107, 109, 110 from block 4 on. It
    crosses the start of the window [108, 110) at block 5 and at block 7, and
    both the batch with blocks 5 to 7 and the one with block 7 alone, without
    the transaction of block 5, are accepted. *)
Definition back_ledger (n : Z) : Header :=
  (Z.to_N n, if n <=? 4 then 107 else if n =? 5 then 108 else if n =? 6 then 107 else if n =? 7 then 109 else 110,
   if n <=? 7 then 6 else 7, if n =? 5 then [[200]] else []).

Definition back_batch (before : Z) (blocks : list Z) (txs : list bytes) : SingularBatch :=
  {| sb_ParentHash := hash_of 20; sb_EpochNum := 6; sb_EpochHash := hash_of 6; sb_Timestamp := 108; sb_Transactions := txs;
     sb_Justification := Some {| jst_Blocks := map (fun n => mkBlockJst (back_ledger n) tt) blocks;
       jst_Prev := Some (back_ledger before); jst_Next := Some (back_ledger 8) |} |}.

Lemma espresso_batch_not_unique :
  let check b := checkSingularBatch ex_cfg ex_espresso_cfg [ex_l1_at 6 100; ex_l1_at 7 108] ex_head b (ex_l1_at 7 108)
    (EspressoProvider (ten_blocks back_ledger) ex_l1_chain) in
  check (back_batch 4 [5; 6; 7] [[200]]) = Ok BatchAccept /\ check (back_batch 6 [7] []) = Ok BatchAccept.
Proof. vm_compute. split; reflexivity. Qed.

Definition chain_legacy : Sequencer := set_mode ModeLegacy chain_start.

Lemma chain_legacy_view : legacy_view ex_cfg (chain_sources ex_sysCfg) ex_head (ex_l1_at 6 100) (ex_l1_at 7 108) (ex_l1_at 7 108).
Proof.
  split; try done.
  - intros b. cbn. case_decide; [|done]. by intros [= <-].
  - intros b. cbn. vm_compute. by intros [= <-].
  - intros b i [->| ->]; cbn; case_decide; try done. intros H'. apply Ok_inj in H'. by subst i.
  - intros b i rs [->| ->]; cbn; case_decide; try done. intros H'. apply Ok_inj in H'. by injection H' as <- _.
Qed.

Lemma legacy_block_accepted_witness :
  exists attrs, (forall pool block, engine_block ex_decode_tx ex_head (pa_Timestamp attrs) (pa_Transactions attrs ++ pool) block ->
      pa_NoTxPool attrs = false -> batch_txs_ok pool = true ->
      exists batch info, BlockToSingularBatch ex_keccak chain_rlp_decode block = Ok (batch, info) /\ sb_Transactions batch = pool /\
        checkSingularBatch ex_cfg ex_sysCfg [ex_l1_at 6 100; ex_l1_at 7 108] ex_head batch (ex_l1_at 7 108) chain_provider = Ok BatchAccept).
Proof.
  assert (Hok : (startBuildingLegacyBlock ex_keccak chain_rlp_encode ex_encode_deposit ex_cfg (chain_sources ex_sysCfg) chain_legacy).2 = Ok tt)
    by (vm_compute; reflexivity).
  destruct (startBuildingLegacyBlock ex_keccak chain_rlp_encode ex_encode_deposit ex_cfg (chain_sources ex_sysCfg) chain_legacy)
    as [d' r] eqn:Hrun. cbn [snd] in Hok. subst r.
  destruct (legacy_block_accepted ex_keccak chain_rlp_encode chain_rlp_decode ex_encode_deposit ex_decode_tx ex_cfg
    chain_codec_laws chain_typed_first (chain_sources ex_sysCfg) chain_legacy d'
    (chain_fetchers_wf ex_sysCfg ltac:(repeat split; vm_decide)) Hrun) as (attrs & k & _ & Hall).
  exists attrs. intros pool block Hb Hp Hok.
  apply (Hall pool block ex_sysCfg _ _ [] chain_provider _ Hb ltac:(congruence) Hok eq_refl chain_legacy_view).
Defined.
