(* ===== verification/Batcher.v ===== *)
(** * The batcher

    [op-batcher/batcher]: [channel_builder.go] fills a channel with blocks and
    cuts it into frames, [channel.go] tracks the transactions that carry them,
    [channel_manager.go] keeps the blocks that wait and the channels in
    flight, [tx_data.go] is the payload of a transaction, and the loading half
    of [driver.go] feeds blocks in. *)

From S2P Require Import Prelude Eth Frame Channel BitCodec SystemConfig Espresso L1Info Stages Attributes Batches SpanBatchTxs SpanBatch BatchQueue.
From S2P Require Import ChannelInReader Compressor ChannelOut.

Definition ErrInvalidChannelTimeout : go_error := Errorf "channel timeout is less than the safety margin".
Definition ErrMaxFrameIndex : go_error := Errorf "max frame index reached (uint16)".
Definition ErrMaxDurationReached : go_error := Errorf "max channel duration reached".
Definition ErrChannelTimeoutClose : go_error := Errorf "close to channel timeout".
Definition ErrSeqWindowClose : go_error := Errorf "close to sequencer window timeout".
Definition ErrTerminated : go_error := Errorf "channel terminated".
Definition ErrReorg : go_error := Errorf "block does not extend existing chain".

(** [ChannelFullError], and [errors.As] for it: only the builder makes such an
    error, and nothing wraps it before it is looked for. *)
Definition ChannelFullError (e : go_error) : go_error := Wrapf "channel full" e.

Definition as_ChannelFullError (err : go_error) : bool :=
  match err with Wrapf msg _ => bool_decide (msg = "channel full"%string) | _ => false end.

(** The fields of [ChannelConfig] but the compressor's. *)
Record ChannelConfig := mkChannelConfig {
  cc_SeqWindowSize : Z;
  cc_ChannelTimeout : Z;
  cc_MaxChannelDuration : Z;
  cc_SubSafetyMargin : Z;
  cc_MaxFrameSize : Z;
  cc_BatchType : Z;
}.

Definition cc_Check (cc : ChannelConfig) : option go_error :=
  if cc_ChannelTimeout cc <? cc_SubSafetyMargin cc then Some ErrInvalidChannelTimeout
  else if cc_MaxFrameSize cc =? 0 then Some (Errorf "max frame size cannot be zero")
  else if cc_MaxFrameSize cc <? FrameV0OverHeadSize then Some (Errorf "max frame size is less than the minimum 23")
  else if SpanBatchType <? cc_BatchType cc then Some (Errorf "unrecognized batch type")
  else None.

(** A frame identifier is a channel identifier and a frame number; it also
    identifies the transaction that carries the frame ([txID]). *)
Definition frameID : Type := ChannelID * Z.
#[export] Instance frameID_eq_dec : EqDecision frameID.
Proof. unfold frameID. apply _. Defined.
#[export] Instance frameID_countable : Countable frameID.
Proof. unfold frameID. apply _. Defined.

Record frameData := mkFrameData {
  fr_data : bytes;
  fr_id : frameID;
}.
#[export] Instance frameData_eq_dec : EqDecision frameData.
Proof. solve_decision. Defined.

(** [txData] holds one frame. *)
Definition txData_Bytes (td : frameData) : bytes := DerivationVersion0 :: fr_data td.
Definition txData_Len (td : frameData) : Z := 1 + blen (fr_data td).

Section Batcher.
Context `{B : BlockLib} `{E : EspressoLib} {Out : Type} `{CO : !ChannelOut Out}.
Variable Keccak256Hash : bytes -> Hash.
Variable rlp_decode_jst : bytes -> res L2BatchJustification.
Variable cfg : ChannelConfig.

(** ** [channelBuilder] *)

Record channelBuilder := mkBuilder {
  bu_timeout : Z;
  bu_timeoutReason : option go_error;
  bu_fullErr : option go_error;
  bu_co : Out;
  bu_blocks : list Block;
  bu_frames : list frameData;
  bu_numFrames : Z;
  bu_outputBytes : Z;
}.

Definition newChannelBuilder (co : Out) : channelBuilder := mkBuilder 0 None None co [] [] 0 0.

Definition set_timeout (t : Z) (reason : go_error) (c : channelBuilder) : channelBuilder :=
  mkBuilder t (Some reason) (bu_fullErr c) (bu_co c) (bu_blocks c) (bu_frames c) (bu_numFrames c) (bu_outputBytes c).
Definition set_full (e : option go_error) (c : channelBuilder) : channelBuilder :=
  mkBuilder (bu_timeout c) (bu_timeoutReason c) e (bu_co c) (bu_blocks c) (bu_frames c) (bu_numFrames c) (bu_outputBytes c).
Definition set_co (co : Out) (c : channelBuilder) : channelBuilder :=
  mkBuilder (bu_timeout c) (bu_timeoutReason c) (bu_fullErr c) co (bu_blocks c) (bu_frames c) (bu_numFrames c) (bu_outputBytes c).
Definition set_frames (fs : list frameData) (c : channelBuilder) : channelBuilder :=
  mkBuilder (bu_timeout c) (bu_timeoutReason c) (bu_fullErr c) (bu_co c) (bu_blocks c) fs (bu_numFrames c) (bu_outputBytes c).

Definition bu_ID (c : channelBuilder) : ChannelID := co_ID (bu_co c).

(** [Reset] takes the identifier of the new channel. *)
Definition bu_Reset (id : ChannelID) (c : channelBuilder) : channelBuilder :=
  mkBuilder 0 (bu_timeoutReason c) None (co_Reset id (bu_co c)) [] [] (bu_numFrames c) (bu_outputBytes c).

Definition bu_IsFull (c : channelBuilder) : bool := bool_decide (is_Some (bu_fullErr c)).

Definition setFullErr (e : go_error) (c : channelBuilder) : channelBuilder := set_full (Some (ChannelFullError e)) c.

Definition updateTimeout (timeoutBlockNum : Z) (reason : go_error) (c : channelBuilder) : channelBuilder :=
  if (bu_timeout c =? 0) || (timeoutBlockNum <? bu_timeout c) then set_timeout timeoutBlockNum reason c else c.

Definition updateSwTimeout (batch : SingularBatch) : channelBuilder -> channelBuilder :=
  updateTimeout (sb_EpochNum batch +₆₄ cc_SeqWindowSize cfg -₆₄ cc_SubSafetyMargin cfg) ErrSeqWindowClose.

Definition updateDurationTimeout (l1BlockNum : Z) (c : channelBuilder) : channelBuilder :=
  if cc_MaxChannelDuration cfg =? 0 then c
  else updateTimeout (l1BlockNum +₆₄ cc_MaxChannelDuration cfg) ErrMaxDurationReached c.

Definition TimedOut (blockNum : Z) (c : channelBuilder) : bool :=
  negb (bu_timeout c =? 0) && (bu_timeout c <=? blockNum).

(** A timeout that is set has its reason, so the [nil] reason never shows. *)
Definition checkTimeout (blockNum : Z) (c : channelBuilder) : channelBuilder :=
  if negb (bu_IsFull c) && TimedOut blockNum c
  then setFullErr (default (Errorf "<nil>") (bu_timeoutReason c)) c else c.

Definition bu_RegisterL1Block (l1BlockNum : Z) (c : channelBuilder) : channelBuilder :=
  checkTimeout l1BlockNum (updateDurationTimeout l1BlockNum c).

Definition FramePublished (l1BlockNum : Z) : channelBuilder -> channelBuilder :=
  updateTimeout (l1BlockNum +₆₄ cc_ChannelTimeout cfg -₆₄ cc_SubSafetyMargin cfg) ErrChannelTimeoutClose.

(** The end of [AddBlock]: the batch is in the channel. *)
Definition block_added (block : Block) (batch : SingularBatch) (c : channelBuilder) : channelBuilder :=
  let c := mkBuilder (bu_timeout c) (bu_timeoutReason c) (bu_fullErr c) (bu_co c) (bu_blocks c ++ [block])
             (bu_frames c) (bu_numFrames c) (bu_outputBytes c) in
  let c := updateSwTimeout batch c in
  match co_FullErr (bu_co c) with Some e => setFullErr e c | None => c end.

Definition bu_AddBlock (block : Block) : stM channelBuilder L1BlockInfo := fun c =>
  match bu_fullErr c with
  | Some e => (c, Err e)
  | None =>
      match BlockToSingularBatch Keccak256Hash rlp_decode_jst block with
      | Err e => (c, Err (wrap_err (Wrapf "converting block to batch") e))
      | Ok (batch, l1info) =>
          match co_AddSingularBatch batch (li_SequenceNumber l1info) (bu_co c) with
          | (co, Err e) =>
              if errors_Is e ErrTooManyRLPBytes || errors_Is e CompressorFullErr then
                (setFullErr e (set_co co c), Err (ChannelFullError e))
              else (set_co co c, Err (wrap_err (Wrapf "adding block to channel out") e))
          | (co, Ok _) => (block_added block batch (set_co co c), Ok l1info)
          end
      end
  end.

(** Queues a frame that was written; the last possible frame number makes the
    channel full. *)
Definition frame_out (data : bytes) (fn : Z) (c : channelBuilder) : channelBuilder :=
  let c := if fn =? 65535 then setFullErr ErrMaxFrameIndex c else c in
  mkBuilder (bu_timeout c) (bu_timeoutReason c) (bu_fullErr c) (bu_co c) (bu_blocks c)
    (bu_frames c ++ [mkFrameData data (co_ID (bu_co c), fn)]) (bu_numFrames c + 1) (bu_outputBytes c + blen data).

(** One frame; [io.EOF] after the last one. *)
Definition outputFrame : stM channelBuilder unit := fun c =>
  let '(co, (data, fn, err)) := co_OutputFrame (cc_MaxFrameSize cfg) (bu_co c) in
  let c := set_co co c in
  match err with
  | None => (frame_out data fn c, Ok tt)
  | Some EOF => (frame_out data fn c, Err EOF)
  | Some e => (c, Err (wrap_err (Wrapf "writing frame") e))
  end.

(** [int] of a [uint64]. *)
Definition to_int (n : Z) : Z := if n <? 2 ^ 63 then n else n - 2 ^ 64.

(** The loop of [outputReadyFrames]; a frame takes at least one byte of those
    that are ready, unless the frame size leaves no room for data. *)
Fixpoint ready_loop (fuel : nat) : stM channelBuilder unit := fun c =>
  if to_int (cc_MaxFrameSize cfg) <=? co_ReadyBytes (bu_co c) then
    match fuel with
    | O => (c, Err (GoPanic "infinite loop"))
    | S fuel =>
        match outputFrame c with
        | (c, Ok _) => ready_loop fuel c
        | (c, Err EOF) => (c, Ok tt)
        | (c, Err e) => (c, Err e)
        end
    end
  else (c, Ok tt).

Definition outputReadyFrames : stM channelBuilder unit := fun c =>
  ready_loop (S (Z.to_nat (co_ReadyBytes (bu_co c)))) c.

(** The loop of [closeAndOutputAllFrames]: until [io.EOF]. *)
Fixpoint all_loop (fuel : nat) : stM channelBuilder unit := fun c =>
  match fuel with
  | O => (c, Err (GoPanic "infinite loop"))
  | S fuel =>
      match outputFrame c with
      | (c, Ok _) => all_loop fuel c
      | (c, Err EOF) => (c, Ok tt)
      | (c, Err e) => (c, Err e)
      end
  end.

Definition closeAndOutputAllFrames : stM channelBuilder unit := fun c =>
  match co_Close (bu_co c) with
  | (co, Err e) => (set_co co c, Err (wrap_err (Wrapf "closing channel out") e))
  | (co, Ok _) => all_loop (S (Z.to_nat (co_ReadyBytes co))) (set_co co c)
  end.

Definition bu_OutputFrames : stM channelBuilder unit := fun c =>
  if bu_IsFull c then closeAndOutputAllFrames c else outputReadyFrames c.

Definition bu_Close (c : channelBuilder) : channelBuilder :=
  if bu_IsFull c then c else setFullErr ErrTerminated c.

Definition bu_HasFrame (c : channelBuilder) : bool := negb (bool_decide (bu_frames c = [])).

Definition bu_NextFrame : stM channelBuilder frameData := fun c =>
  match bu_frames c with
  | [] => (c, Err (GoPanic "no next frame"))
  | f :: rest => (set_frames rest c, Ok f)
  end.

Definition bu_PushFrame (frame : frameData) : stM channelBuilder unit := fun c =>
  if negb (bool_decide ((fr_id frame).1 = bu_ID c)) then (c, Err (GoPanic "wrong channel"))
  else (set_frames (bu_frames c ++ [frame]) c, Ok tt).

(** ** [channel] *)

(** The transactions in flight, and the blocks that include the confirmed ones. *)
Record channel := mkChannelTx {
  cn_builder : channelBuilder;
  cn_pending : gmap frameID frameData;
  cn_confirmed : gmap frameID BlockID;
}.

Definition newChannel (co : Out) : channel := mkChannelTx (newChannelBuilder co) ∅ ∅.

Definition on_builder {A} (m : stM channelBuilder A) : stM channel A := fun s =>
  let '(b, r) := m (cn_builder s) in (mkChannelTx b (cn_pending s) (cn_confirmed s), r).
Definition with_builder (f : channelBuilder -> channelBuilder) (s : channel) : channel :=
  mkChannelTx (f (cn_builder s)) (cn_pending s) (cn_confirmed s).

Definition cn_ID (s : channel) : ChannelID := bu_ID (cn_builder s).
Definition cn_IsFull (s : channel) : bool := bu_IsFull (cn_builder s).
Definition cn_HasFrame (s : channel) : bool := bu_HasFrame (cn_builder s).

Definition cn_TxFailed (id : frameID) : stM channel unit := fun s =>
  match cn_pending s !! id with
  | None => (s, Ok tt)
  | Some data =>
      match bu_PushFrame data (cn_builder s) with
      | (b, Err e) => (mkChannelTx b (cn_pending s) (cn_confirmed s), Err e)
      | (b, Ok _) => (mkChannelTx b (delete id (cn_pending s)) (cn_confirmed s), Ok tt)
      end
  end.

(** [isTimedOut]: the inclusion blocks are too far apart. *)
Definition cn_isTimedOut (s : channel) : bool :=
  let numbers := map (fun p => id_Number p.2) (map_to_list (cn_confirmed s)) in
  match numbers with
  | [] => false
  | _ :: _ =>
      let min := foldr Z.min (2 ^ 64 - 1) numbers in
      let max := foldr Z.max 0 numbers in
      cc_ChannelTimeout cfg <=? max -₆₄ min
  end.

Definition cn_isFullySubmitted (s : channel) : bool :=
  cn_IsFull s && (Z.of_nat (size (cn_pending s)) + Z.of_nat (length (bu_frames (cn_builder s))) =? 0).

Definition NoneSubmitted (s : channel) : bool :=
  bool_decide (cn_confirmed s = ∅) && bool_decide (cn_pending s = ∅).

(** [TxConfirmed]: whether the channel is done, and the blocks to submit again. *)
Definition cn_TxConfirmed (id : frameID) (inclusionBlock : BlockID) (s : channel) : channel * (bool * list Block) :=
  match cn_pending s !! id with
  | None => (s, (false, []))
  | Some _ =>
      let s := mkChannelTx (FramePublished (id_Number inclusionBlock) (cn_builder s)) (delete id (cn_pending s))
                 (<[id := inclusionBlock]> (cn_confirmed s)) in
      if cn_isTimedOut s then (s, (true, bu_blocks (cn_builder s)))
      else if cn_isFullySubmitted s then (s, (true, []))
      else (s, (false, []))
  end.

Definition cn_NextTxData : stM channel frameData := fun s =>
  match bu_NextFrame (cn_builder s) with
  | (b, Err e) => (mkChannelTx b (cn_pending s) (cn_confirmed s), Err e)
  | (b, Ok frame) => (mkChannelTx b (<[fr_id frame := frame]> (cn_pending s)) (cn_confirmed s), Ok frame)
  end.

(** ** [channelManager]

    A pointer to a channel is its index in [cm_store], the channels created so
    far. The slices of blocks are values here: the manager does share their
    arrays with channels it has given up, which no claim below looks into. *)
Record channelManager := mkManager {
  cm_blocks : list Block;
  cm_tip : Hash;
  cm_store : list channel;
  cm_current : option nat;
  cm_queue : list nat;
  cm_txChannels : gmap frameID nat;
  cm_closed : bool;
}.

Definition NewChannelManager : channelManager := mkManager [] (zeros 32) [] None [] ∅ false.

Definition cm_Clear (s : channelManager) : channelManager :=
  mkManager [] (zeros 32) (cm_store s) None [] ∅ false.

Definition cm_set_blocks (bs : list Block) (s : channelManager) : channelManager :=
  mkManager bs (cm_tip s) (cm_store s) (cm_current s) (cm_queue s) (cm_txChannels s) (cm_closed s).
Definition cm_set_tx (m : gmap frameID nat) (s : channelManager) : channelManager :=
  mkManager (cm_blocks s) (cm_tip s) (cm_store s) (cm_current s) (cm_queue s) m (cm_closed s).

(** Runs an operation on the channel at a pointer; none of them is nil. *)
Definition on_channel {A} (i : nat) (m : stM channel A) : stM channelManager A := fun s =>
  match cm_store s !! i with
  | None => (s, Err (GoPanic "nil pointer dereference"))
  | Some ch =>
      let '(ch, r) := m ch in
      (mkManager (cm_blocks s) (cm_tip s) (<[i := ch]> (cm_store s)) (cm_current s) (cm_queue s)
         (cm_txChannels s) (cm_closed s), r)
  end.

(** [append(q[:index], q[index+1:]...)], which shifts the elements in place:
    the array [arr] keeps its length, and its first [n] elements are the slice. *)
Definition shift_left (arr : list nat) (n i : nat) : list nat :=
  take i arr ++ take (n - 1 - i) (drop (S i) arr) ++ drop (n - 1) arr.

Definition find_index (i : nat) (q : list nat) : option nat := fst <$> list_find (eq i) q.

Definition removePendingChannel (i : nat) (s : channelManager) : channelManager :=
  let current := if bool_decide (cm_current s = Some i) then None else cm_current s in
  let queue := match find_index i (cm_queue s) with
               | None => cm_queue s
               | Some k => delete k (cm_queue s)
               end in
  mkManager (cm_blocks s) (cm_tip s) (cm_store s) current queue (cm_txChannels s) (cm_closed s).

Definition cm_TxFailed (id : frameID) : stM channelManager unit := fun s =>
  match cm_txChannels s !! id with
  | None => (s, Ok tt)
  | Some i =>
      match on_channel i (cn_TxFailed id) (cm_set_tx (delete id (cm_txChannels s)) s) with
      | (s, Err e) => (s, Err e)
      | (s, Ok _) =>
          if cm_closed s && from_option NoneSubmitted false (cm_store s !! i)
          then (removePendingChannel i s, Ok tt) else (s, Ok tt)
      end
  end.

Definition cm_TxConfirmed (id : frameID) (inclusionBlock : BlockID) : stM channelManager unit := fun s =>
  match cm_txChannels s !! id with
  | None => (s, Ok tt)
  | Some i =>
      match on_channel i (fun ch => let '(ch, r) := cn_TxConfirmed id inclusionBlock ch in (ch, Ok r))
              (cm_set_tx (delete id (cm_txChannels s)) s) with
      | (s, Err e) => (s, Err e)
      | (s, Ok (done, blocks)) =>
          let s := cm_set_blocks (blocks ++ cm_blocks s) s in
          (if done then removePendingChannel i s else s, Ok tt)
      end
  end.

(** [nextTxData] *)
Definition cm_nextTxData (ptr : option nat) : stM channelManager frameData := fun s =>
  match ptr with
  | None => (s, Err EOF)
  | Some i =>
      if from_option cn_HasFrame false (cm_store s !! i) then
        match on_channel i cn_NextTxData s with
        | (s, Err e) => (s, Err e)
        | (s, Ok tx) => (cm_set_tx (<[fr_id tx := i]> (cm_txChannels s)) s, Ok tx)
        end
      else (s, Err EOF)
  end.

(** [ensureChannelWithSpace]; [open] makes the new channel. *)
Definition ensureChannelWithSpace (open : res Out) : stM channelManager unit := fun s =>
  if match cm_current s with Some i => from_option (fun ch => negb (cn_IsFull ch)) false (cm_store s !! i) | None => false end
  then (s, Ok tt)
  else
    match open with
    | Err e => (s, Err (wrap_err (Wrapf "creating new channel") e))
    | Ok co =>
        let i := length (cm_store s) in
        (mkManager (cm_blocks s) (cm_tip s) (cm_store s ++ [newChannel co]) (Some i) (cm_queue s ++ [i])
           (cm_txChannels s) (cm_closed s), Ok tt)
    end.

(** The loop of [processBlocks]: the channel, and how many blocks were added. *)
Fixpoint add_blocks (blocks : list Block) (added : nat) (ch : channel) : channel * res nat :=
  match blocks with
  | [] => (ch, Ok added)
  | block :: blocks =>
      match on_builder (bu_AddBlock block) ch with
      | (ch, Err e) =>
          if as_ChannelFullError e then (ch, Ok added)
          else (ch, Err (wrap_err (Wrapf "adding block to channel builder") e))
      | (ch, Ok _) => if cn_IsFull ch then (ch, Ok (S added)) else add_blocks blocks (S added) ch
      end
  end.

Definition processBlocks (i : nat) : stM channelManager unit := fun s =>
  match on_channel i (add_blocks (cm_blocks s) 0) s with
  | (s, Err e) => (s, Err e)
  | (s, Ok added) => (cm_set_blocks (drop added (cm_blocks s)) s, Ok tt)
  end.

(** [outputFrames] of the manager *)
Definition cm_outputFrames (i : nat) : stM channelManager unit :=
  on_channel i (wrapping (Wrapf "creating frames with channel builder") (on_builder bu_OutputFrames)).

Definition current_channel : stM channelManager nat := fun s =>
  match cm_current s with Some i => (s, Ok i) | None => (s, Err (GoPanic "nil pointer dereference")) end.

(** [TxData] *)
Definition cm_TxData (l1Head : BlockID) (open : res Out) : stM channelManager frameData := fun s =>
  let firstWithFrame := find (fun i => from_option cn_HasFrame false (cm_store s !! i)) (cm_queue s) in
  if bool_decide (is_Some firstWithFrame) || cm_closed s then cm_nextTxData firstWithFrame s
  else if bool_decide (cm_blocks s = []) then (s, Err EOF)
  else
    (_ ← ensureChannelWithSpace open;
     i ← current_channel;
     _ ← processBlocks i;
     _ ← on_channel i (fun ch => (with_builder (bu_RegisterL1Block (id_Number l1Head)) ch, Ok tt));
     _ ← cm_outputFrames i;
     cm_nextTxData (Some i)) s.

Definition cm_AddL2Block (block : Block) : stM channelManager unit := fun s =>
  if negb (bool_decide (cm_tip s = zeros 32)) && negb (bool_decide (cm_tip s = bk_ParentHash block))
  then (s, Err ErrReorg)
  else (mkManager (cm_blocks s ++ [block]) (bk_Hash block) (cm_store s) (cm_current s) (cm_queue s)
          (cm_txChannels s) (cm_closed s), Ok tt).

(** The loop of [Close] over the queue as it was; removals shift the array the
    loop reads from. *)
Fixpoint close_loop (todo : nat) (k : nat) (arr : list nat) (n : nat) (current : option nat) (store : list channel)
    : list nat * option nat :=
  match todo with
  | O => (take n arr, current)
  | S todo =>
      match arr !! k with
      | None => (take n arr, current)
      | Some i =>
          if from_option NoneSubmitted false (store !! i) then
            let current := if bool_decide (current = Some i) then None else current in
            match find_index i (take n arr) with
            | None => close_loop todo (S k) arr n current store
            | Some j => close_loop todo (S k) (shift_left arr n j) (n - 1) current store
            end
          else close_loop todo (S k) arr n current store
      end
  end.

Definition cm_Close : stM channelManager unit := fun s =>
  if cm_closed s then (s, Ok tt) else
  let n := length (cm_queue s) in
  let '(queue, current) := close_loop n 0 (cm_queue s) n (cm_current s) (cm_store s) in
  let s := mkManager (cm_blocks s) (cm_tip s) (cm_store s) current queue (cm_txChannels s) true in
  match current with
  | None => (s, Ok tt)
  | Some i =>
      (_ ← on_channel i (fun ch => (with_builder bu_Close ch, Ok tt));
       cm_outputFrames i) s
  end.

(** ** Loading blocks: [driver.go] *)

(** What the source reads of [eth.SyncStatus]. *)
Record SyncStatus := mkSyncStatus {
  ss_HeadL1 : L1BlockRef;
  ss_SafeL2 : L2BlockRef;
  ss_UnsafeL2 : L2BlockRef;
}.

Record BatchSubmitter := mkSubmitter {
  bs_lastStoredBlock : BlockID;
  bs_state : channelManager;
}.

Definition zero_BlockID : BlockID := mkBlockID (zeros 32) 0.

Definition NewBatchSubmitter : BatchSubmitter := mkSubmitter zero_BlockID NewChannelManager.

(** [StartBatchSubmitting], without the goroutine it starts *)
Definition StartBatchSubmitting (l : BatchSubmitter) : BatchSubmitter := mkSubmitter zero_BlockID (cm_Clear (bs_state l)).

Definition calculateL2BlockRangeToStore (syncStatus : res SyncStatus) : stM BatchSubmitter (BlockID * BlockID) := fun l =>
  match syncStatus with
  | Err e => (l, Err (wrap_err (Wrapf "failed to get sync status") e))
  | Ok status =>
      if bool_decide (ss_HeadL1 status = zero_L1BlockRef) then (l, Err (Errorf "empty sync status"))
      else
        let last := bs_lastStoredBlock l in
        let last := if bool_decide (last = zero_BlockID) then L2BlockRef_ID (ss_SafeL2 status)
                    else if id_Number last <? l2_Number (ss_SafeL2 status) then L2BlockRef_ID (ss_SafeL2 status)
                    else last in
        let l := mkSubmitter last (bs_state l) in
        if l2_Number (ss_UnsafeL2 status) <=? l2_Number (ss_SafeL2 status) then
          (l, Err (Errorf "L2 safe head ahead of L2 unsafe head"))
        else (l, Ok (last, L2BlockRef_ID (ss_UnsafeL2 status)))
  end.

(** The L2 node: the answer to a block number. *)
Variable BlockByNumber : Z -> res Block.

Definition loadBlockIntoState (blockNumber : Z) : stM BatchSubmitter Block := fun l =>
  match BlockByNumber blockNumber with
  | Err e => (l, Err (wrap_err (Wrapf "getting L2 block") e))
  | Ok block =>
      match cm_AddL2Block block (bs_state l) with
      | (s, Err e) => (mkSubmitter (bs_lastStoredBlock l) s, Err (wrap_err (Wrapf "adding L2 block to state") e))
      | (s, Ok _) => (mkSubmitter (bs_lastStoredBlock l) s, Ok block)
      end
  end.

(** The loop of [loadBlocksIntoState], over [n] blocks from number [i] on; the
    block that was loaded last. *)
Fixpoint load_blocks (n : nat) (i : Z) (latest : option Block) : stM BatchSubmitter (option Block) := fun l =>
  match n with
  | O => (l, Ok latest)
  | S n =>
      match loadBlockIntoState i l with
      | (l, Err e) => (if errors_Is e ErrReorg then mkSubmitter zero_BlockID (bs_state l) else l, Err e)
      | (l, Ok block) => load_blocks n (i +₆₄ 1) (Some block) (mkSubmitter (mkBlockID (bk_Hash block) (bk_Number block)) (bs_state l))
      end
  end.

Definition loadBlocksIntoState (genesis : Genesis) (syncStatus : res SyncStatus) : stM BatchSubmitter unit := fun l =>
  match calculateL2BlockRangeToStore syncStatus l with
  | (l, Err e) => (l, Err e)
  | (l, Ok (start, end_)) =>
      if id_Number end_ <=? id_Number start then (l, Err (Errorf "start number is >= end number"))
      else
        match load_blocks (Z.to_nat ((id_Number end_ +₆₄ 1) - (id_Number start +₆₄ 1))) (id_Number start +₆₄ 1) None l with
        | (l, Err e) => (l, Err e)
        | (l, Ok None) => (l, Err (GoPanic "nil pointer dereference"))
        | (l, Ok (Some latestBlock)) =>
            match L2BlockToBlockRef Keccak256Hash rlp_decode_jst latestBlock genesis with
            | Err e => (l, Err e)
            | Ok _ => (l, Ok tt)
            end
        end
  end.

Definition on_state {A} (m : stM channelManager A) : stM BatchSubmitter A := fun l =>
  let '(s, r) := m (bs_state l) in (mkSubmitter (bs_lastStoredBlock l) s, r).

(** [handleReceipt]: the block that includes the transaction, or an error. *)
Definition handleReceipt (id : frameID) (receipt : res BlockID) : stM BatchSubmitter unit :=
  match receipt with
  | Err _ => on_state (cm_TxFailed id)
  | Ok l1block => on_state (cm_TxConfirmed id l1block)
  end.

(** [publishTxToL1], up to the transaction data it hands to the transaction
    manager. *)
Definition publishTxToL1 (l1tip : res L1BlockRef) (open : res Out) : stM BatchSubmitter bytes :=
  tip ← lift l1tip;
  txdata ← on_state (cm_TxData (L1BlockRef_ID tip) open);
  mret (txData_Bytes txdata).
End Batcher.
