(* ===== verification/BatcherSafety.v ===== *)
(** * What the batcher guarantees

    Theorems about [Batcher.v]: the frames of a channel carry its blocks to
    the derivation pipeline, and no block is lost on the way. *)

From S2P Require Import Prelude Eth Frame Channel BitCodec SystemConfig Espresso L1Info Stages Attributes Batches SpanBatchTxs SpanBatch BatchQueue.
From S2P Require Import ChannelInReader Compressor ChannelOut Batcher.

Section Builder.
Context `{B : BlockLib} `{E : EspressoLib} `{ZW : ZlibWriter} {Out : Type} `{CO : !ChannelOut Out}.
Variable Keccak256Hash : bytes -> Hash.
Variable rlp_decode_jst : bytes -> res L2BatchJustification.
Variable cfg : ChannelConfig.
Context (represents : list (SingularBatch * Z) -> list bytes -> Prop)
  (holds_out : Out -> ChannelID -> list (SingularBatch * Z) -> list bytes -> out_status -> Prop)
  (OL : channel_out_laws represents holds_out).

(** A frame has room for data. *)
Hypothesis Hsize : FrameV0OverHeadSize < cc_MaxFrameSize cfg < 2 ^ 63.

(** The batch and the sequence number a block stands for. *)
Definition block_batch (b : Block) (p : SingularBatch * Z) : Prop :=
  exists info, BlockToSingularBatch Keccak256Hash rlp_decode_jst b = Ok (p.1, info) /\ p.2 = li_SequenceNumber info.

(** The frames with data [parts]; [fin]: the last of them ends the channel. *)
Definition out_frame (id : ChannelID) (fin : bool) (n i : nat) (d : bytes) : frameData :=
  mkFrameData (MarshalBinary (mkFrame id (u16 (Z.of_nat i)) d (fin && bool_decide (S i = n)))) (id, u16 (Z.of_nat i)).

Definition out_frames (id : ChannelID) (fin : bool) (parts : list bytes) : list frameData :=
  imap (out_frame id fin (length parts)) parts.

Lemma out_frames_snoc id parts d fin :
  out_frames id fin (parts ++ [d]) = out_frames id false parts ++ [out_frame id fin (S (length parts)) (length parts) d].
Proof.
  unfold out_frames. rewrite imap_app, length_app, Nat.add_1_r. cbn. f_equal; [|by rewrite Nat.add_0_r].
  apply imap_ext. intros i x Hx. apply lookup_lt_Some in Hx. unfold out_frame. rewrite bool_decide_eq_false_2 by lia.
  by rewrite andb_false_r.
Qed.

(** The state of a builder from which the frames [taken] were taken out. *)
Record builder_inv (id : ChannelID) (c : channelBuilder) (taken : list frameData) (bs : list (SingularBatch * Z))
  (parts : list bytes) (st : out_status) (fin : bool) : Prop := {
  bi_co : holds_out (bu_co c) id bs parts st;
  bi_blocks : Forall2 block_batch (bu_blocks c) bs;
  bi_frames : bu_frames c ++ taken ≡ₚ out_frames id fin parts;
  bi_count : bu_numFrames c = Z.of_nat (length parts);
  bi_parts : Forall (fun d => bytes_ok d /\ blen d <= cc_MaxFrameSize cfg - FrameV0OverHeadSize) parts;
}.

(** The state between two calls: not full, or full and waiting to be closed,
    or closed with all frames written. *)
Definition builder_ok (id : ChannelID) (c : channelBuilder) (taken : list frameData) : Prop :=
  exists bs parts st, builder_inv id c taken bs parts st (bool_decide (st = Ended)) /\
    (st <> Adding -> bu_IsFull c = true) /\ (st = Ended -> co_ReadyBytes (bu_co c) = 0 /\ parts <> []).

(** The same queue, blocks and channel. *)
Lemma builder_inv_same id c c' taken bs parts st fin :
  bu_co c' = bu_co c -> bu_blocks c' = bu_blocks c -> bu_frames c' = bu_frames c -> bu_numFrames c' = bu_numFrames c ->
  builder_inv id c taken bs parts st fin -> builder_inv id c' taken bs parts st fin.
Proof. intros E1 E2 E3 E4 []. split; by rewrite ?E1, ?E2, ?E3, ?E4. Qed.

Lemma outputFrame_spec id c taken bs parts st : builder_inv id c taken bs parts st false -> st <> Sealed ->
  exists c' d, let last := bool_decide (co_ReadyBytes (bu_co c) < cc_MaxFrameSize cfg - FrameV0OverHeadSize /\ st = Ended) in
    outputFrame cfg c = (c', if last then Err EOF else Ok tt) /\
    builder_inv id c' taken bs (parts ++ [d]) st last /\
    (bu_IsFull c = true -> bu_IsFull c' = true) /\
    (bu_numFrames c' = bu_numFrames c + 1 /\ (bu_numFrames c < 65535 -> bu_fullErr c' = bu_fullErr c)) /\
    co_ReadyBytes (bu_co c') = co_ReadyBytes (bu_co c) -
      Z.min (co_ReadyBytes (bu_co c)) (cc_MaxFrameSize cfg - FrameV0OverHeadSize).
Proof using OL Hsize.
  intros [Hco Hb Hf Hn Hp] Hst.
  destruct (ol_output _ _ OL _ _ _ _ _ (cc_MaxFrameSize cfg) Hco Hst ltac:(lia)) as (co' & d & Hrun & Hd & Hok & Hr & Hco').
  cbv zeta in Hrun. set (last := bool_decide _) in *.
  exists (frame_out (MarshalBinary (mkFrame id (u16 (Z.of_nat (length parts))) d last)) (u16 (Z.of_nat (length parts))) (set_co co' c)), d.
  cbv zeta. split; [unfold outputFrame; rewrite Hrun; by destruct last|].
  set (c' := frame_out _ _ _).
  assert (Hsame : bu_co c' = co' /\ bu_blocks c' = bu_blocks c /\ bu_numFrames c' = bu_numFrames c + 1 /\
    bu_frames c' = bu_frames c ++ [mkFrameData (MarshalBinary (mkFrame id (u16 (Z.of_nat (length parts))) d last)) (id, u16 (Z.of_nat (length parts)))] /\
    (bu_IsFull c = true -> bu_IsFull c' = true) /\ (bu_numFrames c < 65535 -> bu_fullErr c' = bu_fullErr c)).
  { unfold c', frame_out. assert (Hid : co_ID co' = id) by (by eapply (ol_id _ _ OL)).
    destruct (Z.eqb_spec (u16 (Z.of_nat (length parts))) 65535) as [Hmax|]; cbn; rewrite Hid; split_and!; try done.
    rewrite Hn. intros Hlt. exfalso. ulia. }
  destruct Hsame as (E1 & E2 & E3 & E4 & Hfull & Hsame). split; [|split; [done|split; [done|by rewrite E1, Hr, Hd]]].
  split.
  - by rewrite E1.
  - by rewrite E2.
  - rewrite E4, out_frames_snoc, <- Hf, <- !app_assoc. apply Permutation_app_head. cbn.
    unfold out_frame. rewrite (bool_decide_eq_true_2 (S _ = S _)), andb_true_r by done. apply Permutation_cons_append.
  - rewrite E3, Hn, length_app. cbn. lia.
  - apply Forall_app. split; [done|]. constructor; [|done]. split; [done|lia].
Qed.

Lemma ready_loop_spec id taken bs fuel : forall c parts, builder_inv id c taken bs parts Adding false ->
  co_ReadyBytes (bu_co c) < Z.of_nat fuel ->
  exists c' parts', ready_loop cfg fuel c = (c', Ok tt) /\ builder_inv id c' taken bs parts' Adding false /\
    bu_numFrames c <= bu_numFrames c' /\ (bu_numFrames c' < 65536 -> bu_fullErr c' = bu_fullErr c) /\
    co_ReadyBytes (bu_co c') < cc_MaxFrameSize cfg.
Proof using OL Hsize.
  induction fuel as [|fuel IH]; intros c parts Hinv Hf; pose proof (ol_ready _ _ OL (bu_co c)); [lia|]. cbn [ready_loop].
  unfold to_int. destruct (Z.ltb_spec (cc_MaxFrameSize cfg) (2 ^ 63)); [|lia].
  destruct (Z.leb_spec (cc_MaxFrameSize cfg) (co_ReadyBytes (bu_co c))); [|by exists c, parts; split_and!; done || lia].
  destruct (outputFrame_spec _ _ _ _ _ _ Hinv ltac:(done)) as (c' & d & Hrun & Hinv' & _ & (Hcnt & Hsame) & Hr). cbv zeta in Hrun, Hinv'.
  rewrite bool_decide_eq_false_2 in Hrun, Hinv' by (by intros [_ ?]). rewrite Hrun.
  destruct (IH c' (parts ++ [d])) as (c2 & parts2 & Hl & Hinv2 & Hle & Hf2 & Hr2); [done|unfold FrameV0OverHeadSize in *; lia|].
  exists c2, parts2. split; [done|]. split; [done|]. split; [lia|]. split; [|done]. intros Hlt. rewrite Hf2, Hsame by lia. done.
Qed.

Lemma all_loop_spec id taken bs fuel : forall c parts, builder_inv id c taken bs parts Ended false ->
  co_ReadyBytes (bu_co c) < Z.of_nat fuel -> bu_IsFull c = true ->
  exists c' parts', all_loop cfg fuel c = (c', Ok tt) /\ builder_inv id c' taken bs parts' Ended true /\
    bu_IsFull c' = true /\ co_ReadyBytes (bu_co c') = 0 /\ parts' <> [].
Proof using OL Hsize.
  induction fuel as [|fuel IH]; intros c parts Hinv Hf Hfull; pose proof (ol_ready _ _ OL (bu_co c)); [lia|]. cbn [all_loop].
  destruct (outputFrame_spec _ _ _ _ _ _ Hinv ltac:(done)) as (c' & d & Hrun & Hinv' & Hfull' & _ & Hr). cbv zeta in Hrun, Hinv'.
  rewrite Hrun. case_bool_decide as Hl.
  - exists c', (parts ++ [d]). split; [done|]. split; [done|]. split; [by apply Hfull'|].
    destruct Hl as [Hl _]. split; [lia|by destruct parts].
  - apply (IH c' (parts ++ [d])); [done| |by apply Hfull'].
    assert (~ co_ReadyBytes (bu_co c) < cc_MaxFrameSize cfg - FrameV0OverHeadSize) by (intros ?; by apply Hl).
    unfold FrameV0OverHeadSize in *. lia.
Qed.

Lemma set_co_same (c : channelBuilder (Out := Out)) : set_co (bu_co c) c = c.
Proof. by destruct c. Qed.

Lemma OutputFrames_ok id c c' taken r : builder_ok id c taken -> bu_OutputFrames cfg c = (c', r) ->
  builder_ok id c' taken /\ (forall msg, r <> Err (GoPanic msg)) /\
  (bu_IsFull c = true -> exists bs parts, builder_inv id c' taken bs parts Ended true /\ co_ReadyBytes (bu_co c') = 0 /\ parts <> []) /\
  (bu_IsFull c = false -> co_ReadyBytes (bu_co c') < cc_MaxFrameSize cfg /\ (bu_numFrames c' < 65536 -> bu_IsFull c' = false)).
Proof using OL Hsize.
  intros (bs & parts & st & Hinv & Hfull & Hend) Hrun. unfold bu_OutputFrames in Hrun.
  destruct (bu_IsFull c) eqn:Ef.
  - unfold closeAndOutputAllFrames in Hrun. destruct (decide (st = Ended)) as [->|Hne].
    { destruct (ol_closed _ _ OL _ _ _ _ (bi_co _ _ _ _ _ _ _ Hinv)) as (e & He). rewrite He, set_co_same in Hrun.
      injection Hrun as <- <-. destruct (Hend eq_refl) as [Hz Hp]. split.
      - exists bs, parts, Ended. split; [done|]. by split.
      - split; [done|]. split; [|done]. intros _. by exists bs, parts. }
    rewrite bool_decide_eq_false_2 in Hinv by done. destruct Hinv as [Hco Hb Hf Hn Hpt].
    assert (Hs : holds_out (bu_co c) id bs parts Sealed) by (destruct st; [by eapply (ol_seal _ _ OL)|done|done]).
    destruct (ol_close _ _ OL _ _ _ _ Hs) as (co' & Hc & Hco'). rewrite Hc in Hrun.
    destruct (all_loop_spec id taken bs (S (Z.to_nat (co_ReadyBytes co'))) (set_co co' c) parts)
      as (c2 & parts' & Hl & Hinv' & Hfull' & Hz & Hp); [by split|cbn; lia|done|].
    rewrite Hl in Hrun. injection Hrun as <- <-. split; [|split; [done|split; [by exists bs, parts'|done]]].
    exists bs, parts', Ended. split; [done|]. by split.
  - assert (st = Adding) as -> by (destruct st; [done|..]; specialize (Hfull ltac:(done)); congruence).
    destruct (ready_loop_spec id taken bs (S (Z.to_nat (co_ReadyBytes (bu_co c)))) c parts Hinv) as (c2 & parts' & Hl & Hinv' & _ & Hsame & Hless); [lia|].
    unfold outputReadyFrames in Hrun. rewrite Hl in Hrun. injection Hrun as <- <-. split; [|split; [done|]].
    + exists bs, parts', Adding. by split.
    + split; [done|]. intros _. split; [done|]. intros Hlt. unfold bu_IsFull in *. by rewrite Hsame.
Qed.

(** The life of a builder: [taken] are the frames taken out of it and not put
    back. A block that fails to encode ends it. *)
Inductive builder_run (co0 : Out) : channelBuilder -> list frameData -> Prop :=
| run_new : builder_run co0 (newChannelBuilder co0) []
| run_add c taken block c' r : builder_run co0 c taken ->
    bu_AddBlock Keccak256Hash rlp_decode_jst cfg block c = (c', r) -> is_ok r = true \/ bu_IsFull c' = true -> builder_run co0 c' taken
| run_l1 c taken n : builder_run co0 c taken -> builder_run co0 (bu_RegisterL1Block cfg n c) taken
| run_published c taken n : builder_run co0 c taken -> builder_run co0 (FramePublished cfg n c) taken
| run_close c taken : builder_run co0 c taken -> builder_run co0 (bu_Close c) taken
| run_output c taken c' r : builder_run co0 c taken -> bu_OutputFrames cfg c = (c', r) -> builder_run co0 c' taken
| run_next c taken c' f : builder_run co0 c taken -> bu_NextFrame c = (c', Ok f) -> builder_run co0 c' (f :: taken)
| run_push c taken c' f rest : builder_run co0 c taken -> taken ≡ₚ f :: rest -> bu_PushFrame f c = (c', Ok tt) -> builder_run co0 c' rest.

Lemma run_add_ok co0 c taken block : builder_run co0 c taken -> is_ok (bu_AddBlock Keccak256Hash rlp_decode_jst cfg block c).2 = true ->
  builder_run co0 (bu_AddBlock Keccak256Hash rlp_decode_jst cfg block c).1 taken.
Proof.
  destruct (bu_AddBlock Keccak256Hash rlp_decode_jst cfg block c) as [c' r] eqn:Er. intros H Hr. eapply run_add; [done..|by left].
Qed.

Lemma run_output_fst co0 c taken : builder_run co0 c taken -> builder_run co0 (bu_OutputFrames cfg c).1 taken.
Proof. destruct (bu_OutputFrames cfg c) as [c' r] eqn:Er. intros H. by eapply run_output. Qed.

(** Steps that leave the channel, the blocks and the frames alone. *)
Lemma builder_ok_same id (c c' : channelBuilder) taken :
  bu_co c' = bu_co c -> bu_blocks c' = bu_blocks c -> bu_frames c' = bu_frames c -> bu_numFrames c' = bu_numFrames c ->
  (bu_IsFull c = true -> bu_IsFull c' = true) -> builder_ok id c taken -> builder_ok id c' taken.
Proof.
  intros E1 E2 E3 E4 Hf (bs & parts & st & Hinv & Hfull & Hend). exists bs, parts, st. split; [by eapply builder_inv_same|].
  split; [auto|]. by rewrite E1.
Qed.

Lemma updateTimeout_same n e (c : channelBuilder (Out := Out)) : exists t reason, updateTimeout n e c = mkBuilder t reason (bu_fullErr c) (bu_co c) (bu_blocks c) (bu_frames c)
  (bu_numFrames c) (bu_outputBytes c).
Proof. unfold updateTimeout. destruct (_ || _); [by eexists _, _|]. by exists (bu_timeout c), (bu_timeoutReason c); destruct c. Qed.

Lemma AddBlock_ok id c taken block c' r : builder_ok id c taken ->
  bu_AddBlock Keccak256Hash rlp_decode_jst cfg block c = (c', r) -> is_ok r = true \/ bu_IsFull c' = true -> builder_ok id c' taken.
Proof using OL.
  intros Hok Hrun Hr. pose proof Hok as (bs & parts & st & Hinv & Hfull & Hend). unfold bu_AddBlock in Hrun.
  destruct (bu_fullErr c) as [e|] eqn:Ef; [by injection Hrun as <- <-|].
  assert (Hnf : bu_IsFull c = false) by (unfold bu_IsFull; by rewrite Ef).
  assert (st = Adding) as -> by (destruct st; [done|..]; specialize (Hfull ltac:(done)); congruence).
  destruct (BlockToSingularBatch Keccak256Hash rlp_decode_jst block) as [[batch info]|e] eqn:Eb; [|by injection Hrun as <- <-].
  destruct Hinv as [Hco Hb Hf Hn Hpt].
  destruct (co_AddSingularBatch batch (li_SequenceNumber info) (bu_co c)) as [co [k|e]] eqn:Ea.
  - pose proof (ol_add _ _ OL _ _ _ _ _ _ _ _ Hco Ea) as Hco'. injection Hrun as <- _. unfold block_added.
    cbn [bu_co set_co bu_blocks bu_frames bu_numFrames bu_timeout bu_timeoutReason bu_fullErr bu_outputBytes].
    unfold updateSwTimeout. match goal with |- context [updateTimeout ?n ?e ?c0] => destruct (updateTimeout_same n e c0) as (t & rs & ->) end.
    exists (bs ++ [(batch, li_SequenceNumber info)]), parts, Adding. cbn [bu_co].
    split; [|by destruct (co_FullErr co)].
    apply (builder_inv_same id (mkBuilder t rs None co (bu_blocks c ++ [block]) (bu_frames c) (bu_numFrames c) 0));
      [by destruct (co_FullErr co)..|].
    split; [done| |done|done|done]. apply Forall2_app; [done|]. constructor; [|constructor]. by exists info.
  - destruct (errors_Is e ErrTooManyRLPBytes || errors_Is e CompressorFullErr); injection Hrun as <- <-.
    + exists bs, parts, Sealed. cbn [bu_co setFullErr set_full set_co]. split; [|by split].
      split; [by eapply (ol_add_fail _ _ OL)|done|done|done|done].
    + destruct Hr as [Hr|Hr]; [done|]. unfold bu_IsFull in Hr. cbn in Hr. by rewrite Ef in Hr.
Qed.

Lemma RegisterL1Block_ok id (c : channelBuilder) taken n : builder_ok id c taken -> builder_ok id (bu_RegisterL1Block cfg n c) taken.
Proof.
  unfold bu_RegisterL1Block, checkTimeout, updateDurationTimeout. intros IH.
  assert (Hc : forall c0 : channelBuilder, builder_ok id c0 taken -> builder_ok id (if negb (bu_IsFull c0) && TimedOut n c0
    then setFullErr (default (Errorf "<nil>") (bu_timeoutReason c0)) c0 else c0) taken).
  { intros c0 H0. destruct (_ && _); [|done]. revert H0. by apply builder_ok_same. }
  apply Hc. destruct (_ =? 0); [done|].
  destruct (updateTimeout_same (n +₆₄ cc_MaxChannelDuration cfg) ErrMaxDurationReached c) as (t & rs & ->).
  revert IH. by apply builder_ok_same.
Qed.

Lemma builder_run_ok co0 id c taken : holds_out co0 id [] [] Adding -> builder_run co0 c taken -> builder_ok id c taken.
Proof using OL Hsize.
  intros Hco. induction 1 as [|c taken block c' r _ IH Hrun Hr|c taken n _ IH|c taken n _ IH|c taken _ IH|c taken c' r _ IH Hrun
    |c taken c' f _ IH Hrun|c taken c' f rest _ IH Hp Hrun].
  - exists [], [], Adding. split; [|by split]. split; [done|constructor|done|done|constructor].
  - by eapply AddBlock_ok.
  - by apply RegisterL1Block_ok.
  - unfold FramePublished. match goal with |- context [updateTimeout ?n ?e ?c0] => destruct (updateTimeout_same n e c0) as (t & rs & ->) end.
    revert IH. by apply builder_ok_same.
  - unfold bu_Close. destruct (bu_IsFull c); [done|]. revert IH. by apply builder_ok_same.
  - by eapply OutputFrames_ok in IH as [? _].
  - destruct IH as (bs & parts & st & [Hco' Hb Hf Hn Hpt] & Hfull & Hend). unfold bu_NextFrame in Hrun.
    destruct (bu_frames c) as [|f0 fs] eqn:Efs; [done|]. injection Hrun as <- <-. exists bs, parts, st. split; [|done].
    split; [done|done| |done|done]. cbn. rewrite <- Hf. by rewrite <- Permutation_middle.
  - destruct IH as (bs & parts & st & [Hco' Hb Hf Hn Hpt] & Hfull & Hend). unfold bu_PushFrame in Hrun.
    destruct (negb _); [done|]. injection Hrun as <-. exists bs, parts, st. split; [|done].
    split; [done|done| |done|done]. cbn. by rewrite <- Hf, Hp, <- app_assoc.
Qed.

Lemma ParseFrames_one f : frame_wf f -> ParseFrames (DerivationVersion0 :: MarshalBinary f) = Ok [f].
Proof.
  intros Hf. unfold ParseFrames. rewrite Z.eqb_refl. cbn [negb].
  pose proof (parse_loop_marshal [f] [] (S (length (MarshalBinary f)))) as H. cbn [map concat app] in H.
  rewrite app_nil_r in H. rewrite H; [by cbn|by constructor|]. pose proof (marshal_nonempty f Hf). cbn [length]. lia.
Qed.

Lemma out_frames_of id parts : Z.of_nat (length parts) <= 65536 ->
  out_frames id true parts = map (fun f => mkFrameData (MarshalBinary f) (id, FrameNumber f)) (frames_of id parts).
Proof.
  intros Hl. unfold out_frames, frames_of. match goal with |- _ = map ?f ?l => change (map f l) with (f <$> l) end.
  rewrite fmap_imap. apply imap_ext. intros i d Hd. apply lookup_lt_Some in Hd. unfold out_frame. cbn [andb].
  replace (u16 (Z.of_nat i)) with (Z.of_nat i) by ulia. done.
Qed.

(** A frame takes up no more than the configured size. *)
Lemma out_frame_size id fin n i d : is_array 16 id -> blen d <= cc_MaxFrameSize cfg - FrameV0OverHeadSize ->
  blen (fr_data (out_frame id fin n i d)) <= cc_MaxFrameSize cfg.
Proof.
  intros [Hid _] Hd. unfold out_frame, MarshalBinary, FrameV0OverHeadSize in *. cbn [fr_data ID FrameNumber Data IsLast].
  unfold blen in *. rewrite !length_app, !length_put_be, Hid. cbn [length]. lia.
Qed.

Lemma builder_frame_sizes id c taken f : is_array 16 id -> builder_ok id c taken -> f ∈ bu_frames c ->
  blen (fr_data f) <= cc_MaxFrameSize cfg.
Proof.
  intros Hid (bs & parts & st & [_ _ Hf _ Hp] & _) Hin.
  assert (Hin' : f ∈ out_frames id (bool_decide (st = Ended)) parts) by (rewrite <- Hf; set_solver).
  apply list_elem_of_lookup in Hin' as [i Hi]. unfold out_frames in Hi. rewrite list_lookup_imap in Hi.
  destruct (parts !! i) as [d|] eqn:Ed; [|done]. injection Hi as <-. rewrite Forall_lookup in Hp.
  apply out_frame_size; [done|]. by apply (Hp _ _ Ed).
Qed.

(** Writing frames comes to an end, whatever the batches hold: a full
    channel is closed and written to its last byte, of an open one less than a
    frame is left, and no frame exceeds the configured size. *)
Lemma OutputFrames_completes (co0 : Out) (id : ChannelID) (c : channelBuilder) (taken : list frameData)
  (Hid : is_array 16 id) (Hnew : holds_out co0 id [] [] Adding) (Hrun : builder_run co0 c taken) :
  let '(c', r) := bu_OutputFrames cfg c in
  (forall msg, r <> Err (GoPanic msg)) /\
  co_ReadyBytes (bu_co c') < (if bu_IsFull c then 1 else cc_MaxFrameSize cfg) /\
  forall f, f ∈ bu_frames c' -> blen (fr_data f) <= cc_MaxFrameSize cfg.
Proof using OL Hsize.
  destruct (bu_OutputFrames cfg c) as [c' r] eqn:Er.
  destruct (OutputFrames_ok id c c' taken r) as (Hok & Hp & Hfull & Hopen); [by eapply builder_run_ok|done|].
  split; [done|]. split; [|intros f; by eapply builder_frame_sizes].
  destruct (bu_IsFull c); [|by apply Hopen]. destruct (Hfull eq_refl) as (_ & _ & _ & -> & _). lia.
Qed.

(** All the frames of a closed channel, in the order in which L1 has them,
    make up a channel that is ready and reads as the compressed stream. *)
Lemma channel_arrives id taken bs parts c openBlock (txs : list (bytes * L1BlockRef)) :
  builder_inv id c taken bs parts Ended true -> bu_frames c = [] -> bu_numFrames c <= 65536 -> parts <> [] ->
  co_ReadyBytes (bu_co c) = 0 -> is_array 16 id -> cc_MaxFrameSize cfg <= MaxFrameLen + FrameV0OverHeadSize ->
  map fst txs ≡ₚ map txData_Bytes taken ->
  exists frames, Forall2 (fun tx f => ParseFrames tx.1 = Ok [f]) txs frames /\
    let ch := ingest (NewChannel id openBlock) (zip frames (map snd txs)) in
    IsReady ch = true /\ Reader ch = Ok (concat parts) /\ carries represents bs (concat parts).
Proof using OL.
  intros Hinv He Hn Hne Hr Hid Hmax Htx. pose proof Hinv as [Hco Hb Hf Hc Hp].
  rewrite He in Hf. cbn [app] in Hf. rewrite out_frames_of in Hf by lia.
  assert (Hwf : Forall frame_wf (frames_of id parts)).
  { apply Forall_lookup. intros i f Hi. apply frames_of_lookup in Hi as (d & Hd & ->).
    rewrite Forall_lookup in Hp. destruct (Hp _ _ Hd) as [Hok Hlen]. apply lookup_lt_Some in Hd.
    unfold frame_wf. cbn. split; [done|]. split; [unfold is_u16; lia|]. split; [done|lia]. }
  assert (Htx' : map fst txs ≡ₚ map (fun f => DerivationVersion0 :: MarshalBinary f) (frames_of id parts)).
  { rewrite Htx, Hf, map_map. done. }
  apply Permutation_map_inv in Htx' as (frames & Hfr & Hperm).
  exists frames. assert (Hlen : length frames = length txs) by (apply (f_equal length) in Hfr; rewrite !length_map in Hfr; done).
  split.
  - apply Forall2_same_length_lookup. split; [done|]. intros i tx f Hi Hj.
    assert (Hd : tx.1 = DerivationVersion0 :: MarshalBinary f).
    { apply (f_equal (lookup i)) in Hfr. rewrite !list_lookup_fmap, Hi, Hj in Hfr. by injection Hfr. }
    rewrite Hd. apply ParseFrames_one. rewrite Forall_forall in Hwf. apply Hwf. rewrite Hperm.
    by apply list_elem_of_lookup_2 in Hj.
  - cbv zeta. assert (Hz : map fst (zip frames (map snd txs)) = frames).
    { apply fst_zip. rewrite length_map. lia. }
    destruct (ingest_complete id openBlock parts (zip frames (map snd txs)) Hne) as [H1 H2]; [by rewrite Hz|].
    split; [done|]. split; [done|]. by apply (ol_drained _ _ OL _ _ _ _ Hco).
Qed.
End Builder.

(** ** Channels in flight *)

Section InFlight.
Context `{B : BlockLib} `{E : EspressoLib} `{ZW : ZlibWriter} {Out : Type} `{CO : !ChannelOut Out}.
Variable Keccak256Hash : bytes -> Hash.
Variable rlp_decode_jst : bytes -> res L2BatchJustification.
Variable cfg : ChannelConfig.
Context (represents : list (SingularBatch * Z) -> list bytes -> Prop)
  (holds_out : Out -> ChannelID -> list (SingularBatch * Z) -> list bytes -> out_status -> Prop)
  (OL : channel_out_laws represents holds_out).
Hypothesis Hsize : FrameV0OverHeadSize < cc_MaxFrameSize cfg < 2 ^ 63.

#[local] Notation builder_inv := (builder_inv Keccak256Hash rlp_decode_jst cfg holds_out).
#[local] Notation builder_ok := (builder_ok Keccak256Hash rlp_decode_jst cfg holds_out).

(** A builder that is done: closed, with all of its frames written. *)
Definition written (id : ChannelID) (c : channelBuilder) (taken : list frameData) : Prop :=
  exists bs parts, builder_inv id c taken bs parts Ended true /\ co_ReadyBytes (bu_co c) = 0 /\ parts <> [].

(** [taken] are the frames of the transactions in flight or confirmed. *)
Record chan_base (id : ChannelID) (ch : channel) (taken : list frameData) : Prop := {
  ch_builder : builder_ok id (cn_builder ch) taken;
  ch_ids : map fr_id taken ≡ₚ map fst (map_to_list (cn_pending ch)) ++ map fst (map_to_list (cn_confirmed ch));
  ch_pending : forall k d, cn_pending ch !! k = Some d -> d ∈ taken /\ fr_id d = k;
  ch_count : bu_numFrames (cn_builder ch) < 65536;
}.

Definition chan_ok (id : ChannelID) (ch : channel) (taken : list frameData) : Prop :=
  chan_base id ch taken /\ (cn_IsFull ch = true -> written id (cn_builder ch) taken).

(** Frames that move between the queue and the transactions. *)
Lemma builder_inv_move id c c' taken taken' bs parts st fin :
  bu_co c' = bu_co c -> bu_blocks c' = bu_blocks c -> bu_numFrames c' = bu_numFrames c ->
  bu_frames c' ++ taken' ≡ₚ bu_frames c ++ taken ->
  builder_inv id c taken bs parts st fin -> builder_inv id c' taken' bs parts st fin.
Proof. intros E1 E2 E3 E4 []. split; rewrite ?E1, ?E2, ?E3, ?E4; done. Qed.

Lemma builder_ok_move id c c' taken taken' :
  bu_co c' = bu_co c -> bu_blocks c' = bu_blocks c -> bu_numFrames c' = bu_numFrames c ->
  bu_frames c' ++ taken' ≡ₚ bu_frames c ++ taken -> bu_fullErr c' = bu_fullErr c ->
  builder_ok id c taken -> builder_ok id c' taken'.
Proof.
  intros E1 E2 E3 E4 E5 (bs & parts & st & Hinv & Hfull & Hend). exists bs, parts, st.
  split; [by eapply builder_inv_move|]. unfold bu_IsFull in *. by rewrite E1, E5.
Qed.

Lemma written_move id c c' taken taken' :
  bu_co c' = bu_co c -> bu_blocks c' = bu_blocks c -> bu_numFrames c' = bu_numFrames c ->
  bu_frames c' ++ taken' ≡ₚ bu_frames c ++ taken -> written id c taken -> written id c' taken'.
Proof.
  intros E1 E2 E3 E4 (bs & parts & Hinv & Hr). exists bs, parts. split; [by eapply builder_inv_move|]. by rewrite E1.
Qed.

(** The identifiers of the frames differ. *)
Lemma builder_ok_ids id c taken : builder_ok id c taken -> bu_numFrames c < 65536 ->
  NoDup (map fr_id (bu_frames c ++ taken)) /\ Forall (fun f => (fr_id f).1 = id) (bu_frames c ++ taken).
Proof.
  intros (bs & parts & st & [_ _ Hf Hn _] & _) Hc.
  assert (Hids : forall fin, map fr_id (out_frames id fin parts) = imap (fun i _ => (id, u16 (Z.of_nat i))) parts).
  { intros fin. unfold out_frames. match goal with |- map ?f ?l = _ => change (map f l) with (f <$> l) end. by rewrite fmap_imap. }
  split.
  - assert (Hp : map fr_id (bu_frames c ++ taken) ≡ₚ imap (fun i _ => (id, u16 (Z.of_nat i))) parts)
      by (by rewrite Hf, Hids). rewrite Hp. apply NoDup_alt. intros i j x.
    rewrite !list_lookup_imap. destruct (parts !! i) as [di|] eqn:Ei; [|done]. destruct (parts !! j) as [dj|] eqn:Ej; [|done].
    apply lookup_lt_Some in Ei, Ej. cbn. intros [= <-] [= E1]. ulia.
  - rewrite Hf. apply Forall_lookup. intros i x. unfold out_frames. rewrite list_lookup_imap.
    destruct (parts !! i); [|done]. by intros [= <-].
Qed.

Lemma map_fst_delete {A} (m : gmap frameID A) k x : m !! k = Some x ->
  map fst (map_to_list m) ≡ₚ k :: map fst (map_to_list (delete k m)).
Proof. intros Hk. by rewrite <- (map_to_list_delete m k x Hk). Qed.

Lemma map_fst_insert {A} (m : gmap frameID A) k x : m !! k = None ->
  map fst (map_to_list (<[k := x]> m)) ≡ₚ k :: map fst (map_to_list m).
Proof. intros Hk. by rewrite map_to_list_insert. Qed.

Lemma elem_of_keys {A} (m : gmap frameID A) k : k ∈ map fst (map_to_list m) <-> is_Some (m !! k).
Proof.
  rewrite list_elem_of_fmap. split.
  - intros ([k' x] & -> & Hx). apply elem_of_map_to_list in Hx. by eexists.
  - intros [x Hx]. exists (k, x). split; [done|]. by apply elem_of_map_to_list.
Qed.

(** The frame of a pending transaction is one of those taken. *)
Lemma pending_taken id ch taken k d : chan_base id ch taken -> cn_pending ch !! k = Some d ->
  exists rest, taken ≡ₚ d :: rest /\ fr_id d = k /\ k ∉ map fr_id rest /\ cn_confirmed ch !! k = None /\
    map fr_id rest ≡ₚ map fst (map_to_list (delete k (cn_pending ch))) ++ map fst (map_to_list (cn_confirmed ch)).
Proof.
  intros [Hb Hids Hp Hc] Hk. destruct (Hp _ _ Hk) as [Hd Hid]. apply elem_of_Permutation in Hd as (rest & Hrest).
  exists rest. destruct (builder_ok_ids _ _ _ Hb Hc) as [Hnd _]. rewrite map_app in Hnd. apply NoDup_app in Hnd as (_ & _ & Hnd).
  rewrite Hrest in Hnd. cbn in Hnd. apply NoDup_cons in Hnd as [Hnin _]. rewrite Hid in Hnin.
  assert (Hperm : map fr_id rest ≡ₚ map fst (map_to_list (delete k (cn_pending ch))) ++ map fst (map_to_list (cn_confirmed ch))).
  { rewrite Hrest in Hids. cbn in Hids. rewrite (map_fst_delete _ _ _ Hk), Hid in Hids. by apply Permutation_cons_inv in Hids. }
  split; [done|]. split; [done|]. split; [done|]. split; [|done].
  destruct (cn_confirmed ch !! k) as [b|] eqn:Eb; [|done]. exfalso. apply Hnin. rewrite Hperm. apply elem_of_app. right.
  apply elem_of_keys. by eexists.
Qed.
Lemma chan_TxFailed id ch taken k ch' r : chan_ok id ch taken -> cn_TxFailed k ch = (ch', r) ->
  r = Ok tt /\ bu_blocks (cn_builder ch') = bu_blocks (cn_builder ch) /\ (cn_pending ch !! k = None -> ch' = ch) /\
  exists taken', taken' ⊆ taken /\ chan_ok id ch' taken'.
Proof.
  intros [Hb Hfull] Hrun. unfold cn_TxFailed in Hrun. destruct (cn_pending ch !! k) as [d|] eqn:Ek.
  2: { injection Hrun as <- <-. split; [done|]. split; [done|]. split; [done|]. by exists taken. }
  destruct (pending_taken _ _ _ _ _ Hb Ek) as (rest & Hrest & Hid & Hnin & Hconf & Hids).
  assert (Hsub : rest ⊆ taken) by (rewrite Hrest; set_solver).
  destruct (builder_ok_ids _ _ _ (ch_builder _ _ _ Hb) (ch_count _ _ _ Hb)) as [_ Hall].
  assert (Hd1 : (fr_id d).1 = id).
  { rewrite Forall_forall in Hall. apply Hall. rewrite Hrest. set_solver. }
  unfold bu_PushFrame in Hrun.
  assert (Hbid : bu_ID (cn_builder ch) = id).
  { destruct (ch_builder _ _ _ Hb) as (bs & parts & st & Hinv & _). by apply (ol_id _ _ OL _ _ _ _ _ (bi_co _ _ _ _ _ _ _ _ _ _ _ Hinv)). }
  rewrite bool_decide_eq_true_2 in Hrun by congruence. cbn [negb] in Hrun. injection Hrun as <- <-.
  split; [done|]. split; [done|]. split; [done|]. exists rest. split; [exact Hsub|].
  assert (Hperm : (bu_frames (cn_builder ch) ++ [d]) ++ rest ≡ₚ bu_frames (cn_builder ch) ++ taken).
  { rewrite Hrest, <- app_assoc. done. }
  split.
  - split; [by apply (builder_ok_move id (cn_builder ch) _ taken), Hb|exact Hids| |exact (ch_count _ _ _ Hb)].
    cbn. intros k' d' Hk'. apply lookup_delete_Some in Hk' as [Hne Hk']. destruct (ch_pending _ _ _ Hb _ _ Hk') as [Hin Hid'].
    split; [|done]. rewrite Hrest in Hin. apply elem_of_cons in Hin as [->|Hin]; [congruence|done].
  - intros Hf. by apply (written_move id (cn_builder ch) _ taken), Hfull.
Qed.

Lemma FramePublished_same n (c : channelBuilder (Out := Out)) : bu_co (FramePublished cfg n c) = bu_co c /\
  bu_blocks (FramePublished cfg n c) = bu_blocks c /\ bu_frames (FramePublished cfg n c) = bu_frames c /\
  bu_numFrames (FramePublished cfg n c) = bu_numFrames c /\ bu_fullErr (FramePublished cfg n c) = bu_fullErr c.
Proof.
  unfold FramePublished. match goal with |- context [updateTimeout ?n ?e ?c0] => destruct (updateTimeout_same n e c0) as (t & rs & ->) end. done.
Qed.

Lemma chan_TxConfirmed id ch taken k incl ch' done blocks : chan_ok id ch taken ->
  cn_TxConfirmed cfg k incl ch = (ch', (done, blocks)) ->
  bu_blocks (cn_builder ch') = bu_blocks (cn_builder ch) /\ (cn_pending ch !! k = None -> ch' = ch /\ done = false) /\
  blocks = (if done && cn_isTimedOut cfg ch' then bu_blocks (cn_builder ch) else []) /\
  (done = true -> cn_isTimedOut cfg ch' = true \/ cn_isFullySubmitted ch' = true /\ cn_isTimedOut cfg ch' = false) /\
  chan_ok id ch' taken.
Proof.
  intros [Hb Hfull] Hrun. unfold cn_TxConfirmed in Hrun. destruct (cn_pending ch !! k) as [d|] eqn:Ek.
  2: { injection Hrun as <- <- <-. split; [reflexivity|]. split; [by split|]. split; [reflexivity|]. split; [discriminate|]. by split. }
  destruct (pending_taken _ _ _ _ _ Hb Ek) as (rest & Hrest & Hid & Hnin & Hconf & Hids).
  destruct (FramePublished_same (id_Number incl) (cn_builder ch)) as (E1 & E2 & E3 & E4 & E5).
  set (ch1 := mkChannelTx (FramePublished cfg (id_Number incl) (cn_builder ch)) (delete k (cn_pending ch))
                (<[k := incl]> (cn_confirmed ch))) in *.
  assert (Hok : chan_ok id ch1 taken).
  { split.
    - split; cbn.
      + apply (builder_ok_move id (cn_builder ch) _ taken); try done; [by rewrite E3|apply Hb].
      + rewrite map_fst_insert by done. rewrite <- Permutation_middle, (ch_ids _ _ _ Hb), (map_fst_delete _ _ _ Ek). done.
      + intros k' d' Hk'. apply lookup_delete_Some in Hk' as [_ Hk']. by apply (ch_pending _ _ _ Hb).
      + rewrite E4. apply Hb.
    - unfold cn_IsFull, bu_IsFull. cbn. rewrite E5. intros Hf.
      apply (written_move id (cn_builder ch) _ taken); try done; [by rewrite E3|by apply Hfull]. }
  destruct (cn_isTimedOut cfg ch1) eqn:Et; [|destruct (cn_isFullySubmitted ch1) eqn:Es]; injection Hrun as <- <- <-;
    (split; [exact E2|]; split; [discriminate|]; rewrite ?Et; split; [exact E2 || reflexivity|]; split; [|exact Hok]).
  - intros _. by left.
  - intros _. by right.
  - discriminate.
Qed.

Lemma chan_NextTxData id ch taken ch' f : chan_ok id ch taken -> cn_NextTxData ch = (ch', Ok f) ->
  bu_blocks (cn_builder ch') = bu_blocks (cn_builder ch) /\ chan_ok id ch' (f :: taken).
Proof.
  intros [Hb Hfull] Hrun. unfold cn_NextTxData, bu_NextFrame in Hrun.
  destruct (bu_frames (cn_builder ch)) as [|f0 fs] eqn:Ef; [done|]. injection Hrun as <- <-. split; [done|].
  destruct (builder_ok_ids _ _ _ (ch_builder _ _ _ Hb) (ch_count _ _ _ Hb)) as [Hnd _].
  rewrite Ef in Hnd. cbn in Hnd. apply NoDup_cons in Hnd as [Hnin _]. rewrite map_app in Hnin.
  assert (Hn : fr_id f0 ∉ map fst (map_to_list (cn_pending ch)) ++ map fst (map_to_list (cn_confirmed ch))).
  { rewrite <- (ch_ids _ _ _ Hb). set_solver. }
  assert (Hperm : fs ++ f0 :: taken ≡ₚ bu_frames (cn_builder ch) ++ taken) by (rewrite Ef; by rewrite <- Permutation_middle).
  split.
  - split; cbn.
    + by apply (builder_ok_move id (cn_builder ch) _ taken), Hb.
    + rewrite map_fst_insert.
      * cbn. by rewrite (ch_ids _ _ _ Hb).
      * destruct (cn_pending ch !! fr_id f0) eqn:Ep; [|done]. exfalso. apply Hn, elem_of_app. left. apply elem_of_keys. by eexists.
    + intros k d Hk. apply lookup_insert_Some in Hk as [[<- <-]|[Hne Hk]]; [split; [set_solver|done]|].
      destruct (ch_pending _ _ _ Hb _ _ Hk). split; [set_solver|done].
    + apply Hb.
  - intros Hf. by apply (written_move id (cn_builder ch) _ taken), Hfull.
Qed.
Lemma AddBlock_outcome block (c c' : channelBuilder (Out := Out)) r : bu_AddBlock Keccak256Hash rlp_decode_jst cfg block c = (c', r) ->
  bu_numFrames c' = bu_numFrames c /\
  bu_blocks c' = bu_blocks c ++ (if is_ok r then [block] else []) /\
  (forall e, r = Err e -> as_ChannelFullError e = true -> bu_IsFull c' = true).
Proof.
  unfold bu_AddBlock. destruct (bu_fullErr c) as [e|] eqn:Ef.
  { intros [= <- <-]. cbn. rewrite app_nil_r. split_and!; try done. intros _ _ _. unfold bu_IsFull. by rewrite Ef. }
  assert (Hwrap : forall msg e, msg <> "channel full"%string -> as_ChannelFullError (wrap_err (Wrapf msg) e) = false).
  { intros msg e Hm. destruct e; cbn; try done; by apply bool_decide_eq_false_2. }
  destruct (BlockToSingularBatch Keccak256Hash rlp_decode_jst block) as [[batch info]|e].
  2: { intros [= <- <-]. cbn. rewrite app_nil_r. split_and!; try done. intros e0 [= <-]. by rewrite Hwrap. }
  destruct (co_AddSingularBatch batch (li_SequenceNumber info) (bu_co c)) as [co [k|e]].
  - intros [= <- <-]. unfold block_added. cbn [bu_co set_co bu_blocks bu_frames bu_numFrames bu_timeout bu_timeoutReason bu_fullErr bu_outputBytes].
    unfold updateSwTimeout. match goal with |- context [updateTimeout ?n ?e ?c0] => destruct (updateTimeout_same n e c0) as (t & rs & ->) end.
    cbn [bu_co is_ok]. by destruct (co_FullErr co); (split; [done|split; [done|]]).
  - destruct (_ || _); intros [= <- <-]; cbn; rewrite app_nil_r; split_and!; try done. intros e0 [= <-]. by rewrite Hwrap.
Qed.

(** Writing frames keeps the blocks. *)
Lemma outputFrame_blocks (c : channelBuilder (Out := Out)) : bu_blocks (outputFrame cfg c).1 = bu_blocks c.
Proof.
  unfold outputFrame. destruct (co_OutputFrame _ _) as [co [[data fn] err]].
  destruct err as [[]|]; cbn; try done; unfold frame_out; by destruct (fn =? 65535).
Qed.

Lemma OutputFrames_blocks (c : channelBuilder (Out := Out)) : bu_blocks (bu_OutputFrames cfg c).1 = bu_blocks c.
Proof.
  assert (Hr : forall fuel c, bu_blocks (ready_loop cfg fuel c).1 = bu_blocks c).
  { intros fuel. induction fuel as [|fuel IH]; intros c0; cbn [ready_loop]; destruct (_ <=? _); try done.
    rewrite <- (outputFrame_blocks c0). destruct (outputFrame cfg c0) as [c1 [[]|[]]]; cbn; by rewrite ?IH. }
  assert (Ha : forall fuel c, bu_blocks (all_loop cfg fuel c).1 = bu_blocks c).
  { intros fuel. induction fuel as [|fuel IH]; intros c0; cbn [all_loop]; [done|].
    rewrite <- (outputFrame_blocks c0). destruct (outputFrame cfg c0) as [c1 [[]|[]]]; cbn; by rewrite ?IH. }
  unfold bu_OutputFrames, closeAndOutputAllFrames, outputReadyFrames. destruct (bu_IsFull c); [|apply Hr].
  destruct (co_Close (bu_co c)) as [co [[]|e]]; [by rewrite Ha|done].
Qed.

Lemma RegisterL1Block_blocks n (c : channelBuilder (Out := Out)) : bu_blocks (bu_RegisterL1Block cfg n c) = bu_blocks c.
Proof.
  unfold bu_RegisterL1Block, checkTimeout, updateDurationTimeout.
  destruct (updateTimeout_same (n +₆₄ cc_MaxChannelDuration cfg) ErrMaxDurationReached c) as (t & rs & ->).
  destruct (_ =? 0), (_ && _); done.
Qed.

(** Blocks that are added to a channel with space. *)
Lemma chan_add_blocks id taken blocks : forall n ch ch' m, chan_base id ch taken -> cn_IsFull ch = false ->
  add_blocks Keccak256Hash rlp_decode_jst cfg blocks n ch = (ch', Ok m) ->
  chan_base id ch' taken /\ exists k, m = (n + k)%nat /\ bu_blocks (cn_builder ch') = bu_blocks (cn_builder ch) ++ take k blocks.
Proof using OL.
  induction blocks as [|block blocks IH]; intros n ch ch' m Hb Hnf Hrun; cbn [add_blocks] in Hrun.
  { injection Hrun as <- <-. split; [done|]. exists 0%nat. cbn. rewrite app_nil_r. split; [lia|done]. }
  unfold on_builder in Hrun.
  destruct (bu_AddBlock Keccak256Hash rlp_decode_jst cfg block (cn_builder ch)) as [c r] eqn:Ea.
  destruct (AddBlock_outcome _ _ _ _ Ea) as (Hcnt & Hbl & Hful).
  assert (Hbase : is_ok r = true \/ bu_IsFull c = true -> chan_base id (mkChannelTx c (cn_pending ch) (cn_confirmed ch)) taken).
  { intros Hr. split; [by eapply AddBlock_ok; [done|apply Hb|..]|apply Hb|apply Hb|cbn; rewrite Hcnt; apply Hb]. }
  destruct r as [info|e].
  - specialize (Hbase (or_introl eq_refl)). cbn [is_ok] in Hbl. destruct (cn_IsFull _) eqn:Ef in Hrun.
    + injection Hrun as <- <-. split; [done|]. exists 1%nat. cbn. split; [lia|]. by rewrite Hbl.
    + destruct (IH _ _ _ _ Hbase Ef Hrun) as (Hb' & k & -> & Hk). split; [done|]. exists (S k). split; [lia|].
      rewrite Hk. cbn. by rewrite Hbl, <- app_assoc.
  - destruct (as_ChannelFullError e) eqn:Ee; [|by destruct e]. injection Hrun as <- <-.
    split; [apply Hbase; right; by apply (Hful e)|]. exists 0%nat. split; [lia|]. cbn. by rewrite Hbl.
Qed.

(** Registering the L1 head and writing the frames. *)
Lemma chan_output id taken ch n ch' r : chan_base id ch taken ->
  on_builder (bu_OutputFrames cfg) (with_builder (bu_RegisterL1Block cfg n) ch) = (ch', r) ->
  bu_numFrames (cn_builder ch') < 65536 ->
  bu_blocks (cn_builder ch') = bu_blocks (cn_builder ch) /\ chan_ok id ch' taken.
Proof using OL Hsize.
  intros Hb Hrun Hcnt. unfold on_builder, with_builder in Hrun. cbn in Hrun.
  assert (Hreg : builder_ok id (bu_RegisterL1Block cfg n (cn_builder ch)) taken) by apply RegisterL1Block_ok, Hb.
  destruct (bu_OutputFrames cfg (bu_RegisterL1Block cfg n (cn_builder ch))) as [c r'] eqn:Eo. injection Hrun as <- <-.
  destruct (OutputFrames_ok _ _ _ _ _ OL Hsize _ _ _ _ _ Hreg Eo) as (Hok & _ & Hfull & Hnot). cbn in Hcnt |- *.
  split.
  - pose proof (OutputFrames_blocks (bu_RegisterL1Block cfg n (cn_builder ch))) as Hbl. rewrite Eo in Hbl. cbn in Hbl.
    by rewrite Hbl, RegisterL1Block_blocks.
  - split; [split; [done|apply Hb|apply Hb|done]|]. unfold cn_IsFull. cbn. intros Hf.
    destruct (bu_IsFull (bu_RegisterL1Block cfg n (cn_builder ch))) eqn:Ef; [by apply Hfull|].
    destruct (Hnot eq_refl) as [_ Hnot']. rewrite Hnot' in Hf by done. done.
Qed.

(** ** The channel manager *)

(** What makes a new channel. *)
Variable fresh : Out -> Prop.
Hypothesis Hfresh : forall co, fresh co -> exists id, is_array 16 id /\ holds_out co id [] [] Adding.

(** The life of an open manager: [added] are the blocks it was given since it
    was last cleared, [sent] the transaction data it handed out. *)
Inductive manager_run : channelManager -> list Block -> list frameData -> Prop :=
| mr_new : manager_run NewChannelManager [] []
| mr_clear s added sent : manager_run s added sent -> manager_run (cm_Clear s) [] sent
| mr_add s added sent block s' : manager_run s added sent -> cm_AddL2Block block s = (s', Ok tt) ->
    manager_run s' (added ++ [block]) sent
| mr_data s added sent l1Head co s' f : manager_run s added sent -> fresh co ->
    cm_TxData Keccak256Hash rlp_decode_jst cfg l1Head (Ok co) s = (s', Ok f) ->
    Forall (fun ch => bu_numFrames (cn_builder ch) < 65536) (cm_store s') -> manager_run s' added (f :: sent)
| mr_eof s added sent l1Head co s' : manager_run s added sent -> fresh co ->
    cm_TxData Keccak256Hash rlp_decode_jst cfg l1Head (Ok co) s = (s', Err EOF) ->
    Forall (fun ch => bu_numFrames (cn_builder ch) < 65536) (cm_store s') -> manager_run s' added sent
| mr_failed s added sent k s' r : manager_run s added sent -> cm_TxFailed k s = (s', r) -> manager_run s' added sent
| mr_confirmed s added sent k incl s' r : manager_run s added sent -> cm_TxConfirmed cfg k incl s = (s', r) ->
    manager_run s' added sent.

(** A channel that is done in time. *)
Definition fully (ch : channel (Out := Out)) : Prop := cn_isFullySubmitted ch = true /\ cn_isTimedOut cfg ch = false.

Definition chan_good (sent : list frameData) (ch : channel) : Prop :=
  exists id taken, is_array 16 id /\ taken ⊆ sent /\ chan_ok id ch taken.

(** Where a block is. *)
Definition kept (s : channelManager (Out := Out)) (b : Block) : Prop :=
  b ∈ cm_blocks s \/ exists i ch, cm_store s !! i = Some ch /\ b ∈ bu_blocks (cn_builder ch) /\ (i ∈ cm_queue s \/ fully ch).

Record manager_ok (s : channelManager) (added : list Block) (sent : list frameData) : Prop := {
  mo_chans : Forall (chan_good sent) (cm_store s);
  mo_current : forall i, cm_current s = Some i -> i ∈ cm_queue s;
  mo_queue : forall i, i ∈ cm_queue s -> is_Some (cm_store s !! i);
  mo_tx : forall k i, cm_txChannels s !! k = Some i -> is_Some (cm_store s !! i);
  mo_kept : forall b, b ∈ added -> kept s b;
  mo_open : cm_closed s = false;
}.

Lemma chan_good_sent sent sent' ch : sent ⊆ sent' -> chan_good sent ch -> chan_good sent' ch.
Proof. intros Hs (id & taken & Hid & Ht & Hok). exists id, taken. split; [done|]. split; [set_solver|done]. Qed.

(** A channel is replaced by one with at least its blocks, which stays done
    when it was. *)
Lemma manager_update s added sent sent' i ch ch' tx : manager_ok s added sent -> cm_store s !! i = Some ch ->
  sent ⊆ sent' -> chan_good sent' ch' -> bu_blocks (cn_builder ch) ⊆ bu_blocks (cn_builder ch') ->
  (fully ch -> i ∈ cm_queue s \/ fully ch') -> (forall k j, tx !! k = Some j -> is_Some (cm_store s !! j)) ->
  manager_ok (mkManager (cm_blocks s) (cm_tip s) (<[i := ch']> (cm_store s)) (cm_current s) (cm_queue s) tx (cm_closed s)) added sent'.
Proof.
  intros [Hch Hcur Hq Htx Hk Ho] Hi Hsent Hgood Hbl Hful Htx'.
  assert (Hin : forall j, is_Some (cm_store s !! j) -> is_Some (<[i := ch']> (cm_store s) !! j)).
  { intros j. rewrite !lookup_lt_is_Some, length_insert. done. }
  split; cbn; [|exact Hcur|auto|eauto| |exact Ho].
  - apply Forall_insert; [|done]. eapply Forall_impl; [exact Hch|]. intros ch0. by apply chan_good_sent.
  - intros b Hb. destruct (Hk b Hb) as [Hb'|(j & ch0 & Hj & Hin0 & Hor)]; [by left|]. right.
    destruct (decide (j = i)) as [->|Hne].
    + rewrite Hi in Hj. injection Hj as <-. exists i, ch'. cbn. split; [apply list_lookup_insert_eq; by eapply lookup_lt_Some|].
      split; [by apply Hbl|]. destruct Hor; [by left|auto].
    + exists j, ch0. cbn. split; [by rewrite list_lookup_insert_ne|]. done.
Qed.

(** Blocks leave the queue of blocks for a channel in flight. *)
Lemma manager_blocks s added sent i ch blocks : manager_ok s added sent -> cm_store s !! i = Some ch -> i ∈ cm_queue s ->
  (forall b, b ∈ cm_blocks s -> b ∈ blocks \/ b ∈ bu_blocks (cn_builder ch)) -> manager_ok (cm_set_blocks blocks s) added sent.
Proof.
  intros [Hch Hcur Hq Htx Hk Ho] Hi Hin Hb. split; try done. intros b Ha. destruct (Hk b Ha) as [Hb0|Hr]; [|by right].
  destruct (Hb b Hb0) as [?|?]; [by left|]. right. exists i, ch. split; [done|]. split; [done|]. by left.
Qed.

Lemma elem_of_delete_ne (q : list nat) k i j : q !! k = Some i -> j ∈ q -> j <> i -> j ∈ delete k q.
Proof.
  intros Hk Hj Hne. rewrite (delete_Permutation _ _ _ Hk) in Hj. apply elem_of_cons in Hj as [->|Hj]; done.
Qed.

(** A channel leaves the queue: it is done, or its blocks wait again. *)
Lemma manager_remove s added sent i ch : manager_ok s added sent -> cm_store s !! i = Some ch ->
  fully ch \/ bu_blocks (cn_builder ch) ⊆ cm_blocks s -> manager_ok (removePendingChannel i s) added sent.
Proof.
  intros [Hch Hcur Hq Htx Hk Ho] Hi Hor. unfold removePendingChannel.
  set (queue := match find_index i (cm_queue s) with None => _ | Some k => _ end).
  assert (Hsub : queue ⊆ cm_queue s /\ forall j, j ∈ cm_queue s -> j <> i -> j ∈ queue).
  { unfold queue. destruct (find_index i (cm_queue s)) as [k|] eqn:Ek; [|done].
    unfold find_index in Ek. apply fmap_Some in Ek as ([k' x] & Ek & ->). apply list_find_Some in Ek as (Hk' & <- & _).
    split; [|intros j; by apply elem_of_delete_ne]. intros j Hj. cbn in Hj.
    rewrite (delete_Permutation _ _ _ Hk'). by apply elem_of_cons; right. }
  destruct Hsub as [Hsub Hkeep].
  split; cbn; [done| |auto|done| |done].
  - intros j. case_bool_decide as Hc; [done|]. intros Hj. apply Hkeep; [auto|congruence].
  - intros b Hb. destruct (Hk b Hb) as [Hb0|(j & ch0 & Hj & Hin0 & Hjor)]; [by left|].
    destruct (decide (j = i)) as [->|Hne].
    + rewrite Hi in Hj. injection Hj as <-. destruct Hor as [Hf|Hs]; [|left; by apply Hs]. right. exists i, ch. by split_and!; [| |right].
    + right. exists j, ch0. split; [done|]. split; [done|]. destruct Hjor; [left; by apply Hkeep|by right].
Qed.

Lemma fully_pending ch k : fully ch -> cn_pending ch !! k = None.
Proof.
  intros [Hf _]. apply andb_true_iff in Hf as [_ Hf]. apply Z.eqb_eq in Hf.
  assert (Hz : size (cn_pending ch) = 0%nat) by lia. apply map_size_empty_iff in Hz. by rewrite Hz.
Qed.

Lemma manager_TxFailed s added sent k s' r : manager_ok s added sent -> cm_TxFailed k s = (s', r) ->
  r = Ok tt /\ manager_ok s' added sent.
Proof using All.
  intros Hok Hrun. unfold cm_TxFailed in Hrun. destruct (cm_txChannels s !! k) as [i|] eqn:Ek; [|by injection Hrun as <- <-].
  destruct (mo_tx _ _ _ Hok _ _ Ek) as [ch Hi]. unfold on_channel in Hrun. cbn [cm_set_tx cm_store] in Hrun. rewrite Hi in Hrun.
  pose proof (mo_chans _ _ _ Hok) as Hch. rewrite Forall_lookup in Hch. destruct (Hch _ _ Hi) as (id & taken & Hid & Ht & Hc).
  destruct (cn_TxFailed k ch) as [ch' r'] eqn:Er. destruct (chan_TxFailed _ _ _ _ _ _ Hc Er) as (-> & Hbl & Hsame & taken' & Hsub & Hc').
  cbn [cm_closed cm_set_tx] in Hrun. rewrite (mo_open _ _ _ Hok) in Hrun. injection Hrun as <- <-. split; [done|].
  rewrite <- (mo_open _ _ _ Hok). apply (manager_update s added sent sent i ch ch'); try done.
  - exists id, taken'. split; [done|]. split; [set_solver|done].
  - by rewrite Hbl.
  - intros Hf. right. rewrite Hsame; [done|by apply fully_pending].
  - intros k' j Hj. apply lookup_delete_Some in Hj as [_ Hj]. by eapply (mo_tx _ _ _ Hok).
Qed.

Lemma manager_TxConfirmed s added sent k incl s' r : manager_ok s added sent -> cm_TxConfirmed cfg k incl s = (s', r) ->
  r = Ok tt /\ manager_ok s' added sent.
Proof using All.
  intros Hok Hrun. unfold cm_TxConfirmed in Hrun. destruct (cm_txChannels s !! k) as [i|] eqn:Ek; [|by injection Hrun as <- <-].
  destruct (mo_tx _ _ _ Hok _ _ Ek) as [ch Hi]. unfold on_channel in Hrun. cbn [cm_set_tx cm_store] in Hrun. rewrite Hi in Hrun.
  pose proof (mo_chans _ _ _ Hok) as Hch. rewrite Forall_lookup in Hch. destruct (Hch _ _ Hi) as (id & taken & Hid & Ht & Hc).
  destruct (cn_TxConfirmed cfg k incl ch) as [ch' [fin blocks]] eqn:Er.
  destruct (chan_TxConfirmed _ _ _ _ _ _ _ _ Hc Er) as (Hbl & Hsame & Hblocks & Hfin & Hc').
  injection Hrun as <- <-. split; [done|].
  assert (Hok1 : manager_ok (mkManager (cm_blocks s) (cm_tip s) (<[i := ch']> (cm_store s)) (cm_current s) (cm_queue s)
    (delete k (cm_txChannels s)) (cm_closed s)) added sent).
  { apply (manager_update s added sent sent i ch ch'); try done.
    - by exists id, taken.
    - by rewrite Hbl.
    - intros Hf. right. destruct Hsame as [-> _]; [by apply fully_pending|done].
    - intros k' j Hj. apply lookup_delete_Some in Hj as [_ Hj]. by eapply (mo_tx _ _ _ Hok). }
  assert (Hok2 : manager_ok (cm_set_blocks (blocks ++ cm_blocks s) (mkManager (cm_blocks s) (cm_tip s) (<[i := ch']> (cm_store s))
    (cm_current s) (cm_queue s) (delete k (cm_txChannels s)) (cm_closed s))) added sent).
  { destruct Hok1 as [H1 H2 H3 H4 H5 H6]. split; try done. intros b Hb. destruct (H5 b Hb) as [?|?]; [|by right].
    left. cbn in *. apply elem_of_app. by right. }
  assert (Hi' : <[i := ch']> (cm_store s) !! i = Some ch') by (apply list_lookup_insert_eq; by eapply lookup_lt_Some).
  destruct fin; [|exact Hok2]. apply (manager_remove _ _ _ i ch'); [exact Hok2|exact Hi'|].
  destruct (Hfin eq_refl) as [Ht0|[Hs Ht0]]; [right|left; by split].
  rewrite Hblocks, Ht0, Hbl. cbn. set_solver.
Qed.

(** Handing out the next frame of a channel. *)
Lemma manager_next s added sent i s' r : manager_ok s added sent -> i ∈ cm_queue s ->
  cm_nextTxData (Some i) s = (s', r) ->
  (r = Err EOF /\ s' = s) \/ exists f, r = Ok f /\ manager_ok s' added (f :: sent).
Proof using All.
  intros Hok Hin Hrun. destruct (mo_queue _ _ _ Hok _ Hin) as [ch Hi]. unfold cm_nextTxData in Hrun. rewrite Hi in Hrun. cbn in Hrun.
  destruct (cn_HasFrame ch) eqn:Eh; [|injection Hrun as <- <-; by left].
  unfold on_channel in Hrun. rewrite Hi in Hrun. destruct (cn_NextTxData ch) as [ch' [f|e]] eqn:En.
  2: { unfold cn_NextTxData, bu_NextFrame in En. unfold cn_HasFrame, bu_HasFrame in Eh. by destruct (bu_frames (cn_builder ch)). }
  injection Hrun as <- <-. right. exists f. split; [done|].
  pose proof (mo_chans _ _ _ Hok) as Hch. rewrite Forall_lookup in Hch. destruct (Hch _ _ Hi) as (id & taken & Hid & Ht & Hc).
  destruct (chan_NextTxData _ _ _ _ _ Hc En) as [Hbl Hc'].
  apply (manager_update s added sent (f :: sent) i ch ch'); try done.
  - set_solver.
  - exists id, (f :: taken). split; [done|]. split; [set_solver|done].
  - by rewrite Hbl.
  - by left.
  - intros k j Hj. cbn in Hj. apply lookup_insert_Some in Hj as [[_ <-]|[_ Hj]]; [by eexists|]. by eapply (mo_tx _ _ _ Hok).
Qed.

Lemma manager_ensure s added sent co s' r : manager_ok s added sent -> fresh co ->
  ensureChannelWithSpace (Ok co) s = (s', r) ->
  manager_ok s' added sent /\ cm_blocks s' = cm_blocks s /\
  exists i ch, cm_current s' = Some i /\ cm_store s' !! i = Some ch /\ cn_IsFull ch = false.
Proof using All.
  intros Hok Hco Hrun. unfold ensureChannelWithSpace in Hrun.
  destruct (match cm_current s with Some _ => _ | None => _ end) eqn:Ec.
  { injection Hrun as <- <-. split; [done|]. split; [done|]. destruct (cm_current s) as [i|]; [|done].
    destruct (cm_store s !! i) as [ch|] eqn:Ei; [|done]. exists i, ch. split; [done|]. split; [done|]. by apply negb_true_iff. }
  injection Hrun as <- <-. split; [|split; [done|]].
  - destruct Hok as [H1 H2 H3 H4 H5 H6].
    assert (Hin : forall j, is_Some (cm_store s !! j) -> is_Some ((cm_store s ++ [newChannel co]) !! j)).
    { intros j. rewrite !lookup_lt_is_Some, length_app. cbn. lia. }
    split; cbn; [| | |eauto| |done].
    + apply Forall_app. split; [done|]. constructor; [|done]. destruct (Hfresh co Hco) as (id & Hid & Hh).
      exists id, []. split; [done|]. split; [set_solver|]. split.
      * split; cbn; [|by rewrite map_to_list_empty|done|lia]. by apply (builder_run_ok _ _ cfg _ _ OL Hsize co id); [|constructor].
      * done.
    + intros i [= <-]. set_solver.
    + intros i Hi. apply elem_of_app in Hi as [Hi|Hi]; [auto|]. apply list_elem_of_singleton in Hi as ->.
      rewrite lookup_app_r, Nat.sub_diag by lia. by eexists.
    + intros b Hb. destruct (H5 b Hb) as [?|(i & ch & Hi & Hbl & Hor)]; [by left|right]. exists i, ch. cbn.
      split; [by apply lookup_app_l_Some|]. split; [done|]. destruct Hor; [left; set_solver|by right].
  - exists (length (cm_store s)), (newChannel co). cbn. split; [done|]. split; [|done].
    by rewrite lookup_app_r, Nat.sub_diag by lia.
Qed.

Lemma add_blocks_not_EOF blocks : forall n (ch ch' : channel (Out := Out)),
  add_blocks Keccak256Hash rlp_decode_jst cfg blocks n ch <> (ch', Err EOF).
Proof.
  induction blocks as [|block blocks IH]; intros n ch ch'; cbn [add_blocks]; [done|].
  destruct (on_builder _ ch) as [ch1 [info|e]].
  - destruct (cn_IsFull ch1); [done|apply IH].
  - destruct (as_ChannelFullError e); [done|]. intros [= _ He]. by destruct e.
Qed.

(** Handing out a frame does not change how many frames were written. *)
Lemma next_count i (s s' : channelManager (Out := Out)) r ch : cm_nextTxData (Some i) s = (s', r) -> cm_store s !! i = Some ch ->
  exists ch', cm_store s' !! i = Some ch' /\ bu_numFrames (cn_builder ch') = bu_numFrames (cn_builder ch).
Proof.
  intros Hrun Hi. unfold cm_nextTxData in Hrun. rewrite Hi in Hrun. cbn in Hrun.
  destruct (cn_HasFrame ch) eqn:Eh; [|injection Hrun as <- <-; by exists ch].
  unfold on_channel in Hrun. rewrite Hi in Hrun. unfold cn_NextTxData, bu_NextFrame in Hrun.
  pose proof (lookup_lt_Some _ _ _ Hi) as Hlt.
  destruct (bu_frames (cn_builder ch)); injection Hrun as <- <-; eexists; (split; [by apply list_lookup_insert_eq|done]).
Qed.

(** Blocks go into the current channel, and its frames are written. *)
Lemma manager_fill s added sent i ch ch1 ch2 n l1 r : manager_ok s added sent -> cm_current s = Some i ->
  cm_store s !! i = Some ch -> cn_IsFull ch = false ->
  add_blocks Keccak256Hash rlp_decode_jst cfg (cm_blocks s) 0 ch = (ch1, Ok n) ->
  on_builder (bu_OutputFrames cfg) (with_builder (bu_RegisterL1Block cfg l1) ch1) = (ch2, r) ->
  bu_numFrames (cn_builder ch2) < 65536 ->
  manager_ok (cm_set_blocks (drop n (cm_blocks s)) (mkManager (cm_blocks s) (cm_tip s) (<[i := ch2]> (cm_store s))
    (cm_current s) (cm_queue s) (cm_txChannels s) (cm_closed s))) added sent.
Proof using All.
  intros Hok Hcur Hi Hnf Hadd Hout Hcnt. pose proof (mo_chans _ _ _ Hok) as Hch. rewrite Forall_lookup in Hch.
  destruct (Hch _ _ Hi) as (id & taken & Hid & Ht & [Hc _]).
  destruct (chan_add_blocks _ _ _ _ _ _ _ Hc Hnf Hadd) as (Hb1 & k & -> & Hbl1).
  destruct (chan_output _ _ _ _ _ _ Hb1 Hout Hcnt) as (Hbl2 & Hok2). rewrite Hbl1 in Hbl2.
  pose proof (mo_current _ _ _ Hok _ Hcur) as Hin.
  apply (manager_blocks _ _ _ i ch2); [|cbn; apply list_lookup_insert_eq; by eapply lookup_lt_Some|done|].
  - apply (manager_update s added sent sent i ch ch2); try done.
    + by exists id, taken.
    + rewrite Hbl2. set_solver.
    + by left.
    + apply (mo_tx _ _ _ Hok).
  - cbn. intros b Hb. rewrite <- (take_drop k (cm_blocks s)) in Hb. rewrite Hbl2. set_solver.
Qed.

Lemma manager_TxData s added sent l1Head co s' r : manager_ok s added sent -> fresh co ->
  cm_TxData Keccak256Hash rlp_decode_jst cfg l1Head (Ok co) s = (s', r) ->
  Forall (fun ch => bu_numFrames (cn_builder ch) < 65536) (cm_store s') ->
  (r = Err EOF -> manager_ok s' added sent) /\ (forall f, r = Ok f -> manager_ok s' added (f :: sent)).
Proof using All.
  intros Hok Hco Hrun Hcnt.
  assert (Hnext : forall s0 i, manager_ok s0 added sent -> i ∈ cm_queue s0 -> cm_nextTxData (Some i) s0 = (s', r) ->
    (r = Err EOF -> manager_ok s' added sent) /\ (forall f, r = Ok f -> manager_ok s' added (f :: sent))).
  { intros s0 i H0 Hi Hr. destruct (manager_next _ _ _ _ _ _ H0 Hi Hr) as [[-> ->]|(f & -> & Hf)]; split; try done.
    by intros f' [= <-]. }
  unfold cm_TxData in Hrun. rewrite (mo_open _ _ _ Hok), orb_false_r in Hrun.
  destruct (find _ (cm_queue s)) as [i|] eqn:Ef; cbn in Hrun.
  { apply find_some in Ef as [Hi _]. apply list_elem_of_In in Hi. by eapply Hnext. }
  case_bool_decide as Hbl; [injection Hrun as <- <-; by split|].
  unfold mbind, stM_bind in Hrun.
  destruct (ensureChannelWithSpace (Ok co) s) as [s1 r1] eqn:E1.
  destruct (manager_ensure _ _ _ _ _ _ Hok Hco E1) as (Hok1 & _ & i & ch & Hcur & Hi & Hnf).
  destruct r1 as [[]|e]; [|unfold ensureChannelWithSpace in E1; by destruct (match cm_current s with Some _ => _ | None => _ end)].
  unfold current_channel in Hrun. rewrite Hcur in Hrun. unfold processBlocks, on_channel in Hrun. rewrite Hi in Hrun.
  destruct (add_blocks Keccak256Hash rlp_decode_jst cfg (cm_blocks s1) 0 ch) as [ch1 [n|e]] eqn:Ea.
  2: { injection Hrun as <- <-. split; [|done]. intros [= ->]. by apply add_blocks_not_EOF in Ea. }
  cbn [cm_set_blocks cm_store cm_blocks cm_tip cm_current cm_queue cm_txChannels cm_closed] in Hrun.
  pose proof (lookup_lt_Some _ _ _ Hi) as Hlt.
  rewrite (list_lookup_insert_eq _ _ _ Hlt) in Hrun. rewrite list_insert_insert_eq in Hrun.
  unfold cm_outputFrames, on_channel, wrapping in Hrun.
  cbn [cm_set_blocks cm_store cm_blocks cm_tip cm_current cm_queue cm_txChannels cm_closed] in Hrun.
  rewrite list_lookup_insert_eq in Hrun by done.
  destruct (on_builder (bu_OutputFrames cfg) (with_builder (bu_RegisterL1Block cfg (id_Number l1Head)) ch1)) as [ch2 r2] eqn:Eo.
  rewrite list_insert_insert_eq in Hrun.
  assert (Hfill : bu_numFrames (cn_builder ch2) < 65536 -> manager_ok (cm_set_blocks (drop n (cm_blocks s1))
    (mkManager (cm_blocks s1) (cm_tip s1) (<[i := ch2]> (cm_store s1)) (cm_current s1) (cm_queue s1) (cm_txChannels s1) (cm_closed s1))) added sent)
    by (intros; by eapply manager_fill).
  destruct r2 as [[]|e]; cbn [map_err] in Hrun.
  - cbn [cm_set_blocks cm_store cm_blocks cm_tip cm_current cm_queue cm_txChannels cm_closed] in Hfill.
    eapply (Hnext _ i); [apply Hfill|by apply (mo_current _ _ _ Hok1)|exact Hrun].
    apply next_count with (i := i) (ch := ch2) in Hrun as (ch' & Hi' & <-); [|cbn; by apply list_lookup_insert_eq].
    rewrite Forall_lookup in Hcnt. by apply (Hcnt i).
  - injection Hrun as <- <-. split; [|done]. intros He. destruct e; discriminate He.
Qed.

Lemma manager_run_ok s added sent : manager_run s added sent -> manager_ok s added sent.
Proof using All.
  induction 1 as [|s added sent _ IH|s added sent block s' _ IH Hrun|s added sent l1Head co s' f _ IH Hco Hrun Hcnt
    |s added sent l1Head co s' _ IH Hco Hrun Hcnt|s added sent k s' r _ IH Hrun|s added sent k incl s' r _ IH Hrun].
  - split; cbn; [constructor|done|set_solver|done|set_solver|done].
  - destruct IH as [H1 H2 H3 H4 H5 H6]. split; cbn; [done|done|set_solver|done|set_solver|done].
  - destruct IH as [H1 H2 H3 H4 H5 H6]. unfold cm_AddL2Block in Hrun. destruct (_ && _); [done|]. injection Hrun as <-.
    split; cbn; try done. intros b Hb. apply elem_of_app in Hb as [Hb|Hb].
    + destruct (H5 b Hb) as [?|?]; [left; cbn; set_solver|by right].
    + left. cbn. set_solver.
  - by eapply (manager_TxData _ _ _ _ _ _ _ IH Hco Hrun Hcnt).
  - by eapply (manager_TxData _ _ _ _ _ _ _ IH Hco Hrun Hcnt).
  - by eapply manager_TxFailed.
  - by eapply manager_TxConfirmed.
Qed.

(** All the frames of a channel that is done are in confirmed transactions. *)
Lemma fully_written sent ch : chan_good sent ch -> fully ch -> exists id taken, is_array 16 id /\ taken ⊆ sent /\
  (forall f, f ∈ taken -> is_Some (cn_confirmed ch !! fr_id f)) /\ bu_frames (cn_builder ch) = [] /\
  bu_numFrames (cn_builder ch) < 65536 /\ written id (cn_builder ch) taken.
Proof using All.
  intros (id & taken & Hid & Ht & [Hb Hfull]) [Hs Ho]. exists id, taken. split; [done|]. split; [done|].
  apply andb_true_iff in Hs as [Hf Hz]. apply Z.eqb_eq in Hz.
  assert (Hp : cn_pending ch = ∅) by (apply map_size_empty_iff; lia).
  split; [|split; [|split; [apply Hb|by apply Hfull]]].
  - intros f Hin. apply elem_of_keys. pose proof (ch_ids _ _ _ Hb) as Hids. rewrite Hp, map_to_list_empty in Hids. cbn in Hids.
    rewrite <- Hids. by apply list_elem_of_fmap_2.
  - destruct (bu_frames (cn_builder ch)); [done|cbn in Hz; lia].
Qed.
End InFlight.

(** ** What goes wrong *)

Section FrameSize.
Context `{B : BlockLib} `{E : EspressoLib} `{ZW : ZlibWriter} {Out : Type} `{CO : !ChannelOut Out}.
Context (represents : list (SingularBatch * Z) -> list bytes -> Prop)
  (holds_out : Out -> ChannelID -> list (SingularBatch * Z) -> list bytes -> out_status -> Prop)
  (OL : channel_out_laws represents holds_out).

(** [Check] lets a frame size of 23 pass, which is the overhead of a frame: a
    frame then has no data, and the loop that writes out a closed channel never
    ends. *)
Lemma min_frame_size_loops (cfg : ChannelConfig) (c : channelBuilder) (id : ChannelID) (bs : list (SingularBatch * Z))
  (parts : list bytes) (Hsize : cc_MaxFrameSize cfg = FrameV0OverHeadSize) (Htime : cc_SubSafetyMargin cfg <= cc_ChannelTimeout cfg)
  (Htype : cc_BatchType cfg <= SpanBatchType) (Hc : holds_out (bu_co c) id bs parts Ended) :
  cc_Check cfg = None /\ forall fuel, (all_loop cfg fuel c).2 = Err (GoPanic "infinite loop").
Proof.
  split.
  - unfold cc_Check. rewrite Hsize. destruct (Z.ltb_spec (cc_ChannelTimeout cfg) (cc_SubSafetyMargin cfg)); [lia|].
    destruct (Z.ltb_spec SpanBatchType (cc_BatchType cfg)); [lia|done].
  - intros fuel. revert c parts Hc. induction fuel as [|fuel IH]; intros c parts Hc; [done|]. cbn [all_loop].
    destruct (ol_output _ _ OL _ _ _ _ _ (cc_MaxFrameSize cfg) Hc ltac:(done) ltac:(unfold FrameV0OverHeadSize in *; lia))
      as (co' & d & Hrun & _ & _ & _ & Hco'). cbv zeta in Hrun. pose proof (ol_ready _ _ OL (bu_co c)).
    rewrite bool_decide_eq_false_2 in Hrun by lia. unfold outputFrame. rewrite Hrun. apply (IH _ (parts ++ [d])).
    unfold frame_out. cbn [FrameNumber]. by destruct (_ =? 65535).
Qed.
End FrameSize.

Section Requeue.
Context `{B : BlockLib} `{E : EspressoLib} {Out : Type} `{CO : !ChannelOut Out}.
Variable cfg : ChannelConfig.

(** The numbers of the blocks that include a channel's transactions. *)
Definition confirmed_numbers (ch : channel (Out := Out)) : list Z := map (fun p => id_Number p.2) (map_to_list (cn_confirmed ch)).

Lemma foldr_min_le (l : list Z) b x : x ∈ l -> foldr Z.min b l <= x.
Proof. induction 1 as [x l|x y l _ IH]; cbn; lia. Qed.

Lemma foldr_max_ge (l : list Z) b x : x ∈ l -> x <= foldr Z.max b l.
Proof. induction 1 as [x l|x y l _ IH]; cbn; lia. Qed.

Lemma foldr_min_mono (l l' : list Z) b : l ⊆ l' -> foldr Z.min b l' <= foldr Z.min b l.
Proof.
  induction l as [|x l IH]; intros Hs; cbn; [clear Hs; induction l'; cbn; lia|].
  apply Z.min_glb; [apply foldr_min_le, Hs, list_elem_of_here|apply IH; set_solver].
Qed.

Lemma foldr_max_mono (l l' : list Z) b : l ⊆ l' -> foldr Z.max b l <= foldr Z.max b l'.
Proof.
  induction l as [|x l IH]; intros Hs; cbn; [clear Hs; induction l'; cbn; lia|].
  apply Z.max_lub; [apply foldr_max_ge, Hs, list_elem_of_here|apply IH; set_solver].
Qed.

(** A channel that has timed out stays so when more transactions are confirmed. *)
Lemma isTimedOut_mono (ch ch' : channel (Out := Out)) : confirmed_numbers ch ⊆ confirmed_numbers ch' ->
  Forall is_u64 (confirmed_numbers ch') -> cn_isTimedOut cfg ch = true -> cn_isTimedOut cfg ch' = true.
Proof.
  intros Hs Hu. unfold cn_isTimedOut. fold (confirmed_numbers ch) (confirmed_numbers ch').
  pose proof (foldr_min_mono _ _ (2 ^ 64 - 1) Hs) as Hmin. pose proof (foldr_max_mono _ _ 0 Hs) as Hmax.
  destruct (confirmed_numbers ch) as [|x l] eqn:El; [done|].
  assert (Hx : x ∈ confirmed_numbers ch') by (apply Hs, list_elem_of_here).
  pose proof (foldr_min_le _ (2 ^ 64 - 1) _ (list_elem_of_here x l)) as Hx1.
  pose proof (foldr_max_ge _ 0 _ (list_elem_of_here x l)) as Hx2.
  assert (Hr : forall l0, Forall is_u64 l0 -> 0 <= foldr Z.min (2 ^ 64 - 1) l0 /\ foldr Z.max 0 l0 < 2 ^ 64).
  { intros l0. induction 1 as [|y l0 Hy _ IH]; cbn; [lia|]. unfold is_u64 in Hy. lia. }
  destruct (Hr _ Hu) as [Hlo Hhi]. destruct (confirmed_numbers ch') as [|y l'] eqn:El'; [set_solver|].
  rewrite !sub64_small by (unfold is_u64; lia). rewrite !Z.leb_le. lia.
Qed.

(** A confirmation that shows a channel timed out. *)
Lemma confirm_timed_out (ch : channel (Out := Out)) k b : is_Some (cn_pending ch !! k) ->
  cn_isTimedOut cfg (cn_TxConfirmed cfg k b ch).1 = true ->
  let ch' := (cn_TxConfirmed cfg k b ch).1 in
  cn_TxConfirmed cfg k b ch = (ch', (true, bu_blocks (cn_builder ch))) /\
  bu_blocks (cn_builder ch') = bu_blocks (cn_builder ch) /\ cn_pending ch' = delete k (cn_pending ch) /\
  cn_confirmed ch' = <[k := b]> (cn_confirmed ch).
Proof.
  intros [d Hd] Hout. cbv zeta. unfold cn_TxConfirmed in *. rewrite Hd in *.
  assert (Hb : bu_blocks (FramePublished cfg (id_Number b) (cn_builder ch)) = bu_blocks (cn_builder ch)).
  { unfold FramePublished. match goal with |- context [updateTimeout ?n ?e ?c0] => destruct (updateTimeout_same n e c0) as (t & rs & ->) end. done. }
  set (ch1 := mkChannelTx _ _ _) in *.
  destruct (cn_isTimedOut cfg ch1) eqn:Et; [cbn; by rewrite Hb|].
  destruct (cn_isFullySubmitted ch1); cbn in Hout; congruence.
Qed.

Lemma confirm_numbers (ch : channel (Out := Out)) k b : is_Some (cn_pending ch !! k) -> cn_confirmed ch !! k = None ->
  confirmed_numbers (cn_TxConfirmed cfg k b ch).1 ≡ₚ id_Number b :: confirmed_numbers ch.
Proof.
  intros [d Hd] Hk. unfold confirmed_numbers, cn_TxConfirmed. rewrite Hd. set (ch1 := mkChannelTx _ _ _).
  assert (E1 : cn_confirmed ch1 = <[k := b]> (cn_confirmed ch)) by done.
  destruct (cn_isTimedOut cfg ch1), (cn_isFullySubmitted ch1); cbn [fst]; rewrite E1, map_to_list_insert by done; done.
Qed.

(** The manager passes a confirmation on to the channel that sent it. *)
Lemma manager_confirms (s : channelManager) i (ch : channel (Out := Out)) k b ch' blocks : cm_store s !! i = Some ch ->
  cm_txChannels s !! k = Some i -> cn_TxConfirmed cfg k b ch = (ch', (true, blocks)) ->
  let s' := (cm_TxConfirmed cfg k b s).1 in
  cm_blocks s' = blocks ++ cm_blocks s /\ cm_store s' !! i = Some ch' /\ cm_txChannels s' = delete k (cm_txChannels s).
Proof.
  intros Hi Hk E1. cbv zeta. unfold cm_TxConfirmed, on_channel. rewrite Hk. cbn [cm_set_tx cm_store]. rewrite Hi, E1. cbn.
  split; [done|]. split; [|done]. apply list_lookup_insert_eq. by eapply lookup_lt_Some.
Qed.

(** When a channel has timed out its blocks go back to the queue of
    blocks, but its other transactions are still known: a confirmation of one
    of them puts the same blocks into the queue once more. *)
Lemma late_confirmation_requeues (s : channelManager) (i : nat) (ch : channel (Out := Out)) (k1 k2 : frameID) (b1 b2 : BlockID)
  (Hi : cm_store s !! i = Some ch) (H1 : cm_txChannels s !! k1 = Some i) (H2 : cm_txChannels s !! k2 = Some i)
  (Hne : k1 <> k2) (Hp1 : is_Some (cn_pending ch !! k1)) (Hp2 : is_Some (cn_pending ch !! k2))
  (Hnum : Forall is_u64 (id_Number b1 :: id_Number b2 :: confirmed_numbers ch)) 
  (Hc1 : cn_confirmed ch !! k1 = None) (Hc2 : cn_confirmed ch !! k2 = None)
  (Hout : cn_isTimedOut cfg (cn_TxConfirmed cfg k1 b1 ch).1 = true) :
  let s1 := (cm_TxConfirmed cfg k1 b1 s).1 in
  let s2 := (cm_TxConfirmed cfg k2 b2 s1).1 in
  cm_blocks s1 = bu_blocks (cn_builder ch) ++ cm_blocks s /\
  cm_blocks s2 = bu_blocks (cn_builder ch) ++ bu_blocks (cn_builder ch) ++ cm_blocks s.
Proof.
  set (ch1 := (cn_TxConfirmed cfg k1 b1 ch).1) in *.
  destruct (confirm_timed_out ch k1 b1 Hp1 Hout) as (E1 & Hbl1 & Hpend1 & Hcf1). fold ch1 in E1, Hbl1, Hpend1, Hcf1.
  destruct (manager_confirms s i ch k1 b1 ch1 _ Hi H1 E1) as (Hs1 & Hi1 & Ht1).
  set (s1 := (cm_TxConfirmed cfg k1 b1 s).1) in *.
  assert (Hp2' : is_Some (cn_pending ch1 !! k2)) by (by rewrite Hpend1, lookup_delete_ne).
  assert (Hout2 : cn_isTimedOut cfg (cn_TxConfirmed cfg k2 b2 ch1).1 = true).
  { apply (isTimedOut_mono ch1); [..|exact Hout].
    - rewrite confirm_numbers by (done || by rewrite Hcf1, lookup_insert_ne). set_solver.
    - rewrite confirm_numbers by (done || by rewrite Hcf1, lookup_insert_ne).
      unfold ch1. rewrite confirm_numbers by done. rewrite !Forall_cons in Hnum |- *. naive_solver. }
  destruct (confirm_timed_out ch1 k2 b2 Hp2' Hout2) as (E2 & _).
  destruct (manager_confirms s1 i ch1 k2 b2 _ _ Hi1 ltac:(by rewrite Ht1, lookup_delete_ne) E2) as (Hs2 & _).
  cbv zeta. fold s1. by rewrite Hs2, Hs1, Hbl1.
Qed.
End Requeue.

(** ** Through L1 and back *)

Section Roundtrip.
Context `{B : BlockLib} `{E : EspressoLib} `{ZW : ZlibWriter} {AccessList : Type} `{L : TxLib (AccessList := AccessList)} `{Ch : !ChannelLib}.
Context {C : Type} `{CC : Compressor C} (has : C -> bytes -> bytes -> bool -> Prop) (CL : compressor_laws C has).
Variable Keccak256Hash : bytes -> Hash.
Variable rlp_decode_jst : bytes -> res L2BatchJustification.

(** What the codecs owe the batcher: a reader of a flushed or closed zlib
    stream sees the items that were written, and singular batches decode back. *)
Record reader_laws : Prop := {
  rd_stream : forall items out, deflated (rlp_items items) out -> blen (rlp_items items) <= MaxRLPBytesPerChannel ->
    exists r, zlib_open out = Ok r /\ holds r items;
  rd_singular : forall b x, rlp_encode_singular b = Ok x -> rlp_decode_singular x = Ok b;
  rd_string : forall b, blen b <= blen (rlp_string b);
}.

(** The frames of the channel arrive in the L1 transactions [txs], and the
    channel reads as the compressed stream [r]. *)
Definition arrives (id : ChannelID) (openBlock : L1BlockRef) (txs : list (bytes * L1BlockRef)) (r : rlp_reader) : Prop :=
  exists frames data, Forall2 (fun tx f => ParseFrames tx.1 = Ok [f]) txs frames /\
    let ch := ingest (NewChannel id openBlock) (zip frames (map snd txs)) in
    IsReady ch = true /\ Reader ch = Ok data /\ zlib_open data = Ok r.

Lemma singular_items_decodable (R : reader_laws) bs items : singular_items bs items ->
  decodable items = map (fun b => SingularData b.1) bs.
Proof.
  induction 1 as [|b x bs items Hx _ IH]; [done|]. cbn [decodable map].
  unfold encodeTyped in Hx. apply res_bind_ok in Hx as (inner & Hi & Hx). apply Ok_inj in Hx. subst x.
  cbn [GetBatchType decodeTyped]. unfold decodeTyped. rewrite Z.eqb_refl, (rd_singular R _ _ Hi). cbn [fmap res_fmap].
  by rewrite IH.
Qed.

(** A builder that has written its whole channel: what the verifier reads. *)
Lemma singular_back (cfg : ChannelConfig) (R : reader_laws) (id : ChannelID) (c : channelBuilder (Out := SingularChannelOut))
  (taken : list frameData) (openBlock : L1BlockRef) (txs : list (bytes * L1BlockRef)) :
  cc_MaxFrameSize cfg <= MaxFrameLen + FrameV0OverHeadSize -> is_array 16 id -> bu_frames c = [] -> bu_numFrames c <= 65536 ->
  written Keccak256Hash rlp_decode_jst cfg (so_holds has) id c taken -> map fst txs ≡ₚ map txData_Bytes taken ->
  exists bs r items, Forall2 (block_batch Keccak256Hash rlp_decode_jst) (bu_blocks c) bs /\
    arrives id openBlock txs r /\ holds r items /\ decodable items = map (fun b => SingularData b.1) bs.
Proof using CL.
  intros Hmax Hid Hall Hcount (bs & parts & Hinv & Hz & Hne) Htxs. pose proof (singular_out_laws has CL) as OL.
  destruct (channel_arrives _ _ cfg _ _ OL id taken bs parts c openBlock txs Hinv Hall Hcount Hne Hz Hid Hmax Htxs)
    as (frames & Hparse & Hready & Hread & items & Hit & Hd & Hl).
  destruct (rd_stream R _ _ Hd Hl) as (r & Hopen & Hholds).
  exists bs, r, items. split; [by apply (bi_blocks _ _ _ _ _ _ _ _ _ _ _ Hinv)|].
  split; [by exists frames, (concat parts)|]. split; [done|]. by apply singular_items_decodable.
Qed.

(** A channel of singular batches: once the builder has closed it, the
    transactions that carry its frames, included on L1 in any order, make the
    verifier's channel ready, and what the verifier reads out of it are the
    batches of exactly the blocks that were added, in their order. *)
Lemma batcher_singular_roundtrip (cfg : ChannelConfig) (R : reader_laws) (id : ChannelID) (compress : C)
  (Hsize : FrameV0OverHeadSize < cc_MaxFrameSize cfg <= MaxFrameLen + FrameV0OverHeadSize)
  (Hnew : has compress [] [] false) (Hid : is_array 16 id) (c : channelBuilder) (taken : list frameData)
  (Hrun : builder_run Keccak256Hash rlp_decode_jst cfg (NewSingularChannelOut compress id) c taken)
  (Hclosed : so_closed (bu_co c) = true) (Hall : bu_frames c = []) (Hcount : bu_numFrames c <= 65536)
  (openBlock : L1BlockRef) (txs : list (bytes * L1BlockRef)) (Htxs : map fst txs ≡ₚ map txData_Bytes taken) :
  exists bs r items, Forall2 (block_batch Keccak256Hash rlp_decode_jst) (bu_blocks c) bs /\
    arrives id openBlock txs r /\ holds r items /\ decodable items = map (fun b => SingularData b.1) bs.
Proof.
  pose proof (singular_out_laws has CL) as OL. unfold MaxFrameLen, FrameV0OverHeadSize in *.
  destruct (builder_run_ok _ _ cfg _ _ OL ltac:(unfold FrameV0OverHeadSize; lia) _ id c taken (so_holds_new has id compress Hnew) Hrun)
    as (bs & parts & st & Hinv & Hfull & Hend).
  assert (st = Ended) as ->.
  { destruct (bi_co _ _ _ _ _ _ _ _ _ _ _ Hinv) as (_ & _ & Hc & _). rewrite Hclosed in Hc. symmetry in Hc.
    by apply bool_decide_eq_true in Hc. }
  rewrite bool_decide_eq_true_2 in Hinv by done. destruct (Hend eq_refl) as [Hz Hne].
  apply (singular_back cfg R id c taken); [unfold MaxFrameLen, FrameV0OverHeadSize; lia|done..| |done]. by exists bs, parts.
Qed.

(** A new channel of singular batches. *)
Definition fresh_singular (co : SingularChannelOut) : Prop :=
  exists compress id, has compress [] [] false /\ is_array 16 id /\ co = NewSingularChannelOut compress id.

(** The frames of a channel that was confirmed in time were all sent, and on
    L1, in any order, they give the verifier the channel's blocks. *)
Definition delivered (cfg : ChannelConfig) (sent : list frameData) (ch : channel (Out := SingularChannelOut (C := C))) : Prop :=
  cn_isTimedOut cfg ch = false /\ exists id taken, taken ⊆ sent /\
    (forall f, f ∈ taken -> is_Some (cn_confirmed ch !! fr_id f)) /\
    forall openBlock txs, map fst txs ≡ₚ map txData_Bytes taken ->
      exists bs r items, Forall2 (block_batch Keccak256Hash rlp_decode_jst) (bu_blocks (cn_builder ch)) bs /\
        arrives id openBlock txs r /\ holds r items /\ decodable items = map (fun b => SingularData b.1) bs.

(** C14. The manager loses no block: whatever transactions fail, are confirmed
    late or in any order, every block it was given since it was last cleared
    waits to be added, or is in a channel that is still in the queue, or in a
    channel that was delivered. *)
Theorem manager_keeps_blocks (cfg : ChannelConfig) (R : reader_laws)
  (Hsize : FrameV0OverHeadSize < cc_MaxFrameSize cfg <= MaxFrameLen + FrameV0OverHeadSize)
  (s : channelManager) (added : list Block) (sent : list frameData)
  (Hrun : manager_run Keccak256Hash rlp_decode_jst cfg fresh_singular s added sent) (b : Block) (Hb : b ∈ added) :
  b ∈ cm_blocks s \/
  exists i ch, cm_store s !! i = Some ch /\ b ∈ bu_blocks (cn_builder ch) /\ (i ∈ cm_queue s \/ delivered cfg sent ch).
Proof.
  pose proof (singular_out_laws has CL) as OL. unfold MaxFrameLen, FrameV0OverHeadSize in *.
  assert (Hs : FrameV0OverHeadSize < cc_MaxFrameSize cfg < 2 ^ 63) by (unfold FrameV0OverHeadSize; lia).
  assert (Hf : forall co, fresh_singular co -> exists id, is_array 16 id /\ so_holds has co id [] [] Adding).
  { intros co (compress & id & Hh & Hid & ->). exists id. split; [done|]. by apply so_holds_new. }
  pose proof (manager_run_ok _ _ cfg _ _ OL Hs _ Hf _ _ _ Hrun) as Hok.
  destruct (mo_kept _ _ _ _ _ _ _ Hok b Hb) as [?|(i & ch & Hi & Hin & [Hq|Hfull])]; [by left|..]; right; exists i, ch;
    (split; [done|]; split; [done|]); [by left|right].
  pose proof (mo_chans _ _ _ _ _ _ _ Hok) as Hch. rewrite Forall_lookup in Hch.
  destruct (fully_written _ _ cfg _ _ OL Hs _ Hf _ _ (Hch _ _ Hi) Hfull) as (id & taken & Hid & Ht & Hc & He & Hn & Hw).
  split; [apply Hfull|]. exists id, taken. split; [done|]. split; [done|]. intros openBlock txs Htxs.
  apply (singular_back cfg R id _ taken); try done; [unfold MaxFrameLen, FrameV0OverHeadSize; lia|lia].
Qed.

Lemma block_batch_inj b p q : block_batch Keccak256Hash rlp_decode_jst b p -> block_batch Keccak256Hash rlp_decode_jst b q -> p = q.
Proof. intros (i & H1 & E1) (j & H2 & E2). destruct p, q. cbn in *. rewrite H1 in H2. injection H2 as -> ->. by subst. Qed.

Lemma block_batches_inj blocks ps : Forall2 (block_batch Keccak256Hash rlp_decode_jst) blocks ps -> forall qs,
  Forall2 (block_batch Keccak256Hash rlp_decode_jst) blocks qs -> ps = qs.
Proof.
  induction 1 as [|b p blocks ps Hp _ IH]; intros qs Hq; inversion Hq as [|? q ? qs' Hq1 Hq2]; subst; [done|].
  f_equal; [by eapply block_batch_inj|by apply IH].
Qed.

(** Appending the batches one by one builds the span of all of them. *)
Lemma span_built_batches genesis chainID bs : bs <> [] ->
  bd_spanBatch (span_built genesis chainID bs) = NewSpanBatch (map fst bs) /\ is_bit (bd_originChangedBit (span_built genesis chainID bs)).
Proof.
  induction bs as [|[b n] bs IH] using rev_ind; intros Hne; [done|]. rewrite span_built_snoc.
  destruct bs as [|p bs]; [cbn; split; [done|]; destruct (n =? 0); [by right|by left]|].
  destruct IH as [IH Hbit]; [done|]. cbn [bd_AppendSingularBatch bd_spanBatch bd_originChangedBit].
  pose proof (span_built_count genesis chainID (p :: bs)) as Hcount. cbn [length] in Hcount.
  destruct (Z.eqb_spec (bd_GetBlockCount (span_built genesis chainID (p :: bs))) 0); [lia|]. split; [|done].
  rewrite IH. unfold NewSpanBatch, AppendSingularBatch. rewrite map_app. cbn [map fst app].
  rewrite app_comm_cons, last_snoc.
  destruct (last (p.1 :: map fst bs)) as [z|] eqn:Ez; [|by apply last_None in Ez]. cbn. by rewrite map_app.
Qed.

(** C15. A channel of a span batch: under the same conditions the verifier
    reads one item out of the channel, a span batch from which it derives the
    blocks that were added, in their order, with their timestamps, epochs,
    transactions and checks. *)
Theorem batcher_span_roundtrip (cfg : ChannelConfig) (R : reader_laws) (W : tx_laws) (blockTime genesis chainID : Z)
  (id : ChannelID) (compress : C)
  (Hsize : FrameV0OverHeadSize < cc_MaxFrameSize cfg <= MaxFrameLen + FrameV0OverHeadSize)
  (Hchain : 0 <= chainID /\ 2 * chainID + 36 < 2 ^ 64)
  (Hnew : has compress [] [] false) (Hid : is_array 16 id) (c : channelBuilder) (taken : list frameData)
  (Hrun : builder_run Keccak256Hash rlp_decode_jst cfg
            (NewSpanChannelOut compress (NewSpanBatchBuilder genesis chainID) id) c taken)
  (Hclosed : po_closed (bu_co c) = true) (Hall : bu_frames c = []) (Hcount : bu_numFrames c <= 65536)
  (bs : list (SingularBatch * Z)) (first : spanBatchElement)
  (Hbs : Forall2 (block_batch Keccak256Hash rlp_decode_jst) (bu_blocks c) bs)
  (Hwf : span_wf blockTime genesis (NewSpanBatch (map fst bs)) first)
  (openBlock : L1BlockRef) (txs : list (bytes * L1BlockRef)) (Htxs : map fst txs ≡ₚ map txData_Bytes taken) :
  exists r x raw, arrives id openBlock txs r /\ holds r [x] /\ decodeTyped x = Ok (SpanData raw) /\
    derive raw blockTime genesis chainID = Ok (NewSpanBatch (map fst bs)).
Proof.
  pose proof (span_out_laws has CL genesis chainID) as OL. unfold MaxFrameLen, FrameV0OverHeadSize in *.
  destruct (builder_run_ok _ _ cfg _ _ OL ltac:(unfold FrameV0OverHeadSize; lia) _ id c taken
    (po_holds_new has genesis chainID id compress Hnew) Hrun) as (bs' & parts & st & Hinv & Hfull & Hend).
  assert (st = Ended) as ->.
  { destruct (bi_co _ _ _ _ _ _ _ _ _ _ _ Hinv) as (_ & _ & Hc & _). rewrite Hclosed in Hc. symmetry in Hc.
    by apply bool_decide_eq_true in Hc. }
  rewrite bool_decide_eq_true_2 in Hinv by done. destruct (Hend eq_refl) as [Hz Hne].
  destruct (channel_arrives _ _ cfg _ _ OL id taken bs' parts c openBlock txs Hinv Hall Hcount Hne Hz Hid
    ltac:(unfold MaxFrameLen, FrameV0OverHeadSize; lia) Htxs) as (frames & Hparse & Hready & Hread & items & Hit & Hd & Hl).
  destruct (rd_stream R _ _ Hd Hl) as (r & Hopen & Hholds).
  pose proof (bi_blocks _ _ _ _ _ _ _ _ _ _ _ Hinv) as Hbs'. rewrite (block_batches_inj _ _ Hbs' _ Hbs) in Hit.
  assert (Hn : bs <> []) by (intros ->; pose proof (sw_first _ _ _ _ Hwf) as Hh; discriminate Hh).
  destruct (span_built_batches genesis chainID bs Hn) as [Hspan Hbit].
  assert (Hx : exists raw x, bd_GetRawSpanBatch (span_built genesis chainID bs) = Ok raw /\ encodeTyped (SpanData raw) = Ok x /\ items = [x])
    by (by destruct bs).
  destruct Hx as (raw & x & Hraw & Hx & ->). rewrite rlp_items_one in Hl. pose proof (rd_string R x).
  unfold encodeTyped in Hx. cbn [mbind res_bind GetBatchType] in Hx. apply Ok_inj in Hx. subst x.
  assert (Hlen : blen (encode_raw raw) <= MaxSpanBatchSize).
  { unfold MaxSpanBatchSize, blen in *. cbn [length] in *. lia. }
  unfold bd_GetRawSpanBatch in Hraw. rewrite Hspan in Hraw.
  assert (Hparams : bd_genesisTimestamp (span_built genesis chainID bs) = genesis /\ bd_chainID (span_built genesis chainID bs) = chainID).
  { clear. induction bs as [|[b n] bs IH] using rev_ind; [done|]. by rewrite span_built_snoc. }
  destruct Hparams as [Eg Ec]. rewrite Eg, Ec in Hraw.
  destruct (span_back W blockTime genesis chainID _ _ first raw Hwf Hbit Hchain Hraw Hlen) as (raw' & Hdec & Hder).
  exists r, (SpanBatchType :: encode_raw raw), raw'. split; [by exists frames, (concat parts)|]. split; [done|]. split; [|done].
  unfold decodeTyped. change (SpanBatchType =? SingularBatchType) with false. rewrite Z.eqb_refl, Hdec. done.
Qed.
End Roundtrip.

(** ** Witnesses *)

#[local] Existing Instance ex_lib.
#[local] Existing Instance toy_lib.
#[local] Existing Instance toy_zlib.
#[local] Existing Instance ex_jst_eq.

(** Toy codecs: an item has its length in front, and a transaction its type. *)
#[local] Instance toy_blocks : BlockLib := {|
  EthTx := Z * bytes;
  etx_Type := fst;
  etx_Data := snd;
  etx_MarshalBinary := fun tx => Ok (tx.1 :: tx.2);
  rlp_string := fun b => Z.of_nat (length b) :: b;
|}.

Definition toy_batch (epoch ts : Z) : SingularBatch :=
  {| sb_ParentHash := hash_of (ts - 90); sb_EpochNum := epoch; sb_EpochHash := hash_of 7; sb_Timestamp := ts;
     sb_Transactions := []; sb_Justification := Some ex_jst |}.

#[local] Instance toy_batch_eq : EqDecision SingularBatch.
Proof. solve_decision. Defined.

#[local] Instance toy_stream : ChannelLib := {|
  rlp_reader := bytes;
  zlib_open := fun out => Ok (toy_get 0 out);
  stream_Bytes := toy_next;
  rlp_decode_singular := fun b => match b with [epoch; ts] => Ok (toy_batch epoch ts) | _ => Err (Errorf "toy") end;
  rlp_encode_singular := fun b => if decide (b = toy_batch (sb_EpochNum b) (sb_Timestamp b))
    then Ok [sb_EpochNum b; sb_Timestamp b] else Err (Errorf "toy");
|}.

Lemma toy_reader_laws : reader_laws.
Proof.
  split.
  - intros items out Hd _. exists (rlp_items items). split; [cbn; by rewrite (toy_inflate _ _ Hd)|]. clear Hd.
    induction items as [|x items IH]; cbn [holds].
    + by exists [], EOF.
    + exists (rlp_items items). split; [|exact IH]. cbn. unfold toy_next. cbn. by rewrite Nat2Z.id, take_app_length, drop_app_length.
  - intros b x. cbn. destruct (decide _) as [Hb|]; [|done]. intros Hx. apply Ok_inj in Hx. subst x. by rewrite <- Hb.
  - intros b. cbn. unfold blen. cbn [length]. lia.
Qed.

Definition toy_id : ChannelID := replicate 16 1.
Definition toy_block (n : Z) : Block :=
  {| bk_Hash := hash_of (22 + 2 * n); bk_ParentHash := hash_of (20 + 2 * n); bk_Number := n; bk_Time := 110 + 2 * n;
     bk_Transactions := [(DepositTxType, tail ex_info_tx)]; bk_Rejected := [] |}.
Definition toy_cfg : ChannelConfig := mkChannelConfig 3600 50 10 4 73 SingularBatchType.

#[local] Notation toy_run := (builder_run ex_keccak ex_rlp_decode toy_cfg).
#[local] Notation toy_add := (bu_AddBlock ex_keccak ex_rlp_decode toy_cfg).

(** Two blocks are added, the channel is closed and all of its frames are taken. *)
Definition toy_full {Out} `{!ChannelOut Out} (co : Out) : channelBuilder :=
  bu_Close (toy_add (toy_block 1) (toy_add (toy_block 0) (newChannelBuilder co)).1).1.

Fixpoint toy_drain {Out} `{!ChannelOut Out} (fuel : nat) (c : channelBuilder (Out := Out)) (taken : list frameData) : channelBuilder * list frameData :=
  match fuel with
  | O => (c, taken)
  | S fuel => match bu_NextFrame c with (c', Ok f) => toy_drain fuel c' (f :: taken) | (_, Err _) => (c, taken) end
  end.

Lemma toy_drain_run {Out} `{!ChannelOut Out} co0 fuel : forall (c : channelBuilder (Out := Out)) taken, toy_run co0 c taken ->
  toy_run co0 (toy_drain fuel c taken).1 (toy_drain fuel c taken).2.
Proof.
  induction fuel as [|fuel IH]; intros c taken H; cbn [toy_drain]; [done|].
  destruct (bu_NextFrame c) as [c' [f|e]] eqn:E; [|done]. apply IH. by eapply run_next.
Qed.

Lemma toy_full_run {Out} `{!ChannelOut Out} (co : Out) :
  is_ok (toy_add (toy_block 0) (newChannelBuilder co)).2 = true ->
  is_ok (toy_add (toy_block 1) (toy_add (toy_block 0) (newChannelBuilder co)).1).2 = true -> toy_run co (toy_full co) [].
Proof. intros H0 H1. apply run_close, run_add_ok; [apply run_add_ok; [constructor|exact H0]|exact H1]. Qed.

Definition toy_singular : SingularChannelOut := NewSingularChannelOut (NewRatioCompressor 1000) toy_id.
Definition toy_done {Out} `{!ChannelOut Out} (co : Out) := toy_drain 20 (bu_OutputFrames toy_cfg (toy_full co)).1 [].

Lemma toy_done_run {Out} `{!ChannelOut Out} (co : Out) :
  is_ok (toy_add (toy_block 0) (newChannelBuilder co)).2 = true ->
  is_ok (toy_add (toy_block 1) (toy_add (toy_block 0) (newChannelBuilder co)).1).2 = true ->
  toy_run co (toy_done co).1 (toy_done co).2.
Proof.
  intros H0 H1. exact (toy_drain_run co 20 _ [] (run_output_fst _ _ _ co (toy_full co) [] (toy_full_run co H0 H1))).
Qed.

Lemma batcher_singular_roundtrip_witness :
  exists r items, arrives toy_id zero_L1BlockRef (map (fun f => (txData_Bytes f, zero_L1BlockRef)) (toy_done toy_singular).2) r /\
    holds r items /\ decodable items = [SingularData (toy_batch 7 110); SingularData (toy_batch 7 112)].
Proof.
  destruct (batcher_singular_roundtrip rc_has (ratio_laws toy_zlib_laws) ex_keccak ex_rlp_decode toy_cfg toy_reader_laws toy_id
    (NewRatioCompressor 1000) ltac:(by vm_compute) zb_has_new ltac:(vm_decide) (toy_done toy_singular).1 (toy_done toy_singular).2)
    with (openBlock := zero_L1BlockRef) (txs := map (fun f => (txData_Bytes f, zero_L1BlockRef)) (toy_done toy_singular).2)
    as (bs & r & items & Hbs & Harr & Hh & Hdec).
  - apply toy_done_run; vm_compute; reflexivity.
  - vm_compute. reflexivity.
  - vm_compute. reflexivity.
  - vm_compute. discriminate.
  - rewrite map_map. done.
  - exists r, items. split; [done|]. split; [done|]. rewrite Hdec.
    assert (Hbl : bu_blocks (toy_done toy_singular).1 = [toy_block 0; toy_block 1]) by (vm_compute; reflexivity).
    rewrite Hbl in Hbs. inversion Hbs as [|? p ? ? (i0 & H0 & _) Hbs']; subst. inversion Hbs' as [|? q ? ? (i1 & H1 & _) Hn]; subst.
    inversion Hn; subst. destruct p as [p n], q as [q m]. vm_compute in H0, H1. injection H0 as <- _. injection H1 as <- _. reflexivity.
Defined.

Lemma OutputFrames_completes_witness :
  bu_IsFull (toy_full toy_singular) = true /\
  let '(c', r) := bu_OutputFrames toy_cfg (toy_full toy_singular) in
  (forall msg, r <> Err (GoPanic msg)) /\
  co_ReadyBytes (bu_co c') < (if bu_IsFull (toy_full toy_singular) then 1 else cc_MaxFrameSize toy_cfg) /\
  forall f, f ∈ bu_frames c' -> blen (fr_data f) <= cc_MaxFrameSize toy_cfg.
Proof.
  assert (Hrun : toy_run toy_singular (toy_full toy_singular) []) by (apply toy_full_run; vm_compute; reflexivity).
  split; [vm_compute; reflexivity|].
  exact (OutputFrames_completes ex_keccak ex_rlp_decode toy_cfg singular_items (so_holds rc_has)
    (singular_out_laws rc_has (ratio_laws toy_zlib_laws)) ltac:(by vm_compute) toy_singular toy_id (toy_full toy_singular) []
    ltac:(vm_decide) (so_holds_new rc_has toy_id (NewRatioCompressor 1000) zb_has_new) Hrun).
Defined.

(** A closed channel and a frame size that leaves no room for data. *)
Definition toy_small_cfg : ChannelConfig := mkChannelConfig 3600 50 10 4 23 SingularBatchType.
Definition toy_ended : SingularChannelOut := (so_Close toy_singular).1.

Lemma min_frame_size_loops_witness :
  cc_Check toy_small_cfg = None /\
  forall fuel, (all_loop toy_small_cfg fuel (newChannelBuilder toy_ended)).2 = Err (GoPanic "infinite loop").
Proof.
  apply (min_frame_size_loops singular_items (so_holds rc_has) (singular_out_laws rc_has (ratio_laws toy_zlib_laws)) toy_small_cfg
    (newChannelBuilder toy_ended) toy_id [] []); [done|by vm_compute|by vm_compute|].
  split; [done|]. split; [done|]. split; [done|]. exists []. split; [constructor|]. split; [by vm_compute|].
  by eapply deflated_Close; [constructor|..].
Defined.

(** ** A run of the manager: a block that fills its channel, three transactions. *)

Definition toy_one : SingularChannelOut := NewSingularChannelOut (NewRatioCompressor 1) toy_id.
#[local] Notation toy_TxData := (cm_TxData ex_keccak ex_rlp_decode toy_cfg zero_BlockID (Ok toy_one)).
Definition toy_m1 := (cm_AddL2Block (Out := SingularChannelOut (C := RatioCompressor)) (toy_block 0) NewChannelManager).1.
Definition toy_m2 := (toy_TxData toy_m1).1.
Definition toy_m3 := (toy_TxData toy_m2).1.
Definition toy_m4 := (toy_TxData toy_m3).1.
Definition toy_m5 := (cm_AddL2Block (toy_block 1) toy_m4).1.
Definition toy_frame (m : channelManager (Out := SingularChannelOut (C := RatioCompressor))) : frameData :=
  match toy_TxData m with (_, Ok f) => f | _ => mkFrameData [] (toy_id, 0) end.
Definition toy_confirm (n b : Z) (m : channelManager (Out := SingularChannelOut (C := RatioCompressor))) : channelManager :=
  (cm_TxConfirmed toy_cfg (toy_id, n) (mkBlockID (hash_of b) b) m).1.
Definition toy_m8 := toy_confirm 1 12 (toy_confirm 2 11 (toy_confirm 0 10 toy_m5)).

#[local] Notation toy_manager_run := (manager_run ex_keccak ex_rlp_decode toy_cfg (fresh_singular rc_has)).

Lemma toy_data_run m added sent : toy_manager_run m added sent -> (toy_TxData m).2 = Ok (toy_frame m) ->
  Forall (fun ch => bu_numFrames (cn_builder ch) < 65536) (cm_store (toy_TxData m).1) ->
  toy_manager_run (toy_TxData m).1 added (toy_frame m :: sent).
Proof.
  destruct (toy_TxData m) as [m' r] eqn:Er. cbn [fst snd]. intros H -> Hc. eapply mr_data; [exact H| |exact Er|exact Hc].
  exists (NewRatioCompressor 1), toy_id. split; [apply zb_has_new|]. split; [vm_decide|done].
Qed.

Lemma toy_add_run m added sent b : toy_manager_run m added sent -> (cm_AddL2Block b m).2 = Ok tt ->
  toy_manager_run (cm_AddL2Block b m).1 (added ++ [b]) sent.
Proof. destruct (cm_AddL2Block b m) as [m' r] eqn:Er. cbn [fst snd]. intros H ->. by eapply mr_add. Qed.

Lemma toy_confirm_run m added sent n b : toy_manager_run m added sent -> toy_manager_run (toy_confirm n b m) added sent.
Proof. intros H. eapply mr_confirmed; [exact H|]. unfold toy_confirm. apply surjective_pairing. Qed.

Lemma toy_m8_run : toy_manager_run toy_m8 [toy_block 0; toy_block 1] [toy_frame toy_m3; toy_frame toy_m2; toy_frame toy_m1].
Proof.
  assert (Hc : forall m, forallb (fun ch => bu_numFrames (cn_builder ch) <? 65536) (cm_store m) = true ->
    Forall (fun ch : channel (Out := SingularChannelOut (C := RatioCompressor)) => bu_numFrames (cn_builder ch) < 65536) (cm_store m)).
  { intros m H. rewrite forallb_forall in H. apply Forall_forall. intros ch Hch. apply Z.ltb_lt, H. by apply list_elem_of_In. }
  do 3 apply toy_confirm_run. apply (toy_add_run toy_m4 [toy_block 0]); [|vm_compute; reflexivity].
  apply (toy_data_run toy_m3); [|vm_compute; reflexivity|apply Hc; vm_compute; reflexivity].
  apply (toy_data_run toy_m2); [|vm_compute; reflexivity|apply Hc; vm_compute; reflexivity].
  apply (toy_data_run toy_m1); [|vm_compute; reflexivity|apply Hc; vm_compute; reflexivity].
  apply (toy_add_run NewChannelManager []); [constructor|reflexivity].
Qed.

Lemma manager_keeps_blocks_witness :
  exists i ch, cm_store toy_m8 !! i = Some ch /\ toy_block 0 ∈ bu_blocks (cn_builder ch) /\
    delivered ex_keccak ex_rlp_decode toy_cfg [toy_frame toy_m3; toy_frame toy_m2; toy_frame toy_m1] ch.
Proof.
  destruct (manager_keeps_blocks rc_has (ratio_laws toy_zlib_laws) ex_keccak ex_rlp_decode toy_cfg toy_reader_laws ltac:(by vm_compute)
    toy_m8 _ _ toy_m8_run (toy_block 0) ltac:(by left)) as [Hb|(i & ch & Hi & Hb & [Hq|Hd])].
  - exfalso. assert (Hw : cm_blocks toy_m8 = [toy_block 1]) by (vm_compute; reflexivity).
    rewrite Hw in Hb. apply list_elem_of_singleton in Hb. apply (f_equal bk_Number) in Hb. discriminate Hb.
  - exfalso. assert (Hw : cm_queue toy_m8 = []) by (vm_compute; reflexivity). rewrite Hw in Hq. by apply not_elem_of_nil in Hq.
  - exists i, ch. split; [exact Hi|]. split; [exact Hb|exact Hd].
Defined.

(** The second confirmation comes too late, and so does the third. *)
Definition toy_late := toy_confirm 0 10 toy_m4.
Definition toy_late_channel : channel := default (newChannel toy_one) (cm_store toy_late !! 0%nat).

Lemma late_confirmation_requeues_witness :
  bu_blocks (cn_builder toy_late_channel) = [toy_block 0] /\ cm_blocks toy_late = [] /\
  cm_blocks (toy_confirm 2 101 (toy_confirm 1 100 toy_late)) = [toy_block 0; toy_block 0].
Proof.
  assert (Hbl : bu_blocks (cn_builder toy_late_channel) = [toy_block 0] /\ cm_blocks toy_late = []) by (split; vm_compute; reflexivity).
  destruct Hbl as [Hb1 Hb2]. split; [exact Hb1|]. split; [exact Hb2|].
  assert (Hn : confirmed_numbers toy_late_channel = [10]) by (vm_compute; reflexivity).
  assert (Hu : Forall is_u64 (100 :: 101 :: confirmed_numbers toy_late_channel)) by (rewrite Hn; vm_decide).
  pose proof (late_confirmation_requeues toy_cfg toy_late 0 toy_late_channel (toy_id, 1) (toy_id, 2) (mkBlockID (hash_of 100) 100)
    (mkBlockID (hash_of 101) 101) ltac:(vm_compute; reflexivity) ltac:(vm_compute; reflexivity) ltac:(vm_compute; reflexivity)
    ltac:(discriminate) ltac:(vm_compute; by eexists) ltac:(vm_compute; by eexists) Hu
    ltac:(vm_compute; reflexivity) ltac:(vm_compute; reflexivity) ltac:(vm_compute; reflexivity)) as H.
  cbv zeta in H. destruct H as [_ H]. rewrite Hb1, Hb2 in H. exact H.
Defined.

(** ** The same two blocks in a span batch. *)

Definition toy_span : SpanChannelOut := NewSpanChannelOut (NewRatioCompressor 1000) (NewSpanBatchBuilder 100 10) toy_id.
Definition toy_batches : list (SingularBatch * Z) := [(toy_batch 7 110, 3); (toy_batch 7 112, 3)].

Lemma toy_span_wf : span_wf 2 100 (NewSpanBatch (map fst toy_batches)) {| el_EpochNum := 7; el_Timestamp := 110; el_Transactions := [] |}.
Proof.
  constructor; try done.
  - intros [|[|i]] el H; cbn in H; simplify_eq; cbn; lia.
  - repeat constructor; cbn; unfold is_u64; lia.
  - cbn. lia.
  - by repeat constructor.
Qed.

Lemma batcher_span_roundtrip_witness :
  bu_blocks (toy_done toy_span).1 = [toy_block 0; toy_block 1] /\
  exists r x raw, arrives toy_id zero_L1BlockRef (map (fun f => (txData_Bytes f, zero_L1BlockRef)) (toy_done toy_span).2) r /\
    holds r [x] /\ decodeTyped x = Ok (SpanData raw) /\ derive raw 2 100 10 = Ok (NewSpanBatch (map fst toy_batches)).
Proof.
  assert (Hchain : 0 <= 10 /\ 2 * 10 + 36 < 2 ^ 64) by lia.
  assert (Hsz : FrameV0OverHeadSize < cc_MaxFrameSize toy_cfg <= MaxFrameLen + FrameV0OverHeadSize) by (by vm_compute).
  assert (Hid : is_array 16 toy_id) by vm_decide.
  assert (Hbl : bu_blocks (toy_done toy_span).1 = [toy_block 0; toy_block 1]) by (vm_compute; reflexivity). split; [exact Hbl|].
  assert (Hbs : Forall2 (block_batch ex_keccak ex_rlp_decode) (bu_blocks (toy_done toy_span).1) toy_batches).
  { rewrite Hbl. repeat (constructor; [eexists; split; vm_compute; reflexivity|]). constructor. }
  assert (Hrun : toy_run toy_span (toy_done toy_span).1 (toy_done toy_span).2) by (apply toy_done_run; vm_compute; reflexivity).
  assert (Htx : map fst (map (fun f => (txData_Bytes f, zero_L1BlockRef)) (toy_done toy_span).2) ≡ₚ map txData_Bytes (toy_done toy_span).2)
    by (rewrite map_map; reflexivity).
  assert (Hclosed : po_closed (bu_co (toy_done toy_span).1) = true) by (vm_compute; reflexivity).
  assert (Hall : bu_frames (toy_done toy_span).1 = []) by (vm_compute; reflexivity).
  assert (Hcount : bu_numFrames (toy_done toy_span).1 <= 65536) by (vm_compute; discriminate).
  exact (batcher_span_roundtrip rc_has (ratio_laws toy_zlib_laws) ex_keccak ex_rlp_decode toy_cfg toy_reader_laws toy_laws 2 100 10
    toy_id (NewRatioCompressor 1000) Hsz Hchain zb_has_new Hid (toy_done toy_span).1 (toy_done toy_span).2 Hrun
    Hclosed Hall Hcount toy_batches _ Hbs toy_span_wf zero_L1BlockRef _ Htx).
Defined.
