(* ===== verification/Dispute.v ===== *)
(** * The challenger of the fault dispute game

    [op-challenger/game/fault]: positions in the bisection tree
    ([types/position.go]), claims and the state of a game ([types/types.go],
    [types/game.go], [types/actions.go]), the honest strategy
    ([solver/solver.go], [solver/game_solver.go], [solver/rules.go]), the agent
    that plays it ([agent.go], [loader.go], [player.go]). The trace of the
    program in dispute is an interface, [TraceProvider]; so is the chain the
    agent reads from and sends transactions to, [Chain]. *)

From S2P Require Import Prelude Eth.

(** ** Positions: [types/position.go]

    A [big.Int] is a [Z]. The nil index of the zero [Position] occurs only in
    values that are returned with an error. *)

Record Position := mkPosition {
  ps_depth : Z;
  ps_indexAtDepth : Z;
}.

#[export] Instance Position_eq_dec : EqDecision Position.
Proof. solve_decision. Defined.

Definition NewPosition (depth indexAtDepth : Z) : Position := mkPosition depth indexAtDepth.

(** The loop of [bigMSB]. It ends for every number that is not negative, and
    only for those: a negative number is shifted down to -1. *)
Fixpoint bigMSB_loop (fuel : nat) (x out : Z) : option Z :=
  match fuel with
  | O => None
  | S fuel => if x =? 0 then Some out else bigMSB_loop fuel (Z.shiftr x 1) (out + 1)
  end.

(** Positions come from the [uint128] of the contract: no number is negative,
    and one more turn than there are bits is enough ([bigMSB_log2]). *)
Definition bigMSB (x : Z) : Z :=
  if x =? 0 then 0
  else match bigMSB_loop (Z.to_nat (Z.log2 x) + 2) x 0 with Some out => out - 1 | None => 0 end.

Definition NewPositionFromGIndex (x : Z) : Position :=
  let depth := bigMSB x in
  let withoutMSB := Z.lnot (Z.shiftl 1 depth) in
  NewPosition depth (Z.land x withoutMSB).

Definition MoveRight (p : Position) : Position := mkPosition (ps_depth p) (ps_indexAtDepth p + 1).

Definition ErrPositionDepthTooSmall : go_error := Errorf "Position depth is too small".

(** [1 << n] in an [int] of 64 bits, as a signed number. *)
Definition int_shl1 (n : Z) : Z := (Z.shiftl 1 n + 2 ^ 63) mod 2 ^ 64 - 2 ^ 63.

(** [big.Int.Mod] is the Euclidean remainder, and panics for 0. *)
Definition big_Mod (x y : Z) : res Z :=
  if y =? 0 then Err (GoPanic "division by zero") else Ok (x mod (Z.abs y)).

Definition RelativeToAncestorAtDepth (p : Position) (ancestor : Z) : res Position :=
  if u64 (ps_depth p) <? ancestor then Err ErrPositionDepthTooSmall
  else
    let newPosDepth := u64 (ps_depth p) -₆₄ ancestor in
    let nodesAtDepth := int_shl1 newPosDepth in
    newIndexAtDepth ← big_Mod (ps_indexAtDepth p) nodesAtDepth;
    Ok (NewPosition newPosDepth newIndexAtDepth).

Definition IsRootPosition (p : Position) : bool := (ps_depth p =? 0) && (ps_indexAtDepth p =? 0).

(** [Lsh] by a negative number of bits, converted to [uint], is too long. *)
Definition lshIndex (p : Position) (amount : Z) : res Z :=
  if amount <? 0 then Err (GoPanic "makeslice: len out of range")
  else Ok (Z.shiftl (ps_indexAtDepth p) amount).

Definition TraceIndex (p : Position) (maxDepth : Z) : res Z :=
  let rd := maxDepth - ps_depth p in
  if rd <? 0 then Err (GoPanic "makeslice: len out of range")
  else
    let rhs := Z.shiftl 1 rd - 1 in
    shifted ← lshIndex p rd;
    Ok (Z.lor shifted rhs).

Definition boolToInt (b : bool) : Z := if b then 1 else 0.

Definition move_position (p : Position) (right : bool) : Position :=
  mkPosition (ps_depth p + 1) (Z.lor (Z.shiftl (ps_indexAtDepth p) 1) (boolToInt right)).

Definition parentIndexAtDepth (p : Position) : Z := ps_indexAtDepth p / 2.

Definition RightOf (p parent : Position) : bool := negb (parentIndexAtDepth p =? ps_indexAtDepth parent).

Definition parent_position (p : Position) : Position := mkPosition (ps_depth p - 1) (parentIndexAtDepth p).

Definition Attack (p : Position) : Position := move_position p false.

Definition Defend (p : Position) : Position := move_position (move_position (parent_position p) true) false.

Definition ToGIndex (p : Position) : Z := Z.lor (Z.shiftl 1 (ps_depth p)) (ps_indexAtDepth p).

(** ** Data: [types/types.go], [types/actions.go] *)

Record PreimageOracleData := mkPreimageOracleData {
  po_IsLocal : bool;
  po_LocalContext : Z;
  po_OracleKey : bytes;
  po_OracleData : bytes;
  po_OracleOffset : Z;
}.

Definition GetIdent (p : PreimageOracleData) : res Z :=
  match po_OracleKey p with
  | [] => Err (GoPanic "slice bounds out of range")
  | _ :: key => Ok (get_be key)
  end.

Definition GetPreimageWithoutSize (p : PreimageOracleData) : res bytes :=
  if blen (po_OracleData p) <? 8 then Err (GoPanic "slice bounds out of range") else Ok (drop 8 (po_OracleData p)).

Definition NewPreimageOracleData (lctx : Z) (key data : bytes) (offset : Z) : PreimageOracleData :=
  {| po_IsLocal := match key with k :: _ => k =? 1 | [] => false end;
     po_LocalContext := lctx; po_OracleKey := key; po_OracleData := data; po_OracleOffset := offset |}.

(** What a step is executed with: the pre-state, the proof and the preimage. *)
Definition StepInput : Type := bytes * bytes * option PreimageOracleData.

(** A trace provider answers a question the same way during one call. *)
Record TraceProvider := mkTraceProvider {
  tp_Get : Position -> res Hash;
  tp_GetStepData : Position -> res StepInput;
  tp_AbsolutePreState : res bytes;
  tp_AbsolutePreStateCommitment : res Hash;
}.

Record ClaimData := mkClaimData {
  cd_Value : Hash;
  cd_Position : Position;
}.

Record Claim := mkClaim {
  c_Data : ClaimData;
  c_Countered : bool;
  c_Clock : Z;
  c_ContractIndex : Z;
  c_ParentContractIndex : Z;
}.

Definition c_Value (c : Claim) : Hash := cd_Value (c_Data c).
Definition c_Position (c : Claim) : Position := cd_Position (c_Data c).
Definition Depth (c : Claim) : Z := ps_depth (c_Position c).
Definition IsRoot (c : Claim) : bool := IsRootPosition (c_Position c).

(** A claim that is not on chain yet: the fields the solver does not set are zero. *)
Definition newClaim (value : Hash) (position : Position) (parent : Z) : Claim :=
  {| c_Data := {| cd_Value := value; cd_Position := position |}; c_Countered := false; c_Clock := 0;
     c_ContractIndex := 0; c_ParentContractIndex := parent |}.

Inductive ActionType := ActionTypeMove | ActionTypeStep.
#[export] Instance ActionType_eq_dec : EqDecision ActionType.
Proof. solve_decision. Defined.

Record Action := mkAction {
  ac_Type : ActionType;
  ac_ParentIdx : Z;
  ac_IsAttack : bool;
  ac_Value : Hash;
  ac_PreState : bytes;
  ac_ProofData : bytes;
  ac_OracleData : option PreimageOracleData;
}.

(** ** The state of a game: [types/game.go] *)

Definition ErrClaimNotFound : go_error := Errorf "claim not found in game state".

(** [big.Int.Bytes]: the absolute value, big-endian, without leading zeros. *)
Definition big_Bytes (x : Z) : bytes :=
  if x =? 0 then [] else put_be (Z.to_nat (Z.log2 (Z.abs x) / 8 + 1)) (Z.abs x).

Record gameState := mkGameState {
  gs_agreeWithProposedOutput : bool;
  gs_claims : list Claim;
  gs_claimIDs : gmap Hash bool;
  gs_depth : Z;
}.

Section Game.
Variable Keccak256Hash : bytes -> Hash.

Definition claimID_preimage (c : Claim) : bytes :=
  big_Bytes (ToGIndex (c_Position c)) ++ c_Value c ++ big_Bytes (c_ParentContractIndex c).

Definition computeClaimID (c : Claim) : Hash := Keccak256Hash (claimID_preimage c).

Definition NewGameState (agreeWithProposedOutput : bool) (claims : list Claim) (depth : Z) : gameState :=
  {| gs_agreeWithProposedOutput := agreeWithProposedOutput;
     gs_claims := claims;
     gs_claimIDs := fold_left (fun ids claim => <[computeClaimID claim := true]> ids) claims ∅;
     gs_depth := depth |}.

(** Go's [%] truncates; the depth of a claim is never negative. *)
Definition AgreeWithClaimLevel (g : gameState) (claim : Claim) : bool :=
  let isOddLevel := Z.rem (Depth claim) 2 =? 1 in
  if gs_agreeWithProposedOutput g then isOddLevel else negb isOddLevel.

Definition IsDuplicate (g : gameState) (claim : Claim) : bool :=
  default false (gs_claimIDs g !! computeClaimID claim).

Definition getParent (g : gameState) (claim : Claim) : option Claim :=
  if IsRoot claim then None
  else if (Z.of_nat (length (gs_claims g)) <=? c_ParentContractIndex claim) || (c_ParentContractIndex claim <? 0) then None
  else gs_claims g !! Z.to_nat (c_ParentContractIndex claim).

Definition GetParent (g : gameState) (claim : Claim) : res Claim :=
  match getParent g claim with
  | None => Err ErrClaimNotFound
  | Some parent => Ok parent
  end.

Definition DefendsParent (g : gameState) (claim : Claim) : bool :=
  match getParent g claim with
  | None => false
  | Some parent => RightOf (c_Position claim) (c_Position parent)
  end.

(** ** The strategy: [solver/solver.go] *)

Definition ErrGameDepthReached : go_error := Errorf "game depth reached".
Definition ErrStepNonLeafNode : go_error := Errorf "cannot step on non-leaf claims".
Definition ErrStepIgnoreInvalidPath : go_error := Errorf "cannot step on claims that dispute invalid paths".

Section Solver.
Variable trace : TraceProvider.
Variable gameDepth : Z.

Definition traceAtPosition (p : Position) : res Hash := tp_Get trace p.

Definition agreeWithClaim (claim : ClaimData) : res bool :=
  ourValue ← traceAtPosition (cd_Position claim);
  Ok (bool_decide (ourValue = cd_Value claim)).

(** The recursion of [agreeWithClaimPath]. Each turn after the first is at a
    claim of the game; one that makes more turns than there are claims has
    come back to a claim and never ends. *)
Fixpoint agree_path (fuel : nat) (game : gameState) (claim : Claim) : res bool :=
  match fuel with
  | O => Err (GoPanic "stack overflow")
  | S fuel =>
      agree ← agreeWithClaim (c_Data claim);
      if negb agree then Ok false
      else if IsRoot claim then Ok true
      else
        parent ← map_err (Wrapf "failed to get parent of claim") (GetParent game claim);
        if IsRoot parent then Ok true
        else
          grandParent ← GetParent game parent;
          agree_path fuel game grandParent
  end.

Definition agreeWithClaimPath (game : gameState) (claim : Claim) : res bool :=
  agree_path (S (length (gs_claims game))) game claim.

Definition attack (claim : Claim) : res (option Claim) :=
  let position := Attack (c_Position claim) in
  value ← map_err (Wrapf "attack claim") (traceAtPosition position);
  Ok (Some (newClaim value position (c_ContractIndex claim))).

Definition defend (claim : Claim) : res (option Claim) :=
  if IsRoot claim then Ok None
  else
    let position := Defend (c_Position claim) in
    value ← map_err (Wrapf "defend claim") (traceAtPosition position);
    Ok (Some (newClaim value position (c_ContractIndex claim))).

Definition NextMove (claim : Claim) (game : gameState) : res (option Claim) :=
  if Depth claim =? gameDepth then Err ErrGameDepthReached
  else
    agreeWithParent ←
      (if negb (IsRoot claim) then
         parent ← GetParent game claim;
         agreeWithClaimPath game parent
       else Ok true);
    if negb agreeWithParent then Ok None
    else
      agree ← agreeWithClaim (c_Data claim);
      if agree : bool then defend claim else attack claim.

Record StepData := mkStepData {
  sd_LeafClaim : Claim;
  sd_IsAttack : bool;
  sd_PreState : bytes;
  sd_ProofData : bytes;
  sd_OracleData : option PreimageOracleData;
}.

Definition AttemptStep (game : gameState) (claim : Claim) : res StepData :=
  if negb (Depth claim =? gameDepth) then Err ErrStepNonLeafNode
  else
    parent ← GetParent game claim;
    parentValid ← agreeWithClaimPath game parent;
    if negb parentValid then Err ErrStepIgnoreInvalidPath
    else
      claimCorrect ← agreeWithClaim (c_Data claim);
      '(preState, proofData, oracleData) ←
        (if negb claimCorrect then tp_GetStepData trace (c_Position claim)
         else tp_GetStepData trace (MoveRight (c_Position claim)));
      Ok {| sd_LeafClaim := claim; sd_IsAttack := negb claimCorrect; sd_PreState := preState;
            sd_ProofData := proofData; sd_OracleData := oracleData |}.

(** ** [solver/game_solver.go] *)

Definition calculateStep (game : gameState) (claim : Claim) : res (option Action) :=
  if c_Countered claim then Ok None
  else if AgreeWithClaimLevel game claim then Ok None
  else
    match AttemptStep game claim with
    | Err e => if errors_Is e ErrStepIgnoreInvalidPath then Ok None else Err e
    | Ok step =>
        Ok (Some {| ac_Type := ActionTypeStep; ac_ParentIdx := c_ContractIndex (sd_LeafClaim step);
                    ac_IsAttack := sd_IsAttack step; ac_Value := zeros 32; ac_PreState := sd_PreState step;
                    ac_ProofData := sd_ProofData step; ac_OracleData := sd_OracleData step |})
    end.

Definition calculateMove (game : gameState) (claim : Claim) : res (option Action) :=
  if AgreeWithClaimLevel game claim then Ok None
  else
    move ← map_err (Wrapf "failed to calculate next move for claim index") (NextMove claim game);
    match move with
    | None => Ok None
    | Some move =>
        if IsDuplicate game move then Ok None
        else
          Ok (Some {| ac_Type := ActionTypeMove; ac_ParentIdx := c_ParentContractIndex move;
                      ac_IsAttack := negb (DefendsParent game move); ac_Value := c_Value move; ac_PreState := [];
                      ac_ProofData := []; ac_OracleData := None |})
    end.

(** The action for one claim. *)
Definition claim_action (game : gameState) (claim : Claim) : res (option Action) :=
  if u64 (Depth claim) =? gs_depth game then calculateStep game claim else calculateMove game claim.

(** The loop of [CalculateNextActions], which collects errors and goes on; a
    panic ends it. *)
Fixpoint next_actions (game : gameState) (claims : list Claim) : res (list Action * list go_error) :=
  match claims with
  | [] => Ok ([], [])
  | claim :: claims =>
      match claim_action game claim with
      | Err (GoPanic msg) => Err (GoPanic msg)
      | Err e => '(actions, errs) ← next_actions game claims; Ok (actions, e :: errs)
      | Ok None => next_actions game claims
      | Ok (Some action) => '(actions, errs) ← next_actions game claims; Ok (action :: actions, errs)
      end
  end.

Definition CalculateNextActions (game : gameState) : res (list Action * list go_error) :=
  next_actions game (gs_claims game).
End Solver.

(** ** The rules every action obeys: [solver/rules.go] *)

Definition resultingPosition (game : gameState) (action : Action) : res Position :=
  parent ← index (gs_claims game) (ac_ParentIdx action);
  let parentPos := c_Position parent in
  Ok (if decide (ac_Type action = ActionTypeStep) then parentPos
      else if ac_IsAttack action then Attack parentPos
      else Defend parentPos).

(** A rule yields an error, or none; reading a claim that does not exist panics. *)
Definition parentMustExist (game : gameState) (action : Action) : res (option go_error) :=
  Ok (if (Z.of_nat (length (gs_claims game)) <=? ac_ParentIdx action) || (ac_ParentIdx action <? 0)
      then Some (Errorf "parent claim does not exist") else None).

Definition onlyStepAtMaxDepth (game : gameState) (action : Action) : res (option go_error) :=
  if decide (ac_Type action = ActionTypeStep) then Ok None
  else
    parent ← index (gs_claims game) (ac_ParentIdx action);
    Ok (if gs_depth game <=? u64 (Depth parent) then Some (Errorf "parent at max depth but attempting to move") else None).

Definition onlyMoveBeforeMaxDepth (game : gameState) (action : Action) : res (option go_error) :=
  if decide (ac_Type action = ActionTypeMove) then Ok None
  else
    parent ← index (gs_claims game) (ac_ParentIdx action);
    Ok (if u64 (Depth parent) <? gs_depth game then Some (Errorf "parent not at max depth but attempting to step") else None).

Definition doNotDuplicateExistingMoves (game : gameState) (action : Action) : res (option go_error) :=
  position ← resultingPosition game action;
  Ok (if IsDuplicate game (newClaim (ac_Value action) position (ac_ParentIdx action))
      then Some (Errorf "creating duplicate claim") else None).

Definition doNotDefendRootClaim (game : gameState) (action : Action) : res (option go_error) :=
  parent ← index (gs_claims game) (ac_ParentIdx action);
  Ok (if IsRoot parent && negb (ac_IsAttack action) then Some (Errorf "defending the root claim") else None).

Definition rules : list (gameState -> Action -> res (option go_error)) :=
  [parentMustExist; onlyStepAtMaxDepth; onlyMoveBeforeMaxDepth; doNotDuplicateExistingMoves; doNotDefendRootClaim].

(** [errors.Join] of what the rules say. *)
Fixpoint run_rules (rs : list (gameState -> Action -> res (option go_error))) (game : gameState) (action : Action) : res (list go_error) :=
  match rs with
  | [] => Ok []
  | rule :: rs => e ← rule game action; errs ← run_rules rs game action; Ok (match e with Some e => e :: errs | None => errs end)
  end.

Definition checkRules (game : gameState) (action : Action) : res (list go_error) := run_rules rules game action.
End Game.
