(* ===== verification/Challenger.v ===== *)
(** * The agent that plays the fault dispute game

    [op-challenger/game/fault]: reading the claims from the contract
    ([loader.go]), acting and resolving ([agent.go]), the life of a player
    ([player.go]), and the trace providers that need no other program
    ([trace/split], [trace/alphabet], [trace/outputs]). *)

From S2P Require Import Prelude Eth Dispute.

(** ** The chain

    What the contract calls answer and what the transactions do, over a state
    [W] of the chain: the view functions of the contract that
    [MinimalFaultDisputeGameCaller] has, and the transactions of [Responder]
    and [OracleUpdater]. A transaction that reverts after it was published is
    no error for the responder. *)

Inductive GameStatus := GameStatusInProgress | GameStatusChallengerWon | GameStatusDefenderWon.
#[export] Instance GameStatus_eq_dec : EqDecision GameStatus.
Proof. solve_decision. Defined.

(** What [ClaimData] of the contract answers. *)
Record OnchainClaim := mkOnchainClaim {
  oc_ParentIndex : Z;
  oc_Countered : bool;
  oc_Claim : Hash;
  oc_Position : Z;
  oc_Clock : Z;
}.

Class Chain (W : Type) := {
  ch_Status : stM W GameStatus;
  ch_ClaimDataLen : stM W Z;
  ch_ClaimData : Z -> stM W OnchainClaim;
  ch_ABSOLUTEPRESTATE : stM W Hash;
  ch_CallResolve : stM W GameStatus;
  ch_Resolve : stM W unit;
  ch_CallResolveClaim : Z -> stM W unit;
  ch_ResolveClaim : Z -> stM W unit;
  ch_PerformAction : Action -> stM W unit;
  ch_UpdateOracle : PreimageOracleData -> stM W unit;
}.

Section Challenger.
Variable Keccak256Hash : bytes -> Hash.
Context {W : Type} `{!Chain W}.

(** ** [loader.go] *)

(** The claim of an answer; [Clock.Uint64()] keeps the low 64 bits, the
    timestamp. *)
Definition hydrate (arrIndex : Z) (fetchedClaim : OnchainClaim) : Claim :=
  {| c_Data := {| cd_Value := oc_Claim fetchedClaim; cd_Position := NewPositionFromGIndex (oc_Position fetchedClaim) |};
     c_Countered := oc_Countered fetchedClaim;
     c_Clock := u64 (oc_Clock fetchedClaim);
     c_ContractIndex := arrIndex;
     c_ParentContractIndex := oc_ParentIndex fetchedClaim |}.

Definition fetchClaim (arrIndex : Z) : stM W Claim :=
  fetchedClaim ← ch_ClaimData arrIndex;
  mret (hydrate arrIndex fetchedClaim).

Fixpoint fetch_claims (n : nat) (i : Z) : stM W (list Claim) :=
  match n with
  | O => mret []
  | S n => claim ← fetchClaim i; claimList ← fetch_claims n (i + 1); mret (claim :: claimList)
  end.

Definition FetchClaims : stM W (list Claim) :=
  claimCount ← ch_ClaimDataLen;
  fetch_claims (Z.to_nat (u64 claimCount)) 0.

(** ** [agent.go] *)

Variable trace : TraceProvider.
Variable maxDepth : Z.
Variable agreeWithProposedOutput : bool.

Definition shouldResolve (status : GameStatus) : bool :=
  let expected := if agreeWithProposedOutput then GameStatusChallengerWon else GameStatusDefenderWon in
  bool_decide (expected = status).

Definition errNoResolvableClaims : go_error := Errorf "no resolvable claims".

(** The claims whose resolution would succeed. *)
Fixpoint resolvable (claims : list Claim) : W -> W * list Z := fun w =>
  match claims with
  | [] => (w, [])
  | claim :: claims =>
      let '(w, r) := ch_CallResolveClaim (u64 (c_ContractIndex claim)) w in
      let '(w, rest) := resolvable claims w in
      (w, if is_ok r then c_ContractIndex claim :: rest else rest)
  end.

(** The transactions are sent concurrently; [schedule] is the order in which
    they take effect. An error is only logged. *)
Variable schedule : list Z -> list Z.

Fixpoint resolve_all (idxs : list Z) (w : W) : W :=
  match idxs with
  | [] => w
  | claimIdx :: idxs => resolve_all idxs (ch_ResolveClaim (u64 claimIdx) w).1
  end.

Definition tryResolveClaims : stM W unit := fun w =>
  match FetchClaims w with
  | (w, Err e) => (w, Err (wrap_err (Wrapf "failed to fetch claims") e))
  | (w, Ok claims) =>
      if bool_decide (claims = []) then (w, Err errNoResolvableClaims)
      else
        let '(w, resolvableClaims) := resolvable claims w in
        if bool_decide (resolvableClaims = []) then (w, Err errNoResolvableClaims)
        else (resolve_all (schedule resolvableClaims) w, Ok tt)
  end.

(** The loop of [resolveClaims]; [None] when it has not ended within the fuel. *)
Fixpoint resolveClaims (fuel : nat) (w : W) : option (W * res unit) :=
  match fuel with
  | O => None
  | S fuel =>
      match tryResolveClaims w with
      | (w, Ok _) => resolveClaims fuel w
      | (w, Err e) => Some (w, if bool_decide (e = errNoResolvableClaims) then Ok tt else Err e)
      end
  end.

Definition tryResolve (fuel : nat) (w : W) : option (W * bool) :=
  match resolveClaims fuel w with
  | None => None
  | Some (w, Err _) => Some (w, false)
  | Some (w, Ok _) =>
      Some match ch_CallResolve w with
           | (w, Err _) => (w, false)
           | (w, Ok status) =>
               if bool_decide (status = GameStatusInProgress) then (w, false)
               else if negb (shouldResolve status) then (w, true)
               else ((ch_Resolve w).1, true)
           end
  end.

Definition newGameFromContracts : stM W gameState := fun w =>
  match FetchClaims w with
  | (w, Err e) => (w, Err (wrap_err (Wrapf "failed to fetch claims") e))
  | (w, Ok claims) =>
      if bool_decide (claims = []) then (w, Err (Errorf "no claims"))
      else (w, Ok (NewGameState Keccak256Hash agreeWithProposedOutput claims (u64 maxDepth)))
  end.

(** The loop that performs the actions: a failed oracle update ends it, a
    failed action does not. *)
Fixpoint perform (actions : list Action) : stM W unit := fun w =>
  match actions with
  | [] => (w, Ok tt)
  | action :: actions =>
      match (match ac_OracleData action with Some data => ch_UpdateOracle data w | None => (w, Ok tt) end) with
      | (w, Err e) => (w, Err (wrap_err (Wrapf "failed to load oracle data") e))
      | (w, Ok _) => perform actions (ch_PerformAction action w).1
      end
  end.

(** [Act]; the errors of [CalculateNextActions] are only logged. *)
Definition Act (fuel : nat) (w : W) : option (W * res unit) :=
  match tryResolve fuel w with
  | None => None
  | Some (w, true) => Some (w, Ok tt)
  | Some (w, false) =>
      Some match newGameFromContracts w with
           | (w, Err e) => (w, Err (wrap_err (Wrapf "create game from contracts") e))
           | (w, Ok game) =>
               match CalculateNextActions Keccak256Hash trace maxDepth game with
               | Err e => (w, Err e)
               | Ok (actions, _) => perform actions w
               end
           end
  end.

(** ** [player.go] *)

(** [ProgressGame] on the status the player remembers. *)
Definition ProgressGame (fuel : nat) (status : GameStatus) (w : W) : option (W * GameStatus) :=
  if negb (bool_decide (status = GameStatusInProgress)) then Some (w, status)
  else
    match Act fuel w with
    | None => None
    | Some (w, _) =>
        Some match ch_Status w with
             | (w, Err _) => (w, GameStatusInProgress)
             | (w, Ok status) => (w, status)
             end
    end.

Definition ValidateAbsolutePrestate : stM W unit := fun w =>
  match tp_AbsolutePreStateCommitment trace with
  | Err e => (w, Err (wrap_err (Wrapf "failed to get the trace provider's absolute prestate") e))
  | Ok providerPrestateHash =>
      match ch_ABSOLUTEPRESTATE w with
      | (w, Err e) => (w, Err (wrap_err (Wrapf "failed to get the onchain absolute prestate") e))
      | (w, Ok onchainPrestate) =>
          if bool_decide (providerPrestateHash = onchainPrestate) then (w, Ok tt)
          else (w, Err (Errorf "trace provider's absolute prestate does not match onchain absolute prestate"))
      end
  end.
End Challenger.

(** ** Trace providers *)

(** [trace/split/provider.go] *)
Section Split.
Variable topProvider bottomProvider : TraceProvider.
Variable topDepth : Z.

Definition providerForDepth (depth : Z) : Z * TraceProvider :=
  if depth <=? topDepth then (0, topProvider) else (topDepth, bottomProvider).

Definition split_Get (pos : Position) : res Hash :=
  let '(ancestorDepth, provider) := providerForDepth (u64 (ps_depth pos)) in
  relativePosition ← RelativeToAncestorAtDepth pos ancestorDepth;
  tp_Get provider relativePosition.

Definition split_GetStepData (pos : Position) : res StepInput :=
  let '(ancestorDepth, provider) := providerForDepth (u64 (ps_depth pos)) in
  relativePosition ← RelativeToAncestorAtDepth pos ancestorDepth;
  tp_GetStepData provider relativePosition.

Definition SplitTraceProvider : TraceProvider := {|
  tp_Get := split_Get;
  tp_GetStepData := split_GetStepData;
  tp_AbsolutePreState := tp_AbsolutePreState bottomProvider;
  tp_AbsolutePreStateCommitment := tp_AbsolutePreStateCommitment bottomProvider;
|}.
End Split.

(** [trace/alphabet/provider.go]. The state is the trace cut into letters. *)
Section Alphabet.
Variable Keccak256Hash : bytes -> Hash.
Variable state : list bytes.
Variable depth : Z.

Definition VMStatusInvalid : Z := 1.
Definition VMStatusUnfinished : Z := 3.
Definition ErrIndexTooLarge : go_error := Errorf "index is larger than the maximum index".

(** [uint64(1 << depth)], and the conversion to [int64] where it is used. *)
Definition maxLen : Z := u64 (Z.shiftl 1 depth).
Definition int64_ (x : Z) : Z := (x + 2 ^ 63) mod 2 ^ 64 - 2 ^ 63.

Definition alphabet_AbsolutePreState : bytes := zeros 31 ++ [96].

Definition LetterToBytes (letter : bytes) : res bytes :=
  b ← index letter 0;
  Ok (zeros 31 ++ [b]).

(** [FillBytes] panics when the number does not fit. *)
Definition BuildAlphabetPreimage (i : Z) (letter : bytes) : res bytes :=
  if 2 ^ 256 <=? i then Err (GoPanic "math/big: buffer too small to fit value")
  else bs ← LetterToBytes letter; Ok (put_be 32 i ++ bs).

(** The call of itself is for the end of the trace, and calls itself no more. *)
Fixpoint alphabet_step (calls : nat) (i : Position) : res StepInput :=
  traceIndex ← TraceIndex i depth;
  if traceIndex =? 0 then Ok (alphabet_AbsolutePreState, [], None)
  else
    let traceIndex := traceIndex - 1 in
    if int64_ maxLen <=? traceIndex then Err ErrIndexTooLarge
    else if Z.of_nat (length state) <=? traceIndex then
      match calls with
      | O => Err (GoPanic "stack overflow")
      | S calls => alphabet_step calls (NewPosition depth (Z.of_nat (length state)))
      end
    else
      letter ← index state (u64 traceIndex);
      preimage ← BuildAlphabetPreimage traceIndex letter;
      Ok (preimage, [], None).

Definition alphabet_GetStepData (i : Position) : res StepInput := alphabet_step 1 i.

(** Writing the status into the first byte of a hash. *)
Definition set_status (status : Z) (h : Hash) : Hash := status :: tail h.

Definition alphabetStateHash (st : bytes) : Hash := set_status VMStatusInvalid (Keccak256Hash st).

Definition alphabet_Get (i : Position) : res Hash :=
  ti ← TraceIndex i depth;
  '(claimBytes, _, _) ← alphabet_GetStepData (NewPosition depth (ti + 1));
  Ok (alphabetStateHash claimBytes).

Definition AlphabetTraceProvider : TraceProvider := {|
  tp_Get := alphabet_Get;
  tp_GetStepData := alphabet_GetStepData;
  tp_AbsolutePreState := Ok alphabet_AbsolutePreState;
  tp_AbsolutePreStateCommitment := Ok (set_status VMStatusUnfinished (Keccak256Hash alphabet_AbsolutePreState));
|}.
End Alphabet.

(** [trace/outputs/provider.go]. [OutputAtBlock] is the RPC of a rollup node. *)
Section Outputs.
Variable OutputAtBlock : Z -> res Hash.
Variable prestateBlock poststateBlock gameDepth : Z.

Definition outputs_Get (pos : Position) : res Hash :=
  traceIndex ← TraceIndex pos gameDepth;
  if negb (bool_decide (is_u64 traceIndex)) then Err (Errorf "trace index is greater than max uint64")
  else
    let outputBlock := traceIndex +₆₄ prestateBlock +₆₄ 1 in
    let outputBlock := if poststateBlock <? outputBlock then poststateBlock else outputBlock in
    OutputAtBlock outputBlock.

Definition OutputTraceProvider : TraceProvider := {|
  tp_Get := outputs_Get;
  tp_GetStepData := fun _ => Err (Errorf "GetStepData not supported");
  tp_AbsolutePreState := Err (Errorf "AbsolutePreState not supported");
  tp_AbsolutePreStateCommitment := OutputAtBlock prestateBlock;
|}.
End Outputs.
