(* ===== verification/FaultGame.v ===== *)
(** * The contract of the fault dispute game

    [packages/contracts-bedrock/src/dispute/FaultDisputeGame.sol] with
    [LibPosition.sol], [LibClock.sol] and [LibHashing.sol]: what the
    challenger's transactions do. The state is what the calls [move], [step],
    [resolveClaim] and [resolve] read and write; a call that reverts is an
    error. The VM contract and the oracle it reads are parameters. *)

From S2P Require Import Prelude Eth Dispute Challenger.

(** ** EVM words

    Assembly computes modulo 2^256; a comparison is 0 or 1. *)
Definition u128 (x : Z) : Z := x mod 2 ^ 128.
Definition u256 (x : Z) : Z := x mod 2 ^ 256.
Definition evm_shl (n x : Z) : Z := u256 (Z.shiftl x n).
Definition evm_shr (n x : Z) : Z := Z.shiftr x n.
Definition evm_lt (x y : Z) : Z := if x <? y then 1 else 0.
Definition evm_iszero (x : Z) : Z := if x =? 0 then 1 else 0.
Definition evm_not (x : Z) : Z := 2 ^ 256 - 1 - x.
Definition evm_byte (n x : Z) : Z := if n <? 32 then Z.shiftr x (8 * (31 - n)) mod 256 else 0.

(** ** [LibPosition.sol]: a position is its generalized index *)

(** A right shift by [n], or-ed in. *)
Definition smear (n x : Z) : Z := Z.lor x (evm_shr n x).

Definition lp_depth (position : Z) : Z :=
  let depth := 0 in
  let depth := Z.lor depth (evm_shl 6 (evm_lt 0xffffffffffffffff (evm_shr depth position))) in
  let depth := Z.lor depth (evm_shl 5 (evm_lt 0xffffffff (evm_shr depth position))) in
  let position := evm_shr depth position in
  let position := smear 16 (smear 8 (smear 4 (smear 2 (smear 1 position)))) in
  Z.lor depth (evm_byte (evm_shr 251 (u256 (position * evm_shl 224 0x07c4acdd)))
                 0x0009010a0d15021d0b0e10121619031e080c141c0f111807131b17061a05041f).

Definition lp_indexAtDepth (position : Z) : Z := u64 (u256 (position - evm_shl (lp_depth position) 1)).

Definition lp_traceIndex (position maxDepth : Z) : Z :=
  let remaining := u256 (maxDepth - lp_depth position) in
  u256 (Z.lor (evm_shl remaining position) (u256 (evm_shl remaining 1 - 1)) - evm_shl maxDepth 1).

Definition lp_traceAncestor (position : Z) : Z :=
  let lsb := Z.land (evm_not position) (u256 (position + 1)) in
  let msb := lp_depth lsb in
  let a := evm_shr msb position in
  Z.lor a (evm_iszero a).

Definition lp_move (position : Z) (isAttack : bool) : Z :=
  evm_shl 1 (Z.lor (evm_iszero (if isAttack then 1 else 0)) position).

(** ** [LibClock.sol] *)

Definition clock_wrap (duration timestamp : Z) : Z := Z.lor (evm_shl 64 duration) timestamp.
Definition clock_duration (clock : Z) : Z := evm_shr 64 clock.
Definition clock_timestamp (clock : Z) : Z := evm_shr 192 (evm_shl 192 clock).

(** ** The state of the contract *)

Record FaultDisputeGame := mkFaultDisputeGame {
  fg_status : GameStatus;
  fg_claimData : list OnchainClaim;
  fg_claims : gset Hash;
  fg_subgames : gmap Z (list Z);
  fg_subgameAtRootResolved : bool;
}.

Definition uint32_max : Z := 2 ^ 32 - 1.
Definition ROOT_POSITION : Z := 1.

Definition revert {A} (msg : string) : res A := Err (Errorf msg).

(** [claimData[i]] *)
Definition claim_at (claimData : list OnchainClaim) (i : Z) : res OnchainClaim :=
  match (if i <? 0 then None else claimData !! Z.to_nat i) with
  | Some c => Ok c
  | None => revert "array out of bounds"
  end.

Definition set_countered (b : bool) (c : OnchainClaim) : OnchainClaim :=
  {| oc_ParentIndex := oc_ParentIndex c; oc_Countered := b; oc_Claim := oc_Claim c;
     oc_Position := oc_Position c; oc_Clock := oc_Clock c |}.

Definition counter_claim (i : Z) (b : bool) (claimData : list OnchainClaim) : list OnchainClaim :=
  alter (set_countered b) (Z.to_nat i) claimData.

Section Contract.
Variable Keccak256Hash : bytes -> Hash.
Variable ABSOLUTE_PRESTATE : Hash.
Variable MAX_GAME_DEPTH : Z.
Variable GAME_DURATION : Z.
(** [VM.step] with the contents [Oracle] of its preimage oracle; it may revert. *)
Context {Oracle : Type}.
Variable VM_step : Oracle -> bytes -> bytes -> option Hash.

(** [initialize], the part that concerns the claims. *)
Definition initialize (rootClaim : Hash) (now : Z) : res FaultDisputeGame :=
  vmStatus ← index rootClaim 0;
  if negb ((vmStatus =? 1) || (vmStatus =? 2)) then revert "UnexpectedRootClaim"
  else
    Ok {| fg_status := GameStatusInProgress;
          fg_claimData := [{| oc_ParentIndex := uint32_max; oc_Countered := false; oc_Claim := rootClaim;
                              oc_Position := ROOT_POSITION; oc_Clock := clock_wrap 0 (u64 now) |}];
          fg_claims := ∅; fg_subgames := ∅; fg_subgameAtRootResolved := false |}.

(** The walk of [findTraceAncestor]: the parent of a claim comes before it. *)
Fixpoint trace_ancestor_walk (fuel : nat) (claimData : list OnchainClaim) (position : Z) (ancestor : OnchainClaim) : res OnchainClaim :=
  match fuel with
  | O => revert "out of gas"
  | S fuel =>
      if oc_Position ancestor =? position then Ok ancestor
      else
        ancestor ← claim_at claimData (oc_ParentIndex ancestor);
        trace_ancestor_walk fuel claimData position ancestor
  end.

Definition findTraceAncestor (claimData : list OnchainClaim) (pos start : Z) : res OnchainClaim :=
  let preStateTraceAncestor := lp_traceAncestor pos in
  ancestor ← claim_at claimData start;
  trace_ancestor_walk (length claimData) claimData preStateTraceAncestor ancestor.

(** What [step] checks, once it has the claim and the game is in progress. *)
Definition step_check (claimData : list OnchainClaim) (parent : OnchainClaim) (isAttack : bool)
    (oracle : Oracle) (stateData proof : bytes) : res unit :=
  let parentPos := oc_Position parent in
  let stepPos := lp_move parentPos isAttack in
  if negb (lp_depth stepPos =? MAX_GAME_DEPTH + 1) then revert "InvalidParent"
  else
    '(preStateClaim, postState) ←
      (if isAttack : bool then
         pre ← (if lp_indexAtDepth stepPos =? 0 then Ok ABSOLUTE_PRESTATE
                else oc_Claim <$> findTraceAncestor claimData (parentPos - 1) (oc_ParentIndex parent));
         Ok (pre, parent)
       else
         postState ← findTraceAncestor claimData (parentPos + 1) (oc_ParentIndex parent);
         Ok (oc_Claim parent, postState));
    if negb (bool_decide (drop 1 (Keccak256Hash stateData) = drop 1 preStateClaim)) then revert "InvalidPrestate"
    else
      match VM_step oracle stateData proof with
      | None => revert "VM"
      | Some post =>
          let validStep := bool_decide (post = oc_Claim postState) in
          let parentPostAgree := (lp_depth parentPos - lp_depth (oc_Position postState)) mod 2 =? 0 in
          if eqb parentPostAgree validStep then revert "ValidStep" else Ok tt
      end.

Definition step (claimIndex : Z) (isAttack : bool) (oracle : Oracle) (stateData proof : bytes)
    (g : FaultDisputeGame) : res FaultDisputeGame :=
  if negb (bool_decide (fg_status g = GameStatusInProgress)) then revert "GameNotInProgress"
  else
    parent ← claim_at (fg_claimData g) claimIndex;
    _ ← step_check (fg_claimData g) parent isAttack oracle stateData proof;
    Ok {| fg_status := fg_status g; fg_claimData := counter_claim claimIndex true (fg_claimData g);
          fg_claims := fg_claims g; fg_subgames := fg_subgames g;
          fg_subgameAtRootResolved := fg_subgameAtRootResolved g |}.

(** [hashClaimPos] *)
Definition hashClaimPos (claim : Hash) (position challengeIndex : Z) : Hash :=
  Keccak256Hash (claim ++ put_be 32 (Z.lor (evm_shl 128 position) (Z.land (2 ^ 128 - 1) challengeIndex))).

Definition move (challengeIndex : Z) (claim : Hash) (isAttack : bool) (now : Z)
    (g : FaultDisputeGame) : res FaultDisputeGame :=
  if negb (bool_decide (fg_status g = GameStatusInProgress)) then revert "GameNotInProgress"
  else if (challengeIndex =? 0) && negb isAttack then revert "CannotDefendRootClaim"
  else
    parent ← claim_at (fg_claimData g) challengeIndex;
    let nextPosition := lp_move (oc_Position parent) isAttack in
    if MAX_GAME_DEPTH <? lp_depth nextPosition then revert "GameDepthExceeded"
    else
      grandparentClock ←
        (if oc_ParentIndex parent =? uint32_max then Ok 0
         else oc_Clock <$> claim_at (fg_claimData g) (oc_ParentIndex parent));
      let sum := clock_duration grandparentClock + now - clock_timestamp (oc_Clock parent) in
      if sum <? 0 then revert "arithmetic underflow"
      else
        let nextDuration := u64 sum in
        if GAME_DURATION / 2 <? nextDuration then revert "ClockTimeExceeded"
        else
          let nextClock := clock_wrap nextDuration (u64 now) in
          let claimHash := hashClaimPos claim nextPosition challengeIndex in
          if bool_decide (claimHash ∈ fg_claims g) then revert "ClaimAlreadyExists"
          else
            let newClaim := {| oc_ParentIndex := u32 challengeIndex; oc_Countered := false; oc_Claim := claim;
                               oc_Position := nextPosition; oc_Clock := nextClock |} in
            let claimData := fg_claimData g ++ [newClaim] in
            Ok {| fg_status := fg_status g;
                  fg_claimData := counter_claim challengeIndex true claimData;
                  fg_claims := {[claimHash]} ∪ fg_claims g;
                  fg_subgames := <[challengeIndex := default [] (fg_subgames g !! challengeIndex) ++
                                                     [Z.of_nat (length claimData) - 1]]> (fg_subgames g);
                  fg_subgameAtRootResolved := fg_subgameAtRootResolved g |}.

(** The loop of [resolveClaim]. *)
Fixpoint any_uncountered (g : FaultDisputeGame) (challengeIndices : list Z) : res bool :=
  match challengeIndices with
  | [] => Ok false
  | challengeIndex :: challengeIndices =>
      if negb (bool_decide (default [] (fg_subgames g !! challengeIndex) = [])) then revert "OutOfOrderResolution"
      else
        claim ← claim_at (fg_claimData g) challengeIndex;
        if negb (oc_Countered claim) then Ok true else any_uncountered g challengeIndices
  end.

Definition resolveClaim (claimIndex : Z) (now : Z) (g : FaultDisputeGame) : res FaultDisputeGame :=
  if negb (bool_decide (fg_status g = GameStatusInProgress)) then revert "GameNotInProgress"
  else
    parent ← claim_at (fg_claimData g) claimIndex;
    if now <? clock_timestamp (oc_Clock parent) then revert "arithmetic underflow"
    else if clock_duration (oc_Clock parent) + (now - clock_timestamp (oc_Clock parent)) <=? GAME_DURATION / 2 then
      revert "ClockNotExpired"
    else
      let challengeIndices := default [] (fg_subgames g !! claimIndex) in
      if (claimIndex =? 0) && fg_subgameAtRootResolved g then revert "ClaimAlreadyResolved"
      else if bool_decide (challengeIndices = []) && negb (claimIndex =? 0) then revert "ClaimAlreadyResolved"
      else
        countered ← any_uncountered g challengeIndices;
        Ok {| fg_status := fg_status g;
              fg_claimData := counter_claim claimIndex countered (fg_claimData g);
              fg_claims := fg_claims g;
              fg_subgames := delete claimIndex (fg_subgames g);
              fg_subgameAtRootResolved := (claimIndex =? 0) || fg_subgameAtRootResolved g |}.

Definition resolve (g : FaultDisputeGame) : res (FaultDisputeGame * GameStatus) :=
  if negb (bool_decide (fg_status g = GameStatusInProgress)) then revert "GameNotInProgress"
  else if negb (fg_subgameAtRootResolved g) then revert "OutOfOrderResolution"
  else
    root ← claim_at (fg_claimData g) 0;
    let status := if oc_Countered root then GameStatusChallengerWon else GameStatusDefenderWon in
    Ok ({| fg_status := status; fg_claimData := fg_claimData g; fg_claims := fg_claims g;
           fg_subgames := fg_subgames g; fg_subgameAtRootResolved := fg_subgameAtRootResolved g |}, status).

(** ** The contract as the chain of the challenger

    At a given time, with the oracle next to the game: [PerformAction] of
    [responder/responder.go] sends the call the action names, and a call that
    would revert leaves the chain as it is. [load] puts a pre-image into the
    oracle. *)
Variable load : PreimageOracleData -> Oracle -> Oracle.

Definition perform_action (now : Z) (oracle : Oracle) (action : Action) (g : FaultDisputeGame) : res FaultDisputeGame :=
  match ac_Type action with
  | ActionTypeMove => move (ac_ParentIdx action) (ac_Value action) (ac_IsAttack action) now g
  | ActionTypeStep => step (ac_ParentIdx action) (ac_IsAttack action) oracle (ac_PreState action) (ac_ProofData action) g
  end.

Definition send (r : res FaultDisputeGame) : stM (FaultDisputeGame * Oracle) unit := fun w =>
  match r with Ok g => ((g, w.2), Ok tt) | Err e => (w, Err e) end.

Definition contract_Chain (now : Z) : Chain (FaultDisputeGame * Oracle) := {|
  ch_Status := fun w => (w, Ok (fg_status w.1));
  ch_ClaimDataLen := fun w => (w, Ok (Z.of_nat (length (fg_claimData w.1))));
  ch_ClaimData := fun i w => (w, claim_at (fg_claimData w.1) i);
  ch_ABSOLUTEPRESTATE := fun w => (w, Ok ABSOLUTE_PRESTATE);
  ch_CallResolve := fun w => (w, snd <$> resolve w.1);
  ch_Resolve := fun w => send (fst <$> resolve w.1) w;
  ch_CallResolveClaim := fun i w => (w, (fun _ => tt) <$> resolveClaim i now w.1);
  ch_ResolveClaim := fun i w => send (resolveClaim i now w.1) w;
  ch_PerformAction := fun action w => send (perform_action now w.2 action w.1) w;
  ch_UpdateOracle := fun data w => ((w.1, load data w.2), Ok tt);
|}.
End Contract.
