(* ===== verification/DisputePositions.v ===== *)
(** * Positions in the bisection tree

    The arithmetic of positions: the Go type, the generalized indices of the
    contract and the trace indices both stand for agree. *)

From S2P Require Import Prelude Eth Dispute Challenger FaultGame.

(** A position of the tree: the index is one of its depth. *)
Definition pos_wf (p : Position) : Prop := 0 <= ps_depth p /\ 0 <= ps_indexAtDepth p < 2 ^ ps_depth p.

(** The last leaf below a position of a tree of depth [d]. *)
Definition trace_idx (d : Z) (p : Position) : Z := (ps_indexAtDepth p + 1) * 2 ^ (d - ps_depth p) - 1.

(** ** Bits *)

Lemma land_lnot_msb x n : 0 <= n -> 2 ^ n <= x < 2 ^ (n + 1) -> Z.land x (Z.lnot (Z.shiftl 1 n)) = x - 2 ^ n.
Proof.
  intros Hn Hx. set (y := x - 2 ^ n). assert (Hy : 0 <= y < 2 ^ n) by (subst y; rewrite Z.pow_add_r in Hx; lia).
  replace x with (Z.lor (Z.shiftl 1 n) y) by (rewrite lor_add_low by lia; lia).
  apply Z.bits_inj'. intros i Hi. rewrite Z.land_spec, Z.lnot_spec, Z.lor_spec by lia.
  destruct (Z.lt_ge_cases i n).
  - by rewrite Z.shiftl_spec_low, orb_false_l, andb_true_r by lia.
  - rewrite <- (Z.mod_small y (2 ^ n)) by lia. rewrite Z.mod_pow2_bits_high by lia. by destruct (Z.testbit _ i).
Qed.

Lemma log2_bounds x n : 0 <= n -> 2 ^ n <= x < 2 ^ (n + 1) -> Z.log2 x = n.
Proof. intros Hn Hx. apply Z.log2_unique; rewrite <- ?Z.add_1_r; lia. Qed.

(** ** The loop of [bigMSB] *)

Lemma bigMSB_loop_log2 fuel x out : 0 < x -> (Z.to_nat (Z.log2 x) + 2 <= fuel)%nat ->
  bigMSB_loop fuel x out = Some (out + Z.log2 x + 1).
Proof.
  revert x out. induction fuel as [|fuel IH]; intros x out Hx Hf; [lia|]. cbn [bigMSB_loop].
  destruct (Z.eqb_spec x 0); [lia|]. rewrite Z.shiftr_div_pow2 by lia. change (2 ^ 1) with 2.
  destruct (Z.eq_dec (x / 2) 0) as [Hz|Hz].
  - assert (x = 1) as -> by ulia. destruct fuel; [cbn in Hf; lia|]. cbn. f_equal. lia.
  - assert (H2 : 0 < x / 2) by ulia.
    assert (Hl : Z.log2 x = Z.log2 (x / 2) + 1).
    { assert (Hx2 : 2 <= x) by ulia. pose proof (Z.log2_le_mono 2 x Hx2) as Hl. change (Z.log2 2) with 1 in Hl.
      change (x / 2) with (x / 2 ^ 1). rewrite <- Z.shiftr_div_pow2, Z.log2_shiftr by lia. lia. }
    pose proof (Z.log2_nonneg (x / 2)). rewrite IH by lia. f_equal. lia.
Qed.

Lemma bigMSB_log2 x : 0 <= x -> bigMSB x = Z.log2 x.
Proof.
  intros Hx. unfold bigMSB. destruct (Z.eqb_spec x 0) as [->|]; [done|].
  rewrite bigMSB_loop_log2 by lia. lia.
Qed.

(** ** Generalized indices *)

Lemma ToGIndex_add p : pos_wf p -> ToGIndex p = 2 ^ ps_depth p + ps_indexAtDepth p.
Proof. intros [Hd Hi]. unfold ToGIndex. rewrite lor_add_low by lia. lia. Qed.

Lemma ToGIndex_range p : pos_wf p -> 2 ^ ps_depth p <= ToGIndex p < 2 ^ (ps_depth p + 1).
Proof. intros H. rewrite ToGIndex_add by done. destruct H. rewrite Z.pow_add_r by lia. lia. Qed.

Lemma ToGIndex_log2 p : pos_wf p -> Z.log2 (ToGIndex p) = ps_depth p.
Proof. intros H. apply log2_bounds; [by destruct H|by apply ToGIndex_range]. Qed.

Lemma ToGIndex_pos p : pos_wf p -> 0 < ToGIndex p.
Proof. intros H. pose proof (ToGIndex_range p H). destruct H. pose proof (Z.pow_pos_nonneg 2 (ps_depth p)). lia. Qed.

Lemma NewPositionFromGIndex_ToGIndex p : pos_wf p -> NewPositionFromGIndex (ToGIndex p) = p.
Proof.
  intros H. unfold NewPositionFromGIndex. pose proof (ToGIndex_pos p H). rewrite bigMSB_log2, ToGIndex_log2 by (done || lia).
  rewrite land_lnot_msb by (destruct H; try lia; by apply ToGIndex_range). rewrite ToGIndex_add by done.
  destruct p as [d i]. unfold NewPosition. cbn. f_equal. lia.
Qed.

Lemma NewPositionFromGIndex_wf x : 0 < x -> pos_wf (NewPositionFromGIndex x) /\ ToGIndex (NewPositionFromGIndex x) = x.
Proof.
  intros Hx. pose proof (Z.log2_spec x Hx) as Hl. pose proof (Z.log2_nonneg x) as Hl0. rewrite <- Z.add_1_r in Hl.
  assert (H : pos_wf (NewPositionFromGIndex x)).
  { unfold NewPositionFromGIndex. rewrite bigMSB_log2, land_lnot_msb by lia. split; cbn; [lia|].
    rewrite Z.pow_add_r in Hl by lia. lia. }
  split; [done|]. rewrite ToGIndex_add by done. unfold NewPositionFromGIndex.
  rewrite bigMSB_log2, land_lnot_msb by lia. cbn. lia.
Qed.

Lemma ToGIndex_inj p q : pos_wf p -> pos_wf q -> ToGIndex p = ToGIndex q -> p = q.
Proof.
  intros Hp Hq H. rewrite <- (NewPositionFromGIndex_ToGIndex p), <- (NewPositionFromGIndex_ToGIndex q) by done.
  by rewrite H.
Qed.

(** ** Moves *)

Lemma move_position_idx p right : 0 <= ps_indexAtDepth p ->
  ps_indexAtDepth (move_position p right) = 2 * ps_indexAtDepth p + boolToInt right.
Proof.
  intros H. unfold move_position. cbn [ps_indexAtDepth].
  rewrite lor_add_low by (destruct right; cbn; lia). lia.
Qed.

Lemma Attack_spec p : pos_wf p -> pos_wf (Attack p) /\ ps_depth (Attack p) = ps_depth p + 1 /\
  ps_indexAtDepth (Attack p) = 2 * ps_indexAtDepth p.
Proof.
  intros [Hd Hi]. unfold Attack. pose proof (move_position_idx p false). cbn [boolToInt] in *.
  split; [|cbn [ps_depth move_position]; lia]. split; cbn [ps_depth move_position]; [lia|].
  rewrite Z.pow_add_r by lia. unfold Attack in *. cbn [ps_indexAtDepth move_position] in *. lia.
Qed.

(** Going right of the parent from a left child. *)
Lemma Defend_spec p : pos_wf p -> 0 < ps_depth p -> pos_wf (Defend p) /\ ps_depth (Defend p) = ps_depth p + 1 /\
  ps_indexAtDepth (Defend p) = 2 * (2 * (ps_indexAtDepth p / 2) + 1).
Proof.
  intros [Hd Hi] H0. unfold Defend.
  assert (Hi2 : 0 <= ps_indexAtDepth p / 2) by ulia.
  pose proof (move_position_idx (parent_position p) true) as H1. cbn [parent_position ps_indexAtDepth parentIndexAtDepth boolToInt] in H1.
  assert (H2 : ps_indexAtDepth (move_position (move_position (parent_position p) true) false) = 2 * (2 * (ps_indexAtDepth p / 2) + 1)).
  { rewrite move_position_idx; unfold parentIndexAtDepth in *; cbn [boolToInt]; rewrite H1; lia. }
  split; [|split; [cbn; lia|done]]. split; [cbn; lia|]. rewrite H2. cbn [ps_depth move_position parent_position].
  replace (ps_depth p - 1 + 1 + 1) with (ps_depth p + 1) by lia. rewrite Z.pow_add_r by lia.
  assert (Hev : 2 ^ ps_depth p = 2 * 2 ^ (ps_depth p - 1)).
  { rewrite <- Z.pow_succ_r by lia. f_equal. lia. }
  assert (ps_indexAtDepth p / 2 < 2 ^ (ps_depth p - 1)) by (apply Z.div_lt_upper_bound; lia). lia.
Qed.

(** ** Trace indices *)

Lemma TraceIndex_spec d p : pos_wf p -> ps_depth p <= d -> TraceIndex p d = Ok (trace_idx d p).
Proof.
  intros [Hd Hi] H. unfold TraceIndex, lshIndex, trace_idx. destruct (Z.ltb_spec (d - ps_depth p) 0); [lia|]. cbn.
  rewrite Z.shiftl_1_l. pose proof (Z.pow_pos_nonneg 2 (d - ps_depth p)). rewrite lor_add_low by lia. f_equal. lia.
Qed.

Lemma trace_idx_leaf d p : ps_depth p = d -> trace_idx d p = ps_indexAtDepth p.
Proof. intros <-. unfold trace_idx. rewrite Z.sub_diag. lia. Qed.

Lemma trace_idx_range d p : pos_wf p -> ps_depth p <= d -> 0 <= trace_idx d p < 2 ^ d.
Proof.
  intros [Hd Hi] H. unfold trace_idx. pose proof (Z.pow_pos_nonneg 2 (d - ps_depth p)).
  assert (2 ^ d = 2 ^ ps_depth p * 2 ^ (d - ps_depth p)) by (rewrite <- Z.pow_add_r by lia; f_equal; lia). nia.
Qed.

(** An attack goes to the middle of what is left of a claim, a defence of a
    left child to the middle of what is right of it. *)
Lemma trace_idx_Attack d p : pos_wf p -> ps_depth p < d ->
  trace_idx d (Attack p) = trace_idx d p - 2 ^ (d - ps_depth (Attack p)).
Proof.
  intros Hp Hd. destruct (Attack_spec p Hp) as (_ & H1 & H2). unfold trace_idx. rewrite H1, H2.
  assert (2 ^ (d - ps_depth p) = 2 * 2 ^ (d - (ps_depth p + 1))).
  { rewrite <- Z.pow_succ_r by lia. f_equal. lia. } lia.
Qed.

Lemma trace_idx_Defend d p : pos_wf p -> 0 < ps_depth p < d -> ps_indexAtDepth p mod 2 = 0 ->
  trace_idx d (Defend p) = trace_idx d p + 2 ^ (d - ps_depth (Defend p)).
Proof.
  intros Hp Hd He. destruct (Defend_spec p Hp) as (_ & H1 & H2); [lia|]. unfold trace_idx. rewrite H1, H2.
  assert (2 ^ (d - ps_depth p) = 2 * 2 ^ (d - (ps_depth p + 1))).
  { rewrite <- Z.pow_succ_r by lia. f_equal. lia. }
  assert (2 * (ps_indexAtDepth p / 2) = ps_indexAtDepth p) by ulia. lia.
Qed.

(** ** The assembly of [LibPosition] *)

(** The top [m] bits of a number of [k + 1] bits are set. *)
Definition top_set (k m x : Z) : Prop := 0 <= x < 2 ^ (k + 1) /\ forall i, 0 <= i -> k - m < i <= k -> Z.testbit x i = true.

Lemma testbit_high x n i : 0 <= x < 2 ^ n -> n <= i -> Z.testbit x i = false.
Proof.
  intros Hx Hi. destruct (Z.lt_ge_cases n 0) as [Hn|Hn]; [rewrite Z.pow_neg_r in Hx by done; lia|].
  rewrite <- (Z.mod_small x (2 ^ n)) by lia. apply Z.mod_pow2_bits_high. lia.
Qed.

Lemma below_pow2 x n : 0 <= n -> 0 <= x -> (forall i, n <= i -> Z.testbit x i = false) -> x < 2 ^ n.
Proof.
  intros Hn Hx H. destruct (Z.lt_ge_cases x (2 ^ n)) as [|Hge]; [done|]. exfalso.
  assert (Hp : 0 < x) by (pose proof (Z.pow_pos_nonneg 2 n); lia).
  pose proof (Z.bit_log2 x Hp) as Hb. rewrite H in Hb; [done|]. apply Z.log2_le_pow2; lia.
Qed.

Lemma smear_top k m x : 0 <= k -> 0 < m -> top_set k m x -> top_set k (2 * m) (smear m x).
Proof.
  intros Hk Hm [Hx Hb]. unfold smear, evm_shr. split.
  - assert (Hn : 0 <= Z.lor x (Z.shiftr x m)) by (apply Z.lor_nonneg; split; [|apply Z.shiftr_nonneg]; lia).
    split; [done|]. apply below_pow2; [lia..|]. intros i Hi. rewrite Z.lor_spec, Z.shiftr_spec by lia.
    by rewrite (testbit_high x (k + 1)), (testbit_high x (k + 1)) by lia.
  - intros i Hi Hr. rewrite Z.lor_spec, Z.shiftr_spec by lia. destruct (Z.lt_ge_cases (k - m) i).
    + by rewrite Hb by lia.
    + rewrite (Hb (i + m)) by lia. apply orb_true_r.
Qed.

Lemma smear_ones k x : 0 <= k < 32 -> 2 ^ k <= x < 2 ^ (k + 1) ->
  smear 16 (smear 8 (smear 4 (smear 2 (smear 1 x)))) = 2 ^ (k + 1) - 1.
Proof.
  intros Hk Hx. assert (H1 : top_set k 1 x).
  { split; [lia|]. intros i Hi Hr. replace i with k by lia. rewrite <- (log2_bounds x k) by lia.
    apply Z.bit_log2. pose proof (Z.pow_pos_nonneg 2 k). lia. }
  do 5 (apply smear_top in H1; [|lia..]). destruct H1 as [Hr Hb].
  change (2 * (2 * (2 * (2 * (2 * 1))))) with 32 in *. change (2 * (2 * (2 * (2 * 1)))) with 16 in *.
  change (2 * (2 * (2 * 1))) with 8 in *. change (2 * (2 * 1)) with 4 in *. change (2 * 1) with 2 in *.
  rewrite Z.sub_1_r, <- Z.ones_equiv. apply Z.bits_inj'. intros i Hi.
  destruct (Z.lt_ge_cases k i).
  - rewrite Z.ones_spec_high by lia. apply (testbit_high _ (k + 1)); lia.
  - rewrite Z.ones_spec_low by lia. apply Hb; lia.
Qed.

(** The De Bruijn table, entry by entry. *)
Definition lookup_ok (k : Z) : bool :=
  evm_byte (evm_shr 251 (u256 ((2 ^ (k + 1) - 1) * evm_shl 224 0x07c4acdd)))
    0x0009010a0d15021d0b0e10121619031e080c141c0f111807131b17061a05041f =? k.

Lemma lookup_table k : 0 <= k < 32 -> lookup_ok k = true.
Proof.
  intros Hk. assert (H : forallb lookup_ok (seqZ 0 32) = true) by (vm_compute; reflexivity).
  rewrite forallb_forall in H. apply H. rewrite <- list_elem_of_In. apply elem_of_seqZ. lia.
Qed.

Lemma shiftr_bounds x n k : 0 <= n -> 0 <= k -> 2 ^ (n + k) <= x < 2 ^ (n + k + 1) -> 2 ^ k <= Z.shiftr x n < 2 ^ (k + 1).
Proof.
  intros Hn Hk Hx. rewrite Z.shiftr_div_pow2 by lia. rewrite !Z.pow_add_r in * by lia.
  pose proof (Z.pow_pos_nonneg 2 n). pose proof (Z.pow_pos_nonneg 2 k).
  split; [apply Z.div_le_lower_bound|apply Z.div_lt_upper_bound]; lia.
Qed.

Lemma lor_low_add a k n : 0 <= n -> 0 <= k < 2 ^ n -> a mod 2 ^ n = 0 -> Z.lor a k = a + k.
Proof.
  intros Hn Hk Ha. pose proof (Z.div_mod a (2 ^ n)) as Hd. pose proof (Z.pow_pos_nonneg 2 n).
  replace a with (Z.shiftl (a / 2 ^ n) n) at 1 by (rewrite Z.shiftl_mul_pow2 by lia; lia).
  rewrite lor_add_low by lia. lia.
Qed.

Lemma lp_depth_log2 x : 0 < x < 2 ^ 128 -> lp_depth x = Z.log2 x.
Proof.
  intros Hx. pose proof (Z.log2_spec x) as Hl. rewrite <- Z.add_1_r in Hl. specialize (Hl ltac:(lia)).
  pose proof (Z.log2_nonneg x) as H0. assert (Hm : Z.log2 x < 128) by (apply Z.log2_lt_pow2; lia).
  assert (Hlt : forall n y, 0 <= n -> 0 <= y -> (evm_lt (2 ^ n - 1) y = if 2 ^ n <=? y then 1 else 0)).
  { intros n y Hn Hy. unfold evm_lt. zcases; lia. }
  set (d := if 64 <=? Z.log2 x then (if 96 <=? Z.log2 x then 96 else 64) else if 32 <=? Z.log2 x then 32 else 0).
  assert (Hd : 0 <= d <= Z.log2 x /\ Z.log2 x - d < 32 /\ d mod 2 ^ 5 = 0).
  { unfold d. zcases; split_and!; (reflexivity || lia). }
  assert (Hs : 2 ^ (Z.log2 x - d) <= Z.shiftr x d < 2 ^ (Z.log2 x - d + 1)).
  { apply shiftr_bounds; [lia..|]. replace (d + (Z.log2 x - d)) with (Z.log2 x) by lia. done. }
  assert (Hdepth : Z.lor (Z.lor 0 (evm_shl 6 (evm_lt 0xffffffffffffffff (evm_shr 0 x))))
     (evm_shl 5 (evm_lt 0xffffffff (evm_shr (Z.lor 0 (evm_shl 6 (evm_lt 0xffffffffffffffff (evm_shr 0 x)))) x))) = d).
  { unfold evm_shr at 1 3. rewrite Z.shiftr_0_r. change 0xffffffffffffffff with (2 ^ 64 - 1). change 0xffffffff with (2 ^ 32 - 1).
    rewrite (Hlt 64 x) by lia. unfold d.
    destruct (Z.leb_spec 64 (Z.log2 x)) as [Hc|Hc].
    - assert (2 ^ 64 <= x) by (apply Z.log2_le_pow2; lia). destruct (Z.leb_spec (2 ^ 64) x); [|lia].
      change (Z.lor 0 (evm_shl 6 1)) with 64. unfold evm_shr. rewrite Hlt by (try apply Z.shiftr_nonneg; lia).
      assert (Hi : 2 ^ 32 <= Z.shiftr x 64 <-> 96 <= Z.log2 x).
      { rewrite Z.shiftr_div_pow2 by lia. rewrite <- (Z.log2_le_pow2 x 96) by lia. change (2 ^ 96) with (2 ^ 64 * 2 ^ 32).
        split; intros; [|apply Z.div_le_lower_bound; lia]. pose proof (Z.mul_div_le x (2 ^ 64)). lia. }
      destruct (Z.leb_spec (2 ^ 32) (Z.shiftr x 64)), (Z.leb_spec 96 (Z.log2 x)); (reflexivity || lia).
    - assert (x < 2 ^ 64) by (apply Z.log2_lt_pow2; lia). destruct (Z.leb_spec (2 ^ 64) x); [lia|].
      change (Z.lor 0 (evm_shl 6 0)) with 0. unfold evm_shr. rewrite Z.shiftr_0_r, Hlt by lia.
      pose proof (Z.log2_le_pow2 x 32 ltac:(lia)).
      destruct (Z.leb_spec (2 ^ 32) x), (Z.leb_spec 32 (Z.log2 x)); (reflexivity || lia). }
  unfold lp_depth. cbv zeta. rewrite Hdepth. unfold evm_shr at 2. rewrite (smear_ones (Z.log2 x - d)) by lia.
  pose proof (lookup_table (Z.log2 x - d) ltac:(lia)) as Ht. apply Z.eqb_eq in Ht. rewrite Ht.
  rewrite (lor_low_add d _ 5) by lia. lia.
Qed.

Lemma u256_small x : 0 <= x < 2 ^ 256 -> u256 x = x.
Proof. apply Z.mod_small. Qed.

Lemma pow2_le a b : 0 <= a <= b -> 2 ^ a <= 2 ^ b.
Proof. intros. apply Z.pow_le_mono_r; lia. Qed.

Lemma pow2_lt a b : 0 <= a < b -> 2 ^ a < 2 ^ b.
Proof. intros. apply Z.pow_lt_mono_r; lia. Qed.

Lemma lp_depth_ToGIndex p : pos_wf p -> ps_depth p < 128 -> lp_depth (ToGIndex p) = ps_depth p.
Proof.
  intros Hp Hd. pose proof (ToGIndex_range p Hp). pose proof (ToGIndex_pos p Hp).
  pose proof (pow2_le (ps_depth p + 1) 128 ltac:(destruct Hp; lia)).
  rewrite lp_depth_log2 by lia. by apply ToGIndex_log2.
Qed.

Lemma lor_1 x : 0 <= x -> Z.lor 1 x = 2 * (x / 2) + 1.
Proof.
  intros Hx. rewrite Z.lor_comm. pose proof (Z.div_mod x 2). apply Z.bits_inj'. intros i Hi. rewrite Z.lor_spec.
  destruct (Z.eq_dec i 0) as [->|].
  - by rewrite Z.testbit_odd_0, orb_true_r.
  - replace i with (Z.succ (i - 1)) by lia. rewrite Z.testbit_odd_succ by lia.
    change 1 with (2 * 0 + 1) at 2. rewrite Z.testbit_odd_succ, Z.bits_0, orb_false_r by lia.
    by rewrite <- Z.div2_bits by lia.
Qed.

Lemma lp_move_attack g : 0 <= g < 2 ^ 254 -> lp_move g true = 2 * g.
Proof.
  intros Hg. unfold lp_move. change (evm_iszero 1) with 0. rewrite Z.lor_0_l. unfold evm_shl.
  rewrite Z.shiftl_mul_pow2 by lia. rewrite u256_small; change (2 ^ 1) with 2; [lia|].
  change (2 ^ 256) with (4 * 2 ^ 254). lia.
Qed.

Lemma lp_move_defend g : 0 <= g < 2 ^ 254 -> lp_move g false = 2 * (2 * (g / 2) + 1).
Proof.
  intros Hg. unfold lp_move. change (evm_iszero 0) with 1. rewrite lor_1 by lia. unfold evm_shl.
  assert (2 * (g / 2) <= g) by ulia. assert (0 <= g / 2) by ulia.
  rewrite Z.shiftl_mul_pow2 by lia. rewrite u256_small; change (2 ^ 1) with 2; [lia|].
  change (2 ^ 256) with (4 * 2 ^ 254). lia.
Qed.

Lemma ToGIndex_Attack p : pos_wf p -> ToGIndex (Attack p) = 2 * ToGIndex p.
Proof.
  intros Hp. destruct (Attack_spec p Hp) as (Hw & Hd & Hi). rewrite !ToGIndex_add, Hd, Hi by done.
  destruct Hp. rewrite Z.pow_add_r by lia. lia.
Qed.

Lemma ToGIndex_Defend p : pos_wf p -> 0 < ps_depth p -> ToGIndex (Defend p) = 2 * (2 * (ToGIndex p / 2) + 1).
Proof.
  intros Hp H0. destruct (Defend_spec p Hp H0) as (Hw & Hd & Hi). rewrite !ToGIndex_add, Hd, Hi by done.
  destruct Hp. rewrite Z.pow_add_r by lia.
  assert (Hev : 2 ^ ps_depth p = 2 ^ (ps_depth p - 1) * 2).
  { rewrite Z.mul_comm, <- Z.pow_succ_r by lia. f_equal. lia. }
  rewrite Hev at 2. rewrite Z.div_add_l by lia. lia.
Qed.

Lemma lp_indexAtDepth_ToGIndex p : pos_wf p -> ps_depth p <= 64 -> lp_indexAtDepth (ToGIndex p) = ps_indexAtDepth p.
Proof.
  intros Hp Hd. unfold lp_indexAtDepth. rewrite lp_depth_ToGIndex by (done || lia). unfold evm_shl.
  pose proof (pow2_le (ps_depth p) 64 ltac:(destruct Hp; lia)). rewrite Z.shiftl_1_l, (u256_small (2 ^ _)).
  2: { destruct Hp. pose proof (Z.pow_pos_nonneg 2 (ps_depth p)). lia. }
  rewrite ToGIndex_add by done. destruct Hp as [? Hi].
  replace (2 ^ ps_depth p + ps_indexAtDepth p - 2 ^ ps_depth p) with (ps_indexAtDepth p) by lia.
  rewrite u256_small by lia. apply Z.mod_small. lia.
Qed.

Lemma lp_traceIndex_ToGIndex d p : pos_wf p -> ps_depth p <= d < 128 -> lp_traceIndex (ToGIndex p) d = trace_idx d p.
Proof.
  intros Hp Hd. unfold lp_traceIndex. rewrite lp_depth_ToGIndex by (done || lia). pose proof (ToGIndex_range p Hp) as Hg.
  pose proof (trace_idx_range d p Hp ltac:(lia)) as Ht. destruct Hp as [H0 Hi].
  pose proof (pow2_lt d 128 ltac:(lia)) as Hpd. pose proof (pow2_lt (d - ps_depth p) 128 ltac:(lia)) as Hpr.
  pose proof (Z.pow_pos_nonneg 2 (d - ps_depth p) ltac:(lia) ltac:(lia)) as Hp0. pose proof (pow2_lt 128 256 ltac:(lia)).
  rewrite (u256_small (d - _)) by lia. unfold evm_shl. rewrite !Z.shiftl_1_l, (u256_small (2 ^ d)), (u256_small (2 ^ _)) by lia.
  rewrite (u256_small (2 ^ _ - 1)) by lia.
  assert (Hsum : 2 ^ ps_depth p * 2 ^ (d - ps_depth p) = 2 ^ d) by (rewrite <- Z.pow_add_r by lia; f_equal; lia).
  assert (Hsum2 : 2 ^ (ps_depth p + 1) * 2 ^ (d - ps_depth p) = 2 * 2 ^ d).
  { rewrite <- Z.pow_add_r, <- Z.pow_succ_r by lia. f_equal. lia. }
  assert (Hb : 0 <= ToGIndex p * 2 ^ (d - ps_depth p) < 2 ^ 256) by (change (2 ^ 256) with (2 ^ 128 * 2 ^ 128) in *; nia).
  rewrite (Z.shiftl_mul_pow2 (ToGIndex p)) by lia. rewrite (u256_small (ToGIndex p * _)) by done.
  rewrite <- (Z.shiftl_mul_pow2 (ToGIndex p)), lor_add_low by lia. rewrite ToGIndex_add by done.
  unfold trace_idx in *. rewrite u256_small; nia.
Qed.

(** The lowest bit of a number, the way the assembly finds it. *)
Lemma land_neg_odd n o : 0 < n -> 0 < o < 2 ^ n -> o mod 2 = 1 -> Z.land (2 ^ n - o) o = 1.
Proof.
  intros Hn Ho Hodd. set (h := o / 2). assert (Hh : o = 2 * h + 1) by ulia.
  assert (Hp : 2 ^ n = 2 * 2 ^ (n - 1)) by (rewrite <- Z.pow_succ_r by lia; f_equal; lia).
  assert (Hl : Z.land (Z.ones (n - 1) - h) h = 0).
  { rewrite Z.sub_nocarry_ldiff; [apply Z.land_ldiff|]. apply Z.bits_inj'. intros i Hi. rewrite Z.ldiff_spec, Z.bits_0.
    destruct (Z.lt_ge_cases i (n - 1)); [rewrite Z.ones_spec_low by lia; apply andb_false_r|].
    rewrite (testbit_high h (n - 1)) by lia. done. }
  replace (2 ^ n - o) with (2 * (Z.ones (n - 1) - h) + 1) by (rewrite Z.ones_equiv; lia). rewrite Hh.
  apply Z.bits_inj'. intros i Hi. rewrite Z.land_spec. destruct (Z.eq_dec i 0) as [->|]; [by rewrite !Z.testbit_odd_0|].
  replace i with (Z.succ (i - 1)) by lia. rewrite !Z.testbit_odd_succ by lia. rewrite <- Z.land_spec, Hl, Z.bits_0.
  change 1 with (2 * 0 + 1). by rewrite Z.testbit_odd_succ, Z.bits_0 by lia.
Qed.

Lemma lowest_unset g r : 0 <= r -> 0 <= g -> g mod 2 = 0 -> (g + 1) * 2 ^ r < 2 ^ 128 ->
  Z.land (evm_not ((g + 1) * 2 ^ r - 1)) (u256 ((g + 1) * 2 ^ r - 1 + 1)) = 2 ^ r.
Proof.
  intros Hr Hg Hev Hb. pose proof (Z.pow_pos_nonneg 2 r ltac:(lia) Hr) as Hp. pose proof (pow2_lt 128 256 ltac:(lia)).
  unfold evm_not. rewrite u256_small by nia.
  assert (Hr2 : r < 128) by (apply (Z.pow_lt_mono_r_iff 2); nia).
  assert (Hs : 2 ^ 256 = 2 ^ (256 - r) * 2 ^ r) by (rewrite <- Z.pow_add_r by lia; f_equal; lia).
  pose proof (pow2_lt 128 (256 - r) ltac:(lia)).
  replace (2 ^ 256 - 1 - ((g + 1) * 2 ^ r - 1)) with ((2 ^ (256 - r) - (g + 1)) * 2 ^ r) by lia.
  replace ((g + 1) * 2 ^ r - 1 + 1) with ((g + 1) * 2 ^ r) by lia.
  rewrite <- !Z.shiftl_mul_pow2, <- Z.shiftl_land, land_neg_odd by (nia || ulia). by rewrite Z.shiftl_1_l.
Qed.

(** The leaf below a left child, or below the root, on the far right leads
    back to it. *)
Lemma lp_traceAncestor_spec g r : 0 <= r -> g = 1 \/ (1 < g /\ g mod 2 = 0) -> (g + 1) * 2 ^ (r + 1) < 2 ^ 128 ->
  lp_traceAncestor ((g + 1) * 2 ^ r - 1) = g.
Proof.
  intros Hr Hg Hb. pose proof (Z.pow_pos_nonneg 2 r ltac:(lia) Hr) as Hp. rewrite Z.pow_add_r in Hb by lia. change (2 ^ 1) with 2 in Hb.
  assert (Hr2 : r < 127) by (apply (Z.pow_lt_mono_r_iff 2); [lia..|]; change (2 ^ 128) with (2 * 2 ^ 127) in Hb; destruct Hg; nia).
  unfold lp_traceAncestor. destruct Hg as [->|[Hg1 Hg2]].
  - replace ((1 + 1) * 2 ^ r) with ((0 + 1) * 2 ^ (r + 1)) by (rewrite Z.pow_add_r; lia).
    rewrite lowest_unset by (reflexivity || rewrite ?Z.pow_add_r; lia). pose proof (pow2_lt (r + 1) 128 ltac:(lia)).
    rewrite lp_depth_log2, Z.log2_pow2 by (rewrite ?Z.pow_add_r; lia).
    unfold evm_shr. rewrite Z.shiftr_div_pow2, Z.div_small by (rewrite ?Z.pow_add_r; lia). done.
  - rewrite lowest_unset by (lia || nia). pose proof (pow2_lt r 128 ltac:(lia)). rewrite lp_depth_log2, Z.log2_pow2 by lia.
    unfold evm_shr. rewrite Z.shiftr_div_pow2 by lia.
    replace (((g + 1) * 2 ^ r - 1) / 2 ^ r) with g.
    2: { apply (Z.div_unique _ _ _ (2 ^ r - 1)); [left; lia|lia]. }
    unfold evm_iszero. destruct (Z.eqb_spec g 0); [lia|]. apply Z.lor_0_r.
Qed.
