(* ===== verification/DisputeTree.v ===== *)
(** * The claims of a game as a tree

    The claims of the contract form a tree of positions: what the search for
    an ancestor finds in it, what [step] checks of it, and what stays when a
    claim is added. *)

From S2P Require Import Prelude Eth Dispute Challenger FaultGame DisputePositions.

(** ** Nodes: a claim without what changes about it *)

Record node := mkNode {
  n_parent : Z;
  n_claim : Hash;
  n_position : Z;
}.

Definition node_of (c : OnchainClaim) : node := mkNode (oc_ParentIndex c) (oc_Claim c) (oc_Position c).
Definition nodes (cd : list OnchainClaim) : list node := map node_of cd.
Definition posn (n : node) : Position := NewPositionFromGIndex (n_position n).

(** The index of the parent; the root has none. *)
Definition parent_of (ns : list node) (i : nat) : option nat :=
  match i with O => None | S _ => n ← ns !! i; Some (Z.to_nat (n_parent n)) end.

Definition children (ns : list node) (i : nat) : list nat :=
  base.filter (fun k => parent_of ns k = Some i) (seq 0 (length ns)).

Inductive ancestor (ns : list node) : nat -> nat -> Prop :=
| ancestor_parent i j : parent_of ns i = Some j -> ancestor ns i j
| ancestor_up i j k : parent_of ns i = Some j -> ancestor ns j k -> ancestor ns i k.

(** The tree: a root, and children that attack their parent or, unless it is
    the root, defend it. *)
Record tree (d : Z) (ns : list node) : Prop := {
  tree_root : exists n, ns !! 0%nat = Some n /\ n_parent n = uint32_max /\ n_position n = 1;
  tree_child : forall i n, ns !! S i = Some n ->
    exists j p, (j <= i)%nat /\ ns !! j = Some p /\ n_parent n = Z.of_nat j /\
      (posn n = Attack (posn p) \/ (0 < j)%nat /\ posn n = Defend (posn p));
  tree_position : forall i n, ns !! i = Some n ->
    pos_wf (posn n) /\ ToGIndex (posn n) = n_position n /\ ps_depth (posn n) <= d;
}.

Section Tree.
Variable d : Z.
Variable ns : list node.
Hypothesis T : tree d ns.

Lemma posn_root n : ns !! 0%nat = Some n -> posn n = mkPosition 0 0.
Proof using T. intros H. destruct (tree_root _ _ T) as (r & Hr & _ & Hp). simplify_eq. unfold posn. by rewrite Hp. Qed.

Lemma claim_below_parent i n : ns !! S i = Some n ->
  exists j p, parent_of ns (S i) = Some j /\ (j <= i)%nat /\ ns !! j = Some p /\ n_parent n = Z.of_nat j /\
    (posn n = Attack (posn p) \/ (0 < j)%nat /\ posn n = Defend (posn p)).
Proof using T.
  intros H. destruct (tree_child _ _ T i n H) as (j & p & Hj & Hp & Hn & Hm). exists j, p. split; [|done].
  cbn. rewrite H. cbn. by rewrite Hn, Nat2Z.id.
Qed.

(** Depth zero is the root alone, and every other claim is a left child. *)
Lemma child_left i n : ns !! S i = Some n -> 0 < ps_depth (posn n) /\ ps_indexAtDepth (posn n) mod 2 = 0.
Proof using T.
  revert n. induction i as [i IH] using lt_wf_ind. intros n H.
  destruct (claim_below_parent i n H) as (j & p & _ & Hj & Hp & _ & Hm).
  destruct (tree_position _ _ T j p Hp) as (Hw & _ & _). destruct Hm as [->|[Hj0 ->]].
  - destruct (Attack_spec _ Hw) as (_ & -> & ->). destruct Hw. split; [lia|]. rewrite Z.mul_comm. apply Z_mod_mult.
  - destruct j as [|j]; [lia|]. destruct (IH j ltac:(lia) p Hp) as [Hd _].
    destruct (Defend_spec _ Hw Hd) as (_ & -> & ->). split; [lia|]. rewrite Z.mul_comm. apply Z_mod_mult.
Qed.

Lemma root_iff i n : ns !! i = Some n -> IsRootPosition (posn n) = bool_decide (i = 0%nat).
Proof using T.
  intros H. destruct i as [|i]; [by rewrite (posn_root n H)|]. destruct (child_left i n H) as [Hd _].
  unfold IsRootPosition. destruct (Z.eqb_spec (ps_depth (posn n)) 0); [lia|]. done.
Qed.

Lemma parent_of_depth i j n p : parent_of ns i = Some j -> ns !! i = Some n -> ns !! j = Some p ->
  (j < i)%nat /\ ps_depth (posn n) = ps_depth (posn p) + 1.
Proof using T.
  intros Hpar Hn Hp. destruct i as [|i]; [done|]. destruct (claim_below_parent i n Hn) as (j' & p' & Hj & Hle & Hp' & _ & Hm).
  simplify_eq. split; [lia|]. destruct (tree_position _ _ T j p Hp) as (Hw & _ & _). destruct Hm as [->|[Hj0 ->]].
  - by destruct (Attack_spec _ Hw) as (_ & ? & _).
  - destruct j as [|j]; [lia|]. destruct (child_left j p Hp) as [Hd _]. by destruct (Defend_spec _ Hw Hd) as (_ & ? & _).
Qed.

Lemma parent_of_lookup i j : parent_of ns i = Some j -> exists n p, ns !! i = Some n /\ ns !! j = Some p.
Proof using T.
  destruct i as [|i]; [done|]. intros H. cbn in H. destruct (ns !! S i) as [n|] eqn:Hn; [|done].
  destruct (claim_below_parent i n Hn) as (j' & p & Hj & _ & Hp & _). cbn in Hj. rewrite Hn in Hj. cbn in *. simplify_eq. eauto.
Qed.

Lemma ancestor_depth i k n m : ancestor ns i k -> ns !! i = Some n -> ns !! k = Some m ->
  (k < i)%nat /\ ps_depth (posn m) < ps_depth (posn n).
Proof using T.
  intros Ha. revert n. induction Ha as [i k Hp|i j k Hp Ha IH]; intros n Hn Hm.
  - destruct (parent_of_depth i k n m Hp Hn Hm). lia.
  - destruct (parent_of_lookup i j Hp) as (n' & p & Hn' & Hj). destruct (IH p Hj Hm).
    destruct (parent_of_depth i j n p Hp Hn Hj). lia.
Qed.

Lemma children_spec i k : k ∈ children ns i <-> parent_of ns k = Some i.
Proof using.
  unfold children. rewrite list_elem_of_filter, elem_of_seq. split; [tauto|]. intros H. split; [done|].
  destruct k; [done|]. cbn in H. destruct (ns !! S k) eqn:Hk; [|done]. apply lookup_lt_Some in Hk. lia.
Qed.

(** Where an ancestor is the last left claim before a leaf, the contract's
    search leads to its position. *)
Lemma trace_ancestor_position k m : ns !! k = Some m -> 0 <= d <= 63 ->
  lp_traceAncestor (2 ^ d + trace_idx d (posn m)) = n_position m.
Proof using T.
  intros Hk Hd. destruct (tree_position _ _ T k m Hk) as (Hw & Hg & Hle). rewrite <- Hg. pose proof Hw as [H0 Hi].
  assert (Hsum : 2 ^ d = 2 ^ ps_depth (posn m) * 2 ^ (d - ps_depth (posn m))) by (rewrite <- Z.pow_add_r by lia; f_equal; lia).
  pose proof (ToGIndex_range _ Hw) as Hr. rewrite (ToGIndex_add _ Hw) in *.
  replace (2 ^ d + trace_idx d (posn m)) with
    ((2 ^ ps_depth (posn m) + ps_indexAtDepth (posn m) + 1) * 2 ^ (d - ps_depth (posn m)) - 1) by (unfold trace_idx; lia).
  apply lp_traceAncestor_spec; [lia| |].
  - destruct k as [|k].
    + left. rewrite (posn_root m Hk). reflexivity.
    + right. destruct (child_left k m Hk) as [Hpos Hev].
      assert (Hp2 : 2 ^ ps_depth (posn m) = 2 ^ (ps_depth (posn m) - 1) * 2).
      { rewrite Z.mul_comm, <- Z.pow_succ_r by lia. f_equal. lia. }
      pose proof (Z.pow_pos_nonneg 2 (ps_depth (posn m) - 1)). split; [lia|]. rewrite Hp2, Z.add_comm, Z_mod_plus_full. done.
  - pose proof (pow2_le d 63 ltac:(lia)). rewrite Z.pow_add_r in Hr |- * by lia.
    pose proof (Z.pow_pos_nonneg 2 (d - ps_depth (posn m)) ltac:(lia) ltac:(lia)).
    change (2 ^ 1) with 2 in *. change (2 ^ 128) with (2 ^ 63 * 2 ^ 65). nia.
Qed.
End Tree.

(** ** The search of the contract *)

Lemma nodes_lookup cd i : nodes cd !! i = node_of <$> cd !! i.
Proof. apply list_lookup_fmap. Qed.

Lemma claim_at_nat cd i c : claim_at cd (Z.of_nat i) = Ok c <-> cd !! i = Some c.
Proof.
  unfold claim_at. destruct (Z.ltb_spec (Z.of_nat i) 0); [lia|]. rewrite Nat2Z.id. destruct (cd !! i); naive_solver.
Qed.

Lemma claim_at_ok cd i c : claim_at cd i = Ok c <-> 0 <= i /\ cd !! Z.to_nat i = Some c.
Proof.
  unfold claim_at. destruct (Z.ltb_spec i 0); [split; [done|lia]|]. destruct (cd !! Z.to_nat i); naive_solver.
Qed.

Section Search.
Variable d : Z.
Variable cd : list OnchainClaim.
Hypothesis T : tree d (nodes cd).
Hypothesis Hlen : Z.of_nat (length cd) < 2 ^ 32.

Lemma root_parent_out : claim_at cd uint32_max = Err (Errorf "array out of bounds").
Proof using Hlen.
  unfold claim_at. change (uint32_max <? 0) with false. cbv iota. rewrite lookup_ge_None_2; [done|].
  unfold uint32_max. lia.
Qed.

Lemma claim_parent i c : cd !! S i = Some c ->
  exists j p, parent_of (nodes cd) (S i) = Some j /\ (j <= i)%nat /\ cd !! j = Some p /\ oc_ParentIndex c = Z.of_nat j.
Proof using T.
  intros H. destruct (claim_below_parent d _ T i (node_of c)) as (j & p & Hj & Hle & Hp & Hpar & _); [by rewrite nodes_lookup, H|].
  rewrite nodes_lookup in Hp. destruct (cd !! j) as [q|] eqn:Hq; [|done]. eauto 6.
Qed.

(** What the walk finds is the claim it starts at or an ancestor of it. *)
Lemma walk_sound fuel target i c a : cd !! i = Some c -> trace_ancestor_walk fuel cd target c = Ok a ->
  oc_Position a = target /\ exists k, cd !! k = Some a /\ (k = i \/ ancestor (nodes cd) i k).
Proof using T Hlen.
  revert i c. induction fuel as [|fuel IH]; intros i c Hc H; [done|]. cbn in H.
  destruct (Z.eqb_spec (oc_Position c) target) as [He|He]; [simplify_eq; eauto|].
  destruct i as [|i].
  - destruct (tree_root _ _ T) as (n & Hn & Hp & _). rewrite nodes_lookup, Hc in Hn. cbn in Hn. simplify_eq.
    cbn in Hp. by rewrite Hp, root_parent_out in H.
  - destruct (claim_parent i c Hc) as (j & p & Hj & Hle & Hp & Hpar). rewrite Hpar in H.
    destruct (claim_at cd (Z.of_nat j)) as [p'|] eqn:Hat; [|done]. apply claim_at_nat in Hat. simplify_eq. cbn in H.
    destruct (IH j p' Hat H) as (Ha & k & Hk & Hor). split; [done|]. exists k. split; [done|]. right.
    destruct Hor as [->|Hor]; [by apply ancestor_parent|by eapply ancestor_up].
Qed.

(** No two claims of a path have the same position, so it finds the one that
    is looked for. *)
Lemma walk_complete fuel i k c a : cd !! i = Some c -> cd !! k = Some a -> (i < fuel)%nat ->
  k = i \/ ancestor (nodes cd) i k -> trace_ancestor_walk fuel cd (oc_Position a) c = Ok a.
Proof using T Hlen.
  revert i c. induction fuel as [|fuel IH]; intros i c Hc Ha Hf Hor; [lia|]. cbn.
  destruct Hor as [->|Hor]; [simplify_eq; by rewrite Z.eqb_refl|].
  assert (Hnc : nodes cd !! i = Some (node_of c)) by by rewrite nodes_lookup, Hc.
  assert (Hna : nodes cd !! k = Some (node_of a)) by by rewrite nodes_lookup, Ha.
  destruct (ancestor_depth d _ T i k _ _ Hor Hnc Hna) as [Hlt Hd].
  destruct (Z.eqb_spec (oc_Position c) (oc_Position a)) as [He|_].
  { unfold posn, node_of in Hd. cbn in Hd. rewrite He in Hd. lia. }
  destruct i as [|i]; [lia|]. destruct (claim_parent i c Hc) as (j & p & Hj & Hle & Hp & Hpar).
  rewrite Hpar. rewrite (proj2 (claim_at_nat cd j p) Hp). cbn. apply (IH j p Hp Ha ltac:(lia)).
  inversion Hor; simplify_eq; [by left|by right].
Qed.

Lemma findTraceAncestor_sound pos i c a : cd !! S i = Some c ->
  findTraceAncestor cd pos (oc_ParentIndex c) = Ok a ->
  oc_Position a = lp_traceAncestor pos /\ exists k, cd !! k = Some a /\ ancestor (nodes cd) (S i) k.
Proof using T Hlen.
  intros Hc. destruct (claim_parent i c Hc) as (j & p & Hj & Hle & Hp & Hpar). unfold findTraceAncestor. rewrite Hpar.
  rewrite (proj2 (claim_at_nat cd j p) Hp). cbn. intros H. destruct (walk_sound _ _ j p a Hp H) as (Ha & k & Hk & Hor).
  split; [done|]. exists k. split; [done|]. destruct Hor as [->|Hor]; [by apply ancestor_parent|by eapply ancestor_up].
Qed.

Lemma findTraceAncestor_complete pos i k c a : cd !! S i = Some c -> cd !! k = Some a ->
  ancestor (nodes cd) (S i) k -> oc_Position a = lp_traceAncestor pos ->
  findTraceAncestor cd pos (oc_ParentIndex c) = Ok a.
Proof using T Hlen.
  intros Hc Ha Hanc Hpos. destruct (claim_parent i c Hc) as (j & p & Hj & Hle & Hp & Hpar). unfold findTraceAncestor.
  rewrite Hpar, (proj2 (claim_at_nat cd j p) Hp). cbn. rewrite <- Hpos.
  apply (walk_complete _ j k); [done..| |].
  - apply lookup_lt_Some in Hp. lia.
  - inversion Hanc; simplify_eq; [by left|by right].
Qed.
End Search.

(** ** What stays when the game goes on *)

Lemma filter_in_ext {A} (P Q : A -> Prop) `{!forall x, Decision (P x), !forall x, Decision (Q x)} (l : list A) :
  (forall x, x ∈ l -> P x <-> Q x) -> base.filter P l = base.filter Q l.
Proof.
  induction l as [|x l IH]; intros Hpq; [done|]. rewrite !filter_cons.
  assert (Hx : P x <-> Q x) by (apply Hpq; left). rewrite IH by (intros y Hy; apply Hpq; by right).
  destruct (decide (P x)), (decide (Q x)); naive_solver.
Qed.

Lemma parent_of_app ns ns' i j : parent_of ns i = Some j -> parent_of (ns ++ ns') i = Some j.
Proof.
  destruct i as [|i]; [done|]. cbn. destruct (ns !! S i) as [n|] eqn:Hn; [|done]. by rewrite (lookup_app_l_Some _ _ _ _ Hn).
Qed.

Lemma ancestor_app ns ns' i k : ancestor ns i k -> ancestor (ns ++ ns') i k.
Proof.
  induction 1; [apply ancestor_parent|eapply ancestor_up]; eauto using parent_of_app.
Qed.

Lemma children_snoc ns n j i : ns <> [] -> n_parent n = Z.of_nat j ->
  children (ns ++ [n]) i = children ns i ++ (if decide (i = j) then [length ns] else []).
Proof.
  intros Hne Hn. unfold children. rewrite length_app. cbn [length]. rewrite seq_app, filter_app. cbn [seq Nat.add]. f_equal.
  - apply filter_in_ext. intros k Hk. apply elem_of_seq in Hk. destruct k as [|k]; [done|]. cbn.
    by rewrite lookup_app_l by lia.
  - assert (Hp : parent_of (ns ++ [n]) (length ns) = Some j).
    { destruct ns as [|x ns]; [done|]. unfold parent_of. cbn [length]. change (S (length ns)) with (length (x :: ns)).
      rewrite list_lookup_middle by done. cbn. by rewrite Hn, Nat2Z.id. }
    rewrite filter_cons, Hp. destruct (decide (i = j)) as [->|Hij]; [by rewrite decide_True|].
    rewrite decide_False by naive_solver. done.
Qed.

Lemma nodes_counter i b cd : nodes (counter_claim i b cd) = nodes cd.
Proof.
  unfold nodes, counter_claim. apply list_eq. intros k. rewrite !list_lookup_fmap.
  destruct (decide (Z.to_nat i = k)) as [->|Hk].
  - rewrite list_lookup_alter_eq. by destruct (cd !! k).
  - by rewrite list_lookup_alter_ne.
Qed.

Lemma length_counter i b cd : length (counter_claim i b cd) = length cd.
Proof. apply length_alter. Qed.

Lemma counter_lookup i b cd k c : counter_claim i b cd !! k = Some c ->
  exists c0, cd !! k = Some c0 /\ node_of c = node_of c0 /\
    oc_Countered c = (if decide (Z.to_nat i = k) then b else oc_Countered c0).
Proof.
  unfold counter_claim. destruct (decide (Z.to_nat i = k)) as [->|Hk].
  - rewrite list_lookup_alter_eq. destruct (cd !! k) as [c0|]; [|done]. cbn. intros [= <-]. by exists c0.
  - rewrite list_lookup_alter_ne by done. eauto.
Qed.

(** A claim one level below a claim of the tree. *)
Lemma tree_snoc d ns j p n att : tree d ns -> 0 <= d <= 63 -> ns !! j = Some p -> n_parent n = Z.of_nat j ->
  n_position n = lp_move (n_position p) att -> (j = 0%nat -> att = true) -> lp_depth (n_position n) <= d -> tree d (ns ++ [n]).
Proof.
  intros T Hd Hp Hn Hpos Hroot Hdep. destruct (tree_position _ _ T j p Hp) as (Hw & Hg & Hle).
  pose proof (ToGIndex_range _ Hw) as Hr. pose proof (pow2_le (ps_depth (posn p) + 1) 64 ltac:(destruct Hw; lia)).
  pose proof (ToGIndex_pos _ Hw).
  assert (Hmove : exists q, pos_wf q /\ ToGIndex q = n_position n /\ ps_depth q = ps_depth (posn p) + 1 /\
            (q = Attack (posn p) \/ (0 < j)%nat /\ q = Defend (posn p))).
  { rewrite Hpos, <- Hg. destruct att.
    - exists (Attack (posn p)). destruct (Attack_spec _ Hw) as (? & ? & _). rewrite lp_move_attack, ToGIndex_Attack by (done || lia).
      auto.
    - destruct j as [|j]; [by discriminate Hroot|]. destruct (child_left d ns T j p Hp) as [Hj0 _].
      exists (Defend (posn p)). destruct (Defend_spec _ Hw Hj0) as (? & ? & _). rewrite lp_move_defend, ToGIndex_Defend by (done || lia).
      split_and!; auto with lia. }
  destruct Hmove as (q & Hq & Hgq & Hdq & Hor).
  assert (Hqn : posn n = q) by (unfold posn; by rewrite <- Hgq, NewPositionFromGIndex_ToGIndex).
  rewrite <- Hgq, lp_depth_ToGIndex in Hdep by (done || lia).
  pose proof (lookup_lt_Some _ _ _ Hp) as Hj. split.
  - destruct (tree_root _ _ T) as (r & Hr0 & Hrest). exists r. split; [|done]. by apply lookup_app_l_Some.
  - intros i m Hm. apply lookup_app_Some in Hm as [Hm|[Hge Hm]].
    + destruct (tree_child _ _ T i m Hm) as (k & x & Hk & Hx & Hrest). exists k, x. split; [done|]. split; [by apply lookup_app_l_Some|done].
    + destruct (S i - length ns)%nat eqn:Hi; [|done]. cbn in Hm. simplify_eq. exists j, p. split; [lia|].
      split; [by apply lookup_app_l_Some|]. by rewrite Hn.
  - intros i m Hm. apply lookup_app_Some in Hm as [Hm|[Hge Hm]]; [by apply (tree_position _ _ T i)|].
    destruct (i - length ns)%nat eqn:Hi; [|done]. cbn in Hm. simplify_eq. split_and!; [done..|lia].
Qed.

(** ** What a step checks, said of the tree *)

Section Steps.
Variable Keccak256Hash : bytes -> Hash.
Variable ABSOLUTE_PRESTATE : Hash.
Variable MAX_GAME_DEPTH : Z.
Context {Oracle : Type}.
Variable VM_step : Oracle -> bytes -> bytes -> option Hash.
Hypothesis Hdepth : 1 <= MAX_GAME_DEPTH <= 63.

#[local] Notation D := MAX_GAME_DEPTH.

(** The pre-state and the post-state of a step at a claim. *)
Definition step_states (ns : list node) (i : nat) (n : node) (att : bool) (pre : Hash) (post : node) : Prop :=
  if att then
    post = n /\
    ((ps_indexAtDepth (posn n) = 0 /\ pre = ABSOLUTE_PRESTATE) \/
     (ps_indexAtDepth (posn n) <> 0 /\ exists k m, ancestor ns i k /\ ns !! k = Some m /\
        n_position m = lp_traceAncestor (n_position n - 1) /\ pre = n_claim m))
  else
    pre = n_claim n /\
    exists k, ancestor ns i k /\ ns !! k = Some post /\ n_position post = lp_traceAncestor (n_position n + 1).

(** The contract accepts a step at a claim. *)
Definition steppable (ns : list node) (i : nat) (n : node) (att : bool) (oracle : Oracle) (data proof : bytes) : Prop :=
  exists pre post v, step_states ns i n att pre post /\ drop 1 (Keccak256Hash data) = drop 1 pre /\
    VM_step oracle data proof = Some v /\
    eqb ((ps_depth (posn n) - ps_depth (posn post)) mod 2 =? 0) (bool_decide (v = n_claim post)) = false.

Definition stepped (ns : list node) (i : nat) (n : node) : Prop :=
  exists att oracle data proof, steppable ns i n att oracle data proof.

Lemma stepped_app ns ns' i n : stepped ns i n -> stepped (ns ++ ns') i n.
Proof using.
  intros (att & o & data & proof & pre & post & v & Hs & Hrest). exists att, o, data, proof, pre, post, v. split; [|done].
  destruct att; cbn in *.
  - destruct Hs as [? [?|(? & k & m & ? & ? & ?)]]; split; auto. right. split; [done|]. exists k, m.
    eauto using ancestor_app, lookup_app_l_Some.
  - destruct Hs as (? & k & ? & ? & ?). split; [done|]. exists k. eauto using ancestor_app, lookup_app_l_Some.
Qed.

Section Check.
Variable cd : list OnchainClaim.
Hypothesis T : tree D (nodes cd).
Hypothesis Hlen : Z.of_nat (length cd) < 2 ^ 32.

Lemma position_depth i c : cd !! i = Some c ->
  lp_depth (oc_Position c) = ps_depth (posn (node_of c)) /\ 0 < oc_Position c < 2 ^ 64.
Proof using T Hdepth.
  intros Hc. destruct (tree_position _ _ T i (node_of c)) as (Hw & Hg & Hle); [by rewrite nodes_lookup, Hc|].
  cbn [n_position node_of] in Hg. rewrite <- Hg. split; [apply lp_depth_ToGIndex; [done|lia]|].
  pose proof (ToGIndex_range _ Hw). pose proof (ToGIndex_pos _ Hw).
  pose proof (pow2_le (ps_depth (posn (node_of c)) + 1) 64 ltac:(destruct Hw; lia)). lia.
Qed.

(** The position a step takes is below the claim. *)
Lemma step_position i c att : cd !! i = Some c ->
  lp_depth (lp_move (oc_Position c) att) = ps_depth (posn (node_of c)) + 1 \/ att = false /\ i = 0%nat.
Proof using T Hdepth.
  intros Hc. assert (Hn : nodes cd !! i = Some (node_of c)) by by rewrite nodes_lookup, Hc.
  destruct (tree_position _ _ T i _ Hn) as (Hw & Hg & Hle). destruct (position_depth i c Hc) as [_ Hb].
  cbn [n_position node_of] in Hg. destruct att.
  - left. rewrite lp_move_attack, <- Hg, <- ToGIndex_Attack by (done || lia).
    destruct (Attack_spec _ Hw) as (Hw' & Hd' & _). rewrite lp_depth_ToGIndex by (done || lia). done.
  - destruct i as [|i]; [by right|left]. destruct (child_left D _ T i _ Hn) as [H0 _].
    rewrite lp_move_defend, <- Hg, <- ToGIndex_Defend by (done || lia).
    destruct (Defend_spec _ Hw H0) as (Hw' & Hd' & _). rewrite lp_depth_ToGIndex by (done || lia). done.
Qed.

Lemma root_not_steppable c att : cd !! 0%nat = Some c -> lp_depth (lp_move (oc_Position c) att) <> D + 1.
Proof using T Hdepth.
  intros Hc. destruct (tree_root _ _ T) as (r & Hr & _ & Hp). rewrite nodes_lookup, Hc in Hr. cbn in Hr. simplify_eq.
  cbn in Hp. rewrite Hp. destruct att; vm_compute lp_depth; lia.
Qed.

(** What [step] checks, said of the tree. *)
Lemma step_check_spec i c att oracle data proof : cd !! i = Some c ->
  step_check Keccak256Hash ABSOLUTE_PRESTATE D VM_step cd c att oracle data proof = Ok tt <->
  (0 < i)%nat /\ ps_depth (posn (node_of c)) = D /\ steppable (nodes cd) i (node_of c) att oracle data proof.
Proof using T Hlen Hdepth.
  intros Hc. destruct i as [|i].
  { unfold step_check. pose proof (root_not_steppable c att Hc). destruct (Z.eqb_spec (lp_depth (lp_move (oc_Position c) att)) (D + 1)); [done|].
    cbn. split; [done|]. intros [? _]. lia. }
  destruct (step_position (S i) c att Hc) as [Hsp|[_ ?]]; [|done].
  assert (Hn : nodes cd !! S i = Some (node_of c)) by by rewrite nodes_lookup, Hc.
  destruct (tree_position _ _ T (S i) _ Hn) as (Hw & Hg & Hle). destruct (position_depth (S i) c Hc) as [Hpd Hpb].
  unfold step_check. cbv zeta. rewrite Hsp.
  destruct (Z.eqb_spec (ps_depth (posn (node_of c)) + 1) (D + 1)) as [He|He]; cbn [negb].
  2: { split; [done|]. intros (_ & ? & _). lia. }
  assert (Hidx : lp_indexAtDepth (lp_move (oc_Position c) true) = 2 * ps_indexAtDepth (posn (node_of c))).
  { cbn [n_position node_of] in Hg. rewrite lp_move_attack, <- Hg, <- ToGIndex_Attack by (done || lia).
    destruct (Attack_spec _ Hw) as (Hw' & Hd' & Hi'). by rewrite lp_indexAtDepth_ToGIndex by (done || lia). }
  (* the part after the claims are found *)
  assert (Hrest : forall pre post k, cd !! k = Some post ->
    (if negb (bool_decide (drop 1 (Keccak256Hash data) = drop 1 pre)) then revert "InvalidPrestate"
     else match VM_step oracle data proof with
          | None => revert "VM"
          | Some v =>
              if eqb ((lp_depth (oc_Position c) - lp_depth (oc_Position post)) mod 2 =? 0) (bool_decide (v = oc_Claim post))
              then revert "ValidStep" else Ok tt
          end) = Ok tt <->
    drop 1 (Keccak256Hash data) = drop 1 pre /\ exists v, VM_step oracle data proof = Some v /\
      eqb ((ps_depth (posn (node_of c)) - ps_depth (posn (node_of post))) mod 2 =? 0) (bool_decide (v = oc_Claim post)) = false).
  { intros pre post k Hk. destruct (position_depth k post Hk) as [-> _]. rewrite Hpd.
    destruct (bool_decide_reflect (drop 1 (Keccak256Hash data) = drop 1 pre)); cbn [negb]; [|split; [done|by intros [? _]]].
    destruct (VM_step oracle data proof) as [v|]; [|split; [done|by intros (_ & ? & ? & _)]].
    destruct (eqb _ _) eqn:Eq.
    - split; [done|]. intros (_ & v' & [= <-] & H). congruence.
    - split; [eauto|done]. }
  split.
  - intros H. split; [lia|]. split; [lia|]. destruct att.
    + destruct (if lp_indexAtDepth _ =? 0 then _ else _) as [pre|e] eqn:Hpre; cbn in H; [|done].
      apply (Hrest pre c (S i) Hc) in H as (H1 & v & H2 & H3). exists pre, (node_of c), v. split; [|done].
      split; [done|]. rewrite Hidx in Hpre.
      destruct (Z.eqb_spec (2 * ps_indexAtDepth (posn (node_of c))) 0); [left; simplify_eq; split; [lia|done]|].
      right. split; [lia|]. destruct (findTraceAncestor _ _ _) as [a|] eqn:Ha; [|done]. cbn in Hpre. simplify_eq.
      destruct (findTraceAncestor_sound D cd T Hlen _ i c a Hc Ha) as (Hpos & k & Hk & Hanc).
      exists k, (node_of a). rewrite nodes_lookup, Hk. done.
    + destruct (findTraceAncestor _ _ _) as [a|] eqn:Ha; [|done]. cbn in H.
      destruct (findTraceAncestor_sound D cd T Hlen _ i c a Hc Ha) as (Hpos & k & Hk & Hanc).
      apply (Hrest _ a k Hk) in H as (H1 & v & H2 & H3). exists (oc_Claim c), (node_of a), v. split; [|done].
      split; [done|]. exists k. rewrite nodes_lookup, Hk. done.
  - intros (_ & _ & pre & post & v & Hs & H1 & H2 & H3). destruct att; cbn [step_states] in Hs.
    + destruct Hs as [-> Hs]. rewrite Hidx.
      destruct (Z.eqb_spec (2 * ps_indexAtDepth (posn (node_of c))) 0) as [Hz|Hz].
      * destruct Hs as [[_ ->]|[? _]]; [|lia]. cbn. apply (Hrest _ c (S i) Hc). eauto.
      * destruct Hs as [[? _]|(_ & k & m & Hanc & Hm & Hpos & ->)]; [lia|]. rewrite nodes_lookup in Hm.
        destruct (cd !! k) as [a|] eqn:Ha; [|done]. cbn in Hm. simplify_eq.
        rewrite (findTraceAncestor_complete D cd T Hlen (oc_Position c - 1) i k c a Hc Ha Hanc Hpos). cbn. apply (Hrest _ c (S i) Hc). eauto.
    + destruct Hs as [-> (k & Hanc & Hm & Hpos)]. rewrite nodes_lookup in Hm.
      destruct (cd !! k) as [a|] eqn:Ha; [|done]. cbn in Hm. simplify_eq.
      rewrite (findTraceAncestor_complete D cd T Hlen (oc_Position c + 1) i k c a Hc Ha Hanc Hpos). cbn. apply (Hrest _ a k Ha). eauto.
Qed.
End Check.
End Steps.
