(* ===== verification/DisputePlay.v ===== *)
(** * Games as everybody plays them

    The calls [move], [step] and [resolveClaim] in any order, whoever sends
    them, and what they make of the contract's state: the claims stay a tree,
    the subgames of a claim are its children until it is resolved, a resolved
    claim is countered exactly when one of its children stands, and a claim
    that nothing was moved against is countered only by a step that the
    contract accepted.

    The contract lets a claim be resolved while its subgame still goes on
    ([DisputeExample.early_resolution_loses]). [reachable] are the states of
    the games in which nobody does so: no move and no step is made below a
    claim that has been resolved. *)

From S2P Require Import Prelude Eth Dispute Challenger FaultGame DisputePositions DisputeTree.

(** ** Who wins a claim *)

(** The outcome of a claim: the flag of a claim without replies, and otherwise
    whether a reply stands. *)
Definition flag (cd : list OnchainClaim) (i : nat) : bool :=
  match cd !! i with Some c => oc_Countered c | None => false end.

Fixpoint outcome (fuel : nat) (cd : list OnchainClaim) (i : nat) : bool :=
  match fuel with
  | O => false
  | S fuel =>
      match children (nodes cd) i with
      | [] => flag cd i
      | ks => existsb (fun k => negb (outcome fuel cd k)) ks
      end
  end.

Definition countered (cd : list OnchainClaim) (i : nat) : bool := outcome (length cd) cd i.

Lemma nodes_length cd cd' : nodes cd = nodes cd' -> length cd = length cd'.
Proof using. intros H. apply (f_equal length) in H. unfold nodes in H. by rewrite !length_map in H. Qed.

Lemma flag_at cd i c : cd !! i = Some c -> flag cd i = oc_Countered c.
Proof using. intros H. unfold flag. by rewrite H. Qed.

Lemma flag_counter cd i j b : (j < length cd)%nat -> flag (counter_claim (Z.of_nat i) b cd) j = if decide (i = j) then b else flag cd j.
Proof using.
  intros Hj. unfold flag, counter_claim. rewrite Nat2Z.id. destruct (decide (i = j)) as [->|Hij].
  - rewrite list_lookup_alter_eq. destruct (cd !! j) as [x|] eqn:Hx; [done|]. apply lookup_ge_None in Hx. lia.
  - by rewrite list_lookup_alter_ne.
Qed.

Section Outcome.
Variable d : Z.
Variable cd : list OnchainClaim.
Hypothesis T : tree d (nodes cd).

Lemma child_range i k : k ∈ children (nodes cd) i -> (i < k < length cd)%nat.
Proof using T.
  intros H. apply children_spec in H. destruct (parent_of_lookup d _ T _ _ H) as (n & p & Hn & Hp).
  destruct (parent_of_depth d _ T _ _ _ _ H Hn Hp) as [Hlt _]. apply lookup_lt_Some in Hn. unfold nodes in Hn. rewrite length_map in Hn. lia.
Qed.

Lemma outcome_fuel f f' i : (length cd - i <= f)%nat -> (length cd - i <= f')%nat -> (i < length cd)%nat ->
  outcome f cd i = outcome f' cd i.
Proof using T.
  revert f' i. induction f as [|f IH]; intros f' i Hf Hf' Hi; [lia|]. destruct f' as [|f']; [lia|]. cbn.
  pose proof (child_range i) as Hr. destruct (children (nodes cd) i) as [|k ks]; [done|].
  assert (Hext : forall l, (forall x, x ∈ l -> (i < x < length cd)%nat) ->
            existsb (fun x => negb (outcome f cd x)) l = existsb (fun x => negb (outcome f' cd x)) l).
  { clear -IH Hf Hf'. induction l as [|x l IHl]; intros Hx; [done|]. cbn. assert (i < x < length cd)%nat by (apply Hx; left).
    rewrite (IH f' x) by lia. f_equal. apply IHl. intros y Hy. apply Hx. by right. }
  by apply (Hext (k :: ks)).
Qed.

Lemma countered_eq i : (i < length cd)%nat ->
  countered cd i = match children (nodes cd) i with [] => flag cd i | ks => existsb (fun k => negb (countered cd k)) ks end.
Proof using T.
  intros Hi. unfold countered. rewrite (outcome_fuel _ (S (length cd)) i) by lia. done.
Qed.

Lemma countered_leaf i : (i < length cd)%nat -> children (nodes cd) i = [] -> countered cd i = flag cd i.
Proof using T. intros Hi Hc. by rewrite countered_eq, Hc. Qed.

Lemma countered_true i k : k ∈ children (nodes cd) i -> countered cd k = false -> countered cd i = true.
Proof using T.
  intros Hk Hc. pose proof (child_range i k Hk). rewrite countered_eq by lia. destruct (children (nodes cd) i) eqn:He; [by apply elem_of_nil in Hk|].
  apply existsb_exists. exists k. split; [by apply list_elem_of_In|]. by rewrite Hc.
Qed.

Lemma countered_false i : (i < length cd)%nat -> (children (nodes cd) i = [] -> flag cd i = false) ->
  (forall k, k ∈ children (nodes cd) i -> countered cd k = true) -> countered cd i = false.
Proof using T.
  intros Hi Hnil Hall. rewrite countered_eq by done. destruct (children (nodes cd) i) as [|k ks] eqn:He; [by apply Hnil|].
  apply not_true_iff_false. intros H. apply existsb_exists in H as (x & Hx & H). apply list_elem_of_In in Hx.
  by rewrite (Hall x Hx) in H.
Qed.
End Outcome.

Lemma leaf_no_children d ns i n : tree d ns -> ns !! i = Some n -> ps_depth (posn n) = d -> children ns i = [].
Proof using.
  intros T Hn Hd. destruct (children ns i) as [|k ks] eqn:He; [done|]. assert (Hk : k ∈ children ns i) by (rewrite He; left).
  apply children_spec in Hk. destruct (parent_of_lookup d _ T _ _ Hk) as (m & p & Hm & Hp). simplify_eq.
  destruct (parent_of_depth _ _ T _ _ _ _ Hk Hm Hn) as [_ Hdep]. destruct (tree_position _ _ T k m Hm) as (_ & _ & ?). lia.
Qed.


Lemma node_at cd i c : cd !! i = Some c -> nodes cd !! i = Some (node_of c).
Proof. intros H. by rewrite nodes_lookup, H. Qed.

(** A claim can only be won or lost below it. *)
Lemma ancestor_trans_parent ns i k j : ancestor ns i k -> parent_of ns k = Some j -> ancestor ns i j.
Proof. induction 1; intros Hj; eapply ancestor_up; eauto using ancestor_parent. Qed.

Lemma countered_frame d cd cd' i j : tree d (nodes cd) -> tree d (nodes cd') -> (length cd <= length cd')%nat ->
  (forall k, (k < length cd)%nat -> k <> i -> children (nodes cd') k = children (nodes cd) k /\ flag cd' k = flag cd k) ->
  (j < length cd)%nat -> j <> i -> ~ ancestor (nodes cd) i j -> countered cd' j = countered cd j.
Proof.
  intros T T' Hl Hsame. remember (length cd - j)%nat as m eqn:Hm. revert j Hm. induction m as [m IH] using lt_wf_ind.
  intros j -> Hj Hji Hanc. rewrite (countered_eq d cd' T'), (countered_eq d cd T) by lia. destruct (Hsame j Hj Hji) as [-> ->].
  assert (Hext : forall l, (forall k, k ∈ l -> k ∈ children (nodes cd) j) ->
            existsb (fun k => negb (countered cd' k)) l = existsb (fun k => negb (countered cd k)) l).
  { induction l as [|k l IHl]; intros Hin; [done|]. cbn. rewrite IHl by (intros x Hx; apply Hin; by right). f_equal. f_equal.
    assert (Hk : k ∈ children (nodes cd) j) by (apply Hin; left). pose proof (child_range d cd T j k Hk). apply children_spec in Hk.
    apply (IH (length cd - k)%nat); [lia|done|lia| |].
    - intros ->. apply Hanc. by apply ancestor_parent.
    - intros Ha. apply Hanc. by eapply ancestor_trans_parent. }
  pose proof (Hext (children (nodes cd) j) (fun _ H => H)). by destruct (children (nodes cd) j).
Qed.

(** Only the flags of claims without replies matter. *)
Lemma countered_leaves cd cd' j : nodes cd' = nodes cd ->
  (forall k, children (nodes cd) k = [] -> flag cd' k = flag cd k) -> countered cd' j = countered cd j.
Proof.
  intros Hn Hf. unfold countered. rewrite (nodes_length _ _ Hn). generalize (length cd) as f. intros f. revert j.
  induction f as [|f IH]; intros j; [done|]. cbn [outcome]. rewrite Hn.
  assert (Hext : forall l, existsb (fun k => negb (outcome f cd' k)) l = existsb (fun k => negb (outcome f cd k)) l).
  { induction l as [|x l IHl]; [done|]. cbn. by rewrite IH, IHl. }
  pose proof (Hext (children (nodes cd) j)). destruct (children (nodes cd) j) eqn:Hk; [by apply Hf|done].
Qed.

(** ** The calls *)

#[local] Notation subgame g i := (default [] (fg_subgames g !! Z.of_nat i)).

(** A claim that [resolveClaim] was called for. *)
Definition resolved (g : FaultDisputeGame) (i : nat) : Prop :=
  children (nodes (fg_claimData g)) i <> [] /\ subgame g i = [] \/ i = 0%nat /\ fg_subgameAtRootResolved g = true.

(** Neither the claim nor one above it is resolved. *)
Definition unresolved_above (g : FaultDisputeGame) (i : Z) : Prop :=
  forall k, k = Z.to_nat i \/ ancestor (nodes (fg_claimData g)) (Z.to_nat i) k -> ~ resolved g k.

(** The same, as a walk up the parents. *)
Definition resolved_b (g : FaultDisputeGame) (i : nat) : bool :=
  if (i =? 0)%nat && fg_subgameAtRootResolved g then true
  else if bool_decide (subgame g i = []) then negb (bool_decide (children (nodes (fg_claimData g)) i = [])) else false.

Fixpoint unresolved_above_b (fuel : nat) (g : FaultDisputeGame) (i : nat) : bool :=
  match fuel with
  | O => false
  | S fuel =>
      if resolved_b g i then false
      else match parent_of (nodes (fg_claimData g)) i with Some j => unresolved_above_b fuel g j | None => true end
  end.

Lemma resolved_b_spec g i : resolved_b g i = false -> ~ resolved g i.
Proof.
  unfold resolved_b. intros H [[Hch Hs]|[-> Hr]]; [|by rewrite Hr in H]. destruct (_ && _); [done|].
  rewrite bool_decide_true in H by done. by rewrite bool_decide_false in H.
Qed.

Lemma unresolved_above_b_spec fuel g i : unresolved_above_b fuel g (Z.to_nat i) = true -> unresolved_above g i.
Proof.
  unfold unresolved_above. generalize (Z.to_nat i) as j. induction fuel as [|fuel IH]; intros j H k Hk; [done|]. cbn in H.
  destruct (resolved_b g j) eqn:Hr; [done|]. apply resolved_b_spec in Hr. destruct Hk as [->|Hk]; [done|].
  inversion Hk as [? ? Hp|? l ? Hp Ha]; subst; rewrite Hp in H; apply (IH _ H k); auto.
Qed.

Section Play.
Variable Keccak256Hash : bytes -> Hash.
Variable ABSOLUTE_PRESTATE : Hash.
Variable MAX_GAME_DEPTH : Z.
Variable GAME_DURATION : Z.
Context {Oracle : Type}.
Variable VM_step : Oracle -> bytes -> bytes -> option Hash.
Hypothesis Hdepth : 1 <= MAX_GAME_DEPTH <= 63.

#[local] Notation D := MAX_GAME_DEPTH.
#[local] Notation stepped := (stepped Keccak256Hash ABSOLUTE_PRESTATE VM_step).

(** A call that succeeds. *)
Inductive play (g : FaultDisputeGame) : FaultDisputeGame -> Prop :=
| play_move i claim att now g' : is_array 32 claim -> unresolved_above g i ->
    move Keccak256Hash MAX_GAME_DEPTH GAME_DURATION i claim att now g = Ok g' -> play g g'
| play_step i att oracle data proof g' : unresolved_above g i ->
    step Keccak256Hash ABSOLUTE_PRESTATE MAX_GAME_DEPTH VM_step i att oracle data proof g = Ok g' -> play g g'
| play_resolve i now g' : resolveClaim GAME_DURATION i now g = Ok g' -> play g g'.

Definition reachable (g : FaultDisputeGame) : Prop :=
  exists root now g0, is_array 32 root /\ initialize root now = Ok g0 /\ rtc play g0 g.

Inductive resolves (g : FaultDisputeGame) : FaultDisputeGame -> Prop :=
| resolves_claim i now g' : resolveClaim GAME_DURATION i now g = Ok g' -> resolves g g'.

(** *** The invariant *)

Record game_inv (g : FaultDisputeGame) : Prop := {
  gi_status : fg_status g = GameStatusInProgress;
  gi_tree : tree D (nodes (fg_claimData g));
  gi_subgames : forall i, subgame g i = map Z.of_nat (children (nodes (fg_claimData g)) i) \/
    subgame g i = [] /\ flag (fg_claimData g) i = countered (fg_claimData g) i;
  gi_open : fg_subgameAtRootResolved g = false -> subgame g 0 = map Z.of_nat (children (nodes (fg_claimData g)) 0);
  gi_closed : fg_subgameAtRootResolved g = true -> subgame g 0 = [] /\ flag (fg_claimData g) 0 = countered (fg_claimData g) 0;
  gi_flags : forall i c, fg_claimData g !! i = Some c -> oc_Countered c = true ->
    children (nodes (fg_claimData g)) i <> [] \/
    (ps_depth (posn (node_of c)) = D /\ stepped (nodes (fg_claimData g)) i (node_of c));
  gi_hashes : forall h, h ∈ fg_claims g -> exists i c, fg_claimData g !! S i = Some c /\
    h = hashClaimPos Keccak256Hash (oc_Claim c) (oc_Position c) (oc_ParentIndex c);
  gi_claims : forall i c, fg_claimData g !! i = Some c -> is_array 32 (oc_Claim c);
}.

Lemma initialize_inv root now g : is_array 32 root -> initialize root now = Ok g -> game_inv g.
Proof using Hdepth.
  intros Hr H. unfold initialize in H. ok_inv. split; cbn; try done.
  - split.
    + eexists. split; [done|]. split; [done|]. done.
    + done.
    + intros [|i] n; [|done]. intros [= <-].
      change (posn _) with (mkPosition 0 0). split; [|split]; [split; done|done|cbn; lia].
  - intros i. left. unfold children. cbn. rewrite lookup_empty. cbn. by destruct i.
  - intros [|i] c; [|done]. by intros [= <-].
  - intros [|i] c; [|done]. by intros [= <-].
Qed.

(** What a move does to the claims and the subgames. *)
Lemma move_shape i v att now g g' : tree D (nodes (fg_claimData g)) -> Z.of_nat (length (fg_claimData g')) < 2 ^ 32 ->
  move Keccak256Hash D GAME_DURATION i v att now g = Ok g' ->
  exists j c clock, i = Z.of_nat j /\ fg_claimData g !! j = Some c /\ lp_depth (lp_move (oc_Position c) att) <= D /\
    (j = 0%nat -> att = true) /\ fg_status g = GameStatusInProgress /\
    let n := {| oc_ParentIndex := i; oc_Countered := false; oc_Claim := v; oc_Position := lp_move (oc_Position c) att; oc_Clock := clock |} in
    g' = {| fg_status := fg_status g; fg_claimData := counter_claim i true (fg_claimData g ++ [n]);
            fg_claims := {[hashClaimPos Keccak256Hash v (lp_move (oc_Position c) att) i]} ∪ fg_claims g;
            fg_subgames := <[i := subgame g j ++ [Z.of_nat (length (fg_claimData g))]]> (fg_subgames g);
            fg_subgameAtRootResolved := fg_subgameAtRootResolved g |}.
Proof using.
  intros T Hlen H. unfold move in H. destruct (bool_decide_reflect (fg_status g = GameStatusInProgress)); [cbn [negb] in H|done].
  destruct ((i =? 0) && negb att) eqn:Hroot; [done|]. apply res_bind_ok in H as (c & Hc & H).
  apply claim_at_ok in Hc as [Hi Hc]. destruct (Z.ltb_spec D (lp_depth (lp_move (oc_Position c) att))) as [|Hdep]; [done|].
  apply res_bind_ok in H as (gp & _ & H). destruct (_ <? 0); [done|]. destruct (_ <? _); [done|].
  destruct (bool_decide _); [done|]. apply Ok_inj in H.
  assert (Hl : length (fg_claimData g') = S (length (fg_claimData g))) by (subst g'; cbn; rewrite length_counter, length_app; cbn; lia).
  pose proof (lookup_lt_Some _ _ _ Hc). assert (Hu : u32 i = i) by (unfold u32; rewrite Z.mod_small; lia).
  exists (Z.to_nat i), c. eexists. split; [lia|]. split; [done|]. split; [done|].
  split; [intros Hi0; destruct (Z.eqb_spec i 0); [by destruct att|lia]|]. split; [done|]. cbv zeta. subst g'. rewrite Hu.
  rewrite length_app. cbn [length]. replace (Z.of_nat (Z.to_nat i)) with i by lia. do 4 f_equal. lia.
Qed.

Lemma counter_elem i b cd k c : cd !! k = Some c -> exists c', counter_claim i b cd !! k = Some c' /\ node_of c' = node_of c.
Proof using.
  intros Hc. unfold counter_claim. destruct (decide (Z.to_nat i = k)) as [->|Hk].
  - rewrite list_lookup_alter_eq, Hc. by eexists.
  - rewrite list_lookup_alter_ne by done. eauto.
Qed.

Lemma unresolved_above_spec g j k : unresolved_above g (Z.of_nat j) -> resolved g k ->
  k <> j /\ ~ ancestor (nodes (fg_claimData g)) j k.
Proof using. intros H Hk. unfold unresolved_above in H. rewrite Nat2Z.id in H. split; intros Ha; apply (H k); auto. Qed.

(** The subgame of a claim that is not resolved is its children. *)
Lemma unresolved_subgame g k : game_inv g -> ~ resolved g k -> subgame g k = map Z.of_nat (children (nodes (fg_claimData g)) k).
Proof using.
  intros Inv Hk. destruct (gi_subgames _ Inv k) as [H|[H _]]; [done|].
  destruct (children (nodes (fg_claimData g)) k) eqn:He; [done|]. exfalso. apply Hk. left. by rewrite He.
Qed.

(** What a call below unresolved claims leaves of the subgames. *)
Lemma subgames_kept g cd' (sg : gmap Z (list Z)) j : game_inv g -> unresolved_above g (Z.of_nat j) -> tree D (nodes cd') ->
  (length (fg_claimData g) <= length cd')%nat ->
  (forall k, (k < length (fg_claimData g))%nat -> k <> j ->
    children (nodes cd') k = children (nodes (fg_claimData g)) k /\ flag cd' k = flag (fg_claimData g) k) ->
  (forall k, k <> j -> sg !! Z.of_nat k = fg_subgames g !! Z.of_nat k) ->
  forall k, (k < length (fg_claimData g))%nat -> k <> j ->
    default [] (sg !! Z.of_nat k) = map Z.of_nat (children (nodes cd') k) \/
    default [] (sg !! Z.of_nat k) = [] /\ flag cd' k = countered cd' k.
Proof using.
  intros Inv Hun T' Hl Hsame Hsg k Hk Hkj. rewrite Hsg by done. destruct (Hsame k Hk Hkj) as [Hch Hf]. rewrite Hch, Hf.
  destruct (gi_subgames _ Inv k) as [H|[H Hc]]; [by left|]. destruct (children (nodes (fg_claimData g)) k) eqn:He; [by left|right].
  split; [done|]. destruct (unresolved_above_spec g j k Hun) as [_ Ha]; [left; by rewrite He|].
  rewrite (countered_frame D (fg_claimData g) cd' j k); [done|apply Inv|done..].
Qed.

Lemma root_kept g cd' (sg : gmap Z (list Z)) j : game_inv g -> unresolved_above g (Z.of_nat j) -> tree D (nodes cd') ->
  (length (fg_claimData g) <= length cd')%nat ->
  (forall k, (k < length (fg_claimData g))%nat -> k <> j ->
    children (nodes cd') k = children (nodes (fg_claimData g)) k /\ flag cd' k = flag (fg_claimData g) k) ->
  (forall k, k <> j -> sg !! Z.of_nat k = fg_subgames g !! Z.of_nat k) ->
  fg_subgameAtRootResolved g = true -> default [] (sg !! Z.of_nat 0) = [] /\ flag cd' 0 = countered cd' 0.
Proof using.
  intros Inv Hun T' Hl Hsame Hsg Hr. destruct (unresolved_above_spec g j 0 Hun) as [Hj Ha]; [by right|].
  destruct (tree_root _ _ (gi_tree _ Inv)) as (r & Hroot & _). apply lookup_lt_Some in Hroot. unfold nodes in Hroot. rewrite length_map in Hroot.
  rewrite (countered_frame D (fg_claimData g) cd' j 0); [|apply Inv|done..]. destruct (Hsame 0%nat Hroot Hj) as [_ ->]. rewrite Hsg by done. by apply Inv.
Qed.

Section Move.
Variable g : FaultDisputeGame.
Variable j : nat.
Variable c n : OnchainClaim.
Hypothesis Hc : fg_claimData g !! j = Some c.
Hypothesis Hpar : oc_ParentIndex n = Z.of_nat j.

#[local] Notation cd := (fg_claimData g).
#[local] Notation cd' := (counter_claim (Z.of_nat j) true (cd ++ [n])).

Lemma moved_nodes : nodes cd' = nodes cd ++ [node_of n].
Proof using. rewrite nodes_counter. unfold nodes. by rewrite map_app. Qed.

Lemma moved_length : length cd' = S (length cd).
Proof using. rewrite length_counter, length_app. cbn. lia. Qed.

Lemma moved_children k : children (nodes cd') k = children (nodes cd) k ++ (if decide (k = j) then [length cd] else []).
Proof using Hc Hpar.
  rewrite moved_nodes, (children_snoc _ (node_of n) j); [unfold nodes; by rewrite length_map| |done].
  intros He. pose proof (lookup_lt_Some _ _ _ Hc) as Hlt. apply (f_equal length) in He. unfold nodes in He. rewrite length_map in He. cbn in He. lia.
Qed.

Lemma moved_flag k : (k < length cd)%nat -> k <> j -> flag cd' k = flag cd k.
Proof using. intros Hk Hkj. rewrite flag_counter by (rewrite length_app; lia). rewrite decide_False by congruence. unfold flag. by rewrite lookup_app_l. Qed.

Lemma moved_same k : (k < length cd)%nat -> k <> j ->
  children (nodes cd') k = children (nodes cd) k /\ flag cd' k = flag cd k.
Proof using Hc Hpar. intros Hk Hkj. rewrite moved_children, decide_False, app_nil_r by done. split; [done|by apply moved_flag]. Qed.

Lemma moved_subgame k : subgame {| fg_status := fg_status g; fg_claimData := cd'; fg_claims := fg_claims g;
    fg_subgames := <[Z.of_nat j := subgame g j ++ [Z.of_nat (length cd)]]> (fg_subgames g);
    fg_subgameAtRootResolved := fg_subgameAtRootResolved g |} k =
  subgame g k ++ map Z.of_nat (if decide (k = j) then [length cd] else []).
Proof using.
  cbn. destruct (decide (k = j)) as [->|Hk]; [by rewrite lookup_insert_eq|]. rewrite lookup_insert_ne by lia. by rewrite app_nil_r.
Qed.
End Move.

Lemma move_inv i v att now g g' : is_array 32 v -> unresolved_above g i -> game_inv g -> Z.of_nat (length (fg_claimData g')) < 2 ^ 32 ->
  move Keccak256Hash D GAME_DURATION i v att now g = Ok g' -> game_inv g'.
Proof using Hdepth.
  intros Hv Hun Inv Hlen H. pose proof (gi_tree _ Inv) as T.
  destruct (move_shape _ _ _ _ _ _ T Hlen H) as (j & c & clock & -> & Hc & Hdep & Hroot & Hst & Hg').
  cbv zeta in Hg'. set (n := mkOnchainClaim _ _ _ _ _) in Hg'. assert (Hpar : oc_ParentIndex n = Z.of_nat j) by done.
  pose proof (moved_nodes g j n) as Hns. pose proof (moved_length g j n) as Hl. pose proof (moved_children g j c n Hc Hpar) as Hch.
  pose proof (moved_same g j c n Hc Hpar) as Hsame. pose proof (moved_subgame g j n) as Hsub. cbn in Hsub.
  set (cd' := counter_claim (Z.of_nat j) true (fg_claimData g ++ [n])) in *. subst g'. cbn [fg_claimData] in Hlen.
  assert (T' : tree D (nodes cd')).
  { rewrite Hns. eapply (tree_snoc D _ j (node_of c) (node_of n) att); [done|lia|by rewrite nodes_lookup, Hc|done..]. }
  split; cbn [fg_status fg_claimData fg_claims fg_subgames fg_subgameAtRootResolved].
  - done.
  - done.
  - intros k. destruct (decide (k = j)) as [->|Hkj].
    + left. rewrite Hsub, Hch, map_app. f_equal. apply unresolved_subgame; [done|]. intros Hr. by destruct (unresolved_above_spec g j j Hun Hr).
    + destruct (decide (k < length (fg_claimData g))%nat) as [Hk|Hk].
      * apply (subgames_kept g cd' _ j); [done..|lia|done| |done|done]. intros x Hx. by rewrite lookup_insert_ne by lia.
      * left. rewrite Hsub, Hch, map_app. f_equal. apply unresolved_subgame; [done|]. intros [[Hr _]|[-> _]].
        -- apply Hr. destruct (children _ k) as [|x l] eqn:He; [done|]. assert (Hx : x ∈ children (nodes (fg_claimData g)) k) by (rewrite He; left).
           pose proof (child_range D _ T k x Hx). lia.
        -- apply lookup_lt_Some in Hc. lia.
  - intros Ho. rewrite (Hsub 0%nat), Hch, map_app. f_equal. by apply Inv.
  - apply (root_kept g cd' _ j); [done..|lia|done|]. intros x Hx. by rewrite lookup_insert_ne by lia.
  - intros k x Hx Hflag. rewrite Hch. destruct (decide (k = j)) as [->|Hk]; [left; by intros [_ ?]%app_eq_nil|].
    rewrite app_nil_r. apply counter_lookup in Hx as (x0 & Hx & Hnx & Hcx).
    rewrite decide_False in Hcx by lia. apply lookup_app_Some in Hx as [Hx|[Hge Hx]].
    + rewrite Hcx in Hflag. destruct (gi_flags _ Inv k x0 Hx Hflag) as [?|[? ?]]; [by left|right].
      rewrite Hnx, Hns. split; [done|]. by apply stepped_app.
    + destruct (k - length (fg_claimData g))%nat; [|done]. cbn in Hx. simplify_eq. by rewrite Hcx in Hflag.
  - intros h Hh. pose proof (lookup_lt_Some _ _ _ Hc). apply elem_of_union in Hh as [->%elem_of_singleton|Hh].
    + exists (length (fg_claimData g) - 1)%nat, n. split; [|done]. unfold cd', counter_claim.
      replace (S (length (fg_claimData g) - 1)) with (length (fg_claimData g)) by lia.
      rewrite list_lookup_alter_ne by lia. by apply list_lookup_middle.
    + destruct (gi_hashes _ Inv h Hh) as (k & x & Hx & ->).
      destruct (counter_elem (Z.of_nat j) true (fg_claimData g ++ [n]) (S k) x) as (x' & Hx' & Hnx); [by apply lookup_app_l_Some|].
      exists k, x'. split; [done|]. by injection Hnx as -> -> ->.
  - intros k x Hx. apply counter_lookup in Hx as (x0 & Hx & Hnx & _).
    assert (oc_Claim x = oc_Claim x0) as -> by by injection Hnx.
    apply lookup_app_Some in Hx as [Hx|[Hge Hx]]; [by apply (gi_claims _ Inv k)|].
    destruct (k - length (fg_claimData g))%nat; [|done]. cbn in Hx. by simplify_eq.
Qed.

Lemma step_inv i att oracle data proof g g' : unresolved_above g i -> game_inv g -> Z.of_nat (length (fg_claimData g')) < 2 ^ 32 ->
  step Keccak256Hash ABSOLUTE_PRESTATE D VM_step i att oracle data proof g = Ok g' -> game_inv g'.
Proof using Hdepth.
  intros Hun Inv Hlen H. unfold step in H. destruct (bool_decide _); [cbn [negb] in H|done].
  apply res_bind_ok in H as (c & Hc & H). apply claim_at_ok in Hc as [Hi Hc].
  apply res_bind_ok in H as ([] & Hchk & H). apply Ok_inj in H. subst g'. cbn in Hlen. rewrite length_counter in Hlen.
  pose proof (gi_tree _ Inv) as T. apply (step_check_spec _ _ _ _ Hdepth _ T Hlen _ _ _ _ _ _ Hc) in Hchk as (Hpos & Hleaf & Hst).
  remember (Z.to_nat i) as j eqn:Hj. assert (i = Z.of_nat j) as -> by lia. clear Hj Hi.
  pose proof (lookup_lt_Some _ _ _ Hc) as Hlt. pose proof (leaf_no_children D _ j _ T (node_at _ j c Hc) Hleaf) as Hnil.
  assert (Hsame : forall k, (k < length (fg_claimData g))%nat -> k <> j ->
    children (nodes (counter_claim (Z.of_nat j) true (fg_claimData g))) k = children (nodes (fg_claimData g)) k /\
    flag (counter_claim (Z.of_nat j) true (fg_claimData g)) k = flag (fg_claimData g) k).
  { intros k Hk Hkj. rewrite nodes_counter, flag_counter, decide_False by congruence. done. }
  split; cbn [fg_status fg_claimData fg_claims fg_subgames fg_subgameAtRootResolved]; rewrite ?nodes_counter; try apply Inv.
  - intros k. destruct (decide (k = j)) as [->|Hkj].
    + left. apply unresolved_subgame; [done|]. intros Hr. by destruct (unresolved_above_spec g j j Hun Hr).
    + destruct (decide (k < length (fg_claimData g))%nat) as [Hk|Hk].
      * pose proof (subgames_kept g (counter_claim (Z.of_nat j) true (fg_claimData g)) (fg_subgames g) j Inv Hun) as Hkept.
        rewrite nodes_counter, length_counter in Hkept. rewrite nodes_counter in Hsame. by apply Hkept.
      * left. apply unresolved_subgame; [done|]. intros [[Hr _]|[-> _]]; [|lia].
        apply Hr. destruct (children _ k) as [|x l] eqn:He; [done|]. assert (Hx : x ∈ children (nodes (fg_claimData g)) k) by (rewrite He; left).
        pose proof (child_range D _ T k x Hx). lia.
  - pose proof (root_kept g (counter_claim (Z.of_nat j) true (fg_claimData g)) (fg_subgames g) j Inv Hun) as Hkept.
    rewrite nodes_counter, length_counter in Hkept. rewrite nodes_counter in Hsame. by apply Hkept.
  - intros k x Hx Hflag. apply counter_lookup in Hx as (x0 & Hx & Hnx & Hcx). rewrite Nat2Z.id in Hcx.
    destruct (decide (j = k)) as [<-|]; [|rewrite Hnx; apply (gi_flags _ Inv k x0 Hx); congruence].
    rewrite Hc in Hx. injection Hx as <-. rewrite Hnx. right. split; [done|]. by exists att, oracle, data, proof.
  - intros h Hh. destruct (gi_hashes _ Inv h Hh) as (k & x & Hx & ->).
    destruct (counter_elem (Z.of_nat j) true _ (S k) x Hx) as (x' & Hx' & Hnx). exists k, x'. split; [done|]. by injection Hnx as -> -> ->.
  - intros k x Hx. apply counter_lookup in Hx as (x0 & Hx & Hnx & _).
    assert (oc_Claim x = oc_Claim x0) as -> by by injection Hnx. by apply (gi_claims _ Inv k).
Qed.

(** ** Resolution *)

(** A game in the middle of its resolution, and what it was before. *)
Record resolving (g0 g : FaultDisputeGame) : Prop := {
  rs_status : fg_status g = GameStatusInProgress;
  rs_nodes : nodes (fg_claimData g) = nodes (fg_claimData g0);
  rs_claim : forall i, (i < length (fg_claimData g0))%nat ->
    (default [] (fg_subgames g !! Z.of_nat i) = map Z.of_nat (children (nodes (fg_claimData g0)) i) /\
     flag (fg_claimData g) i = flag (fg_claimData g0) i) \/
    (default [] (fg_subgames g !! Z.of_nat i) = [] /\ flag (fg_claimData g) i = countered (fg_claimData g0) i);
  rs_open : fg_subgameAtRootResolved g = false ->
    default [] (fg_subgames g !! 0) = map Z.of_nat (children (nodes (fg_claimData g0)) 0);
  rs_root : fg_subgameAtRootResolved g = true -> subgame g 0 = [] /\ flag (fg_claimData g) 0 = countered (fg_claimData g0) 0;
}.

Lemma resolving_start g : game_inv g -> resolving g g.
Proof using.
  intros Inv. split; [apply Inv|done| | |]; [|apply (gi_open _ Inv)|apply (gi_closed _ Inv)].
  intros i _. destruct (gi_subgames _ Inv i); auto.
Qed.

Section Resolve.
Variable g0 : FaultDisputeGame.
Hypothesis Inv0 : game_inv g0.

#[local] Notation cd0 := (fg_claimData g0).

(** A claim without open subgames has its final flag. *)
Lemma closed_flag g k : resolving g0 g -> (k < length cd0)%nat -> default [] (fg_subgames g !! Z.of_nat k) = [] ->
  flag (fg_claimData g) k = countered cd0 k.
Proof using Inv0.
  intros R Hk Hnil. destruct (rs_claim _ _ R k Hk) as [[Hs Hf]|[_ Hf]]; [|done]. rewrite Hnil in Hs. symmetry in Hs.
  apply map_eq_nil in Hs. rewrite Hf. symmetry. apply (countered_leaf D); [apply Inv0|done..].
Qed.

Lemma any_uncountered_spec g ks b : resolving g0 g -> (forall k, k ∈ ks -> (k < length cd0)%nat) ->
  any_uncountered g (map Z.of_nat ks) = Ok b -> b = existsb (fun k => negb (countered cd0 k)) ks.
Proof using Inv0.
  intros R. induction ks as [|k ks IH]; intros Hks H; [by injection H|]. cbn [map any_uncountered] in H.
  destruct (bool_decide_reflect (default [] (fg_subgames g !! Z.of_nat k) = [])) as [Hnil|]; [|done]. cbn [negb] in H.
  apply res_bind_ok in H as (c & Hc & H). apply claim_at_nat in Hc.
  rewrite <- (flag_at _ _ _ Hc), (closed_flag g k R) in H by (done || by apply Hks; left). cbn [existsb].
  destruct (negb (countered cd0 k)); [by injection H|]. cbn. apply IH; [|done]. intros x Hx. apply Hks. by right.
Qed.

Lemma resolveClaim_resolving g i now g' : resolving g0 g -> resolveClaim GAME_DURATION i now g = Ok g' -> resolving g0 g'.
Proof using Inv0 Hdepth.
  intros R H. unfold resolveClaim in H. destruct (bool_decide _); [cbn [negb] in H|done].
  apply res_bind_ok in H as (c & Hc & H). apply claim_at_ok in Hc as [Hi Hc]. destruct (_ <? _); [done|]. destruct (_ <=? _); [done|].
  destruct ((i =? 0) && _) eqn:Hroot; [done|]. destruct (bool_decide _ && _) eqn:Hempty; [done|].
  apply res_bind_ok in H as (b & Hb & H). apply Ok_inj in H. subst g'.
  set (k := Z.to_nat i) in *. assert (Hk : i = Z.of_nat k) by lia. clearbody k. subst i. pose proof (lookup_lt_Some _ _ _ Hc) as Hlt.
  pose proof (nodes_length _ _ (rs_nodes _ _ R)) as Hl.
  assert (Hb' : b = countered cd0 k).
  { pose proof (gi_tree _ Inv0) as T0. destruct (decide (default [] (fg_subgames g !! Z.of_nat k) = [])) as [Hnil|Hne].
    - rewrite Hnil in Hb, Hempty. rewrite bool_decide_true in Hempty by done. destruct (Z.eqb_spec (Z.of_nat k) 0) as [Hk0|]; [|done].
      assert (k = 0%nat) as -> by lia. cbn in Hb. injection Hb as <-. cbn in Hroot.
      pose proof (rs_open _ _ R Hroot) as Ho. change (Z.of_nat 0) with 0 in Hnil. rewrite Hnil in Ho. symmetry in Ho. apply map_eq_nil in Ho.
      rewrite (countered_leaf D) by (done || lia). unfold flag. destruct (cd0 !! 0%nat) as [r|] eqn:Hr; [|done].
      destruct (oc_Countered r) eqn:Hf; [|done]. destruct (gi_flags _ Inv0 0 r Hr Hf) as [?|[Hd _]]; [done|].
      rewrite (posn_root D _ T0 _ (node_at _ _ _ Hr)) in Hd. cbn in Hd. lia.
    - destruct (rs_claim _ _ R k ltac:(lia)) as [[Hs _]|[Hs _]]; [|done]. rewrite Hs in Hb, Hne.
      rewrite (any_uncountered_spec g _ b R) by (done || intros x Hx; pose proof (child_range D cd0 T0 k x Hx); lia).
      rewrite (countered_eq D) by (done || lia). by destruct (children (nodes cd0) k). }
  split; cbn [fg_status fg_claimData fg_subgames fg_subgameAtRootResolved].
  - apply R.
  - rewrite nodes_counter. apply R.
  - intros j Hj. rewrite flag_counter by lia. destruct (decide (k = j)) as [->|Hkj].
    + right. by rewrite lookup_delete_eq.
    + rewrite lookup_delete_ne by lia. by apply R.
  - intros Ho. apply orb_false_iff in Ho as [Hk0 Ho]. apply Z.eqb_neq in Hk0. rewrite lookup_delete_ne by lia. by apply R.
  - intros Ho. rewrite flag_counter by lia. destruct (decide (k = 0%nat)) as [->|Hk0]; [by rewrite lookup_delete_eq|].
    rewrite lookup_delete_ne by lia. apply R. destruct (Z.eqb_spec (Z.of_nat k) 0); [lia|done].
Qed.

Lemma resolve_status g g' status : resolving g0 g -> resolve g = Ok (g', status) ->
  status = (if countered cd0 0 then GameStatusChallengerWon else GameStatusDefenderWon).
Proof using.
  intros R H. unfold resolve in H. destruct (negb _); [done|]. destruct (fg_subgameAtRootResolved g) eqn:Ho; [|done]. cbn [negb] in H.
  apply res_bind_ok in H as (c & Hc & H). apply (claim_at_nat _ 0) in Hc. injection H as _ <-.
  destruct (rs_root _ _ R Ho) as [_ <-]. by rewrite (flag_at _ _ _ Hc).
Qed.

Lemma resolves_resolving g g' : resolving g0 g -> rtc resolves g g' -> resolving g0 g'.
Proof using Inv0 Hdepth.
  intros R Hs. induction Hs as [|x y z [i now y' Hxy] _ IH]; [done|]. apply IH. by eapply resolveClaim_resolving.
Qed.
End Resolve.

(** *** Reachable games *)

Lemma resolveClaim_inv i now g g' : game_inv g -> resolveClaim GAME_DURATION i now g = Ok g' -> game_inv g'.
Proof using Hdepth.
  intros Inv H. pose proof (resolveClaim_resolving g Inv _ _ _ _ (resolving_start g Inv) H) as R.
  pose proof (rs_nodes _ _ R) as Hns. pose proof (nodes_length _ _ Hns) as Hl. pose proof (gi_tree _ Inv) as T.
  assert (Hleaf : forall k, children (nodes (fg_claimData g)) k = [] -> flag (fg_claimData g') k = flag (fg_claimData g) k).
  { intros k Hnil. destruct (decide (k < length (fg_claimData g))%nat) as [Hk|Hk].
    - destruct (rs_claim _ _ R k Hk) as [[_ ?]|[_ ->]]; [done|]. by apply (countered_leaf D).
    - unfold flag. rewrite !lookup_ge_None_2 by lia. done. }
  assert (Hcnt : forall k, countered (fg_claimData g') k = countered (fg_claimData g) k) by (intros k; by apply countered_leaves).
  assert (Hrest : fg_claims g' = fg_claims g /\ fg_claimData g' = counter_claim i (default false (oc_Countered <$> fg_claimData g' !! Z.to_nat i)) (fg_claimData g) /\
            forall k, (length (fg_claimData g) <= k)%nat -> fg_subgames g' !! Z.of_nat k = fg_subgames g !! Z.of_nat k).
  { unfold resolveClaim in H. destruct (negb _); [done|]. apply res_bind_ok in H as (c & Hc & H). apply claim_at_ok in Hc as [Hi Hc].
    destruct (_ <? _); [done|]. destruct (_ <=? _); [done|]. destruct (_ && _); [done|]. destruct (_ && _); [done|].
    apply res_bind_ok in H as (b & _ & H). apply Ok_inj in H. subst g'. cbn. split; [done|]. split.
    - f_equal. unfold counter_claim. by rewrite list_lookup_alter_eq, Hc.
    - intros k Hk. apply lookup_lt_Some in Hc. by rewrite lookup_delete_ne by lia. }
  destruct Hrest as (Hclaims & Hcd & Hbeyond). split.
  - apply R.
  - by rewrite Hns.
  - intros k. rewrite Hns, Hcnt. destruct (decide (k < length (fg_claimData g))%nat) as [Hk|Hk].
    + destruct (rs_claim _ _ R k Hk) as [[? _]|[? ?]]; auto.
    + rewrite Hbeyond by lia. destruct (gi_subgames _ Inv k) as [?|[? _]]; [by left|]. left.
      destruct (children (nodes (fg_claimData g)) k) as [|x l] eqn:He; [done|].
      assert (Hx : x ∈ children (nodes (fg_claimData g)) k) by (rewrite He; left). pose proof (child_range D _ T k x Hx). lia.
  - rewrite Hns. apply R.
  - rewrite Hcnt. apply R.
  - intros k x Hx Hflag. assert (Hk : (k < length (fg_claimData g))%nat) by (apply lookup_lt_Some in Hx; lia).
    rewrite Hns. destruct (children (nodes (fg_claimData g)) k) eqn:Hnil; [right|by left]. pose proof (Hleaf k Hnil) as Hf.
    destruct (lookup_lt_is_Some_2 _ _ Hk) as [x0 Hx0]. rewrite (flag_at _ _ _ Hx), (flag_at _ _ _ Hx0), Hflag in Hf.
    destruct (gi_flags _ Inv k x0 Hx0) as [?|Hst]; [done..|]. pose proof (node_at _ _ _ Hx) as Hn. rewrite Hns, (node_at _ _ _ Hx0) in Hn.
    apply (inj Some) in Hn. by rewrite <- Hn.
  - intros h Hh. rewrite Hclaims in Hh. destruct (gi_hashes _ Inv h Hh) as (k & x & Hx & ->). rewrite Hcd.
    destruct (counter_elem i (default false (oc_Countered <$> fg_claimData g' !! Z.to_nat i)) _ (S k) x Hx) as (x' & Hx' & Hnx).
    exists k, x'. split; [done|]. by injection Hnx as -> -> ->.
  - intros k x Hx. rewrite Hcd in Hx. apply counter_lookup in Hx as (x0 & Hx & Hnx & _).
    assert (oc_Claim x = oc_Claim x0) as -> by by injection Hnx. by apply (gi_claims _ Inv k).
Qed.

Lemma play_length g g' : play g g' -> (length (fg_claimData g) <= length (fg_claimData g'))%nat.
Proof using.
  intros [i v att now g1 _ _ H|i att o data proof g1 _ H|i now g1 H].
  - unfold move in H. destruct (negb _); [done|]. destruct (_ && _); [done|]. apply res_bind_ok in H as (c & _ & H).
    destruct (_ <? _); [done|]. apply res_bind_ok in H as (gp & _ & H). destruct (_ <? _); [done|]. destruct (_ <? _); [done|].
    destruct (bool_decide _); [done|]. apply Ok_inj in H. subst. cbn. rewrite length_counter, length_app. lia.
  - unfold step in H. destruct (negb _); [done|]. apply res_bind_ok in H as (c & _ & H).
    apply res_bind_ok in H as ([] & _ & H). apply Ok_inj in H. subst. cbn. by rewrite length_counter.
  - unfold resolveClaim in H. destruct (negb _); [done|]. apply res_bind_ok in H as (c & _ & H).
    destruct (_ <? _); [done|]. destruct (_ <=? _); [done|]. destruct (_ && _); [done|]. destruct (_ && _); [done|].
    apply res_bind_ok in H as (b & _ & H). apply Ok_inj in H. subst. cbn. by rewrite length_counter.
Qed.

Lemma play_inv g g' : play g g' -> game_inv g -> Z.of_nat (length (fg_claimData g')) < 2 ^ 32 -> game_inv g'.
Proof using Hdepth. intros [] ? ?; eauto using move_inv, step_inv, resolveClaim_inv. Qed.

Lemma plays_length g g' : rtc play g g' -> (length (fg_claimData g) <= length (fg_claimData g'))%nat.
Proof using. induction 1 as [|x y z Hxy _ IH]; [done|]. apply play_length in Hxy. lia. Qed.

Lemma game_reachable_inv g : reachable g -> Z.of_nat (length (fg_claimData g)) < 2 ^ 32 -> game_inv g.
Proof using Hdepth.
  intros (root & now & g0 & Hr & Hinit & Hsteps). apply (initialize_inv _ _ _ Hr) in Hinit. clear Hr.
  induction Hsteps as [g|g g1 g2 Hplay Hsteps IH]; intros Hlen; [done|]. apply IH; [|done].
  eapply play_inv; [done..|]. pose proof (plays_length _ _ Hsteps). lia.
Qed.
End Play.
