(* ===== verification/DisputeSafety.v ===== *)
(** * The honest challenger wins

    The strategy of the Go challenger against the contract, with everybody
    else free to move, step and resolve as the contract lets them, but not
    below a resolved claim: what the honest strategy claims is never countered,
    its transactions are accepted, and the game it has nothing more to do in is
    resolved the way it wants. *)

From S2P Require Import Prelude Eth Dispute Challenger FaultGame DisputePositions DisputeTree DisputePlay.

Section Honest.
Variable Keccak256Hash : bytes -> Hash.
Variable ABSOLUTE_PRESTATE : Hash.
Variable MAX_GAME_DEPTH : Z.
Variable GAME_DURATION : Z.
Context {Oracle : Type}.
Variable VM_step : Oracle -> bytes -> bytes -> option Hash.
Hypothesis Hdepth : 1 <= MAX_GAME_DEPTH <= 63.
Variable trace : TraceProvider.
Variable agreeWithProposedOutput : bool.

#[local] Notation D := MAX_GAME_DEPTH.

(** ** The program in dispute

    [state t] is the commitment to the state after instruction [t]; the state
    before the first one is number -1. The provider knows them, and what the
    VM makes of the pre-image of one is the next. [loaded] says that an oracle
    holds a pre-image. *)
Variable state : Z -> Hash.
Variable loaded : Oracle -> option PreimageOracleData -> Prop.

Record trace_laws : Prop := {
  tl_Get : forall p, pos_wf p -> ps_depth p <= D -> tp_Get trace p = Ok (state (trace_idx D p));
  tl_prestate : state (-1) = ABSOLUTE_PRESTATE;
  tl_array : forall t, is_array 32 (state t);
  tl_StepData : forall p, ps_depth p = D -> 0 <= ps_indexAtDepth p < 2 ^ D ->
    exists data proof preimage, tp_GetStepData trace p = Ok (data, proof, preimage) /\
      drop 1 (Keccak256Hash data) = drop 1 (state (ps_indexAtDepth p - 1)) /\
      forall oracle, loaded oracle preimage -> VM_step oracle data proof = Some (state (ps_indexAtDepth p));
  tl_VM : forall oracle data proof t v, 0 <= t < 2 ^ D -> drop 1 (Keccak256Hash data) = drop 1 (state (t - 1)) ->
    VM_step oracle data proof = Some v -> v = state t;
}.
Hypothesis TL : trace_laws.

(** ** The claims as the challenger reads them *)

Definition go_claims (cd : list OnchainClaim) : list Claim := imap (fun i => hydrate (Z.of_nat i)) cd.
Definition go_game (cd : list OnchainClaim) : gameState :=
  NewGameState Keccak256Hash agreeWithProposedOutput (go_claims cd) D.

Lemma go_lookup cd i : go_claims cd !! i = hydrate (Z.of_nat i) <$> cd !! i.
Proof using. unfold go_claims. by rewrite list_lookup_imap. Qed.

Lemma go_length cd : length (go_claims cd) = length cd.
Proof using. apply length_imap. Qed.

Lemma hydrate_position i c : c_Position (hydrate i c) = posn (node_of c).
Proof using. done. Qed.

(** A claim is correct when it says what the trace says. *)
Definition correct (n : node) : bool := bool_decide (n_claim n = state (trace_idx D (posn n))).

(** The reply to a claim. *)
Definition reply (n : node) : Position := if correct n then Defend (posn n) else Attack (posn n).

(** The claims of the honest strategy and those it has to answer: [line true]
    are honest, [line false] are moves against an honest claim (or a wrong
    root that is to be challenged). *)
Inductive line (ns : list node) : bool -> nat -> Prop :=
| line_root n : ns !! 0%nat = Some n -> correct n = negb agreeWithProposedOutput ->
    line ns (negb agreeWithProposedOutput) 0
| line_opposed i p : parent_of ns i = Some p -> line ns true p -> line ns false i
| line_reply i d n m : parent_of ns i = Some d -> ns !! i = Some n -> ns !! d = Some m -> line ns false d ->
    correct n = true -> posn n = reply m -> line ns true i.

(** A level of the tree is ours or theirs. *)
Definition ours (p : Position) : bool :=
  let isOddLevel := Z.rem (ps_depth p) 2 =? 1 in
  if agreeWithProposedOutput then isOddLevel else negb isOddLevel.

Lemma ours_child p q : 0 <= ps_depth q -> ps_depth p = ps_depth q + 1 -> ours p = negb (ours q).
Proof using.
  intros H0 Hp. unfold ours. rewrite Hp, !Z.rem_mod_nonneg by lia.
  destruct (Z.eqb_spec ((ps_depth q + 1) mod 2) 1), (Z.eqb_spec (ps_depth q mod 2) 1), agreeWithProposedOutput; try done; exfalso; ulia.
Qed.

Lemma parity p q : 0 <= ps_depth p -> 0 <= ps_depth q ->
  ((ps_depth p - ps_depth q) mod 2 =? 0) = eqb (ours p) (ours q).
Proof using.
  intros Hp Hq. unfold ours. rewrite !Z.rem_mod_nonneg by lia.
  destruct (Z.eqb_spec ((ps_depth p - ps_depth q) mod 2) 0), (Z.eqb_spec (ps_depth p mod 2) 1), (Z.eqb_spec (ps_depth q mod 2) 1),
    agreeWithProposedOutput; try done; exfalso; ulia.
Qed.

Section Tree.
Variable ns : list node.
Hypothesis T : tree D ns.

Lemma line_lookup b i : line ns b i -> exists n, ns !! i = Some n.
Proof using T.
  intros [n Hn _|j p Hp _|j d n m _ Hn _ _ _]; eauto. destruct (parent_of_lookup D ns T _ _ Hp) as (n & _ & Hn & _). eauto.
Qed.

Lemma line_level b i n : line ns b i -> ns !! i = Some n -> ours (posn n) = b.
Proof using T.
  intros Hl. revert n. induction Hl as [r Hr _|i p Hp Hl IH|i d n' m Hp Hn' Hm Hl IH _ _]; intros n Hn.
  - rewrite (posn_root D ns T n Hn). unfold ours. by destruct agreeWithProposedOutput.
  - destruct (parent_of_lookup D ns T i p Hp) as (n' & q & Hn' & Hq). simplify_eq.
    destruct (parent_of_depth D ns T i p n q Hp Hn Hq) as [_ Hd]. destruct (tree_position _ _ T p q Hq) as ([H0 _] & _).
    by rewrite (ours_child _ (posn q)), (IH q Hq) by done.
  - destruct (parent_of_depth D ns T i d n m Hp Hn Hm) as [_ Hd]. destruct (tree_position _ _ T d m Hm) as ([H0 _] & _).
    by rewrite (ours_child _ (posn m)), (IH m Hm) by done.
Qed.

Lemma line_correct i n : line ns true i -> ns !! i = Some n -> correct n = true.
Proof using.
  intros Hl Hn. inversion Hl; simplify_eq; congruence.
Qed.

Lemma line_root_wrong n : line ns false 0 -> ns !! 0%nat = Some n -> correct n = false.
Proof using.
  intros Hl Hn. inversion Hl; simplify_eq; try done; congruence.
Qed.

(** ** Bisection

    The claims on a line squeeze the trace: to the left of a claim, as far as
    its subtree reaches, is a claim that is correct (or the start of the
    trace), to the right one that is correct if it is ours and wrong if it is
    theirs. *)
Definition left_of (i : nat) (n : node) : Prop :=
  trace_idx D (posn n) - 2 ^ (D - ps_depth (posn n)) = -1 \/
  exists k m, ancestor ns i k /\ ns !! k = Some m /\ correct m = true /\
    trace_idx D (posn m) = trace_idx D (posn n) - 2 ^ (D - ps_depth (posn n)).

Definition right_of (i : nat) (n : node) : Prop :=
  exists k m, ancestor ns i k /\ ns !! k = Some m /\ correct m = ours (posn m) /\
    trace_idx D (posn m) = trace_idx D (posn n) + 2 ^ (D - ps_depth (posn n)).

Lemma squeeze_attack i p n m : parent_of ns i = Some p -> ns !! p = Some m -> ps_depth (posn m) < D ->
  posn n = Attack (posn m) -> left_of p m -> correct m = ours (posn m) -> left_of i n /\ right_of i n.
Proof using T.
  intros Hp Hm Hd Hn Hleft Hc. destruct (tree_position _ _ T p m Hm) as (Hw & _ & _).
  destruct (Attack_spec _ Hw) as (_ & Hd' & _). pose proof (trace_idx_Attack D _ Hw Hd) as Ht. rewrite <- Hn in *.
  assert (Hpow : 2 ^ (D - ps_depth (posn m)) = 2 * 2 ^ (D - ps_depth (posn n))).
  { rewrite <- Z.pow_succ_r by lia. f_equal. lia. }
  split.
  - destruct Hleft as [He|(k & x & Ha & Hx & Hcx & Htx)]; [left; lia|right]. exists k, x. split; [by eapply ancestor_up|].
    split_and!; [done..|lia].
  - exists p, m. split; [by apply ancestor_parent|]. split_and!; [done..|lia].
Qed.

Lemma squeeze_defend i p n m : parent_of ns i = Some p -> ns !! p = Some m -> (0 < p)%nat -> ps_depth (posn m) < D ->
  posn n = Defend (posn m) -> correct m = true -> right_of p m -> left_of i n /\ right_of i n.
Proof using T.
  intros Hp Hm Hp0 Hd Hn Hc Hright. destruct (tree_position _ _ T p m Hm) as (Hw & _ & _). destruct p as [|p]; [lia|].
  destruct (child_left D ns T p m Hm) as [H0 Hev]. destruct (Defend_spec _ Hw H0) as (_ & Hd' & _).
  pose proof (trace_idx_Defend D _ Hw (conj H0 Hd) Hev) as Ht. rewrite <- Hn in *.
  assert (Hpow : 2 ^ (D - ps_depth (posn m)) = 2 * 2 ^ (D - ps_depth (posn n))).
  { rewrite <- Z.pow_succ_r by lia. f_equal. lia. }
  split.
  - right. exists (S p), m. split; [by apply ancestor_parent|]. split_and!; [done..|lia].
  - destruct Hright as (k & x & Ha & Hx & Hcx & Htx). exists k, x. split; [by eapply ancestor_up|]. split_and!; [done..|lia].
Qed.

(** A child of a claim of the tree is above the last level. *)
Lemma parent_depth_lt i p n m : parent_of ns i = Some p -> ns !! i = Some n -> ns !! p = Some m -> ps_depth (posn m) < D.
Proof using T.
  intros Hp Hn Hm. destruct (parent_of_depth D ns T i p n m Hp Hn Hm) as [_ Hd].
  destruct (tree_position _ _ T i n Hn) as (_ & _ & Hle). lia.
Qed.

Lemma line_squeezed b i n : line ns b i -> ns !! i = Some n -> left_of i n /\ (i = 0%nat \/ right_of i n).
Proof using T Hdepth.
  intros Hl. revert n. induction Hl as [r Hr _|i p Hp Hl IH|i d n' m Hp Hn' Hm Hl IH Hc Hrep]; intros n Hn.
  - split; [|by left]. left. rewrite (posn_root D ns T n Hn). unfold trace_idx. cbn [ps_depth ps_indexAtDepth]. rewrite Z.sub_0_r. lia.
  - assert (Hi : exists i', i = S i') by (destruct i; [done|eauto]). destruct Hi as [i' ->].
    destruct (claim_below_parent D ns T i' n Hn) as (j & m & Hj & _ & Hm & _ & Hmove). rewrite Hp in Hj. injection Hj as <-.
    pose proof (parent_depth_lt _ _ _ _ Hp Hn Hm) as Hlt. destruct (IH m Hm) as [HL HR].
    pose proof (line_correct _ _ Hl Hm) as Hcm. pose proof (line_level _ _ _ Hl Hm) as Ho.
    assert (left_of (S i') n /\ right_of (S i') n); [|tauto]. destruct Hmove as [Ha|[Hp0 Hd]].
    + eapply squeeze_attack; eauto; congruence.
    + destruct HR as [->|HR]; [lia|]. eapply squeeze_defend; eauto.
  - rewrite Hn' in Hn. injection Hn as <-. pose proof (parent_depth_lt _ _ _ _ Hp Hn' Hm) as Hlt. destruct (IH m Hm) as [HL HR].
    pose proof (line_level _ _ _ Hl Hm) as Ho. unfold reply in Hrep.
    assert (left_of i n' /\ right_of i n'); [|tauto]. destruct (correct m) eqn:Hcm.
    + destruct d as [|d]; [by rewrite (line_root_wrong m Hl Hm) in Hcm|]. destruct HR as [?|HR]; [done|].
      eapply squeeze_defend; eauto with lia.
    + eapply squeeze_attack; eauto; congruence.
Qed.

Lemma ancestor_unique i k k' m m' : ancestor ns i k -> ancestor ns i k' -> ns !! k = Some m -> ns !! k' = Some m' ->
  ps_depth (posn m) = ps_depth (posn m') -> k = k'.
Proof using T.
  intros Ha. revert k' m'. induction Ha as [i k Hp|i j k Hp Ha IH]; intros k' m' Ha' Hm Hm' Hd; inversion Ha' as [? ? Hp'|? j' ? Hp' Ha'']; simplify_eq.
  - done.
  - pose proof (ancestor_depth D ns T _ _ _ _ Ha'' Hm Hm'). lia.
  - pose proof (ancestor_depth D ns T _ _ _ _ Ha Hm' Hm). lia.
  - eauto.
Qed.

(** The claim the contract finds for the neighbour of a leaf. *)
Lemma neighbour i k m k' m' n t : ns !! i = Some n -> ancestor ns i k -> ns !! k = Some m ->
  ancestor ns i k' -> ns !! k' = Some m' -> trace_idx D (posn m) = t -> n_position m' = lp_traceAncestor (2 ^ D + t) -> m' = m.
Proof using T Hdepth.
  intros Hn Ha Hm Ha' Hm' Ht Hpos. rewrite <- Ht, (trace_ancestor_position D ns T k m Hm) in Hpos by lia.
  assert (posn m' = posn m) as Hp by (unfold posn; congruence). pose proof (ancestor_unique _ _ _ _ _ Ha' Ha Hm' Hm ltac:(congruence)).
  congruence.
Qed.

Lemma leaf_position i n : ns !! i = Some n -> ps_depth (posn n) = D ->
  n_position n = 2 ^ D + ps_indexAtDepth (posn n) /\ trace_idx D (posn n) = ps_indexAtDepth (posn n) /\
  0 <= ps_indexAtDepth (posn n) < 2 ^ D.
Proof using T.
  intros Hn Hd. destruct (tree_position _ _ T i n Hn) as (Hw & Hg & _). rewrite <- Hg, (ToGIndex_add _ Hw), Hd.
  split; [done|]. split; [by apply trace_idx_leaf|]. destruct Hw as [_ Hi]. by rewrite Hd in Hi.
Qed.

Definition honest_pre (t : Z) (att : bool) : Hash := if att then state (t - 1) else state t.

(** On a line the pre-state of a step at a leaf is what the trace says, and
    the post-state is correct or not as the level of its claim demands. *)
Lemma leaf_states b i n att pre post : line ns b i -> (0 < i)%nat -> ns !! i = Some n -> ps_depth (posn n) = D ->
  (att = false -> correct n = true) -> step_states ABSOLUTE_PRESTATE ns i n att pre post ->
  pre = honest_pre (ps_indexAtDepth (posn n)) att /\
  (if att then post = n else correct post = ours (posn post) /\ (exists k, ns !! k = Some post) /\
     trace_idx D (posn post) = ps_indexAtDepth (posn n) + 1).
Proof using T TL Hdepth.
  intros Hl Hi Hn Hd Hc Hs. destruct (line_squeezed b i n Hl Hn) as [HL HR]. destruct (leaf_position i n Hn Hd) as (Hpos & Ht & Hr).
  unfold left_of in HL. rewrite Hd, Z.sub_diag, Ht in HL. change (2 ^ 0) with 1 in HL. unfold step_states in Hs. destruct att; cbn [honest_pre].
  - destruct Hs as [-> Hs]. split; [|done]. destruct Hs as [[Hz ->]|(Hz & k' & m' & Ha' & Hm' & Hp' & ->)].
    + rewrite Hz. symmetry. apply (tl_prestate TL).
    + destruct HL as [?|(k & m & Ha & Hm & Hcm & Htm)]; [lia|]. rewrite Hpos in Hp'.
      replace (2 ^ D + ps_indexAtDepth (posn n) - 1) with (2 ^ D + (ps_indexAtDepth (posn n) - 1)) in Hp' by lia.
      rewrite (neighbour i k m k' m' n _ Hn Ha Hm Ha' Hm' Htm Hp'). apply bool_decide_eq_true in Hcm. congruence.
  - destruct Hs as [-> (k' & Ha' & Hm' & Hp')]. specialize (Hc eq_refl). apply bool_decide_eq_true in Hc. rewrite Ht in Hc. split; [done|].
    destruct HR as [->|(k & m & Ha & Hm & Hcm & Htm)]; [lia|]. rewrite Hd, Z.sub_diag, Ht in Htm. change (2 ^ 0) with 1 in Htm.
    rewrite Hpos, <- Z.add_assoc in Hp'. rewrite (neighbour i k m k' post n _ Hn Ha Hm Ha' Hm' Htm Hp'). eauto.
Qed.

Lemma correct_next t v post : v = state t -> trace_idx D (posn post) = t -> bool_decide (v = n_claim post) = correct post.
Proof using. intros -> <-. unfold correct. apply bool_decide_ext. split; congruence. Qed.

(** Nobody can step against an honest claim. *)
Lemma honest_not_stepped i n : line ns true i -> (0 < i)%nat -> ns !! i = Some n -> ps_depth (posn n) = D ->
  ~ stepped Keccak256Hash ABSOLUTE_PRESTATE VM_step ns i n.
Proof using T TL Hdepth.
  intros Hl Hi Hn Hd (att & oracle & data & proof & pre & post & v & Hs & Hk & Hv & Hval).
  pose proof (line_correct i n Hl Hn) as Hcn. pose proof (line_level _ _ _ Hl Hn) as Hon.
  destruct (leaf_position i n Hn Hd) as (Hpos & Ht & Hr). destruct (tree_position _ _ T i n Hn) as ([H0 _] & _).
  destruct (leaf_states true i n att pre post Hl Hi Hn Hd (fun _ => Hcn) Hs) as [-> Hpost]. destruct att; cbn [honest_pre] in Hk.
  - subst post. pose proof (tl_VM TL _ _ _ _ _ Hr Hk Hv) as Hst. rewrite (correct_next _ _ _ Hst Ht), Hcn, parity, eqb_reflx in Hval by done.
    done.
  - destruct Hpost as (Hcp & (k & Hk') & Htp). destruct (tree_position _ _ T k post Hk') as (Hwp & _ & Hdp).
    pose proof (trace_idx_range D _ Hwp Hdp) as Hrp. replace (ps_indexAtDepth (posn n)) with (ps_indexAtDepth (posn n) + 1 - 1) in Hk by lia.
    pose proof (tl_VM TL oracle data proof (ps_indexAtDepth (posn n) + 1) v ltac:(lia) Hk Hv) as Hst. rewrite (correct_next _ _ _ Hst Htp), Hcp, parity, Hon in Hval; [|done|by destruct Hwp].
    by destruct (ours (posn post)).
Qed.

(** The honest step against a claim on the last level. *)
Lemma opposed_steppable i n : line ns false i -> (0 < i)%nat -> ns !! i = Some n -> ps_depth (posn n) = D ->
  exists data proof preimage,
    tp_GetStepData trace (if correct n then MoveRight (posn n) else posn n) = Ok (data, proof, preimage) /\
    forall oracle, loaded oracle preimage ->
      steppable Keccak256Hash ABSOLUTE_PRESTATE VM_step ns i n (negb (correct n)) oracle data proof.
Proof using T TL Hdepth.
  intros Hl Hi Hn Hd. pose proof (line_level _ _ _ Hl Hn) as Hon. destruct (line_squeezed _ _ _ Hl Hn) as [HL HR].
  destruct (leaf_position i n Hn Hd) as (Hpos & Ht & Hr). destruct (tree_position _ _ T i n Hn) as ([H0 _] & _).
  unfold left_of in HL. rewrite Hd, Z.sub_diag, Ht in HL. change (2 ^ 0) with 1 in HL. destruct (correct n) eqn:Hcn; cbn [negb].
  - destruct HR as [->|(k & m & Ha & Hm & Hcm & Htm)]; [lia|]. rewrite Hd, Z.sub_diag, Ht in Htm. change (2 ^ 0) with 1 in Htm.
    destruct (tree_position _ _ T k m Hm) as (Hwm & _ & Hdm). pose proof (trace_idx_range D _ Hwm Hdm) as Hrm.
    destruct (tl_StepData TL (MoveRight (posn n))) as (data & proof & pi & Hget & Hpre & Hvm); [done|unfold MoveRight; cbn [ps_indexAtDepth]; lia|].
    exists data, proof, pi. split; [done|]. intros oracle Hload. exists (n_claim n), m, (state (ps_indexAtDepth (posn n) + 1)).
    apply bool_decide_eq_true in Hcn. unfold MoveRight in Hpre, Hvm. cbn [ps_indexAtDepth] in Hpre, Hvm. rewrite Z.add_simpl_r in Hpre. split_and!.
    + split; [done|]. exists k. split_and!; [done..|]. rewrite Hpos, <- Z.add_assoc, <- Htm. symmetry.
      apply (trace_ancestor_position D ns T k m Hm). lia.
    + by rewrite Hcn, Ht.
    + by apply Hvm.
    + rewrite (correct_next _ _ m eq_refl), Hcm, parity, Hon; [by destruct (ours (posn m))|done|by destruct Hwm|done].
  - destruct (tl_StepData TL (posn n) Hd Hr) as (data & proof & pi & Hget & Hpre & Hvm).
    exists data, proof, pi. split; [done|]. intros oracle Hload.
    exists (state (ps_indexAtDepth (posn n) - 1)), n, (state (ps_indexAtDepth (posn n))). split_and!; [|done|by apply Hvm|].
    + split; [done|]. destruct (Z.eq_dec (ps_indexAtDepth (posn n)) 0) as [Hz|Hz].
      * left. split; [done|]. rewrite Hz. apply (tl_prestate TL).
      * right. split; [done|]. destruct HL as [?|(k & m & Ha & Hm & Hcm & Htm)]; [lia|]. exists k, m. split_and!; [done..| |].
        -- rewrite Hpos, <- Z.add_sub_assoc, <- Htm. symmetry. apply (trace_ancestor_position D ns T k m Hm). lia.
        -- apply bool_decide_eq_true in Hcm. congruence.
    + rewrite (correct_next _ _ n eq_refl Ht), Hcn, parity, eqb_reflx by done. done.
Qed.
End Tree.

(** ** The solver on the claims of the contract *)

Section Solver.
Variable cd : list OnchainClaim.
Hypothesis T : tree D (nodes cd).
Hypothesis Hlen : Z.of_nat (length cd) < 2 ^ 32.

#[local] Notation claim i c := (hydrate (Z.of_nat i) c).
#[local] Notation game := (go_game cd).

Lemma claim_root i c : cd !! i = Some c -> IsRoot (claim i c) = bool_decide (i = 0%nat).
Proof using T. intros H. apply (root_iff D _ T i (node_of c) (node_at cd i c H)). Qed.

Lemma getParent_at j p c : c_ParentContractIndex c = Z.of_nat j -> IsRoot c = false -> cd !! j = Some p ->
  getParent game c = Some (claim j p).
Proof using.
  intros Hc Hr Hp. pose proof (lookup_lt_Some _ _ _ Hp). unfold getParent. rewrite Hr, Hc. cbn [gs_claims go_game NewGameState].
  rewrite go_length, Nat2Z.id, go_lookup, Hp. destruct (Z.leb_spec (Z.of_nat (length cd)) (Z.of_nat j)); [lia|].
  destruct (Z.ltb_spec (Z.of_nat j) 0); [lia|done].
Qed.

Lemma go_parent i c : cd !! S i = Some c ->
  exists j p, parent_of (nodes cd) (S i) = Some j /\ (j <= i)%nat /\ cd !! j = Some p /\
    GetParent game (claim (S i) c) = Ok (claim j p).
Proof using T Hlen.
  intros H. destruct (claim_parent D cd T i c H) as (j & p & Hj & Hle & Hp & Hpar). exists j, p. split_and!; [done..|].
  unfold GetParent. by rewrite (getParent_at j p) by (done || by rewrite claim_root).
Qed.

Lemma go_agree i c : cd !! i = Some c -> agreeWithClaim trace (c_Data (claim i c)) = Ok (correct (node_of c)).
Proof using T TL.
  intros H. destruct (tree_position _ _ T i _ (node_at cd i c H)) as (Hw & _ & Hle).
  unfold agreeWithClaim, traceAtPosition, correct. cbn [c_Data hydrate cd_Position cd_Value].
  change (NewPositionFromGIndex (oc_Position c)) with (posn (node_of c)). rewrite (tl_Get TL) by done. cbn. f_equal.
  apply bool_decide_ext. split; congruence.
Qed.

(** The position of a move, and what the solver makes of it. *)
Definition move_of (p : Position) (att : bool) : Position := if att then Attack p else Defend p.

Lemma move_of_wf i c att : cd !! i = Some c -> (att = false -> (0 < i)%nat) ->
  pos_wf (move_of (posn (node_of c)) att) /\ ps_depth (move_of (posn (node_of c)) att) = ps_depth (posn (node_of c)) + 1.
Proof using T.
  intros Hc Hatt. pose proof (node_at cd i c Hc) as Hn. destruct (tree_position _ _ T i _ Hn) as (Hw & _ & _). destruct att; cbn [move_of].
  - by destruct (Attack_spec _ Hw) as (? & ? & _).
  - destruct i as [|i]; [by specialize (Hatt eq_refl); lia|]. destruct (child_left D _ T i _ Hn) as [Hi0 _].
    by destruct (Defend_spec _ Hw Hi0) as (? & ? & _).
Qed.

Lemma defends_parent i c v att : cd !! i = Some c -> (att = false -> (0 < i)%nat) ->
  DefendsParent game (newClaim v (move_of (posn (node_of c)) att) (Z.of_nat i)) = negb att.
Proof using T.
  intros Hc Hatt. pose proof (node_at cd i c Hc) as Hn. destruct (tree_position _ _ T i _ Hn) as (Hw & _ & _).
  destruct (move_of_wf i c att Hc Hatt) as [[Hd0 _] Hd]. unfold DefendsParent.
  assert (Hroot : IsRoot (newClaim v (move_of (posn (node_of c)) att) (Z.of_nat i)) = false).
  { unfold IsRoot, IsRootPosition, newClaim, c_Position. cbn [c_Data cd_Position]. rewrite Hd.
    destruct Hw. destruct (Z.eqb_spec (ps_depth (posn (node_of c)) + 1) 0); [lia|done]. }
  rewrite (getParent_at i c) by done. unfold RightOf, parentIndexAtDepth, newClaim, c_Position.
  cbn [c_Data cd_Position hydrate]. change (NewPositionFromGIndex (oc_Position c)) with (posn (node_of c)). destruct att; cbn [move_of negb].
  - destruct (Attack_spec _ Hw) as (_ & _ & ->). apply negb_false_iff, Z.eqb_eq. ulia.
  - destruct i as [|i]; [by specialize (Hatt eq_refl); lia|]. destruct (child_left D _ T i _ Hn) as [Hi0 Hev].
    destruct (Defend_spec _ Hw Hi0) as (_ & _ & ->). apply negb_true_iff, Z.eqb_neq. ulia.
Qed.

(** Whatever [NextMove] suggests says what the trace says. *)
Lemma NextMove_shape i c m : cd !! i = Some c -> ps_depth (posn (node_of c)) < D -> NextMove trace D (claim i c) game = Ok (Some m) ->
  exists att, (att = false -> (0 < i)%nat) /\
    m = newClaim (state (trace_idx D (move_of (posn (node_of c)) att))) (move_of (posn (node_of c)) att) (Z.of_nat i).
Proof using T TL.
  intros Hc Hd H. unfold NextMove in H. destruct (_ =? _); [done|]. apply res_bind_ok in H as (b & _ & H). destruct b; [cbn [negb] in H|done].
  apply res_bind_ok in H as (agree & _ & H).
  assert (Hget : forall att, (att = false -> (0 < i)%nat) ->
            traceAtPosition trace (move_of (posn (node_of c)) att) = Ok (state (trace_idx D (move_of (posn (node_of c)) att)))).
  { intros att Hatt. destruct (move_of_wf i c att Hc Hatt). apply (tl_Get TL); [done|lia]. }
  destruct agree.
  - unfold defend in H. rewrite (claim_root i c Hc) in H. destruct (bool_decide_reflect (i = 0%nat)); [done|].
    exists false. split; [lia|]. rewrite hydrate_position in H. change (Defend _) with (move_of (posn (node_of c)) false) in H.
    rewrite Hget in H by lia. cbn [mbind res_bind map_err] in H. by injection H as <-.
  - exists true. split; [done|]. unfold attack in H. rewrite hydrate_position in H. change (Attack _) with (move_of (posn (node_of c)) true) in H.
    rewrite Hget in H by done. cbn [mbind res_bind map_err] in H. by injection H as <-.
Qed.

(** Ancestors of the same party, the claim included. *)
Inductive side (ns : list node) : nat -> nat -> Prop :=
| side_here i : side ns i i
| side_up i j l k : parent_of ns i = Some j -> parent_of ns j = Some l -> side ns l k -> side ns i k.

Definition side_correct (ns : list node) (i : nat) : Prop :=
  forall k n, side ns i k -> ns !! k = Some n -> correct n = true.

Lemma agree_path_spec fuel i c : cd !! i = Some c -> (i < fuel)%nat ->
  exists b, agree_path trace fuel game (claim i c) = Ok b /\ (b = true <-> side_correct (nodes cd) i).
Proof using T TL Hlen.
  revert i c. induction fuel as [|fuel IH]; intros i c Hc Hf; [lia|]. cbn [agree_path]. rewrite (go_agree i c Hc). cbn [mbind res_bind].
  pose proof (node_at cd i c Hc) as Hn. destruct (correct (node_of c)) eqn:Hcc; cbn [negb].
  2: { exists false. split; [done|]. split; [done|]. intros H. rewrite (H i _ (side_here _ i) Hn) in Hcc. done. }
  assert (Hself : (forall k n, side (nodes cd) i k -> k <> i -> nodes cd !! k = Some n -> correct n = true) ->
            (true = true <-> side_correct (nodes cd) i)).
  { intros H. split; [|done]. intros _ k n Hs Hk. destruct (decide (k = i)) as [->|]; [congruence|by eapply H]. }
  rewrite (claim_root i c Hc). destruct i as [|i]; cbn [bool_decide].
  { exists true. split; [done|]. apply Hself. intros k n Hs Hne. inversion Hs; simplify_eq. }
  rewrite bool_decide_false by done. destruct (go_parent i c Hc) as (j & p & Hj & Hle & Hp & ->). cbn [mbind res_bind map_err].
  rewrite (claim_root j p Hp). destruct j as [|j].
  { rewrite bool_decide_true by done. exists true. split; [done|]. apply Hself.
    intros k n Hs Hne. inversion Hs; simplify_eq. }
  rewrite bool_decide_false by done. destruct (go_parent j p Hp) as (l & q & Hl & Hle' & Hq & ->). cbn [mbind res_bind].
  destruct (IH l q Hq ltac:(lia)) as (b & Hb & Hiff). exists b. split; [done|]. rewrite Hiff. split.
  - intros H k n Hs Hk. inversion Hs as [|? j' l' ? Hj' Hl' Hs']; simplify_eq; [congruence|].
    by eapply H.
  - intros H k n Hs Hk. apply (H k n); [by eapply side_up|done].
Qed.

Lemma line_parent ns b i j : line ns b i -> parent_of ns i = Some j -> line ns (negb b) j.
Proof using.
  intros Hl Hj. destruct Hl as [n Hn Hc|i p Hp Hl|i d n m Hp Hn Hm Hl Hc Hr]; [done|..]; rewrite Hp in Hj; by injection Hj as <-.
Qed.

Lemma line_side b i : line (nodes cd) b i -> b = true -> side_correct (nodes cd) i.
Proof using.
  intros Hl -> k n Hs. revert Hl. induction Hs as [i|i j l k Hj Hl Hs IH]; intros Hline Hk; [by eapply line_correct|].
  apply IH; [|done]. by apply (line_parent _ false j l), Hl; apply (line_parent _ true i j).
Qed.

Lemma line_path i c : cd !! i = Some c -> line (nodes cd) true i -> agreeWithClaimPath trace game (claim i c) = Ok true.
Proof using T TL Hlen.
  intros Hc Hl. unfold agreeWithClaimPath. cbn [gs_claims go_game NewGameState]. rewrite go_length.
  pose proof (lookup_lt_Some _ _ _ Hc). destruct (agree_path_spec (S (length cd)) i c Hc ltac:(lia)) as ([|] & Hb & Hiff); [done|].
  by assert (false = true) by by apply Hiff, (line_side true i Hl).
Qed.

(** What the solver does about a claim it has to answer. *)
Lemma depth_u64 i c : cd !! i = Some c -> u64 (Depth (claim i c)) = ps_depth (posn (node_of c)).
Proof using T Hdepth.
  intros H. destruct (tree_position _ _ T i _ (node_at cd i c H)) as ([H0 _] & _ & Hle). unfold u64, Depth. rewrite hydrate_position.
  apply Z.mod_small. lia.
Qed.

Lemma opposed_level i c : cd !! i = Some c -> line (nodes cd) false i -> AgreeWithClaimLevel game (claim i c) = false.
Proof using T. intros Hc Hl. apply (line_level _ T _ _ _ Hl (node_at cd i c Hc)). Qed.

Lemma opposed_parent i c : cd !! S i = Some c -> line (nodes cd) false (S i) ->
  exists j p, cd !! j = Some p /\ parent_of (nodes cd) (S i) = Some j /\ line (nodes cd) true j /\
    GetParent game (claim (S i) c) = Ok (claim j p) /\ agreeWithClaimPath trace game (claim j p) = Ok true.
Proof using T TL Hlen.
  intros Hc Hl. destruct (go_parent i c Hc) as (j & p & Hj & _ & Hp & Hget). exists j, p.
  pose proof (line_parent _ false _ _ Hl Hj). split_and!; [done..|]. by apply line_path.
Qed.

Lemma opposed_move i c : cd !! i = Some c -> line (nodes cd) false i -> ps_depth (posn (node_of c)) < D ->
  NextMove trace D (claim i c) game =
    Ok (Some (newClaim (state (trace_idx D (reply (node_of c)))) (reply (node_of c)) (Z.of_nat i))) /\
  pos_wf (reply (node_of c)) /\ ps_depth (reply (node_of c)) = ps_depth (posn (node_of c)) + 1.
Proof using T TL Hlen.
  intros Hc Hl Hd. pose proof (node_at cd i c Hc) as Hn. destruct (tree_position _ _ T i _ Hn) as (Hw & _ & _).
  assert (Hrep : pos_wf (reply (node_of c)) /\ ps_depth (reply (node_of c)) = ps_depth (posn (node_of c)) + 1).
  { unfold reply. destruct (correct (node_of c)) eqn:Hcc.
    - destruct i as [|i]; [by rewrite (line_root_wrong _ _ Hl Hn) in Hcc|]. destruct (child_left D _ T i _ Hn) as [H0 _].
      by destruct (Defend_spec _ Hw H0) as (? & ? & _).
    - by destruct (Attack_spec _ Hw) as (? & ? & _). }
  split; [|done]. destruct Hrep as [Hwr Hdr]. unfold NextMove, Depth. rewrite hydrate_position.
  destruct (Z.eqb_spec (ps_depth (posn (node_of c))) D); [lia|].
  assert (Hpar : (if negb (IsRoot (claim i c)) then parent ← GetParent game (claim i c); agreeWithClaimPath trace game parent else Ok true) = Ok true).
  { rewrite (claim_root i c Hc). destruct i as [|i]; [done|]. rewrite bool_decide_false by done. cbn [negb].
    destruct (opposed_parent i c Hc Hl) as (j & p & Hp & _ & _ & -> & Hag). cbn. exact Hag. }
  rewrite Hpar. cbn [mbind res_bind negb]. rewrite (go_agree i c Hc). cbn [mbind res_bind]. unfold reply in *.
  destruct (correct (node_of c)) eqn:Hcc.
  - unfold defend. rewrite (claim_root i c Hc). destruct i as [|i]; [by rewrite (line_root_wrong _ _ Hl Hn) in Hcc|].
    rewrite bool_decide_false by done. unfold traceAtPosition. rewrite hydrate_position, (tl_Get TL) by (done || lia). done.
  - unfold attack, traceAtPosition. rewrite hydrate_position, (tl_Get TL) by (done || lia). done.
Qed.

Lemma opposed_step i c : cd !! i = Some c -> line (nodes cd) false i -> ps_depth (posn (node_of c)) = D ->
  exists data proof preimage,
    AttemptStep trace D game (claim i c) =
      Ok {| sd_LeafClaim := claim i c; sd_IsAttack := negb (correct (node_of c)); sd_PreState := data;
            sd_ProofData := proof; sd_OracleData := preimage |} /\
    forall oracle, loaded oracle preimage ->
      step_check Keccak256Hash ABSOLUTE_PRESTATE D VM_step cd c (negb (correct (node_of c))) oracle data proof = Ok tt.
Proof using T TL Hlen Hdepth.
  intros Hc Hl Hd. pose proof (node_at cd i c Hc) as Hn. assert (Hi : exists i', i = S i').
  { destruct i as [|i']; [|eauto]. rewrite (posn_root D _ T _ Hn) in Hd. cbn in Hd. lia. }
  destruct Hi as [i' ->]. destruct (opposed_steppable _ T (S i') _ Hl ltac:(lia) Hn Hd) as (data & proof & pi & Hget & Hst).
  exists data, proof, pi. split.
  - unfold AttemptStep, Depth. rewrite hydrate_position, Hd, Z.eqb_refl. cbn [negb].
    destruct (opposed_parent i' c Hc Hl) as (j & p & Hp & _ & _ & -> & Hag). cbn [mbind res_bind]. rewrite Hag.
    cbn [mbind res_bind negb]. rewrite (go_agree _ c Hc). cbn [mbind res_bind].
    destruct (correct (node_of c)); cbn [negb]; by rewrite Hget.
  - intros oracle Hload. apply (step_check_spec _ _ _ _ Hdepth _ T Hlen (S i') c); [done|]. split_and!; [lia|done|by apply Hst].
Qed.
End Solver.

(** ** When nothing is left to do *)

(** The solver has no action for the claims it has to answer. *)
Definition settled (cd : list OnchainClaim) : Prop :=
  forall i c, line (nodes cd) false i -> cd !! i = Some c ->
    claim_action Keccak256Hash trace D (go_game cd) (hydrate (Z.of_nat i) c) = Ok None.

(** The claim the honest strategy makes in reply to claim [i]. *)
Definition honest_reply (i : nat) (c : OnchainClaim) : Claim :=
  newClaim (state (trace_idx D (reply (node_of c)))) (reply (node_of c)) (Z.of_nat i).

(** A reply of the honest strategy that is taken for a duplicate is on chain
    ([ids_exact_small] says when this is so, [planted_claim_silences] when it
    is not). *)
Definition ids_exact (cd : list OnchainClaim) : Prop :=
  forall i c, line (nodes cd) false i -> cd !! i = Some c -> IsDuplicate Keccak256Hash (go_game cd) (honest_reply i c) = true ->
    exists k e, cd !! k = Some e /\ parent_of (nodes cd) k = Some i /\
      oc_Claim e = state (trace_idx D (reply (node_of c))) /\ posn (node_of e) = reply (node_of c).

(** Two strings that the hash tells apart. *)
Definition no_collision (x y : bytes) : Prop := Keccak256Hash x = Keccak256Hash y -> x = y.

(** The identifier of a claim is that of a claim of the game only when what is
    hashed is the same. *)
Definition id_told_apart (cd : list OnchainClaim) (c : Claim) : Prop :=
  forall k e, cd !! k = Some e -> no_collision (claimID_preimage (hydrate (Z.of_nat k) e)) (claimID_preimage c).

#[local] Notation game_inv := (game_inv Keccak256Hash ABSOLUTE_PRESTATE MAX_GAME_DEPTH VM_step).

(** What the honest strategy claims stands, and what is against it falls. *)
Lemma line_outcome g b i : game_inv g -> Z.of_nat (length (fg_claimData g)) < 2 ^ 32 ->
  settled (fg_claimData g) -> ids_exact (fg_claimData g) -> line (nodes (fg_claimData g)) b i ->
  countered (fg_claimData g) i = negb b.
Proof using TL Hdepth.
  intros Inv Hlen Hset Hids. set (cd := fg_claimData g) in *. pose proof (gi_tree _ _ _ _ _ Inv) as T. fold cd in T.
  remember (length cd - i)%nat as m eqn:Hm. revert b i Hm. induction m as [m IH] using lt_wf_ind. intros b i Hm Hl.
  destruct (line_lookup _ T b i Hl) as [n Hn]. rewrite nodes_lookup in Hn. destruct (cd !! i) as [c|] eqn:Hc; [|done].
  cbn in Hn. injection Hn as <-. pose proof (lookup_lt_Some _ _ _ Hc) as Hlt. pose proof (node_at cd i c Hc) as Hnode.
  assert (Hdec : forall k b', k ∈ children (nodes cd) i -> line (nodes cd) b' k -> countered cd k = negb b').
  { intros k b' Hk Hl'. pose proof (child_range D cd T i k Hk). apply (IH (length cd - k)%nat); [lia|done..]. }
  destruct (tree_position _ _ T i _ Hnode) as ([H0 _] & _ & Hle). destruct b; cbn [negb].
  - apply (countered_false D); [done..| |].
    + intros Hnil. unfold flag. rewrite Hc. destruct (oc_Countered c) eqn:Hflag; [|done].
      destruct (gi_flags _ _ _ _ _ Inv i c Hc Hflag) as [?|[Hd Hst]]; [done|]. exfalso.
      assert (Hi : (0 < i)%nat). { destruct i; [|lia]. rewrite (posn_root D _ T _ Hnode) in Hd. cbn in Hd. lia. }
      by apply (honest_not_stepped _ T i _ Hl Hi Hnode Hd).
    + intros k Hk. apply (Hdec k false Hk). apply children_spec in Hk. by eapply line_opposed.
  - pose proof (Hset i c Hl Hc) as Hact. unfold claim_action in Hact. rewrite (depth_u64 cd T i c Hc) in Hact.
    cbn [gs_depth go_game NewGameState] in Hact. destruct (Z.eqb_spec (ps_depth (posn (node_of c))) D) as [Hd|Hd].
    + rewrite (countered_leaf D) by (done || by eapply leaf_no_children). unfold flag. rewrite Hc. unfold calculateStep in Hact.
      cbn [c_Countered hydrate] in Hact. destruct (oc_Countered c); [done|].
      rewrite (opposed_level cd T i c Hc Hl) in Hact. destruct (opposed_step cd T Hlen i c Hc Hl Hd) as (data & proof & pi & Hs & _).
      by rewrite Hs in Hact.
    + unfold calculateMove in Hact. rewrite (opposed_level cd T i c Hc Hl) in Hact.
      destruct (opposed_move cd T Hlen i c Hc Hl ltac:(lia)) as (Hmv & _ & _). rewrite Hmv in Hact. cbn [map_err mbind res_bind] in Hact.
      destruct (IsDuplicate _ _ _) eqn:Hdup; [|done].
      destruct (Hids i c Hl Hc Hdup) as (k & e & He & Hk & Hv & Hp).
      apply (countered_true D cd T i k); [by apply children_spec|]. apply (Hdec k true); [by apply children_spec|].
      eapply (line_reply _ k i (node_of e) (node_of c)); [done|by apply node_at|done|done| |done].
      apply bool_decide_eq_true. cbn [n_claim node_of]. by rewrite Hv, Hp.
Qed.

(** ** Resolution *)

Section Resolve.
Variable g0 : FaultDisputeGame.
Hypothesis Inv0 : game_inv g0.

#[local] Notation cd0 := (fg_claimData g0).

(** The outcome of a game with the honest strategy at its end. *)
Lemma settled_status g' g'' root status : Z.of_nat (length cd0) < 2 ^ 32 -> settled cd0 -> ids_exact cd0 ->
  cd0 !! 0%nat = Some root -> correct (node_of root) = negb agreeWithProposedOutput ->
  resolving g0 g' -> resolve g' = Ok (g'', status) -> shouldResolve agreeWithProposedOutput status = true.
Proof using TL Inv0 Hdepth.
  intros Hlen Hset Hids Hroot Hc R Hend. rewrite (resolve_status g0 g' g'' status R Hend).
  rewrite (line_outcome g0 (negb agreeWithProposedOutput) 0 Inv0 Hlen Hset Hids).
  - unfold shouldResolve. by destruct agreeWithProposedOutput.
  - eapply line_root; [by apply node_at|done].
Qed.
End Resolve.

(** C25. The honest party wins. In a game in which anybody moves, steps and
    resolves claims as the contract lets them, in any order, but no move and no
    step is made below a claim that has been resolved: once the honest strategy
    has nothing left to do, the game is resolved the way the challenger wants
    it, in whatever order its remaining claims are resolved. A root it disputes
    is countered when it is wrong, and a root it defends stands when it is
    correct. The replies of the honest strategy that its solver takes for
    duplicates are assumed to be on chain. *)
Theorem honest_challenger_wins (g g1 g2 : FaultDisputeGame) (root : OnchainClaim) (status : GameStatus)
  (Hreach : reachable Keccak256Hash ABSOLUTE_PRESTATE D GAME_DURATION VM_step g)
  (Hlen : Z.of_nat (length (fg_claimData g)) < 2 ^ 32)
  (Hsettled : settled (fg_claimData g)) (Hids : ids_exact (fg_claimData g))
  (Hroot : fg_claimData g !! 0%nat = Some root) (Hcorrect : correct (node_of root) = negb agreeWithProposedOutput)
  (Hresolves : rtc (resolves GAME_DURATION) g g1) (Hend : resolve g1 = Ok (g2, status)) :
  shouldResolve agreeWithProposedOutput status = true.
Proof using TL Hdepth.
  pose proof (game_reachable_inv _ _ _ _ _ Hdepth g Hreach Hlen) as Inv.
  eapply (settled_status g Inv g1 g2 root); [done..| |done].
  eapply resolves_resolving; [done..|by eapply resolving_start|done].
Qed.

(** The solver's list of actions is empty: the game is settled. *)
Lemma next_actions_nil cd claims errs c : next_actions Keccak256Hash trace D (go_game cd) claims = Ok ([], errs) -> c ∈ claims ->
  forall a, claim_action Keccak256Hash trace D (go_game cd) c <> Ok (Some a).
Proof using.
  revert errs. induction claims as [|x claims IH]; intros errs H Hc a; [by apply elem_of_nil in Hc|]. cbn [next_actions] in H.
  destruct (claim_action _ _ _ _ x) as [[act|]|e] eqn:Hx.
  - destruct (next_actions _ _ _ _ claims) as [[acts es]|]; [|done]. cbn in H. by injection H.
  - apply elem_of_cons in Hc as [->|Hc]; [congruence|]. by eapply IH.
  - assert (Hn : exists errs', next_actions Keccak256Hash trace D (go_game cd) claims = Ok ([], errs')).
    { destruct (next_actions _ _ _ _ claims) as [[acts es]|]; [|by destruct e]. exists es. destruct e; cbn in H; by simplify_eq. }
    destruct Hn as [errs' Hn]. apply elem_of_cons in Hc as [->|Hc]; [congruence|]. by eapply IH.
Qed.

(** ** The transactions of the honest strategy *)

Lemma opposed_action cd i c : tree D (nodes cd) -> Z.of_nat (length cd) < 2 ^ 32 -> cd !! i = Some c -> line (nodes cd) false i ->
  match claim_action Keccak256Hash trace D (go_game cd) (hydrate (Z.of_nat i) c) with
  | Ok None => True
  | Ok (Some a) =>
      ac_ParentIdx a = Z.of_nat i /\ ac_IsAttack a = negb (correct (node_of c)) /\
      match ac_Type a with
      | ActionTypeMove =>
          ps_depth (posn (node_of c)) < D /\ ac_Value a = state (trace_idx D (reply (node_of c))) /\
          IsDuplicate Keccak256Hash (go_game cd) (newClaim (ac_Value a) (reply (node_of c)) (Z.of_nat i)) = false
      | ActionTypeStep =>
          forall oracle, loaded oracle (ac_OracleData a) ->
            step_check Keccak256Hash ABSOLUTE_PRESTATE D VM_step cd c (ac_IsAttack a) oracle (ac_PreState a) (ac_ProofData a) = Ok tt
      end
  | Err _ => False
  end.
Proof using TL Hdepth.
  intros T Hlen Hc Hl. pose proof (node_at cd i c Hc) as Hn. destruct (tree_position _ _ T i _ Hn) as (Hw & _ & Hle).
  unfold claim_action. rewrite (depth_u64 cd T i c Hc). cbn [gs_depth go_game NewGameState].
  destruct (Z.eqb_spec (ps_depth (posn (node_of c))) D) as [Hd|Hd].
  - unfold calculateStep. rewrite (opposed_level cd T i c Hc Hl). cbn [c_Countered hydrate]. destruct (oc_Countered c); [done|].
    destruct (opposed_step cd T Hlen i c Hc Hl Hd) as (data & proof & pi & -> & Hst). by cbn.
  - unfold calculateMove. rewrite (opposed_level cd T i c Hc Hl).
    destruct (opposed_move cd T Hlen i c Hc Hl ltac:(lia)) as (-> & Hwr & Hdr). cbn [map_err mbind res_bind].
    destruct (IsDuplicate _ _ _) eqn:Hdup; [done|]. cbn [ac_ParentIdx ac_IsAttack ac_Type ac_Value newClaim c_ParentContractIndex].
    split; [done|]. split; [|split_and!; [lia|done..]]. unfold reply.
    replace (if correct (node_of c) then _ else _) with (move_of (posn (node_of c)) (negb (correct (node_of c)))) by by destruct (correct _).
    assert (Hpos : negb (correct (node_of c)) = false -> (0 < i)%nat).
    { intros Hcc. apply negb_false_iff in Hcc. destruct i; [|lia]. by rewrite (line_root_wrong _ _ Hl Hn) in Hcc. }
    by rewrite (defends_parent cd T i c _ _ Hc Hpos), negb_involutive.
Qed.

Lemma fold_ids claims ids h :
  fold_left (fun (ids : gmap Hash bool) c => <[computeClaimID Keccak256Hash c := true]> ids) claims ids !! h = Some true <->
  ids !! h = Some true \/ exists c, c ∈ claims /\ computeClaimID Keccak256Hash c = h.
Proof using.
  revert ids. induction claims as [|c claims IH]; intros ids; cbn.
  - split; [by left|]. intros [?|(c & Hc & _)]; [done|]. by apply elem_of_nil in Hc.
  - rewrite IH. destruct (decide (computeClaimID Keccak256Hash c = h)) as [<-|Hne].
    + rewrite lookup_insert_eq. split; [|by left]. intros _. right. exists c. split; [left|done].
    + rewrite lookup_insert_ne by done. split; (intros [?|(x & Hx & He)]; [by left|]).
      * right. exists x. split; [by right|done].
      * apply elem_of_cons in Hx as [->|Hx]; [done|]. right. eauto.
Qed.

Lemma IsDuplicate_iff cd c : IsDuplicate Keccak256Hash (go_game cd) c = true <->
  exists k e, cd !! k = Some e /\ computeClaimID Keccak256Hash (hydrate (Z.of_nat k) e) = computeClaimID Keccak256Hash c.
Proof using Hdepth.
  unfold IsDuplicate. cbn [gs_claimIDs go_game NewGameState].
  assert (Hd : forall o : option bool, default false o = true <-> o = Some true) by (intros [[|]|]; naive_solver).
  rewrite Hd, fold_ids. split.
  - intros [H|(x & Hx & He)]; [done|]. apply list_elem_of_lookup in Hx as [k Hk]. rewrite go_lookup in Hk.
    destruct (cd !! k) as [e|] eqn:Hk'; [|done]. cbn in Hk. injection Hk as <-. eauto.
  - intros (k & e & Hk & He). right. eexists. split; [|exact He]. apply list_elem_of_lookup. exists k. by rewrite go_lookup, Hk.
Qed.

(** Time is left to answer a claim. *)
Definition in_time (cd : list OnchainClaim) (c : OnchainClaim) (now : Z) : Prop :=
  exists grandparent,
    (if oc_ParentIndex c =? uint32_max then Ok 0 else oc_Clock <$> claim_at cd (oc_ParentIndex c)) = Ok grandparent /\
    0 <= clock_duration grandparent + now - clock_timestamp (oc_Clock c) <= GAME_DURATION / 2.

Lemma hash_word_inj p q i j : 0 <= p < 2 ^ 128 -> 0 <= q < 2 ^ 128 -> 0 <= i < 2 ^ 32 -> 0 <= j < 2 ^ 32 ->
  put_be 32 (Z.lor (evm_shl 128 p) (Z.land (2 ^ 128 - 1) i)) = put_be 32 (Z.lor (evm_shl 128 q) (Z.land (2 ^ 128 - 1) j)) -> p = q /\ i = j.
Proof using.
  intros Hp Hq Hi Hj H.
  assert (Hw : forall p i, 0 <= p < 2 ^ 128 -> 0 <= i < 2 ^ 32 ->
            Z.lor (evm_shl 128 p) (Z.land (2 ^ 128 - 1) i) = p * 2 ^ 128 + i).
  { intros a b Ha Hb. unfold evm_shl. assert (Hs : u256 (Z.shiftl a 128) = Z.shiftl a 128).
    { rewrite Z.shiftl_mul_pow2 by lia. apply u256_small. change (2 ^ 256) with (2 ^ 128 * 2 ^ 128). nia. }
    rewrite Hs.
    rewrite (Z.land_comm _ b). change (2 ^ 128 - 1) with (Z.ones 128). rewrite Z.land_ones, (Z.mod_small b) by lia.
    apply lor_add_low; lia. }
  apply (f_equal get_be) in H. rewrite !Hw, !get_put_be in H by (done || change (256 ^ Z.of_nat 32) with (2 ^ 128 * 2 ^ 128); nia). nia.
Qed.

Lemma line_app ns ns' b i : line ns b i -> line (ns ++ ns') b i.
Proof using.
  induction 1 as [n Hn Hc|i p Hp Hl IH|i d n m Hp Hn Hm Hl IH Hc Hr].
  - eapply line_root; [by apply lookup_app_l_Some|done].
  - eapply line_opposed; [by apply parent_of_app|done].
  - eapply line_reply; eauto using parent_of_app, lookup_app_l_Some.
Qed.

(** What [hashClaimPos] hashes. *)
Definition claimPos_bytes (claim : Hash) (position challengeIndex : Z) : bytes :=
  claim ++ put_be 32 (Z.lor (evm_shl 128 position) (Z.land (2 ^ 128 - 1) challengeIndex)).

(** The contract takes what the honest strategy sends: a move while there
    is time, and the new claim is honest; a step when the oracle holds the
    pre-image it needs. *)
Lemma honest_action_accepted (g : FaultDisputeGame) (i : nat) (c : OnchainClaim) (a : Action)
  (now : Z) (oracle : Oracle)
  (Hreach : reachable Keccak256Hash ABSOLUTE_PRESTATE D GAME_DURATION VM_step g)
  (Hduration : 0 <= GAME_DURATION < 2 ^ 64) (Hlen : Z.of_nat (length (fg_claimData g)) + 1 < 2 ^ 32)
  (Hline : line (nodes (fg_claimData g)) false i) (Hc : fg_claimData g !! i = Some c)
  (Hact : claim_action Keccak256Hash trace D (go_game (fg_claimData g)) (hydrate (Z.of_nat i) c) = Ok (Some a))
  (Hhash : forall k e, fg_claimData g !! k = Some e ->
    no_collision (claimPos_bytes (ac_Value a) (ToGIndex (reply (node_of c))) (Z.of_nat i))
      (claimPos_bytes (oc_Claim e) (oc_Position e) (oc_ParentIndex e)))
  (Htime : in_time (fg_claimData g) c now) (Hload : loaded oracle (ac_OracleData a)) :
  exists g', perform_action Keccak256Hash ABSOLUTE_PRESTATE D GAME_DURATION VM_step now oracle a g = Ok g' /\
    (ac_Type a = ActionTypeMove -> line (nodes (fg_claimData g')) true (length (fg_claimData g))) /\
    (ac_Type a = ActionTypeStep -> flag (fg_claimData g') i = true).
Proof using TL Hdepth.
  pose proof (game_reachable_inv _ _ _ _ _ Hdepth g Hreach ltac:(lia)) as Inv. pose proof (gi_tree _ _ _ _ _ Inv) as T.
  pose proof (opposed_action _ i c T ltac:(lia) Hc Hline) as Hspec. rewrite Hact in Hspec. destruct Hspec as (Hidx & Hatt & Hspec).
  pose proof (node_at _ i c Hc) as Hn. destruct (tree_position _ _ T i _ Hn) as (Hw & Hg & Hle).
  pose proof (lookup_lt_Some _ _ _ Hc) as Hlt. cbn [n_position node_of] in Hg.
  pose proof (ToGIndex_range _ Hw) as Hgr. pose proof (ToGIndex_pos _ Hw).
  pose proof (pow2_le (ps_depth (posn (node_of c)) + 1) 64 ltac:(destruct Hw; lia)).
  unfold perform_action. destruct (ac_Type a) eqn:Hty.
  - destruct Hspec as (Hd & Hv & Hdup). destruct (opposed_move _ T ltac:(lia) i c Hc Hline Hd) as (_ & Hwr & Hdr).
    assert (Hpos : lp_move (oc_Position c) (ac_IsAttack a) = ToGIndex (reply (node_of c))).
    { rewrite Hatt, <- Hg. unfold reply. destruct (correct (node_of c)) eqn:Hcc; cbn [negb].
      - destruct i as [|i]; [by rewrite (line_root_wrong _ _ Hline Hn) in Hcc|]. destruct (child_left D _ T i _ Hn) as [Hi0 _].
        by rewrite lp_move_defend, ToGIndex_Defend by (done || lia).
      - by rewrite lp_move_attack, ToGIndex_Attack by (done || lia). }
    assert (Hroot : (Z.of_nat i =? 0) && negb (ac_IsAttack a) = false).
    { rewrite Hatt, negb_involutive. destruct (Z.eqb_spec (Z.of_nat i) 0); [|done]. assert (i = 0%nat) as -> by lia.
      by rewrite (line_root_wrong _ _ Hline Hn). }
    set (n := mkNode (Z.of_nat i) (ac_Value a) (ToGIndex (reply (node_of c)))).
    unfold move. rewrite (gi_status _ _ _ _ _ Inv), Hidx, Hroot. rewrite bool_decide_true by done. cbn [negb].
    rewrite (proj2 (claim_at_nat _ i c) Hc). cbn [mbind res_bind]. rewrite Hpos, lp_depth_ToGIndex by (done || lia).
    destruct (Z.ltb_spec D (ps_depth (reply (node_of c)))); [lia|]. destruct Htime as (gp & -> & Ht). cbn [mbind res_bind].
    destruct (Z.ltb_spec (clock_duration gp + now - clock_timestamp (oc_Clock c)) 0); [lia|].
    assert (Hu : u64 (clock_duration gp + now - clock_timestamp (oc_Clock c)) = clock_duration gp + now - clock_timestamp (oc_Clock c)).
    { apply Z.mod_small. ulia. }
    rewrite Hu. destruct (Z.ltb_spec (GAME_DURATION / 2) (clock_duration gp + now - clock_timestamp (oc_Clock c))); [lia|].
    assert (Hu32 : u32 (Z.of_nat i) = Z.of_nat i) by (unfold u32; rewrite Z.mod_small; lia).
    rewrite bool_decide_false.
    + eexists. split; [done|]. split; [|done]. intros _. cbn [fg_claimData]. rewrite nodes_counter. unfold nodes. rewrite map_app.
      fold (nodes (fg_claimData g)). match goal with |- context [map node_of [?x]] =>
        change (map node_of [x]) with [mkNode (u32 (Z.of_nat i)) (ac_Value a) (ToGIndex (reply (node_of c)))] end. rewrite Hu32. fold n.
      assert (Hnl : length (fg_claimData g) = length (nodes (fg_claimData g))) by (unfold nodes; by rewrite length_map).
      assert (Hat : (nodes (fg_claimData g) ++ [n]) !! length (nodes (fg_claimData g)) = Some n) by by apply list_lookup_middle.
      assert (Hpn : posn n = reply (node_of c)) by (unfold posn; cbn; by apply NewPositionFromGIndex_ToGIndex).
      rewrite Hnl. eapply (line_reply _ _ i n (node_of c)); [|exact Hat|by apply lookup_app_l_Some|by apply line_app| |done].
      * destruct (length (nodes (fg_claimData g))) eqn:Hl0; [lia|]. cbn [parent_of]. rewrite Hat. cbn. by rewrite Nat2Z.id.
      * unfold correct. rewrite Hpn. cbn [n_claim n]. apply bool_decide_eq_true. done.
    + intros Hin. destruct (gi_hashes _ _ _ _ _ Inv _ Hin) as (k & e & He & Hh).
      destruct (position_depth D Hdepth _ T (S k) e He) as [_ Hpe]. destruct (claim_parent D _ T k e He) as (j & p & Hj & Hjk & _ & Hpar).
      pose proof (lookup_lt_Some _ _ _ He). pose proof (ToGIndex_range _ Hwr) as Hrr. pose proof (ToGIndex_pos _ Hwr).
      pose proof (pow2_le (ps_depth (reply (node_of c)) + 1) 64 ltac:(destruct Hwr; lia)).
      apply (Hhash _ _ He) in Hh. unfold claimPos_bytes in Hh. destruct (gi_claims _ _ _ _ _ Inv _ e He) as [Hel _].
      assert (Hvl : length (ac_Value a) = 32%nat) by (rewrite Hv; apply (tl_array TL)).
      apply app_inj_1 in Hh as [Hval Hword]; [|congruence].
      apply hash_word_inj in Hword as [Hp' Hi']; [|change (2 ^ 128) with (2 ^ 64 * 2 ^ 64); lia..|lia|lia].
      enough (IsDuplicate Keccak256Hash (go_game (fg_claimData g)) (newClaim (ac_Value a) (reply (node_of c)) (Z.of_nat i)) = true) by congruence.
      apply IsDuplicate_iff. exists (S k), e. split; [done|]. unfold computeClaimID, claimID_preimage. f_equal.
      unfold newClaim, c_Position, c_Value. cbn [c_Data cd_Position cd_Value hydrate c_ParentContractIndex].
      rewrite <- Hi', <- Hp', Hval, NewPositionFromGIndex_ToGIndex by done. done.
  - specialize (Hspec oracle Hload). unfold step. rewrite (gi_status _ _ _ _ _ Inv), Hidx. rewrite bool_decide_true by done. cbn [negb].
    rewrite (proj2 (claim_at_nat _ i c) Hc). cbn [mbind res_bind]. rewrite Hspec. cbn [mbind res_bind]. eexists. split; [done|].
    split; [done|]. intros _. cbn [fg_claimData]. rewrite flag_counter by done. by rewrite decide_True.
Qed.
End Honest.
