(* ===== verification/ChallengerSafety.v ===== *)
(** * The agent on the contract

    The agent of [Challenger.v] with the contract of [FaultGame.v] as its
    chain: resolving comes to an end, and at the end of the game one action
    resolves it. The duplicate check of the Go code, the rules its actions
    obey, the trace providers, and their limits. *)

From S2P Require Import Prelude Eth Dispute Challenger FaultGame DisputePositions DisputeTree DisputePlay DisputeSafety.

(** ** Resolving *)

Section Agent.
Variable Keccak256Hash : bytes -> Hash.
Variable ABSOLUTE_PRESTATE : Hash.
Variable MAX_GAME_DEPTH : Z.
Variable GAME_DURATION : Z.
Context {Oracle : Type}.
Variable VM_step : Oracle -> bytes -> bytes -> option Hash.
Variable load : PreimageOracleData -> Oracle -> Oracle.
Variable now : Z.
Hypothesis Hdepth : 1 <= MAX_GAME_DEPTH <= 63.
Variable trace : TraceProvider.
Variable agreeWithProposedOutput : bool.
Variable state : Z -> Hash.
Variable loaded : Oracle -> option PreimageOracleData -> Prop.
(** The order in which concurrent transactions take effect. *)
Variable schedule : list Z -> list Z.
Hypothesis Hschedule : forall idxs, schedule idxs ≡ₚ idxs.

#[local] Notation D := MAX_GAME_DEPTH.
#[local] Instance chain : Chain (FaultDisputeGame * Oracle) :=
  contract_Chain Keccak256Hash ABSOLUTE_PRESTATE MAX_GAME_DEPTH GAME_DURATION VM_step load now.
#[local] Notation resolves := (resolves GAME_DURATION).

Lemma fetch_claims_spec n cd g o i : fg_claimData g = cd -> (i + n = length cd)%nat -> Z.of_nat (length cd) < 2 ^ 64 ->
  fetch_claims n (Z.of_nat i) (g, o) = ((g, o), Ok (drop i (go_claims cd))).
Proof using.
  intros <-. revert i. induction n as [|n IH]; intros i Hi Hlen.
  - cbn. rewrite drop_ge by (rewrite go_length; lia). done.
  - cbn [fetch_claims]. unfold fetchClaim, mbind, stM_bind. cbn [ch_ClaimData chain contract_Chain fst].
    destruct (lookup_lt_is_Some_2 (fg_claimData g) i ltac:(lia)) as [c Hc].
    rewrite (proj2 (claim_at_nat _ i c) Hc). cbn [mret stM_ret]. replace (Z.of_nat i + 1) with (Z.of_nat (S i)) by lia.
    rewrite IH by lia. rewrite (drop_S (go_claims (fg_claimData g)) (hydrate (Z.of_nat i) c) i); [done|]. by rewrite go_lookup, Hc.
Qed.

Lemma FetchClaims_spec g o : Z.of_nat (length (fg_claimData g)) < 2 ^ 32 ->
  FetchClaims (g, o) = ((g, o), Ok (go_claims (fg_claimData g))).
Proof using.
  intros Hlen. unfold FetchClaims, mbind, stM_bind. cbn [ch_ClaimDataLen chain contract_Chain fst].
  replace (u64 (Z.of_nat (length (fg_claimData g)))) with (Z.of_nat (length (fg_claimData g))) by (symmetry; apply Z.mod_small; lia).
  rewrite Nat2Z.id. apply (fetch_claims_spec _ _ g o 0); [done|lia|lia].
Qed.

(** What is still to be resolved. *)
Definition open_games (g : FaultDisputeGame) : nat :=
  (size (base.filter (fun kv : Z * list Z => kv.2 <> []) (fg_subgames g)) + (if fg_subgameAtRootResolved g then 0 else 1))%nat.

Lemma resolveClaim_shape i t g g' : resolveClaim GAME_DURATION i t g = Ok g' ->
  length (fg_claimData g') = length (fg_claimData g) /\ map oc_Clock (fg_claimData g') = map oc_Clock (fg_claimData g) /\
  (open_games g' < open_games g)%nat.
Proof using.
  intros H. unfold resolveClaim in H. destruct (bool_decide _); [cbn [negb] in H|done].
  apply res_bind_ok in H as (c & Hc & H). destruct (_ <? _); [done|]. destruct (_ <=? _); [done|].
  destruct ((i =? 0) && _) eqn:Hroot; [done|]. destruct (bool_decide _ && _) eqn:Hempty; [done|].
  apply res_bind_ok in H as (b & Hb & H). apply Ok_inj in H. subst g'. cbn [fg_claimData]. rewrite length_counter. split; [done|]. split.
  - unfold counter_claim. apply list_eq. intros k. rewrite !list_lookup_fmap. destruct (decide (Z.to_nat i = k)) as [->|Hk].
    + rewrite list_lookup_alter_eq. by destruct (fg_claimData g !! k).
    + by rewrite list_lookup_alter_ne.
  - unfold open_games. cbn [fg_subgames fg_subgameAtRootResolved]. rewrite map_filter_delete.
    set (m := base.filter (fun kv : Z * list Z => kv.2 <> []) (fg_subgames g)).
    destruct (decide (is_Some (m !! i))) as [[l Hl]|Hno].
    + assert (size m <> 0%nat) by (apply map_size_ne_0_lookup_2 with i; by rewrite Hl). rewrite map_size_delete, Hl.
      destruct (i =? 0), (fg_subgameAtRootResolved g); cbn [orb]; lia.
    + assert (Hnone : m !! i = None) by by apply eq_None_not_Some. rewrite delete_id by done.
      assert (Hnil : default [] (fg_subgames g !! i) = []).
      { apply map_lookup_filter_None in Hnone as [->|Hnone]; [done|]. destruct (fg_subgames g !! i) as [l|] eqn:Hl; [|done].
        specialize (Hnone l eq_refl). cbn in *. destruct l; [done|]. exfalso. by apply Hnone. }
      rewrite bool_decide_true in Hempty by done. cbn in Hempty. destruct (i =? 0); [|done]. cbn in *. rewrite Hroot. lia.
Qed.

Lemma resolves_shape g g' : rtc resolves g g' ->
  length (fg_claimData g') = length (fg_claimData g) /\ map oc_Clock (fg_claimData g') = map oc_Clock (fg_claimData g) /\
  (open_games g' <= open_games g)%nat.
Proof using.
  induction 1 as [|x y z [i t y' Hxy] _ (IH1 & IH2 & IH3)]; [done|]. apply resolveClaim_shape in Hxy as (H1 & H2 & H3).
  split_and!; [congruence..|lia].
Qed.

(** The claims whose resolution would succeed, by their index. *)
Lemma resolvable_spec claims g o : exists idxs, resolvable claims (g, o) = ((g, o), idxs) /\
  forall i, i ∈ idxs <-> exists c, c ∈ claims /\ c_ContractIndex c = i /\ is_ok (resolveClaim GAME_DURATION (u64 i) now g) = true.
Proof using.
  induction claims as [|c claims (idxs & Hr & Hin)]; cbn [resolvable].
  - exists []. split; [done|]. intros i. split; [by intros ?%elem_of_nil|]. by intros (c & ?%elem_of_nil & _).
  - cbn [ch_CallResolveClaim chain contract_Chain fst]. rewrite Hr. eexists. split; [done|]. intros i.
    assert (Hok : is_ok ((fun _ : FaultDisputeGame => tt) <$> resolveClaim GAME_DURATION (u64 (c_ContractIndex c)) now g) =
                  is_ok (resolveClaim GAME_DURATION (u64 (c_ContractIndex c)) now g)) by by destruct (resolveClaim _ _ _ _).
    rewrite Hok. destruct (is_ok (resolveClaim _ (u64 (c_ContractIndex c)) _ _)) eqn:Hc.
    + rewrite elem_of_cons, Hin. split.
      * intros [->|(x & Hx & Hrest)]; [exists c|exists x]; (split; [|done]); [left|by right].
      * intros (x & Hx & Hi & Hok'). apply elem_of_cons in Hx as [->|Hx]; [by left|right; eauto].
    + rewrite Hin. split; intros (x & Hx & Hi & Hok'); exists x; (split; [|done]); [by right|].
      apply elem_of_cons in Hx as [->|Hx]; [congruence|done].
Qed.

Lemma resolve_all_resolves idxs g o : exists g', resolve_all idxs (g, o) = (g', o) /\ rtc resolves g g'.
Proof using.
  revert g. induction idxs as [|i idxs IH]; intros g; [by eexists; split; [|apply rtc_refl]|]. cbn [resolve_all].
  cbn [ch_ResolveClaim chain contract_Chain fst]. unfold send. destruct (resolveClaim _ (u64 i) now g) as [g1|] eqn:H1; cbn [fst snd].
  - destruct (IH g1) as (g' & -> & Hg'). exists g'. split; [done|]. eapply rtc_l; [by econstructor|done].
  - apply IH.
Qed.

(** The loop ends: every turn resolves a claim. *)
Lemma resolveClaims_returns fuel g o : (open_games g < fuel)%nat -> Z.of_nat (length (fg_claimData g)) < 2 ^ 32 ->
  exists g', resolveClaims schedule fuel (g, o) = Some ((g', o), Ok tt) /\ rtc resolves g g' /\
    forall i, (i < length (fg_claimData g'))%nat -> is_ok (resolveClaim GAME_DURATION (Z.of_nat i) now g') = false.
Proof using Hschedule.
  revert g. induction fuel as [|fuel IH]; intros g Hfuel Hlen; [lia|]. cbn [resolveClaims]. unfold tryResolveClaims.
  rewrite (FetchClaims_spec g o Hlen). destruct (bool_decide_reflect (go_claims (fg_claimData g) = [])) as [Hnil|Hne].
  { exists g. split; [done|]. split; [apply rtc_refl|]. intros i Hi. rewrite <- (go_length (fg_claimData g)), Hnil in Hi. cbn in Hi. lia. }
  destruct (resolvable_spec (go_claims (fg_claimData g)) g o) as (idxs & -> & Hin).
  destruct (bool_decide_reflect (idxs = [])) as [->|Hidx].
  - exists g. split; [done|]. split; [apply rtc_refl|]. intros i Hi. destruct (is_ok _) eqn:Hok; [|done].
    destruct (lookup_lt_is_Some_2 _ _ Hi) as [c Hc]. assert (Hmem : Z.of_nat i ∈ []); [|by apply elem_of_nil in Hmem].
    apply Hin. exists (hydrate (Z.of_nat i) c). split; [|split; [done|]].
    + apply list_elem_of_lookup. exists i. by rewrite go_lookup, Hc.
    + unfold u64. by rewrite Z.mod_small by lia.
  - destruct (schedule idxs) as [|i rest] eqn:Hs.
    { pose proof (Hschedule idxs) as Hp. rewrite Hs in Hp. by apply Permutation_nil_l in Hp. }
    assert (Hi : i ∈ idxs) by (rewrite <- (Hschedule idxs), Hs; left). apply Hin in Hi as (c & Hc & <- & Hok).
    cbn [resolve_all ch_ResolveClaim chain contract_Chain fst]. unfold send.
    destruct (resolveClaim _ (u64 (c_ContractIndex c)) now g) as [g1|] eqn:H1; [|done]. cbn [fst snd].
    destruct (resolveClaim_shape _ _ _ _ H1) as (Hl1 & _ & Ho1). destruct (resolve_all_resolves rest g1 o) as (g2 & -> & H2).
    destruct (resolves_shape _ _ H2) as (Hl2 & _ & Ho2). destruct (IH g2) as (g' & -> & Hg' & Hno); [lia..|].
    exists g'. split; [done|]. split; [|done]. eapply rtc_l; [by econstructor|]. by etrans.
Qed.

(** ** The end of the game *)

(** The clock of every claim has run out. *)
Definition expired (clocks : list Z) : Prop :=
  Forall (fun clock => clock_timestamp clock <= now /\ GAME_DURATION / 2 < clock_duration clock + (now - clock_timestamp clock)) clocks.

#[local] Notation game_inv := (game_inv Keccak256Hash ABSOLUTE_PRESTATE MAX_GAME_DEPTH VM_step).

Lemma any_uncountered_total g ks : (forall k, k ∈ ks -> (k < length (fg_claimData g))%nat /\ default [] (fg_subgames g !! Z.of_nat k) = []) ->
  exists b, any_uncountered g (map Z.of_nat ks) = Ok b.
Proof using.
  induction ks as [|k ks IH]; intros H; [by eexists|]. cbn [map any_uncountered]. destruct (H k ltac:(left)) as [Hk ->].
  rewrite bool_decide_true by done. cbn [negb]. destruct (lookup_lt_is_Some_2 _ _ Hk) as [c Hc].
  rewrite (proj2 (claim_at_nat _ k c) Hc). cbn. destruct (negb _); [by eexists|]. apply IH. intros x Hx. apply H. by right.
Qed.

(** The lowest open subgame can be resolved, so none is left open. *)
Lemma all_resolved g0 g : game_inv g0 -> resolving g0 g -> expired (map oc_Clock (fg_claimData g)) ->
  (forall i, (i < length (fg_claimData g))%nat -> is_ok (resolveClaim GAME_DURATION (Z.of_nat i) now g) = false) ->
  fg_subgameAtRootResolved g = true /\
  forall i, (i < length (fg_claimData g))%nat -> default [] (fg_subgames g !! Z.of_nat i) = [].
Proof using Hdepth.
  intros Inv R Hexp Hno. pose proof (gi_tree _ _ _ _ _ Inv) as T. pose proof (nodes_length _ _ (rs_nodes _ _ R)) as Hl.
  assert (Hgo : forall i c, fg_claimData g !! i = Some c ->
            (i = 0%nat /\ fg_subgameAtRootResolved g = false \/ i <> 0%nat /\ default [] (fg_subgames g !! Z.of_nat i) <> []) ->
            (exists b, any_uncountered g (default [] (fg_subgames g !! Z.of_nat i)) = Ok b) -> False).
  { intros i c Hc Hor [b Hb]. specialize (Hno i (lookup_lt_Some _ _ _ Hc)). unfold resolveClaim in Hno.
    rewrite (rs_status _ _ R), bool_decide_true, (proj2 (claim_at_nat _ i c) Hc) in Hno by done. cbn [negb mbind res_bind] in Hno.
    assert (Hclk : oc_Clock c ∈ map oc_Clock (fg_claimData g)).
    { apply list_elem_of_In, in_map, list_elem_of_In, list_elem_of_lookup. eauto. }
    pose proof (proj1 (Forall_forall _ _) Hexp _ Hclk) as [Hts Hdur].
    destruct (Z.ltb_spec now (clock_timestamp (oc_Clock c))); [lia|].
    destruct (Z.leb_spec (clock_duration (oc_Clock c) + (now - clock_timestamp (oc_Clock c))) (GAME_DURATION / 2)); [lia|].
    destruct Hor as [[-> Hopen]|[Hi Hne]].
    - rewrite Hopen, andb_false_r, Hb in Hno. cbn [mbind res_bind] in Hno. by rewrite andb_false_r in Hno.
    - rewrite (proj2 (Z.eqb_neq _ _)) in Hno by lia. rewrite bool_decide_false, Hb in Hno by done. done. }
  assert (Hall : forall m i, (length (fg_claimData g) - i <= m)%nat -> (0 < i < length (fg_claimData g))%nat ->
            default [] (fg_subgames g !! Z.of_nat i) = []).
  { induction m as [|m IH]; intros i Hm Hi; [lia|]. destruct (decide (default [] (fg_subgames g !! Z.of_nat i) = [])) as [|Hne]; [done|exfalso].
    destruct (lookup_lt_is_Some_2 (fg_claimData g) i ltac:(lia)) as [c Hc]. apply (Hgo i c Hc); [right; split; [lia|done]|].
    destruct (rs_claim _ _ R i ltac:(lia)) as [[Hs _]|[Hs _]]; [|done]. rewrite Hs. apply any_uncountered_total.
    intros k Hk. apply (child_range _ _ T) in Hk. split; [lia|]. apply IH; lia. }
  destruct (tree_root _ _ T) as (r & Hr & _). rewrite <- (rs_nodes _ _ R), nodes_lookup in Hr.
  destruct (fg_claimData g !! 0%nat) as [c|] eqn:Hc; [|done]. pose proof (lookup_lt_Some _ _ _ Hc) as Hlt.
  assert (Hroot : fg_subgameAtRootResolved g = true).
  { destruct (fg_subgameAtRootResolved g) eqn:Hopen; [done|exfalso]. apply (Hgo 0%nat c Hc); [by left|].
    destruct (rs_claim _ _ R 0 ltac:(lia)) as [[Hs _]|[Hs _]]; rewrite Hs; [|by exists false]. apply any_uncountered_total.
    intros k Hk. apply (child_range _ _ T) in Hk. split; [lia|]. apply (Hall (length (fg_claimData g))); lia. }
  split; [done|]. intros [|i] Hi; [|apply (Hall (length (fg_claimData g))); lia]. by apply (rs_root _ _ R).
Qed.

(** C37. The challenger finishes its games. In a game that is reachable in the
    sense of [DisputePlay] (no move and no step below a resolved claim), whose
    clocks have run out, in which the honest strategy has nothing left to do,
    and whose claims do not pass for its replies, one call of [Act] resolves
    every claim that is not resolved yet and then the game, with the outcome
    the challenger expects: the loop over the resolvable claims ends, whatever
    the order in which the concurrent transactions take effect. *)
Theorem agent_finishes_game (TL : trace_laws Keccak256Hash ABSOLUTE_PRESTATE D VM_step trace state loaded)
  (g : FaultDisputeGame) (oracle : Oracle) (root : OnchainClaim) (fuel : nat)
  (Hreach : reachable Keccak256Hash ABSOLUTE_PRESTATE D GAME_DURATION VM_step g)
  (Hlen : Z.of_nat (length (fg_claimData g)) < 2 ^ 32)
  (Hsettled : settled Keccak256Hash D trace agreeWithProposedOutput state (fg_claimData g))
  (Hids : ids_exact Keccak256Hash D agreeWithProposedOutput state (fg_claimData g))
  (Hroot : fg_claimData g !! 0%nat = Some root) (Hcorrect : correct D state (node_of root) = negb agreeWithProposedOutput)
  (Hexpired : expired (map oc_Clock (fg_claimData g))) (Hfuel : (open_games g < fuel)%nat) :
  exists g', Act Keccak256Hash trace D agreeWithProposedOutput schedule fuel (g, oracle) = Some ((g', oracle), Ok tt) /\
    (forall i, (i < length (fg_claimData g))%nat -> default [] (fg_subgames g' !! Z.of_nat i) = [] /\
       flag (fg_claimData g') i = countered (fg_claimData g) i) /\
    fg_subgameAtRootResolved g' = true /\ fg_status g' <> GameStatusInProgress /\ shouldResolve agreeWithProposedOutput (fg_status g') = true.
Proof using Hdepth Hschedule.
  pose proof (game_reachable_inv _ _ _ _ _ Hdepth g Hreach Hlen) as Inv.
  destruct (resolveClaims_returns fuel g oracle Hfuel Hlen) as (g1 & Hrc & Hres & Hno).
  destruct (resolves_shape _ _ Hres) as (Hl1 & Hclk & _).
  assert (R : resolving g g1) by (eapply resolves_resolving; [done..|by eapply resolving_start|done]).
  destruct (all_resolved g g1 Inv R) as [Hdone Hsub]; [by rewrite Hclk|done|].
  destruct (lookup_lt_is_Some_2 (fg_claimData g1) 0) as [r1 Hr1]; [rewrite Hl1; by eapply lookup_lt_Some|].
  unfold Act, tryResolve. rewrite Hrc. cbn [ch_CallResolve ch_Resolve chain contract_Chain fst].
  destruct (resolve g1) as [[g2 status]|e] eqn:Hend.
  2: { exfalso. unfold resolve in Hend. rewrite (rs_status _ _ R), Hdone, bool_decide_true in Hend by done. cbn [negb] in Hend.
       by rewrite (proj2 (claim_at_nat _ 0 r1) Hr1 : claim_at (fg_claimData g1) 0 = Ok r1) in Hend. }
  assert (Hwin : shouldResolve agreeWithProposedOutput status = true) by (eapply settled_status; eauto).
  assert (Hst : fg_status g2 = status /\ status <> GameStatusInProgress /\ fg_claimData g2 = fg_claimData g1 /\
            fg_subgames g2 = fg_subgames g1 /\ fg_subgameAtRootResolved g2 = true).
  { unfold resolve in Hend. rewrite (rs_status _ _ R), Hdone, bool_decide_true in Hend by done. cbn [negb] in Hend. apply res_bind_ok in Hend as (x & _ & Hend).
    injection Hend as <- <-. cbn. split; [done|]. by destruct (oc_Countered x). }
  destruct Hst as (Hst & Hnot & Hcd2 & Hsg2 & Hrr2). exists g2. cbn [res_fmap fmap snd fst]. rewrite bool_decide_false, Hwin by done. cbn [negb send fst snd].
  split; [done|]. rewrite Hst, Hcd2, Hsg2. split_and!; [|done..]. intros i Hi. split; [apply Hsub; lia|].
  apply (closed_flag Keccak256Hash ABSOLUTE_PRESTATE D VM_step g Inv g1 i R Hi), Hsub. lia.
Qed.
End Agent.

(** A failing transaction does not end the loop: while a claim looks
    resolvable and cannot be resolved, the agent tries again at once, for
    ever. *)
Lemma stuck_resolution_spins {W} `{C : !Chain W} (schedule : list Z -> list Z) (w : W) (claims : list Claim)
  (Hclaims : FetchClaims w = (w, Ok claims)) (Hne : claims <> [])
  (Hcall : forall i, ch_CallResolveClaim i w = (w, Ok tt)) (Hsend : forall i, (ch_ResolveClaim i w).1 = w) (fuel : nat) :
  resolveClaims schedule fuel w = None.
Proof.
  induction fuel as [|fuel IH]; [done|]. cbn [resolveClaims]. unfold tryResolveClaims. rewrite Hclaims, bool_decide_false by done.
  assert (Hr : forall cs, exists idxs, resolvable cs w = (w, idxs) /\ (cs <> [] -> idxs <> [])).
  { induction cs as [|c cs (idxs & IHr & _)]; [by eexists|]. cbn [resolvable]. rewrite Hcall, IHr. cbn. by eexists. }
  destruct (Hr claims) as (idxs & -> & Hidx). rewrite bool_decide_false by auto.
  assert (Hall : forall l, resolve_all l w = w) by (induction l as [|i l IHl]; [done|]; cbn; by rewrite Hsend).
  by rewrite Hall.
Qed.

(** ** The duplicate check *)

Lemma big_Bytes_get x : 0 <= x -> get_be (big_Bytes x) = x.
Proof.
  intros Hx. unfold big_Bytes. destruct (Z.eqb_spec x 0) as [->|]; [done|]. rewrite Z.abs_eq by lia. apply get_put_be.
  pose proof (Z.log2_nonneg x) as H0. rewrite Z2Nat.id by (apply Z.add_nonneg_nonneg; [apply Z.div_pos|]; lia).
  change 256 with (2 ^ 8). rewrite <- Z.pow_mul_r by (try apply Z.add_nonneg_nonneg; try apply Z.div_pos; lia).
  split; [lia|]. apply Z.log2_lt_pow2; [lia|]. pose proof (Z.mul_succ_div_gt (Z.log2 x) 8). lia.
Qed.

Lemma big_Bytes_inj x y : 0 <= x -> 0 <= y -> big_Bytes x = big_Bytes y -> x = y.
Proof. intros Hx Hy H. rewrite <- (big_Bytes_get x), <- (big_Bytes_get y) by done. by rewrite H. Qed.

Lemma big_Bytes_nonempty x : 0 < x -> (1 <= length (big_Bytes x))%nat.
Proof.
  intros Hx. unfold big_Bytes. destruct (Z.eqb_spec x 0); [lia|]. rewrite length_put_be.
  pose proof (Z.log2_nonneg (Z.abs x)). assert (0 <= Z.log2 (Z.abs x) / 8) by (apply Z.div_pos; lia). lia.
Qed.

Lemma big_Bytes_byte x : 0 < x < 256 -> big_Bytes x = [x].
Proof.
  intros Hx. unfold big_Bytes. destruct (Z.eqb_spec x 0); [lia|]. rewrite Z.abs_eq by lia.
  assert (Hl : Z.log2 x < 8) by (apply Z.log2_lt_pow2; lia). pose proof (Z.log2_nonneg x).
  rewrite Z.div_small by lia. change (Z.to_nat (0 + 1)) with 1%nat. cbn [put_be app]. f_equal. apply Z.mod_small. lia.
Qed.

Section Duplicates.
Variable D : Z.
Variable cd : list OnchainClaim.
Hypothesis T : tree D (nodes cd).
Hypothesis Hclaims : forall i c, cd !! i = Some c -> is_array 32 (oc_Claim c).

(** With at most 255 claims an index is one byte, and what is hashed tells a
    move from every other claim. *)
Lemma preimage_exact i v p k e : (length cd <= 255)%nat -> (i < length cd)%nat -> length v = 32%nat -> pos_wf p ->
  (i = 0%nat -> ps_depth p = 1) -> cd !! k = Some e ->
  claimID_preimage (hydrate (Z.of_nat k) e) = claimID_preimage (newClaim v p (Z.of_nat i)) ->
  parent_of (nodes cd) k = Some i /\ oc_Claim e = v /\ posn (node_of e) = p.
Proof using T Hclaims.
  intros Hlen Hi Hv Hp Hp1 He H. destruct (Hclaims k e He) as [Hel _].
  destruct (tree_position _ _ T k (node_of e)) as (Hw & _ & _); [by apply node_at|].
  pose proof (ToGIndex_pos _ Hw) as Hg1. pose proof (ToGIndex_pos _ Hp) as Hg2.
  pose proof (big_Bytes_nonempty _ Hg1) as Hn1. pose proof (big_Bytes_nonempty _ Hg2) as Hn2.
  assert (Hone : forall q, pos_wf q -> ps_depth q = 1 -> length (big_Bytes (ToGIndex q)) = 1%nat).
  { intros q Hq Hd. pose proof (ToGIndex_range q Hq) as Hr. rewrite Hd in Hr. change (2 ^ 1) with 2 in Hr. change (2 ^ (1 + 1)) with 4 in Hr.
    by rewrite big_Bytes_byte by lia. }
  unfold claimID_preimage, newClaim, c_Position, c_Value in H. cbn [c_Data cd_Position cd_Value hydrate c_ParentContractIndex] in H.
  change (NewPositionFromGIndex (oc_Position e)) with (posn (node_of e)) in H.
  assert (Hidx : forall j, (j < 255)%nat -> length (big_Bytes (Z.of_nat j)) = (if decide (j = 0) then 0 else 1)%nat).
  { intros j Hj. destruct (decide (j = 0)%nat) as [->|]; [done|]. by rewrite big_Bytes_byte by lia. }
  destruct k as [|k].
  { exfalso. destruct (tree_root _ _ T) as (r & Hr & Hpar & _). rewrite nodes_lookup, He in Hr. cbn in Hr. injection Hr as <-.
    cbn in Hpar. rewrite Hpar in H. change (big_Bytes uint32_max) with [255; 255; 255; 255] in H. destruct (decide (i = 0)%nat) as [->|Hi0].
    - apply (f_equal length) in H. rewrite !length_app, Hel, Hv, (Hone p Hp (Hp1 eq_refl)) in H.
      change (length [255; 255; 255; 255]) with 4%nat in H. change (length (big_Bytes (Z.of_nat 0))) with 0%nat in H. lia.
    - rewrite (big_Bytes_byte (Z.of_nat i)), !app_assoc in H by lia.
      change [255; 255; 255; 255] with ([255; 255; 255] ++ [255]) in H. rewrite app_assoc in H. apply app_inj_tail in H as [_ H]. lia. }
  destruct (claim_parent D cd T k e He) as (j & q & Hj & Hjk & Hq & Hpar). rewrite Hpar in H.
  pose proof (lookup_lt_Some _ _ _ He) as Hk. pose proof (f_equal length H) as Hll.
  rewrite !length_app, Hel, Hv, !Hidx in Hll by lia.
  assert (Hj1 : j = 0%nat -> length (big_Bytes (ToGIndex (posn (node_of e)))) = 1%nat).
  { intros ->. apply Hone; [done|]. destruct (parent_of_depth D _ T _ _ (node_of e) (node_of q) Hj) as [_ ->]; [by apply node_at..|].
    by rewrite (posn_root D _ T (node_of q)) by by apply node_at. }
  assert (Hi1 : i = 0%nat -> length (big_Bytes (ToGIndex p)) = 1%nat) by (intros ->; by apply Hone, Hp1).
  assert (Hlg : length (big_Bytes (ToGIndex (posn (node_of e)))) = length (big_Bytes (ToGIndex p))).
  { destruct (decide (j = 0)%nat) as [Hj0|], (decide (i = 0)%nat) as [Hi0|]; try specialize (Hj1 Hj0); try specialize (Hi1 Hi0); lia. }
  apply app_inj_1 in H as [Hg H]; [|done]. apply app_inj_1 in H as [Hval Hidx']; [|congruence].
  apply big_Bytes_inj in Hg; [|lia..]. apply big_Bytes_inj in Hidx'; [|lia..]. apply Nat2Z.inj in Hidx' as ->.
  split_and!; [done..|]. by apply ToGIndex_inj.
Qed.

(** The position of a reply. *)
Lemma reply_position i c p : cd !! i = Some c -> p = Attack (posn (node_of c)) \/ (0 < i)%nat /\ p = Defend (posn (node_of c)) ->
  pos_wf p /\ (i = 0%nat -> ps_depth p = 1).
Proof using T.
  intros Hc Hp. destruct (tree_position _ _ T i (node_of c)) as (Hw & _ & _); [by apply node_at|]. destruct Hp as [->|[Hi ->]].
  - destruct (Attack_spec _ Hw) as (? & Hda & _). split; [done|]. intros ->. rewrite Hda.
    by rewrite (posn_root D _ T (node_of c)) by by apply node_at.
  - destruct i as [|i]; [lia|]. destruct (child_left D _ T i (node_of c)) as [H0 _]; [by apply node_at|].
    by destruct (Defend_spec _ Hw H0) as (? & _).
Qed.

Variable Keccak256Hash : bytes -> Hash.
Hypothesis Hd : 1 <= D <= 63.
Hypothesis Hlen : (length cd <= 255)%nat.

Lemma duplicate_found agree i c v p : id_told_apart Keccak256Hash cd (newClaim v p (Z.of_nat i)) -> cd !! i = Some c -> length v = 32%nat ->
  p = Attack (posn (node_of c)) \/ (0 < i)%nat /\ p = Defend (posn (node_of c)) ->
  IsDuplicate Keccak256Hash (go_game Keccak256Hash D agree cd) (newClaim v p (Z.of_nat i)) = true ->
  exists k e, cd !! k = Some e /\ parent_of (nodes cd) k = Some i /\ oc_Claim e = v /\ posn (node_of e) = p.
Proof using T Hclaims Hd Hlen.
  intros Hhash Hc Hv Hp Hdup. destruct (reply_position i c p Hc Hp) as [Hpw Hp1].
  apply (IsDuplicate_iff Keccak256Hash D Hd agree) in Hdup as (k & e & He & Hid). apply (Hhash k e He) in Hid.
  exists k, e. split; [done|]. apply preimage_exact; [done|by eapply lookup_lt_Some|done..].
Qed.

(** So no reply of the honest strategy is taken for another claim. *)
Lemma ids_exact_small agree state :
  (forall i c, cd !! i = Some c -> id_told_apart Keccak256Hash cd (honest_reply D state i c)) -> (forall t, length (state t) = 32%nat) ->
  ids_exact Keccak256Hash D agree state cd.
Proof using T Hclaims Hd Hlen.
  intros Hhash Hstate i c Hl Hc Hdup. apply (duplicate_found agree i c); [by apply Hhash|done|done| |done].
  unfold reply. destruct (correct D state (node_of c)) eqn:Hcc; [right|by left]. split; [|done].
  destruct i; [|lia]. by rewrite (line_root_wrong _ _ _ _ (node_of c) Hl (node_at _ _ _ Hc)) in Hcc.
Qed.

(** C38. The duplicate check of the challenger is exact in a game of at most
    255 claims: it answers yes for a reply exactly when a claim with that
    value, that position and that parent is on chain, unless the hash collides
    on what is hashed for the reply and for a claim of the game. *)
Theorem duplicate_check_exact (agree : bool) (i : nat) (c : OnchainClaim) (v : Hash) (p : Position)
  (Hc : cd !! i = Some c) (Hv : length v = 32%nat)
  (Hp : p = Attack (posn (node_of c)) \/ (0 < i)%nat /\ p = Defend (posn (node_of c)))
  (Hhash : id_told_apart Keccak256Hash cd (newClaim v p (Z.of_nat i))) :
  IsDuplicate Keccak256Hash (go_game Keccak256Hash D agree cd) (newClaim v p (Z.of_nat i)) = true <->
  exists k e, cd !! k = Some e /\ parent_of (nodes cd) k = Some i /\ oc_Claim e = v /\ posn (node_of e) = p.
Proof using T Hclaims Hd Hlen.
  split; [by apply (duplicate_found agree i c)|]. intros (k & e & He & Hpar & Hval & Hpos).
  rewrite (IsDuplicate_iff Keccak256Hash D Hd agree). exists k, e. split; [done|]. unfold computeClaimID, claimID_preimage. f_equal.
  unfold newClaim, c_Position, c_Value. cbn [c_Data cd_Position cd_Value hydrate c_ParentContractIndex].
  change (NewPositionFromGIndex (oc_Position e)) with (posn (node_of e)). rewrite Hpos, Hval.
  destruct k as [|k]; [done|]. destruct (claim_parent D cd T k e He) as (j & q & Hj & _ & _ & ->). congruence.
Qed.
End Duplicates.

(** ** The rules of the strategy *)

Section Rules.
Variable Keccak256Hash : bytes -> Hash.
Variable ABSOLUTE_PRESTATE : Hash.
Variable MAX_GAME_DEPTH : Z.
Context {Oracle : Type}.
Variable VM_step : Oracle -> bytes -> bytes -> option Hash.
Hypothesis Hdepth : 1 <= MAX_GAME_DEPTH <= 63.
Variable trace : TraceProvider.
Variable agreeWithProposedOutput : bool.
Variable state : Z -> Hash.
Variable loaded : Oracle -> option PreimageOracleData -> Prop.
Hypothesis TL : trace_laws Keccak256Hash ABSOLUTE_PRESTATE MAX_GAME_DEPTH VM_step trace state loaded.
Variable cd : list OnchainClaim.
Hypothesis T : tree MAX_GAME_DEPTH (nodes cd).

#[local] Notation D := MAX_GAME_DEPTH.
#[local] Notation game := (go_game Keccak256Hash D agreeWithProposedOutput cd).

(** Looking at the path of a claim always ends, and says whether the claim
    and every other claim of the same side above it are what the trace says. *)
Lemma claim_path_agreement (Hlen : Z.of_nat (length cd) < 2 ^ 32) (i : nat) (c : OnchainClaim) (Hc : cd !! i = Some c) :
  exists b, agreeWithClaimPath trace game (hydrate (Z.of_nat i) c) = Ok b /\
    (b = true <-> side_correct D state (nodes cd) i).
Proof using TL T.
  unfold agreeWithClaimPath. cbn [gs_claims go_game NewGameState]. rewrite go_length. eapply agree_path_spec; [done..|].
  apply lookup_lt_Some in Hc. lia.
Qed.

Lemma claim_index i c : cd !! i = Some c -> index (gs_claims game) (Z.of_nat i) = Ok (hydrate (Z.of_nat i) c).
Proof using.
  intros Hc. unfold index. destruct (Z.ltb_spec (Z.of_nat i) 0); [lia|]. cbn [gs_claims go_game NewGameState].
  by rewrite Nat2Z.id, go_lookup, Hc.
Qed.

(** Every action the solver calculates, for any claim of the game, is in
    response to a claim on a level it disagrees with, claims what the trace
    says, and passes the rules: its parent exists, it moves above the last
    level and steps on it, it repeats no claim and does not defend the root. *)
Lemma actions_obey_rules (Hclaims : forall i c, cd !! i = Some c -> is_array 32 (oc_Claim c))
  (Hlen : (length cd <= 255)%nat) (i : nat) (c : OnchainClaim) (a : Action) (Hc : cd !! i = Some c)
  (Hact : claim_action Keccak256Hash trace D game (hydrate (Z.of_nat i) c) = Ok (Some a))
  (Hhash : forall v p, id_told_apart Keccak256Hash cd (newClaim v p (Z.of_nat i))) :
  checkRules Keccak256Hash game a = Ok [] /\ ac_ParentIdx a = Z.of_nat i /\
  AgreeWithClaimLevel game (hydrate (Z.of_nat i) c) = false /\
  (ac_Type a = ActionTypeMove -> exists p, resultingPosition game a = Ok p /\ ac_Value a = state (trace_idx D p)).
Proof using TL T Hdepth.
  pose proof (node_at cd i c Hc) as Hn. destruct (tree_position _ _ T i _ Hn) as (Hw & _ & Hle).
  pose proof (lookup_lt_Some _ _ _ Hc) as Hlt. pose proof (claim_index i c Hc) as Hidx.
  assert (Hdup : forall v p, length v = 32%nat -> (i = 0%nat -> ps_depth p = 1) -> pos_wf p ->
            (forall k e, cd !! k = Some e -> parent_of (nodes cd) k = Some i -> oc_Claim e = v -> posn (node_of e) = p -> False) ->
            IsDuplicate Keccak256Hash game (newClaim v p (Z.of_nat i)) = false).
  { intros v p Hv Hp1 Hp Hno. apply not_true_iff_false. rewrite (IsDuplicate_iff Keccak256Hash D Hdepth). intros (k & e & He & Hid).
    apply (Hhash _ _ k e He) in Hid. destruct (preimage_exact D cd T Hclaims i v p k e) as (? & ? & ?); eauto. }
  unfold claim_action in Hact. rewrite (depth_u64 _ Hdepth _ T i c Hc) in Hact. cbn [gs_depth go_game NewGameState] in Hact.
  destruct (Z.eqb_spec (ps_depth (posn (node_of c))) D) as [Hd|Hd].
  - unfold calculateStep in Hact. destruct (c_Countered _); [done|]. destruct (AgreeWithClaimLevel _ _) eqn:Hlev; [done|].
    destruct (AttemptStep _ _ _ _) as [sd|e] eqn:Hs; [|by destruct (errors_Is _ _)]. injection Hact as <-.
    assert (Hleaf : sd_LeafClaim sd = hydrate (Z.of_nat i) c).
    { unfold AttemptStep in Hs. destruct (negb _); [done|]. apply res_bind_ok in Hs as (? & _ & Hs). apply res_bind_ok in Hs as (b & _ & Hs).
      destruct (negb b); [done|]. apply res_bind_ok in Hs as (? & _ & Hs). apply res_bind_ok in Hs as ([[? ?] ?] & _ & Hs). by injection Hs as <-. }
    rewrite Hleaf. cbn [ac_ParentIdx ac_Type c_ContractIndex hydrate]. split; [|done].
    assert (Hi0 : i <> 0%nat). { intros ->. rewrite (posn_root D _ T _ Hn) in Hd. cbn in Hd. lia. }
    unfold checkRules, rules. cbn [run_rules]. unfold parentMustExist, onlyStepAtMaxDepth, onlyMoveBeforeMaxDepth,
      doNotDuplicateExistingMoves, doNotDefendRootClaim, resultingPosition. cbn [ac_ParentIdx ac_Type ac_Value ac_IsAttack].
    rewrite Hidx. cbn [gs_claims gs_depth go_game NewGameState]. rewrite go_length.
    destruct (Z.leb_spec (Z.of_nat (length cd)) (Z.of_nat i)); [lia|]. destruct (Z.ltb_spec (Z.of_nat i) 0); [lia|].
    cbn [orb mbind res_bind]. rewrite (decide_True (P := ActionTypeStep = ActionTypeStep)), (decide_False (P := ActionTypeStep = ActionTypeMove)) by done.
    cbn [mbind res_bind]. rewrite (depth_u64 _ Hdepth _ T i c Hc), Hd, Z.ltb_irrefl, hydrate_position.
    rewrite (decide_True (P := ActionTypeStep = ActionTypeStep)) by done. rewrite Hdup; [|done| |done|].
    + cbn [mbind res_bind]. rewrite (claim_root D cd T i c Hc), bool_decide_false by done. done.
    + done.
    + intros k e He Hpar _ Hp. destruct (parent_of_depth D _ T k i (node_of e) (node_of c) Hpar) as [_ Hdep]; [by apply node_at..|].
      rewrite Hp in Hdep. lia.
  - unfold calculateMove in Hact. destruct (AgreeWithClaimLevel _ _) eqn:Hlev; [done|]. apply res_bind_ok in Hact as (m & Hm & Hact).
    apply map_err_ok in Hm. destruct m as [m|]; [|done]. destruct (IsDuplicate _ _ _) eqn:Hnodup; [done|]. injection Hact as <-.
    destruct (NextMove_shape _ _ _ _ _ _ state loaded TL cd T i c m Hc ltac:(lia) Hm) as (att & Hatt & ->).
    cbn [ac_ParentIdx ac_Type newClaim c_ParentContractIndex ac_IsAttack ac_Value].
    rewrite (defends_parent Keccak256Hash D agreeWithProposedOutput cd T i c _ _ Hc Hatt), negb_involutive.
    assert (Hres : forall v, resultingPosition game {| ac_Type := ActionTypeMove; ac_ParentIdx := Z.of_nat i; ac_IsAttack := att;
              ac_Value := v; ac_PreState := []; ac_ProofData := []; ac_OracleData := None |} = Ok (move_of (posn (node_of c)) att)).
    { intros v. unfold resultingPosition. cbn [ac_ParentIdx ac_Type ac_IsAttack]. rewrite Hidx. cbn [mbind res_bind].
      rewrite decide_False, hydrate_position by done. done. }
    split; [|split_and!; [done..|]; intros _; exists (move_of (posn (node_of c)) att); by split].
    unfold checkRules, rules. cbn [run_rules]. unfold parentMustExist, onlyStepAtMaxDepth, onlyMoveBeforeMaxDepth,
      doNotDuplicateExistingMoves, doNotDefendRootClaim. rewrite Hres. cbn [ac_ParentIdx ac_Type ac_Value ac_IsAttack].
    rewrite Hidx. cbn [gs_claims gs_depth go_game NewGameState]. rewrite go_length.
    destruct (Z.leb_spec (Z.of_nat (length cd)) (Z.of_nat i)); [lia|]. destruct (Z.ltb_spec (Z.of_nat i) 0); [lia|].
    cbn [orb mbind res_bind]. rewrite (decide_False (P := ActionTypeMove = ActionTypeStep)), (decide_True (P := ActionTypeMove = ActionTypeMove)) by done.
    cbn [mbind res_bind]. rewrite (depth_u64 _ Hdepth _ T i c Hc). destruct (Z.leb_spec D (ps_depth (posn (node_of c)))); [lia|].
    unfold newClaim, c_Value in Hnodup |- *. cbn [c_Data cd_Value] in *. rewrite Hnodup, (claim_root D cd T i c Hc).
    destruct (bool_decide_reflect (i = 0%nat)); [|done]. destruct att; [done|]. specialize (Hatt eq_refl). lia.
Qed.

(** C39. The identifier of a claim does not tell all claims apart: its parts
    are put together without their lengths. Somebody who knows the reply of
    the honest strategy to claim 265, when that reply starts with a zero byte,
    plants another claim with the same identifier, eight levels further down
    under claim 9; the solver takes its reply for a duplicate and never makes
    it, whatever the hash function. *)
Theorem planted_claim_silences (Hlen : Z.of_nat (length cd) < 2 ^ 32) (k : nat) (c e : OnchainClaim) (rest : bytes)
  (Hc : cd !! 265%nat = Some c) (Hline : line D agreeWithProposedOutput state (nodes cd) false 265)
  (Hpos : oc_Position c = 2) (Hwrong : correct D state (node_of c) = false) (Habove : 1 < D)
  (Hreply : state (trace_idx D (Attack (posn (node_of c)))) = 0 :: rest)
  (He : cd !! k = Some e) (Hpar : oc_ParentIndex e = 9) (Hposition : oc_Position e = 1024) (Hvalue : oc_Claim e = rest ++ [1]) :
  claim_action Keccak256Hash trace D game (hydrate 265 c) = Ok None.
Proof using TL T Hdepth.
  assert (Hd : ps_depth (posn (node_of c)) = 1) by (unfold posn; cbn [n_position node_of]; by rewrite Hpos).
  change 265 with (Z.of_nat 265). unfold claim_action. rewrite (depth_u64 _ Hdepth _ T _ c Hc). cbn [gs_depth go_game NewGameState]. rewrite Hd.
  destruct (Z.eqb_spec 1 D); [lia|]. unfold calculateMove. rewrite (opposed_level _ _ _ _ _ T _ _ Hc Hline).
  destruct (opposed_move _ _ _ _ _ agreeWithProposedOutput _ _ TL _ T Hlen _ c Hc Hline ltac:(lia)) as (-> & _ & _).
  cbn [map_err mbind res_bind]. rewrite (proj2 (IsDuplicate_iff Keccak256Hash D Hdepth agreeWithProposedOutput cd _)); [done|].
  exists k, e. split; [done|]. unfold computeClaimID, claimID_preimage. f_equal. unfold reply. rewrite Hwrong.
  unfold newClaim, c_Position, c_Value. cbn [c_Data cd_Position cd_Value hydrate c_ParentContractIndex].
  rewrite Hreply, Hpar, Hposition, Hvalue. unfold posn. cbn [n_position node_of]. rewrite Hpos.
  change (big_Bytes (ToGIndex (NewPositionFromGIndex 1024))) with [4; 0].
  change (big_Bytes (ToGIndex (Attack (NewPositionFromGIndex 2)))) with [4].
  change (big_Bytes 9) with [9]. change (big_Bytes (Z.of_nat 265)) with [1; 9]. cbn. by rewrite <- app_assoc.
Qed.
End Rules.

(** ** Positions *)


(** The position relative to a subtree: at most 63 levels below the root
    of the subtree it is the position in that subtree, with the trace index
    modulo the size of the subtree; from 64 levels on the shift of the Go code
    is zero and the call panics. *)
Lemma relative_position_bounds (p : Position) (ancestor : Z) (Hp : pos_wf p) (Ha : 0 <= ancestor <= ps_depth p) (Hd : ps_depth p < 2 ^ 63) :
  if ps_depth p - ancestor <=? 63 then
    exists q, RelativeToAncestorAtDepth p ancestor = Ok q /\ pos_wf q /\ ps_depth q = ps_depth p - ancestor /\
      forall maxDepth, ps_depth p <= maxDepth -> trace_idx (maxDepth - ancestor) q = trace_idx maxDepth p mod 2 ^ (maxDepth - ancestor)
  else RelativeToAncestorAtDepth p ancestor = Err (GoPanic "division by zero").
Proof.
  destruct Hp as [H0 Hi]. unfold RelativeToAncestorAtDepth. assert (Hu : u64 (ps_depth p) = ps_depth p) by (apply Z.mod_small; lia).
  rewrite Hu. destruct (Z.ltb_spec (ps_depth p) ancestor); [lia|]. rewrite sub64_small by ulia.
  set (r := ps_depth p - ancestor). assert (Hr : 0 <= r) by (subst r; lia). unfold big_Mod, int_shl1. rewrite Z.shiftl_1_l.
  destruct (Z.leb_spec r 63) as [Hle|Hgt].
  - pose proof (pow2_le r 63 ltac:(lia)) as Hb. pose proof (Z.pow_pos_nonneg 2 r ltac:(lia) Hr).
    assert (Habs : Z.abs ((2 ^ r + 2 ^ 63) mod 2 ^ 64 - 2 ^ 63) = 2 ^ r).
    { destruct (Z.eq_dec r 63) as [->|]; [done|]. pose proof (pow2_lt r 63 ltac:(lia)). rewrite Z.mod_small by lia. lia. }
    destruct (Z.eqb_spec ((2 ^ r + 2 ^ 63) mod 2 ^ 64 - 2 ^ 63) 0) as [Hz|_]; [rewrite Hz in Habs; cbn in Habs; lia|].
    rewrite Habs. cbn [mbind res_bind]. eexists. split; [done|]. unfold pos_wf, trace_idx. cbn [ps_depth ps_indexAtDepth].
    split; [split; [done|cbn; apply Z.mod_pos_bound; done]|]. split; [done|]. intros d Hdd. cbn [NewPosition ps_depth ps_indexAtDepth].
    replace (d - ancestor - r) with (d - ps_depth p) by (subst r; lia).
    pose proof (Z.pow_pos_nonneg 2 (d - ps_depth p) ltac:(lia) ltac:(lia)).
    assert (Hsplit : 2 ^ (d - ancestor) = 2 ^ r * 2 ^ (d - ps_depth p)) by (rewrite <- Z.pow_add_r by (subst r; lia); f_equal; subst r; lia).
    rewrite Hsplit. pose proof (Z.mod_pos_bound (ps_indexAtDepth p) (2 ^ r) ltac:(lia)).
    apply (Z.mod_unique _ _ (ps_indexAtDepth p / 2 ^ r)); [left; nia|]. pose proof (Z.div_mod (ps_indexAtDepth p) (2 ^ r)). nia.
  - assert (Hz : (2 ^ r + 2 ^ 63) mod 2 ^ 64 - 2 ^ 63 = 0).
    { replace (2 ^ r) with (2 ^ (r - 64) * 2 ^ 64) by (rewrite <- Z.pow_add_r by lia; f_equal; lia).
      rewrite Z.add_comm, Z_mod_plus_full. done. }
    by rewrite Hz.
Qed.

(** The block an output claim is about, and where the number wraps around: in
    a game of depth 64 the root claim is about the block before the first. *)
Lemma outputs_block (OutputAtBlock : Z -> res Hash) prestateBlock poststateBlock gameDepth p :
  pos_wf p -> ps_depth p <= gameDepth <= 64 -> is_u64 prestateBlock ->
  outputs_Get OutputAtBlock prestateBlock poststateBlock gameDepth p =
    OutputAtBlock (Z.min poststateBlock (u64 (trace_idx gameDepth p + prestateBlock + 1))).
Proof.
  intros Hp Hd Hpre. unfold outputs_Get. rewrite TraceIndex_spec by (done || lia). cbn [mbind res_bind].
  pose proof (trace_idx_range gameDepth p Hp ltac:(lia)). pose proof (pow2_le gameDepth 64 ltac:(destruct Hp; lia)).
  rewrite bool_decide_true by (unfold is_u64; lia). cbn [negb]. f_equal.
  assert (Hs : trace_idx gameDepth p +₆₄ prestateBlock +₆₄ 1 = u64 (trace_idx gameDepth p + prestateBlock + 1)).
  { unfold add64, u64. by rewrite Zplus_mod_idemp_l. }
  rewrite Hs. destruct (Z.ltb_spec poststateBlock (u64 (trace_idx gameDepth p + prestateBlock + 1))); lia.
Qed.

Lemma outputs_root_wraps (OutputAtBlock : Z -> res Hash) prestateBlock poststateBlock :
  is_u64 prestateBlock -> prestateBlock <= poststateBlock ->
  outputs_Get OutputAtBlock prestateBlock poststateBlock 64 (NewPosition 0 0) = OutputAtBlock prestateBlock.
Proof.
  intros Hpre Hpost. rewrite outputs_block by (done || lia). change (trace_idx 64 (NewPosition 0 0)) with (2 ^ 64 - 1).
  f_equal. replace (u64 (2 ^ 64 - 1 + prestateBlock + 1)) with prestateBlock by ulia. lia.
Qed.
