(* ===== verification/DisputeExample.v ===== *)
(** * Games on concrete programs

    A program that counts, with a hash that hides nothing, so that the laws of
    the trace hold by computation, and games about it played through the
    contract: the hypotheses of the theorems on the dispute game hold in
    them. *)

From S2P Require Import Prelude Eth Dispute Challenger FaultGame DisputePositions DisputeTree DisputePlay DisputeSafety ChallengerSafety.

(** ** A program that counts *)

Section Counter.
Variable depth last : Z.

(** A state is its own commitment: the status, and the number of
    instructions executed. The program exits after instruction [last]. *)
Definition count_hash (b : bytes) : Hash := b.
Definition count_state (t : Z) : Hash := (if t =? last then 1 else 0) :: put_be 31 (t + 1).
Definition count_VM (_ : unit) (data proof : bytes) : option Hash := Some (count_state (get_be (drop 1 data))).
Definition count_prestate : Hash := count_state (-1).
Definition count_loaded (_ : unit) (_ : option PreimageOracleData) : Prop := True.

Definition count_trace : TraceProvider := {|
  tp_Get := fun p => Ok (count_state (trace_idx depth p));
  tp_GetStepData := fun p => Ok (count_state (ps_indexAtDepth p - 1), [], None);
  tp_AbsolutePreState := Ok count_prestate;
  tp_AbsolutePreStateCommitment := Ok count_prestate;
|}.

Lemma count_counter t : 0 <= t <= 2 ^ 63 -> get_be (put_be 31 t) = t.
Proof using. intros Ht. apply get_put_be. change (256 ^ Z.of_nat 31) with (2 ^ 63 * 2 ^ 185). lia. Qed.

Lemma count_laws : depth <= 63 -> trace_laws count_hash count_prestate depth count_VM count_trace count_state count_loaded.
Proof using.
  intros Hd. assert (Hpow : forall t, 0 <= t < 2 ^ depth -> t < 2 ^ 63).
  { intros t Ht. destruct (Z.neg_nonneg_cases depth); [rewrite Z.pow_neg_r in Ht by done; lia|]. pose proof (pow2_le depth 63 ltac:(lia)). lia. }
  split.
  - done.
  - done.
  - intros t. split; [cbn [length count_state]; by rewrite length_put_be|]. constructor; [unfold is_u8; by destruct (t =? last)|apply put_be_ok].
  - intros p Hp Hi. specialize (Hpow _ Hi). do 3 eexists. split; [done|]. split; [done|]. intros [] _. unfold count_VM.
    do 2 f_equal. change (drop 1 (count_state (ps_indexAtDepth p - 1))) with (put_be 31 (ps_indexAtDepth p - 1 + 1)).
    rewrite count_counter; lia.
  - intros [] data proof t v Ht Hdata Hv. specialize (Hpow _ Ht). unfold count_VM, count_hash in *. rewrite Hdata in Hv. apply (inj Some) in Hv as <-.
    f_equal. change (drop 1 (count_state (t - 1))) with (put_be 31 (t - 1 + 1)).
    rewrite count_counter; lia.
Qed.
End Counter.

(** ** Playing *)

Inductive tx :=
  | TxMove (parent : Z) (claim : Hash) (isAttack : bool) (now : Z)
  | TxStep (claim : Z) (isAttack : bool) (data : bytes)
  | TxResolve (claim : Z) (now : Z).

Section Run.
Variable depth last : Z.

(** Nobody moves or steps below a resolved claim. *)
Definition tx_orderly (t : tx) (g : FaultDisputeGame) : bool :=
  match t with
  | TxMove i _ _ _ | TxStep i _ _ => unresolved_above_b (S (length (fg_claimData g))) g (Z.to_nat i)
  | TxResolve _ _ => true
  end.

Definition send_tx (strict : bool) (t : tx) (g : FaultDisputeGame) : res FaultDisputeGame :=
  if strict && negb (tx_orderly t g) then revert "below a resolved claim"
  else
    match t with
    | TxMove i v att now => if bool_decide (is_array 32 v) then move count_hash depth 100 i v att now g else revert "no bytes32"
    | TxStep i att data => step count_hash (count_prestate last) depth (count_VM last) i att tt data [] g
    | TxResolve i now => resolveClaim 100 i now g
    end.

Fixpoint run (strict : bool) (ts : list tx) (g : FaultDisputeGame) : res FaultDisputeGame :=
  match ts with
  | [] => Ok g
  | t :: ts => g ← send_tx strict t g; run strict ts g
  end.

(** The game with a root claim, after some transactions. *)
Definition game_after (strict : bool) (root : Hash) (ts : list tx) : res FaultDisputeGame :=
  if bool_decide (is_array 32 root) then g ← initialize root 0; run strict ts g else revert "no bytes32".

Lemma run_plays ts g g' : run true ts g = Ok g' ->
  rtc (play count_hash (count_prestate last) depth 100 (count_VM last)) g g'.
Proof using.
  revert g. induction ts as [|t ts IH]; intros g H; [injection H as <-; apply rtc_refl|]. cbn [run] in H.
  apply res_bind_ok in H as (g1 & Ht & H). eapply rtc_l; [|by apply IH]. unfold send_tx in Ht.
  destruct (tx_orderly t g) eqn:Ho; cbn [andb negb] in Ht; [|done]. destruct t as [i v att now|i att data|i now]; cbn [tx_orderly] in Ho.
  - destruct (bool_decide_reflect (is_array 32 v)); [|done]. eapply play_move; [done| |done]. by eapply unresolved_above_b_spec.
  - eapply play_step; [|done]. by eapply unresolved_above_b_spec.
  - by eapply play_resolve.
Qed.

Lemma game_reachable root ts g : game_after true root ts = Ok g ->
  reachable count_hash (count_prestate last) depth 100 (count_VM last) g.
Proof using.
  unfold game_after. destruct (bool_decide_reflect (is_array 32 root)); [|done]. intros H. apply res_bind_ok in H as (g0 & Hi & H).
  exists root, 0, g0. split_and!; [done..|]. by eapply run_plays.
Qed.

Lemma game_after_inv root ts g : 1 <= depth <= 63 -> game_after true root ts = Ok g -> Z.of_nat (length (fg_claimData g)) < 2 ^ 32 ->
  game_inv count_hash (count_prestate last) depth (count_VM last) g.
Proof using. intros Hd H Hl. eapply game_reachable_inv; [done|by eapply game_reachable|done]. Qed.
End Run.

(** The game that a computation has found. *)
Definition get {A} (d : A) (r : res A) : A := match r with Ok a => a | Err _ => d end.
Definition no_game : FaultDisputeGame := mkFaultDisputeGame GameStatusInProgress [] ∅ ∅ false.

(** ** A wrong root claim

    Four instructions, two levels. The honest strategy attacks the root, and
    steps on wrong claims against its own. *)

Definition wrong (n : Z) : Hash := 2 :: put_be 31 n.
Definition opening : list tx := [TxMove 0 (count_state 3 1) true 10; TxMove 1 (wrong 7) true 20].

(** A whole game: two others argue below another attack on the root, which is
    resolved before the claim of the honest strategy is answered. *)
Definition whole : list tx :=
  [TxMove 0 (wrong 5) true 1; TxMove 1 (wrong 6) true 2; TxMove 0 (count_state 3 1) true 10; TxResolve 1 52;
   TxMove 3 (wrong 7) true 55; TxMove 3 (wrong 8) false 56; TxStep 4 true (count_state 3 (-1)); TxStep 5 true (count_state 3 1)].

#[local] Notation after ts := (get no_game (game_after 2 3 true (wrong 9) ts)).

Lemma game_opened ts : is_ok (game_after 2 3 true (wrong 9) ts) = true -> game_after 2 3 true (wrong 9) ts = Ok (after ts).
Proof. by destruct (game_after 2 3 true (wrong 9) ts). Qed.

#[local] Notation laws := (count_laws 2 3 ltac:(lia)).

Lemma wrong_tree ts : is_ok (game_after 2 3 true (wrong 9) ts) = true -> Z.of_nat (length (fg_claimData (after ts))) < 2 ^ 32 ->
  tree 2 (nodes (fg_claimData (after ts))).
Proof.
  intros H Hl. eapply gi_tree, game_after_inv; [lia|by apply game_opened|done].
Qed.

Lemma claims_arrays cd : Forall (fun c => is_array 32 (oc_Claim c)) cd -> forall i c, cd !! i = Some c -> is_array 32 (oc_Claim c).
Proof. intros H i c Hc. by eapply Forall_lookup_1 in H. Qed.

(** No claim of a list has an action. *)
Definition idle (depth last : Z) (agree : bool) (cd : list OnchainClaim) : bool :=
  forallb (fun c => match claim_action count_hash (count_trace depth last) depth (go_game count_hash depth agree cd) c with
                    | Ok None => true | _ => false end) (go_claims cd).

Lemma idle_settled depth last agree cd : idle depth last agree cd = true ->
  settled count_hash depth (count_trace depth last) agree (count_state last) cd.
Proof.
  intros H i c _ Hc. unfold idle in H. rewrite forallb_forall in H. specialize (H (hydrate (Z.of_nat i) c)).
  destruct (claim_action _ _ _ _ _) as [[a|]|]; [|done|]; (discriminate H || (exfalso; discriminate (H _))) || idtac.
  all: assert (Hin : In (hydrate (Z.of_nat i) c) (go_claims cd)) by (apply list_elem_of_In, list_elem_of_lookup; exists i; by rewrite go_lookup, Hc).
  all: by specialize (H Hin).
Qed.

Lemma wrong_ids ts : is_ok (game_after 2 3 true (wrong 9) ts) = true ->
  (length (fg_claimData (after ts)) <= 255)%nat ->
  Forall (fun c => is_array 32 (oc_Claim c)) (fg_claimData (after ts)) -> ids_exact count_hash 2 true (count_state 3) (fg_claimData (after ts)).
Proof.
  intros H Hl Hc. apply ids_exact_small; [apply wrong_tree; [done|lia]|by apply claims_arrays|lia|done| |].
  - intros i c _ k e _. by intros Heq.
  - intros t. apply (tl_array _ _ _ _ _ _ _ laws).
Qed.

(** The game at its end, and as it is resolved. *)
#[local] Notation resolve_claims idxs g := (fold_left (fun x i => get no_game (resolveClaim 100 i 1000 x)) idxs g).
#[local] Notation played := (after whole).
#[local] Notation claims_resolved := (resolve_claims [3; 0] played).

Lemma honest_challenger_wins_witness :
  shouldResolve true (snd (get (no_game, GameStatusInProgress) (resolve claims_resolved))) = true.
Proof.
  assert (Hok : is_ok (game_after 2 3 true (wrong 9) whole) = true) by (vm_compute; reflexivity).
  assert (Hr1 : resolveClaim 100 3 1000 played = Ok (resolve_claims [3] played)) by (vm_compute; reflexivity).
  assert (Hr0 : resolveClaim 100 0 1000 (resolve_claims [3] played) = Ok claims_resolved) by (vm_compute; reflexivity).
  assert (Hend : resolve claims_resolved = Ok (get (no_game, GameStatusInProgress) (resolve claims_resolved))) by (vm_compute; reflexivity).
  refine (honest_challenger_wins count_hash (count_prestate 3) 2 100 (count_VM 3) ltac:(lia) (count_trace 2 3) true (count_state 3)
    (fun _ _ => True) laws played claims_resolved (fst (get (no_game, GameStatusInProgress) (resolve claims_resolved)))
    {| oc_ParentIndex := uint32_max; oc_Countered := true; oc_Claim := wrong 9; oc_Position := 1; oc_Clock := 0 |} _ _ _ _ _ _ _ _ _).
  - apply (game_reachable 2 3 (wrong 9) whole), game_opened, Hok.
  - vm_compute; reflexivity.
  - apply idle_settled. vm_compute; reflexivity.
  - apply wrong_ids; [exact Hok|vm_compute; lia|vm_decide].
  - vm_compute; reflexivity.
  - vm_compute; reflexivity.
  - eapply rtc_l; [econstructor; exact Hr1|]. eapply rtc_l; [econstructor; exact Hr0|apply rtc_refl].
  - rewrite Hend. destruct (get (no_game, GameStatusInProgress) (resolve claims_resolved)); reflexivity.
Defined.

Lemma agent_finishes_game_witness : exists g',
  Act (Chain0 := contract_Chain count_hash (count_prestate 3) 2 100 (count_VM 3) (fun _ o => o) 1000) count_hash (count_trace 2 3) 2 true
    (@rev Z) 10 (played, tt) = Some ((g', tt), Ok tt) /\
  (forall i, (i < length (fg_claimData played))%nat -> default [] (fg_subgames g' !! Z.of_nat i) = [] /\
     flag (fg_claimData g') i = countered (fg_claimData played) i) /\
  fg_subgameAtRootResolved g' = true /\ fg_status g' <> GameStatusInProgress /\ shouldResolve true (fg_status g') = true.
Proof.
  assert (Hok : is_ok (game_after 2 3 true (wrong 9) whole) = true) by (vm_compute; reflexivity).
  refine (agent_finishes_game count_hash (count_prestate 3) 2 100 (count_VM 3) (fun _ o => o) 1000 ltac:(lia) (count_trace 2 3) true
    (count_state 3) (fun _ _ => True) (@rev Z) (fun l => symmetry (Permutation_rev l)) laws played tt
    {| oc_ParentIndex := uint32_max; oc_Countered := true; oc_Claim := wrong 9; oc_Position := 1; oc_Clock := 0 |} 10 _ _ _ _ _ _ _ _).
  - apply (game_reachable 2 3 (wrong 9) whole), game_opened, Hok.
  - vm_compute; reflexivity.
  - apply idle_settled. vm_compute; reflexivity.
  - apply wrong_ids; [exact Hok|vm_compute; lia|vm_decide].
  - vm_compute; reflexivity.
  - vm_compute; reflexivity.
  - vm_decide.
  - apply Nat.ltb_lt. vm_compute; reflexivity.
Defined.

(** The condition of [reachable] is needed: [resolveClaim] resolves a claim
    whose clock has run out, although a claim against it can still be answered.
    Here claim 1 of the honest strategy is resolved against it before its step
    on claim 2, which no clock limits; claim 1 cannot be resolved again, and
    the wrong root stands. Nothing is left to do for the honest strategy. *)
Definition early : list tx :=
  [TxMove 0 (count_state 3 1) true 10; TxMove 1 (wrong 7) true 59; TxResolve 1 61; TxStep 2 true (count_state 3 (-1))].

Definition early_game : FaultDisputeGame := get no_game (game_after 2 3 false (wrong 9) early).

Lemma early_resolution_loses : exists g g' g'',
  game_after 2 3 false (wrong 9) early = Ok g /\ is_ok (game_after 2 3 true (wrong 9) early) = false /\
  settled count_hash 2 (count_trace 2 3) true (count_state 3) (fg_claimData g) /\
  resolveClaim 100 1 1000 g = Err (Errorf "ClaimAlreadyResolved") /\
  resolveClaim 100 0 1000 g = Ok g' /\ resolve g' = Ok (g'', GameStatusDefenderWon) /\
  shouldResolve true GameStatusDefenderWon = false.
Proof.
  exists early_game, (resolve_claims [0] early_game),
    (fst (get (no_game, GameStatusInProgress) (resolve (resolve_claims [0] early_game)))).
  split_and!; [vm_compute; reflexivity..| |vm_compute; reflexivity|vm_compute; reflexivity|vm_compute; reflexivity|vm_compute; reflexivity].
  apply idle_settled. vm_compute; reflexivity.
Qed.

(** The first move of the honest strategy, and its first step. *)
#[local] Notation first_move := (get None (claim_action count_hash (count_trace 2 3) 2 (go_game count_hash 2 true (fg_claimData (after [])))
  (hydrate 0 {| oc_ParentIndex := uint32_max; oc_Countered := false; oc_Claim := wrong 9; oc_Position := 1; oc_Clock := 0 |}))).

Lemma honest_action_accepted_witness : exists a g',
  claim_action count_hash (count_trace 2 3) 2 (go_game count_hash 2 true (fg_claimData (after [])))
    (hydrate 0 {| oc_ParentIndex := uint32_max; oc_Countered := false; oc_Claim := wrong 9; oc_Position := 1; oc_Clock := 0 |}) = Ok (Some a) /\
  perform_action count_hash (count_prestate 3) 2 100 (count_VM 3) 10 tt a (after []) = Ok g' /\
  (ac_Type a = ActionTypeMove -> line 2 true (count_state 3) (nodes (fg_claimData g')) true 1).
Proof.
  assert (Hok : is_ok (game_after 2 3 true (wrong 9) []) = true) by (vm_compute; reflexivity).
  assert (Hact : exists a, first_move = Some a) by (eexists; vm_compute; reflexivity). destruct Hact as [a Ha].
  assert (Hact : claim_action count_hash (count_trace 2 3) 2 (go_game count_hash 2 true (fg_claimData (after [])))
    (hydrate (Z.of_nat 0) {| oc_ParentIndex := uint32_max; oc_Countered := false; oc_Claim := wrong 9; oc_Position := 1; oc_Clock := 0 |}) = Ok first_move)
    by (vm_compute; reflexivity). rewrite Ha in Hact.
  destruct (honest_action_accepted count_hash (count_prestate 3) 2 100 (count_VM 3) ltac:(lia) (count_trace 2 3) true
    (count_state 3) (fun _ _ => True) laws (after []) 0%nat _ a 10 tt
    (game_reachable 2 3 (wrong 9) [] _ (game_opened [] Hok)) ltac:(vm_compute; split; (discriminate || reflexivity)) ltac:(vm_compute; reflexivity)
    ltac:(eapply line_root; [vm_compute; reflexivity|vm_compute; reflexivity]) ltac:(vm_compute; reflexivity) Hact
    ltac:(intros k e _; intros Heq; exact Heq) ltac:(exists 0; split; [vm_compute; reflexivity|vm_compute; split; discriminate]) I) as (g' & H1 & H2 & _).
  exists a, g'. split; [exact Hact|]. split; [exact H1|exact H2].
Defined.

Lemma duplicate_check_exact_witness :
  IsDuplicate count_hash (go_game count_hash 2 true (fg_claimData (after opening)))
    (newClaim (count_state 3 1) (Attack (NewPosition 0 0)) (Z.of_nat 0)) = true <->
  exists k e, fg_claimData (after opening) !! k = Some e /\ parent_of (nodes (fg_claimData (after opening))) k = Some 0%nat /\
    oc_Claim e = count_state 3 1 /\ posn (node_of e) = Attack (NewPosition 0 0).
Proof.
  assert (Hok : is_ok (game_after 2 3 true (wrong 9) opening) = true) by (vm_compute; reflexivity).
  refine (duplicate_check_exact 2 (fg_claimData (after opening)) (wrong_tree opening Hok ltac:(vm_compute; reflexivity))
    (claims_arrays (fg_claimData (after opening)) ltac:(vm_decide)) count_hash ltac:(lia) _ true 0
    {| oc_ParentIndex := uint32_max; oc_Countered := true; oc_Claim := wrong 9; oc_Position := 1; oc_Clock := 0 |} _ _ _ _ _ _).
  - apply Nat.leb_le. vm_compute; reflexivity.
  - vm_compute; reflexivity.
  - vm_compute; reflexivity.
  - left. vm_compute; reflexivity.
  - intros k e _ Heq. exact Heq.
Defined.

Lemma actions_obey_rules_witness : exists a,
  claim_action count_hash (count_trace 2 3) 2 (go_game count_hash 2 true (fg_claimData (after opening)))
    (hydrate 2 {| oc_ParentIndex := 1; oc_Countered := false; oc_Claim := wrong 7; oc_Position := 4; oc_Clock := clock_wrap 10 20 |}) = Ok (Some a) /\
  checkRules count_hash (go_game count_hash 2 true (fg_claimData (after opening))) a = Ok [].
Proof.
  assert (Hok : is_ok (game_after 2 3 true (wrong 9) opening) = true) by (vm_compute; reflexivity).
  eexists. split; [vm_compute; reflexivity|].
  refine (proj1 (actions_obey_rules count_hash (count_prestate 3) 2 (count_VM 3) ltac:(lia) (count_trace 2 3) true (count_state 3) (fun _ _ => True)
    laws (fg_claimData (after opening)) (wrong_tree opening Hok ltac:(vm_compute; reflexivity))
    (claims_arrays (fg_claimData (after opening)) ltac:(vm_decide)) _ 2
    {| oc_ParentIndex := 1; oc_Countered := false; oc_Claim := wrong 7; oc_Position := 4; oc_Clock := clock_wrap 10 20 |} _ _ _ _)).
  - apply Nat.leb_le. vm_compute; reflexivity.
  - vm_compute; reflexivity.
  - vm_compute; reflexivity.
  - intros v p k e _ Heq. exact Heq.
Defined.

(** ** A claim that silences the honest strategy

    Ten levels, a correct root that the challenger defends. Its opponent
    attacks down to the last level, plants a claim there, and fills up the
    game until the claim with index 265. *)

#[local] Notation top := (count_state 1023 1023).
Definition silent_reply : Hash := count_state 1023 255.
Definition descent : list tx := map (fun i => TxMove (Z.of_nat i) (wrong (Z.of_nat i)) true 1) (seq 0 9).
Definition fillers : list tx := map (fun i => TxMove 0 (wrong (Z.of_nat i)) true 1) (seq 1000 255).
Definition planting : list tx := descent ++ [TxMove 9 (tail silent_reply ++ [1]) true 1] ++ fillers.

(** The claims of that game. *)
Definition claim_of (parent : Z) (b : bool) (v : Hash) (pos dur now : Z) : OnchainClaim :=
  {| oc_ParentIndex := parent; oc_Countered := b; oc_Claim := v; oc_Position := pos; oc_Clock := clock_wrap dur now |}.
Definition planted_claims : list OnchainClaim :=
  claim_of uint32_max true top 1 0 0 ::
  map (fun i => claim_of (Z.of_nat i) true (wrong (Z.of_nat i)) (2 ^ (Z.of_nat i + 1)) ((Z.of_nat i + 1) mod 2) 1) (seq 0 9) ++
  claim_of 9 false (tail silent_reply ++ [1]) 1024 0 1 ::
  map (fun i => claim_of 0 false (wrong (Z.of_nat i)) 2 1 1) (seq 1000 255).

#[local] Instance OnchainClaim_eq_dec : EqDecision OnchainClaim.
Proof. solve_decision. Defined.

Lemma planted_tree : tree 10 (nodes planted_claims).
Proof.
  assert (H : match game_after 10 1023 true top planting with Ok g => bool_decide (fg_claimData g = planted_claims) | Err _ => false end = true)
    by (vm_compute; reflexivity).
  destruct (game_after 10 1023 true top planting) as [g|] eqn:Hg; [|done]. apply bool_decide_eq_true in H. rewrite <- H.
  eapply gi_tree, (game_after_inv 10 1023); [lia|exact Hg|]. rewrite H. vm_compute. done.
Qed.

Lemma planted_claim_silences_witness :
  claim_action count_hash (count_trace 10 1023) 10 (go_game count_hash 10 false planted_claims)
    (hydrate 265 (claim_of 0 false (wrong 1254) 2 1 1)) = Ok None.
Proof.
  refine (planted_claim_silences count_hash (count_prestate 1023) 10 (count_VM 1023) ltac:(lia) (count_trace 10 1023) false (count_state 1023)
    (fun _ _ => True) (count_laws 10 1023 ltac:(lia)) planted_claims planted_tree _ 10 (claim_of 0 false (wrong 1254) 2 1 1)
    (claim_of 9 false (tail silent_reply ++ [1]) 1024 0 1) (tail silent_reply) _ _ _ _ _ _ _ _ _ _).
  - vm_compute; reflexivity.
  - vm_compute; reflexivity.
  - assert (Hroot : nodes planted_claims !! 0%nat = Some (node_of (claim_of uint32_max true top 1 0 0))) by reflexivity.
    assert (Hc : correct 10 (count_state 1023) (node_of (claim_of uint32_max true top 1 0 0)) = negb false) by (vm_compute; reflexivity).
    eapply (line_opposed _ _ _ _ _ 0); [vm_compute; reflexivity|exact (line_root 10 false (count_state 1023) (nodes planted_claims) _ Hroot Hc)].
  - reflexivity.
  - vm_compute; reflexivity.
  - lia.
  - vm_compute; reflexivity.
  - vm_compute; reflexivity.
  - reflexivity.
  - reflexivity.
  - reflexivity.
Defined.

(** ** Positions *)


Lemma relative_position_bounds_witness : exists q, RelativeToAncestorAtDepth (NewPosition 5 19) 3 = Ok q /\ ps_depth q = 2.
Proof.
  destruct (relative_position_bounds (NewPosition 5 19) 3 ltac:(vm_compute; repeat split; discriminate) ltac:(vm_compute; split; discriminate)
    ltac:(vm_compute; reflexivity)) as (q & Hq & _ & Hd & _).
  exists q. split; [exact Hq|exact Hd].
Defined.
