(* ===== verification/CannonMemory.v ===== *)
(** * The memory of the fault proof VM

    [cannon/mipsevm/memory.go] and [page.go]: 32 bits of address space in
    pages of 4 KiB, and the Merkle tree over it with its two levels of caches.
    The pages are shared between the page table and the two most recently used
    ones, so they live in a store and are named by where they are in it. *)

From S2P Require Import Prelude Eth.

(** ** Constants *)

Definition PageAddrSize : Z := 12.
Definition PageKeySize : Z := 32 - PageAddrSize.
Definition PageSize : Z := Z.shiftl 1 PageAddrSize.
Definition PageAddrMask : Z := PageSize - 1.
Definition MaxPageCount : Z := Z.shiftl 1 PageKeySize.
Definition PageKeyMask : Z := MaxPageCount - 1.
Definition uint32_ones : Z := 2 ^ 32 - 1.

(** [bits.Len64] *)
Definition Len64 (x : Z) : Z := if x =? 0 then 0 else Z.log2 x + 1.

(** [copy(dst[i:], src)] *)
Definition copy_at (i : Z) (src dst : bytes) : bytes :=
  take (Z.to_nat i) dst ++ take (length dst - Z.to_nat i) src ++ drop (Z.to_nat i + length src) dst.

(** ** Pages: [page.go] *)

(** Arrays of 128 nodes; index 0 is not used. *)
Record CachedPage := mkCachedPage {
  cp_Data : bytes;
  cp_Cache : list Hash;
  cp_Ok : list bool;
}.

Definition empty_page : CachedPage :=
  {| cp_Data := zeros 4096; cp_Cache := replicate 128 (zeros 32); cp_Ok := replicate 128 false |}.

Definition cache_at (p : CachedPage) (j : Z) : Hash := default (zeros 32) (cp_Cache p !! Z.to_nat j).
Definition ok_at (p : CachedPage) (j : Z) : bool := default false (cp_Ok p !! Z.to_nat j).

Definition set_node (j : Z) (h : Hash) (p : CachedPage) : CachedPage :=
  {| cp_Data := cp_Data p; cp_Cache := <[Z.to_nat j := h]> (cp_Cache p); cp_Ok := <[Z.to_nat j := true]> (cp_Ok p) |}.

(** The loop of [Invalidate]: up to the root of the page. *)
Fixpoint invalidate_up (k : positive) (ok : list bool) : list bool :=
  let ok := <[Pos.to_nat k := false]> ok in
  match k with
  | xH => ok
  | xO k | xI k => invalidate_up k ok
  end.

Definition cp_Invalidate (pageAddr : Z) (p : CachedPage) : res CachedPage :=
  if PageSize <=? pageAddr then Err (GoPanic "invalid page addr")
  else
    let k := Z.shiftr (Z.lor (Z.shiftl 1 PageAddrSize) pageAddr) (5 + 1) in
    Ok {| cp_Data := cp_Data p; cp_Cache := cp_Cache p;
          cp_Ok := match k with Zpos k => invalidate_up k (cp_Ok p) | _ => cp_Ok p end |}.

Definition InvalidateFull (p : CachedPage) : CachedPage :=
  {| cp_Data := cp_Data p; cp_Cache := cp_Cache p; cp_Ok := replicate 128 false |}.

Section Hashing.
Variable Keccak256Hash : bytes -> Hash.

Definition HashPair (left right : Hash) : Hash := Keccak256Hash (left ++ right).

Fixpoint zero_hash (i : nat) : Hash :=
  match i with
  | O => zeros 32
  | S i => let h := zero_hash i in HashPair h h
  end.

Definition zeroHashes (i : Z) : Hash := zero_hash (Z.to_nat i).

(** The bodies of the two loops of [CachedPage.MerkleRoot]. *)
Definition hash_bottom (p : CachedPage) (i : Z) : CachedPage :=
  let j := PageSize / 32 / 2 + i / 64 in
  if ok_at p j then p else set_node j (Keccak256Hash (slice i (i + 64) (cp_Data p))) p.

Definition hash_layer (p : CachedPage) (i : Z) : CachedPage :=
  let j := Z.shiftr i 1 in
  if ok_at p j then p else set_node j (HashPair (cache_at p i) (cache_at p (i + 1))) p.

(** [for i := 0; i < PageSize; i += 64] and [for i := PageSize/32 - 2; i > 0; i -= 2] *)
Definition bottom_indices : list Z := map (fun k => 64 * Z.of_nat k) (seq 0 64).
Definition layer_indices : list Z := map (fun k => 126 - 2 * Z.of_nat k) (seq 0 63).

Definition cp_MerkleRoot (p : CachedPage) : CachedPage * Hash :=
  let p := fold_left hash_bottom bottom_indices p in
  let p := fold_left hash_layer layer_indices p in
  (p, cache_at p 1).

Definition cp_MerkleizeSubtree (gindex : Z) (p : CachedPage) : CachedPage * res Hash :=
  let '(p, _) := cp_MerkleRoot p in
  if PageSize / 32 <=? gindex then
    if PageSize / 32 * 2 <=? gindex then (p, Err (GoPanic "gindex too deep"))
    else
      let nodeIndex := Z.land gindex (Z.shiftr PageAddrMask 5) in
      (p, Ok (slice (nodeIndex * 32) (nodeIndex * 32 + 32) (cp_Data p)))
  else (p, Ok (cache_at p gindex)).

(** ** Memory: [memory.go]

    A node is a hash, or nil when it has to be computed again. *)
Record Memory := mkMemory {
  mm_nodes : gmap Z (option Hash);
  mm_pages : gmap Z nat;
  mm_store : list CachedPage;
  mm_lastPageKeys : Z * Z;
  mm_lastPage : option nat * option nat;
}.

Definition NewMemory : Memory :=
  {| mm_nodes := ∅; mm_pages := ∅; mm_store := []; mm_lastPageKeys := (uint32_ones, uint32_ones);
     mm_lastPage := (None, None) |}.

Definition set_nodes (nodes : gmap Z (option Hash)) (m : Memory) : Memory :=
  {| mm_nodes := nodes; mm_pages := mm_pages m; mm_store := mm_store m; mm_lastPageKeys := mm_lastPageKeys m;
     mm_lastPage := mm_lastPage m |}.
Definition set_store (store : list CachedPage) (m : Memory) : Memory :=
  {| mm_nodes := mm_nodes m; mm_pages := mm_pages m; mm_store := store; mm_lastPageKeys := mm_lastPageKeys m;
     mm_lastPage := mm_lastPage m |}.

Definition mm_modify (f : Memory -> Memory) : stM Memory unit := fun m => (f m, Ok tt).

(** Reading and replacing a page through a pointer. *)
Definition page_at (m : Memory) (ptr : option nat) : option CachedPage := ptr ≫= fun l => mm_store m !! l.

Definition load_page (ptr : option nat) : stM Memory CachedPage := fun m => (m, deref (page_at m ptr)).
Definition store_page (ptr : option nat) (p : CachedPage) : stM Memory unit := fun m =>
  (match ptr with Some l => set_store (<[l := p]> (mm_store m)) m | None => m end, Ok tt).

Definition pageLookup (pageIndex : Z) : stM Memory (option nat * bool) := fun m =>
  if pageIndex =? (mm_lastPageKeys m).1 then (m, Ok ((mm_lastPage m).1, true))
  else if pageIndex =? (mm_lastPageKeys m).2 then (m, Ok ((mm_lastPage m).2, true))
  else
    match mm_pages m !! pageIndex with
    | Some l =>
        ({| mm_nodes := mm_nodes m; mm_pages := mm_pages m; mm_store := mm_store m;
            mm_lastPageKeys := (pageIndex, (mm_lastPageKeys m).1);
            mm_lastPage := (Some l, (mm_lastPage m).1) |}, Ok (Some l, true))
    | None => (m, Ok (None, false))
    end.

(** The loops that set the nodes to the root to nil. *)
Fixpoint nil_up (k : positive) (nodes : gmap Z (option Hash)) : gmap Z (option Hash) :=
  let nodes := <[Zpos k := None]> nodes in
  match k with
  | xH => nodes
  | xO k | xI k => nil_up k nodes
  end.

Definition nil_to_root (gindex : Z) (m : Memory) : Memory :=
  match gindex with Zpos k => set_nodes (nil_up k (mm_nodes m)) m | _ => m end.

Definition unaligned : go_error := GoPanic "unaligned memory access".

Definition Invalidate (addr : Z) : stM Memory unit :=
  if negb (Z.land addr 3 =? 0) then throw unaligned
  else
    '(ptr, ok) ← pageLookup (Z.shiftr addr PageAddrSize);
    if ok : bool then
      p ← load_page ptr;
      let prevValid := ok_at p 1 in
      p ← lift (cp_Invalidate (Z.land addr PageAddrMask) p);
      _ ← store_page ptr p;
      if prevValid then mm_modify (nil_to_root (Z.shiftr (Z.lor (Z.shiftl 1 32) addr) PageAddrSize)) else mret tt
    else mret tt.

(** The recursion of [MerkleizeSubtree]; the index doubles with each call and
    is at most 28 bits long. *)
Fixpoint merkleize (fuel : nat) (gindex : Z) : stM Memory Hash :=
  match fuel with
  | O => throw (GoPanic "stack overflow")
  | S fuel =>
      let l := Len64 gindex in
      if 28 <? l then throw (GoPanic "gindex too deep")
      else if PageKeySize <? l then
        let depthIntoPage := l - 1 - PageKeySize in
        let pageIndex := Z.land (Z.shiftr gindex depthIntoPage) PageKeyMask in
        fun m =>
          match mm_pages m !! pageIndex with
          | Some ptr =>
              let pageGindex := Z.lor (Z.shiftl 1 depthIntoPage) (Z.land gindex (Z.shiftl 1 depthIntoPage - 1)) in
              (p ← load_page (Some ptr);
               let '(p, h) := cp_MerkleizeSubtree pageGindex p in
               _ ← store_page (Some ptr) p;
               lift h) m
          | None => (m, Ok (zeroHashes (28 - l)))
          end
      else if PageKeySize + 1 <? l then throw (GoPanic "cannot jump into intermediate node of page")
      else fun m =>
        match mm_nodes m !! gindex with
        | None => (m, Ok (zeroHashes (28 - l)))
        | Some (Some n) => (m, Ok n)
        | Some None =>
            (left ← merkleize fuel (Z.shiftl gindex 1);
             right ← merkleize fuel (Z.lor (Z.shiftl gindex 1) 1);
             let r := HashPair left right in
             _ ← mm_modify (fun m => set_nodes (<[gindex := Some r]> (mm_nodes m)) m);
             mret r) m
        end
  end.

Definition MerkleizeSubtree (gindex : Z) : stM Memory Hash := merkleize 28 gindex.

Definition MerkleRoot : stM Memory Hash := MerkleizeSubtree 1.

(** [traverseBranch]; [n] is how far the leaf is below, [32-5-depth]. *)
Fixpoint traverseBranch (n : nat) (parent addr : Z) : stM Memory (list Hash) :=
  match n with
  | O => h ← MerkleizeSubtree parent; mret [h]
  | S n =>
      let depth := 27 - Z.of_nat (S n) in
      let self := Z.shiftl parent 1 in
      let sibling := Z.lor self 1 in
      let '(self, sibling) := (if negb (Z.land addr (Z.shiftl 1 (31 - depth)) =? 0) then (sibling, self) else (self, sibling)) in
      proof ← traverseBranch n self addr;
      siblingNode ← MerkleizeSubtree sibling;
      mret (proof ++ [siblingNode])
  end.

(** The 28 hashes one after the other. *)
Definition MerkleProof (addr : Z) : stM Memory bytes :=
  proof ← traverseBranch 27 1 addr;
  mret (concat proof).

Definition AllocPage (pageIndex : Z) : stM Memory (option nat) := fun m =>
  let l := length (mm_store m) in
  let m := {| mm_nodes := mm_nodes m; mm_pages := <[pageIndex := l]> (mm_pages m); mm_store := mm_store m ++ [empty_page];
              mm_lastPageKeys := mm_lastPageKeys m; mm_lastPage := mm_lastPage m |} in
  (nil_to_root (Z.lor (Z.shiftl 1 PageKeySize) pageIndex) m, Ok (Some l)).

Definition write_page (pageAddr : Z) (bs : bytes) (p : CachedPage) : CachedPage :=
  {| cp_Data := copy_at pageAddr bs (cp_Data p); cp_Cache := cp_Cache p; cp_Ok := cp_Ok p |}.

Definition SetMemory (addr v : Z) : stM Memory unit :=
  if negb (Z.land addr 3 =? 0) then throw unaligned
  else
    let pageIndex := Z.shiftr addr PageAddrSize in
    let pageAddr := Z.land addr PageAddrMask in
    '(ptr, ok) ← pageLookup pageIndex;
    ptr ← (if ok : bool then (_ ← Invalidate addr; mret ptr) else AllocPage pageIndex);
    p ← load_page ptr;
    store_page ptr (write_page pageAddr (put_be 4 v) p).

Definition GetMemory (addr : Z) : stM Memory Z :=
  if negb (Z.land addr 3 =? 0) then throw unaligned
  else
    '(ptr, ok) ← pageLookup (Z.shiftr addr PageAddrSize);
    if ok : bool then
      p ← load_page ptr;
      let pageAddr := Z.land addr PageAddrMask in
      mret (get_be (slice pageAddr (pageAddr + 4) (cp_Data p)))
    else mret 0.

(** An [io.Reader]: asked for at most so many bytes it answers with some of
    them, and an error. *)
Class Reader (R : Type) := {
  rd_Read : Z -> R -> R * (bytes * option go_error);
}.

(** [bytes.Reader] *)
#[export] Instance bytes_Reader : Reader bytes := {
  rd_Read := fun n r =>
    match r with
    | [] => ([], ([], Some EOF))
    | _ => (drop (Z.to_nat n) r, (take (Z.to_nat n) r, None))
    end;
}.

(** The loop of [SetMemoryRange]; [None] when it has not ended within the fuel. *)
Fixpoint SetMemoryRange {R} `{!Reader R} (fuel : nat) (addr : Z) (r : R) (m : Memory) : option (Memory * res unit) :=
  match fuel with
  | O => None
  | S fuel =>
      let pageIndex := Z.shiftr addr PageAddrSize in
      let pageAddr := Z.land addr PageAddrMask in
      let '(r, (bs, err)) := rd_Read (PageSize - pageAddr) r in
      let '(m, done) :=
        ('(ptr, ok) ← pageLookup pageIndex;
         ptr ← (if ok : bool then mret ptr else AllocPage pageIndex);
         p ← load_page ptr;
         store_page ptr (write_page pageAddr bs (InvalidateFull p))) m in
      match done, err with
      | Err e, _ => Some (m, Err e)
      | Ok _, Some e => Some (m, if bool_decide (e = EOF) then Ok tt else Err e)
      | Ok _, None => SetMemoryRange fuel (u32 (addr + blen bs)) r m
      end
  end.

(** [memReader]: its address and what is left to read. *)
Record memReader := mkMemReader {
  mr_addr : Z;
  mr_count : Z;
}.

(** [Read] into a slice of length [n]. *)
Definition mr_Read (n : Z) (r : memReader) : stM Memory (memReader * (bytes * option go_error)) :=
  if mr_count r =? 0 then mret (r, ([], Some EOF))
  else
    let endAddr := mr_addr r +₃₂ mr_count r in
    let pageIndex := Z.shiftr (mr_addr r) PageAddrSize in
    let start := Z.land (mr_addr r) PageAddrMask in
    let end_ := if pageIndex =? Z.shiftr endAddr PageAddrSize then Z.land endAddr PageAddrMask else PageSize in
    '(ptr, ok) ← pageLookup pageIndex;
    bs ← (if ok : bool then
            p ← load_page ptr;
            if end_ <? start then throw (GoPanic "slice bounds out of range")
            else mret (slice start end_ (cp_Data p))
          else
            mret (zeros (Z.to_nat (Z.min n (end_ -₃₂ start)))));
    let bs := take (Z.to_nat n) bs in
    mret (mkMemReader (mr_addr r +₃₂ blen bs) (mr_count r -₃₂ blen bs), (bs, None)).

(** [io.ReadAll] and [io.Copy] read until the end, into slices of the lengths
    the library chooses. *)
Fixpoint read_all (fuel : nat) (lens : nat -> Z) (r : memReader) : stM Memory bytes :=
  match fuel with
  | O => throw (GoPanic "no end")
  | S fuel =>
      '(r, (bs, err)) ← mr_Read (lens fuel) r;
      match err with
      | Some _ => mret bs
      | None => rest ← read_all fuel lens r; mret (bs ++ rest)
      end
  end.

(** Every call but the last reads a byte at least. *)
Definition ReadMemoryRange (lens : nat -> Z) (addr count : Z) : stM Memory bytes :=
  read_all (S (Z.to_nat count)) lens (mkMemReader addr count).
End Hashing.
