(* ===== verification/CannonTree.v ===== *)
(** * The memory of the fault proof VM is a Merkle tree

    What [CannonMemory.v] computes is the root of the full binary tree over
    the contents of the memory, whatever its two caches hold: the invariant of
    pages and of the memory, kept by every operation, and the functional
    behaviour of each of them. *)

From S2P Require Import Prelude Eth CannonMemory.

(** ** Lists *)

Lemma fold_seq_inv {A B} (P : nat -> A -> Prop) (step : A -> B -> A) (f : nat -> B) n a :
  P 0%nat a -> (forall k a, (k < n)%nat -> P k a -> P (S k) (step a (f k))) ->
  P n (fold_left step (map f (seq 0 n)) a).
Proof.
  intros H0 Hs. assert (H : forall k, (k <= n)%nat -> P k (fold_left step (map f (seq 0 k)) a)); [|by apply H].
  induction k as [|k IH]; intros Hk; [done|]. rewrite seq_S, map_app, fold_left_app. cbn. apply Hs; [lia|]. apply IH. lia.
Qed.

Lemma default_insert {A} (d x : A) l i j : (i < length l)%nat ->
  default d (<[i := x]> l !! j) = if decide (i = j) then x else default d (l !! j).
Proof.
  intros Hi. destruct (decide (i = j)) as [->|]; [by rewrite list_lookup_insert_eq|by rewrite list_lookup_insert_ne].
Qed.

Lemma length_copy_at i src dst : (Z.to_nat i <= length dst)%nat -> length (copy_at i src dst) = length dst.
Proof. intros. unfold copy_at. rewrite !length_app, !length_take, length_drop. lia. Qed.

Lemma bytes_ok_take n b : bytes_ok b -> bytes_ok (take n b).
Proof. apply Forall_take. Qed.

Lemma bytes_ok_drop n b : bytes_ok b -> bytes_ok (drop n b).
Proof. apply Forall_drop. Qed.

Lemma copy_at_ok i src dst : bytes_ok src -> bytes_ok dst -> bytes_ok (copy_at i src dst).
Proof. intros. unfold copy_at. rewrite !bytes_ok_app. auto using bytes_ok_take, bytes_ok_drop. Qed.

Lemma slice_zeros i j n : 0 <= i <= j -> j <= Z.of_nat n -> slice i j (zeros n) = zeros (Z.to_nat (j - i)).
Proof. intros. unfold slice, zeros. rewrite drop_replicate, take_replicate. f_equal. lia. Qed.

Lemma length_slice i j b : 0 <= i <= j -> j <= blen b -> length (slice i j b) = Z.to_nat (j - i).
Proof. intros. unfold slice, blen in *. rewrite length_take, length_drop. lia. Qed.

Lemma slice_lookup i j b k : 0 <= i <= j -> (k < Z.to_nat (j - i))%nat -> slice i j b !! k = b !! (Z.to_nat i + k)%nat.
Proof. intros. unfold slice. rewrite lookup_take_lt by lia. by rewrite lookup_drop. Qed.

(** What a copy leaves alone, and what it puts. *)
Lemma copy_at_lookup i src dst k : 0 <= i -> (Z.to_nat i + length src <= length dst)%nat ->
  copy_at i src dst !! k = if decide (Z.to_nat i <= k < Z.to_nat i + length src)%nat then src !! (k - Z.to_nat i)%nat else dst !! k.
Proof.
  intros Hi Hl. unfold copy_at. rewrite (take_ge src) by lia. destruct (decide _) as [Hk|Hk].
  - rewrite lookup_app_r by (rewrite length_take; lia). rewrite length_take, Nat.min_l by lia. by rewrite lookup_app_l by lia.
  - destruct (decide (k < Z.to_nat i)%nat).
    + rewrite lookup_app_l by (rewrite length_take; lia). by rewrite lookup_take_lt.
    + rewrite lookup_app_r by (rewrite length_take; lia). rewrite length_take, Nat.min_l by lia. rewrite lookup_app_r by lia.
      rewrite lookup_drop. f_equal. lia.
Qed.

Lemma slice_copy_same i src dst : 0 <= i -> (Z.to_nat i + length src <= length dst)%nat ->
  slice i (i + blen src) (copy_at i src dst) = src.
Proof.
  intros Hi Hl. unfold blen. apply list_eq. intros k. destruct (decide (k < length src)%nat) as [Hk|Hk].
  - rewrite slice_lookup by lia. rewrite copy_at_lookup by done. rewrite decide_True by lia. f_equal. lia.
  - rewrite !lookup_ge_None_2; [done|lia|]. rewrite length_slice; [lia|lia|]. unfold blen. rewrite length_copy_at; lia.
Qed.

Lemma slice_copy_other i src dst a b : 0 <= i -> (Z.to_nat i + length src <= length dst)%nat -> 0 <= a <= b ->
  b <= i \/ i + blen src <= a -> slice a b (copy_at i src dst) = slice a b dst.
Proof.
  intros Hi Hl Hab Ho. unfold blen in Ho. apply list_eq. intros k. destruct (decide (k < Z.to_nat (b - a))%nat) as [Hk|Hk].
  - rewrite !slice_lookup by lia. rewrite copy_at_lookup by done. by rewrite decide_False by lia.
  - unfold slice. rewrite !lookup_take_ge by lia. done.
Qed.

Section Tree.
Variable Keccak256Hash : bytes -> Hash.
#[local] Notation HashPair := (HashPair Keccak256Hash).
#[local] Notation zero_hash := (zero_hash Keccak256Hash).

(** ** The tree

    The hash of the subtree of height [h] at a generalized index. *)
Fixpoint tree (leaf : Z -> Hash) (h : nat) (g : Z) : Hash :=
  match h with
  | O => leaf g
  | S h => HashPair (tree leaf h (2 * g)) (tree leaf h (2 * g + 1))
  end.

Lemma tree_shift leaf leaf' h g g' :
  (forall j, 0 <= j < 2 ^ Z.of_nat h -> leaf (g * 2 ^ Z.of_nat h + j) = leaf' (g' * 2 ^ Z.of_nat h + j)) ->
  tree leaf h g = tree leaf' h g'.
Proof using.
  revert g g'. induction h as [|h IH]; intros g g' H; cbn [tree].
  - specialize (H 0). change (2 ^ Z.of_nat 0) with 1 in H. rewrite !Z.mul_1_r, !Z.add_0_r in H. apply H. lia.
  - rewrite Nat2Z.inj_succ, Z.pow_succ_r in H by lia. assert (0 < 2 ^ Z.of_nat h) by (apply Z.pow_pos_nonneg; lia). f_equal.
    + apply IH. intros j Hj. specialize (H j ltac:(lia)).
      replace (2 * g * 2 ^ Z.of_nat h + j) with (g * (2 * 2 ^ Z.of_nat h) + j) by ring.
      by replace (2 * g' * 2 ^ Z.of_nat h + j) with (g' * (2 * 2 ^ Z.of_nat h) + j) by ring.
    + apply IH. intros j Hj. specialize (H (2 ^ Z.of_nat h + j) ltac:(lia)).
      replace ((2 * g + 1) * 2 ^ Z.of_nat h + j) with (g * (2 * 2 ^ Z.of_nat h) + (2 ^ Z.of_nat h + j)) by ring.
      by replace ((2 * g' + 1) * 2 ^ Z.of_nat h + j) with (g' * (2 * 2 ^ Z.of_nat h) + (2 ^ Z.of_nat h + j)) by ring.
Qed.

Lemma tree_ext leaf leaf' h g : (forall x, leaf x = leaf' x) -> tree leaf h g = tree leaf' h g.
Proof using. intros H. apply tree_shift. intros j _. apply H. Qed.

Lemma tree_zero h g : tree (fun _ => zeros 32) h g = zero_hash h.
Proof using. revert g. induction h as [|h IH]; intros g; [done|]. cbn. by rewrite !IH. Qed.

Lemma tree_step leaf h g : 0 < h -> tree leaf (Z.to_nat h) g = HashPair (tree leaf (Z.to_nat (h - 1)) (2 * g)) (tree leaf (Z.to_nat (h - 1)) (2 * g + 1)).
Proof using. intros Hh. replace (Z.to_nat h) with (S (Z.to_nat (h - 1))) by lia. done. Qed.

(** ** Ancestors of an index *)

Definition above (g x : Z) : Prop := exists n, 0 <= n /\ g = x / 2 ^ n.

Lemma above_self x : above x x.
Proof using. exists 0. by rewrite Z.div_1_r. Qed.

Lemma above_half g x : above g (x / 2) -> above g x.
Proof using.
  intros (n & Hn & ->). exists (n + 1). split; [lia|]. rewrite Z.pow_add_r, Z.mul_comm by lia. by rewrite <- Z.div_div by lia.
Qed.

Lemma above_cases g x : above g x -> g = x \/ above g (x / 2).
Proof using.
  intros (n & Hn & ->). destruct (Z.eq_dec n 0) as [->|]; [left; by rewrite Z.div_1_r|right]. exists (n - 1). split; [lia|].
  rewrite Z.div_div by lia. f_equal. rewrite <- Z.pow_succ_r by lia. f_equal. lia.
Qed.

Lemma above_trans a b c : above a b -> above b c -> above a c.
Proof using.
  intros (n & Hn & ->) (k & Hk & ->). exists (k + n). split; [lia|]. rewrite Z.pow_add_r by lia. by rewrite Z.div_div by lia.
Qed.

Lemma above_1 x : 1 <= x -> above 1 x.
Proof using.
  intros Hx. exists (Z.log2 x). pose proof (Z.log2_nonneg x). split; [done|]. destruct (Z.log2_spec x ltac:(lia)) as [Hl Hu].
  rewrite Z.pow_succ_r in Hu by lia. apply (Z.div_unique _ _ _ (x - 2 ^ Z.log2 x)); [left|]; lia.
Qed.

Lemma above_level g x h : 1 <= g -> 0 <= h -> 2 ^ (Z.log2 g + h) <= x < 2 ^ (Z.log2 g + h + 1) -> above g x -> x / 2 ^ h = g.
Proof using.
  intros Hg Hh Hx (n & Hn & Hgx). enough (n = h) by congruence. pose proof (Z.log2_nonneg g).
  assert (Hlx : Z.log2 x = Z.log2 g + h) by (apply Z.log2_unique; [lia|]; unfold Z.succ; lia).
  destruct (Z.log2_spec g ltac:(lia)) as [Hl Hu]. unfold Z.succ in Hu.
  assert (Hnx : Z.log2 (x / 2 ^ n) = Z.log2 x - n).
  { assert (n <= Z.log2 x). { destruct (Z.le_gt_cases n (Z.log2 x)); [done|]. exfalso. rewrite Z.div_small in Hgx; [lia|].
      split; [lia|]. apply (Z.log2_lt_pow2 x n); lia. }
    rewrite <- Z.shiftr_div_pow2 by lia. rewrite Z.log2_shiftr by lia. lia. }
  rewrite <- Hgx in Hnx. lia.
Qed.

Lemma tree_ext_above leaf leaf' h g : (forall x, x / 2 ^ Z.of_nat h = g -> leaf x = leaf' x) -> tree leaf h g = tree leaf' h g.
Proof using.
  intros H. apply tree_shift. intros j Hj. apply H. rewrite Z.div_add_l by lia. rewrite Z.div_small by lia. lia.
Qed.

Lemma half_pos k : Z.pos k~1 / 2 = Z.pos k /\ Z.pos k~0 / 2 = Z.pos k.
Proof using. rewrite Pos2Z.inj_xI, Pos2Z.inj_xO. ulia. Qed.

Lemma above_up g k : above g (Zpos k) -> 1 <= g ->
  g = Zpos k \/ exists k', (k = k'~1 \/ k = k'~0)%positive /\ above g (Zpos k').
Proof using.
  intros Ha Hg. apply above_cases in Ha as [->|Ha]; [by left|]. destruct k as [k|k|].
  - right. exists k. split; [by left|]. by rewrite (proj1 (half_pos k)) in Ha.
  - right. exists k. split; [by right|]. by rewrite (proj2 (half_pos k)) in Ha.
  - destruct Ha as (n & Hn & Hgn). change (1 / 2) with 0 in Hgn. rewrite Z.div_0_l in Hgn by (apply Z.pow_nonzero; lia). lia.
Qed.

Lemma above_bit g k : above g (Zpos k) -> above g (Z.pos k~1) /\ above g (Z.pos k~0).
Proof using. intros H. destruct (half_pos k) as [H1 H0]. split; apply above_half; [by rewrite H1|by rewrite H0]. Qed.

Lemma nil_up_stays k nodes g : nodes !! g = Some None -> nil_up k nodes !! g = Some None.
Proof using.
  assert (Hins : forall x (l : gmap Z (option Hash)), l !! g = Some None -> <[x := None]> l !! g = Some None).
  { intros x l H. destruct (decide (x = g)) as [<-|]; [by rewrite lookup_insert_eq|by rewrite lookup_insert_ne]. }
  revert nodes. induction k as [k IH|k IH|]; intros nodes H; cbn [nil_up]; [apply IH..|]; by apply Hins.
Qed.

Lemma nil_up_in k nodes g : 1 <= g -> above g (Zpos k) -> nil_up k nodes !! g = Some None.
Proof using.
  intros Hg. revert nodes. induction k as [k IH|k IH|]; intros nodes Ha; cbn [nil_up];
    (apply above_up in Ha as [->|(k' & [Hk|Hk] & Ha)]; [|try discriminate Hk; injection Hk as <-..|done]).
  1,3: apply nil_up_stays, lookup_insert_eq.
  1,2: by apply IH.
  apply lookup_insert_eq.
Qed.

Lemma nil_up_out k nodes g : ~ above g (Zpos k) -> nil_up k nodes !! g = nodes !! g.
Proof using.
  revert nodes. induction k as [k IH|k IH|]; intros nodes Ha; cbn [nil_up].
  1,2: rewrite IH by (intros H; apply Ha; by apply above_bit).
  all: apply lookup_insert_ne; intros <-; apply Ha, above_self.
Qed.

Lemma invalidate_up_spec k ok : (Pos.to_nat k < length ok)%nat ->
  length (invalidate_up k ok) = length ok /\
  forall x, 1 <= x -> default false (invalidate_up k ok !! Z.to_nat x) = true ->
    default false (ok !! Z.to_nat x) = true /\ ~ above x (Zpos k).
Proof using.
  assert (Hone : forall (k : positive) ok x, (Pos.to_nat k < length ok)%nat -> 1 <= x ->
            default false (<[Pos.to_nat k := false]> ok !! Z.to_nat x) = true -> default false (ok !! Z.to_nat x) = true /\ x <> Zpos k).
  { intros k' l x Hl Hx. rewrite default_insert by done. destruct (decide _) as [|Hne]; [done|]. intros H. split; [done|]. lia. }
  assert (Hup : forall k k' ok, (k' = k~1 \/ k' = k~0)%positive -> (Pos.to_nat k' < length ok)%nat ->
            (forall ok, (Pos.to_nat k < length ok)%nat -> length (invalidate_up k ok) = length ok /\
              forall x, 1 <= x -> default false (invalidate_up k ok !! Z.to_nat x) = true ->
                default false (ok !! Z.to_nat x) = true /\ ~ above x (Zpos k)) ->
            length (invalidate_up k (<[Pos.to_nat k' := false]> ok)) = length ok /\
            forall x, 1 <= x -> default false (invalidate_up k (<[Pos.to_nat k' := false]> ok) !! Z.to_nat x) = true ->
              default false (ok !! Z.to_nat x) = true /\ ~ above x (Zpos k')).
  { intros k0 k' l Hk' Hl IH. destruct (IH (<[Pos.to_nat k' := false]> l)) as [Hlen Hx]; [rewrite length_insert; lia|].
    rewrite length_insert in Hlen. split; [done|]. intros x Hx1 H. apply Hx in H as [H Hna]; [|done].
    apply Hone in H as [H Hne]; [|done|done]. split; [done|]. intros Ha. apply above_up in Ha as [->|(k1 & Hk1 & Ha)]; [done| |done].
    destruct Hk' as [->| ->], Hk1 as [Hk1|Hk1]; try discriminate Hk1; injection Hk1 as <-; done. }
  revert ok. induction k as [k IH|k IH|]; intros ok Hk; cbn [invalidate_up].
  - apply (Hup k); [by left|done|done].
  - apply (Hup k); [by right|done|done].
  - rewrite length_insert. split; [done|]. intros x Hx H. apply Hone in H as [H Hne]; [|done|done]. split; [done|].
    intros Ha. by apply above_up in Ha as [->|(k' & [Hk'|Hk'] & _)].
Qed.

(** ** Pages *)

Definition page_leaf (data : bytes) (g : Z) : Hash := slice (32 * (g - 128)) (32 * (g - 128) + 32) data.
Definition page_node (data : bytes) (j : Z) : Hash := tree (page_leaf data) (Z.to_nat (7 - Z.log2 j)) j.

Record page_inv (p : CachedPage) : Prop := {
  pi_data : is_array 4096 (cp_Data p);
  pi_cache : length (cp_Cache p) = 128%nat;
  pi_ok : length (cp_Ok p) = 128%nat;
  pi_node : forall j, 1 <= j < 128 -> ok_at p j = true -> cache_at p j = page_node (cp_Data p) j;
}.

Lemma ok_at_fresh (l : list bool) d c j : l = replicate 128 false -> ok_at (mkCachedPage d c l) j = false.
Proof using.
  intros ->. unfold ok_at. cbn [cp_Ok]. destruct (replicate 128 false !! Z.to_nat j) eqn:E; [|done].
  by apply lookup_replicate in E as [-> _].
Qed.

Lemma empty_page_inv : page_inv empty_page.
Proof using.
  split; [split; [done|apply zeros_ok]|done|done|]. intros j _ H. unfold empty_page in H. by rewrite ok_at_fresh in H.
Qed.

Lemma set_node_spec j h p : page_inv p -> 1 <= j < 128 -> h = page_node (cp_Data p) j ->
  page_inv (set_node j h p) /\ (forall x, 0 <= x -> ok_at (set_node j h p) x = (x =? j) || ok_at p x) /\
  (forall x, 0 <= x -> cache_at (set_node j h p) x = if x =? j then h else cache_at p x).
Proof using.
  intros Hp Hj Hh. pose proof (pi_cache _ Hp). pose proof (pi_ok _ Hp).
  assert (Hok : forall x, 0 <= x -> ok_at (set_node j h p) x = (x =? j) || ok_at p x).
  { intros x Hx. unfold ok_at, set_node. cbn [cp_Ok]. rewrite default_insert by lia.
    destruct (Z.eqb_spec x j), (decide (Z.to_nat j = Z.to_nat x)); (done || lia). }
  assert (Hc : forall x, 0 <= x -> cache_at (set_node j h p) x = if x =? j then h else cache_at p x).
  { intros x Hx. unfold cache_at, set_node. cbn [cp_Cache]. rewrite default_insert by lia.
    destruct (Z.eqb_spec x j), (decide (Z.to_nat j = Z.to_nat x)); (done || lia). }
  split; [|done]. split; [apply Hp|cbn; by rewrite length_insert..|].
  intros x Hx. rewrite Hok, Hc by lia. cbn [set_node cp_Data]. destruct (Z.eqb_spec x j) as [->|]; [done|]. cbn. by apply Hp.
Qed.

(** What a step of the loops leaves: the nodes that were valid, and one more. *)
Definition fills (p p' : CachedPage) (j : Z) : Prop :=
  page_inv p' /\ cp_Data p' = cp_Data p /\ ok_at p' j = true /\ forall x, 0 <= x -> ok_at p x = true -> ok_at p' x = true.

Lemma fill p j h : page_inv p -> 1 <= j < 128 -> h = page_node (cp_Data p) j -> fills p (if ok_at p j then p else set_node j h p) j.
Proof using.
  intros Hp Hj Hh. destruct (ok_at p j) eqn:Hok; [by split|]. destruct (set_node_spec j h p Hp Hj Hh) as (Hi & Ho & _).
  split; [done|]. split; [done|]. rewrite Ho by lia. rewrite Z.eqb_refl. split; [done|]. intros x Hx. rewrite Ho by done.
  intros ->. apply orb_true_r.
Qed.

Lemma hash_bottom_fills p k : page_inv p -> (k < 64)%nat -> fills p (hash_bottom Keccak256Hash p (64 * Z.of_nat k)) (64 + Z.of_nat k).
Proof using.
  intros Hp Hk. unfold hash_bottom. replace (PageSize / 32 / 2 + 64 * Z.of_nat k / 64) with (64 + Z.of_nat k)
    by (rewrite (Z.mul_comm 64), Z.div_mul by lia; done).
  apply fill; [done|lia|]. destruct (pi_data _ Hp) as [Hl _]. unfold page_node.
  assert (Hlog : Z.log2 (64 + Z.of_nat k) = 6) by (apply Z.log2_unique; lia).
  rewrite Hlog. change (Z.to_nat (7 - 6)) with 1%nat. cbn [tree]. unfold CannonMemory.HashPair, page_leaf. f_equal.
  replace (32 * (2 * (64 + Z.of_nat k) - 128)) with (64 * Z.of_nat k) by lia.
  replace (32 * (2 * (64 + Z.of_nat k) + 1 - 128)) with (64 * Z.of_nat k + 32) by lia.
  unfold slice. replace (Z.to_nat (64 * Z.of_nat k + 64 - 64 * Z.of_nat k)) with (32 + 32)%nat by lia.
  replace (Z.to_nat (64 * Z.of_nat k + 32 - 64 * Z.of_nat k)) with 32%nat by lia.
  replace (Z.to_nat (64 * Z.of_nat k + 32 + 32 - (64 * Z.of_nat k + 32))) with 32%nat by lia.
  replace (Z.to_nat (64 * Z.of_nat k + 32)) with (Z.to_nat (64 * Z.of_nat k) + 32)%nat by lia.
  rewrite <- drop_drop. by rewrite take_take_drop.
Qed.

Lemma hash_layer_fills p k : page_inv p -> (k < 63)%nat -> (forall x, 64 - Z.of_nat k <= x < 128 -> ok_at p x = true) ->
  fills p (hash_layer Keccak256Hash p (126 - 2 * Z.of_nat k)) (63 - Z.of_nat k).
Proof using.
  intros Hp Hk Hok. unfold hash_layer. rewrite Z.shiftr_div_pow2 by lia. change (2 ^ 1) with 2.
  replace ((126 - 2 * Z.of_nat k) / 2) with (63 - Z.of_nat k) by ulia. apply fill; [done|lia|].
  rewrite !(pi_node _ Hp) by (lia || apply Hok; lia). set (j := 63 - Z.of_nat k).
  replace (126 - 2 * Z.of_nat k) with (2 * j) by lia. unfold page_node.
  assert (Hj : 1 <= j < 64) by lia. assert (Hl : Z.log2 j < 6) by (apply Z.log2_lt_pow2; lia). pose proof (Z.log2_nonneg j).
  replace (Z.log2 (2 * j)) with (Z.log2 j + 1) by (rewrite Z.log2_double by lia; lia).
  replace (Z.log2 (2 * j + 1)) with (Z.log2 j + 1) by (rewrite Z.log2_succ_double by lia; lia).
  rewrite (tree_step _ (7 - Z.log2 j)) by lia. by replace (7 - Z.log2 j - 1) with (7 - (Z.log2 j + 1)) by lia.
Qed.

Lemma cp_MerkleRoot_spec p : page_inv p -> exists p', cp_MerkleRoot Keccak256Hash p = (p', page_node (cp_Data p) 1) /\
  page_inv p' /\ cp_Data p' = cp_Data p /\ forall j, 1 <= j < 128 -> ok_at p' j = true.
Proof using.
  intros Hp. unfold cp_MerkleRoot, bottom_indices, layer_indices.
  set (p1 := fold_left (hash_bottom Keccak256Hash) _ p).
  assert (H1 : page_inv p1 /\ cp_Data p1 = cp_Data p /\ forall x, 64 <= x < 64 + Z.of_nat 64 -> ok_at p1 x = true).
  { refine (fold_seq_inv (fun k q => page_inv q /\ cp_Data q = cp_Data p /\ forall x, 64 <= x < 64 + Z.of_nat k -> ok_at q x = true)
      (hash_bottom Keccak256Hash) (fun k => 64 * Z.of_nat k) 64 p _ _).
    - split; [done|]. split; [done|]. lia.
    - intros k q Hk (Hq & Hd & Ho). destruct (hash_bottom_fills q k Hq Hk) as (Hi & Hd' & Hj & Hm). split; [done|]. split; [congruence|].
      intros x Hx. destruct (Z.eq_dec x (64 + Z.of_nat k)) as [->|]; [done|]. apply Hm; [lia|]. apply Ho. lia. }
  clearbody p1. destruct H1 as (Hp1 & Hd1 & Ho1). set (p2 := fold_left _ _ p1).
  assert (H2 : page_inv p2 /\ cp_Data p2 = cp_Data p1 /\ forall x, 64 - Z.of_nat 63 <= x < 128 -> ok_at p2 x = true).
  { refine (fold_seq_inv (fun k q => page_inv q /\ cp_Data q = cp_Data p1 /\ forall x, 64 - Z.of_nat k <= x < 128 -> ok_at q x = true)
      (hash_layer Keccak256Hash) (fun k => 126 - 2 * Z.of_nat k) 63 p1 _ _).
    - split; [done|]. split; [done|]. intros x Hx. apply Ho1. lia.
    - intros k q Hk (Hq & Hd & Ho). destruct (hash_layer_fills q k Hq Hk Ho) as (Hi & Hd' & Hj & Hm). split; [done|]. split; [congruence|].
      intros x Hx. destruct (Z.eq_dec x (63 - Z.of_nat k)) as [->|]; [done|]. apply Hm; [lia|]. apply Ho. lia. }
  clearbody p2. destruct H2 as (Hp2 & Hd2 & Ho2). exists p2. split; [|split; [done|]; split; [congruence|]; intros; apply Ho2; lia].
  f_equal. rewrite (pi_node _ Hp2), Hd2, Hd1; [done|lia|]. apply Ho2. lia.
Qed.

Lemma cp_MerkleizeSubtree_spec p g : page_inv p -> 1 <= g < 256 -> exists p',
  cp_MerkleizeSubtree Keccak256Hash g p = (p', Ok (page_node (cp_Data p) g)) /\
  page_inv p' /\ cp_Data p' = cp_Data p /\ ok_at p' 1 = true.
Proof using.
  intros Hp Hg. destruct (cp_MerkleRoot_spec p Hp) as (p' & Hr & Hi & Hd & Ho). exists p'. unfold cp_MerkleizeSubtree. rewrite Hr.
  change (PageSize / 32) with 128. change (128 * 2) with 256. change (Z.shiftr PageAddrMask 5) with (Z.ones 7).
  split; [|split; [done|]; split; [done|]; apply Ho; lia]. destruct (Z.leb_spec 128 g).
  - destruct (Z.leb_spec 256 g); [lia|]. rewrite Z.land_ones by lia. unfold page_node.
    assert (Hl : Z.log2 g = 7) by (apply Z.log2_unique; lia). rewrite Hl, Hd. change (Z.to_nat (7 - 7)) with 0%nat. cbn [tree]. unfold page_leaf.
    change (2 ^ 7) with 128. replace (g mod 128) with (g - 128) by ulia. by rewrite (Z.mul_comm 32).
  - by rewrite (pi_node _ Hi), Hd by (lia || apply Ho; lia).
Qed.

Lemma page_node_write j i bs data : is_array 4096 data -> length bs = 4%nat -> 0 <= i -> i + 4 <= 4096 -> i mod 4 = 0 ->
  1 <= j < 128 -> ~ above j ((4096 + i) / 64) -> page_node (copy_at i bs data) j = page_node data j.
Proof using.
  intros [Hl _] Hbs Hi0 Hi Ha Hj Hna. unfold page_node. pose proof (Z.log2_nonneg j).
  assert (Hlj : Z.log2 j < 7) by (apply Z.log2_lt_pow2; lia). destruct (Z.log2_spec j ltac:(lia)) as [Hj1 Hj2].
  apply tree_ext_above. intros x Hx. rewrite Z2Nat.id in Hx by lia. unfold page_leaf.
  assert (Hp : 2 ^ (7 - Z.log2 j) = 2 * 2 ^ (6 - Z.log2 j)) by (rewrite <- Z.pow_succ_r by lia; f_equal; lia).
  assert (Hpow : 2 ^ Z.log2 j * 2 ^ (7 - Z.log2 j) = 128) by (rewrite <- Z.pow_add_r by lia; by replace (Z.log2 j + (7 - Z.log2 j)) with 7 by lia).
  assert (Hpos : 0 < 2 ^ (7 - Z.log2 j)) by (apply Z.pow_pos_nonneg; lia).
  assert (Hxr : 128 <= x < 256).
  { rewrite Z.pow_succ_r in Hj2 by lia. pose proof (Z.div_mod x (2 ^ (7 - Z.log2 j)) ltac:(lia)) as Hdm. rewrite Hx in Hdm.
    pose proof (Z.mod_pos_bound x (2 ^ (7 - Z.log2 j)) Hpos). clear -Hdm Hj1 Hj2 Hpow Hpos H0. nia. }
  assert (Hne : x <> (4096 + i) / 32).
  { intros ->. apply Hna. exists (6 - Z.log2 j). split; [lia|]. etrans; [symmetry; exact Hx|].
    rewrite Hp, !Z.div_div by lia. f_equal. lia. }
  apply slice_copy_other; [done|lia|lia|]. unfold blen. rewrite Hbs. ulia.
Qed.

Lemma write_page_inv p i bs : page_inv p -> length bs = 4%nat -> bytes_ok bs -> 0 <= i -> i + 4 <= 4096 -> i mod 4 = 0 ->
  exists p', cp_Invalidate i p = Ok p' /\ cp_Data p' = cp_Data p /\ ok_at p' 1 = false /\ page_inv (write_page i bs p').
Proof using.
  intros Hp Hbs Hok Hi0 Hi Ha. unfold cp_Invalidate. change PageSize with 4096. destruct (Z.leb_spec 4096 i) as [|_]; [lia|].
  assert (Hk : Z.shiftr (Z.lor (Z.shiftl 1 PageAddrSize) i) (5 + 1) = (4096 + i) / 64).
  { rewrite Z.shiftr_div_pow2 by lia. change (2 ^ (5 + 1)) with 64. change (Z.shiftl 1 PageAddrSize) with 4096. f_equal.
    change 4096 with (Z.shiftl 1 12) at 1. rewrite lor_add_low by lia. lia. }
  rewrite Hk. assert (Hkr : 64 <= (4096 + i) / 64 < 128) by ulia. destruct ((4096 + i) / 64) as [|k|k] eqn:Hkk; [lia| |lia].
  eexists. split; [done|]. split; [done|]. pose proof (pi_ok _ Hp) as Hlo.
  destruct (invalidate_up_spec k (cp_Ok p)) as [Hl Hx]; [lia|].
  assert (Hup : forall j, 1 <= j -> default false (invalidate_up k (cp_Ok p) !! Z.to_nat j) = true -> ok_at p j = true /\ ~ above j (Zpos k)).
  { intros j Hj H. by apply Hx in H. }
  split.
  - unfold ok_at. cbn [cp_Ok]. apply not_true_iff_false. intros H. apply Hup in H as [_ H]; [|lia]. apply H, above_1. lia.
  - split; cbn [write_page cp_Data cp_Cache cp_Ok].
    + destruct (pi_data _ Hp) as [Hd Hb]. split; [rewrite length_copy_at; lia|by apply copy_at_ok].
    + apply Hp.
    + by rewrite Hl.
    + intros j Hj H. unfold ok_at in H. cbn [write_page cp_Ok] in H. apply Hup in H as [H Hna]; [|lia]. unfold cache_at. cbn [write_page cp_Cache].
      fold (cache_at p j). rewrite (pi_node _ Hp j Hj H). symmetry. apply page_node_write; [apply Hp|done..|by rewrite Hkk].
Qed.

(** A page that is written with nothing cached. *)
Lemma write_uncached p i bs : is_array 4096 (cp_Data p) -> length (cp_Cache p) = 128%nat -> cp_Ok p = replicate 128 false ->
  (Z.to_nat i <= 4096)%nat -> bytes_ok bs -> page_inv (write_page i bs p).
Proof using.
  intros [Hd Hb] Hc Ho Hi Hbs. split; cbn [write_page cp_Data cp_Cache cp_Ok].
  - split; [rewrite length_copy_at; lia|by apply copy_at_ok].
  - done.
  - by rewrite Ho.
  - intros j Hj H. unfold write_page in H. by rewrite (ok_at_fresh _ _ _ j Ho) in H.
Qed.

(** ** The memory *)

Definition page_data (m : Memory) (i : Z) : bytes :=
  match mm_pages m !! i ≫= fun l => mm_store m !! l with Some p => cp_Data p | None => zeros 4096 end.
Definition mem_leaf (m : Memory) (g : Z) : Hash :=
  slice (32 * ((g - 2 ^ 27) mod 128)) (32 * ((g - 2 ^ 27) mod 128) + 32) (page_data m ((g - 2 ^ 27) / 128)).
Definition mem_node (m : Memory) (g : Z) : Hash := tree (mem_leaf m) (Z.to_nat (27 - Z.log2 g)) g.

(** The word at an aligned address, and the root of the whole tree. *)
Definition mem_word (m : Memory) (addr : Z) : Z := get_be (slice (addr mod 4096) (addr mod 4096 + 4) (page_data m (addr / 4096))).
Definition mem_root (m : Memory) : Hash := mem_node m 1.

Record mem_inv (m : Memory) : Prop := {
  mi_keys : forall i l, mm_pages m !! i = Some l -> 0 <= i < 2 ^ 20 /\ (l < length (mm_store m))%nat;
  mi_inj : forall i j l, mm_pages m !! i = Some l -> mm_pages m !! j = Some l -> i = j;
  mi_last : forall k ptr, (k, ptr) = ((mm_lastPageKeys m).1, (mm_lastPage m).1) \/ (k, ptr) = ((mm_lastPageKeys m).2, (mm_lastPage m).2) ->
    k = uint32_ones \/ exists l, ptr = Some l /\ mm_pages m !! k = Some l;
  mi_page : forall l p, mm_store m !! l = Some p -> page_inv p;
  mi_missing : forall g i, 1 <= g < 2 ^ 20 -> mm_nodes m !! g = None -> above g (2 ^ 20 + i) -> mm_pages m !! i = None;
  mi_hash : forall g h, 1 <= g < 2 ^ 20 -> mm_nodes m !! g = Some (Some h) -> h = mem_node m g;
  mi_stale : forall g i l p, 1 <= g < 2 ^ 20 -> above g (2 ^ 20 + i) -> mm_pages m !! i = Some l -> mm_store m !! l = Some p ->
    ok_at p 1 = false -> mm_nodes m !! g = Some None;
}.

Lemma mem_leaf_ext m m' g : (forall i, page_data m' i = page_data m i) -> mem_leaf m' g = mem_leaf m g.
Proof using. intros H. unfold mem_leaf. by rewrite H. Qed.

Lemma mem_node_ext m m' g : (forall i, page_data m' i = page_data m i) -> mem_node m' g = mem_node m g.
Proof using. intros H. apply tree_ext. intros x. by apply mem_leaf_ext. Qed.

Lemma NewMemory_inv : mem_inv NewMemory.
Proof using.
  split; cbn [NewMemory mm_pages mm_nodes mm_store mm_lastPageKeys mm_lastPage fst snd]; try done.
  intros k ptr [H|H]; injection H as -> _; by left.
Qed.

Lemma mi_store m i l : mem_inv m -> mm_pages m !! i = Some l -> exists p, mm_store m !! l = Some p.
Proof using. intros Hm Hl. apply lookup_lt_is_Some_2. by apply (mi_keys _ Hm i). Qed.

Lemma page_data_at m i l p : mm_pages m !! i = Some l -> mm_store m !! l = Some p -> page_data m i = cp_Data p.
Proof using. intros Hl Hp. unfold page_data. rewrite Hl. cbn. by rewrite Hp. Qed.

Lemma page_data_array m i : mem_inv m -> is_array 4096 (page_data m i).
Proof using.
  intros Hm. unfold page_data. destruct (mm_pages m !! i) as [l|]; cbn; [|split; [done|apply zeros_ok]].
  destruct (mm_store m !! l) as [p|] eqn:Hp; [|split; [done|apply zeros_ok]]. by destruct (mi_page _ Hm l p Hp).
Qed.

(** Which page and which part of it an index is about. *)
Lemma log2_level g d : 0 <= d -> 2 ^ d <= g < 2 ^ (d + 1) -> Z.log2 g = d.
Proof using. intros Hd Hg. apply Z.log2_unique; [done|]. by rewrite <- Z.add_1_r. Qed.

Lemma mem_node_page m g p i d : 0 <= d <= 7 -> g = (2 ^ 20 + i) * 2 ^ d + p -> 0 <= i < 2 ^ 20 -> 0 <= p < 2 ^ d ->
  mem_node m g = page_node (page_data m i) (2 ^ d + p).
Proof using.
  intros Hd Hg Hi Hp. assert (Hpow : 0 < 2 ^ d) by (apply Z.pow_pos_nonneg; lia).
  assert (Hlg : Z.log2 g = 20 + d).
  { apply log2_level; [lia|]. rewrite !Z.pow_add_r by lia. change (2 ^ 1) with 2. nia. }
  assert (Hlp : Z.log2 (2 ^ d + p) = d) by (apply log2_level; [lia|]; rewrite Z.pow_add_r by lia; lia).
  unfold mem_node, page_node. rewrite Hlg, Hlp. replace (27 - (20 + d)) with (7 - d) by lia.
  apply tree_shift. intros j Hj. rewrite Z2Nat.id in * by lia. unfold mem_leaf, page_leaf.
  assert (Hmul : 2 ^ d * 2 ^ (7 - d) = 128) by (rewrite <- Z.pow_add_r by lia; by replace (d + (7 - d)) with 7 by lia).
  assert (Hpj : 0 <= p * 2 ^ (7 - d) + j < 128) by nia.
  replace (g * 2 ^ (7 - d) + j - 2 ^ 27) with (i * 128 + (p * 2 ^ (7 - d) + j)).
  2: { rewrite Hg. replace (((2 ^ 20 + i) * 2 ^ d + p) * 2 ^ (7 - d)) with ((2 ^ 20 + i) * (2 ^ d * 2 ^ (7 - d)) + p * 2 ^ (7 - d)) by ring.
       rewrite Hmul. lia. }
  rewrite Z.div_add_l, (Z.div_small (p * _ + j)), Z.add_0_r by lia. rewrite Z.add_comm, Z.mod_add, Z.mod_small by lia.
  replace ((2 ^ d + p) * 2 ^ (7 - d) + j - 128) with (p * 2 ^ (7 - d) + j) by (rewrite Z.mul_add_distr_r, Hmul; lia). done.
Qed.

Lemma page_node_zeros j : 1 <= j < 256 -> page_node (zeros 4096) j = zero_hash (Z.to_nat (7 - Z.log2 j)).
Proof using.
  intros Hj. unfold page_node. rewrite <- (tree_zero _ j). assert (Hl : Z.log2 j < 8) by (apply Z.log2_lt_pow2; lia). pose proof (Z.log2_nonneg j).
  destruct (Z.log2_spec j ltac:(lia)) as [Hj1 Hj2]. rewrite Z.pow_succ_r in Hj2 by lia.
  apply tree_ext_above. intros x Hx. rewrite Z2Nat.id in Hx by lia. unfold page_leaf.
  assert (Hpow : 2 ^ Z.log2 j * 2 ^ (7 - Z.log2 j) = 128) by (rewrite <- Z.pow_add_r by lia; by replace (Z.log2 j + (7 - Z.log2 j)) with 7 by lia).
  assert (Hpos : 0 < 2 ^ (7 - Z.log2 j)) by (apply Z.pow_pos_nonneg; lia).
  pose proof (Z.div_mod x (2 ^ (7 - Z.log2 j)) ltac:(lia)) as Hdm. rewrite Hx in Hdm. pose proof (Z.mod_pos_bound x _ Hpos).
  assert (128 <= x < 256) by (clear -Hdm Hj1 Hj2 Hpow Hpos H0; nia). rewrite slice_zeros by lia. f_equal. lia.
Qed.

(** Nothing but zeros below an index without pages. *)
Lemma mem_node_missing m g : 1 <= g < 2 ^ 20 -> (forall i, above g (2 ^ 20 + i) -> mm_pages m !! i = None) ->
  mem_node m g = zero_hash (Z.to_nat (27 - Z.log2 g)).
Proof using.
  intros Hg Hno. unfold mem_node. rewrite <- (tree_zero _ g). assert (Hl : Z.log2 g < 20) by (apply Z.log2_lt_pow2; lia). pose proof (Z.log2_nonneg g).
  apply tree_ext_above. intros x Hx. rewrite Z2Nat.id in Hx by lia. unfold mem_leaf.
  assert (Ha : above g (2 ^ 20 + (x - 2 ^ 27) / 128)).
  { exists (20 - Z.log2 g). split; [lia|]. replace (2 ^ 20 + (x - 2 ^ 27) / 128) with (x / 128) by (replace x with (x - 2 ^ 27 + 2 ^ 20 * 128) at 1 by lia; rewrite Z.div_add by lia; lia).
    etrans; [symmetry; exact Hx|]. rewrite Z.div_div by lia. f_equal. change 128 with (2 ^ 7). rewrite <- Z.pow_add_r by lia. f_equal. lia. }
  unfold page_data. rewrite (Hno _ Ha). cbn [mbind option_bind]. pose proof (Z.mod_pos_bound (x - 2 ^ 27) 128 ltac:(lia)).
  rewrite slice_zeros by lia. f_equal. lia.
Qed.

(** ** Computing a node *)

(** What computing a node changes: caches only, and below the node every page
    has its root. *)
Record cached (m m' : Memory) : Prop := {
  ca_inv : mem_inv m';
  ca_pages : mm_pages m' = mm_pages m;
  ca_keys : mm_lastPageKeys m' = mm_lastPageKeys m /\ mm_lastPage m' = mm_lastPage m;
  ca_store : forall l p, mm_store m !! l = Some p ->
    exists p', mm_store m' !! l = Some p' /\ cp_Data p' = cp_Data p /\ (ok_at p 1 = true -> ok_at p' 1 = true);
  ca_nodes : forall g, mm_nodes m' !! g = None -> mm_nodes m !! g = None;
}.

Definition rooted (m : Memory) (g : Z) : Prop :=
  forall i l p, above g (2 ^ 20 + i) -> mm_pages m !! i = Some l -> mm_store m !! l = Some p -> ok_at p 1 = true.

Lemma cached_data m m' i : mem_inv m -> cached m m' -> page_data m' i = page_data m i.
Proof using.
  intros Hm Hc. unfold page_data. rewrite (ca_pages _ _ Hc). destruct (mm_pages m !! i) as [l|] eqn:Hl; [|done]. cbn.
  destruct (mi_store m i l Hm Hl) as [p Hp]. rewrite Hp. destruct (ca_store _ _ Hc l p Hp) as (p' & -> & Hd & _). done.
Qed.

Lemma cached_node m m' g : mem_inv m -> cached m m' -> mem_node m' g = mem_node m g.
Proof using. intros Hm Hc. apply mem_node_ext. intros i. by apply cached_data. Qed.

Lemma cached_refl m : mem_inv m -> cached m m.
Proof using. intros Hm. split; [done..| |done]. intros l p Hp. eauto. Qed.

Lemma cached_trans m m1 m2 : cached m m1 -> cached m1 m2 -> cached m m2.
Proof using.
  intros H1 H2. split.
  - apply H2.
  - rewrite (ca_pages _ _ H2). apply H1.
  - destruct (ca_keys _ _ H1) as [? ?], (ca_keys _ _ H2) as [? ?]. split; congruence.
  - intros l p Hp. destruct (ca_store _ _ H1 l p Hp) as (p1 & Hp1 & Hd1 & Ho1). destruct (ca_store _ _ H2 l p1 Hp1) as (p2 & Hp2 & Hd2 & Ho2).
    exists p2. split; [done|]. split; [congruence|]. auto.
  - intros g Hg. by apply (ca_nodes _ _ H1), (ca_nodes _ _ H2).
Qed.

Lemma rooted_cached m m' g : mem_inv m -> cached m m' -> rooted m g -> rooted m' g.
Proof using.
  intros Hm Hc Hr i l p' Ha Hl Hp'. rewrite (ca_pages _ _ Hc) in Hl. destruct (mi_store m i l Hm Hl) as [p Hp].
  destruct (ca_store _ _ Hc l p Hp) as (p1 & Hp1 & _ & Ho). simplify_eq. apply Ho. by apply (Hr i l p).
Qed.

(** Caching the tree of a page. *)
Lemma cache_page m i l p p' : mem_inv m -> mm_pages m !! i = Some l -> mm_store m !! l = Some p -> page_inv p' ->
  cp_Data p' = cp_Data p -> ok_at p' 1 = true -> cached m (set_store (<[l := p']> (mm_store m)) m).
Proof using.
  intros Hm Hl Hp Hp' Hd Hok. assert (Hll : (l < length (mm_store m))%nat) by by eapply lookup_lt_Some.
  assert (Hs : forall k q, <[l := p']> (mm_store m) !! k = Some q -> q = p' /\ k = l \/ mm_store m !! k = Some q /\ k <> l).
  { intros k q H. destruct (decide (l = k)) as [<-|Hne].
    - rewrite list_lookup_insert_eq in H by done. left. by injection H as <-.
    - rewrite list_lookup_insert_ne in H by done. by right. }
  assert (Hdata : forall j, page_data (set_store (<[l := p']> (mm_store m)) m) j = page_data m j).
  { intros j. unfold page_data. cbn [set_store mm_pages mm_store]. destruct (mm_pages m !! j) as [k|]; [|done]. cbn.
    destruct (decide (l = k)) as [<-|Hne]; [by rewrite list_lookup_insert_eq, Hp by done|by rewrite list_lookup_insert_ne]. }
  split; cbn [set_store mm_pages mm_store mm_nodes mm_lastPageKeys mm_lastPage]; try done.
  - split; cbn [set_store mm_pages mm_store mm_nodes mm_lastPageKeys mm_lastPage].
    + intros j k Hk. rewrite length_insert. by apply (mi_keys _ Hm).
    + apply (mi_inj _ Hm).
    + apply (mi_last _ Hm).
    + intros k q Hq. apply Hs in Hq as [[-> _]|[Hq _]]; [done|]. by eapply mi_page.
    + apply (mi_missing _ Hm).
    + intros g h Hg Hh. rewrite (mem_node_ext m) by done. by apply (mi_hash _ Hm).
    + intros g j k q Hg Ha Hk Hq Ho. apply Hs in Hq as [[-> _]|[Hq _]]; [congruence|]. by eapply (mi_stale _ Hm).
  - intros k q Hq. destruct (decide (l = k)) as [<-|Hne].
    + rewrite list_lookup_insert_eq by done. exists p'. simplify_eq. done.
    + rewrite list_lookup_insert_ne by done. eauto.
Qed.

(** Caching the hash of an inner node. *)
Lemma cache_node m g : mem_inv m -> 1 <= g < 2 ^ 20 -> rooted m g -> mm_nodes m !! g = Some None ->
  cached m (set_nodes (<[g := Some (mem_node m g)]> (mm_nodes m)) m).
Proof using.
  intros Hm Hg Hr Hn.
  assert (Hdata : forall j, page_data (set_nodes (<[g := Some (mem_node m g)]> (mm_nodes m)) m) j = page_data m j) by done.
  split; cbn [set_nodes mm_pages mm_store mm_nodes mm_lastPageKeys mm_lastPage]; try done.
  - split; cbn [set_nodes mm_pages mm_store mm_nodes mm_lastPageKeys mm_lastPage]; try apply Hm.
    + intros x j Hx Hno. destruct (decide (g = x)) as [<-|]; [by rewrite lookup_insert_eq in Hno|]. rewrite lookup_insert_ne in Hno by done.
      by apply (mi_missing _ Hm).
    + intros x h Hx Hh. rewrite (mem_node_ext m) by done. destruct (decide (g = x)) as [<-|].
      * rewrite lookup_insert_eq in Hh. by injection Hh as <-.
      * rewrite lookup_insert_ne in Hh by done. by apply (mi_hash _ Hm).
    + intros x j l p Hx Ha Hl Hp Ho. destruct (decide (g = x)) as [<-|].
      * rewrite (Hr j l p Ha Hl Hp) in Ho. done.
      * rewrite lookup_insert_ne by done. by eapply (mi_stale _ Hm).
  - intros l p Hp. eauto.
  - intros x Hx. destruct (decide (g = x)) as [<-|]; [by rewrite lookup_insert_eq in Hx|by rewrite lookup_insert_ne in Hx].
Qed.

(** Below a node that holds a hash, or that there is none of, nothing waits. *)
Lemma rooted_valid m g : mem_inv m -> 1 <= g < 2 ^ 20 -> mm_nodes m !! g <> Some None -> rooted m g.
Proof using.
  intros Hm Hg Hn i l p Ha Hl Hp. destruct (ok_at p 1) eqn:Ho; [done|]. exfalso. apply Hn. by eapply (mi_stale _ Hm).
Qed.

Lemma rooted_children m g : 1 <= g < 2 ^ 20 -> mem_inv m -> rooted m (2 * g) -> rooted m (2 * g + 1) -> rooted m g.
Proof using.
  intros Hg Hm H0 H1 i l p (n & Hn & Hgn) Hl Hp. destruct (mi_keys _ Hm i l Hl) as [Hi _].
  destruct (Z.eq_dec n 0) as [->|]; [rewrite Z.div_1_r in Hgn; lia|].
  set (x := (2 ^ 20 + i) / 2 ^ (n - 1)). assert (Hx : g = x / 2).
  { unfold x. rewrite Z.div_div by lia. rewrite Hgn. f_equal. rewrite Z.mul_comm, <- Z.pow_succ_r by lia. f_equal. lia. }
  assert (Hor : x = 2 * g \/ x = 2 * g + 1) by (clearbody x; subst g; ulia).
  assert (Ha : above x (2 ^ 20 + i)) by (exists (n - 1); split; [lia|done]).
  destruct Hor as [Hor|Hor]; rewrite Hor in Ha; [by apply (H0 i l p)|by apply (H1 i l p)].
Qed.

Lemma Len64_log2 g : 1 <= g -> Len64 g = Z.log2 g + 1.
Proof using. intros Hg. unfold Len64. by destruct (Z.eqb_spec g 0); [lia|]. Qed.

Lemma in_page g : 2 ^ 20 <= g < 2 ^ 28 ->
  let d := Z.log2 g - 20 in let i := g / 2 ^ d - 2 ^ 20 in
  0 <= d <= 7 /\ 0 <= i < 2 ^ 20 /\ 0 <= g mod 2 ^ d < 2 ^ d /\ g = (2 ^ 20 + i) * 2 ^ d + g mod 2 ^ d /\
  Z.land (Z.shiftr g d) PageKeyMask = i /\
  Z.lor (Z.shiftl 1 d) (Z.land g (Z.shiftl 1 d - 1)) = 2 ^ d + g mod 2 ^ d.
Proof using.
  intros Hg d i. assert (Hd : 0 <= d <= 7).
  { assert (20 <= Z.log2 g) by (apply Z.log2_le_pow2; lia). assert (Z.log2 g < 28) by (apply Z.log2_lt_pow2; lia). lia. }
  assert (Hpow : 0 < 2 ^ d) by (apply Z.pow_pos_nonneg; lia). pose proof (Z.mod_pos_bound g (2 ^ d) Hpow) as Hm.
  pose proof (Z.div_mod g (2 ^ d) ltac:(lia)) as Hdm. destruct (Z.log2_spec g ltac:(lia)) as [H1 H2].
  assert (Hi : 2 ^ 20 <= g / 2 ^ d < 2 ^ 21).
  { replace (Z.log2 g) with (20 + d) in H1 by lia. replace (Z.succ (Z.log2 g)) with (21 + d) in H2 by lia. rewrite Z.pow_add_r in H1, H2 by lia.
    split; [apply Z.div_le_lower_bound; lia|apply Z.div_lt_upper_bound; lia]. }
  split; [done|]. split; [lia|]. split; [done|]. split; [subst i; lia|]. split.
  - rewrite Z.shiftr_div_pow2 by lia. change PageKeyMask with (Z.ones 20). rewrite Z.land_ones by lia.
    replace (g / 2 ^ d) with (i + 1 * 2 ^ 20) by lia. rewrite Z.mod_add by lia. apply Z.mod_small. lia.
  - replace (Z.shiftl 1 d - 1) with (Z.ones d) by (rewrite Z.ones_equiv, Z.shiftl_1_l; lia). rewrite Z.land_ones by lia.
    rewrite lor_add_low by lia. lia.
Qed.

Lemma merkleize_page fuel m g : mem_inv m -> 2 ^ 20 <= g < 2 ^ 28 ->
  exists m', merkleize Keccak256Hash (S fuel) g m = (m', Ok (mem_node m g)) /\ cached m m' /\ rooted m' g.
Proof using.
  intros Hm Hg. destruct (in_page g Hg) as (Hd & Hi & Hp & Heq & Hidx & Hpg).
  set (d := Z.log2 g - 20) in *. set (i := g / 2 ^ d - 2 ^ 20) in *. cbn [merkleize]. rewrite Len64_log2 by lia.
  destruct (Z.ltb_spec 28 (Z.log2 g + 1)); [lia|]. change PageKeySize with 20. destruct (Z.ltb_spec 20 (Z.log2 g + 1)); [|lia].
  replace (Z.log2 g + 1 - 1 - 20) with d by lia. rewrite Hidx, Hpg. pose proof (mem_node_page m g (g mod 2 ^ d) i d Hd Heq Hi Hp) as Hnode.
  assert (Hpow : 0 < 2 ^ d) by (apply Z.pow_pos_nonneg; lia).
  assert (H8 : 2 ^ (d + 1) <= 2 ^ 8) by (apply Z.pow_le_mono_r; lia). rewrite Z.pow_add_r in H8 by lia.
  assert (Habove : forall j, 0 <= j < 2 ^ 20 -> above g (2 ^ 20 + j) -> j = i).
  { intros j Hj (n & Hn & Hgn). destruct (Z.eq_dec n 0) as [->|].
    - rewrite Z.div_1_r in Hgn. assert (Hl : Z.log2 g = 20) by (apply log2_level; lia). assert (d = 0) by lia. subst i. replace d with 0 by lia.
      rewrite Z.div_1_r. lia.
    - exfalso. assert (H2 : 2 ^ 1 <= 2 ^ n) by (apply Z.pow_le_mono_r; lia). assert (g < 2 ^ 20); [|lia]. rewrite Hgn.
      apply Z.div_lt_upper_bound; nia. }
  destruct (mm_pages m !! i) as [l|] eqn:Hl.
  - destruct (mi_store m i l Hm Hl) as [p Hpp]. destruct (cp_MerkleizeSubtree_spec p (2 ^ d + g mod 2 ^ d)) as (p' & Hr & Hinv & Hd' & Ho);
      [by eapply mi_page|lia|].
    unfold mbind, stM_bind, load_page, page_at. cbn [mbind option_bind]. rewrite Hpp. cbn [deref]. rewrite Hr. unfold store_page, lift.
    eexists. split; [by rewrite Hnode, (page_data_at m i l p)|]. split; [by apply (cache_page m i l p)|].
    intros j k q Ha Hk Hq. cbn [set_store mm_pages mm_store] in Hk, Hq. destruct (mi_keys _ Hm j k Hk) as [Hj _].
    rewrite (Habove j Hj Ha), Hl in Hk. injection Hk as <-. rewrite list_lookup_insert_eq in Hq by by eapply lookup_lt_Some.
    by injection Hq as <-.
  - exists m. split; [|split; [by apply cached_refl|]].
    + f_equal. f_equal. rewrite Hnode. unfold page_data. rewrite Hl. cbn [mbind option_bind]. rewrite page_node_zeros by lia.
      unfold zeroHashes. f_equal. rewrite (log2_level (2 ^ d + g mod 2 ^ d) d); [f_equal; lia|lia|]. rewrite Z.pow_add_r by lia. change (2 ^ 1) with 2. lia.
    + intros j k q Ha Hk _. destruct (mi_keys _ Hm j k Hk) as [Hj _]. rewrite (Habove j Hj Ha) in Hk. congruence.
Qed.

Lemma merkleize_spec fuel m g : mem_inv m -> 1 <= g < 2 ^ 28 -> 27 - Z.log2 g < Z.of_nat fuel ->
  exists m', merkleize Keccak256Hash fuel g m = (m', Ok (mem_node m g)) /\ cached m m' /\ rooted m' g.
Proof using.
  revert m g. induction fuel as [|fuel IH]; intros m g Hm Hg Hf.
  { assert (Hlg : Z.log2 g < 28) by (apply Z.log2_lt_pow2; lia). lia. }
  destruct (Z.le_gt_cases (2 ^ 20) g) as [Hpg|Hng]; [apply merkleize_page; [done|lia]|].
  cbn [merkleize]. rewrite Len64_log2 by lia. assert (Hlg : Z.log2 g < 20) by (apply Z.log2_lt_pow2; lia). pose proof (Z.log2_nonneg g).
  destruct (Z.ltb_spec 28 (Z.log2 g + 1)); [lia|]. change PageKeySize with 20. destruct (Z.ltb_spec 20 (Z.log2 g + 1)); [lia|].
  destruct (Z.ltb_spec (20 + 1) (Z.log2 g + 1)); [lia|]. destruct (mm_nodes m !! g) as [[h|]|] eqn:Hn.
  - exists m. rewrite (mi_hash _ Hm g h) by (done || lia). split; [done|]. split; [by apply cached_refl|]. apply rooted_valid; [done|lia|congruence].
  - assert (Hl0 : Z.log2 (2 * g) = Z.log2 g + 1) by (rewrite Z.log2_double by lia; lia).
    assert (Hl1 : Z.log2 (2 * g + 1) = Z.log2 g + 1) by (rewrite Z.log2_succ_double by lia; lia).
    assert (Hg0 : Z.shiftl g 1 = 2 * g) by (rewrite Z.shiftl_mul_pow2 by lia; lia).
    assert (Hg1 : Z.lor (Z.shiftl g 1) 1 = 2 * g + 1) by (rewrite lor_add_low by lia; lia).
    rewrite Hg0 in Hg1 |- *. rewrite Hg1. unfold mbind, stM_bind.
    destruct (IH m (2 * g) Hm ltac:(lia) ltac:(lia)) as (m1 & -> & Hc1 & Hr1).
    destruct (IH m1 (2 * g + 1) (ca_inv _ _ Hc1) ltac:(lia) ltac:(lia)) as (m2 & -> & Hc2 & Hr2).
    pose proof (cached_trans _ _ _ Hc1 Hc2) as Hc. unfold mm_modify, mret, stM_ret.
    assert (Hh : HashPair (mem_node m (2 * g)) (mem_node m1 (2 * g + 1)) = mem_node m2 g).
    { rewrite (cached_node m m1), (cached_node m m2) by done. unfold mem_node. rewrite Hl0, Hl1, (tree_step _ (27 - Z.log2 g)) by lia.
      by replace (27 - (Z.log2 g + 1)) with (27 - Z.log2 g - 1) by lia. }
    rewrite Hh. eexists. split; [rewrite <- (cached_node m m2) by done; reflexivity|].
    assert (Hroot2 : rooted m2 g). { apply rooted_children; [lia|by apply Hc2| |done]. by eapply rooted_cached; [apply Hc1| |]. }
    destruct (mm_nodes m2 !! g) as [[h|]|] eqn:Hn2.
    + pose proof (mi_hash _ (ca_inv _ _ Hc2) g h ltac:(lia) Hn2) as ->. rewrite insert_id by done. assert (Hid : set_nodes (mm_nodes m2) m2 = m2) by by destruct m2. by rewrite Hid.
    + split; [eapply cached_trans; [done|]; apply cache_node; [by apply Hc2|lia|done..]|done].
    + apply (ca_nodes _ _ Hc) in Hn2. congruence.
  - exists m. split; [|split; [by apply cached_refl|apply rooted_valid; [done|lia|congruence]]].
    rewrite mem_node_missing; [|lia|intros i Ha; apply (mi_missing _ Hm g); (done || lia)]. unfold zeroHashes. do 3 f_equal. lia.
Qed.

Lemma MerkleizeSubtree_spec m g : mem_inv m -> 1 <= g < 2 ^ 28 ->
  exists m', MerkleizeSubtree Keccak256Hash g m = (m', Ok (mem_node m g)) /\ cached m m'.
Proof using.
  intros Hm Hg. pose proof (Z.log2_nonneg g). destruct (merkleize_spec 28 m g Hm Hg ltac:(lia)) as (m' & H1 & H2 & _). eauto.
Qed.

Lemma MerkleRoot_spec m : mem_inv m -> exists m', MerkleRoot Keccak256Hash m = (m', Ok (mem_root m)) /\ cached m m'.
Proof using. intros Hm. unfold MerkleRoot, mem_root. apply MerkleizeSubtree_spec; [done|lia]. Qed.

(** ** Looking up a page *)

Record same (m m' : Memory) : Prop := {
  sm_inv : mem_inv m';
  sm_pages : mm_pages m' = mm_pages m;
  sm_nodes : mm_nodes m' = mm_nodes m;
  sm_store : mm_store m' = mm_store m;
}.

Lemma same_data m m' i : same m m' -> page_data m' i = page_data m i.
Proof using. intros H. unfold page_data. by rewrite (sm_pages _ _ H), (sm_store _ _ H). Qed.

Lemma same_word m m' a : same m m' -> mem_word m' a = mem_word m a.
Proof using. intros H. unfold mem_word. by rewrite (same_data m m'). Qed.

Lemma same_node m m' g : same m m' -> mem_node m' g = mem_node m g.
Proof using. intros H. apply mem_node_ext. intros i. by apply same_data. Qed.

Lemma pageLookup_spec m i : mem_inv m -> 0 <= i < 2 ^ 20 ->
  exists m', pageLookup i m = (m', Ok (mm_pages m !! i, bool_decide (is_Some (mm_pages m !! i)))) /\ same m m'.
Proof using.
  intros Hm Hi. pose proof (mi_last _ Hm) as Hlast. unfold pageLookup.
  assert (Hhit : forall k ptr, (k, ptr) = ((mm_lastPageKeys m).1, (mm_lastPage m).1) \/ (k, ptr) = ((mm_lastPageKeys m).2, (mm_lastPage m).2) ->
            i = k -> (ptr, true) = (mm_pages m !! i, bool_decide (is_Some (mm_pages m !! i)))).
  { intros k ptr Hk <-. destruct (Hlast i ptr Hk) as [->|(l & -> & Hl)]; [unfold uint32_ones in Hi; lia|]. by rewrite Hl. }
  destruct (Z.eqb_spec i (mm_lastPageKeys m).1) as [H1|H1].
  { exists m. rewrite <- (Hhit _ _ (or_introl eq_refl) H1). by split. }
  destruct (Z.eqb_spec i (mm_lastPageKeys m).2) as [H2|H2].
  { exists m. rewrite <- (Hhit _ _ (or_intror eq_refl) H2). by split. }
  destruct (mm_pages m !! i) as [l|] eqn:Hl.
  - eexists. split; [done|]. split; [|done..]. split; cbn [mm_pages mm_nodes mm_store mm_lastPageKeys mm_lastPage fst snd]; try apply Hm.
    intros k ptr [H|H]; injection H as -> ->; [right; eauto|]. apply Hlast. by left.
  - exists m. by split.
Qed.

Lemma land_3 addr : Z.land addr 3 = addr mod 4.
Proof using. change 3 with (Z.ones 2). by rewrite Z.land_ones. Qed.
Lemma land_page addr : Z.land addr PageAddrMask = addr mod 4096.
Proof using. change PageAddrMask with (Z.ones 12). by rewrite Z.land_ones. Qed.
Lemma shiftr_page addr : Z.shiftr addr PageAddrSize = addr / 4096.
Proof using. by rewrite Z.shiftr_div_pow2. Qed.

Definition word_addr (addr : Z) : Prop := is_u32 addr /\ addr mod 4 = 0.

Lemma word_addr_page addr : word_addr addr -> 0 <= addr / 4096 < 2 ^ 20 /\ 0 <= addr mod 4096 /\ addr mod 4096 + 4 <= 4096 /\ addr mod 4096 mod 4 = 0.
Proof using. intros [Hu Ha]. unfold is_u32 in Hu. ulia. Qed.

Lemma GetMemory_spec m addr : mem_inv m -> word_addr addr ->
  exists m', GetMemory addr m = (m', Ok (mem_word m addr)) /\ same m m'.
Proof using.
  intros Hm Ha. destruct (word_addr_page addr Ha) as (Hi & H0 & H4 & _). destruct Ha as [_ Ha]. unfold GetMemory.
  rewrite land_3, Ha, land_page, shiftr_page. cbn [negb Z.eqb]. unfold mbind, stM_bind.
  destruct (pageLookup_spec m _ Hm Hi) as (m' & -> & Hs). exists m'. destruct (mm_pages m !! (addr / 4096)) as [l|] eqn:Hl.
  - rewrite bool_decide_true by done. destruct (mi_store m _ l Hm Hl) as [p Hp]. unfold load_page, page_at. cbn [mbind option_bind].
    rewrite (sm_store _ _ Hs), Hp. cbn [deref]. split; [|done]. unfold mret, stM_ret, mem_word. by rewrite (page_data_at m _ l p).
  - rewrite bool_decide_false by (intros [? ?]; done). split; [|done]. unfold mret, stM_ret, mem_word, page_data. rewrite Hl. cbn [mbind option_bind].
    rewrite slice_zeros by lia. replace (Z.to_nat _) with 4%nat by lia. done.
Qed.

Lemma GetMemory_unaligned m addr : addr mod 4 <> 0 -> GetMemory addr m = (m, Err unaligned).
Proof using. intros Ha. unfold GetMemory. rewrite land_3. by destruct (Z.eqb_spec (addr mod 4) 0). Qed.

(** ** Writing *)

Lemma mem_node_other m m' i g : (forall j, j <> i -> page_data m' j = page_data m j) -> 1 <= g < 2 ^ 20 -> ~ above g (2 ^ 20 + i) ->
  mem_node m' g = mem_node m g.
Proof using.
  intros Hd Hg Hna. unfold mem_node. assert (Hl : Z.log2 g < 20) by (apply Z.log2_lt_pow2; lia). pose proof (Z.log2_nonneg g).
  apply tree_ext_above. intros x Hx. rewrite Z2Nat.id in Hx by lia. unfold mem_leaf. rewrite Hd; [done|]. intros He. apply Hna.
  exists (20 - Z.log2 g). split; [lia|]. etrans; [symmetry; exact Hx|].
  replace (2 ^ 20 + i) with (x / 128) by (rewrite <- He; replace x with (x - 2 ^ 27 + 2 ^ 20 * 128) at 1 by lia; rewrite Z.div_add by lia; lia).
  rewrite Z.div_div by lia. f_equal. change 128 with (2 ^ 7). rewrite <- Z.pow_add_r by lia. f_equal. lia.
Qed.

(** A page gets new contents, and what is cached above it is dropped. *)
Lemma write_inv m m' i l p' : mem_inv m -> mm_pages m !! i = Some l -> mm_pages m' = mm_pages m ->
  mm_lastPageKeys m' = mm_lastPageKeys m -> mm_lastPage m' = mm_lastPage m -> mm_store m' = <[l := p']> (mm_store m) -> page_inv p' ->
  (forall g, 1 <= g < 2 ^ 20 -> above g (2 ^ 20 + i) -> mm_nodes m' !! g = Some None) ->
  (forall g, mm_nodes m' !! g = Some None \/ mm_nodes m' !! g = mm_nodes m !! g) ->
  mem_inv m' /\ forall j, page_data m' j = if decide (j = i) then cp_Data p' else page_data m j.
Proof using.
  intros Hm Hl Hpages Hkeys Hlast Hstore Hp' Hup Hcase. destruct (mi_keys _ Hm i l Hl) as [Hi Hll].
  assert (Hs : forall k q, mm_store m' !! k = Some q -> k = l /\ q = p' \/ k <> l /\ mm_store m !! k = Some q).
  { intros k q H. rewrite Hstore in H. destruct (decide (l = k)) as [<-|Hne].
    - rewrite list_lookup_insert_eq in H by done. left. by injection H as <-.
    - rewrite list_lookup_insert_ne in H by done. by right. }
  assert (Hdata : forall j, page_data m' j = if decide (j = i) then cp_Data p' else page_data m j).
  { intros j. unfold page_data. rewrite Hpages, Hstore. destruct (decide (j = i)) as [->|Hj].
    - rewrite Hl. cbn. by rewrite list_lookup_insert_eq.
    - destruct (mm_pages m !! j) as [k|] eqn:Hk; [|done]. cbn. rewrite list_lookup_insert_ne; [done|]. intros <-. apply Hj. by eapply mi_inj. }
  split; [|done]. split.
  - intros j k Hk. rewrite Hpages in Hk. rewrite Hstore, length_insert. by apply (mi_keys _ Hm).
  - rewrite Hpages. apply (mi_inj _ Hm).
  - rewrite Hkeys, Hlast, Hpages. apply (mi_last _ Hm).
  - intros k q Hq. apply Hs in Hq as [[_ ->]|[_ Hq]]; [done|]. by eapply mi_page.
  - intros g j Hg Hno. rewrite Hpages. apply (mi_missing _ Hm); [done|]. destruct (Hcase g) as [?|<-]; [congruence|done].
  - intros g h Hg Hh. destruct (Hcase g) as [?|He]; [congruence|]. rewrite He in Hh. rewrite (mi_hash _ Hm g h Hg Hh). symmetry.
    apply (mem_node_other _ _ i); [|done|].
    + intros j Hj. rewrite Hdata. by rewrite decide_False.
    + intros Ha. rewrite (Hup g Hg Ha) in He. congruence.
  - intros g j k q Hg Ha Hk Hq Ho. rewrite Hpages in Hk. apply Hs in Hq as [[-> _]|[_ Hq]].
    + rewrite (mi_inj _ Hm j i l Hk Hl) in Ha. by apply Hup.
    + destruct (Hcase g) as [?| ->]; [done|]. by eapply (mi_stale _ Hm).
Qed.

Lemma nil_up_cases k nodes g : nil_up k nodes !! g = Some None \/ nil_up k nodes !! g = nodes !! g.
Proof using.
  revert nodes. assert (Hins : forall x (l : gmap Z (option Hash)), <[x := None]> l !! g = Some None \/ <[x := None]> l !! g = l !! g).
  { intros x l. destruct (decide (x = g)) as [<-|]; [left; by rewrite lookup_insert_eq|right; by rewrite lookup_insert_ne]. }
  induction k as [k IH|k IH|]; intros nodes; cbn [nil_up]; [| |apply Hins].
  - destruct (IH (<[Z.pos k~1 := None]> nodes)) as [|He]; [by left|]. destruct (Hins (Z.pos k~1) nodes); [left|right]; congruence.
  - destruct (IH (<[Z.pos k~0 := None]> nodes)) as [|He]; [by left|]. destruct (Hins (Z.pos k~0) nodes); [left|right]; congruence.
Qed.

Lemma nil_to_root_spec x m : 1 <= x -> exists nodes, nil_to_root x m = set_nodes nodes m /\
  (forall g, 1 <= g -> above g x -> nodes !! g = Some None) /\ (forall g, nodes !! g = Some None \/ nodes !! g = mm_nodes m !! g).
Proof using.
  intros Hx. destruct x as [|k|k]; [lia| |lia]. exists (nil_up k (mm_nodes m)). split; [done|]. split; [|apply nil_up_cases].
  intros g Hg Ha. by apply nil_up_in.
Qed.

Lemma AllocPage_spec m i : mem_inv m -> 0 <= i < 2 ^ 20 -> mm_pages m !! i = None ->
  exists m', AllocPage i m = (m', Ok (Some (length (mm_store m)))) /\ mem_inv m' /\
    mm_pages m' = <[i := length (mm_store m)]> (mm_pages m) /\ mm_store m' = mm_store m ++ [empty_page] /\
    (forall j, page_data m' j = page_data m j) /\ forall g, 1 <= g < 2 ^ 20 -> above g (2 ^ 20 + i) -> mm_nodes m' !! g = Some None.
Proof using.
  intros Hm Hi Hno. unfold AllocPage. replace (Z.lor (Z.shiftl 1 PageKeySize) i) with (2 ^ 20 + i).
  2: { change PageKeySize with 20. rewrite lor_add_low by lia. lia. }
  match goal with |- context [nil_to_root _ ?x] => set (m0 := x) end.
  destruct (nil_to_root_spec (2 ^ 20 + i) m0 ltac:(lia)) as (nodes & -> & Hup & Hcase). eexists. split; [done|].
  assert (Hat : (mm_store m ++ [empty_page]) !! length (mm_store m) = Some empty_page) by by apply list_lookup_middle.
  assert (Hp : forall j l, <[i := length (mm_store m)]> (mm_pages m) !! j = Some l ->
            j = i /\ l = length (mm_store m) \/ j <> i /\ mm_pages m !! j = Some l /\ (l < length (mm_store m))%nat).
  { intros j l H. destruct (decide (i = j)) as [<-|Hne].
    - rewrite lookup_insert_eq in H. left. by injection H.
    - rewrite lookup_insert_ne in H by done. right. split; [done|]. split; [done|]. by apply (mi_keys _ Hm j). }
  assert (Hdata : forall j, page_data (set_nodes nodes m0) j = page_data m j).
  { intros j. unfold page_data. cbn [set_nodes m0 mm_pages mm_store]. destruct (decide (i = j)) as [<-|Hne].
    - rewrite lookup_insert_eq, Hno. cbn [mbind option_bind]. by rewrite Hat.
    - rewrite lookup_insert_ne by done. destruct (mm_pages m !! j) as [l|] eqn:Hl; [|done]. cbn [mbind option_bind].
      rewrite lookup_app_l; [done|]. by apply (mi_keys _ Hm j). }
  split; [|split; [done|]; split; [done|]; split; [done|]; intros g Hg Ha; apply Hup; (done || lia)].
  split; cbn [set_nodes m0 mm_pages mm_store mm_nodes mm_lastPageKeys mm_lastPage].
  - intros j l H. rewrite length_app. cbn [length]. destruct (Hp j l H) as [[-> ->]|(_ & Hj & Hl)]; [lia|]. split; [by apply (mi_keys _ Hm j l)|lia].
  - intros j k l Hj Hk. destruct (Hp j l Hj) as [[-> Hlj]|(Hne & Hj' & Hlj)], (Hp k l Hk) as [[-> Hlk]|(Hne' & Hk' & Hlk)]; [done|lia..|].
    by eapply mi_inj.
  - intros k ptr Hk. destruct (mi_last _ Hm k ptr Hk) as [->|(l & -> & Hl)]; [by left|]. right. exists l. split; [done|].
    rewrite lookup_insert_ne; [done|congruence].
  - intros l p Hl. apply lookup_app_Some in Hl as [Hl|[_ Hl]]; [by eapply mi_page|]. apply list_lookup_singleton_Some in Hl as [_ <-]. apply empty_page_inv.
  - intros g j Hg Hn Ha. destruct (Hcase g) as [?|He]; [congruence|]. destruct (decide (i = j)) as [<-|Hne].
    + rewrite (Hup g ltac:(lia) Ha) in Hn. done.
    + rewrite lookup_insert_ne by done. apply (mi_missing _ Hm g); [done| |done]. cbn [m0 mm_nodes] in He. congruence.
  - intros g h Hg Hh. rewrite (mem_node_ext m) by done. destruct (Hcase g) as [?|He]; [congruence|]. cbn [m0 mm_nodes] in He.
    apply (mi_hash _ Hm); [done|congruence].
  - intros g j l p Hg Ha Hl Hpp Ho. destruct (Hp j l Hl) as [[-> _]|(Hne & Hj & Hll)]; [apply Hup; (done || lia)|].
    rewrite lookup_app_l in Hpp by done. destruct (Hcase g) as [?| ->]; [done|]. cbn [m0 mm_nodes]. by eapply (mi_stale _ Hm).
Qed.

(** The contents after a write, page by page. *)
Definition written (m m' : Memory) (addr v : Z) : Prop :=
  forall j, page_data m' j = if decide (j = addr / 4096) then copy_at (addr mod 4096) (put_be 4 v) (page_data m j) else page_data m j.

Lemma SetMemory_new m addr v : mem_inv m -> word_addr addr -> mm_pages m !! (addr / 4096) = None ->
  exists m', SetMemory addr v m = (m', Ok tt) /\ mem_inv m' /\ written m m' addr v.
Proof using.
  intros Hm Ha Hno. destruct (word_addr_page addr Ha) as (Hi & H0 & H4 & Hal). destruct Ha as [Hu Ha]. unfold SetMemory.
  cbv zeta. rewrite land_3, Ha, land_page, shiftr_page. cbn [negb Z.eqb]. unfold mbind, stM_bind. cbv beta.
  destruct (pageLookup_spec m _ Hm Hi) as (m1 & -> & Hs). rewrite Hno, bool_decide_false by (intros [? ?]; done).
  assert (Hno1 : mm_pages m1 !! (addr / 4096) = None) by by rewrite (sm_pages _ _ Hs).
  destruct (AllocPage_spec m1 _ (sm_inv _ _ Hs) Hi Hno1) as (m2 & -> & Hm2 & Hp2 & Hst2 & Hd2 & Hup).
  set (l := length (mm_store m1)) in *. assert (Hl : mm_store m2 !! l = Some empty_page) by (rewrite Hst2; by apply list_lookup_middle).
  assert (Hlp : mm_pages m2 !! (addr / 4096) = Some l) by (rewrite Hp2; apply lookup_insert_eq).
  unfold load_page, page_at. cbn [mbind option_bind]. rewrite Hl. cbn [deref]. unfold store_page. eexists. split; [done|].
  destruct (write_inv m2 (set_store (<[l := write_page (addr mod 4096) (put_be 4 v) empty_page]> (mm_store m2)) m2) (addr / 4096) l
    (write_page (addr mod 4096) (put_be 4 v) empty_page)) as [Hinv Hdata]; try done.
  - apply write_uncached; [by destruct empty_page_inv|done|done|lia|apply put_be_ok].
  - by right.
  - split; [done|]. intros j. rewrite Hdata. destruct (decide (j = addr / 4096)) as [->|].
    + f_equal. rewrite <- (same_data m m1) by done. unfold page_data. by rewrite Hno1.
    + by rewrite Hd2, (same_data m m1).
Qed.

Lemma Invalidate_spec m addr l p : mem_inv m -> word_addr addr -> mm_pages m !! (addr / 4096) = Some l -> mm_store m !! l = Some p ->
  exists m' p' nodes, Invalidate addr m = (m', Ok tt) /\ cp_Invalidate (addr mod 4096) p = Ok p' /\
    mm_pages m' = mm_pages m /\ mm_store m' = <[l := p']> (mm_store m) /\ mm_nodes m' = nodes /\
    (forall k ptr, (k, ptr) = ((mm_lastPageKeys m').1, (mm_lastPage m').1) \/ (k, ptr) = ((mm_lastPageKeys m').2, (mm_lastPage m').2) ->
      k = uint32_ones \/ exists l, ptr = Some l /\ mm_pages m !! k = Some l) /\
    (forall g, 1 <= g < 2 ^ 20 -> above g (2 ^ 20 + addr / 4096) -> nodes !! g = Some None) /\
    (forall g, nodes !! g = Some None \/ nodes !! g = mm_nodes m !! g).
Proof using.
  intros Hm Ha Hl Hp. destruct (word_addr_page addr Ha) as (Hi & H0 & H4 & Hal). destruct Ha as [Hu Ha]. unfold is_u32 in Hu.
  unfold Invalidate. cbv zeta. rewrite land_3, Ha, land_page, !shiftr_page. cbn [negb Z.eqb]. unfold mbind, stM_bind. cbv beta.
  destruct (pageLookup_spec m _ Hm Hi) as (m1 & -> & Hs). rewrite Hl, bool_decide_true by done.
  unfold load_page, page_at. cbn [mbind option_bind]. rewrite (sm_store _ _ Hs), Hp. cbn [deref].
  destruct (write_page_inv p (addr mod 4096) (put_be 4 0) (mi_page _ Hm l p Hp)) as (p' & Hinv & Hd & Ho & _); [done|apply put_be_ok|lia..|].
  rewrite Hinv. unfold lift, store_page. cbn [set_store mm_store].
  replace (Z.lor (Z.shiftl 1 32) addr / 4096) with (2 ^ 20 + addr / 4096) by (rewrite lor_add_low by lia; ulia).
  destruct (ok_at p 1) eqn:Hok; unfold mm_modify, mret, stM_ret.
  - destruct (nil_to_root_spec (2 ^ 20 + addr / 4096) (set_store (<[l := p']> (mm_store m1)) m1) ltac:(lia)) as (nodes & -> & Hup & Hcase).
    eexists _, p', nodes. split; [done|]. split; [done|]. cbn [set_nodes set_store mm_pages mm_store mm_nodes mm_lastPageKeys mm_lastPage].
    rewrite (sm_store _ _ Hs), (sm_pages _ _ Hs). split_and!; [done..| | |].
    + rewrite <- (sm_pages _ _ Hs). apply (mi_last _ (sm_inv _ _ Hs)).
    + intros g Hg Hab. apply Hup; (done || lia).
    + intros g. rewrite <- (sm_nodes _ _ Hs). apply Hcase.
  - eexists _, p', (mm_nodes m). split; [done|]. split; [done|]. cbn [set_store mm_pages mm_store mm_nodes mm_lastPageKeys mm_lastPage].
    rewrite (sm_store _ _ Hs), (sm_pages _ _ Hs), (sm_nodes _ _ Hs). split_and!; [done..| | |by right].
    + rewrite <- (sm_pages _ _ Hs). apply (mi_last _ (sm_inv _ _ Hs)).
    + intros g Hg Hab. by eapply (mi_stale _ Hm).
Qed.

Lemma SetMemory_old m addr v l : mem_inv m -> word_addr addr -> mm_pages m !! (addr / 4096) = Some l ->
  exists m', SetMemory addr v m = (m', Ok tt) /\ mem_inv m' /\ written m m' addr v.
Proof using.
  intros Hm Ha Hl. destruct (word_addr_page addr Ha) as (Hi & H0 & H4 & Hal). unfold SetMemory.
  cbv zeta. rewrite land_3, (proj2 Ha), land_page, shiftr_page. cbn [negb Z.eqb]. unfold mbind, stM_bind. cbv beta.
  destruct (pageLookup_spec m _ Hm Hi) as (m1 & -> & Hs). rewrite Hl, bool_decide_true by done.
  destruct (mi_store m _ l Hm Hl) as [p Hp]. pose proof (sm_inv _ _ Hs) as Hm1.
  assert (Hl1 : mm_pages m1 !! (addr / 4096) = Some l) by by rewrite (sm_pages _ _ Hs).
  assert (Hp1 : mm_store m1 !! l = Some p) by by rewrite (sm_store _ _ Hs).
  destruct (Invalidate_spec m1 addr l p Hm1 Ha Hl1 Hp1) as (m2 & p' & nodes & -> & Hinv & Hpages & Hstore & Hnodes & Hlast & Hup & Hcase).
  destruct (write_page_inv p (addr mod 4096) (put_be 4 v) (mi_page _ Hm l p Hp)) as (q & Hinv' & Hd & Ho & Hw); [done|apply put_be_ok|lia..|].
  rewrite Hinv in Hinv'. injection Hinv' as <-.
  assert (Hll : (l < length (mm_store m1))%nat) by by eapply lookup_lt_Some.
  assert (Hl2 : mm_store m2 !! l = Some p') by (rewrite Hstore; by apply list_lookup_insert_eq).
  unfold mret, stM_ret, load_page, page_at. cbn [mbind option_bind]. rewrite Hl2. cbn [deref]. unfold store_page. eexists. split; [done|].
  set (w := write_page (addr mod 4096) (put_be 4 v) p') in *.
  set (m1' := {| mm_nodes := mm_nodes m1; mm_pages := mm_pages m1; mm_store := mm_store m1; mm_lastPageKeys := mm_lastPageKeys m2;
                 mm_lastPage := mm_lastPage m2 |}).
  assert (Hm1' : mem_inv m1') by (split; try apply Hm1; exact Hlast).
  destruct (write_inv m1' (set_store (<[l := w]> (mm_store m2)) m2) (addr / 4096) l w) as [Hinv2 Hdata]; try done.
  - cbn [set_store mm_store]. by rewrite Hstore, list_insert_insert_eq.
  - intros g Hg Hab. cbn [set_store mm_nodes]. rewrite Hnodes. by apply Hup.
  - intros g. cbn [set_store mm_nodes]. rewrite Hnodes. apply Hcase.
  - split; [done|]. intros j. rewrite Hdata. assert (Hd1 : page_data m1' j = page_data m j) by (rewrite <- (same_data m m1) by done; done).
    rewrite Hd1. destruct (decide (j = addr / 4096)) as [->|]; [|done]. rewrite (page_data_at m _ l p) by done. subst w. cbn [write_page cp_Data]. by rewrite Hd.
Qed.

Lemma SetMemory_spec m addr v : mem_inv m -> word_addr addr ->
  exists m', SetMemory addr v m = (m', Ok tt) /\ mem_inv m' /\ written m m' addr v.
Proof using.
  intros Hm Ha. destruct (mm_pages m !! (addr / 4096)) as [l|] eqn:Hl; [by eapply SetMemory_old|by apply SetMemory_new].
Qed.

(** ** Leaves and words *)

Definition leaf_index (addr : Z) : Z := 2 ^ 27 + addr / 32.

Lemma leaf_index_bounds addr : is_u32 addr -> 2 ^ 27 <= leaf_index addr < 2 ^ 28.
Proof using. unfold is_u32, leaf_index. intros. ulia. Qed.

Lemma mem_node_leaf m x : 2 ^ 27 <= x < 2 ^ 28 -> mem_node m x = mem_leaf m x.
Proof using. intros Hx. unfold mem_node. by rewrite (log2_level x 27) by lia. Qed.

Lemma mem_leaf_at m addr : is_u32 addr ->
  mem_leaf m (leaf_index addr) = slice (32 * (addr mod 4096 / 32)) (32 * (addr mod 4096 / 32) + 32) (page_data m (addr / 4096)).
Proof using.
  intros Hu. unfold is_u32 in Hu. unfold mem_leaf, leaf_index. replace (2 ^ 27 + addr / 32 - 2 ^ 27) with (addr / 32) by lia.
  replace (addr / 32 / 128) with (addr / 4096) by ulia. by replace ((addr / 32) mod 128) with (addr mod 4096 / 32) by ulia.
Qed.

(** The part of a slice, and a copy into one. *)
Lemma slice_slice i j a b (d : bytes) : 0 <= i -> 0 <= a <= b -> b <= j - i -> slice a b (slice i j d) = slice (i + a) (i + b) d.
Proof using.
  intros. unfold slice. rewrite skipn_firstn_comm, take_take, drop_drop. f_equal; [lia|]. f_equal. lia.
Qed.

Lemma slice_copy_in i src dst a b : 0 <= a <= i -> i + blen src <= b -> b <= blen dst ->
  slice a b (copy_at i src dst) = copy_at (i - a) src (slice a b dst).
Proof using.
  intros Ha Hb Hd. unfold blen in *. apply list_eq. intros k. destruct (decide (k < Z.to_nat (b - a))%nat) as [Hk|Hk].
  - rewrite slice_lookup by lia. rewrite !copy_at_lookup by (lia || (rewrite length_slice; unfold blen; lia)).
    rewrite slice_lookup by lia. destruct (decide _), (decide _); try lia; [|done]. f_equal. lia.
  - rewrite !lookup_ge_None_2; [done|rewrite length_copy_at|]; rewrite length_slice; unfold blen; try lia. rewrite length_copy_at; lia.
Qed.

Lemma mem_word_leaf m addr : word_addr addr ->
  mem_word m addr = get_be (slice (addr mod 32) (addr mod 32 + 4) (mem_leaf m (leaf_index addr))).
Proof using.
  intros [Hu Ha]. rewrite mem_leaf_at by done. unfold is_u32 in Hu. unfold mem_word. rewrite slice_slice by ulia. f_equal. f_equal; ulia.
Qed.

Lemma mem_leaf_array m g : mem_inv m -> is_array 32 (mem_leaf m g).
Proof using.
  intros Hm. destruct (page_data_array m ((g - 2 ^ 27) / 128) Hm) as [Hl Hb]. pose proof (Z.mod_pos_bound (g - 2 ^ 27) 128 ltac:(lia)).
  unfold mem_leaf. split; [|by apply bytes_ok_take, bytes_ok_drop]. rewrite length_slice; unfold blen; lia.
Qed.

Lemma mem_word_u32 m addr : mem_inv m -> word_addr addr -> is_u32 (mem_word m addr).
Proof using.
  intros Hm Ha. destruct (word_addr_page _ Ha) as (_ & H0 & H4 & _). destruct (page_data_array m (addr / 4096) Hm) as [Hl Hb]. unfold mem_word.
  assert (Hs : length (slice (addr mod 4096) (addr mod 4096 + 4) (page_data m (addr / 4096))) = 4%nat) by (rewrite length_slice; unfold blen; lia).
  pose proof (get_be_range (slice (addr mod 4096) (addr mod 4096 + 4) (page_data m (addr / 4096))) ltac:(by apply bytes_ok_take, bytes_ok_drop)) as Hr.
  unfold blen in Hr. rewrite Hs in Hr. exact Hr.
Qed.

(** After a write the leaf of the address holds the word, and the others what
    they held. *)
Lemma written_leaf m m' addr v : mem_inv m -> word_addr addr -> written m m' addr v ->
  mem_leaf m' (leaf_index addr) = copy_at (addr mod 32) (put_be 4 v) (mem_leaf m (leaf_index addr)) /\
  forall y, y <> leaf_index addr -> mem_leaf m' y = mem_leaf m y.
Proof using.
  intros Hm Ha Hw. destruct (page_data_array m (addr / 4096) Hm) as [Hl _]. destruct Ha as [Hu Ha]. split.
  - rewrite !mem_leaf_at by done. unfold is_u32 in Hu. rewrite Hw, decide_True by done.
    rewrite slice_copy_in by (unfold blen; rewrite ?length_put_be; ulia). f_equal. ulia.
  - intros y Hy. unfold is_u32 in Hu. unfold leaf_index in Hy. unfold mem_leaf. rewrite Hw. destruct (decide _) as [Hp|]; [|done].
    rewrite Hp. apply slice_copy_other; unfold blen; rewrite ?length_put_be; ulia.
Qed.

Lemma written_word m m' addr v b : mem_inv m -> word_addr addr -> word_addr b -> is_u32 v -> written m m' addr v ->
  mem_word m' b = if decide (b = addr) then v else mem_word m b.
Proof using.
  intros Hm Ha Hb Hv Hw. destruct (page_data_array m (addr / 4096) Hm) as [Hl _]. destruct (word_addr_page _ Ha) as (_ & H0 & H4 & _).
  destruct (word_addr_page _ Hb) as (_ & H0' & H4' & _). destruct Ha as [Hu Ha], Hb as [Hub Hb]. unfold is_u32 in Hu, Hub, Hv.
  unfold mem_word. rewrite Hw. destruct (decide (b = addr)) as [->|Hne].
  - rewrite decide_True by done. replace 4 with (blen (put_be 4 v)) at 1 by by rewrite blen_put_be.
    rewrite slice_copy_same by (rewrite ?length_put_be; lia). rewrite get_put_be; [done|]. change (256 ^ Z.of_nat 4) with (2 ^ 32). lia.
  - destruct (decide (b / 4096 = addr / 4096)) as [Hp|]; [|done]. rewrite Hp. f_equal.
    apply slice_copy_other; rewrite ?blen_put_be, ?length_put_be; ulia.
Qed.

(** A node depends on the leaves below it only. *)
Lemma mem_node_leaves m m' x g : 1 <= g < 2 ^ 28 -> (forall y, y <> x -> mem_leaf m' y = mem_leaf m y) -> ~ above g x ->
  mem_node m' g = mem_node m g.
Proof using.
  intros Hg Hl Hna. unfold mem_node. apply tree_ext_above. intros y Hy. apply Hl. intros ->. apply Hna. eexists. split; [|symmetry; exact Hy]. lia.
Qed.

(** ** Proofs *)

(** The other child of the parent. *)
Definition sibling (g : Z) : Z := Z.lxor g 1.

Lemma sibling_cases g : 0 <= g -> sibling g = if Z.odd g then g - 1 else g + 1.
Proof using. intros Hg. unfold sibling. destruct g as [|[k|k|]|]; [done..|lia]. Qed.

Lemma half_parity g : g = if Z.odd g then 2 * (g / 2) + 1 else 2 * (g / 2).
Proof using. rewrite (Z.div2_odd g) at 1. rewrite Z.div2_div. destruct (Z.odd g); cbn [Z.b2z]; lia. Qed.

Lemma leaf_index_bit addr n : is_u32 addr -> 0 <= n < 27 -> Z.odd (leaf_index addr / 2 ^ n) = Z.testbit addr (5 + n).
Proof using.
  intros Hu Hn. unfold leaf_index. rewrite Z.testbit_odd, Z.shiftr_div_pow2 by lia. rewrite Z.pow_add_r, <- Z.div_div by lia.
  change (2 ^ 5) with 32. replace 27 with ((27 - n) + n) by lia. rewrite Z.pow_add_r, Z.div_add_l by lia. rewrite Z.odd_add.
  replace (27 - n) with (1 + (26 - n)) by lia. rewrite Z.pow_add_r, Z.odd_mul by lia. done.
Qed.

Definition siblings (m : Memory) (x : Z) (n : nat) : list Hash := map (fun k => mem_node m (sibling (x / 2 ^ Z.of_nat k))) (seq 0 n).

Lemma div_pow_S x n : x / 2 ^ Z.of_nat (S n) = x / 2 ^ Z.of_nat n / 2.
Proof using. rewrite Nat2Z.inj_succ, Z.pow_succ_r, Z.mul_comm by lia. by rewrite Z.div_div by lia. Qed.

Lemma leaf_index_up addr n : is_u32 addr -> (n <= 27)%nat -> 1 <= leaf_index addr / 2 ^ Z.of_nat n < 2 ^ 28.
Proof using.
  intros Hu Hn. pose proof (leaf_index_bounds addr Hu) as Hb. assert (Hpow : 1 <= 2 ^ Z.of_nat n <= 2 ^ 27).
  { split; [apply (Z.pow_le_mono_r 2 0); lia|apply Z.pow_le_mono_r; lia]. }
  split; [apply Z.div_le_lower_bound; lia|]. apply Z.div_lt_upper_bound; nia.
Qed.

Lemma traverseBranch_spec n m addr : mem_inv m -> is_u32 addr -> (n <= 27)%nat ->
  exists m', traverseBranch Keccak256Hash n (leaf_index addr / 2 ^ Z.of_nat n) addr m =
    (m', Ok (mem_leaf m (leaf_index addr) :: siblings m (leaf_index addr) n)) /\ cached m m'.
Proof using.
  intros Hm Hu. set (x := leaf_index addr). revert m Hm. induction n as [|n IH]; intros m Hm Hn.
  - cbn [traverseBranch]. change (2 ^ Z.of_nat 0) with 1. rewrite Z.div_1_r. pose proof (leaf_index_bounds addr Hu) as Hx. fold x in Hx.
    destruct (MerkleizeSubtree_spec m x Hm ltac:(lia)) as (m' & Hs & Hc). exists m'. unfold mbind, stM_bind. rewrite Hs. split; [|done].
    by rewrite mem_node_leaf by done.
  - cbn [traverseBranch]. rewrite div_pow_S. set (y := x / 2 ^ Z.of_nat n) in *. pose proof (leaf_index_up addr n Hu ltac:(lia)) as Hy. fold x y in Hy.
    assert (Hbit : negb (Z.land addr (Z.shiftl 1 (31 - (27 - Z.of_nat (S n)))) =? 0) = Z.odd y).
    { unfold y, x. rewrite leaf_index_bit by (done || lia). replace (31 - (27 - Z.of_nat (S n))) with (5 + Z.of_nat n) by lia.
      rewrite Z.shiftl_1_l. destruct (Z.testbit addr (5 + Z.of_nat n)) eqn:Hb.
      - apply negb_true_iff, Z.eqb_neq. intros H0. apply (f_equal (fun z => Z.testbit z (5 + Z.of_nat n))) in H0.
        rewrite Z.land_spec, Hb, Z.pow2_bits_true, Z.bits_0 in H0 by lia. done.
      - apply negb_false_iff, Z.eqb_eq, Z.bits_inj'. intros k Hk. rewrite Z.land_spec, Z.bits_0. destruct (Z.eq_dec k (5 + Z.of_nat n)) as [->|].
        + by rewrite Hb.
        + rewrite Z.pow2_bits_false by lia. apply andb_false_r. }
    rewrite Hbit. assert (Hl : Z.shiftl (y / 2) 1 = 2 * (y / 2)) by (rewrite Z.shiftl_mul_pow2 by lia; lia).
    assert (Hr : Z.lor (Z.shiftl (y / 2) 1) 1 = 2 * (y / 2) + 1) by (rewrite lor_add_low by lia; lia). rewrite Hr, Hl.
    replace (if Z.odd y then (2 * (y / 2) + 1, 2 * (y / 2)) else (2 * (y / 2), 2 * (y / 2) + 1)) with (y, sibling y).
    2: { rewrite sibling_cases by lia. rewrite (half_parity y) at 1. pose proof (half_parity y). destruct (Z.odd y); f_equal; lia. }
    destruct (IH m Hm ltac:(lia)) as (m1 & Ht & Hc1). unfold mbind, stM_bind. fold y in Ht. rewrite Ht.
    assert (Hsib : 1 <= sibling y < 2 ^ 28).
    { rewrite sibling_cases by lia. pose proof (half_parity y) as Hp. pose proof (leaf_index_up addr (S n) Hu Hn) as Hup. fold x in Hup. rewrite div_pow_S in Hup. fold y in Hup.
      change (2 ^ 28) with (2 * 2 ^ 27) in *. destruct (Z.odd y); lia. }
    destruct (MerkleizeSubtree_spec m1 (sibling y) (ca_inv _ _ Hc1) Hsib) as (m2 & Hs & Hc2). rewrite Hs. exists m2.
    split; [|by eapply cached_trans]. unfold mret, stM_ret, siblings. rewrite seq_S, map_app. cbn [map app]. rewrite Nat.add_0_l. fold y.
    by rewrite (cached_node m m1) by done.
Qed.

Lemma MerkleProof_spec m addr : mem_inv m -> is_u32 addr ->
  exists m', MerkleProof Keccak256Hash addr m = (m', Ok (concat (mem_leaf m (leaf_index addr) :: siblings m (leaf_index addr) 27))) /\ cached m m'.
Proof using.
  intros Hm Hu. destruct (traverseBranch_spec 27 m addr Hm Hu ltac:(lia)) as (m' & Ht & Hc). exists m'. unfold MerkleProof, mbind, stM_bind.
  replace (leaf_index addr / 2 ^ Z.of_nat 27) with 1 in Ht.
  2: { pose proof (leaf_index_bounds addr Hu). change (Z.of_nat 27) with 27. ulia. }
  by rewrite Ht.
Qed.
End Tree.
