(* ===== verification/CannonVM.v ===== *)
(** * The fault proof VM

    [cannon/mipsevm]: [state.go], [witness.go], [instrumented.go] and
    [mips.go]. A MIPS machine of 32 bits over the memory of [CannonMemory.v],
    which reads pre-images of hashes through an oracle, and which can record
    for a step what the contract needs to execute it again. *)

From S2P Require Import Prelude Eth CannonMemory.

(** ** Words of 32 bits

    Shifts by 32 bits or more give 0, in Go and in Solidity. *)
Definition shl32 (x n : Z) : Z := if 32 <=? n then 0 else u32 (Z.shiftl x n).
Definition shr32 (x n : Z) : Z := if 32 <=? n then 0 else Z.shiftr x n.
Definition not32 (x : Z) : Z := Z.lxor x uint32_ones.

(** [int32(x)], and back. *)
Definition int32 (x : Z) : Z := if x <? 2 ^ 31 then x else x - 2 ^ 32.

(** A [switch] on a number: the first case that has it among its labels. *)
Fixpoint switch {A} (x : Z) (cases : list (list Z * A)) (default : A) : A :=
  match cases with
  | [] => default
  | (labels, a) :: cases => if existsb (Z.eqb x) labels then a else switch x cases default
  end.

(** ** The state: [state.go] *)

Record State := mkState {
  vs_Memory : Memory;
  vs_PreimageKey : Hash;
  vs_PreimageOffset : Z;
  vs_PC : Z;
  vs_NextPC : Z;
  vs_LO : Z;
  vs_HI : Z;
  vs_Heap : Z;
  vs_ExitCode : Z;
  vs_Exited : bool;
  vs_Step : Z;
  vs_Registers : list Z;
  vs_LastHint : bytes;
}.

Definition reg (i : Z) (s : State) : Z := default 0 (vs_Registers s !! Z.to_nat i).

Definition set_Memory (x : Memory) (s : State) : State :=
  mkState x (vs_PreimageKey s) (vs_PreimageOffset s) (vs_PC s) (vs_NextPC s) (vs_LO s) (vs_HI s) (vs_Heap s)
    (vs_ExitCode s) (vs_Exited s) (vs_Step s) (vs_Registers s) (vs_LastHint s).
Definition set_Preimage (key : Hash) (offset : Z) (s : State) : State :=
  mkState (vs_Memory s) key offset (vs_PC s) (vs_NextPC s) (vs_LO s) (vs_HI s) (vs_Heap s)
    (vs_ExitCode s) (vs_Exited s) (vs_Step s) (vs_Registers s) (vs_LastHint s).
Definition set_pcs (pc nextPC : Z) (s : State) : State :=
  mkState (vs_Memory s) (vs_PreimageKey s) (vs_PreimageOffset s) pc nextPC (vs_LO s) (vs_HI s) (vs_Heap s)
    (vs_ExitCode s) (vs_Exited s) (vs_Step s) (vs_Registers s) (vs_LastHint s).
Definition set_hilo (hi lo : Z) (s : State) : State :=
  mkState (vs_Memory s) (vs_PreimageKey s) (vs_PreimageOffset s) (vs_PC s) (vs_NextPC s) lo hi (vs_Heap s)
    (vs_ExitCode s) (vs_Exited s) (vs_Step s) (vs_Registers s) (vs_LastHint s).
Definition set_Heap (x : Z) (s : State) : State :=
  mkState (vs_Memory s) (vs_PreimageKey s) (vs_PreimageOffset s) (vs_PC s) (vs_NextPC s) (vs_LO s) (vs_HI s) x
    (vs_ExitCode s) (vs_Exited s) (vs_Step s) (vs_Registers s) (vs_LastHint s).
Definition set_exit (code : Z) (s : State) : State :=
  mkState (vs_Memory s) (vs_PreimageKey s) (vs_PreimageOffset s) (vs_PC s) (vs_NextPC s) (vs_LO s) (vs_HI s) (vs_Heap s)
    code true (vs_Step s) (vs_Registers s) (vs_LastHint s).
Definition set_Step (x : Z) (s : State) : State :=
  mkState (vs_Memory s) (vs_PreimageKey s) (vs_PreimageOffset s) (vs_PC s) (vs_NextPC s) (vs_LO s) (vs_HI s) (vs_Heap s)
    (vs_ExitCode s) (vs_Exited s) x (vs_Registers s) (vs_LastHint s).
Definition set_reg (i v : Z) (s : State) : State :=
  mkState (vs_Memory s) (vs_PreimageKey s) (vs_PreimageOffset s) (vs_PC s) (vs_NextPC s) (vs_LO s) (vs_HI s) (vs_Heap s)
    (vs_ExitCode s) (vs_Exited s) (vs_Step s) (<[Z.to_nat i := v]> (vs_Registers s)) (vs_LastHint s).
Definition set_LastHint (x : bytes) (s : State) : State :=
  mkState (vs_Memory s) (vs_PreimageKey s) (vs_PreimageOffset s) (vs_PC s) (vs_NextPC s) (vs_LO s) (vs_HI s) (vs_Heap s)
    (vs_ExitCode s) (vs_Exited s) (vs_Step s) (vs_Registers s) x.

(** [PC = NextPC; NextPC = NextPC + 4] *)
Definition goto_next (s : State) : State := set_pcs (vs_NextPC s) (vs_NextPC s +₃₂ 4) s.

Definition VMStatusValid : Z := 0.
Definition VMStatusInvalid : Z := 1.
Definition VMStatusPanic : Z := 2.
Definition VMStatusUnfinished : Z := 3.

Definition vmStatus (exited : bool) (exitCode : Z) : Z :=
  if negb exited then VMStatusUnfinished
  else if exitCode =? 0 then VMStatusValid
  else if exitCode =? 1 then VMStatusInvalid
  else VMStatusPanic.

(** The fields after the root of the memory. *)
Definition encode_fields (s : State) : bytes :=
  vs_PreimageKey s ++ put_be 4 (vs_PreimageOffset s) ++ put_be 4 (vs_PC s) ++ put_be 4 (vs_NextPC s) ++
  put_be 4 (vs_LO s) ++ put_be 4 (vs_HI s) ++ put_be 4 (vs_Heap s) ++ [vs_ExitCode s] ++
  [if vs_Exited s then 1 else 0] ++ put_be 8 (vs_Step s) ++ concat (map (put_be 4) (vs_Registers s)).

(** ** The arithmetic: [mips.go] *)

Definition SE (dat idx : Z) : Z :=
  let isSigned := negb (shr32 dat (idx -₃₂ 1) =? 0) in
  let signed := shl32 (shl32 1 (32 -₃₂ idx) -₃₂ 1) idx in
  let mask := shl32 1 idx -₃₂ 1 in
  if isSigned then Z.lor (Z.land dat mask) signed else Z.land dat mask.

(** The loop of [clo]: after at most 32 shifts nothing is left. *)
Fixpoint leading_ones (fuel : nat) (rs i : Z) : Z :=
  match fuel with
  | O => i
  | S fuel => if negb (Z.land rs 0x80000000 =? 0) then leading_ones fuel (shl32 rs 1) (i +₃₂ 1) else i
  end.

Definition invalid_instruction : go_error := GoPanic "invalid instruction".

(** What [execute] does in its first branch, for an R-type instruction or an
    arithmetic immediate one. *)
Definition execute_special (insn rs rt : Z) : res Z :=
  let opcode := shr32 insn 26 in
  let fun_ := Z.land insn 0x3f in
  let fun_ := switch opcode
    [([8], 0x20); ([9], 0x21); ([0xA], 0x2A); ([0xB], 0x2B); ([0xC], 0x24); ([0xD], 0x25); ([0xE], 0x26)] fun_ in
  let shamt := Z.land (shr32 insn 6) 0x1F in
  switch fun_
    [([0x00], Ok (shl32 rt shamt));
     ([0x02], Ok (shr32 rt shamt));
     ([0x03], Ok (SE (shr32 rt shamt) (32 -₃₂ shamt)));
     ([0x04], Ok (shl32 rt (Z.land rs 0x1F)));
     ([0x06], Ok (shr32 rt (Z.land rs 0x1F)));
     ([0x07], Ok (SE (shr32 rt rs) (32 -₃₂ rs)));
     ([0x08; 0x09; 0x0a; 0x0b; 0x0c; 0x0f; 0x10; 0x11; 0x12; 0x13; 0x18; 0x19; 0x1a; 0x1b], Ok rs);
     ([0x20; 0x21], Ok (rs +₃₂ rt));
     ([0x22; 0x23], Ok (rs -₃₂ rt));
     ([0x24], Ok (Z.land rs rt));
     ([0x25], Ok (Z.lor rs rt));
     ([0x26], Ok (Z.lxor rs rt));
     ([0x27], Ok (not32 (Z.lor rs rt)));
     ([0x2a], Ok (if int32 rs <? int32 rt then 1 else 0));
     ([0x2b], Ok (if rs <? rt then 1 else 0))]
    (Err invalid_instruction).

(** [(24 - (rs&3)*8)] and [(16 - (rs&2)*8)] *)
Definition byte_shift (rs : Z) : Z := 24 -₃₂ Z.land rs 3 * 8.
Definition half_shift (rs : Z) : Z := 16 -₃₂ Z.land rs 2 * 8.

(** Some of the bits of a word are replaced. *)
Definition merge (word mask val : Z) : Z := Z.lor (Z.land word (not32 mask)) val.

(** The other branch: loads, stores and the rest. *)
Definition execute_other (insn rs rt mem : Z) : res Z :=
  let opcode := shr32 insn 26 in
  let fun_ := Z.land insn 0x3f in
  let left := Z.land rs 3 * 8 in
  switch opcode
    [([0x1C], switch fun_
        [([0x2], Ok (u32 (int32 rs * int32 rt)));
         ([0x20; 0x21], Ok (leading_ones 33 (if fun_ =? 0x20 then not32 rs else rs) 0))] (Err invalid_instruction));
     ([0x0F], Ok (shl32 rt 16));
     ([0x20], Ok (SE (Z.land (shr32 mem (byte_shift rs)) 0xFF) 8));
     ([0x21], Ok (SE (Z.land (shr32 mem (half_shift rs)) 0xFFFF) 16));
     ([0x22], Ok (merge rt (shl32 uint32_ones left) (shl32 mem left)));
     ([0x23], Ok mem);
     ([0x24], Ok (Z.land (shr32 mem (byte_shift rs)) 0xFF));
     ([0x25], Ok (Z.land (shr32 mem (half_shift rs)) 0xFFFF));
     ([0x26], Ok (merge rt (shr32 uint32_ones (byte_shift rs)) (shr32 mem (byte_shift rs))));
     ([0x28], Ok (Z.lor (Z.land mem (Z.lxor uint32_ones (shl32 0xFF (byte_shift rs)))) (shl32 (Z.land rt 0xFF) (byte_shift rs))));
     ([0x29], Ok (Z.lor (Z.land mem (Z.lxor uint32_ones (shl32 0xFFFF (half_shift rs)))) (shl32 (Z.land rt 0xFFFF) (half_shift rs))));
     ([0x2a], Ok (merge mem (shr32 uint32_ones left) (shr32 rt left)));
     ([0x2b], Ok rt);
     ([0x2e], Ok (merge mem (shl32 uint32_ones (byte_shift rs)) (shl32 rt (byte_shift rs))));
     ([0x30], Ok mem);
     ([0x38], Ok rt)]
    (Err invalid_instruction).

Definition execute (insn rs rt mem : Z) : res Z :=
  let opcode := shr32 insn 26 in
  if (opcode =? 0) || (8 <=? opcode) && (opcode <? 0xF) then execute_special insn rs rt
  else execute_other insn rs rt mem.

(** ** Branches, jumps and registers

    None of them touches the memory, and what panics does so before the first
    assignment. *)

Definition handleBranch (opcode insn rtReg rs : Z) (s : State) : res State :=
  if negb (vs_NextPC s =? vs_PC s +₃₂ 4) then Err (GoPanic "branch in delay slot")
  else
    let shouldBranch :=
      if (opcode =? 4) || (opcode =? 5) then
        let rt := reg rtReg s in
        (rs =? rt) && (opcode =? 4) || negb (rs =? rt) && (opcode =? 5)
      else if opcode =? 6 then int32 rs <=? 0
      else if opcode =? 7 then 0 <? int32 rs
      else if opcode =? 1 then
        let rtv := Z.land (shr32 insn 16) 0x1F in
        if rtv =? 0 then int32 rs <? 0 else if rtv =? 1 then 0 <=? int32 rs else false
      else false in
    let prevPC := vs_PC s in
    Ok (set_pcs (vs_NextPC s)
          (if shouldBranch then prevPC +₃₂ 4 +₃₂ shl32 (SE (Z.land insn 0xFFFF) 16) 2 else vs_NextPC s +₃₂ 4) s).

(** The registers of a product of 64 bits. *)
Definition set_acc (acc : Z) (s : State) : State := set_hilo (u32 (Z.shiftr acc 32)) (u32 acc) s.

Definition divide_by_zero : go_error := GoPanic "runtime error: integer divide by zero".

(** The register of the result is written for every [fun], with 0 when it has none. *)
Definition handleHiLo (fun_ rs rt storeReg : Z) (s : State) : res State :=
  '(val, s) ← switch fun_
    [([0x10], Ok (vs_HI s, s));
     ([0x11], Ok (0, set_hilo rs (vs_LO s) s));
     ([0x12], Ok (vs_LO s, s));
     ([0x13], Ok (0, set_hilo (vs_HI s) rs s));
     ([0x18], Ok (0, set_acc (u64 (int32 rs * int32 rt)) s));
     ([0x19], Ok (0, set_acc (u64 (rs * rt)) s));
     ([0x1a], if rt =? 0 then Err divide_by_zero
              else Ok (0, set_hilo (u32 (Z.rem (int32 rs) (int32 rt))) (u32 (Z.quot (int32 rs) (int32 rt))) s));
     ([0x1b], if rt =? 0 then Err divide_by_zero else Ok (0, set_hilo (rs mod rt) (rs / rt) s))]
    (Ok (0, s));
  mret (goto_next (if negb (storeReg =? 0) then set_reg storeReg val s else s)).

Definition handleJump (linkReg dest : Z) (s : State) : res State :=
  if negb (vs_NextPC s =? vs_PC s +₃₂ 4) then Err (GoPanic "jump in delay slot")
  else
    let prevPC := vs_PC s in
    let s := set_pcs (vs_NextPC s) dest s in
    Ok (if negb (linkReg =? 0) then set_reg linkReg (prevPC +₃₂ 8) s else s).

Definition handleRd (storeReg val : Z) (conditional : bool) (s : State) : res State :=
  if 32 <=? storeReg then Err (GoPanic "invalid register")
  else Ok (goto_next (if negb (storeReg =? 0) && conditional then set_reg storeReg val s else s)).

(** ** The instrumented machine: [instrumented.go] *)

(** [PreimageOracle]; both calls may panic. *)
Class PreimageOracle (Oracle : Type) := {
  po_Hint : bytes -> Oracle -> Oracle * res unit;
  po_GetPreimage : Hash -> Oracle -> Oracle * res bytes;
}.

Definition fdStdin : Z := 0.
Definition fdStdout : Z := 1.
Definition fdStderr : Z := 2.
Definition fdHintRead : Z := 3.
Definition fdHintWrite : Z := 4.
Definition fdPreimageRead : Z := 5.
Definition fdPreimageWrite : Z := 6.
Definition MipsEBADF : Z := 0x9.
Definition MipsEINVAL : Z := 0x16.

Definition sysMmap : Z := 4090.
Definition sysBrk : Z := 4045.
Definition sysClone : Z := 4120.
Definition sysExitGroup : Z := 4246.
Definition sysRead : Z := 4003.
Definition sysWrite : Z := 4004.
Definition sysFcntl : Z := 4055.

Record StepWitness := mkStepWitness {
  sw_State : bytes;
  sw_MemProof : bytes;
  sw_PreimageKey : Hash;
  sw_PreimageValue : bytes;
  sw_PreimageOffset : Z;
}.

Section Machine.
Context {Oracle : Type} `{!PreimageOracle Oracle}.
Variable Keccak256Hash : bytes -> Hash.
(** The lengths of the buffers of [io.ReadAll] and [io.Copy]. *)
Variable lens : nat -> Z.

(** The writers take what they are given. *)
Record InstrumentedState := mkInstrumentedState {
  is_state : State;
  is_stdOut : bytes;
  is_stdErr : bytes;
  is_lastMemAccess : Z;
  is_memProofEnabled : bool;
  is_memProof : bytes;
  is_preimageOracle : Oracle;
  is_lastPreimage : bytes;
  is_lastPreimageKey : Hash;
  is_lastPreimageOffset : Z;
}.

Definition NewInstrumentedState (state : State) (po : Oracle) : InstrumentedState :=
  {| is_state := state; is_stdOut := []; is_stdErr := []; is_lastMemAccess := 0; is_memProofEnabled := false;
     is_memProof := zeros (28 * 32); is_preimageOracle := po; is_lastPreimage := []; is_lastPreimageKey := zeros 32;
     is_lastPreimageOffset := 0 |}.

Definition set_state (s : State) (i : InstrumentedState) : InstrumentedState :=
  mkInstrumentedState s (is_stdOut i) (is_stdErr i) (is_lastMemAccess i) (is_memProofEnabled i) (is_memProof i)
    (is_preimageOracle i) (is_lastPreimage i) (is_lastPreimageKey i) (is_lastPreimageOffset i).
Definition set_outputs (out err : bytes) (i : InstrumentedState) : InstrumentedState :=
  mkInstrumentedState (is_state i) out err (is_lastMemAccess i) (is_memProofEnabled i) (is_memProof i)
    (is_preimageOracle i) (is_lastPreimage i) (is_lastPreimageKey i) (is_lastPreimageOffset i).
Definition set_memAccess (addr : Z) (enabled : bool) (proof : bytes) (i : InstrumentedState) : InstrumentedState :=
  mkInstrumentedState (is_state i) (is_stdOut i) (is_stdErr i) addr enabled proof
    (is_preimageOracle i) (is_lastPreimage i) (is_lastPreimageKey i) (is_lastPreimageOffset i).
Definition set_oracle (o : Oracle) (i : InstrumentedState) : InstrumentedState :=
  mkInstrumentedState (is_state i) (is_stdOut i) (is_stdErr i) (is_lastMemAccess i) (is_memProofEnabled i) (is_memProof i)
    o (is_lastPreimage i) (is_lastPreimageKey i) (is_lastPreimageOffset i).
Definition set_lastPreimage (key : Hash) (preimage : bytes) (i : InstrumentedState) : InstrumentedState :=
  mkInstrumentedState (is_state i) (is_stdOut i) (is_stdErr i) (is_lastMemAccess i) (is_memProofEnabled i) (is_memProof i)
    (is_preimageOracle i) preimage key (is_lastPreimageOffset i).
Definition set_lastOffset (offset : Z) (i : InstrumentedState) : InstrumentedState :=
  mkInstrumentedState (is_state i) (is_stdOut i) (is_stdErr i) (is_lastMemAccess i) (is_memProofEnabled i) (is_memProof i)
    (is_preimageOracle i) (is_lastPreimage i) (is_lastPreimageKey i) offset.

Definition gets {A} (f : InstrumentedState -> A) : stM InstrumentedState A := fun i => (i, Ok (f i)).
Definition modify (f : InstrumentedState -> InstrumentedState) : stM InstrumentedState unit := fun i => (f i, Ok tt).
Definition on_state (f : State -> State) : stM InstrumentedState unit := modify (fun i => set_state (f (is_state i)) i).
Definition try_state (f : State -> res State) : stM InstrumentedState unit := fun i =>
  match f (is_state i) with Ok s => (set_state s i, Ok tt) | Err e => (i, Err e) end.

(** An operation on the memory of the machine, and one on its oracle. *)
Definition on_memory {A} (f : stM Memory A) : stM InstrumentedState A := fun i =>
  let '(m, r) := f (vs_Memory (is_state i)) in (set_state (set_Memory m (is_state i)) i, r).
Definition on_oracle {A} (f : stM Oracle A) : stM InstrumentedState A := fun i =>
  let '(o, r) := f (is_preimageOracle i) in (set_oracle o i, r).

Definition slice_bounds : go_error := GoPanic "runtime error: slice bounds out of range".

(** [copy] into an array of 32 bytes: the array and the number of bytes. *)
Definition copy32 (src : bytes) : bytes * Z := (take 32 (src ++ zeros 32), Z.min 32 (blen src)).

Definition readPreimage (key : Hash) (offset : Z) : stM InstrumentedState (bytes * Z) :=
  lastPreimageKey ← gets is_lastPreimageKey;
  _ ← (if bool_decide (key = lastPreimageKey) then mret tt
       else
         lastPreimage ← gets is_lastPreimage;
         _ ← modify (set_lastPreimage key lastPreimage);
         data ← on_oracle (po_GetPreimage key);
         modify (set_lastPreimage key (put_be 8 (blen data) ++ data)));
  _ ← modify (set_lastOffset offset);
  preimage ← gets is_lastPreimage;
  if blen preimage <? offset then throw slice_bounds
  else mret (copy32 (drop (Z.to_nat offset) preimage)).

Definition trackMemAccess (effAddr : Z) : stM InstrumentedState unit :=
  enabled ← gets is_memProofEnabled;
  last ← gets is_lastMemAccess;
  if enabled && negb (last =? effAddr) then
    if negb (last =? uint32_ones) then throw (GoPanic "unexpected different mem access")
    else
      memProof ← gets is_memProof;
      _ ← modify (set_memAccess effAddr enabled memProof);
      proof ← on_memory (MerkleProof Keccak256Hash effAddr);
      modify (set_memAccess effAddr enabled proof)
  else mret tt.

(** The loop over [LastHint]: each turn drops the four bytes of a length. *)
Fixpoint process_hints (fuel : nat) : stM InstrumentedState unit :=
  match fuel with
  | O => mret tt
  | S fuel =>
      buf ← gets (fun i => vs_LastHint (is_state i));
      if blen buf <? 4 then mret tt
      else
        let hintLen := get_be (take 4 buf) in
        if u32 (blen (drop 4 buf)) <=? hintLen then
          let hi := 4 +₃₂ hintLen in
          if (hi <? 4) || (blen buf <? hi) then throw slice_bounds
          else
            let hint := slice 4 hi buf in
            _ ← on_state (set_LastHint (drop (Z.to_nat hi) buf));
            _ ← on_oracle (po_Hint hint);
            process_hints fuel
        else mret tt
  end.

Definition write_hints (hintData : bytes) : stM InstrumentedState unit :=
  buf ← gets (fun i => vs_LastHint (is_state i));
  _ ← on_state (set_LastHint (buf ++ hintData));
  process_hints (length (buf ++ hintData)).

(** What a system call gives back: [v0] and [v1]. *)
Definition sys_mmap (a0 a1 : Z) : stM InstrumentedState (Z * Z) :=
  let sz := if negb (Z.land a1 PageAddrMask =? 0) then a1 +₃₂ (PageSize -₃₂ Z.land a1 PageAddrMask) else a1 in
  if a0 =? 0 then
    heap ← gets (fun i => vs_Heap (is_state i));
    _ ← on_state (set_Heap (heap +₃₂ sz));
    mret (heap, 0)
  else mret (a0, 0).

Definition read_preimage_word (a1 a2 : Z) : stM InstrumentedState (Z * Z) :=
  let effAddr := Z.land a1 0xFFffFFfc in
  _ ← trackMemAccess effAddr;
  mem ← on_memory (GetMemory effAddr);
  key ← gets (fun i => vs_PreimageKey (is_state i));
  offset ← gets (fun i => vs_PreimageOffset (is_state i));
  '(dat, datLen) ← readPreimage key offset;
  let alignment := Z.land a1 3 in
  let space := 4 - alignment in
  let datLen := if space <? datLen then space else datLen in
  let datLen := if a2 <? datLen then a2 else datLen in
  let outMem := copy_at alignment (take (Z.to_nat datLen) dat) (put_be 4 mem) in
  _ ← on_memory (SetMemory effAddr (get_be outMem));
  _ ← on_state (fun s => set_Preimage (vs_PreimageKey s) (vs_PreimageOffset s +₃₂ datLen) s);
  mret (datLen, 0).

Definition write_preimage_key (a1 a2 : Z) : stM InstrumentedState (Z * Z) :=
  let effAddr := Z.land a1 0xFFffFFfc in
  _ ← trackMemAccess effAddr;
  mem ← on_memory (GetMemory effAddr);
  key ← gets (fun i => vs_PreimageKey (is_state i));
  let alignment := Z.land a1 3 in
  let space := 4 - alignment in
  let a2 := if space <? a2 then space else a2 in
  let key := copy_at 0 (drop (Z.to_nat a2) key) key in
  let key := copy_at (32 - a2) (drop (Z.to_nat alignment) (put_be 4 mem)) key in
  _ ← on_state (set_Preimage key 0);
  mret (a2, 0).

Definition sys_read (a0 a1 a2 : Z) : stM InstrumentedState (Z * Z) :=
  if a0 =? fdStdin then mret (0, 0)
  else if a0 =? fdPreimageRead then read_preimage_word a1 a2
  else if a0 =? fdHintRead then mret (a2, 0)
  else mret (0xFFffFFff, MipsEBADF).

Definition sys_write (a0 a1 a2 : Z) : stM InstrumentedState (Z * Z) :=
  if a0 =? fdStdout then
    out ← on_memory (ReadMemoryRange lens a1 a2);
    _ ← modify (fun i => set_outputs (is_stdOut i ++ out) (is_stdErr i) i);
    mret (a2, 0)
  else if a0 =? fdStderr then
    out ← on_memory (ReadMemoryRange lens a1 a2);
    _ ← modify (fun i => set_outputs (is_stdOut i) (is_stdErr i ++ out) i);
    mret (a2, 0)
  else if a0 =? fdHintWrite then
    hintData ← on_memory (ReadMemoryRange lens a1 a2);
    _ ← write_hints hintData;
    mret (a2, 0)
  else if a0 =? fdPreimageWrite then write_preimage_key a1 a2
  else mret (0xFFffFFff, MipsEBADF).

Definition sys_fcntl (a0 a1 : Z) : Z * Z :=
  if a1 =? 3 then
    switch a0
      [([fdStdin; fdPreimageRead; fdHintRead], (0, 0));
       ([fdStdout; fdStderr; fdPreimageWrite; fdHintWrite], (1, 0))]
      (0xFFffFFff, MipsEBADF)
  else (0xFFffFFff, MipsEINVAL).

Definition handleSyscall : stM InstrumentedState unit :=
  s ← gets is_state;
  let syscallNum := reg 2 s in
  let a0 := reg 4 s in
  let a1 := reg 5 s in
  let a2 := reg 6 s in
  if syscallNum =? sysExitGroup then on_state (set_exit (u8 a0))
  else
    '(v0, v1) ← switch syscallNum
      [([sysMmap], sys_mmap a0 a1);
       ([sysBrk], mret (0x40000000, 0));
       ([sysClone], mret (1, 0));
       ([sysRead], sys_read a0 a1 a2);
       ([sysWrite], sys_write a0 a1 a2);
       ([sysFcntl], mret (sys_fcntl a0 a1))]
      (mret (0, 0));
    on_state (fun s => goto_next (set_reg 7 v1 (set_reg 2 v0 s))).

(** ** A step

    The fetch, the decoding of the registers and the instruction. *)

(** The second operand and the register of the result. *)
Definition decode_rt (insn opcode rtReg : Z) (s : State) : Z * Z :=
  if (opcode =? 0) || (opcode =? 0x1c) then (reg rtReg s, Z.land (shr32 insn 11) 0x1F)
  else if opcode <? 0x20 then
    if (opcode =? 0xC) || (opcode =? 0xD) || (opcode =? 0xe) then (Z.land insn 0xFFFF, rtReg)
    else (SE (Z.land insn 0xFFFF) 16, rtReg)
  else if (0x28 <=? opcode) || (opcode =? 0x22) || (opcode =? 0x26) then (reg rtReg s, rtReg)
  else (0, rtReg).

(** After the operands are there. *)
Definition run_instruction (insn opcode rtReg rs rt rdReg : Z) : stM InstrumentedState unit :=
  '(rs, mem, rdReg, storeAddr) ←
    (if 0x20 <=? opcode then
       let rs := rs +₃₂ SE (Z.land insn 0xFFFF) 16 in
       let addr := Z.land rs 0xFFFFFFFC in
       _ ← trackMemAccess addr;
       mem ← on_memory (GetMemory addr);
       if (0x28 <=? opcode) && negb (opcode =? 0x30) then mret (rs, mem, 0, addr)
       else mret (rs, mem, rdReg, uint32_ones)
     else mret (rs, 0, rdReg, uint32_ones));
  val ← lift (execute insn rs rt mem);
  let fun_ := Z.land insn 0x3f in
  if (opcode =? 0) && (8 <=? fun_) && (fun_ <? 0x1c) && ((fun_ <=? 0xc) || (0x10 <=? fun_)) then
    if (fun_ =? 8) || (fun_ =? 9) then try_state (handleJump (if fun_ =? 9 then rdReg else 0) rs)
    else if fun_ =? 0xa then try_state (handleRd rdReg rs (rt =? 0))
    else if fun_ =? 0xb then try_state (handleRd rdReg rs (negb (rt =? 0)))
    else if fun_ =? 0xC then handleSyscall
    else try_state (handleHiLo fun_ rs rt rdReg)
  else
    _ ← (if (opcode =? 0x38) && negb (rtReg =? 0) then on_state (set_reg rtReg 1) else mret tt);
    _ ← (if negb (storeAddr =? uint32_ones) then
           _ ← trackMemAccess storeAddr;
           on_memory (SetMemory storeAddr val)
         else mret tt);
    try_state (handleRd rdReg val true).

Definition mipsStep : stM InstrumentedState unit :=
  s ← gets is_state;
  if vs_Exited s then mret tt
  else
    _ ← on_state (fun s => set_Step (vs_Step s +₆₄ 1) s);
    insn ← on_memory (GetMemory (vs_PC s));
    let opcode := shr32 insn 26 in
    if (opcode =? 2) || (opcode =? 3) then
      let linkReg := if opcode =? 3 then 31 else 0 in
      let target := Z.lor (Z.land (vs_NextPC s) 0xF0000000) (shl32 (Z.land insn 0x03FFFFFF) 2) in
      try_state (handleJump linkReg target)
    else
      let rtReg := Z.land (shr32 insn 16) 0x1F in
      let rs := reg (Z.land (shr32 insn 21) 0x1F) s in
      let '(rt, rdReg) := decode_rt insn opcode rtReg s in
      if (4 <=? opcode) && (opcode <? 8) || (opcode =? 1) then try_state (handleBranch opcode insn rtReg rs)
      else run_instruction insn opcode rtReg rs rt rdReg.

(** [EncodeWitness] of the state of the machine *)
Definition EncodeWitness : stM InstrumentedState bytes :=
  memRoot ← on_memory (MerkleRoot Keccak256Hash);
  s ← gets is_state;
  mret (memRoot ++ encode_fields s).

Definition Step (proof : bool) : stM InstrumentedState (option StepWitness) :=
  _ ← modify (fun i => set_lastOffset uint32_ones (set_memAccess uint32_ones proof (is_memProof i) i));
  wit ← (if proof then
           pc ← gets (fun i => vs_PC (is_state i));
           insnProof ← on_memory (MerkleProof Keccak256Hash pc);
           state ← EncodeWitness;
           mret (Some (mkStepWitness state insnProof (zeros 32) [] 0))
         else mret None);
  _ ← mipsStep;
  i ← gets (fun i => i);
  match wit with
  | None => mret None
  | Some w =>
      let memProof := sw_MemProof w ++ is_memProof i in
      if negb (is_lastPreimageOffset i =? uint32_ones) then
        mret (Some (mkStepWitness (sw_State w) memProof (is_lastPreimageKey i) (is_lastPreimage i) (is_lastPreimageOffset i)))
      else mret (Some (mkStepWitness (sw_State w) memProof (zeros 32) [] 0))
  end.
End Machine.

Section Witness.
Variable Keccak256Hash : bytes -> Hash.

(** [StateHash]: the first byte of the hash becomes the status of the machine. *)
Definition StateHash (sw : bytes) : res Hash :=
  if negb (blen sw =? 226) then Err (Errorf "Invalid witness length")
  else
    match sw !! 88%nat, sw !! 89%nat with
    | Some exitCode, Some exited => Ok (vmStatus (exited =? 1) exitCode :: drop 1 (Keccak256Hash sw))
    | _, _ => Err (GoPanic "index out of range")
    end.

(** ** What the contract is given: [witness.go] *)

Definition uint32ToBytes32 (v : Z) : bytes := zeros 28 ++ put_be 4 v.
Definition uint64ToBytes32 (v : Z) : bytes := zeros 24 ++ put_be 8 v.

Variables StepBytes4 LoadLocalDataBytes4 LoadKeccak256PreimagePartBytes4 : bytes.

Definition EncodeStepInput (wit : StepWitness) (localContext : Z) : bytes :=
  let len := blen (sw_State wit) in
  let abiStateLen := if negb (len mod 32 =? 0) then len + (32 - len mod 32) else len in
  let abiState := sw_State wit ++ zeros (Z.to_nat (abiStateLen - len)) in
  StepBytes4 ++ uint32ToBytes32 (32 * 3) ++ uint32ToBytes32 (32 * 3 + 32 +₃₂ u32 (blen abiState)) ++
  uint64ToBytes32 localContext ++ uint32ToBytes32 (u32 len) ++ abiState ++
  uint32ToBytes32 (u32 (blen (sw_MemProof wit))) ++ sw_MemProof wit.

Definition HasPreimage (wit : StepWitness) : bool := negb (bool_decide (sw_PreimageKey wit = zeros 32)).

Definition LocalKeyType : Z := 1.
Definition Keccak256KeyType : Z := 2.

Definition EncodePreimageOracleInput (wit : StepWitness) (localContext : Z) : res bytes :=
  if negb (HasPreimage wit) then Err (Errorf "cannot encode pre-image oracle input, witness has no pre-image to proof")
  else
    let keyType := default 0 (sw_PreimageKey wit !! 0%nat) in
    if keyType =? LocalKeyType then
      if 32 + 8 <? blen (sw_PreimageValue wit) then Err (Errorf "local pre-image exceeds maximum size of 32 bytes")
      else if blen (sw_PreimageValue wit) <? 8 then Err slice_bounds
      else
        let preimagePart := drop 8 (sw_PreimageValue wit) in
        Ok (LoadLocalDataBytes4 ++ sw_PreimageKey wit ++ uint64ToBytes32 localContext ++ (copy32 preimagePart).1 ++
            uint32ToBytes32 (u32 (blen (sw_PreimageValue wit) - 8)) ++ uint32ToBytes32 (sw_PreimageOffset wit))
    else if keyType =? Keccak256KeyType then
      if blen (sw_PreimageValue wit) <? 8 then Err slice_bounds
      else
        Ok (LoadKeccak256PreimagePartBytes4 ++ uint32ToBytes32 (sw_PreimageOffset wit) ++ uint32ToBytes32 (32 + 32) ++
            uint32ToBytes32 (u32 (blen (sw_PreimageValue wit)) -₃₂ 8) ++ drop 8 (sw_PreimageValue wit))
    else Err (Errorf "unsupported pre-image type, cannot prepare preimage for oracle").
End Witness.
