(* ===== verification/MipsContract.v ===== *)
(** * The contract that executes a step of the fault proof VM

    [packages/contracts-bedrock/src/cannon]: [MIPS.sol] with its memory of
    Merkle proofs in the calldata, [PreimageOracle.sol] and
    [PreimageKeyLib.sol]. A call that reverts is an error. Arithmetic is
    unchecked where the source says so; words are numbers, and the ones that
    are hashed or sliced are lists of bytes. *)

From S2P Require Import Prelude Eth CannonMemory CannonVM.

Module MIPS.

Definition revert {A} (msg : string) : res A := Err (Errorf msg).
Definition require (b : bool) (msg : string) : res unit := if b then Ok tt else revert msg.

(** ** Words of 256 bits *)

Definition evm_ones : Z := 2 ^ 256 - 1.
Definition evm_not (x : Z) : Z := Z.lxor x evm_ones.
Definition evm_shl (n x : Z) : Z := if 256 <=? n then 0 else Z.shiftl x n mod 2 ^ 256.
Definition evm_shr (n x : Z) : Z := if 256 <=? n then 0 else Z.shiftr x n.

(** [calldataload]: past the end there are zeros. *)
Definition calldataload (calldata : bytes) (offset : Z) : bytes := take 32 (drop (Z.to_nat offset) calldata ++ zeros 32).
Definition calldataword (calldata : bytes) (offset : Z) : Z := get_be (calldataload calldata offset).

(** ** The state: every field is a word of memory *)
Record State := mkState {
  memRoot : Hash;
  preimageKey : Hash;
  preimageOffset : Z;
  pc : Z;
  nextPC : Z;
  lo : Z;
  hi : Z;
  heap : Z;
  exitCode : Z;
  exited : Z;
  step_ : Z;
  registers : list Z;
}.

Definition reg (i : Z) (s : State) : Z := default 0 (registers s !! Z.to_nat i).

Definition set_memRoot (x : Hash) (s : State) : State :=
  mkState x (preimageKey s) (preimageOffset s) (pc s) (nextPC s) (lo s) (hi s) (heap s) (exitCode s) (exited s) (step_ s) (registers s).
Definition set_preimage (key : Hash) (offset : Z) (s : State) : State :=
  mkState (memRoot s) key offset (pc s) (nextPC s) (lo s) (hi s) (heap s) (exitCode s) (exited s) (step_ s) (registers s).
Definition set_pcs (x y : Z) (s : State) : State :=
  mkState (memRoot s) (preimageKey s) (preimageOffset s) x y (lo s) (hi s) (heap s) (exitCode s) (exited s) (step_ s) (registers s).
Definition set_hilo (h l : Z) (s : State) : State :=
  mkState (memRoot s) (preimageKey s) (preimageOffset s) (pc s) (nextPC s) l h (heap s) (exitCode s) (exited s) (step_ s) (registers s).
Definition set_heap (x : Z) (s : State) : State :=
  mkState (memRoot s) (preimageKey s) (preimageOffset s) (pc s) (nextPC s) (lo s) (hi s) x (exitCode s) (exited s) (step_ s) (registers s).
Definition set_exit (code : Z) (s : State) : State :=
  mkState (memRoot s) (preimageKey s) (preimageOffset s) (pc s) (nextPC s) (lo s) (hi s) (heap s) code 1 (step_ s) (registers s).
Definition set_step (x : Z) (s : State) : State :=
  mkState (memRoot s) (preimageKey s) (preimageOffset s) (pc s) (nextPC s) (lo s) (hi s) (heap s) (exitCode s) (exited s) x (registers s).
Definition set_reg (i v : Z) (s : State) : State :=
  mkState (memRoot s) (preimageKey s) (preimageOffset s) (pc s) (nextPC s) (lo s) (hi s) (heap s) (exitCode s) (exited s) (step_ s)
    (<[Z.to_nat i := v]> (registers s)).

Definition goto_next (s : State) : State := set_pcs (nextPC s) (nextPC s +₃₂ 4) s.

(** ** The arithmetic *)

(** The masks are computed with 256 bits. *)
Definition SE (_dat _idx : Z) : Z :=
  let isSigned := negb (shr32 _dat (_idx -₃₂ 1) =? 0) in
  let signed := evm_shl _idx ((evm_shl (32 -₃₂ _idx) 1 - 1) mod 2 ^ 256) in
  let mask := (evm_shl _idx 1 - 1) mod 2 ^ 256 in
  u32 (Z.lor (Z.land _dat mask) (if isSigned then signed else 0)).

Fixpoint leading_ones (fuel : nat) (rs i : Z) : Z :=
  match fuel with
  | O => i
  | S fuel => if negb (Z.land rs 0x80000000 =? 0) then leading_ones fuel (shl32 rs 1) (i +₃₂ 1) else i
  end.

Definition execute_special (insn rs rt : Z) : res Z :=
  let opcode := shr32 insn 26 in
  let func := Z.land insn 0x3f in
  let func := switch opcode
    [([0x8], 0x20); ([0x9], 0x21); ([0xA], 0x2A); ([0xB], 0x2B); ([0xC], 0x24); ([0xD], 0x25); ([0xE], 0x26)] func in
  let shamt := Z.land (shr32 insn 6) 0x1F in
  switch func
    [([0x00], Ok (shl32 rt shamt));
     ([0x02], Ok (shr32 rt shamt));
     ([0x03], Ok (SE (shr32 rt shamt) (32 -₃₂ shamt)));
     ([0x04], Ok (shl32 rt (Z.land rs 0x1F)));
     ([0x06], Ok (shr32 rt (Z.land rs 0x1F)));
     ([0x07], Ok (SE (shr32 rt rs) (32 -₃₂ rs)));
     ([0x08; 0x09; 0x0a; 0x0b; 0x0c; 0x0f; 0x10; 0x11; 0x12; 0x13; 0x18; 0x19; 0x1a; 0x1b], Ok rs);
     ([0x20; 0x21], Ok (rs +₃₂ rt));
     ([0x22; 0x23], Ok (rs -₃₂ rt));
     ([0x24], Ok (Z.land rs rt));
     ([0x25], Ok (Z.lor rs rt));
     ([0x26], Ok (Z.lxor rs rt));
     ([0x27], Ok (not32 (Z.lor rs rt)));
     ([0x2a], Ok (if int32 rs <? int32 rt then 1 else 0));
     ([0x2b], Ok (if rs <? rt then 1 else 0))]
    (revert "invalid instruction").

Definition execute_other (insn rs rt mem : Z) : res Z :=
  let opcode := shr32 insn 26 in
  let func := Z.land insn 0x3f in
  let left := Z.land rs 3 * 8 in
  switch opcode
    [([0x1C], switch func
        [([0x2], Ok (u32 (int32 rs * int32 rt)));
         ([0x20; 0x21], Ok (leading_ones 33 (if func =? 0x20 then not32 rs else rs) 0))] (revert "invalid instruction"));
     ([0x0F], Ok (shl32 rt 16));
     ([0x20], Ok (SE (Z.land (shr32 mem (byte_shift rs)) 0xFF) 8));
     ([0x21], Ok (SE (Z.land (shr32 mem (half_shift rs)) 0xFFFF) 16));
     ([0x22], Ok (merge rt (shl32 uint32_ones left) (shl32 mem left)));
     ([0x23], Ok mem);
     ([0x24], Ok (Z.land (shr32 mem (byte_shift rs)) 0xFF));
     ([0x25], Ok (Z.land (shr32 mem (half_shift rs)) 0xFFFF));
     ([0x26], Ok (merge rt (shr32 uint32_ones (byte_shift rs)) (shr32 mem (byte_shift rs))));
     ([0x28], Ok (Z.lor (Z.land mem (Z.lxor uint32_ones (shl32 0xFF (byte_shift rs)))) (shl32 (Z.land rt 0xFF) (byte_shift rs))));
     ([0x29], Ok (Z.lor (Z.land mem (Z.lxor uint32_ones (shl32 0xFFFF (half_shift rs)))) (shl32 (Z.land rt 0xFFFF) (half_shift rs))));
     ([0x2a], Ok (merge mem (shr32 uint32_ones left) (shr32 rt left)));
     ([0x2b], Ok rt);
     ([0x2e], Ok (merge mem (shl32 uint32_ones (byte_shift rs)) (shl32 rt (byte_shift rs))));
     ([0x30], Ok mem);
     ([0x38], Ok rt)]
    (revert "invalid instruction").

Definition execute (insn rs rt mem : Z) : res Z :=
  let opcode := shr32 insn 26 in
  if (opcode =? 0) || (8 <=? opcode) && (opcode <? 0xF) then execute_special insn rs rt
  else execute_other insn rs rt mem.

(** ** The pre-image oracle: [PreimageOracle.sol], [PreimageKeyLib.sol] *)

Record OracleContract := mkOracleContract {
  preimageLengths : gmap Hash Z;
  preimageParts : gmap (Hash * Z) Hash;
  preimagePartOk : gmap (Hash * Z) bool;
}.

Definition readPreimage (o : OracleContract) (_key : Hash) (_offset : Z) : res (Hash * Z) :=
  _ ← require (default false (preimagePartOk o !! (_key, _offset))) "pre-image must exist";
  let length := default 0 (preimageLengths o !! _key) in
  datLen_ ← (if length + 8 <=? _offset + 32 then
               if length + 8 <? _offset then revert "arithmetic underflow" else Ok (length + 8 - _offset)
             else Ok 32);
  mret (default (zeros 32) (preimageParts o !! (_key, _offset)), datLen_).

Definition store_part (key : Hash) (partOffset : Z) (part : Hash) (size : Z) (o : OracleContract) : OracleContract :=
  {| preimageLengths := <[key := size]> (preimageLengths o);
     preimageParts := <[(key, partOffset) := part]> (preimageParts o);
     preimagePartOk := <[(key, partOffset) := true]> (preimagePartOk o) |}.

(** The first byte of a word is replaced. *)
Definition with_type (type : Z) (h : Hash) : Hash := type :: drop 1 h.

(** The argument of a type [bytes calldata] at a head: where it is and its
    length, after the checks of the decoder. *)
Definition decode_bytes (calldata : bytes) (head : Z) : res (Z * Z) :=
  let offset := calldataword calldata head in
  _ ← require (offset <? 2 ^ 64) "invalid calldata offset";
  let start := 4 + offset in
  _ ← require (start + 31 <? blen calldata) "invalid calldata array offset";
  let length := calldataword calldata start in
  _ ← require (length <? 2 ^ 64) "invalid calldata array length";
  _ ← require (start + 32 + length <=? blen calldata) "invalid calldata array stride";
  mret (start + 32, length).

Section Contract.
Variable Keccak256Hash : bytes -> Hash.
(** [msg.sender], as a word. *)
Variable sender : bytes.

Definition localize (_key : Hash) (_localContext : bytes) : Hash :=
  with_type 1 (Keccak256Hash (_key ++ sender ++ _localContext)).

Definition localizeIdent (_ident : Hash) (_localContext : bytes) : Hash := localize (with_type 1 _ident) _localContext.

(** The scratch memory of [loadLocalData]: the size, the word, and zeros. *)
Definition loadLocalData (_ident _localContext _word : bytes) (_size _partOffset : Z) (o : OracleContract) : res OracleContract :=
  let key_ := localizeIdent _ident _localContext in
  if (2 ^ 256 <=? _size + 8) then revert "arithmetic overflow"
  else if (_size + 8 <? _partOffset) || (32 <? _size) then revert "PartOffsetOOB"
  else
    let memory := put_be 8 _size ++ _word ++ zeros 32 in
    mret (store_part key_ _partOffset (slice _partOffset (_partOffset + 32) memory) _size o).

Definition loadKeccak256PreimagePart (_partOffset : Z) (calldata : bytes) (preimage_offset : Z) (o : OracleContract) : res OracleContract :=
  let size := calldataword calldata 0x44 in
  if (size + 8) mod 2 ^ 256 <? _partOffset then revert "PartOffsetOOB"
  else
    let payload := take (Z.to_nat size) (drop (Z.to_nat preimage_offset) calldata ++ zeros (Z.to_nat size)) in
    let memory := put_be 8 size ++ payload ++ zeros 40 in
    mret (store_part (with_type 2 (Keccak256Hash payload)) _partOffset (slice _partOffset (_partOffset + 32) memory) size o).

Variables StepBytes4 LoadLocalDataBytes4 LoadKeccak256PreimagePartBytes4 : bytes.

(** A transaction to the oracle: the selector and the arguments. *)
Definition call_oracle (calldata : bytes) (o : OracleContract) : res OracleContract :=
  let arg i := calldataload calldata (4 + 32 * i) in
  if bool_decide (take 4 calldata = LoadLocalDataBytes4) then
    _ ← require (4 + 32 * 5 <=? blen calldata) "calldata too short";
    loadLocalData (arg 0) (arg 1) (arg 2) (get_be (arg 3)) (get_be (arg 4)) o
  else if bool_decide (take 4 calldata = LoadKeccak256PreimagePartBytes4) then
    _ ← require (4 + 32 * 2 <=? blen calldata) "calldata too short";
    '(offset, _) ← decode_bytes calldata 0x24;
    loadKeccak256PreimagePart (get_be (arg 0)) calldata offset o
  else revert "unknown function".

(** ** The memory: proofs in the calldata *)

Definition outputState (s : State) : Hash :=
  let out := memRoot s ++ preimageKey s ++ put_be 4 (preimageOffset s) ++ put_be 4 (pc s) ++ put_be 4 (nextPC s) ++
    put_be 4 (lo s) ++ put_be 4 (hi s) ++ put_be 4 (heap s) ++ put_be 1 (exitCode s) ++ put_be 1 (exited s) ++
    put_be 8 (step_ s) ++ concat (map (put_be 4) (registers s)) in
  let status := if exited s =? 1 then (if exitCode s =? 0 then 0 else if exitCode s =? 1 then 1 else 2) else 3 in
  with_type status (Keccak256Hash out).

Definition proofOffset (calldata : bytes) (_proofIndex : Z) : res Z :=
  let offset_ := 420 + _proofIndex * (28 * 32) in
  _ ← require (offset_ + 28 * 32 <=? blen calldata) "check that there is enough calldata";
  mret offset_.

(** The loop over the siblings, from the leaf to the root. *)
Fixpoint climb (n : nat) (calldata : bytes) (offset path : Z) (node : Hash) : Hash :=
  match n with
  | O => node
  | S n =>
      let sibling := calldataload calldata offset in
      let node := if Z.odd path then HashPair Keccak256Hash sibling node else HashPair Keccak256Hash node sibling in
      climb n calldata (offset + 32) (Z.shiftr path 1) node
  end.

(** Where a word is in its leaf, in bits. *)
Definition word_shift (_addr : Z) : Z := Z.shiftl (32 - 4 - Z.land _addr 31) 3.

Definition readMem (calldata : bytes) (_addr _proofIndex : Z) (s : State) : res Z :=
  offset ← proofOffset calldata _proofIndex;
  if negb (Z.land _addr 3 =? 0) then revert ""
  else
    let leaf := calldataload calldata offset in
    let node := climb 27 calldata (offset + 32) (Z.shiftr _addr 5) leaf in
    if negb (bool_decide (node = memRoot s)) then revert "0x0badf00d"
    else mret (Z.land (evm_shr (word_shift _addr) (get_be leaf)) 0xFFffFFff).

Definition writeMem (calldata : bytes) (_addr _proofIndex _val : Z) (s : State) : res State :=
  offset ← proofOffset calldata _proofIndex;
  if negb (Z.land _addr 3 =? 0) then revert ""
  else
    let leaf := get_be (calldataload calldata offset) in
    let shamt := word_shift _addr in
    let leaf := Z.lor (Z.land leaf (evm_not (evm_shl shamt 0xFFffFFff))) (evm_shl shamt _val) in
    mret (set_memRoot (climb 27 calldata (offset + 32) (Z.shiftr _addr 5) (put_be 32 leaf)) s).

(** ** Instructions *)

Definition handleBranch (_opcode _insn _rtReg _rs : Z) (s : State) : res Hash :=
  if negb (nextPC s =? pc s +₃₂ 4) then revert "branch in delay slot"
  else
    let shouldBranch :=
      if (_opcode =? 4) || (_opcode =? 5) then
        let rt := reg _rtReg s in
        (_rs =? rt) && (_opcode =? 4) || negb (_rs =? rt) && (_opcode =? 5)
      else if _opcode =? 6 then int32 _rs <=? 0
      else if _opcode =? 7 then 0 <? int32 _rs
      else if _opcode =? 1 then
        let rtv := Z.land (shr32 _insn 16) 0x1F in
        if rtv =? 0 then int32 _rs <? 0 else if rtv =? 1 then 0 <=? int32 _rs else false
      else false in
    let prevPC := pc s in
    mret (outputState (set_pcs (nextPC s)
      (if shouldBranch then prevPC +₃₂ 4 +₃₂ shl32 (SE (Z.land _insn 0xFFFF) 16) 2 else nextPC s +₃₂ 4) s)).

Definition set_acc (acc : Z) (s : State) : State := set_hilo (u32 (Z.shiftr acc 32)) (u32 acc) s.

Definition handleHiLo (_func _rs _rt _storeReg : Z) (s : State) : res Hash :=
  '(val, s) ← switch _func
    [([0x10], Ok (hi s, s));
     ([0x11], Ok (0, set_hilo _rs (lo s) s));
     ([0x12], Ok (lo s, s));
     ([0x13], Ok (0, set_hilo (hi s) _rs s));
     ([0x18], Ok (0, set_acc (u64 (int32 _rs * int32 _rt)) s));
     ([0x19], Ok (0, set_acc (u64 (_rs * _rt)) s));
     ([0x1a], if _rt =? 0 then revert "division by zero"
              else Ok (0, set_hilo (u32 (Z.rem (int32 _rs) (int32 _rt))) (u32 (Z.quot (int32 _rs) (int32 _rt))) s));
     ([0x1b], if _rt =? 0 then revert "division by zero" else Ok (0, set_hilo (_rs mod _rt) (_rs / _rt) s))]
    (Ok (0, s));
  mret (outputState (goto_next (if negb (_storeReg =? 0) then set_reg _storeReg val s else s))).

Definition handleJump (_linkReg _dest : Z) (s : State) : res Hash :=
  if negb (nextPC s =? pc s +₃₂ 4) then revert "jump in delay slot"
  else
    let prevPC := pc s in
    let s := set_pcs (nextPC s) _dest s in
    mret (outputState (if negb (_linkReg =? 0) then set_reg _linkReg (prevPC +₃₂ 8) s else s)).

Definition handleRd (_storeReg _val : Z) (_conditional : bool) (s : State) : res Hash :=
  _ ← require (_storeReg <? 32) "valid register";
  mret (outputState (goto_next (if negb (_storeReg =? 0) && _conditional then set_reg _storeReg _val s else s))).

(** Some of the bytes of a word of memory get those at the start of [dat]. *)
Definition insert_data (mem dat datLen alignment : Z) : Z :=
  let dat := evm_shr (256 - datLen * 8) dat in
  let dat := evm_shl ((4 - datLen - alignment) * 8) dat in
  let mask := evm_shl ((4 - alignment) * 8) 1 - 1 in
  let suffixMask := evm_shl ((4 - alignment - datLen) * 8) 1 - 1 in
  let mask := Z.land mask (evm_not suffixMask) in
  Z.lor (Z.land mem (evm_not mask)) dat.

(** The key moves to the left and gets bytes of the word at its end. *)
Definition insert_key (key mem a2 space : Z) : Z :=
  let key := evm_shl (a2 * 8) key in
  let mask := evm_shl (a2 * 8) 1 - 1 in
  let mem := Z.land (evm_shr ((space - a2) * 8) mem) mask in
  Z.lor key mem.

(** [v0], [v1] and the state after it. *)
Definition sys_mmap (a0 a1 : Z) (s : State) : res (Z * Z * State) :=
  let sz := if negb (Z.land a1 4095 =? 0) then a1 +₃₂ (4096 -₃₂ Z.land a1 4095) else a1 in
  if a0 =? 0 then Ok (heap s, 0, set_heap (heap s +₃₂ sz) s) else Ok (a0, 0, s).

Definition sys_read (o : OracleContract) (calldata _localContext : bytes) (a0 a1 a2 : Z) (s : State) : res (Z * Z * State) :=
  if a0 =? 0 then Ok (0, 0, s)
  else if a0 =? 5 then
    mem ← readMem calldata (Z.land a1 0xFFffFFfc) 1 s;
    let key := if default 0 (preimageKey s !! 0%nat) =? 1 then localize (preimageKey s) _localContext else preimageKey s in
    '(dat, datLen) ← readPreimage o key (preimageOffset s);
    let alignment := Z.land a1 3 in
    let space := 4 - alignment in
    let datLen := if space <? datLen then space else datLen in
    let datLen := if a2 <? datLen then a2 else datLen in
    s ← writeMem calldata (Z.land a1 0xFFffFFfc) 1 (u32 (insert_data mem (get_be dat) datLen alignment)) s;
    Ok (u32 datLen, 0, set_preimage (preimageKey s) (preimageOffset s +₃₂ u32 datLen) s)
  else if a0 =? 3 then Ok (a2, 0, s)
  else Ok (0xFFffFFff, 0x9, s).

Definition sys_write (calldata : bytes) (a0 a1 a2 : Z) (s : State) : res (Z * Z * State) :=
  if (a0 =? 1) || (a0 =? 2) || (a0 =? 4) then Ok (a2, 0, s)
  else if a0 =? 6 then
    mem ← readMem calldata (Z.land a1 0xFFffFFfc) 1 s;
    let alignment := Z.land a1 3 in
    let space := 4 - alignment in
    let a2 := if space <? a2 then space else a2 in
    Ok (a2, 0, set_preimage (put_be 32 (insert_key (get_be (preimageKey s)) mem a2 space)) 0 s)
  else Ok (0xFFffFFff, 0x9, s).

Definition sys_fcntl (a0 a1 : Z) : Z * Z :=
  if a1 =? 3 then
    if (a0 =? 0) || (a0 =? 5) || (a0 =? 3) then (0, 0)
    else if (a0 =? 1) || (a0 =? 2) || (a0 =? 6) || (a0 =? 4) then (1, 0)
    else (0xFFffFFff, 0x9)
  else (0xFFffFFff, 0x16).

Definition handleSyscall (o : OracleContract) (calldata _localContext : bytes) (s : State) : res Hash :=
  let syscall_no := reg 2 s in
  let a0 := reg 4 s in
  let a1 := reg 5 s in
  let a2 := reg 6 s in
  if syscall_no =? 4246 then mret (outputState (set_exit (u8 a0) s))
  else
    '(v0, v1, s) ← (if syscall_no =? 4090 then sys_mmap a0 a1 s
                    else if syscall_no =? 4045 then Ok (0x40000000, 0, s)
                    else if syscall_no =? 4120 then Ok (1, 0, s)
                    else if syscall_no =? 4003 then sys_read o calldata _localContext a0 a1 a2 s
                    else if syscall_no =? 4004 then sys_write calldata a0 a1 a2 s
                    else if syscall_no =? 4055 then let '(v0, v1) := sys_fcntl a0 a1 in Ok (v0, v1, s)
                    else Ok (0, 0, s));
    mret (outputState (goto_next (set_reg 7 v1 (set_reg 2 v0 s)))).

(** ** A step *)

Definition decode_rt (insn opcode rtReg : Z) (s : State) : Z * Z :=
  if (opcode =? 0) || (opcode =? 0x1c) then (reg rtReg s, Z.land (shr32 insn 11) 0x1F)
  else if opcode <? 0x20 then
    if (opcode =? 0xC) || (opcode =? 0xD) || (opcode =? 0xe) then (Z.land insn 0xFFFF, rtReg)
    else (SE (Z.land insn 0xFFFF) 16, rtReg)
  else if (0x28 <=? opcode) || (opcode =? 0x22) || (opcode =? 0x26) then (reg rtReg s, rtReg)
  else (0, rtReg).

Definition run_instruction (o : OracleContract) (calldata _localContext : bytes) (insn opcode rtReg rs rt rdReg : Z) (s : State) : res Hash :=
  '(rs, mem, rdReg, storeAddr) ←
    (if 0x20 <=? opcode then
       let rs := rs +₃₂ SE (Z.land insn 0xFFFF) 16 in
       let addr := Z.land rs 0xFFFFFFFC in
       mem ← readMem calldata addr 1 s;
       if (0x28 <=? opcode) && negb (opcode =? 0x30) then Ok (rs, mem, 0, addr)
       else Ok (rs, mem, rdReg, uint32_ones)
     else Ok (rs, 0, rdReg, uint32_ones));
  val ← execute insn rs rt mem;
  let val := Z.land val 0xffFFffFF in
  let func := Z.land insn 0x3f in
  if (opcode =? 0) && (8 <=? func) && (func <? 0x1c) && ((func <=? 0xc) || (0x10 <=? func)) then
    if (func =? 8) || (func =? 9) then handleJump (if func =? 8 then 0 else rdReg) rs s
    else if func =? 0xa then handleRd rdReg rs (rt =? 0) s
    else if func =? 0xb then handleRd rdReg rs (negb (rt =? 0)) s
    else if func =? 0xC then handleSyscall o calldata _localContext s
    else handleHiLo func rs rt rdReg s
  else
    let s := if (opcode =? 0x38) && negb (rtReg =? 0) then set_reg rtReg 1 s else s in
    s ← (if negb (storeAddr =? uint32_ones) then writeMem calldata storeAddr 1 val s else Ok s);
    handleRd rdReg val true s.

(** The body of [step], once the state is in memory. *)
Definition step_state (o : OracleContract) (calldata _localContext : bytes) (s : State) : res Hash :=
  if negb (exited s =? 0) then mret (outputState s)
  else
    let s := set_step (step_ s +₆₄ 1) s in
    insn ← readMem calldata (pc s) 0 s;
    let opcode := shr32 insn 26 in
    if (opcode =? 2) || (opcode =? 3) then
      let target := Z.lor (Z.land (nextPC s) 0xF0000000) (shl32 (Z.land insn 0x03FFFFFF) 2) in
      handleJump (if opcode =? 2 then 0 else 31) target s
    else
      let rtReg := Z.land (shr32 insn 16) 0x1F in
      let rs := reg (Z.land (shr32 insn 21) 0x1F) s in
      let '(rt, rdReg) := decode_rt insn opcode rtReg s in
      if (4 <=? opcode) && (opcode <? 8) || (opcode =? 1) then handleBranch opcode insn rtReg rs s
      else run_instruction o calldata _localContext insn opcode rtReg rs rt rdReg s.

(** [putField] of a field: its bytes in the calldata, as a word. *)
Definition field (calldata : bytes) (c size : Z) : Z := evm_shr ((32 - size) * 8) (calldataword calldata c).

(** The state is at 132 in the calldata, field after field. *)
Definition unpack (calldata : bytes) (c : Z) : State :=
  mkState (calldataload calldata c) (calldataload calldata (c + 32)) (field calldata (c + 64) 4)
    (field calldata (c + 68) 4) (field calldata (c + 72) 4) (field calldata (c + 76) 4) (field calldata (c + 80) 4)
    (field calldata (c + 84) 4) (field calldata (c + 88) 1) (field calldata (c + 89) 1) (field calldata (c + 90) 8)
    (map (fun k => field calldata (c + 98 + 4 * Z.of_nat k) 4) (seq 0 32)).

(** A call of [step]. The checks of the layout of the memory hold for what
    the compiler makes of it. *)
Definition step (o : OracleContract) (calldata : bytes) : res Hash :=
  _ ← require (bool_decide (take 4 calldata = StepBytes4)) "unknown function";
  _ ← require (4 + 32 * 3 <=? blen calldata) "calldata too short";
  '(stateData, _) ← decode_bytes calldata 4;
  '(proof, _) ← decode_bytes calldata (4 + 32);
  let _localContext := calldataload calldata (4 + 64) in
  if negb (stateData =? 132) then revert ""
  else if negb (proof =? 420) then revert ""
  else step_state o calldata _localContext (unpack calldata stateData).
End Contract.
End MIPS.
