(* ===== verification/MipsWords.v ===== *)
(** * The words of the two machines

    What the contract does with masks and shifts on words of 256 bits is what
    the Go machine does with slices of bytes; sign extension on 256 bits gives
    what it gives on 32. *)

From S2P Require Import Prelude Eth CannonMemory CannonTree CannonVM MipsContract.

(** ** Big-endian numbers *)

Lemma get_be_app a b : get_be (a ++ b) = get_be a * 256 ^ blen b + get_be b.
Proof.
  induction b as [|x b IH] using rev_ind; [rewrite app_nil_r; unfold blen; cbn; lia|].
  rewrite app_assoc, !get_be_snoc, IH. unfold blen. rewrite length_app, Nat2Z.inj_add, Z.pow_add_r by lia. cbn [length]. lia.
Qed.

Lemma get_be_bits bs : bytes_ok bs -> 0 <= get_be bs < 2 ^ (8 * blen bs).
Proof. intros H. pose proof (get_be_range bs H) as Hr. unfold blen in *. by rewrite Z.pow_mul_r by lia. Qed.

Lemma get_be_app_bits a b : get_be (a ++ b) = get_be a * 2 ^ (8 * blen b) + get_be b.
Proof. rewrite get_be_app. unfold blen. by rewrite Z.pow_mul_r by lia. Qed.

Lemma put_be_get n bs : bytes_ok bs -> length bs = n -> put_be n (get_be bs) = bs.
Proof. intros H <-. by apply put_get_be. Qed.

(** The number in the middle of three. *)
Lemma get_be_middle p q r : bytes_ok q -> bytes_ok r ->
  Z.shiftr (get_be (p ++ q ++ r)) (8 * blen r) mod 2 ^ (8 * blen q) = get_be q.
Proof.
  intros Hq Hr. pose proof (get_be_bits q Hq). pose proof (get_be_bits r Hr). rewrite Z.shiftr_div_pow2 by (unfold blen; lia).
  rewrite app_assoc, get_be_app_bits, Z.div_add_l, (Z.div_small (get_be r)), Z.add_0_r by lia. rewrite get_be_app_bits.
  rewrite Z.add_comm, Z.mod_add by lia. by apply Z.mod_small.
Qed.

Lemma pow8_pos n : 0 < 2 ^ (8 * Z.of_nat n).
Proof. apply Z.pow_pos_nonneg; lia. Qed.

(** ** Masks *)

Lemma evm_not_bit x n : 0 <= x < 2 ^ 256 -> 0 <= n < 256 -> Z.testbit (MIPS.evm_not x) n = negb (Z.testbit x n).
Proof.
  intros Hx Hn. unfold MIPS.evm_not, MIPS.evm_ones. rewrite Z.lxor_spec. change (2 ^ 256 - 1) with (Z.ones 256).
  rewrite Z.ones_spec_low by lia. apply xorb_true_r.
Qed.

Lemma high_bit x k n : 0 <= x < 2 ^ k -> 0 <= k <= n -> Z.testbit x n = false.
Proof.
  intros Hx Hn. destruct (Z.eq_dec x 0) as [->|]; [apply Z.bits_0|]. apply Z.bits_above_log2; [lia|].
  apply Z.log2_lt_pow2; [lia|]. pose proof (Z.pow_le_mono_r 2 k n). lia.
Qed.

(** The bits [q .. q+p) of a word are replaced. *)
Lemma splice a b b' c p q : 0 <= p -> 0 <= q -> 0 <= a -> 0 <= b < 2 ^ p -> 0 <= b' < 2 ^ p -> 0 <= c < 2 ^ q ->
  p + q <= 256 -> a * 2 ^ (p + q) + b * 2 ^ q + c < 2 ^ 256 ->
  Z.lor (Z.land (a * 2 ^ (p + q) + b * 2 ^ q + c) (MIPS.evm_not (Z.shiftl (Z.ones p) q))) (Z.shiftl b' q) =
  a * 2 ^ (p + q) + b' * 2 ^ q + c.
Proof.
  intros Hp Hq Ha Hb Hb' Hc Hpq Hlt.
  assert (Hpow : 2 ^ (p + q) = 2 ^ p * 2 ^ q) by (by rewrite Z.pow_add_r by lia). assert (0 < 2 ^ q) by (apply Z.pow_pos_nonneg; lia).
  assert (Hform : forall b, 0 <= b < 2 ^ p -> a * 2 ^ (p + q) + b * 2 ^ q + c = Z.lor (Z.shiftl a (p + q)) (Z.lor (Z.shiftl b q) c)).
  { intros x Hx. rewrite (lor_add_low x q c) by lia. rewrite lor_add_low by (lia || (rewrite Hpow; nia)). lia. }
  assert (Hm : 0 <= Z.shiftl (Z.ones p) q < 2 ^ 256).
  { rewrite Z.shiftl_mul_pow2, Z.ones_equiv by lia. assert (2 ^ (p + q) <= 2 ^ 256) by (apply Z.pow_le_mono_r; lia). nia. }
  set (w := a * 2 ^ (p + q) + b * 2 ^ q + c) in *. assert (Hw : 0 <= w < 2 ^ 256) by (unfold w; nia).
  apply Z.bits_inj'. intros n Hn. rewrite Z.lor_spec, Z.land_spec, Hform by done. rewrite !Z.lor_spec, !Z.shiftl_spec by lia.
  destruct (Z.le_gt_cases 256 n) as [Hhi|Hlo].
  - rewrite (high_bit w 256) by lia. cbn [andb orb]. rewrite (high_bit c q) by lia. rewrite (high_bit b' p (n - q)) by lia.
    cbn [orb]. symmetry. rewrite orb_false_r. assert (Ha' : a < 2 ^ (256 - (p + q))).
    { apply (Z.mul_lt_mono_pos_r (2 ^ (p + q))); [rewrite Hpow; nia|]. rewrite <- Z.pow_add_r by lia.
      replace (256 - (p + q) + (p + q)) with 256 by lia. unfold w in Hw. nia. }
    apply (high_bit a (256 - (p + q))); lia.
  - rewrite evm_not_bit by lia. rewrite Z.shiftl_spec by lia. unfold w. rewrite Hform by done. rewrite !Z.lor_spec, !Z.shiftl_spec by lia.
    destruct (Z.lt_ge_cases n q) as [H1|H1]; [|destruct (Z.lt_ge_cases n (p + q)) as [H2|H2]].
    + rewrite !(Z.testbit_neg_r _ (n - q)), (Z.testbit_neg_r _ (n - (p + q))) by lia. cbn. by rewrite andb_true_r, orb_false_r.
    + rewrite (high_bit c q), (Z.testbit_neg_r _ (n - (p + q))), Z.ones_spec_low by lia. cbn. by rewrite !andb_false_r, orb_false_r.
    + rewrite (high_bit c q), (high_bit b p (n - q)), (high_bit b' p (n - q)), Z.ones_spec_high by lia. cbn. by rewrite !orb_false_r, andb_true_r.
Qed.

(** The same on bytes. *)
Lemma splice_bytes p q q' r : bytes_ok p -> bytes_ok q -> bytes_ok q' -> bytes_ok r -> length q' = length q ->
  (length p + length q + length r <= 32)%nat ->
  Z.lor (Z.land (get_be (p ++ q ++ r)) (MIPS.evm_not (Z.shiftl (Z.ones (8 * blen q)) (8 * blen r)))) (Z.shiftl (get_be q') (8 * blen r)) =
  get_be (p ++ q' ++ r).
Proof.
  intros Hp Hq Hq' Hr Hl Hlen. pose proof (get_be_bits p Hp). pose proof (get_be_bits q Hq). pose proof (get_be_bits q' Hq') as Hb. pose proof (get_be_bits r Hr).
  assert (Htot : get_be (p ++ q ++ r) < 2 ^ 256).
  { pose proof (get_be_bits (p ++ q ++ r)) as Hall. rewrite !bytes_ok_app in Hall. specialize (Hall (conj Hp (conj Hq Hr))).
    pose proof (Z.pow_le_mono_r 2 (8 * blen (p ++ q ++ r)) 256). unfold blen in *. rewrite !length_app in *. lia. }
  assert (Hbl : blen q' = blen q) by (unfold blen; lia). rewrite Hbl in Hb.
  assert (Hform : forall x, blen x = blen q -> get_be (p ++ x ++ r) = get_be p * 2 ^ (8 * blen q + 8 * blen r) + get_be x * 2 ^ (8 * blen r) + get_be r).
  { intros x Hx. rewrite !get_be_app_bits. replace (8 * blen (x ++ r)) with (8 * blen q + 8 * blen r) by (unfold blen in *; rewrite length_app; lia). lia. }
  rewrite Hform in Htot |- * by done. rewrite Hform by done. unfold blen in *. apply splice; lia.
Qed.

Lemma three_parts i j b : 0 <= i <= j -> j <= blen b -> b = take (Z.to_nat i) b ++ slice i j b ++ drop (Z.to_nat j) b.
Proof.
  intros Hi Hj. rewrite <- (take_drop (Z.to_nat i) b) at 1. f_equal. unfold slice.
  rewrite <- (take_drop (Z.to_nat (j - i)) (drop (Z.to_nat i) b)) at 1. f_equal. rewrite drop_drop. f_equal. lia.
Qed.

Lemma copy_at_parts i src b : 0 <= i -> i + blen src <= blen b -> copy_at i src b = take (Z.to_nat i) b ++ src ++ drop (Z.to_nat (i + blen src)) b.
Proof. intros Hi Hl. unfold copy_at, blen in *. rewrite (take_ge src) by lia. do 2 f_equal. f_equal. lia. Qed.

Lemma evm_shl_small n x k : 0 <= n < 256 -> 0 <= x < 2 ^ k -> 0 <= k -> n + k <= 256 -> MIPS.evm_shl n x = Z.shiftl x n.
Proof.
  intros Hn Hx Hk Hs. unfold MIPS.evm_shl. destruct (Z.leb_spec 256 n); [lia|]. apply Z.mod_small. rewrite Z.shiftl_mul_pow2 by lia.
  assert (0 < 2 ^ n) by (apply Z.pow_pos_nonneg; lia). assert (2 ^ n * 2 ^ k <= 2 ^ 256); [|nia].
  rewrite <- Z.pow_add_r by lia. apply Z.pow_le_mono_r; lia.
Qed.

Lemma evm_shl_1 n : 0 <= n < 256 -> MIPS.evm_shl n 1 - 1 = Z.ones n.
Proof. intros Hn. rewrite (evm_shl_small n 1 1) by lia. rewrite Z.shiftl_1_l, Z.ones_equiv. lia. Qed.

(** ** A word of a leaf *)

Lemma land_31 addr : Z.land addr 31 = addr mod 32.
Proof. change 31 with (Z.ones 5). by rewrite Z.land_ones. Qed.

Lemma word_in_leaf addr leaf : word_addr addr -> is_array 32 leaf ->
  exists p q r, leaf = p ++ q ++ r /\ q = slice (addr mod 32) (addr mod 32 + 4) leaf /\ length p = Z.to_nat (addr mod 32) /\ length q = 4%nat /\
    bytes_ok p /\ bytes_ok q /\ bytes_ok r /\ MIPS.word_shift addr = 8 * blen r /\ blen r = 28 - addr mod 32 /\ 0 <= addr mod 32 <= 28 /\
    forall x, length x = 4%nat -> copy_at (addr mod 32) x leaf = p ++ x ++ r.
Proof.
  intros [Hu Ha] [Hl Hb]. unfold is_u32 in Hu. assert (Hi : 0 <= addr mod 32 <= 28) by ulia. set (i := addr mod 32) in *.
  exists (take (Z.to_nat i) leaf), (slice i (i + 4) leaf), (drop (Z.to_nat (i + 4)) leaf).
  assert (Hr : blen (drop (Z.to_nat (i + 4)) leaf) = 28 - i) by (unfold blen; rewrite length_drop; lia).
  split_and!; try (apply bytes_ok_take || apply bytes_ok_drop || unfold slice); auto using bytes_ok_take, bytes_ok_drop; try lia.
  - apply three_parts; unfold blen; lia.
  - rewrite length_take. lia.
  - rewrite length_take, length_drop. lia.
  - unfold MIPS.word_shift. rewrite land_31, Z.shiftl_mul_pow2 by lia. change (2 ^ 3) with 8. fold i. lia.
  - intros x Hx. rewrite copy_at_parts by (unfold blen; lia). unfold blen. by rewrite Hx.
Qed.

Lemma read_word addr leaf : word_addr addr -> is_array 32 leaf ->
  Z.land (MIPS.evm_shr (MIPS.word_shift addr) (get_be leaf)) 0xFFffFFff = get_be (slice (addr mod 32) (addr mod 32 + 4) leaf).
Proof.
  intros Ha Hleaf. destruct (word_in_leaf addr leaf Ha Hleaf) as (p & q & r & Hpqr & Hq & _ & Hlq & Hbp & Hbq & Hbr & Hs & Hr & Hi & _).
  rewrite <- Hq, Hpqr, Hs. unfold MIPS.evm_shr. destruct (Z.leb_spec 256 (8 * blen r)); [lia|].
  change 0xFFffFFff with (Z.ones 32). rewrite Z.land_ones by lia. rewrite <- (get_be_middle p q r Hbq Hbr). unfold blen. by rewrite Hlq.
Qed.

Lemma write_word addr leaf val : word_addr addr -> is_array 32 leaf -> is_u32 val ->
  put_be 32 (Z.lor (Z.land (get_be leaf) (MIPS.evm_not (MIPS.evm_shl (MIPS.word_shift addr) 0xFFffFFff))) (MIPS.evm_shl (MIPS.word_shift addr) val)) =
  copy_at (addr mod 32) (put_be 4 val) leaf.
Proof.
  intros Ha Hleaf Hv. destruct (word_in_leaf addr leaf Ha Hleaf) as (p & q & r & Hpqr & Hq & Hlp & Hlq & Hbp & Hbq & Hbr & Hs & Hr & Hi & Hc).
  rewrite Hc by apply length_put_be. unfold is_u32 in Hv. rewrite Hs. rewrite (evm_shl_small _ 0xFFffFFff 32), (evm_shl_small _ val 32) by lia.
  assert (Hval : val = get_be (put_be 4 val)) by (rewrite get_put_be; [done|]; change (256 ^ Z.of_nat 4) with (2 ^ 32); lia).
  rewrite Hpqr. rewrite Hval at 1. change 0xFFffFFff with (Z.ones 32). replace (Z.ones 32) with (Z.ones (8 * blen q)) by (unfold blen; by rewrite Hlq).
  assert (Hlr : length r = Z.to_nat (28 - addr mod 32)) by (unfold blen in Hr; lia).
  rewrite splice_bytes; [|done|done|apply put_be_ok|done|by rewrite length_put_be|lia].
  apply put_be_get; [rewrite !bytes_ok_app; auto using put_be_ok|]. rewrite !length_app, length_put_be. lia.
Qed.

(** ** The data of a pre-image, and the key of one *)

Lemma masks A B : 0 <= B <= A -> A < 256 -> Z.land (Z.ones A) (MIPS.evm_not (Z.ones B)) = Z.shiftl (Z.ones (A - B)) B.
Proof.
  intros HB HA. apply Z.bits_inj'. intros n Hn. rewrite Z.land_spec, Z.shiftl_spec by lia.
  assert (H0 : 0 <= Z.ones B < 2 ^ 256).
  { rewrite Z.ones_equiv. assert (0 < 2 ^ B) by (apply Z.pow_pos_nonneg; lia). pose proof (Z.pow_le_mono_r 2 B 256). lia. }
  destruct (Z.lt_ge_cases n A) as [H1|H1].
  - rewrite Z.ones_spec_low, evm_not_bit by lia. destruct (Z.lt_ge_cases n B) as [H2|H2].
    + rewrite Z.ones_spec_low, Z.testbit_neg_r by lia. done.
    + rewrite Z.ones_spec_high, Z.ones_spec_low by lia. done.
  - rewrite Z.ones_spec_high by lia. rewrite Z.ones_spec_high by lia. done.
Qed.

Lemma insert_data_spec w dat dl al : is_array 4 w -> is_array 32 dat -> 0 <= al < 4 -> 0 <= dl <= 4 - al ->
  MIPS.insert_data (get_be w) (get_be dat) dl al = get_be (copy_at al (take (Z.to_nat dl) dat) w).
Proof.
  intros [Hlw Hbw] [Hld Hbd] Hal Hdl. unfold MIPS.insert_data. set (q' := take (Z.to_nat dl) dat).
  assert (Hlq' : length q' = Z.to_nat dl) by (unfold q'; rewrite length_take; lia). assert (Hbq' : bytes_ok q') by by apply bytes_ok_take.
  assert (Hd : MIPS.evm_shr (256 - dl * 8) (get_be dat) = get_be q').
  { unfold MIPS.evm_shr. rewrite <- (take_drop (Z.to_nat dl) dat). fold q'. rewrite get_be_app_bits.
    pose proof (get_be_bits (drop (Z.to_nat dl) dat) (bytes_ok_drop _ _ Hbd)) as Hr.
    replace (8 * blen (drop (Z.to_nat dl) dat)) with (256 - dl * 8) in * by (unfold blen; rewrite length_drop; lia).
    destruct (Z.leb_spec 256 (256 - dl * 8)).
    - unfold q'. replace (Z.to_nat dl) with 0%nat by lia. done.
    - rewrite Z.shiftr_div_pow2, Z.div_add_l, (Z.div_small (get_be (drop _ _))) by lia. lia. }
  rewrite Hd. pose proof (get_be_bits q' Hbq') as Hq. assert (Hq8 : 8 * blen q' = dl * 8) by (unfold blen; lia). rewrite Hq8 in Hq.
  rewrite (evm_shl_small _ (get_be q') (dl * 8)), !evm_shl_1 by lia. rewrite masks by lia.
  rewrite copy_at_parts by (unfold blen; lia). replace (blen q') with dl by lia.
  rewrite (three_parts al (al + dl) w) at 1 by (unfold blen; lia).
  assert (Hr8 : 8 * blen (drop (Z.to_nat (al + dl)) w) = (4 - dl - al) * 8) by (unfold blen; rewrite length_drop; lia).
  assert (Hs8 : 8 * blen (slice al (al + dl) w) = (4 - al) * 8 - (4 - al - dl) * 8) by (unfold blen; rewrite length_slice; unfold blen; lia).
  replace ((4 - al - dl) * 8) with ((4 - dl - al) * 8) in Hs8 |- * by lia. rewrite <- Hs8, <- Hr8.
  assert (Hsl : length (slice al (al + dl) w) = Z.to_nat dl) by (rewrite length_slice; unfold blen; lia).
  apply splice_bytes; try done; [apply bytes_ok_take, Hbw|by apply bytes_ok_take, bytes_ok_drop|by apply bytes_ok_drop|by rewrite Hsl|].
  rewrite Hsl, length_take, length_drop. lia.
Qed.

Lemma insert_key_spec key w a2 al : is_array 32 key -> is_array 4 w -> 0 <= al < 4 -> 0 <= a2 <= 4 - al ->
  MIPS.insert_key (get_be key) (get_be w) a2 (4 - al) = get_be (drop (Z.to_nat a2) key ++ slice al (al + a2) w).
Proof.
  intros [Hlk Hbk] [Hlw Hbw] Hal Ha2. unfold MIPS.insert_key. set (d := drop (Z.to_nat a2) key). set (q := slice al (al + a2) w).
  assert (Hbd : bytes_ok d) by by apply bytes_ok_drop. assert (Hbq : bytes_ok q) by (by apply bytes_ok_take, bytes_ok_drop).
  assert (Hlq : blen q = a2) by (unfold blen, q; rewrite length_slice; unfold blen; lia).
  assert (Hld : blen d = 32 - a2) by (unfold blen, d; rewrite length_drop; lia).
  pose proof (get_be_bits d Hbd) as Hd. pose proof (get_be_bits q Hbq) as Hq. rewrite Hlq in Hq. rewrite Hld in Hd.
  assert (Hk : MIPS.evm_shl (a2 * 8) (get_be key) = Z.shiftl (get_be d) (8 * a2)).
  { unfold MIPS.evm_shl. destruct (Z.leb_spec 256 (a2 * 8)); [lia|]. rewrite <- (take_drop (Z.to_nat a2) key). fold d.
    rewrite get_be_app_bits, Hld, !Z.shiftl_mul_pow2 by lia. replace (a2 * 8) with (8 * a2) by lia. rewrite Z.mul_add_distr_r, <- Z.mul_assoc, <- Z.pow_add_r by lia.
    replace (8 * (32 - a2) + 8 * a2) with 256 by lia. rewrite Z.add_comm, Z.mod_add by lia. apply Z.mod_small.
    assert (0 < 2 ^ (8 * a2)) by (apply Z.pow_pos_nonneg; lia). assert (Hp : 2 ^ (8 * (32 - a2)) * 2 ^ (8 * a2) = 2 ^ 256) by (rewrite <- Z.pow_add_r by lia; f_equal; lia). nia. }
  rewrite Hk, evm_shl_1 by lia. rewrite Z.land_ones by lia.
  assert (Hm : MIPS.evm_shr ((4 - al - a2) * 8) (get_be w) mod 2 ^ (a2 * 8) = get_be q).
  { unfold MIPS.evm_shr. destruct (Z.leb_spec 256 ((4 - al - a2) * 8)); [lia|]. rewrite (three_parts al (al + a2) w) by (unfold blen; lia). fold q.
    replace ((4 - al - a2) * 8) with (8 * blen (drop (Z.to_nat (al + a2)) w)) by (unfold blen; rewrite length_drop; lia).
    replace (a2 * 8) with (8 * blen q) by lia. apply get_be_middle; [done|by apply bytes_ok_drop]. }
  rewrite Hm, lor_add_low by lia. by rewrite get_be_app_bits, Hlq.
Qed.

(** ** Words of 32 bits *)

Lemma switch_rel {A B} (R : A -> B -> Prop) x l l' d d' :
  Forall2 (fun a b => a.1 = b.1 /\ R a.2 b.2) l l' -> R d d' -> R (switch x l d) (switch x l' d').
Proof.
  intros Hl Hd. induction Hl as [|[a y] [b z] l l' [He Hr] Hl IH]; cbn [switch]; [done|]. cbn in He, Hr. subst b. by destruct (existsb _ a).
Qed.

Lemma switch_all {A} (P : A -> Prop) x l d : Forall (fun a => P a.2) l -> P d -> P (switch x l d).
Proof. intros Hl Hd. induction Hl as [|[a y] l Hy Hl IH]; cbn [switch]; [done|]. by destruct (existsb _ a). Qed.

Lemma add32_range x y : is_u32 (x +₃₂ y).
Proof. apply u32_range. Qed.
Lemma sub32_range x y : is_u32 (x -₃₂ y).
Proof. apply u32_range. Qed.
Lemma shl32_range x n : is_u32 (shl32 x n).
Proof. unfold shl32. destruct (_ <=? _); [done|apply u32_range]. Qed.
Lemma shr32_range x n : 0 <= n -> is_u32 x -> is_u32 (shr32 x n).
Proof.
  unfold shr32, is_u32. intros Hn Hx. destruct (_ <=? _); [done|]. rewrite Z.shiftr_div_pow2 by lia.
  assert (1 <= 2 ^ n) by (apply (Z.pow_le_mono_r 2 0); lia). split; [apply Z.div_pos; lia|]. apply Z.div_lt_upper_bound; nia.
Qed.

Lemma u32_of_bits x : 0 <= x -> (forall n, 32 <= n -> Z.testbit x n = false) -> is_u32 x.
Proof.
  intros Hx Hb. split; [done|]. destruct (Z.eq_dec x 0) as [->|]; [done|]. apply Z.log2_lt_pow2; [lia|].
  destruct (Z.lt_ge_cases (Z.log2 x) 32) as [|Hl]; [done|]. specialize (Hb _ Hl). rewrite Z.bit_log2 in Hb by lia. done.
Qed.

Lemma u32_bit x n : is_u32 x -> 32 <= n -> Z.testbit x n = false.
Proof. intros Hx Hn. apply (high_bit x 32); [exact Hx|lia]. Qed.

Lemma land_range x y : is_u32 x -> 0 <= y -> is_u32 (Z.land x y).
Proof.
  intros Hx Hy. apply u32_of_bits; [apply Z.land_nonneg; unfold is_u32 in Hx; lia|]. intros n Hn. by rewrite Z.land_spec, (u32_bit x) by done.
Qed.
Lemma lor_range x y : is_u32 x -> is_u32 y -> is_u32 (Z.lor x y).
Proof.
  intros Hx Hy. apply u32_of_bits; [apply Z.lor_nonneg; unfold is_u32 in *; lia|]. intros n Hn. by rewrite Z.lor_spec, (u32_bit x), (u32_bit y) by done.
Qed.
Lemma lxor_range x y : is_u32 x -> is_u32 y -> is_u32 (Z.lxor x y).
Proof.
  intros Hx Hy. apply u32_of_bits; [apply Z.lxor_nonneg; unfold is_u32 in *; lia|]. intros n Hn. by rewrite Z.lxor_spec, (u32_bit x), (u32_bit y) by done.
Qed.
Lemma not32_range x : is_u32 x -> is_u32 (not32 x).
Proof. intros. apply lxor_range; [done|by vm_compute]. Qed.

#[export] Hint Resolve u32_range add32_range sub32_range shl32_range shr32_range land_range lor_range lxor_range not32_range : mips.

Lemma land_ones32 x : is_u32 x -> Z.land x 0xFFffFFff = x.
Proof. intros Hx. change 0xFFffFFff with (Z.ones 32). rewrite Z.land_ones by lia. by apply Z.mod_small. Qed.

Lemma int32_mod x : u32 (int32 x) = u32 x.
Proof. unfold int32, u32. destruct (_ <? _); [done|]. rewrite Zminus_mod, Z_mod_same_full, Z.sub_0_r. apply Zmod_mod. Qed.

(** ** Sign extension *)

Definition se_mask (idx : Z) : Z := shl32 1 idx -₃₂ 1.
Definition se_signed (idx : Z) : Z := shl32 (shl32 1 (32 -₃₂ idx) -₃₂ 1) idx.

(** The masks of both machines, for every index that sign extension is for. *)
Lemma se_masks idx : 0 <= idx <= 32 ->
  (MIPS.evm_shl idx 1 - 1) mod 2 ^ 256 = Z.ones idx /\
  MIPS.evm_shl idx ((MIPS.evm_shl (32 -₃₂ idx) 1 - 1) mod 2 ^ 256) = (if idx =? 0 then 2 ^ 32 - 1 else se_signed idx) /\
  se_mask idx = Z.ones idx.
Proof.
  intros Hi. assert (H : forallb (fun k => let idx := Z.of_nat k in
      ((MIPS.evm_shl idx 1 - 1) mod 2 ^ 256 =? Z.ones idx) &&
      (MIPS.evm_shl idx ((MIPS.evm_shl (32 -₃₂ idx) 1 - 1) mod 2 ^ 256) =? (if idx =? 0 then 2 ^ 32 - 1 else se_signed idx)) &&
      (se_mask idx =? Z.ones idx)) (seq 0 33) = true) by (vm_compute; reflexivity).
  rewrite forallb_forall in H. specialize (H (Z.to_nat idx)). rewrite Z2Nat.id in H by lia.
  assert (Hin : List.In (Z.to_nat idx) (seq 0 33)) by (apply in_seq; lia). specialize (H Hin).
  cbn beta zeta in H. rewrite !andb_true_iff, !Z.eqb_eq in H. tauto.
Qed.

Lemma SE_range dat idx : is_u32 dat -> is_u32 (SE dat idx).
Proof.
  intros Hd. assert (Hm : is_u32 (Z.land dat (shl32 1 idx -₃₂ 1))) by (apply land_range; [done|apply sub32_range]).
  unfold SE. destruct (negb _); auto with mips.
Qed.

Lemma SE_eq dat idx : is_u32 dat -> is_u32 idx -> MIPS.SE dat idx = SE dat idx.
Proof.
  intros Hd Hi. pose proof (SE_range dat idx Hd) as Hr. unfold MIPS.SE. destruct (Z.le_gt_cases idx 32) as [Hle|Hgt].
  - unfold is_u32 in Hi. destruct (se_masks idx ltac:(lia)) as (Hm & Hs & Hg). rewrite Hm, Hs. unfold SE in *. fold (se_mask idx) (se_signed idx) in *.
    rewrite Hg in *. destruct (Z.eqb_spec idx 0) as [->|Hne].
    + change (0 -₃₂ 1) with (2 ^ 32 - 1). unfold shr32. cbn [Z.leb]. change (32 <=? 2 ^ 32 - 1) with true. cbn [Z.eqb negb]. by rewrite Z.lor_0_r, Z.land_0_r.
    + destruct (negb _); [by apply u32_id|]. rewrite Z.lor_0_r. by apply u32_id.
  - unfold is_u32 in Hi. assert (H0 : shr32 dat (idx -₃₂ 1) = 0).
    { unfold shr32. destruct (Z.leb_spec 32 (idx -₃₂ 1)) as [|H]; [done|]. unfold sub32, u32 in H. rewrite Z.mod_small in H; lia. }
    unfold SE in *. rewrite H0 in *. cbn [Z.eqb negb] in *. rewrite Z.lor_0_r.
    assert (Hgo : Z.land dat (shl32 1 idx -₃₂ 1) = dat).
    { unfold shl32. destruct (Z.leb_spec 32 idx); [|lia]. change (0 -₃₂ 1) with 0xFFffFFff. by apply land_ones32. }
    rewrite Hgo. assert (Hsol : Z.land dat ((MIPS.evm_shl idx 1 - 1) mod 2 ^ 256) = dat).
    { destruct (Z.lt_ge_cases idx 256).
      - rewrite evm_shl_1 by lia. rewrite Z.mod_small. 2: { rewrite Z.ones_equiv. pose proof (Z.pow_le_mono_r 2 idx 256). assert (0 < 2 ^ idx) by (apply Z.pow_pos_nonneg; lia). lia. }
        rewrite Z.land_ones by lia. apply Z.mod_small. unfold is_u32 in Hd. pose proof (Z.pow_le_mono_r 2 32 idx). lia.
      - unfold MIPS.evm_shl. destruct (Z.leb_spec 256 idx); [|lia]. change ((0 - 1) mod 2 ^ 256) with (Z.ones 256).
        rewrite Z.land_ones by lia. apply Z.mod_small. unfold is_u32 in Hd. lia. }
    rewrite Hsol. by apply u32_id.
Qed.

(** ** The instructions of the arithmetic *)

Lemma byte_shift_range rs : 0 <= byte_shift rs <= 24.
Proof. unfold byte_shift. change 3 with (Z.ones 2). rewrite Z.land_ones by lia. ulia. Qed.
Lemma left_range rs : 0 <= Z.land rs 3 * 8 <= 24.
Proof. change 3 with (Z.ones 2). rewrite Z.land_ones by lia. ulia. Qed.
Lemma half_shift_range rs : 0 <= half_shift rs <= 16.
Proof.
  unfold half_shift. assert (H : Z.land rs 2 = Z.land (rs mod 2 ^ 2) 2) by (by rewrite <- (Z.land_ones rs 2), <- Z.land_assoc by lia).
  pose proof (Z.mod_pos_bound rs (2 ^ 2) ltac:(lia)) as Hb.
  assert (Hc : rs mod 2 ^ 2 = 0 \/ rs mod 2 ^ 2 = 1 \/ rs mod 2 ^ 2 = 2 \/ rs mod 2 ^ 2 = 3) by lia. rewrite H.
  destruct Hc as [-> |[-> |[-> | ->]]]; by vm_compute.
Qed.
Lemma shamt_range insn : 0 <= Z.land (shr32 insn 6) 0x1F < 32.
Proof. change 0x1F with (Z.ones 5). rewrite Z.land_ones by lia. apply Z.mod_pos_bound. lia. Qed.

Lemma merge_range w m v : is_u32 w -> is_u32 m -> is_u32 v -> is_u32 (merge w m v).
Proof. intros. unfold merge. apply lor_range; [|done]. apply land_range; [done|]. apply not32_range. done. Qed.

#[export] Hint Resolve SE_range merge_range : mips.

(** The operands are words, and so is the result. *)
Definition ok_u32 (r : res Z) : Prop := match r with Ok v => is_u32 v | Err _ => True end.

Lemma leading_ones_range n rs i : is_u32 i -> is_u32 (leading_ones n rs i).
Proof. revert rs i. induction n as [|n IH]; intros rs i Hi; cbn [leading_ones]; [done|]. destruct (negb _); auto with mips. Qed.

Lemma bit_range (b : bool) : is_u32 (if b then 1 else 0).
Proof. by destruct b. Qed.

Lemma shr32_byte_range x rs : is_u32 x -> is_u32 (shr32 x (byte_shift rs)).
Proof. intros. apply shr32_range; [apply byte_shift_range|done]. Qed.
Lemma shr32_half_range x rs : is_u32 x -> is_u32 (shr32 x (half_shift rs)).
Proof. intros. apply shr32_range; [apply half_shift_range|done]. Qed.
Lemma shr32_left_range x rs : is_u32 x -> is_u32 (shr32 x (Z.land rs 3 * 8)).
Proof. intros. apply shr32_range; [apply left_range|done]. Qed.
Lemma ones_range : is_u32 uint32_ones.
Proof. by vm_compute. Qed.
Lemma land_5_nonneg x : 0 <= Z.land x 0x1F.
Proof. apply Z.land_nonneg. lia. Qed.
Lemma u32_nonneg x : is_u32 x -> 0 <= x.
Proof. unfold is_u32. lia. Qed.

#[export] Hint Resolve bit_range shr32_byte_range shr32_half_range shr32_left_range ones_range land_5_nonneg u32_nonneg leading_ones_range : mips.

(** Every case of a switch. *)
Ltac every_case := repeat (apply Forall_cons_2; [cbn [snd ok_u32]|]); [..|apply Forall_nil_2].

Lemma execute_special_range insn rs rt : is_u32 rs -> is_u32 rt -> ok_u32 (execute_special insn rs rt).
Proof. intros Hs Ht. unfold execute_special. apply switch_all; [|done]. every_case; auto with mips. Qed.

Lemma execute_other_range insn rs rt mem : is_u32 rs -> is_u32 rt -> is_u32 mem -> ok_u32 (execute_other insn rs rt mem).
Proof.
  intros Hs Ht Hm. unfold execute_other. apply switch_all; [|done]. every_case; auto 6 with mips.
  apply switch_all; [|done]. every_case; [auto with mips|by apply leading_ones_range].
Qed.

Lemma execute_range insn rs rt mem : is_u32 rs -> is_u32 rt -> is_u32 mem -> ok_u32 (execute insn rs rt mem).
Proof.
  intros. unfold execute. destruct (_ || _); [by apply execute_special_range|by apply execute_other_range].
Qed.

(** The contract computes the same word, and reverts where the machine panics. *)
Definition same_word_res (r r' : res Z) : Prop :=
  match r with Ok v => r' = Ok v | Err _ => exists e, r' = Err e end.

Lemma leading_ones_eq n rs i : MIPS.leading_ones n rs i = leading_ones n rs i.
Proof. reflexivity. Qed.

Lemma execute_eq insn rs rt mem : is_u32 rs -> is_u32 rt -> is_u32 mem ->
  same_word_res (execute insn rs rt mem) (MIPS.execute insn rs rt mem).
Proof.
  intros Hs Ht Hm. unfold execute, MIPS.execute. destruct (_ || _).
  - unfold execute_special, MIPS.execute_special. apply switch_rel; [|by eexists].
    rewrite !SE_eq by auto with mips. repeat (constructor; [split; [done|done]|]). constructor.
  - unfold execute_other, MIPS.execute_other. apply switch_rel; [|by eexists].
    rewrite !SE_eq by (auto with mips || done).
    constructor; [split; [done|]|repeat (constructor; [split; [done|done]|]); constructor].
    cbn [snd]. apply switch_rel; [|by eexists]. repeat (constructor; [split; [done|done]|]). constructor.
Qed.
