(* ===== verification/CannonTypes.v ===== *)
(** * The machine keeps its state well formed

    The registers and counters of the fault proof VM stay within their widths,
    register 0 stays 0 and the memory keeps its invariant, through every
    instruction and system call; and what a read of a range of memory gives
    does not depend on the buffers it is read into. *)

From S2P Require Import Prelude Eth CannonMemory CannonTree CannonVM MipsContract MipsWords.

Record vs_wf (Keccak256Hash : bytes -> Hash) (s : State) : Prop := {
  wf_Memory : mem_inv Keccak256Hash (vs_Memory s);
  wf_PreimageKey : is_hash (vs_PreimageKey s);
  wf_PreimageOffset : is_u32 (vs_PreimageOffset s);
  wf_PC : is_u32 (vs_PC s);
  wf_NextPC : is_u32 (vs_NextPC s);
  wf_LO : is_u32 (vs_LO s);
  wf_HI : is_u32 (vs_HI s);
  wf_Heap : is_u32 (vs_Heap s);
  wf_ExitCode : is_u8 (vs_ExitCode s);
  wf_Step : is_u64 (vs_Step s);
  wf_Registers : length (vs_Registers s) = 32%nat;
  wf_register : forall i, is_u32 (reg i s);
  wf_zero : reg 0 s = 0;
}.

Lemma reg_set_reg i j v s : length (vs_Registers s) = 32%nat -> 0 <= i < 32 -> 0 <= j -> reg j (set_reg i v s) = if decide (j = i) then v else reg j s.
Proof.
  intros Hl Hi Hj. unfold reg, set_reg. cbn [vs_Registers]. rewrite default_insert by lia.
  destruct (decide (j = i)) as [->|]; [by rewrite decide_True|by rewrite decide_False by lia].
Qed.

Section Types.
Variable Keccak256Hash : bytes -> Hash.
#[local] Notation wf := (vs_wf Keccak256Hash).

Ltac wf_fields := match goal with H : wf _ |- _ => destruct H; split; cbn in *; auto with mips end.

Lemma wf_set_Memory m s : wf s -> mem_inv Keccak256Hash m -> wf (set_Memory m s).
Proof using. intros. wf_fields. Qed.
Lemma wf_set_Preimage key o s : wf s -> is_hash key -> is_u32 o -> wf (set_Preimage key o s).
Proof using. intros. wf_fields. Qed.
Lemma wf_set_pcs x y s : wf s -> is_u32 x -> is_u32 y -> wf (set_pcs x y s).
Proof using. intros. wf_fields. Qed.
Lemma wf_set_hilo x y s : wf s -> is_u32 x -> is_u32 y -> wf (set_hilo x y s).
Proof using. intros. wf_fields. Qed.
Lemma wf_set_Heap x s : wf s -> is_u32 x -> wf (set_Heap x s).
Proof using. intros. wf_fields. Qed.
Lemma wf_set_exit x s : wf s -> is_u8 x -> wf (set_exit x s).
Proof using. intros. wf_fields. Qed.
Lemma wf_set_Step x s : wf s -> is_u64 x -> wf (set_Step x s).
Proof using. intros. wf_fields. Qed.
Lemma wf_set_LastHint x s : wf s -> wf (set_LastHint x s).
Proof using. intros. wf_fields. Qed.

Lemma reg_at i s : wf s -> 0 <= i < 32 -> exists v, vs_Registers s !! Z.to_nat i = Some v /\ reg i s = v.
Proof using.
  intros Hw Hi. destruct (lookup_lt_is_Some_2 (vs_Registers s) (Z.to_nat i)) as [v Hv]; [rewrite (wf_Registers _ _ Hw); lia|].
  exists v. split; [done|]. unfold reg. by rewrite Hv.
Qed.

Lemma wf_set_reg i v s : wf s -> 1 <= i < 32 -> is_u32 v -> wf (set_reg i v s).
Proof using.
  intros Hw Hi Hv. pose proof (wf_Registers _ _ Hw) as Hl. assert (Hr : forall j, is_u32 (reg j (set_reg i v s))).
  { intros j. pose proof (wf_register _ _ Hw j) as Hj. unfold reg, set_reg in *. cbn [vs_Registers]. rewrite default_insert by lia. by destruct (decide _). }
  assert (H0 : reg 0 (set_reg i v s) = 0).
  { rewrite reg_set_reg by (done || lia). rewrite decide_False by lia. by apply Hw. }
  destruct Hw; split; auto. cbn [set_reg vs_Registers]. by rewrite length_insert.
Qed.

Lemma wf_goto_next s : wf s -> wf (goto_next s).
Proof using. intros. apply wf_set_pcs; [done|by apply wf_NextPC with Keccak256Hash|auto with mips]. Qed.

(** ** Instructions that leave the memory alone *)

Lemma handleBranch_wf opcode insn rtReg rs s s' : wf s -> handleBranch opcode insn rtReg rs s = Ok s' -> wf s'.
Proof using.
  unfold handleBranch. intros Hw H. destruct (negb _); [done|]. injection H as <-.
  apply wf_set_pcs; [done|by eapply wf_NextPC|]. destruct (if (opcode =? 4) || (opcode =? 5) then _ else _); auto with mips.
Qed.

Lemma set_acc_wf acc s : wf s -> wf (set_acc acc s).
Proof using. intros. apply wf_set_hilo; auto with mips. Qed.

Lemma handleHiLo_wf fun_ rs rt storeReg s s' : wf s -> is_u32 rs -> is_u32 rt -> 0 <= storeReg < 32 ->
  handleHiLo fun_ rs rt storeReg s = Ok s' -> wf s'.
Proof using.
  intros Hw Hs Ht Hr. unfold handleHiLo. set (r := switch _ _ _).
  assert (H : match r with Ok (val, s1) => is_u32 val /\ wf s1 | Err _ => True end).
  { unfold is_u32 in Hs, Ht. apply (switch_all (fun r => match r with Ok (val, s1) => is_u32 val /\ wf s1 | Err _ => True end)); [|by split].
    pose proof (wf_HI _ _ Hw). pose proof (wf_LO _ _ Hw).
    every_case; try (split; [done|]); try (by auto using wf_set_hilo, set_acc_wf, u32_range).
    - destruct (Z.eqb_spec rt 0); [done|]. split; [done|]. apply wf_set_hilo; auto with mips.
    - destruct (Z.eqb_spec rt 0); [done|]. split; [done|]. apply wf_set_hilo; [done| |].
      + unfold is_u32. pose proof (Z.mod_pos_bound rs rt). lia.
      + unfold is_u32. split; [apply Z.div_pos; lia|]. apply Z.div_lt_upper_bound; nia. }
  destruct r as [[val s1]|e]; [|done]. destruct H as [Hv H1]. cbn [mbind]. intros Heq. injection Heq as <-.
  apply wf_goto_next. destruct (Z.eqb_spec storeReg 0); cbn [negb]; [done|]. apply wf_set_reg; (done || lia).
Qed.

Lemma handleJump_wf linkReg dest s s' : wf s -> 0 <= linkReg < 32 -> is_u32 dest -> handleJump linkReg dest s = Ok s' -> wf s'.
Proof using.
  intros Hw Hl Hd. unfold handleJump. destruct (negb _); [done|]. intros H. injection H as <-.
  assert (H1 : wf (set_pcs (vs_NextPC s) dest s)) by (apply wf_set_pcs; [done|by eapply wf_NextPC|done]).
  destruct (Z.eqb_spec linkReg 0); cbn [negb]; [done|]. apply wf_set_reg; auto with mips lia.
Qed.

Lemma handleRd_wf storeReg val conditional s s' : wf s -> 0 <= storeReg -> is_u32 val -> handleRd storeReg val conditional s = Ok s' -> wf s'.
Proof using.
  intros Hw Hr Hv. unfold handleRd. destruct (Z.leb_spec 32 storeReg); [done|]. intros Heq. injection Heq as <-.
  apply wf_goto_next. destruct (Z.eqb_spec storeReg 0), conditional; cbn [negb andb]; try done. apply wf_set_reg; (done || lia).
Qed.

(** ** Reading ranges *)

Lemma same_trans m m1 m2 : same Keccak256Hash m m1 -> same Keccak256Hash m1 m2 -> same Keccak256Hash m m2.
Proof using. intros [] []. split; congruence. Qed.

Lemma same_refl m : mem_inv Keccak256Hash m -> same Keccak256Hash m m.
Proof using. by split. Qed.

(** [n] bytes of the memory from an address that may wrap around. *)
Definition mem_byte (m : Memory) (addr : Z) : Z := default 0 (page_data m (u32 addr / 4096) !! Z.to_nat (u32 addr mod 4096)).
Definition mem_bytes (m : Memory) (addr : Z) (n : nat) : bytes := map (fun k => mem_byte m (addr + Z.of_nat k)) (seq 0 n).

Lemma mem_bytes_app m addr a b : mem_bytes m addr (a + b) = mem_bytes m addr a ++ mem_bytes m (addr + Z.of_nat a) b.
Proof using.
  induction b as [|b IH]; [by rewrite Nat.add_0_r, app_nil_r|]. unfold mem_bytes in *. rewrite Nat.add_succ_r, !seq_S, !map_app, IH, <- app_assoc.
  cbn [map]. do 4 f_equal. lia.
Qed.

Lemma length_mem_bytes m addr n : length (mem_bytes m addr n) = n.
Proof using. unfold mem_bytes. by rewrite length_map, length_seq. Qed.

Lemma page_slice m addr n : mem_inv Keccak256Hash m -> is_u32 addr -> addr mod 4096 + Z.of_nat n <= 4096 ->
  slice (addr mod 4096) (addr mod 4096 + Z.of_nat n) (page_data m (addr / 4096)) = mem_bytes m addr n.
Proof using.
  intros Hm Hu Hn. destruct (page_data_array _ m (addr / 4096) Hm) as [Hl _]. unfold is_u32 in Hu. apply list_eq. intros k.
  destruct (decide (k < n)%nat) as [Hk|Hk].
  - rewrite slice_lookup by ulia. unfold mem_bytes. rewrite list_lookup_fmap, lookup_seq_lt by done. cbn [fmap option_fmap option_map].
    unfold mem_byte. replace (u32 (addr + Z.of_nat (0 + k)) / 4096) with (addr / 4096) by ulia.
    replace (Z.to_nat (u32 (addr + Z.of_nat (0 + k)) mod 4096)) with (Z.to_nat (addr mod 4096) + k)%nat by ulia.
    destruct (lookup_lt_is_Some_2 (page_data m (addr / 4096)) (Z.to_nat (addr mod 4096) + k)) as [b Hb]; [ulia|]. by rewrite Hb.
  - rewrite !lookup_ge_None_2; [done|rewrite length_mem_bytes; lia|]. rewrite length_slice; unfold blen; ulia.
Qed.

Lemma mr_Read_same n r m m' x : mem_inv Keccak256Hash m -> is_u32 (mr_addr r) -> mr_Read n r m = (m', Ok x) ->
  same Keccak256Hash m m' /\ is_u32 (mr_addr x.1).
Proof using.
  intros Hm Hu. unfold mr_Read. destruct (_ =? 0); [intros H; injection H as <- <-; split; [by apply same_refl|done]|].
  rewrite !shiftr_page, !land_page. unfold is_u32 in Hu. unfold mbind, stM_bind. cbv zeta beta.
  destruct (pageLookup_spec Keccak256Hash m (mr_addr r / 4096) Hm ltac:(ulia)) as (m1 & -> & Hs).
  destruct (mm_pages m !! (mr_addr r / 4096)) as [l|]; [rewrite bool_decide_true by done|rewrite bool_decide_false by (intros [? ?]; done)].
  - unfold load_page. destruct (page_at m1 (Some l)) as [p|]; cbn [deref]; [|done]. destruct (_ <? _); [done|].
    intros H. injection H as <- <-. split; [done|apply add32_range].
  - intros H. injection H as <- <-. split; [done|apply add32_range].
Qed.

Lemma read_all_same fuel lens r m m' bs : mem_inv Keccak256Hash m -> is_u32 (mr_addr r) -> read_all fuel lens r m = (m', Ok bs) -> same Keccak256Hash m m'.
Proof using.
  revert r m m' bs. induction fuel as [|fuel IH]; intros r m m' bs Hm Hu; cbn [read_all]; [done|]. intros H.
  apply stM_bind_ok in H as (m1 & [r1 [b e]] & Hr & H). apply mr_Read_same in Hr as [Hs Hu1]; [|done..]. cbn [fst] in Hu1. destruct e.
  - by injection H as <- <-.
  - apply stM_bind_ok in H as (m2 & rest & Hrest & H). injection H as <- <-. apply IH in Hrest; [|apply Hs|done]. by eapply same_trans.
Qed.

(** A read that does not come back to its first page. *)
Lemma mr_Read_spec n r m : mem_inv Keccak256Hash m -> is_u32 (mr_addr r) -> 0 < n -> 0 < mr_count r <= 2 ^ 32 - 4096 ->
  exists m' k, same Keccak256Hash m m' /\ 0 < Z.of_nat k <= mr_count r /\
    mr_Read n r m = (m', Ok (mkMemReader (u32 (mr_addr r + Z.of_nat k)) (mr_count r - Z.of_nat k), (mem_bytes m (mr_addr r) k, None))).
Proof using.
  intros Hm Hu Hn Hc. destruct (page_data_array Keccak256Hash m (mr_addr r / 4096) Hm) as [Hl _]. unfold is_u32 in Hu. set (a := mr_addr r) in *.
  unfold mr_Read. fold a. destruct (Z.eqb_spec (mr_count r) 0); [lia|]. rewrite !shiftr_page, !land_page. unfold mbind, stM_bind. cbv zeta beta.
  set (end_ := if _ =? _ then _ else _). assert (Hend : a mod 4096 < end_ <= 4096 /\ end_ - a mod 4096 <= mr_count r).
  { unfold end_, PageSize. change (Z.shiftl 1 PageAddrSize) with 4096. unfold add32, u32. destruct (Z.eqb_spec (a / 4096) ((a + mr_count r) mod 2 ^ 32 / 4096)); ulia. }
  clearbody end_. set (w := Z.to_nat (end_ - a mod 4096)). exists (pageLookup (a / 4096) m).1, (Nat.min (Z.to_nat n) w).
  destruct (pageLookup_spec Keccak256Hash m (a / 4096) Hm ltac:(ulia)) as (m1 & Hlook & Hs). rewrite Hlook. cbn [fst]. split; [done|]. split; [lia|].
  assert (Hbytes : take (Z.to_nat n) (slice (a mod 4096) end_ (page_data m (a / 4096))) = mem_bytes m a (Nat.min (Z.to_nat n) w)).
  { rewrite <- page_slice by (done || lia). unfold slice. rewrite take_take. f_equal. lia. }
  assert (Hlen : forall b, b = mem_bytes m a (Nat.min (Z.to_nat n) w) -> blen b = Z.of_nat (Nat.min (Z.to_nat n) w)) by (intros b ->; unfold blen; by rewrite length_mem_bytes).
  assert (Hdone : forall b, b = mem_bytes m a (Nat.min (Z.to_nat n) w) ->
    (m1, Ok (mkMemReader (a +₃₂ blen b) (mr_count r -₃₂ blen b), (b, @None go_error))) =
    (m1, Ok (mkMemReader (u32 (a + Z.of_nat (Nat.min (Z.to_nat n) w))) (mr_count r - Z.of_nat (Nat.min (Z.to_nat n) w)),
      (mem_bytes m a (Nat.min (Z.to_nat n) w), None)))).
  { intros b Hb. rewrite (Hlen b Hb), Hb. do 4 f_equal. unfold sub32. apply u32_id. unfold is_u32. lia. }
  destruct (mm_pages m !! (a / 4096)) as [l|] eqn:Hp.
  - rewrite bool_decide_true by done. destruct (mi_store _ m _ l Hm Hp) as [p Hpp]. unfold load_page, page_at. cbn [mbind option_bind].
    rewrite (sm_store _ _ _ Hs), Hpp. cbn [deref]. destruct (Z.ltb_spec end_ (a mod 4096)); [lia|]. unfold mret, stM_ret. apply Hdone.
    by rewrite <- Hbytes, (page_data_at m _ l p).
  - rewrite bool_decide_false by (intros [? ?]; done). unfold mret, stM_ret. apply Hdone. rewrite <- Hbytes. unfold page_data. rewrite Hp. cbn [mbind option_bind].
    pose proof (Z.mod_pos_bound a 4096 ltac:(lia)). rewrite slice_zeros by lia. unfold zeros. rewrite !take_replicate. f_equal. unfold sub32. rewrite u32_id by (unfold is_u32; lia). lia.
Qed.

Lemma read_all_spec fuel lens r m : mem_inv Keccak256Hash m -> is_u32 (mr_addr r) -> (forall k, 0 < lens k) ->
  0 <= mr_count r <= 2 ^ 32 - 4096 -> mr_count r < Z.of_nat fuel ->
  exists m', read_all fuel lens r m = (m', Ok (mem_bytes m (mr_addr r) (Z.to_nat (mr_count r)))) /\ same Keccak256Hash m m'.
Proof using.
  intros Hm Hu Hlens. revert r m Hm Hu. induction fuel as [|fuel IH]; intros r m Hm Hu Hc Hf; [lia|]. cbn [read_all].
  destruct (Z.eq_dec (mr_count r) 0) as [H0|H0].
  - exists m. unfold mbind, stM_bind, mr_Read. rewrite H0. split; [done|by apply same_refl].
  - destruct (mr_Read_spec (lens fuel) r m Hm Hu (Hlens fuel) ltac:(lia)) as (m1 & k & Hs & Hk & Hr). unfold mbind, stM_bind. rewrite Hr.
    destruct (IH (mkMemReader (u32 (mr_addr r + Z.of_nat k)) (mr_count r - Z.of_nat k)) m1) as (m2 & Hrest & Hs2); cbn [mr_addr mr_count]; [by apply Hs|apply u32_range|lia..|].
    cbn [mr_addr mr_count] in Hrest. rewrite Hrest. exists m2. split; [|by eapply same_trans]. unfold mret, stM_ret. do 2 f_equal.
    replace (Z.to_nat (mr_count r)) with (k + Z.to_nat (mr_count r - Z.of_nat k))%nat by lia. rewrite mem_bytes_app. f_equal.
    unfold mem_bytes. apply map_ext. intros j. unfold mem_byte. rewrite (same_data Keccak256Hash m m1) by done.
    replace (u32 (u32 (mr_addr r + Z.of_nat k) + Z.of_nat j)) with (u32 (mr_addr r + Z.of_nat k + Z.of_nat j)); [done|].
    unfold u32. by rewrite Zplus_mod_idemp_l.
Qed.

(** The bytes do not depend on the lengths of the buffers. *)
Lemma ReadMemoryRange_spec lens addr count m : mem_inv Keccak256Hash m -> is_u32 addr -> (forall k, 0 < lens k) -> 0 <= count <= 2 ^ 32 - 4096 ->
  exists m', ReadMemoryRange lens addr count m = (m', Ok (mem_bytes m addr (Z.to_nat count))) /\ same Keccak256Hash m m'.
Proof using. intros. unfold ReadMemoryRange. apply (read_all_spec _ lens (mkMemReader addr count)); cbn [mr_addr mr_count]; (done || lia). Qed.
End Types.

(** ** The machine *)

Section Machine.
Context {Oracle : Type} `{!PreimageOracle Oracle}.
Variable Keccak256Hash : bytes -> Hash.
Variable lens : nat -> Z.
#[local] Notation wf := (vs_wf Keccak256Hash).
#[local] Notation IS := (InstrumentedState (Oracle := Oracle)).

(** A call that returns keeps the state well formed and gives a value with a
    property. *)
Definition keeps {A} (f : stM IS A) (P : A -> Prop) : Prop :=
  forall i i' a, wf (is_state i) -> f i = (i', Ok a) -> wf (is_state i') /\ P a.

Lemma keeps_bind {A B} (f : stM IS A) (g : A -> stM IS B) P Q : keeps f P -> (forall a, P a -> keeps (g a) Q) -> keeps (f ≫= g) Q.
Proof using. intros Hf Hg i i' b Hw H. apply stM_bind_ok in H as (i1 & a & H1 & H2). apply Hf in H1 as [Hw1 Ha]; [|done]. by eapply Hg. Qed.

Lemma keeps_ret {A} (a : A) (P : A -> Prop) : P a -> keeps (mret a) P.
Proof using. intros Ha i i' b Hw H. by injection H as <- <-. Qed.

Lemma keeps_gets {A} (f : IS -> A) (P : A -> Prop) : (forall i, wf (is_state i) -> P (f i)) -> keeps (gets f) P.
Proof using. intros Hf i i' b Hw H. injection H as <- <-. auto. Qed.

Lemma keeps_modify f : (forall i, wf (is_state i) -> wf (is_state (f i))) -> keeps (modify f) (fun _ => True).
Proof using. intros Hf i i' b Hw H. injection H as <-. auto. Qed.

Lemma keeps_on_state f : (forall s, wf s -> wf (f s)) -> keeps (on_state f) (fun _ => True).
Proof using. intros Hf. apply keeps_modify. intros i. apply Hf. Qed.

Lemma keeps_try_state f : (forall s s', wf s -> f s = Ok s' -> wf s') -> keeps (try_state f) (fun _ => True).
Proof using. intros Hf i i' b Hw. unfold try_state. destruct (f (is_state i)) as [s|] eqn:Hs; [|done]. intros H. injection H as <-. split; [by eapply Hf|done]. Qed.

Lemma keeps_throw {A} e (P : A -> Prop) : keeps (throw e) P.
Proof using. by intros i i' b _ H. Qed.

Lemma keeps_lift {A} (r : res A) P : (forall a, r = Ok a -> P a) -> keeps (lift r) P.
Proof using. intros Hr i i' b Hw H. injection H as <- Hb. auto. Qed.

Lemma keeps_on_memory {A} (f : stM Memory A) P :
  (forall m m' a, mem_inv Keccak256Hash m -> f m = (m', Ok a) -> mem_inv Keccak256Hash m' /\ P a) -> keeps (on_memory f) P.
Proof using.
  intros Hf i i' a Hw. unfold on_memory. destruct (f _) as [m [b|]] eqn:Hm; [|done]. intros H. injection H as <- <-.
  apply Hf in Hm as [Hi Hb]; [|by apply Hw]. split; [by apply wf_set_Memory|done].
Qed.

Lemma keeps_on_oracle {A} (f : stM Oracle A) : keeps (on_oracle f) (fun _ => True).
Proof using. intros i i' a Hw. unfold on_oracle. destruct (f _) as [o r]. intros H. by injection H as <- _. Qed.

Lemma keeps_weaken {A} (f : stM IS A) (P Q : A -> Prop) : keeps f P -> (forall a, P a -> Q a) -> keeps f Q.
Proof using. intros Hf HPQ i i' a Hw H. apply Hf in H as [? ?]; auto. Qed.

(** ** The memory of the machine *)

Lemma word_addr_mask a : is_u32 a -> word_addr (Z.land a 0xFFFFFFFC).
Proof using.
  intros Ha. assert (H : Z.land a 0xFFFFFFFC = a - a mod 4).
  { replace (a - a mod 4) with (4 * (a / 4)) by ulia. unfold is_u32 in Ha.
    assert (Hq : 0 <= a / 4 < 2 ^ 30) by ulia. replace (4 * (a / 4)) with (Z.shiftl (a / 4) 2) by (rewrite Z.shiftl_mul_pow2 by lia; lia).
    apply Z.bits_inj'. intros n Hn. rewrite Z.land_spec, Z.shiftl_spec by lia. change 0xFFFFFFFC with (Z.shiftl (Z.ones 30) 2). rewrite Z.shiftl_spec by lia.
    destruct (Z.lt_ge_cases n 2); [by rewrite !(Z.testbit_neg_r _ (n - 2)), andb_false_r by lia|].
    change 4 with (2 ^ 2). rewrite <- Z.shiftr_div_pow2, Z.shiftr_spec by lia. replace (n - 2 + 2) with n by lia.
    destruct (Z.lt_ge_cases n 32); [by rewrite Z.ones_spec_low, andb_true_r by lia|]. by rewrite Z.ones_spec_high, andb_false_r, (u32_bit a) by (lia || exact Ha). }
  unfold word_addr, is_u32 in *. rewrite H. ulia.
Qed.

Lemma keeps_GetMemory addr : is_u32 addr -> keeps (on_memory (GetMemory addr)) is_u32.
Proof using.
  intros Ha. apply keeps_on_memory. intros m m' v Hm H. destruct (Z.eq_dec (addr mod 4) 0) as [H0|H0].
  - destruct (GetMemory_spec Keccak256Hash m addr Hm (conj Ha H0)) as (m1 & Hg & Hs). rewrite Hg in H. injection H as <- <-.
    split; [by apply Hs|]. by apply (mem_word_u32 Keccak256Hash).
  - by rewrite GetMemory_unaligned in H.
Qed.

Lemma keeps_SetMemory addr v : is_u32 addr -> keeps (on_memory (SetMemory addr v)) (fun _ => True).
Proof using.
  intros Ha. apply keeps_on_memory. intros m m' [] Hm H. split; [|done]. destruct (Z.eq_dec (addr mod 4) 0) as [H0|H0].
  - destruct (SetMemory_spec Keccak256Hash m addr v Hm (conj Ha H0)) as (m1 & Hg & Hs & _). rewrite Hg in H. by injection H as <-.
  - unfold SetMemory in H. rewrite land_3 in H. by destruct (Z.eqb_spec (addr mod 4) 0).
Qed.

Lemma keeps_ReadMemoryRange addr count : is_u32 addr -> keeps (on_memory (ReadMemoryRange lens addr count)) (fun _ => True).
Proof using.
  intros Ha. apply keeps_on_memory. intros m m' bs Hm H. split; [|done]. apply (read_all_same Keccak256Hash) in H; [by apply H|done|done].
Qed.

Lemma keeps_trackMemAccess addr : is_u32 addr -> keeps (trackMemAccess Keccak256Hash addr) (fun _ => True).
Proof using.
  intros Ha. unfold trackMemAccess. eapply keeps_bind; [by apply (keeps_gets _ (fun _ => True))|intros enabled _].
  eapply keeps_bind; [by apply (keeps_gets _ (fun _ => True))|intros last _]. destruct (_ && _); [|by apply keeps_ret].
  destruct (negb _); [apply keeps_throw|]. eapply keeps_bind; [by apply (keeps_gets _ (fun _ => True))|intros memProof _].
  eapply keeps_bind; [by apply keeps_modify|intros _ _]. eapply keeps_bind; [|intros proof _; by apply keeps_modify].
  apply keeps_on_memory. intros m m' p Hm H. destruct (MerkleProof_spec Keccak256Hash m addr Hm Ha) as (m1 & Hp & Hc).
  rewrite Hp in H. injection H as <- _. split; [by apply Hc|exact I].
Qed.

(** ** System calls *)

Lemma copy32_spec src : length (copy32 src).1 = 32%nat /\ 0 <= (copy32 src).2 <= 32.
Proof using. unfold copy32, blen. cbn [fst snd]. rewrite length_take, length_app. unfold zeros. rewrite length_replicate. lia. Qed.

Lemma keeps_readPreimage key offset : keeps (readPreimage key offset) (fun '(_, n) => 0 <= n <= 32).
Proof using.
  unfold readPreimage. eapply keeps_bind; [by apply (keeps_gets _ (fun _ => True))|intros last _].
  eapply (keeps_bind _ _ (fun _ => True)).
  - case_bool_decide; [by apply keeps_ret|]. eapply keeps_bind; [by apply (keeps_gets _ (fun _ => True))|intros last' _].
    eapply keeps_bind; [by apply keeps_modify|intros _ _]. eapply keeps_bind; [apply keeps_on_oracle|intros data _]. by apply keeps_modify.
  - intros _ _. eapply keeps_bind; [by apply keeps_modify|intros _ _]. eapply keeps_bind; [by apply (keeps_gets _ (fun _ => True))|intros preimage _].
    destruct (_ <? _); [apply keeps_throw|]. apply keeps_ret. apply copy32_spec.
Qed.

Lemma keeps_process_hints fuel : keeps (process_hints fuel) (fun _ => True).
Proof using.
  induction fuel as [|fuel IH]; cbn [process_hints]; [by apply keeps_ret|]. eapply keeps_bind; [by apply (keeps_gets _ (fun _ => True))|intros buf _].
  destruct (_ <? _); [by apply keeps_ret|]. destruct (_ <=? _); [|by apply keeps_ret]. destruct (_ || _); [apply keeps_throw|].
  eapply keeps_bind; [apply keeps_on_state; intros s; apply wf_set_LastHint|intros _ _]. eapply keeps_bind; [apply keeps_on_oracle|intros _ _]. exact IH.
Qed.

Lemma keeps_write_hints data : keeps (write_hints data) (fun _ => True).
Proof using.
  unfold write_hints. eapply keeps_bind; [by apply (keeps_gets _ (fun _ => True))|intros buf _].
  eapply keeps_bind; [apply keeps_on_state; intros s; apply wf_set_LastHint|intros _ _]. apply keeps_process_hints.
Qed.

(** The pair of results of a system call. *)
Definition two_u32 (v : Z * Z) : Prop := is_u32 v.1 /\ is_u32 v.2.

Lemma keeps_pair a b : is_u32 a -> is_u32 b -> keeps (mret (a, b)) two_u32.
Proof using. intros. by apply keeps_ret. Qed.

Lemma keeps_sys_mmap a0 a1 : is_u32 a0 -> keeps (sys_mmap a0 a1) two_u32.
Proof using.
  intros Ha. unfold sys_mmap. destruct (a0 =? 0); [|by apply keeps_pair]. eapply keeps_bind; [apply (keeps_gets _ is_u32); intros i Hw; by apply Hw|].
  intros heap Hh. eapply keeps_bind; [|intros _ _; by apply keeps_pair]. apply keeps_on_state. intros s Hw. apply wf_set_Heap; auto with mips.
Qed.

Lemma alignment_range a : 0 <= Z.land a 3 < 4.
Proof using. change 3 with (Z.ones 2). rewrite Z.land_ones by lia. apply Z.mod_pos_bound. lia. Qed.

Lemma keeps_read_preimage_word a1 a2 : is_u32 a1 -> is_u32 a2 -> keeps (read_preimage_word Keccak256Hash a1 a2) two_u32.
Proof using.
  intros H1 H2. destruct (word_addr_mask a1 H1) as [Hu _]. unfold read_preimage_word.
  eapply keeps_bind; [by apply keeps_trackMemAccess|intros _ _]. eapply keeps_bind; [by apply keeps_GetMemory|intros mem Hmem].
  eapply keeps_bind; [by apply (keeps_gets _ (fun _ => True))|intros key _]. eapply keeps_bind; [by apply (keeps_gets _ (fun _ => True))|intros offset _].
  eapply keeps_bind; [apply keeps_readPreimage|intros [dat n] Hn]. eapply keeps_bind; [by apply keeps_SetMemory|intros _ _].
  eapply keeps_bind; [|intros _ _; apply keeps_pair; [|done]].
  - apply keeps_on_state. intros s Hw. apply wf_set_Preimage; [done|by apply Hw|auto with mips].
  - pose proof (alignment_range a1). unfold is_u32 in *. repeat case_match; lia.
Qed.

Lemma copy_at_array n i src dst : is_array n dst -> bytes_ok src -> (Z.to_nat i <= n)%nat -> is_array n (copy_at i src dst).
Proof using. intros [Hl Hb] Hs Hi. split; [rewrite length_copy_at; lia|by apply copy_at_ok]. Qed.

Lemma keeps_write_preimage_key a1 a2 : is_u32 a1 -> is_u32 a2 -> keeps (write_preimage_key Keccak256Hash a1 a2) two_u32.
Proof using.
  intros H1 H2. destruct (word_addr_mask a1 H1) as [Hu _]. unfold write_preimage_key.
  eapply keeps_bind; [by apply keeps_trackMemAccess|intros _ _]. eapply keeps_bind; [by apply keeps_GetMemory|intros mem Hmem].
  eapply keeps_bind; [apply (keeps_gets _ is_hash); intros i Hw; by apply Hw|intros key Hkey]. cbv zeta. set (n := if _ <? a2 then _ else a2).
  assert (Hn : 0 <= n <= 4 /\ is_u32 n).
  { unfold n. pose proof (alignment_range a1). unfold is_u32 in *. destruct (Z.ltb_spec (4 - Z.land a1 3) a2); lia. }
  clearbody n. destruct Hn as [Hn Hnu]. eapply keeps_bind; [|intros _ _; by apply keeps_pair]. apply keeps_on_state. intros s Hw.
  apply wf_set_Preimage; [done| |done]. apply copy_at_array; [|apply bytes_ok_drop, put_be_ok|lia]. apply copy_at_array; [done|apply bytes_ok_drop, Hkey|lia].
Qed.

Lemma keeps_sys_read a0 a1 a2 : is_u32 a1 -> is_u32 a2 -> keeps (sys_read Keccak256Hash a0 a1 a2) two_u32.
Proof using.
  intros. unfold sys_read. destruct (_ =? _); [by apply keeps_pair|]. destruct (_ =? _); [by apply keeps_read_preimage_word|].
  destruct (_ =? _); by apply keeps_pair.
Qed.

Lemma keeps_sys_write a0 a1 a2 : is_u32 a1 -> is_u32 a2 -> keeps (sys_write Keccak256Hash lens a0 a1 a2) two_u32.
Proof using.
  intros. unfold sys_write.
  destruct (_ =? _); [|destruct (_ =? _); [|destruct (_ =? _)]].
  - eapply keeps_bind; [by apply keeps_ReadMemoryRange|intros out _]. eapply keeps_bind; [by apply keeps_modify|intros _ _]. by apply keeps_pair.
  - eapply keeps_bind; [by apply keeps_ReadMemoryRange|intros out _]. eapply keeps_bind; [by apply keeps_modify|intros _ _]. by apply keeps_pair.
  - eapply keeps_bind; [by apply keeps_ReadMemoryRange|intros out _]. eapply keeps_bind; [apply keeps_write_hints|intros _ _]. by apply keeps_pair.
  - destruct (_ =? _); [by apply keeps_write_preimage_key|by apply keeps_pair].
Qed.

Lemma sys_fcntl_range a0 a1 : two_u32 (sys_fcntl a0 a1).
Proof using. unfold sys_fcntl. destruct (_ =? _); [|by vm_compute]. apply switch_all; [|by vm_compute]. every_case; by vm_compute. Qed.

Lemma keeps_handleSyscall : keeps (handleSyscall Keccak256Hash lens) (fun _ => True).
Proof using.
  unfold handleSyscall. eapply keeps_bind; [apply (keeps_gets _ wf); auto|intros s Hs]. cbv zeta. pose proof (wf_register _ _ Hs) as Hr.
  destruct (_ =? _).
  - apply keeps_on_state. intros s' Hw. apply wf_set_exit; [done|]. unfold is_u8, u8. apply Z.mod_pos_bound. lia.
  - apply (keeps_bind _ _ two_u32).
    + apply (switch_all (fun f => keeps f two_u32)); [|by apply keeps_pair].
      every_case; auto using keeps_sys_mmap, keeps_sys_read, keeps_sys_write; try by apply keeps_pair.
      apply keeps_ret, sys_fcntl_range.
    + intros [v0 v1] [H0 H1]. cbn [fst snd] in H0, H1. apply keeps_on_state. intros s' Hw. apply wf_goto_next.
      apply wf_set_reg; [apply wf_set_reg; (done || lia)|lia|done].
Qed.

(** ** The step *)

Lemma five_bits x : 0 <= Z.land x 0x1F < 32.
Proof using. change 0x1F with (Z.ones 5). rewrite Z.land_ones by lia. apply Z.mod_pos_bound. lia. Qed.

Lemma imm_range insn : is_u32 (Z.land insn 0xFFFF).
Proof using. change 0xFFFF with (Z.ones 16). rewrite Z.land_ones by lia. pose proof (Z.mod_pos_bound insn (2 ^ 16) ltac:(lia)). unfold is_u32. lia. Qed.

Lemma decode_rt_range insn opcode rtReg s : wf s -> 0 <= rtReg < 32 ->
  is_u32 (decode_rt insn opcode rtReg s).1 /\ 0 <= (decode_rt insn opcode rtReg s).2 < 32.
Proof using.
  intros Hw Hr. pose proof (wf_register _ _ Hw) as Hg. pose proof (five_bits (shr32 insn 11)). pose proof (imm_range insn). unfold decode_rt.
  repeat (destruct (_ || _) || destruct (_ <? _)); cbn [fst snd]; try (split; [|done]); auto using SE_range; done.
Qed.

Lemma keeps_run_instruction insn opcode rtReg rs rt rdReg : is_u32 rs -> is_u32 rt -> 0 <= rtReg < 32 -> 0 <= rdReg < 32 ->
  keeps (run_instruction Keccak256Hash lens insn opcode rtReg rs rt rdReg) (fun _ => True).
Proof using.
  intros Hs Ht Hrt Hrd. unfold run_instruction.
  apply (keeps_bind _ _ (fun '(rs, mem, rdReg, storeAddr) => is_u32 rs /\ is_u32 mem /\ 0 <= rdReg < 32 /\ is_u32 storeAddr)).
  - destruct (_ <=? _); [|by apply keeps_ret]. cbv zeta. pose proof (add32_range rs (SE (Z.land insn 65535) 16)) as Hrs.
    destruct (word_addr_mask _ Hrs) as [Hu _]. eapply keeps_bind; [by apply keeps_trackMemAccess|intros _ _].
    eapply keeps_bind; [by apply keeps_GetMemory|intros mem Hm]. destruct (_ && _); by apply keeps_ret.
  - intros [[[rs' mem] rd] addr] (Hrs & Hmem & Hd & Haddr). eapply (keeps_bind _ _ is_u32).
    + apply keeps_lift. intros v Hv. pose proof (execute_range insn rs' rt mem Hrs Ht Hmem) as He. by rewrite Hv in He.
    + intros val Hval. cbv zeta. destruct (_ && _ && _ && _).
      * repeat case_match; try apply keeps_handleSyscall; apply keeps_try_state; intros s s' Hw Hok.
        all: first [eapply handleJump_wf in Hok|eapply handleRd_wf in Hok|eapply handleHiLo_wf in Hok]; eauto; lia.
      * eapply (keeps_bind _ _ (fun _ => True)).
        { destruct (_ && _) eqn:Hc; [|by apply keeps_ret]. apply keeps_on_state. intros s Hw. apply wf_set_reg; [done| |by vm_compute].
          apply andb_true_iff in Hc as [_ Hc]. apply negb_true_iff, Z.eqb_neq in Hc. lia. }
        intros _ _. eapply (keeps_bind _ _ (fun _ => True)).
        { destruct (negb _); [|by apply keeps_ret]. eapply keeps_bind; [by apply keeps_trackMemAccess|intros _ _]. by apply keeps_SetMemory. }
        intros _ _. apply keeps_try_state. intros s s' Hw Hok. eapply handleRd_wf in Hok; eauto; lia.
Qed.

Lemma keeps_mipsStep : keeps (mipsStep Keccak256Hash lens) (fun _ => True).
Proof using.
  unfold mipsStep. eapply keeps_bind; [apply (keeps_gets _ wf); auto|intros s Hs]. destruct (vs_Exited s); [by apply keeps_ret|].
  eapply keeps_bind; [apply keeps_on_state; intros s' Hw; apply wf_set_Step; [done|]; unfold is_u64, add64, u64; apply Z.mod_pos_bound; lia|intros _ _].
  eapply keeps_bind; [apply keeps_GetMemory; by apply Hs|intros insn Hi]. cbv zeta. destruct (_ || _).
  - apply keeps_try_state. intros s1 s2 Hw. apply handleJump_wf; [done|by destruct (_ =? _)|]. apply lor_range; [|apply shl32_range].
    apply land_range; [by apply Hs|done].
  - pose proof (decode_rt_range insn (shr32 insn 26) (Z.land (shr32 insn 16) 31) s Hs (five_bits _)) as [Hrt Hrd].
    destruct (decode_rt _ _ _ _) as [rt rd]. cbn [fst snd] in Hrt, Hrd. destruct (_ || _).
    + apply keeps_try_state. intros s1 s2 Hw. by apply handleBranch_wf.
    + apply keeps_run_instruction; [apply (wf_register _ _ Hs)|done|apply five_bits|done].
Qed.

Lemma keeps_proof m m' addr p : mem_inv Keccak256Hash m -> is_u32 addr -> MerkleProof Keccak256Hash addr m = (m', Ok p) -> mem_inv Keccak256Hash m'.
Proof using.
  intros Hm Ha H. destruct (MerkleProof_spec Keccak256Hash m addr Hm Ha) as (m1 & Hp & Hc). rewrite Hp in H. injection H as <- _. by apply Hc.
Qed.

Lemma keeps_EncodeWitness : keeps (EncodeWitness Keccak256Hash) (fun _ => True).
Proof using.
  unfold EncodeWitness. eapply keeps_bind; [apply (keeps_on_memory _ (fun _ => True))|intros root _].
  - intros m m' h Hm H. destruct (MerkleRoot_spec Keccak256Hash m Hm) as (m1 & Hr & Hc). rewrite Hr in H.
    injection H as <- _. split; [by apply Hc|done].
  - eapply keeps_bind; [by apply (keeps_gets _ (fun _ => True))|intros s _]. by apply keeps_ret.
Qed.

Lemma keeps_Step proof : keeps (Step Keccak256Hash lens proof) (fun _ => True).
Proof using.
  unfold Step. eapply keeps_bind; [by apply keeps_modify|intros _ _]. eapply (keeps_bind _ _ (fun _ => True)).
  - destruct proof; [|by apply keeps_ret]. eapply keeps_bind; [apply (keeps_gets _ is_u32); intros i Hw; by apply Hw|intros pc Hpc].
    eapply keeps_bind; [apply (keeps_on_memory _ (fun _ => True)); intros m m' p Hm H; split; [by eapply keeps_proof|done]|intros insnProof _].
    eapply keeps_bind; [apply keeps_EncodeWitness|intros state _]. by apply keeps_ret.
  - intros wit _. eapply keeps_bind; [apply keeps_mipsStep|intros _ _]. eapply keeps_bind; [by apply (keeps_gets _ (fun _ => True))|intros i _].
    destruct wit; [|by apply keeps_ret]. destruct (negb _); by apply keeps_ret.
Qed.
End Machine.
