(* ===== verification/CannonSafety.v ===== *)
(** * The contract executes the step of the machine

    Merkle proofs of the memory verify on chain, before and after a write, and
    a step of the Go machine that returns a witness is a step of the contract
    on the calldata made of that witness, with the same state hash. The oracle
    contract serves what the machine has read once the input made of the
    witness was sent to it. *)

From S2P Require Import Prelude Eth CannonMemory CannonTree CannonVM MipsContract MipsWords CannonTypes.

(** The state of the machine as the contract has it. *)
Definition sol_of (Keccak256Hash : bytes -> Hash) (s : State) : MIPS.State :=
  MIPS.mkState (mem_root Keccak256Hash (vs_Memory s)) (vs_PreimageKey s) (vs_PreimageOffset s) (vs_PC s) (vs_NextPC s) (vs_LO s)
    (vs_HI s) (vs_Heap s) (vs_ExitCode s) (if vs_Exited s then 1 else 0) (vs_Step s) (vs_Registers s).

Section Proofs.
Variable Keccak256Hash : bytes -> Hash.
#[local] Notation mem_node := (mem_node Keccak256Hash).
#[local] Notation mem_root := (mem_root Keccak256Hash).
#[local] Notation siblings := (siblings Keccak256Hash).
#[local] Notation mem_inv := (mem_inv Keccak256Hash).

(** ** Climbing *)

Lemma node_up m y : 1 <= y / 2 < 2 ^ 27 ->
  mem_node m (y / 2) = if Z.odd y then HashPair Keccak256Hash (mem_node m (sibling y)) (mem_node m y)
                       else HashPair Keccak256Hash (mem_node m y) (mem_node m (sibling y)).
Proof using.
  intros Hy. set (p := y / 2) in *. pose proof (half_parity y) as Hpar. fold p in Hpar.
  assert (Hl : Z.log2 p < 27) by (apply Z.log2_lt_pow2; lia). pose proof (Z.log2_nonneg p).
  assert (Hstep : mem_node m p = HashPair Keccak256Hash (mem_node m (2 * p)) (mem_node m (2 * p + 1))).
  { unfold CannonTree.mem_node. replace (Z.log2 (2 * p)) with (Z.log2 p + 1) by (rewrite Z.log2_double by lia; lia).
    replace (Z.log2 (2 * p + 1)) with (Z.log2 p + 1) by (rewrite Z.log2_succ_double by lia; lia).
    rewrite (tree_step _ _ (27 - Z.log2 p)) by lia. by replace (27 - (Z.log2 p + 1)) with (27 - Z.log2 p - 1) by lia. }
  rewrite Hstep, sibling_cases by (destruct (Z.odd y); lia). destruct (Z.odd y); rewrite Hpar.
  - by replace (2 * p + 1 - 1) with (2 * p) by lia.
  - done.
Qed.

Lemma climb_up m cd offset addr n j : is_u32 addr -> (j + n <= 27)%nat ->
  (forall k, (k < n)%nat -> MIPS.calldataload cd (offset + 32 * Z.of_nat k) = mem_node m (sibling (leaf_index addr / 2 ^ Z.of_nat (j + k)))) ->
  MIPS.climb Keccak256Hash n cd offset (Z.shiftr (Z.shiftr addr 5) (Z.of_nat j)) (mem_node m (leaf_index addr / 2 ^ Z.of_nat j)) =
  mem_node m (leaf_index addr / 2 ^ Z.of_nat (j + n)).
Proof using.
  intros Hu. revert offset j. induction n as [|n IH]; intros offset j Hj Hcd; cbn [MIPS.climb]; [by rewrite Nat.add_0_r|].
  set (y := leaf_index addr / 2 ^ Z.of_nat j) in *. specialize (Hcd 0%nat ltac:(lia)) as Hc0. rewrite Nat.add_0_r, Z.mul_0_r, Z.add_0_r in Hc0. fold y in Hc0.
  assert (Hodd : Z.odd (Z.shiftr (Z.shiftr addr 5) (Z.of_nat j)) = Z.odd y).
  { unfold y. rewrite leaf_index_bit by (done || lia). by rewrite Z.shiftr_shiftr, <- Z.bit0_odd, Z.shiftr_spec, Z.add_0_l by lia. }
  rewrite Hodd, Hc0. pose proof (leaf_index_up addr (S j) Hu ltac:(lia)) as Hup. rewrite div_pow_S in Hup. fold y in Hup.
  assert (Hlt : y / 2 < 2 ^ 27).
  { pose proof (leaf_index_up addr j Hu ltac:(lia)) as Hy. fold y in Hy. clear -Hy. ulia. }
  pose proof (node_up m y ltac:(lia)) as Hnode. replace (if Z.odd y then _ else _) with (mem_node m (y / 2)).
  replace (y / 2) with (leaf_index addr / 2 ^ Z.of_nat (S j)) by apply div_pow_S.
  rewrite Z.shiftr_shiftr by lia. replace (Z.of_nat j + 1) with (Z.of_nat (S j)) by lia.
  rewrite IH; [by rewrite Nat.add_succ_comm|lia|]. intros k Hk. specialize (Hcd (S k) ltac:(lia)).
  rewrite Nat.add_succ_comm, <- Hcd. f_equal. lia.
Qed.

(** ** Reading and writing with a proof *)

Definition proof_offset (k : Z) : Z := 420 + k * (28 * 32).

(** The calldata has as its proof [k] the one of an address. *)
Definition holds (cd : bytes) (k : Z) (m : Memory) (addr : Z) : Prop :=
  proof_offset k + 28 * 32 <= blen cd /\ MIPS.calldataload cd (proof_offset k) = mem_leaf m (leaf_index addr) /\
  forall j, (j < 27)%nat -> MIPS.calldataload cd (proof_offset k + 32 + 32 * Z.of_nat j) = mem_node m (sibling (leaf_index addr / 2 ^ Z.of_nat j)).

Lemma root_of_leaf addr : is_u32 addr -> leaf_index addr / 2 ^ Z.of_nat 27 = 1.
Proof using. intros Hu. pose proof (leaf_index_bounds addr Hu). change (Z.of_nat 27) with 27. ulia. Qed.

Lemma climb_root m m' cd offset addr : is_u32 addr -> (forall y, y <> leaf_index addr -> mem_leaf m' y = mem_leaf m y) ->
  (forall j, (j < 27)%nat -> MIPS.calldataload cd (offset + 32 * Z.of_nat j) = mem_node m (sibling (leaf_index addr / 2 ^ Z.of_nat j))) ->
  MIPS.climb Keccak256Hash 27 cd offset (Z.shiftr addr 5) (mem_leaf m' (leaf_index addr)) = mem_root m'.
Proof using.
  intros Hu Hl Hcd. pose proof (leaf_index_bounds addr Hu) as Hb. unfold CannonTree.mem_root. rewrite <- (root_of_leaf addr Hu).
  rewrite <- (mem_node_leaf Keccak256Hash m') by lia. pose proof (climb_up m' cd offset addr 27 0 Hu ltac:(lia)) as Hc. change (0 + 27)%nat with 27%nat in Hc. rewrite <- Hc.
  - change (Z.of_nat 0) with 0. by rewrite Z.shiftr_0_r, Z.div_1_r.
  - intros j Hj. rewrite Hcd by done. symmetry. rewrite Nat.add_0_l. set (y := leaf_index addr / 2 ^ Z.of_nat j).
    pose proof (leaf_index_up addr j Hu ltac:(lia)) as Hy. pose proof (leaf_index_up addr (S j) Hu ltac:(lia)) as Hy2. rewrite div_pow_S in Hy2. fold y in Hy, Hy2.
    pose proof (half_parity y) as Hp. apply (mem_node_leaves _ m m' (leaf_index addr)).
    + rewrite sibling_cases by lia. destruct (Z.odd y); lia.
    + done.
    + assert (Hs : sibling y <> y /\ 1 <= sibling y /\ Z.log2 (sibling y) = Z.log2 y).
      { rewrite sibling_cases by lia. pose proof (Z.log2_nonneg (y / 2)). assert (Hd : Z.log2 (2 * (y / 2)) = Z.log2 (y / 2) + 1) by (rewrite Z.log2_double by lia; lia).
        assert (Hd1 : Z.log2 (2 * (y / 2) + 1) = Z.log2 (y / 2) + 1) by (rewrite Z.log2_succ_double by lia; lia).
        destruct (Z.odd y); rewrite Hp; (split; [lia|split; [lia|]]).
        - replace (2 * (y / 2) + 1 - 1) with (2 * (y / 2)) by lia. congruence.
        - congruence. }
      destruct Hs as (Hne & H1 & Hlog). intros Ha. apply Hne. symmetry. change (leaf_index addr / 2 ^ Z.of_nat j = sibling y).
      assert (Hx : Z.log2 (leaf_index addr) = 27) by (apply Z.log2_unique; lia).
      assert (Hly : Z.log2 y = 27 - Z.of_nat j).
      { unfold y. rewrite <- Z.shiftr_div_pow2 by lia. rewrite Z.log2_shiftr by lia. lia. }
      apply above_level; [done|lia| |done]. rewrite Hlog, Hly. replace (27 - Z.of_nat j + Z.of_nat j) with 27 by lia. lia.
Qed.

Lemma proofOffset_ok cd k m addr : holds cd k m addr -> MIPS.proofOffset cd k = Ok (proof_offset k).
Proof using. intros (Hl & _). unfold MIPS.proofOffset. fold (proof_offset k). destruct (Z.leb_spec (proof_offset k + 28 * 32) (blen cd)); [done|lia]. Qed.

Lemma readMem_ok cd k m addr s : mem_inv m -> word_addr addr -> holds cd k m addr -> MIPS.memRoot s = mem_root m ->
  MIPS.readMem Keccak256Hash cd addr k s = Ok (mem_word m addr).
Proof using.
  intros Hm Ha Hcd Hr. unfold MIPS.readMem. rewrite (proofOffset_ok cd k m addr Hcd). cbn [mbind res_bind]. destruct Hcd as (_ & Hleaf & Hsib).
  rewrite land_3, (proj2 Ha), Hleaf. cbn [negb Z.eqb]. rewrite (climb_root m m) by (done || apply Ha). rewrite Hr, bool_decide_true by done. cbn [negb].
  unfold mret, res_ret. f_equal. rewrite read_word by (done || by apply (mem_leaf_array Keccak256Hash)). by rewrite mem_word_leaf.
Qed.

Lemma writeMem_ok cd k m m' addr v s : mem_inv m -> word_addr addr -> is_u32 v -> holds cd k m addr -> written m m' addr v ->
  MIPS.writeMem Keccak256Hash cd addr k v s = Ok (MIPS.set_memRoot (mem_root m') s).
Proof using.
  intros Hm Ha Hv Hcd Hw. unfold MIPS.writeMem. rewrite (proofOffset_ok cd k m addr Hcd). cbn [mbind res_bind]. destruct Hcd as (_ & Hleaf & Hsib).
  rewrite land_3, (proj2 Ha), Hleaf. cbn [negb Z.eqb]. rewrite write_word by (done || by apply (mem_leaf_array Keccak256Hash)).
  destruct (written_leaf Keccak256Hash m m' addr v Hm Ha Hw) as [Hsame Hother]. rewrite <- Hsame. unfold mret, res_ret. do 2 f_equal.
  apply (climb_root m m'); [apply Ha|done|done].
Qed.

(** ** What a verified proof binds to *)

(** The byte strings that are hashed, from a leaf up, with these siblings. *)
Fixpoint path_pairs (siblings : list Hash) (path : Z) (node : Hash) : list bytes :=
  match siblings with
  | [] => []
  | sibling :: siblings =>
      let pair := if Z.odd path then sibling ++ node else node ++ sibling in
      pair :: path_pairs siblings (Z.shiftr path 1) (Keccak256Hash pair)
  end.

(** Those of a proof in the calldata, and those of a memory above an address. *)
Definition siblings_at (cd : bytes) (offset : Z) (n : nat) : list Hash :=
  map (fun i => MIPS.calldataload cd (offset + 32 * Z.of_nat i)) (seq 0 n).
Definition proof_pairs (cd : bytes) (k addr : Z) : list bytes :=
  path_pairs (siblings_at cd (proof_offset k + 32) 27) (Z.shiftr addr 5) (MIPS.calldataload cd (proof_offset k)).
Definition mem_pair (m : Memory) (g : Z) : bytes := mem_node m (2 * g) ++ mem_node m (2 * g + 1).
Definition mem_pairs (m : Memory) (addr : Z) : list bytes :=
  map (fun j => mem_pair m (leaf_index addr / 2 ^ Z.of_nat (S j))) (seq 0 27).

(** Somewhere on the way up two lists have different byte strings with the
    same hash. *)
Definition collides (ps qs : list bytes) : Prop :=
  exists i a b, ps !! i = Some a /\ qs !! i = Some b /\ a <> b /\ Keccak256Hash a = Keccak256Hash b.

Lemma siblings_at_S cd offset n : siblings_at cd offset (S n) = MIPS.calldataload cd offset :: siblings_at cd (offset + 32) n.
Proof using.
  unfold siblings_at. cbn [seq map]. f_equal; [f_equal; lia|]. rewrite <- seq_shift, map_map. apply map_ext. intros i. f_equal. lia.
Qed.

Lemma length_calldataload cd off : length (MIPS.calldataload cd off) = 32%nat.
Proof using. unfold MIPS.calldataload. rewrite length_take, length_app. unfold zeros. rewrite length_replicate. lia. Qed.

Section Binding.
Context (Keccak_hash : forall b, is_hash (Keccak256Hash b)).

Lemma mem_node_array m g : mem_inv m -> is_hash (mem_node m g).
Proof using Keccak_hash.
  intros Hm. unfold CannonTree.mem_node. destruct (Z.to_nat (27 - Z.log2 g)); cbn [tree]; [by apply (mem_leaf_array Keccak256Hash)|apply Keccak_hash].
Qed.

Lemma mem_pair_up m y : 1 <= y / 2 < 2 ^ 27 ->
  mem_pair m (y / 2) = if Z.odd y then mem_node m (sibling y) ++ mem_node m y else mem_node m y ++ mem_node m (sibling y).
Proof using.
  intros Hy. pose proof (half_parity y) as Hpar. unfold mem_pair. rewrite sibling_cases by ulia. destruct (Z.odd y); do 2 f_equal; lia.
Qed.

Lemma climb_binds m cd offset addr n j node : mem_inv m -> is_u32 addr -> (j + n <= 27)%nat -> length node = 32%nat ->
  MIPS.climb Keccak256Hash n cd offset (Z.shiftr (Z.shiftr addr 5) (Z.of_nat j)) node = mem_node m (leaf_index addr / 2 ^ Z.of_nat (j + n)) ->
  node = mem_node m (leaf_index addr / 2 ^ Z.of_nat j) \/
  collides (path_pairs (siblings_at cd offset n) (Z.shiftr (Z.shiftr addr 5) (Z.of_nat j)) node)
           (map (fun i => mem_pair m (leaf_index addr / 2 ^ Z.of_nat (S i))) (seq j n)).
Proof using Keccak_hash.
  intros Hm Hu. revert offset j node. induction n as [|n IH]; intros offset j node Hj Hlen; cbn [MIPS.climb]; [rewrite Nat.add_0_r; by left|].
  set (y := leaf_index addr / 2 ^ Z.of_nat j) in *. set (path := Z.shiftr (Z.shiftr addr 5) (Z.of_nat j)) in *.
  assert (Hodd : Z.odd path = Z.odd y).
  { unfold y, path. rewrite leaf_index_bit by (done || lia). by rewrite Z.shiftr_shiftr, <- Z.bit0_odd, Z.shiftr_spec, Z.add_0_l by lia. }
  assert (Hpath : Z.shiftr path 1 = Z.shiftr (Z.shiftr addr 5) (Z.of_nat (S j))) by (unfold path; rewrite (Z.shiftr_shiftr _ _ 1) by lia; f_equal; lia).
  rewrite siblings_at_S. cbn [path_pairs seq map]. set (s := MIPS.calldataload cd offset). set (pair := if Z.odd path then s ++ node else node ++ s).
  replace (if Z.odd path then _ else _) with (Keccak256Hash pair) by (unfold pair, HashPair; by destruct (Z.odd path)).
  rewrite Hpath, <- Nat.add_succ_comm. intros Heq. apply IH in Heq; [|lia|apply Keccak_hash].
  destruct Heq as [Heq|(i & a & b & Ha & Hb & Hne & He)]; [|right; by exists (S i), a, b].
  rewrite div_pow_S in *. fold y in Heq |- *.
  pose proof (leaf_index_up addr (S j) Hu ltac:(lia)) as Hup. rewrite div_pow_S in Hup. fold y in Hup.
  assert (Hlt : y / 2 < 2 ^ 27) by (pose proof (leaf_index_up addr j Hu ltac:(lia)) as Hy; fold y in Hy; clear -Hy; ulia).
  rewrite (node_up m y) in Heq by lia. pose proof (mem_pair_up m y ltac:(lia)) as Hpair.
  assert (Hh : Keccak256Hash pair = Keccak256Hash (mem_pair m (y / 2))) by (rewrite Heq, Hpair; unfold HashPair; by destruct (Z.odd y)).
  destruct (decide (pair = mem_pair m (y / 2))) as [Hp|Hne]; [left|right; by exists 0%nat, pair, (mem_pair m (y / 2))].
  destruct (mem_node_array m y Hm) as [Hly _]. destruct (mem_node_array m (sibling y) Hm) as [Hls _].
  rewrite Hpair in Hp. unfold pair in Hp. rewrite Hodd in Hp.
  destruct (Z.odd y); apply app_inj_1 in Hp as [H1 H2]; try done; unfold s in *; rewrite ?length_calldataload; lia.
Qed.

(** A word that the contract reads is the word of every memory with that root. *)
Lemma readMem_binds cd k m addr s v : mem_inv m -> is_u32 addr -> MIPS.memRoot s = mem_root m ->
  MIPS.readMem Keccak256Hash cd addr k s = Ok v ->
  word_addr addr /\ v = mem_word m addr \/ collides (proof_pairs cd k addr) (mem_pairs m addr).
Proof using Keccak_hash.
  intros Hm Hu Hr. unfold MIPS.readMem, MIPS.proofOffset, MIPS.require. destruct (_ <=? _); cbn [mbind res_bind mret res_ret]; [|done].
  rewrite land_3. destruct (Z.eqb_spec (addr mod 4) 0) as [Ha|]; cbn [negb]; [|done]. cbv zeta. case_bool_decide as Hroot; cbn [negb]; [|done].
  unfold proof_pairs. change (proof_offset k) with (420 + k * (28 * 32)).
  set (offset := 420 + k * (28 * 32)) in *. set (leaf := MIPS.calldataload cd offset) in *. intros Hv. injection Hv as <-.
  pose proof (climb_binds m cd (offset + 32) addr 27 0 leaf Hm Hu ltac:(lia) (length_calldataload _ _)) as Hb.
  change (Z.of_nat 0) with 0 in Hb. change (0 + 27)%nat with 27%nat in Hb. rewrite Z.shiftr_0_r, (root_of_leaf addr Hu) in Hb.
  destruct Hb as [Hb|Hb]; [by rewrite Hroot|left|by right]. change (2 ^ 0) with 1 in Hb. rewrite Z.div_1_r in Hb.
  pose proof (leaf_index_bounds addr Hu). rewrite mem_node_leaf in Hb by lia. split; [exact (conj Hu Ha)|]. rewrite Hb.
  rewrite read_word; [|exact (conj Hu Ha)|by apply (mem_leaf_array Keccak256Hash)]. symmetry. apply mem_word_leaf. exact (conj Hu Ha).
Qed.
End Binding.
End Proofs.
