(* ===== verification/CannonStep.v ===== *)
(** * A step of the machine is a step of the contract

    Instruction by instruction and system call by system call: what the Go
    machine does to its state, the contract does to the words of it, with the
    memory behind a Merkle proof. *)

From S2P Require Import Prelude Eth CannonMemory CannonTree CannonVM MipsContract MipsWords CannonTypes CannonSafety.

Section Step.
Context {Oracle : Type} `{!PreimageOracle Oracle}.
Variable Keccak256Hash : bytes -> Hash.
Variable sender : bytes.
Variable lens : nat -> Z.
#[local] Notation wf := (vs_wf Keccak256Hash).
#[local] Notation IS := (InstrumentedState (Oracle := Oracle)).
#[local] Notation sol_of := (sol_of Keccak256Hash).
#[local] Notation mem_root := (mem_root Keccak256Hash).
#[local] Notation mem_inv := (mem_inv Keccak256Hash).
#[local] Notation outputState := (MIPS.outputState Keccak256Hash).

(** ** Instructions without memory *)

(** The same state as its hash, and an error as an error. *)
Definition agrees (r : res State) (r' : res Hash) : Prop :=
  match r with Ok s => r' = Ok (outputState (sol_of s)) | Err _ => exists e, r' = Err e end.

Lemma handleRd_agrees storeReg val conditional s :
  agrees (handleRd storeReg val conditional s) (MIPS.handleRd Keccak256Hash storeReg val conditional (sol_of s)).
Proof using.
  unfold handleRd, MIPS.handleRd, MIPS.require. destruct (Z.leb_spec 32 storeReg), (Z.ltb_spec storeReg 32); try lia; [by eexists|].
  cbn [agrees mbind res_bind]. by destruct (_ && _).
Qed.

Lemma handleJump_agrees linkReg dest s : agrees (handleJump linkReg dest s) (MIPS.handleJump Keccak256Hash linkReg dest (sol_of s)).
Proof using. unfold handleJump, MIPS.handleJump. cbn [CannonSafety.sol_of MIPS.nextPC MIPS.pc]. destruct (negb _); [by eexists|]. cbn [agrees]. by destruct (negb _). Qed.

Lemma handleBranch_agrees opcode insn rtReg rs s :
  agrees (handleBranch opcode insn rtReg rs s) (MIPS.handleBranch Keccak256Hash opcode insn rtReg rs (sol_of s)).
Proof using.
  unfold handleBranch, MIPS.handleBranch. cbn [CannonSafety.sol_of MIPS.nextPC MIPS.pc]. destruct (negb _); [by eexists|]. cbn [agrees].
  rewrite SE_eq; [done|apply imm_range|done].
Qed.

Lemma handleHiLo_agrees fun_ rs rt storeReg s :
  agrees (handleHiLo fun_ rs rt storeReg s) (MIPS.handleHiLo Keccak256Hash fun_ rs rt storeReg (sol_of s)).
Proof using.
  unfold handleHiLo, MIPS.handleHiLo. set (r := switch _ _ _). set (r' := switch fun_ _ (Ok (0, sol_of s))).
  assert (H : match r with Ok (val, s1) => r' = Ok (val, sol_of s1) | Err _ => exists e, r' = Err e end).
  { apply (switch_rel (fun r r' => match r with Ok (val, s1) => r' = Ok (val, sol_of s1) | Err _ => exists e, r' = Err e end)); [|done].
    repeat (apply Forall2_cons; split; [split; [done|try done]|]); [..|apply Forall2_nil_2];
      cbn [snd]; destruct (rt =? 0); (done || by eexists). }
  destruct r as [[val s1]|e]; [|destruct H as [e' ->]; by eexists]. rewrite H. cbn [agrees mbind res_bind]. by destruct (negb _).
Qed.

(** ** Inversion of the calls *)

Lemma inv_gets {A} (f : IS -> A) i i' a : gets f i = (i', Ok a) -> i' = i /\ a = f i.
Proof using. intros H. by injection H as <- <-. Qed.
Lemma inv_modify (f : IS -> IS) i i' u : modify f i = (i', Ok u) -> i' = f i.
Proof using. intros H. by injection H as <-. Qed.
Lemma inv_on_state f (i i' : IS) u : on_state f i = (i', Ok u) -> i' = set_state (f (is_state i)) i.
Proof using. intros H. by injection H as <-. Qed.
Lemma inv_ret {A} (a b : A) (i i' : IS) : mret (M := stM IS) a i = (i', Ok b) -> i' = i /\ b = a.
Proof using. intros H. by injection H as <- <-. Qed.
Lemma inv_try_state f (i i' : IS) u : try_state f i = (i', Ok u) -> exists s, f (is_state i) = Ok s /\ i' = set_state s i.
Proof using. unfold try_state. destruct (f (is_state i)) as [s|]; [|done]. intros H. injection H as <-. eauto. Qed.
Lemma inv_on_memory {A} (f : stM Memory A) (i i' : IS) a : on_memory f i = (i', Ok a) ->
  exists m, f (vs_Memory (is_state i)) = (m, Ok a) /\ i' = set_state (set_Memory m (is_state i)) i.
Proof using. unfold on_memory. destruct (f _) as [m r]. intros H. injection H as <- ->. eauto. Qed.
Lemma inv_lift {A} (r : res A) (i i' : IS) a : lift r i = (i', Ok a) -> i' = i /\ r = Ok a.
Proof using. intros H. by injection H as <- ->. Qed.

(** ** What is recorded of an access *)

(** The bytes of the proof of an address. *)
Definition proof_bytes (m : Memory) (addr : Z) : bytes := concat (mem_leaf m (leaf_index addr) :: siblings Keccak256Hash m (leaf_index addr) 27).

(** The memory holds the same bytes. *)
Definition mem_same (m m' : Memory) : Prop := mem_inv m' /\ forall j, page_data m' j = page_data m j.

Lemma mem_same_root m m' : mem_same m m' -> mem_root m' = mem_root m.
Proof using. intros [_ H]. unfold CannonTree.mem_root. by apply mem_node_ext. Qed.

Lemma mem_same_word m m' a : mem_same m m' -> mem_word m' a = mem_word m a.
Proof using. intros [_ H]. unfold mem_word. by rewrite H. Qed.

Lemma mem_same_proof m m' a : mem_same m m' -> proof_bytes m' a = proof_bytes m a.
Proof using.
  intros [_ H]. unfold proof_bytes, siblings. rewrite (mem_leaf_ext m) by done. do 2 f_equal. apply map_ext. intros k. by apply mem_node_ext.
Qed.

Lemma mem_same_trans m m1 m2 : mem_same m m1 -> mem_same m1 m2 -> mem_same m m2.
Proof using. intros [_ H1] [Hi H2]. split; [done|]. intros j. by rewrite H2. Qed.

Lemma cached_same m m' : mem_inv m -> cached Keccak256Hash m m' -> mem_same m m'.
Proof using. intros Hm Hc. split; [by apply Hc|]. intros j. by apply (cached_data Keccak256Hash). Qed.

Lemma same_same m m' : same Keccak256Hash m m' -> mem_same m m'.
Proof using. intros Hs. split; [by apply Hs|]. intros j. by apply (same_data Keccak256Hash). Qed.

Lemma sol_of_same m s : mem_same (vs_Memory s) m -> sol_of (set_Memory m s) = sol_of s.
Proof using. intros Hm. unfold CannonSafety.sol_of. cbn [set_Memory vs_Memory vs_PreimageKey vs_PreimageOffset vs_PC vs_NextPC vs_LO vs_HI vs_Heap vs_ExitCode vs_Exited vs_Step vs_Registers]. by rewrite (mem_same_root _ _ Hm). Qed.

(** The machine records, and has recorded no access. *)
Definition fresh (i : IS) : Prop := is_memProofEnabled i = true /\ is_lastMemAccess i = uint32_ones.

(** The memory was accessed at an address, and the rest of the state is as it was. *)
Record accessed (i i' : IS) (a : Z) : Prop := {
  ac_state : exists m, is_state i' = set_Memory m (is_state i) /\ mem_same (vs_Memory (is_state i)) m;
  ac_proof : is_memProof i' = proof_bytes (vs_Memory (is_state i)) a;
  ac_enabled : is_memProofEnabled i' = true;
  ac_last : is_lastMemAccess i' = a;
}.

(** The pre-image that was read last. *)
Definition preimage_of (i : IS) : bytes * Hash * Z := (is_lastPreimage i, is_lastPreimageKey i, is_lastPreimageOffset i).

Lemma mask_not_ones a : word_addr a -> a <> uint32_ones.
Proof using. intros [_ Ha] ->. by vm_compute in Ha. Qed.

Lemma track_accessed i i' a u : mem_inv (vs_Memory (is_state i)) -> fresh i -> word_addr a -> trackMemAccess Keccak256Hash a i = (i', Ok u) ->
  accessed i i' a /\ preimage_of i' = preimage_of i.
Proof using.
  intros Hm [He Hl] Ha H. pose proof (mask_not_ones a Ha) as Hne. unfold trackMemAccess in H.
  apply stM_bind_ok in H as (i1 & e & H1 & H). apply inv_gets in H1 as [-> ->]. apply stM_bind_ok in H as (i1 & l & H1 & H). apply inv_gets in H1 as [-> ->].
  rewrite He, Hl in H. destruct (Z.eqb_spec uint32_ones a); [congruence|]. cbn [negb andb] in H. rewrite Z.eqb_refl in H. cbn [negb] in H.
  apply stM_bind_ok in H as (i1 & p & H1 & H). apply inv_gets in H1 as [-> ->]. apply stM_bind_ok in H as (i1 & v & H1 & H). apply inv_modify in H1 as ->.
  apply stM_bind_ok in H as (i1 & proof & H1 & H). apply inv_on_memory in H1 as (m & Hp & ->). apply inv_modify in H as ->.
  cbn [set_memAccess is_state] in Hp. destruct (MerkleProof_spec Keccak256Hash _ a Hm (proj1 Ha)) as (m1 & Hp1 & Hc). rewrite Hp1 in Hp. injection Hp as <- <-.
  split; [|done]. split; cbn [set_memAccess set_state is_state is_memProof is_memProofEnabled is_lastMemAccess]; try done.
  eexists. split; [done|]. by apply cached_same.
Qed.

(** The access and the word there. *)
Lemma get_accessed i i1 i2 a v : accessed i i1 a -> word_addr a -> on_memory (GetMemory a) i1 = (i2, Ok v) ->
  accessed i i2 a /\ v = mem_word (vs_Memory (is_state i)) a /\ preimage_of i2 = preimage_of i1.
Proof using.
  intros [(m & Hs & Hm) ? ? ?] Ha H. apply inv_on_memory in H as (m' & Hg & ->). rewrite Hs in Hg. cbn [set_Memory vs_Memory] in Hg.
  destruct (GetMemory_spec Keccak256Hash m a (proj1 Hm) Ha) as (m1 & Hg1 & Hsm). rewrite Hg1 in Hg. injection Hg as <- <-.
  split; [|split; [by apply mem_same_word|done]]. split; cbn [set_state is_state is_memProof is_memProofEnabled is_lastMemAccess]; try done.
  rewrite Hs. exists m1. split; [done|]. eapply mem_same_trans; [done|by apply same_same].
Qed.

Lemma track_get i i1 i2 u a v : mem_inv (vs_Memory (is_state i)) -> fresh i -> word_addr a ->
  trackMemAccess Keccak256Hash a i = (i1, Ok u) -> on_memory (GetMemory a) i1 = (i2, Ok v) ->
  accessed i i2 a /\ v = mem_word (vs_Memory (is_state i)) a /\ preimage_of i2 = preimage_of i.
Proof using.
  intros Hm Hf Ha H1 H2. destruct (track_accessed i i1 a u Hm Hf Ha H1) as [Hac Hp]. destruct (get_accessed i i1 i2 a v Hac Ha H2) as (? & ? & Hp2).
  split_and!; [done..|congruence].
Qed.

Lemma accessed_sol i i' a : accessed i i' a -> sol_of (is_state i') = sol_of (is_state i).
Proof using. intros [(m & -> & Hm) _ _ _]. by apply sol_of_same. Qed.

(** ** The second proof in the calldata *)

Context (Keccak_hash : forall b, is_hash (Keccak256Hash b)).

Definition cd_slot (cd : bytes) (k : Z) (b : bytes) : Prop := exists rest, drop (Z.to_nat (proof_offset k)) cd = b ++ rest.

Lemma calldataload_concat cd off l rest j h : 0 <= off -> Forall (fun x => length x = 32%nat) l ->
  drop (Z.to_nat off) cd = concat l ++ rest -> l !! j = Some h -> MIPS.calldataload cd (off + 32 * Z.of_nat j) = h.
Proof using.
  intros Hoff Hl Hcd Hj. unfold MIPS.calldataload. replace (Z.to_nat (off + 32 * Z.of_nat j)) with (Z.to_nat off + 32 * j)%nat by lia.
  rewrite <- drop_drop, Hcd. clear Hcd. revert j Hj. induction Hl as [|x l Hx Hl IH]; intros [|j] Hj; [done..| |].
  - injection Hj as ->. cbn [concat]. rewrite Nat.mul_0_r, drop_0, <- !app_assoc. rewrite take_app_length'; [done|by rewrite Hx].
  - cbn [concat]. rewrite <- app_assoc. replace (32 * S j)%nat with (length x + 32 * j)%nat by lia. rewrite drop_app_add. by apply IH.
Qed.

Lemma proof_list m a : mem_inv m -> Forall (fun x => length x = 32%nat) (mem_leaf m (leaf_index a) :: siblings Keccak256Hash m (leaf_index a) 27).
Proof using Keccak_hash.
  intros Hm. constructor; [by apply (mem_leaf_array Keccak256Hash)|]. apply Forall_forall. intros x Hx. unfold siblings in Hx.
  apply list_elem_of_In, in_map_iff in Hx as (k & <- & _). by apply mem_node_array.
Qed.

Lemma length_proof_bytes m a : mem_inv m -> length (proof_bytes m a) = 896%nat.
Proof using Keccak_hash.
  intros Hm. assert (Hc : forall l, Forall (fun x : bytes => length x = 32%nat) l -> length (concat l) = (32 * length l)%nat).
  { induction 1 as [|x l Hx Hl IH]; [done|]. cbn [concat length]. rewrite length_app, Hx, IH. lia. }
  unfold proof_bytes. rewrite Hc by by apply proof_list. cbn [length]. unfold siblings. by rewrite length_map, length_seq.
Qed.

Lemma slot_holds cd k m a : 0 <= k -> mem_inv m -> cd_slot cd k (proof_bytes m a) -> holds Keccak256Hash cd k m a.
Proof using Keccak_hash.
  intros Hk Hm [rest Hcd]. pose proof (length_proof_bytes m a Hm) as Hlen. pose proof (proof_list m a Hm) as Hall. assert (0 <= proof_offset k) by (unfold proof_offset; lia).
  split; [|split].
  - apply (f_equal length) in Hcd. rewrite length_drop, length_app, Hlen in Hcd. unfold blen. lia.
  - rewrite <- (Z.add_0_r (proof_offset k)). by apply (calldataload_concat cd (proof_offset k) _ rest 0 _ ltac:(done) Hall Hcd).
  - intros j Hj. replace (proof_offset k + 32 + 32 * Z.of_nat j) with (proof_offset k + 32 * Z.of_nat (S j)) by lia.
    apply (calldataload_concat cd (proof_offset k) _ rest (S j) _ ltac:(done) Hall Hcd).
    change (siblings Keccak256Hash m (leaf_index a) 27 !! j = Some (CannonTree.mem_node Keccak256Hash m (sibling (leaf_index a / 2 ^ Z.of_nat j)))).
    unfold siblings. by rewrite list_lookup_fmap, lookup_seq_lt.
Qed.

(** ** Writes *)

Lemma set_accessed i i1 i2 a v u : accessed i i1 a -> word_addr a -> on_memory (SetMemory a v) i1 = (i2, Ok u) ->
  exists m, is_state i2 = set_Memory m (is_state i) /\ mem_inv m /\ written (vs_Memory (is_state i)) m a v /\
    is_memProof i2 = proof_bytes (vs_Memory (is_state i)) a /\ preimage_of i2 = preimage_of i1.
Proof using.
  intros [(m & Hs & Hm) Hp _ _] Ha H. apply inv_on_memory in H as (m' & Hg & ->). rewrite Hs in Hg. cbn [set_Memory vs_Memory] in Hg.
  destruct (SetMemory_spec Keccak256Hash m a v (proj1 Hm) Ha) as (m1 & Hg1 & Hm1 & Hw). rewrite Hg1 in Hg. injection Hg as <-.
  exists m1. rewrite Hs. split_and!; try done. intros j. rewrite Hw. by rewrite (proj2 Hm).
Qed.

Lemma write_agrees cd m m' a v s : mem_inv m -> word_addr a -> is_u32 v -> cd_slot cd 1 (proof_bytes m a) -> written m m' a v ->
  MIPS.memRoot s = mem_root m -> MIPS.writeMem Keccak256Hash cd a 1 v s = Ok (MIPS.set_memRoot (mem_root m') s).
Proof using Keccak_hash. intros Hm Ha Hv Hcd Hw Hr. apply (writeMem_ok Keccak256Hash cd 1 m m'); [done..|by apply slot_holds|done]. Qed.

Lemma read_agrees cd k m a s : 0 <= k -> mem_inv m -> word_addr a -> cd_slot cd k (proof_bytes m a) -> MIPS.memRoot s = mem_root m ->
  MIPS.readMem Keccak256Hash cd a k s = Ok (mem_word m a).
Proof using Keccak_hash. intros Hk Hm Ha Hcd Hr. apply (readMem_ok Keccak256Hash cd k m); [done..|by apply slot_holds|done]. Qed.

(** ** Pre-images *)

Lemma readPreimage_inv key off i i' dat n : readPreimage key off i = (i', Ok (dat, n)) ->
  is_state i' = is_state i /\ is_memProof i' = is_memProof i /\ is_memProofEnabled i' = is_memProofEnabled i /\ is_lastMemAccess i' = is_lastMemAccess i /\
  is_lastPreimageKey i' = key /\ is_lastPreimageOffset i' = off /\ (dat, n) = copy32 (drop (Z.to_nat off) (is_lastPreimage i')) /\ off <= blen (is_lastPreimage i').
Proof using.
  unfold readPreimage. intros H. apply stM_bind_ok in H as (i1 & k & H1 & H). apply inv_gets in H1 as [-> ->].
  apply stM_bind_ok in H as (i1 & u & H1 & H).
  assert (Hi : is_state i1 = is_state i /\ is_memProof i1 = is_memProof i /\ is_memProofEnabled i1 = is_memProofEnabled i /\
            is_lastMemAccess i1 = is_lastMemAccess i /\ is_lastPreimageKey i1 = key).
  { case_bool_decide as Hk; [apply inv_ret in H1 as [-> _]; by split_and!|].
    apply stM_bind_ok in H1 as (i2 & l & H2 & H1). apply inv_gets in H2 as [-> ->]. apply stM_bind_ok in H1 as (i2 & u2 & H2 & H1). apply inv_modify in H2 as ->.
    apply stM_bind_ok in H1 as (i2 & data & H2 & H1). apply inv_modify in H1 as ->. unfold on_oracle in H2. destruct (po_GetPreimage key _) as [o r].
    injection H2 as <- _. by split_and!. }
  destruct Hi as (Hs & Hp & He & Hl & Hk). apply stM_bind_ok in H as (i2 & u2 & H2 & H). apply inv_modify in H2 as ->.
  apply stM_bind_ok in H as (i2 & pre & H2 & H). apply inv_gets in H2 as [-> ->]. destruct (Z.ltb_spec (blen (is_lastPreimage (set_lastOffset off i1))) off) as [|Hb]; [done|].
  apply inv_ret in H as [-> H]. split_and!; try done.
Qed.

(** The oracle contract has what the machine has read. *)
Definition served (o : MIPS.OracleContract) (ctx : bytes) (i : IS) : Prop :=
  is_lastPreimageOffset i <> uint32_ones ->
  MIPS.readPreimage o (if default 0 (is_lastPreimageKey i !! 0%nat) =? 1 then MIPS.localize Keccak256Hash sender (is_lastPreimageKey i) ctx else is_lastPreimageKey i)
    (is_lastPreimageOffset i) = Ok (copy32 (drop (Z.to_nat (is_lastPreimageOffset i)) (is_lastPreimage i))).

(** A pre-image, with its length prefix, that an offset of 32 bits reaches. *)
Definition preimage_fits (b : bytes) : Prop := bytes_ok b /\ blen b < uint32_ones.

Lemma copy32_array src : bytes_ok src -> is_array 32 (copy32 src).1.
Proof using. intros Hb. split; [apply copy32_spec|]. apply bytes_ok_take. rewrite bytes_ok_app. auto using zeros_ok. Qed.

Lemma word_get v : is_u32 v -> get_be (put_be 4 v) = v.
Proof using. intros Hv. apply get_put_be. exact Hv. Qed.

Lemma get_be_4 w : is_array 4 w -> is_u32 (get_be w).
Proof using. intros [Hl Hb]. pose proof (get_be_range w Hb) as Hr. unfold blen in Hr. by rewrite Hl in Hr. Qed.

Lemma preimage_word_agrees o cd ctx a1 a2 i i' v0 v1 : wf (is_state i) -> fresh i -> is_u32 a1 -> is_u32 a2 ->
  read_preimage_word Keccak256Hash a1 a2 i = (i', Ok (v0, v1)) -> cd_slot cd 1 (is_memProof i') -> served o ctx i' -> preimage_fits (is_lastPreimage i') ->
  MIPS.sys_read Keccak256Hash sender o cd ctx 5 a1 a2 (sol_of (is_state i)) = Ok (v0, v1, sol_of (is_state i')).
Proof using Keccak_hash.
  intros Hw Hf H1 H2 H Hcd Hserved [Hfit Hlen]. pose proof (wf_Memory _ _ Hw) as Hm. set (a := Z.land a1 0xFFffFFfc) in *.
  pose proof (word_addr_mask a1 H1) as Ha. fold a in Ha. unfold read_preimage_word in H. fold a in H.
  apply stM_bind_ok in H as (i1 & u1 & Ht & H). apply stM_bind_ok in H as (i2 & mem & Hg & H). destruct (track_get i i1 i2 u1 a mem Hm Hf Ha Ht Hg) as (Hac & -> & Hpre2).
  set (m := vs_Memory (is_state i)) in *. pose proof (mem_word_u32 Keccak256Hash m a Hm Ha) as Hmem.
  apply stM_bind_ok in H as (i3 & key & H3 & H). apply inv_gets in H3 as [-> ->]. apply stM_bind_ok in H as (i3 & off & H3 & H). apply inv_gets in H3 as [-> ->].
  destruct (ac_state _ _ _ Hac) as (m2 & Hs2 & Hm2). rewrite Hs2 in H. cbn [set_Memory vs_PreimageKey vs_PreimageOffset] in H.
  apply stM_bind_ok in H as (i3 & [dat n] & Hpre & H). apply readPreimage_inv in Hpre as (Hs3 & Hp3 & He3 & Hl3 & Hk3 & Ho3 & Hdat & Hoff).
  set (n1 := if 4 - Z.land a1 3 <? n then 4 - Z.land a1 3 else n) in *. set (n2 := if a2 <? n1 then a2 else n1) in *.
  apply stM_bind_ok in H as (i4 & u4 & Hset & H). apply stM_bind_ok in H as (i5 & u5 & H5 & H). apply inv_on_state in H5 as ->. apply inv_ret in H as [-> H].
  injection H as -> ->.
  assert (Hac3 : accessed i i3 a) by (destruct Hac; split; rewrite ?Hs3, ?Hp3, ?He3, ?Hl3; done).
  destruct (set_accessed i i3 i4 a _ u4 Hac3 Ha Hset) as (m4 & Hs4 & Hm4 & Hw4 & Hp4 & Hpre4). unfold preimage_of in Hpre4. injection Hpre4 as Hpi Hpk Hpo.
  cbn [set_state is_state is_memProof is_lastPreimage] in *. fold m in Hw4, Hp4. rewrite Hp4 in Hcd.
  pose proof (alignment_range a1) as Hal. assert (Hn : 0 <= n <= 32) by (pose proof (copy32_spec (drop (Z.to_nat (vs_PreimageOffset (is_state i))) (is_lastPreimage i3))) as [_ Hc]; by rewrite <- Hdat in Hc).
  assert (Hn2 : 0 <= n2 <= 4 - Z.land a1 3).
  { unfold n2, n1, is_u32 in *. destruct (Z.ltb_spec (4 - Z.land a1 3) n), (Z.ltb_spec a2 n1); unfold n1 in *; repeat case_match; lia. }
  assert (Hout : is_array 4 (copy_at (Z.land a1 3) (take (Z.to_nat n2) dat) (put_be 4 (mem_word m a)))).
  { apply copy_at_array; [split; [apply length_put_be|apply put_be_ok]| |lia]. apply bytes_ok_take.
    pose proof (copy32_array (drop (Z.to_nat (vs_PreimageOffset (is_state i))) (is_lastPreimage i3))) as Hc. rewrite <- Hdat in Hc. apply Hc, bytes_ok_drop. by rewrite <- Hpi. }
  assert (Hdata : is_array 32 dat).
  { pose proof (copy32_array (drop (Z.to_nat (vs_PreimageOffset (is_state i))) (is_lastPreimage i3))) as Hc. rewrite <- Hdat in Hc. apply Hc, bytes_ok_drop. by rewrite <- Hpi. }
  unfold MIPS.sys_read. change (5 =? 0) with false. change (5 =? 5) with true. cbv iota. fold a.
  rewrite (read_agrees cd 1 m a) by done. cbn [mbind res_bind].
  unfold served in Hserved. cbn [set_state is_lastPreimageKey is_lastPreimageOffset is_lastPreimage] in Hserved.
  rewrite Hpk, Hpo, Hpi, Hk3, Ho3, <- Hdat in Hserved. cbn [CannonSafety.sol_of MIPS.preimageKey MIPS.preimageOffset].
  rewrite Hserved by (intros He; rewrite Hpi in Hlen; lia). cbn [mbind res_bind]. fold n1. cbv zeta. fold n2.
  rewrite <- (word_get (mem_word m a) Hmem) at 1. assert (Hput : is_array 4 (put_be 4 (mem_word m a))) by (split; [apply length_put_be|apply put_be_ok]).
  rewrite insert_data_spec by done.
  pose proof (get_be_4 _ Hout) as Hu. rewrite (u32_id (get_be _)) by done. fold (sol_of (is_state i)).
  rewrite (write_agrees cd m m4 a) by done. cbn [mbind res_bind]. assert (Hn32 : is_u32 n2) by (unfold is_u32; lia). rewrite (u32_id n2) by done.
  rewrite Hs4. done.
Qed.

Lemma sub_list_copy key a2 al w : is_array 32 key -> is_array 4 w -> 0 <= al < 4 -> 0 <= a2 <= 4 - al ->
  copy_at (32 - a2) (drop (Z.to_nat al) w) (copy_at 0 (drop (Z.to_nat a2) key) key) = drop (Z.to_nat a2) key ++ slice al (al + a2) w.
Proof using.
  intros [Hlk _] [Hlw _] Hal Ha2. unfold copy_at at 2. change (take (Z.to_nat 0) key) with (@nil Z). cbn [app]. rewrite Nat.sub_0_r, (take_ge (drop _ _)) by (rewrite length_drop; lia).
  rewrite length_drop, Nat.add_0_l. set (d := drop (Z.to_nat a2) key). assert (Hd : length d = (32 - Z.to_nat a2)%nat) by (unfold d; rewrite length_drop; lia).
  unfold copy_at. rewrite take_app_length' by lia. rewrite (drop_ge (d ++ _)) by (rewrite length_app, Hd, !length_drop; lia). rewrite app_nil_r. f_equal.
  unfold slice. rewrite length_app, Hd, length_drop. f_equal. lia.
Qed.

Lemma preimage_key_agrees cd a1 a2 i i' v0 v1 : wf (is_state i) -> fresh i -> is_u32 a1 -> is_u32 a2 ->
  write_preimage_key Keccak256Hash a1 a2 i = (i', Ok (v0, v1)) -> cd_slot cd 1 (is_memProof i') ->
  MIPS.sys_write Keccak256Hash cd 6 a1 a2 (sol_of (is_state i)) = Ok (v0, v1, sol_of (is_state i')).
Proof using Keccak_hash.
  intros Hw Hf H1 H2 H Hcd. pose proof (wf_Memory _ _ Hw) as Hm. set (a := Z.land a1 0xFFffFFfc) in *.
  pose proof (word_addr_mask a1 H1) as Ha. fold a in Ha. unfold write_preimage_key in H. fold a in H.
  apply stM_bind_ok in H as (i1 & u1 & Ht & H). apply stM_bind_ok in H as (i2 & mem & Hg & H). destruct (track_get i i1 i2 u1 a mem Hm Hf Ha Ht Hg) as (Hac & -> & _).
  set (m := vs_Memory (is_state i)) in *. pose proof (mem_word_u32 Keccak256Hash m a Hm Ha) as Hmem.
  apply stM_bind_ok in H as (i3 & key & H3 & H). apply inv_gets in H3 as [-> ->]. destruct (ac_state _ _ _ Hac) as (m2 & Hs2 & Hm2). rewrite Hs2 in H.
  cbn [set_Memory vs_PreimageKey] in H. set (n := if 4 - Z.land a1 3 <? a2 then 4 - Z.land a1 3 else a2) in *.
  apply stM_bind_ok in H as (i4 & u4 & H4 & H). apply inv_on_state in H4 as ->. apply inv_ret in H as [-> H]. injection H as -> ->.
  cbn [set_state is_memProof is_state] in *. rewrite (ac_proof _ _ _ Hac) in Hcd. fold m in Hcd. pose proof (alignment_range a1) as Hal.
  assert (Hn : 0 <= n <= 4 - Z.land a1 3) by (unfold n, is_u32 in *; destruct (Z.ltb_spec (4 - Z.land a1 3) a2); lia).
  unfold MIPS.sys_write. change ((6 =? 1) || (6 =? 2) || (6 =? 4)) with false. change (6 =? 6) with true. cbv iota. fold a.
  rewrite (read_agrees cd 1 m a) by done. cbn [mbind res_bind]. cbv zeta. fold n. cbn [CannonSafety.sol_of MIPS.preimageKey].
  rewrite <- (word_get (mem_word m a) Hmem). pose proof (wf_PreimageKey _ _ Hw) as Hkey.
  assert (Hput : is_array 4 (put_be 4 (mem_word m a))) by (split; [apply length_put_be|apply put_be_ok]).
  rewrite insert_key_spec by done. rewrite (word_get (mem_word m a) Hmem). rewrite put_be_get.
  - rewrite <- sub_list_copy by done. rewrite Hs2. fold (sol_of (is_state i)). rewrite <- (sol_of_same m2 (is_state i)) by done. done.
  - apply bytes_ok_app. split; [apply bytes_ok_drop, Hkey|apply bytes_ok_take, bytes_ok_drop, Hput].
  - rewrite length_app, length_drop, length_slice by (unfold blen; rewrite ?length_put_be; lia). rewrite (proj1 Hkey). lia.
Qed.

(** ** System calls *)

Lemma range_sol (i i' : IS) addr count bs : wf (is_state i) -> is_u32 addr -> on_memory (ReadMemoryRange lens addr count) i = (i', Ok bs) ->
  sol_of (is_state i') = sol_of (is_state i).
Proof using.
  intros Hw Ha H. apply inv_on_memory in H as (m & Hm & ->). apply (read_all_same Keccak256Hash) in Hm; [|by apply Hw|done].
  cbn [set_state is_state]. by apply sol_of_same, same_same.
Qed.

Lemma hints_sol fuel (i i' : IS) u : process_hints fuel i = (i', Ok u) -> sol_of (is_state i') = sol_of (is_state i).
Proof using.
  revert i u. induction fuel as [|fuel IH]; intros i u; cbn [process_hints]; [intros H; by apply inv_ret in H as [-> _]|]. intros H.
  apply stM_bind_ok in H as (i1 & buf & H1 & H). apply inv_gets in H1 as [-> ->]. destruct (_ <? _); [by apply inv_ret in H as [-> _]|].
  destruct (_ <=? _); [|by apply inv_ret in H as [-> _]]. destruct (_ || _); [done|].
  apply stM_bind_ok in H as (i1 & u1 & H1 & H). apply inv_on_state in H1 as ->. apply stM_bind_ok in H as (i2 & u2 & H2 & H).
  apply IH in H. rewrite H. unfold on_oracle in H2. destruct (po_Hint _ _) as [o r]. by injection H2 as <- _.
Qed.

Lemma write_hints_sol data (i i' : IS) u : write_hints data i = (i', Ok u) -> sol_of (is_state i') = sol_of (is_state i).
Proof using.
  unfold write_hints. intros H. apply stM_bind_ok in H as (i1 & buf & H1 & H). apply inv_gets in H1 as [-> ->].
  apply stM_bind_ok in H as (i1 & u1 & H1 & H). apply inv_on_state in H1 as ->. by apply hints_sol in H as ->.
Qed.

Lemma sys_read_agrees o cd ctx a0 a1 a2 i i' v0 v1 : wf (is_state i) -> fresh i -> is_u32 a1 -> is_u32 a2 ->
  sys_read Keccak256Hash a0 a1 a2 i = (i', Ok (v0, v1)) -> cd_slot cd 1 (is_memProof i') -> served o ctx i' -> preimage_fits (is_lastPreimage i') ->
  MIPS.sys_read Keccak256Hash sender o cd ctx a0 a1 a2 (sol_of (is_state i)) = Ok (v0, v1, sol_of (is_state i')).
Proof using Keccak_hash.
  intros Hw Hf H1 H2 H Hcd Hs Hfit. unfold sys_read, fdStdin, fdPreimageRead, fdHintRead in H. destruct (Z.eqb_spec a0 5) as [->|H5].
  - change (5 =? 0) with false in H. cbv iota in H. by apply preimage_word_agrees.
  - unfold MIPS.sys_read. destruct (Z.eqb_spec a0 5); [done|]. destruct (a0 =? 0); [|destruct (a0 =? 3)]; apply inv_ret in H as [-> H]; by injection H as -> ->.
Qed.

Lemma sys_write_agrees cd a0 a1 a2 i i' v0 v1 : wf (is_state i) -> fresh i -> is_u32 a1 -> is_u32 a2 ->
  sys_write Keccak256Hash lens a0 a1 a2 i = (i', Ok (v0, v1)) -> cd_slot cd 1 (is_memProof i') ->
  MIPS.sys_write Keccak256Hash cd a0 a1 a2 (sol_of (is_state i)) = Ok (v0, v1, sol_of (is_state i')).
Proof using Keccak_hash.
  intros Hw Hf H1 H2 H Hcd. unfold sys_write, fdStdout, fdStderr, fdHintWrite, fdPreimageWrite in H.
  assert (Hout : a0 = 1 \/ a0 = 2 \/ a0 = 4 -> v0 = a2 -> v1 = 0 -> sol_of (is_state i') = sol_of (is_state i) ->
            MIPS.sys_write Keccak256Hash cd a0 a1 a2 (sol_of (is_state i)) = Ok (v0, v1, sol_of (is_state i'))).
  { intros Ha0 -> -> ->. unfold MIPS.sys_write. by destruct Ha0 as [->|[->| ->]]. }
  destruct (Z.eqb_spec a0 1) as [->|]; [|destruct (Z.eqb_spec a0 2) as [->|]; [|destruct (Z.eqb_spec a0 4) as [->|]]].
  - apply stM_bind_ok in H as (i1 & out & Hr & H). apply range_sol in Hr; [|done|done]. apply stM_bind_ok in H as (i2 & u & Hm & H).
    apply inv_modify in Hm as ->. apply inv_ret in H as [-> H]. injection H as -> ->. auto.
  - apply stM_bind_ok in H as (i1 & out & Hr & H). apply range_sol in Hr; [|done|done]. apply stM_bind_ok in H as (i2 & u & Hm & H).
    apply inv_modify in Hm as ->. apply inv_ret in H as [-> H]. injection H as -> ->. auto.
  - apply stM_bind_ok in H as (i1 & out & Hr & H). apply range_sol in Hr; [|done|done]. apply stM_bind_ok in H as (i2 & u & Hm & H).
    apply write_hints_sol in Hm. apply inv_ret in H as [-> H]. injection H as -> ->. apply Hout; [auto|done|done|congruence].
  - destruct (Z.eqb_spec a0 6) as [->|]; [by apply preimage_key_agrees|]. apply inv_ret in H as [-> H]. injection H as -> ->. unfold MIPS.sys_write.
    destruct (Z.eqb_spec a0 1), (Z.eqb_spec a0 2), (Z.eqb_spec a0 4), (Z.eqb_spec a0 6); done.
Qed.

Lemma sys_fcntl_agrees a0 a1 : MIPS.sys_fcntl a0 a1 = sys_fcntl a0 a1.
Proof using.
  unfold MIPS.sys_fcntl, sys_fcntl, fdStdin, fdPreimageRead, fdHintRead, fdStdout, fdStderr, fdPreimageWrite, fdHintWrite, switch. cbn [existsb].
  destruct (_ =? 3); [|done]. rewrite !orb_false_r, !orb_assoc. done.
Qed.

Lemma handleSyscall_agrees o cd ctx i i' u : wf (is_state i) -> fresh i -> handleSyscall Keccak256Hash lens i = (i', Ok u) ->
  cd_slot cd 1 (is_memProof i') -> served o ctx i' -> preimage_fits (is_lastPreimage i') ->
  MIPS.handleSyscall Keccak256Hash sender o cd ctx (sol_of (is_state i)) = Ok (outputState (sol_of (is_state i'))).
Proof using Keccak_hash.
  intros Hw Hf H Hcd Hs Hfit. unfold handleSyscall in H. apply stM_bind_ok in H as (i1 & s & H1 & H). apply inv_gets in H1 as [-> ->]. cbv zeta in H.
  set (s := is_state i) in *. pose proof (wf_register _ _ Hw) as Hr. unfold MIPS.handleSyscall.
  change (MIPS.reg 2 (sol_of s)) with (reg 2 s). change (MIPS.reg 4 (sol_of s)) with (reg 4 s). change (MIPS.reg 5 (sol_of s)) with (reg 5 s). change (MIPS.reg 6 (sol_of s)) with (reg 6 s).
  cbv zeta. unfold sysExitGroup, sysMmap, sysBrk, sysClone, sysRead, sysWrite, sysFcntl in H. destruct (reg 2 s =? 4246); [apply inv_on_state in H as ->; done|].
  apply stM_bind_ok in H as (i1 & [v0 v1] & Hcall & H). apply inv_on_state in H as ->. cbn [set_state is_state is_memProof is_lastPreimage] in *.
  assert (Hs1 : served o ctx i1) by exact Hs. set (call := if reg 2 s =? 4090 then _ else _).
  assert (Hsol : call = Ok (v0, v1, sol_of (is_state i1))); [|by rewrite Hsol].
  unfold call. unfold switch in Hcall. cbn [existsb] in Hcall. rewrite !orb_false_r in Hcall. clear call.
  destruct (reg 2 s =? 4090).
  { unfold sys_mmap in Hcall. unfold MIPS.sys_mmap. cbv zeta in Hcall |- *. fold PageAddrMask. change 4095 with PageAddrMask. change 4096 with PageSize. destruct (reg 4 s =? 0).
    - apply stM_bind_ok in Hcall as (i2 & heap & H2 & Hcall). apply inv_gets in H2 as [-> ->]. apply stM_bind_ok in Hcall as (i3 & u3 & H3 & Hcall).
      apply inv_on_state in H3 as ->. apply inv_ret in Hcall as [-> Hcall]. by injection Hcall as -> ->.
    - apply inv_ret in Hcall as [-> Hcall]. by injection Hcall as -> ->. }
  destruct (reg 2 s =? 4045); [apply inv_ret in Hcall as [-> Hcall]; by injection Hcall as -> ->|].
  destruct (reg 2 s =? 4120); [apply inv_ret in Hcall as [-> Hcall]; by injection Hcall as -> ->|].
  destruct (reg 2 s =? 4003); [by apply sys_read_agrees|]. destruct (reg 2 s =? 4004); [by apply sys_write_agrees|].
  destruct (reg 2 s =? 4055).
  - apply inv_ret in Hcall as [-> Hcall]. rewrite sys_fcntl_agrees. by rewrite <- Hcall.
  - apply inv_ret in Hcall as [-> Hcall]. by injection Hcall as -> ->.
Qed.

(** ** Instructions *)

Lemma track_again a (i i' : IS) u : is_lastMemAccess i = a -> trackMemAccess Keccak256Hash a i = (i', Ok u) -> i' = i.
Proof using.
  intros Hl H. unfold trackMemAccess in H. apply stM_bind_ok in H as (i1 & e & H1 & H). apply inv_gets in H1 as [-> ->].
  apply stM_bind_ok in H as (i1 & l & H1 & H). apply inv_gets in H1 as [-> ->]. rewrite Hl, Z.eqb_refl, andb_false_r in H. by apply inv_ret in H as [-> _].
Qed.

(** The load at the start of an instruction. *)
Lemma load_agrees cd insn opcode rs rdReg i i1 rs' mem rd addr : wf (is_state i) -> fresh i -> is_u32 rs ->
  (if 0x20 <=? opcode then
     let rs := rs +₃₂ SE (Z.land insn 0xFFFF) 16 in
     let addr := Z.land rs 0xFFFFFFFC in
     _ ← trackMemAccess Keccak256Hash addr;
     mem ← on_memory (GetMemory addr);
     if (0x28 <=? opcode) && negb (opcode =? 0x30) then mret (rs, mem, 0, addr) else mret (rs, mem, rdReg, uint32_ones)
   else mret (rs, 0, rdReg, uint32_ones)) i = (i1, Ok (rs', mem, rd, addr)) ->
  is_u32 rs' /\ is_u32 mem /\
  (opcode < 0x20 /\ i1 = i /\ addr = uint32_ones \/
   0x20 <= opcode /\ exists a, word_addr a /\ accessed i i1 a /\ preimage_of i1 = preimage_of i /\ (addr = uint32_ones \/ addr = a)) /\
  ((0x20 <= opcode -> cd_slot cd 1 (is_memProof i1)) ->
  (if 0x20 <=? opcode then
     let rs := rs +₃₂ MIPS.SE (Z.land insn 0xFFFF) 16 in
     let addr := Z.land rs 0xFFFFFFFC in
     mem ← MIPS.readMem Keccak256Hash cd addr 1 (sol_of (is_state i));
     if (0x28 <=? opcode) && negb (opcode =? 0x30) then Ok (rs, mem, 0, addr) else Ok (rs, mem, rdReg, uint32_ones)
   else Ok (rs, 0, rdReg, uint32_ones)) = Ok (rs', mem, rd, addr)).
Proof using Keccak_hash.
  intros Hw Hf Hrs H. destruct (Z.leb_spec 0x20 opcode) as [Hop|Hop].
  2: { apply inv_ret in H as [-> H]. injection H as -> -> -> ->. split_and!; [done..|left; by split_and!|done]. }
  cbv zeta in *. rewrite SE_eq by (apply imm_range || done). set (a := Z.land (rs +₃₂ SE (Z.land insn 65535) 16) 4294967292) in *.
  pose proof (word_addr_mask _ (add32_range rs (SE (Z.land insn 65535) 16))) as Ha. fold a in Ha. pose proof (wf_Memory _ _ Hw) as Hm.
  apply stM_bind_ok in H as (i2 & u & Ht & H). apply stM_bind_ok in H as (i3 & v & Hg & H). destruct (track_get i i2 i3 u a v Hm Hf Ha Ht Hg) as (Hac & -> & Hpre).
  assert (Hi : is_u32 rs' /\ is_u32 mem /\ i1 = i3 /\ (addr = uint32_ones \/ addr = a)).
  { pose proof (mem_word_u32 Keccak256Hash _ a Hm Ha). destruct (_ && _); apply inv_ret in H as [-> H]; injection H as -> -> -> ->; auto using add32_range. }
  destruct Hi as (Hrs' & Hmem & -> & Haddr). split_and!; [done..|right; split; [lia|exists a; by split_and!]|]. intros Hcd. specialize (Hcd ltac:(lia)). rewrite (ac_proof _ _ _ Hac) in Hcd.
  rewrite (read_agrees cd 1 (vs_Memory (is_state i)) a) by done. cbn [mbind res_bind]. destruct (_ && _); apply inv_ret in H as [_ H]; by injection H as -> -> -> ->.
Qed.

Lemma agrees_try f f' (i i' : IS) u : (forall s, agrees (f s) (f' (sol_of s))) -> try_state f i = (i', Ok u) ->
  f' (sol_of (is_state i)) = Ok (outputState (sol_of (is_state i'))).
Proof using. intros Hf H. apply inv_try_state in H as (s & Hs & ->). specialize (Hf (is_state i)). rewrite Hs in Hf. exact Hf. Qed.

(** What is left after the load: the write and the register of the result. *)
Definition finish_store (opcode rtReg rdReg storeAddr val : Z) : stM IS unit :=
  _ ← (if (opcode =? 0x38) && negb (rtReg =? 0) then on_state (set_reg rtReg 1) else mret tt);
  _ ← (if negb (storeAddr =? uint32_ones) then
         _ ← trackMemAccess Keccak256Hash storeAddr;
         on_memory (SetMemory storeAddr val)
       else mret tt);
  try_state (handleRd rdReg val true).

Lemma finish_store_agrees cd opcode rtReg rdReg storeAddr val i0 i i' u a :
  wf (is_state i0) -> is_u32 val -> (storeAddr = uint32_ones /\ sol_of (is_state i) = sol_of (is_state i0) \/
    accessed i0 i a /\ word_addr a /\ (storeAddr = uint32_ones \/ storeAddr = a)) ->
  finish_store opcode rtReg rdReg storeAddr val i = (i', Ok u) ->
  is_memProof i' = is_memProof i /\ preimage_of i' = preimage_of i /\
  (cd_slot cd 1 (is_memProof i) ->
   (let s := if (opcode =? 0x38) && negb (rtReg =? 0) then MIPS.set_reg rtReg 1 (sol_of (is_state i0)) else sol_of (is_state i0) in
    s ← (if negb (storeAddr =? uint32_ones) then MIPS.writeMem Keccak256Hash cd storeAddr 1 val s else Ok s);
    MIPS.handleRd Keccak256Hash rdReg val true s) = Ok (outputState (sol_of (is_state i')))).
Proof using Keccak_hash.
  intros Hw Hv Hcase H. unfold finish_store in H. apply stM_bind_ok in H as (i1 & u1 & H1 & H).
  set (reg1 := fun s : State => if (opcode =? 0x38) && negb (rtReg =? 0) then set_reg rtReg 1 s else s).
  assert (Hi1 : i1 = set_state (reg1 (is_state i)) i).
  { unfold reg1. destruct (_ && _); [by apply inv_on_state in H1|]. apply inv_ret in H1 as [-> _]. by destruct i. }
  assert (Hreg : forall m s, sol_of (set_Memory m (reg1 s)) =
      (if (opcode =? 0x38) && negb (rtReg =? 0) then MIPS.set_reg rtReg 1 (MIPS.set_memRoot (mem_root m) (sol_of s)) else MIPS.set_memRoot (mem_root m) (sol_of s))).
  { intros m s. unfold reg1. by destruct (_ && _). }
  apply stM_bind_ok in H as (i2 & u2 & H2 & H). pose proof H as Hrd. apply inv_try_state in H as (s' & Hs' & Hi'). subst i'.
  pose proof (wf_Memory _ _ Hw) as Hm. set (m := vs_Memory (is_state i0)) in *.
  destruct Hcase as [[-> Hsol]|(Hac & Ha & Haddr)]; [|destruct Haddr as [->| ->]].
  - rewrite Z.eqb_refl in *. cbn [negb] in *. apply inv_ret in H2 as [-> _]. subst i1. cbn [set_state is_memProof]. split_and!; [done..|]. intros _. cbv zeta.
    cbn [mbind res_bind]. rewrite <- Hsol. pose proof (handleRd_agrees rdReg val true (reg1 (is_state i))) as Hag. cbn [set_state is_state] in Hs'. rewrite Hs' in Hag.
    cbn [agrees] in Hag. etrans; [|exact Hag]. f_equal. unfold reg1. by destruct (_ && _).
  - rewrite Z.eqb_refl in *. cbn [negb] in *. apply inv_ret in H2 as [-> _]. subst i1. cbn [set_state is_memProof]. split_and!; [done..|]. intros _. cbv zeta.
    cbn [mbind res_bind]. rewrite <- (accessed_sol _ _ _ Hac). pose proof (handleRd_agrees rdReg val true (reg1 (is_state i))) as Hag. cbn [set_state is_state] in Hs'. rewrite Hs' in Hag.
    cbn [agrees] in Hag. etrans; [|exact Hag]. f_equal. unfold reg1. by destruct (_ && _).
  - pose proof (mask_not_ones a Ha) as Hne. destruct (Z.eqb_spec a uint32_ones); [done|]. cbn [negb] in *. apply stM_bind_ok in H2 as (i3 & u3 & H3 & H2).
    apply track_again in H3 as ->. 2: { subst i1. apply Hac. }
    apply inv_on_memory in H2 as (m' & Hset & ->). subst i1. cbn [set_state is_memProof is_state] in *. split_and!; [done..|]. intros Hcd.
    destruct (ac_state _ _ _ Hac) as (m1 & Hs1 & Hm1). fold m in Hm1. rewrite Hs1 in Hset, Hs'.
    assert (Hset' : SetMemory a val m1 = (m', Ok u2)) by (rewrite <- Hset; unfold reg1; by destruct (_ && _)).
    destruct (SetMemory_spec Keccak256Hash m1 a val (proj1 Hm1) Ha) as (m2 & Hg & Hm2 & Hw2). rewrite Hset' in Hg. injection Hg as <- _.
    assert (Hw3 : written m m' a val) by (intros j; rewrite Hw2; by rewrite (proj2 Hm1)).
    rewrite (ac_proof _ _ _ Hac) in Hcd. fold m in Hcd. cbv zeta.
    rewrite (write_agrees cd m m' a) by (done || by destruct (_ && _)). cbn [mbind res_bind].
    pose proof (handleRd_agrees rdReg val true (set_Memory m' (reg1 (set_Memory m1 (is_state i0))))) as Hag. rewrite Hs' in Hag. cbn [agrees] in Hag. etrans; [|exact Hag]. rewrite Hreg, (sol_of_same m1 (is_state i0)) by done. f_equal.
    generalize (mem_root m') (sol_of (is_state i0)). intros root st. destruct (_ && _); reflexivity.
Qed.

Lemma res_bind_eq {A B} (r : res A) (f : A -> res B) a b : r = Ok a -> f a = b -> r ≫= f = b.
Proof using. by intros ->. Qed.

Lemma special_agrees o cd ctx fun_ rs rt rdReg i i' u : wf (is_state i) -> fresh i ->
  (if (fun_ =? 8) || (fun_ =? 9) then try_state (handleJump (if fun_ =? 9 then rdReg else 0) rs)
   else if fun_ =? 0xa then try_state (handleRd rdReg rs (rt =? 0))
   else if fun_ =? 0xb then try_state (handleRd rdReg rs (negb (rt =? 0)))
   else if fun_ =? 0xC then handleSyscall Keccak256Hash lens
   else try_state (handleHiLo fun_ rs rt rdReg)) i = (i', Ok u) ->
  cd_slot cd 1 (is_memProof i') -> served o ctx i' -> preimage_fits (is_lastPreimage i') ->
  (if (fun_ =? 8) || (fun_ =? 9) then MIPS.handleJump Keccak256Hash (if fun_ =? 8 then 0 else rdReg) rs (sol_of (is_state i))
   else if fun_ =? 0xa then MIPS.handleRd Keccak256Hash rdReg rs (rt =? 0) (sol_of (is_state i))
   else if fun_ =? 0xb then MIPS.handleRd Keccak256Hash rdReg rs (negb (rt =? 0)) (sol_of (is_state i))
   else if fun_ =? 0xC then MIPS.handleSyscall Keccak256Hash sender o cd ctx (sol_of (is_state i))
   else MIPS.handleHiLo Keccak256Hash fun_ rs rt rdReg (sol_of (is_state i))) = Ok (outputState (sol_of (is_state i'))).
Proof using Keccak_hash.
  intros Hw Hf H Hcd Hs Hfit. destruct (Z.eqb_spec fun_ 8) as [->|H8]; [|destruct (Z.eqb_spec fun_ 9) as [->|H9]]; cbn [orb] in *.
  - revert H. apply (agrees_try (handleJump 0 rs) (MIPS.handleJump Keccak256Hash 0 rs)). intros s. apply handleJump_agrees.
  - revert H. apply (agrees_try (handleJump rdReg rs) (MIPS.handleJump Keccak256Hash rdReg rs)). intros s. apply handleJump_agrees.
  - destruct (fun_ =? 0xa); [|destruct (fun_ =? 0xb); [|destruct (fun_ =? 0xC); [by apply handleSyscall_agrees with u|]]]; revert H.
    + apply (agrees_try _ (MIPS.handleRd Keccak256Hash rdReg rs (rt =? 0))). intros s. apply handleRd_agrees.
    + apply (agrees_try _ (MIPS.handleRd Keccak256Hash rdReg rs (negb (rt =? 0)))). intros s. apply handleRd_agrees.
    + apply (agrees_try _ (MIPS.handleHiLo Keccak256Hash fun_ rs rt rdReg)). intros s. apply handleHiLo_agrees.
Qed.

Lemma run_instruction_agrees o cd ctx insn opcode rtReg rs rt rdReg i i' u : wf (is_state i) -> fresh i -> is_u32 rs -> is_u32 rt ->
  run_instruction Keccak256Hash lens insn opcode rtReg rs rt rdReg i = (i', Ok u) ->
  cd_slot cd 1 (is_memProof i') -> served o ctx i' -> preimage_fits (is_lastPreimage i') ->
  MIPS.run_instruction Keccak256Hash sender o cd ctx insn opcode rtReg rs rt rdReg (sol_of (is_state i)) = Ok (outputState (sol_of (is_state i'))).
Proof using Keccak_hash.
  intros Hw Hf Hrs Hrt H Hcd Hserved Hfit. unfold run_instruction in H. apply stM_bind_ok in H as (i1 & [[[rs' mem] rd] addr] & Hload & H).
  apply (load_agrees cd) in Hload as (Hrs' & Hmem & Hcase & Hload); [|done..]. apply stM_bind_ok in H as (i2 & val & Hex & H). apply inv_lift in Hex as [-> Hex].
  pose proof (execute_eq insn rs' rt mem Hrs' Hrt Hmem) as Heq. pose proof (execute_range insn rs' rt mem Hrs' Hrt Hmem) as Hval. rewrite Hex in Heq, Hval. cbn [same_word_res ok_u32] in Heq, Hval.
  cbv zeta in H. destruct ((opcode =? 0) && (8 <=? _) && _ && _) eqn:Hspecial.
  - assert (H0 : opcode = 0) by (rewrite !andb_true_iff, Z.eqb_eq in Hspecial; tauto).
    destruct Hcase as [(_ & -> & ->)|(Hop & _)]; [|lia].
    refine (res_bind_eq _ _ _ _ (Hload ltac:(lia)) _). refine (res_bind_eq _ _ _ _ Heq _). cbv zeta. rewrite Hspecial.
    by apply (special_agrees _ _ _ _ _ _ _ _ _ u).
  - assert (Hfin : exists a, addr = uint32_ones /\ sol_of (is_state i1) = sol_of (is_state i) \/ accessed i i1 a /\ word_addr a /\ (addr = uint32_ones \/ addr = a)).
    { destruct Hcase as [(_ & -> & ->)|(_ & a & ? & ? & _ & ?)]; [exists 0; by left|exists a; right; by split_and!]. }
    destruct Hfin as (a & Hfin). change (finish_store opcode rtReg rd addr val i1 = (i', Ok u)) in H.
    destruct (finish_store_agrees cd opcode rtReg rd addr val i i1 i' u a Hw Hval Hfin H) as (Hp & _ & Hgo). rewrite Hp in Hcd.
    refine (res_bind_eq _ _ _ _ (Hload (fun _ => Hcd)) _). refine (res_bind_eq _ _ _ _ Heq _). cbv zeta. rewrite Hspecial, land_ones32 by done. by apply Hgo.
Qed.

Lemma decode_rt_agrees insn opcode rtReg s : MIPS.decode_rt insn opcode rtReg (sol_of s) = decode_rt insn opcode rtReg s.
Proof using. unfold MIPS.decode_rt, decode_rt. by rewrite SE_eq by (apply imm_range || done). Qed.

(** The fetch: the counter of the steps, and the word at the program counter. *)
Lemma fetch_agrees cd (i i2 : IS) insn : wf (is_state i) -> fresh i ->
  on_memory (GetMemory (vs_PC (is_state i))) (set_state (set_Step (vs_Step (is_state i) +₆₄ 1) (is_state i)) i) = (i2, Ok insn) ->
  cd_slot cd 0 (proof_bytes (vs_Memory (is_state i)) (vs_PC (is_state i))) ->
  wf (is_state i2) /\ fresh i2 /\ is_u32 insn /\ sol_of (is_state i2) = MIPS.set_step (vs_Step (is_state i) +₆₄ 1) (sol_of (is_state i)) /\
  vs_NextPC (is_state i2) = vs_NextPC (is_state i) /\ vs_Registers (is_state i2) = vs_Registers (is_state i) /\
  MIPS.readMem Keccak256Hash cd (vs_PC (is_state i)) 0 (MIPS.set_step (vs_Step (is_state i) +₆₄ 1) (sol_of (is_state i))) = Ok insn.
Proof using Keccak_hash.
  intros Hw Hf H Hcd. apply inv_on_memory in H as (m & Hg & ->). cbn [set_state is_state set_Step vs_Memory] in *.
  pose proof (wf_Memory _ _ Hw) as Hm. assert (Ha : word_addr (vs_PC (is_state i))).
  { split; [apply Hw|]. destruct (decide (vs_PC (is_state i) mod 4 = 0)) as [|Hn]; [done|]. rewrite GetMemory_unaligned in Hg by done. done. }
  destruct (GetMemory_spec Keccak256Hash _ _ Hm Ha) as (m1 & Hg1 & Hs). rewrite Hg1 in Hg. injection Hg as <- <-.
  split_and!; try done.
  - apply wf_set_Memory; [|apply Hs]. by apply wf_set_Step, u64_range.
  - by apply mem_word_u32 with Keccak256Hash.
  - rewrite (sol_of_same m1) by by apply same_same. done.
  - by apply read_agrees with (m := vs_Memory (is_state i)).
Qed.

Lemma mipsStep_agrees o cd ctx i i' u : wf (is_state i) -> fresh i -> mipsStep Keccak256Hash lens i = (i', Ok u) ->
  cd_slot cd 0 (proof_bytes (vs_Memory (is_state i)) (vs_PC (is_state i))) ->
  cd_slot cd 1 (is_memProof i') -> served o ctx i' -> preimage_fits (is_lastPreimage i') ->
  MIPS.step_state Keccak256Hash sender o cd ctx (sol_of (is_state i)) = Ok (outputState (sol_of (is_state i'))).
Proof using Keccak_hash.
  intros Hw Hf H Hcd0 Hcd1 Hs Hfit. unfold mipsStep in H. apply stM_bind_ok in H as (i1 & s & H1 & H). apply inv_gets in H1 as [-> ->].
  unfold MIPS.step_state. change (MIPS.exited (sol_of (is_state i))) with (if vs_Exited (is_state i) then 1 else 0).
  destruct (vs_Exited (is_state i)); [by apply inv_ret in H as [-> _]|]. change (negb (0 =? 0)) with false. cbv iota.
  apply stM_bind_ok in H as (i2 & u2 & H2 & H). apply inv_on_state in H2 as ->. apply stM_bind_ok in H as (i2 & insn & H2 & H).
  apply (fetch_agrees cd) in H2 as (Hw2 & Hf2 & Hinsn & Hsol & Hnext & Hregs & Hread); [|done..].
  set (s2 := MIPS.set_step (vs_Step (is_state i) +₆₄ 1) (sol_of (is_state i))) in *. cbv zeta in H |- *.
  change (MIPS.step_ (sol_of (is_state i))) with (vs_Step (is_state i)). fold s2. refine (res_bind_eq _ _ _ _ Hread _). change (MIPS.nextPC s2) with (vs_NextPC (is_state i)).
  change (MIPS.reg (Z.land (shr32 insn 21) 0x1F) s2) with (reg (Z.land (shr32 insn 21) 0x1F) (is_state i)). set (opcode := shr32 insn 26) in *. destruct ((opcode =? 2) || (opcode =? 3)) eqn:Hj.
  - assert (Hl : (if opcode =? 2 then 0 else 31) = if opcode =? 3 then 31 else 0).
    { apply orb_true_iff in Hj as [Hj|Hj]; apply Z.eqb_eq in Hj; by rewrite Hj. }
    rewrite Hl. rewrite <- Hsol. revert H. set (target := Z.lor _ _). apply (agrees_try (handleJump _ target) (MIPS.handleJump Keccak256Hash _ target)). intros s. apply handleJump_agrees.
  - set (rtReg := Z.land (shr32 insn 16) 31) in *. set (rs := reg (Z.land (shr32 insn 21) 31) (is_state i)) in *.
    pose proof (decode_rt_agrees insn opcode rtReg (is_state i)) as Hdec. pose proof (decode_rt_range Keccak256Hash insn opcode rtReg (is_state i) Hw (five_bits _)) as Hr.
    change (MIPS.decode_rt insn opcode rtReg s2) with (MIPS.decode_rt insn opcode rtReg (sol_of (is_state i))). rewrite Hdec. destruct (decode_rt insn opcode rtReg (is_state i)) as [rt rdReg].
    rewrite <- Hsol. clear Hj. destruct (_ || _).
    + revert H. apply (agrees_try (handleBranch opcode insn rtReg rs) (MIPS.handleBranch Keccak256Hash opcode insn rtReg rs)). intros s. apply handleBranch_agrees.
    + apply (run_instruction_agrees _ _ _ _ _ _ _ _ _ _ _ u); try done; [apply Hw|apply Hr].
Qed.
End Step.
