(* ===== verification/CannonCall.v ===== *)
(** * The calldata of a step, and the input of the oracle

    The state, the proofs and the pre-image of a witness are where the contract
    looks for them, and the pre-image that the machine has read can be loaded
    into the oracle contract. *)

From S2P Require Import Prelude Eth CannonMemory CannonTree CannonVM MipsContract MipsWords CannonTypes CannonSafety CannonStep.

(** ** Bytes at an offset *)

Definition seg (cd : bytes) (off : Z) (b : bytes) : Prop := 0 <= off /\ exists rest, drop (Z.to_nat off) cd = b ++ rest.

Lemma seg_start b : seg b 0 b.
Proof. split; [done|]. exists []. by rewrite app_nil_r. Qed.

Lemma seg_head cd off a b : seg cd off (a ++ b) -> seg cd off a.
Proof. intros [Ho [r Hr]]. split; [done|]. exists (b ++ r). by rewrite Hr, <- app_assoc. Qed.

Lemma seg_next cd off a b : seg cd off (a ++ b) -> seg cd (off + blen a) b.
Proof.
  intros [Ho [r Hr]]. pose proof (blen_nonneg a). split; [lia|]. exists r. rewrite Z2Nat.inj_add by done. unfold blen. rewrite Nat2Z.id, <- drop_drop, Hr, <- app_assoc.
  by rewrite drop_app_length.
Qed.

Lemma seg_drop cd off b : seg cd off b -> off + blen b = blen cd -> drop (Z.to_nat off) cd = b.
Proof.
  intros [Ho [r Hr]] Hl. pose proof (f_equal length Hr) as Hlen. rewrite length_drop, length_app in Hlen. unfold blen in Hl. destruct r; [by rewrite app_nil_r in Hr|cbn [length] in Hlen; lia].
Qed.

Lemma seg_load cd off h : seg cd off h -> length h = 32%nat -> MIPS.calldataload cd off = h.
Proof. intros [Ho [r Hr]] Hl. unfold MIPS.calldataload. rewrite Hr, <- app_assoc. by rewrite take_app_length'. Qed.

Lemma seg_word cd off h v : seg cd off h -> length h = 32%nat -> get_be h = v -> MIPS.calldataword cd off = v.
Proof. intros Hs Hl Hv. unfold MIPS.calldataword. by rewrite (seg_load _ _ _ Hs Hl). Qed.


Lemma word32_value v : is_u32 v -> get_be (uint32ToBytes32 v) = v.
Proof. intros Hv. unfold uint32ToBytes32. rewrite get_be_zeros_app. by apply get_put_be. Qed.

Lemma length_word32 v : length (uint32ToBytes32 v) = 32%nat.
Proof. unfold uint32ToBytes32. rewrite length_app, length_put_be. unfold zeros. by rewrite length_replicate. Qed.

Lemma length_word64 v : length (uint64ToBytes32 v) = 32%nat.
Proof. unfold uint64ToBytes32. rewrite length_app, length_put_be. unfold zeros. by rewrite length_replicate. Qed.

Lemma seg_u32 cd off v t : seg cd off (uint32ToBytes32 v ++ t) -> is_u32 v -> MIPS.calldataword cd off = v.
Proof. intros Hs Hv. apply (seg_word _ _ (uint32ToBytes32 v)); [by apply seg_head in Hs|apply length_word32|by apply word32_value]. Qed.

(** A field: what is left of it is in the calldata, and makes a word with it. *)
Lemma seg_field cd off b t size : seg cd off (b ++ t) -> bytes_ok (b ++ t) -> blen b = size -> 32 <= size + blen t -> 0 <= size <= 32 ->
  MIPS.field cd off size = get_be b.
Proof.
  intros [Ho [r Hr]] Hb Hs Ht Hsz. unfold MIPS.field, MIPS.calldataword, MIPS.calldataload, MIPS.evm_shr. rewrite Hr. apply bytes_ok_app in Hb as [Hb Hbt].
  unfold blen in *. replace (take 32 _) with (b ++ take (32 - length b)%nat t).
  2: { rewrite <- !app_assoc, take_app_ge, take_app_le by lia. done. }
  rewrite get_be_app_bits. set (t' := take _ t). assert (Hl : blen t' = 32 - size) by (unfold blen, t'; rewrite length_take; lia).
  pose proof (get_be_bits t' (bytes_ok_take _ _ Hbt)) as Hr2. rewrite Hl in *. destruct (Z.leb_spec 256 ((32 - size) * 8)) as [Hge|Hlt].
  - assert (size = 0) as -> by lia. destruct b; [done|cbn in Hs; lia].
  - replace ((32 - size) * 8) with (8 * (32 - size)) by lia. rewrite Z.shiftr_div_pow2 by lia. rewrite Z.div_add_l by lia. rewrite (Z.div_small (get_be t')) by done. lia.
Qed.

Lemma seg_put cd off n v t size : seg cd off (put_be n v ++ t) -> bytes_ok t -> Z.of_nat n = size -> 0 <= v < 256 ^ size -> 32 <= size + blen t -> size <= 32 ->
  MIPS.field cd off size = v /\ seg cd (off + size) t.
Proof.
  intros Hs Hb <- Hv Ht Hsz. split.
  - rewrite (seg_field cd off (put_be n v) t) by (done || (rewrite blen_put_be; done) || lia || (apply bytes_ok_app; split; [apply put_be_ok|done])). by apply get_put_be.
  - rewrite <- (blen_put_be n v). by apply seg_next.
Qed.

Lemma seg_registers cd regs off t : seg cd off (concat (map (put_be 4) regs) ++ t) -> bytes_ok t -> 28 <= blen t -> Forall is_u32 regs ->
  map (fun k => MIPS.field cd (off + 4 * Z.of_nat k) 4) (seq 0 (length regs)) = regs.
Proof.
  intros Hs Ht Hl Hall. revert off Hs. induction Hall as [|v regs Hv Hall IH]; intros off Hs; [done|]. cbn [map concat length seq] in *. rewrite <- app_assoc in Hs.
  assert (Hb : bytes_ok (concat (map (put_be 4) regs) ++ t)).
  { apply bytes_ok_app. split; [|done]. clear. induction regs as [|x regs IH]; [constructor|]. cbn [map concat]. apply bytes_ok_app. split; [apply put_be_ok|done]. }
  destruct (seg_put cd off 4 v _ 4 Hs Hb eq_refl Hv) as [Hf Hn]; [rewrite blen_app; pose proof (blen_nonneg (concat (map (put_be 4) regs))); lia|done|].
  f_equal; [by rewrite Z.mul_0_r, Z.add_0_r|]. rewrite <- seq_shift, map_map. rewrite <- (IH _ Hn) at 2. apply map_ext. intros k. f_equal. lia.
Qed.

(** The next field of a state in the calldata. *)
Ltac next_field H size off Hlen :=
  apply (seg_put _ _ _ _ _ size) in H as [-> H];
  [replace (_ + size) with off in H by lia|auto 20|reflexivity|assumption|rewrite ?blen_app, ?blen_put_be, ?Hlen; lia|lia].

(** The next part of the calldata, up to an offset. *)
Ltac next_part H off :=
  apply seg_next in H; match type of H with seg _ ?o _ => replace o with off in H end.

Section Call.
Context {Oracle : Type} `{!PreimageOracle Oracle}.
Variable Keccak256Hash : bytes -> Hash.
Context (Keccak_hash : forall b, is_hash (Keccak256Hash b)).
#[local] Notation wf := (vs_wf Keccak256Hash).
#[local] Notation IS := (InstrumentedState (Oracle := Oracle)).
#[local] Notation sol_of := (sol_of Keccak256Hash).
#[local] Notation mem_root := (mem_root Keccak256Hash).

(** ** The state *)

(** The witness of a state: the root of the memory, and the fields. *)
Definition state_bytes (s : State) : bytes := mem_root (vs_Memory s) ++ encode_fields s.

Lemma registers_u32 s : wf s -> Forall is_u32 (vs_Registers s).
Proof using.
  intros Hw. apply Forall_lookup_2. intros i v Hi. pose proof (wf_register _ _ Hw (Z.of_nat i)) as Hr. unfold reg in Hr. by rewrite Nat2Z.id, Hi in Hr.
Qed.

Lemma length_concat_words regs : length (concat (map (put_be 4) regs)) = (4 * length regs)%nat.
Proof using. induction regs as [|x regs IH]; [done|]. cbn [map concat length]. rewrite length_app, length_put_be, IH. lia. Qed.

Lemma concat_words_ok regs : bytes_ok (concat (map (put_be 4) regs)).
Proof using. induction regs as [|x regs IH]; [constructor|]. cbn [map concat]. apply bytes_ok_app. split; [apply put_be_ok|done]. Qed.

Lemma length_state_bytes s : wf s -> length (state_bytes s) = 226%nat.
Proof using Keccak_hash.
  intros Hw. destruct (mem_node_array Keccak256Hash Keccak_hash (vs_Memory s) 1 (wf_Memory _ _ Hw)) as [Hr _]. destruct (wf_PreimageKey _ _ Hw) as [Hk _].
  unfold state_bytes, encode_fields. rewrite !length_app, !length_put_be, length_concat_words, (wf_Registers _ _ Hw), Hk. unfold CannonTree.mem_root. rewrite Hr. done.
Qed.

Lemma seg_unpack cd c s : wf s -> seg cd c (state_bytes s ++ zeros 30) -> MIPS.unpack cd c = sol_of s.
Proof using Keccak_hash.
  intros Hw Hs. pose proof (mem_node_array Keccak256Hash Keccak_hash (vs_Memory s) 1 (wf_Memory _ _ Hw)) as [Hrl _]. fold (mem_root (vs_Memory s)) in Hrl.
  pose proof (wf_PreimageKey _ _ Hw) as [Hkl Hkb]. unfold state_bytes, encode_fields in Hs. rewrite <- !app_assoc in Hs.
  set (t := concat (map (put_be 4) (vs_Registers s)) ++ zeros 30) in *.
  assert (Ht : bytes_ok t) by (apply bytes_ok_app; split; [apply concat_words_ok|apply zeros_ok]).
  assert (Hlt : blen t = 158) by (unfold t, blen; rewrite length_app, length_concat_words, (wf_Registers _ _ Hw); reflexivity).
  pose proof (seg_load _ _ _ (seg_head _ _ _ _ Hs) Hrl) as Hroot. apply seg_next in Hs. rewrite (blen_array 32) in Hs by (by apply (mem_node_array Keccak256Hash Keccak_hash), Hw). change (Z.of_nat 32) with 32 in Hs.
  pose proof (seg_load _ _ _ (seg_head _ _ _ _ Hs) Hkl) as Hkey. apply seg_next in Hs. rewrite (blen_array 32) in Hs by (by apply Hw). change (Z.of_nat 32) with 32 in Hs.
  assert (Hbyte : forall x, is_u8 x -> [x] = put_be 1 x). { intros x Hx. unfold put_be. cbn. unfold is_u8 in Hx. by rewrite Z.mod_small by lia. }
  rewrite (Hbyte (vs_ExitCode s)), (Hbyte (if vs_Exited s then 1 else 0)) in Hs by (first [apply Hw|by destruct (vs_Exited s)]).
  assert (Hput : forall n x b, bytes_ok b -> bytes_ok (put_be n x ++ b)) by (intros; apply bytes_ok_app; split; [apply put_be_ok|done]).
  replace (c + 32 + 32) with (c + 64) in Hs by lia. unfold MIPS.unpack. rewrite Hroot, Hkey.
  assert (Hranges : is_u32 (vs_PreimageOffset s) /\ is_u32 (vs_PC s) /\ is_u32 (vs_NextPC s) /\ is_u32 (vs_LO s) /\ is_u32 (vs_HI s) /\ is_u32 (vs_Heap s) /\
            is_u8 (vs_ExitCode s) /\ is_u8 (if vs_Exited s then 1 else 0) /\ is_u64 (vs_Step s)) by (split_and!; try apply Hw; by destruct (vs_Exited s)).
  destruct Hranges as (R1 & R2 & R3 & R4 & R5 & R6 & R7 & R8 & R9).
  next_field Hs 4 (c + 68) Hlt. next_field Hs 4 (c + 72) Hlt. next_field Hs 4 (c + 76) Hlt. next_field Hs 4 (c + 80) Hlt. next_field Hs 4 (c + 84) Hlt.
  next_field Hs 4 (c + 88) Hlt. next_field Hs 1 (c + 89) Hlt. next_field Hs 1 (c + 90) Hlt. next_field Hs 8 (c + 98) Hlt.
  rewrite <- (wf_Registers _ _ Hw).
  rewrite (seg_registers cd (vs_Registers s) (c + 98) (zeros 30)); [done|done|apply zeros_ok|done|by apply registers_u32].
Qed.

Lemma StateHash_spec s : wf s -> StateHash Keccak256Hash (state_bytes s) = Ok (MIPS.outputState Keccak256Hash (sol_of s)).
Proof using Keccak_hash.
  intros Hw. unfold StateHash. assert (Hl : blen (state_bytes s) = 226) by (unfold blen; by rewrite length_state_bytes). rewrite Hl. cbn [negb Z.eqb Pos.eqb].
  pose proof (mem_node_array Keccak256Hash Keccak_hash (vs_Memory s) 1 (wf_Memory _ _ Hw)) as [Hrl _]. fold (mem_root (vs_Memory s)) in Hrl. pose proof (wf_PreimageKey _ _ Hw) as [Hkl _].
  assert (Hat : exists a b, length a = 88%nat /\ state_bytes s = a ++ vs_ExitCode s :: (if vs_Exited s then 1 else 0) :: b).
  { eexists (mem_root (vs_Memory s) ++ vs_PreimageKey s ++ put_be 4 (vs_PreimageOffset s) ++ put_be 4 (vs_PC s) ++ put_be 4 (vs_NextPC s) ++ put_be 4 (vs_LO s) ++ put_be 4 (vs_HI s) ++ put_be 4 (vs_Heap s)), _.
    split; [by rewrite !length_app, !length_put_be, Hrl, Hkl|]. unfold state_bytes, encode_fields. rewrite <- !app_assoc. reflexivity. }
  assert (H88 : state_bytes s !! 88%nat = Some (vs_ExitCode s) /\ state_bytes s !! 89%nat = Some (if vs_Exited s then 1 else 0)).
  { destruct Hat as (a & b & Ha & ->). rewrite !lookup_app_r by lia. by rewrite Ha. }
  destruct H88 as [-> ->].
  unfold MIPS.outputState, MIPS.with_type. f_equal.
  assert (Hbyte : forall x, is_u8 x -> put_be 1 x = [x]). { intros x Hx. unfold put_be. cbn. unfold is_u8 in Hx. by rewrite Z.mod_small by lia. }
  cbn [CannonSafety.sol_of MIPS.memRoot MIPS.preimageKey MIPS.preimageOffset MIPS.pc MIPS.nextPC MIPS.lo MIPS.hi MIPS.heap MIPS.exitCode MIPS.exited MIPS.step_ MIPS.registers].
  rewrite (Hbyte (vs_ExitCode s)) by apply Hw. rewrite (Hbyte (if vs_Exited s then 1 else 0)) by (by destruct (vs_Exited s)).
  f_equal. by destruct (vs_Exited s).
Qed.

Lemma EncodeWitness_spec (i : IS) : wf (is_state i) -> exists m,
  EncodeWitness Keccak256Hash i = (set_state (set_Memory m (is_state i)) i, Ok (state_bytes (is_state i))) /\ mem_same Keccak256Hash (vs_Memory (is_state i)) m.
Proof using.
  intros Hw. destruct (MerkleRoot_spec Keccak256Hash _ (wf_Memory _ _ Hw)) as (m & Hm & Hc). exists m. split; [|apply cached_same; [apply Hw|done]].
  unfold EncodeWitness, on_memory, mbind, stM_bind. rewrite Hm. reflexivity.
Qed.

(** ** The call *)

Variable sender StepBytes4 : bytes.
Context (Step_selector : length StepBytes4 = 4%nat).

Lemma step_input wit ctx : blen (sw_State wit) = 226 -> EncodeStepInput StepBytes4 wit ctx =
  StepBytes4 ++ uint32ToBytes32 96 ++ uint32ToBytes32 384 ++ uint64ToBytes32 ctx ++ uint32ToBytes32 226 ++ (sw_State wit ++ zeros 30) ++
  uint32ToBytes32 (u32 (blen (sw_MemProof wit))) ++ sw_MemProof wit.
Proof using.
  intros Hl. unfold EncodeStepInput. rewrite Hl. change (if negb (226 mod 32 =? 0) then _ else _) with 256. cbv zeta. rewrite blen_app, Hl. reflexivity.
Qed.

Lemma step_call o wit ctx s : wf s -> sw_State wit = state_bytes s ->
  let cd := EncodeStepInput StepBytes4 wit ctx in
  MIPS.step Keccak256Hash sender StepBytes4 o cd = MIPS.step_state Keccak256Hash sender o cd (uint64ToBytes32 ctx) (sol_of s) /\
  drop 420 cd = sw_MemProof wit.
Proof using Keccak_hash Step_selector.
  intros Hw Hst. assert (Hl : blen (sw_State wit) = 226) by (rewrite Hst; unfold blen; by rewrite length_state_bytes). cbv zeta. rewrite (step_input wit ctx Hl).
  set (cd := StepBytes4 ++ _). pose proof (seg_start cd) as Hs. unfold cd in Hs at 2.
  assert (Hcl : blen cd = 420 + blen (sw_MemProof wit)).
  { unfold cd. rewrite !blen_app, blen_zeros, Hl. unfold blen. rewrite !length_word32, length_word64, Step_selector. lia. }
  assert (H4 : take 4 cd = StepBytes4) by (unfold cd; by rewrite take_app_length'). clearbody cd.
  assert (H32 : forall v, blen (uint32ToBytes32 v) = 32) by (intros v; unfold blen; by rewrite length_word32).
  next_part Hs 4. 2: { unfold blen. rewrite Step_selector. lia. }
  pose proof (seg_u32 _ _ 96 _ Hs ltac:(done)) as Hoff1. next_part Hs 36; [|rewrite H32; lia].
  pose proof (seg_u32 _ _ 384 _ Hs ltac:(done)) as Hoff2. next_part Hs 68; [|rewrite H32; lia].
  pose proof (seg_load _ _ _ (seg_head _ _ _ _ Hs) (length_word64 _)) as Hctx. next_part Hs 100; [|unfold blen; rewrite length_word64; lia].
  pose proof (seg_u32 _ _ 226 _ Hs ltac:(done)) as Hlen1. next_part Hs 132; [|rewrite H32; lia].
  pose proof (seg_head _ _ _ _ Hs) as Hstate. rewrite Hst in Hstate. apply (seg_unpack cd 132 s Hw) in Hstate. next_part Hs 388; [|rewrite blen_app, Hl, blen_zeros; lia].
  set (n := u32 (blen (sw_MemProof wit))) in *. assert (Hn : 0 <= n <= blen (sw_MemProof wit)) by (pose proof (blen_nonneg (sw_MemProof wit)); unfold n, u32; ulia).
  assert (Hn32 : is_u32 n) by apply u32_range.
  pose proof (seg_u32 _ _ n _ Hs Hn32) as Hlen2. next_part Hs 420; [|rewrite H32; lia].
  apply seg_drop in Hs; [|by rewrite Hcl]. split; [|exact Hs].
  unfold MIPS.step, MIPS.decode_bytes, MIPS.require. rewrite bool_decide_true by done. pose proof (blen_nonneg (sw_MemProof wit)) as Hnn.
  destruct (Z.leb_spec (4 + 32 * 3) (blen cd)); [|lia]. cbn [mbind res_bind]. rewrite Hoff1. change (96 <? 2 ^ 64) with true. cbn [mbind res_bind].
  destruct (Z.ltb_spec (4 + 96 + 31) (blen cd)); [|lia]. cbn [mbind res_bind]. change (4 + 96) with 100. rewrite Hlen1. change (226 <? 2 ^ 64) with true. cbn [mbind res_bind].
  destruct (Z.leb_spec (100 + 32 + 226) (blen cd)); [|lia]. cbn [mbind res_bind mret res_ret]. change (4 + 32) with 36. rewrite Hoff2. change (384 <? 2 ^ 64) with true. cbn [mbind res_bind].
  destruct (Z.ltb_spec (4 + 384 + 31) (blen cd)); [|lia]. cbn [mbind res_bind]. change (4 + 384) with 388. rewrite Hlen2. unfold is_u32 in Hn32. destruct (Z.ltb_spec n (2 ^ 64)); [|lia]. cbn [mbind res_bind].
  destruct (Z.leb_spec (388 + 32 + n) (blen cd)); [|lia]. cbn [mbind res_bind mret res_ret]. change (100 + 32) with 132. change (388 + 32) with 420. change (4 + 64) with 68.
  cbn [negb Z.eqb Pos.eqb]. by rewrite Hctx, Hstate.
Qed.
End Call.

(** ** The pre-image *)

Section Preimage.
Variable Keccak256Hash : bytes -> Hash.

(** What an oracle answers: with the prefix of its length, and under its key
    when the key is a hash. *)
Definition good_preimage (key : Hash) (data : bytes) : Prop :=
  bytes_ok data /\ blen data < 2 ^ 32 - 16 /\ (default 0 (key !! 0%nat) = 2 -> MIPS.with_type 2 (Keccak256Hash data) = key).

Definition good_read (key : Hash) (pre : bytes) : Prop :=
  is_hash key /\ exists data, pre = put_be 8 (blen data) ++ data /\ good_preimage key data.

Lemma preimage_part value k off : 0 <= off <= blen value -> off + 32 <= blen value + Z.of_nat k ->
  slice off (off + 32) (value ++ zeros k) = (copy32 (drop (Z.to_nat off) value)).1.
Proof using.
  intros Ho Hk. unfold slice, copy32, blen, zeros in *. cbn [fst]. rewrite drop_app_le by lia. replace (Z.to_nat (off + 32 - off)) with 32%nat by lia.
  rewrite !take_app, !take_replicate, !length_drop. f_equal. f_equal. lia.
Qed.

Lemma stored_part key off value o size k : 0 <= off <= blen value -> off + 32 <= blen value + Z.of_nat k -> blen value = size + 8 ->
  MIPS.readPreimage (MIPS.store_part key off (slice off (off + 32) (value ++ zeros k)) size o) key off = Ok (copy32 (drop (Z.to_nat off) value)).
Proof using.
  intros Ho Hk Hs. unfold MIPS.readPreimage, MIPS.store_part. cbn [MIPS.preimagePartOk MIPS.preimageLengths MIPS.preimageParts]. rewrite !lookup_insert_eq. unfold MIPS.require. cbn [from_option id mbind res_bind].
  cbv zeta. rewrite (preimage_part value k off Ho Hk).
  assert (H2 : (copy32 (drop (Z.to_nat off) value)).2 = Z.min 32 (size + 8 - off)) by (unfold copy32, blen in *; cbn [snd]; rewrite length_drop; lia).
  destruct (copy32 (drop (Z.to_nat off) value)) as [dat n]. cbn [fst snd] in *. destruct (Z.leb_spec (size + 8) (off + 32)); [destruct (Z.ltb_spec (size + 8) off); [lia|]|]; cbn [mbind res_bind mret res_ret]; do 2 f_equal; lia.
Qed.

Variable sender LoadLocalDataBytes4 LoadKeccak256PreimagePartBytes4 : bytes.
Context (Local_selector : length LoadLocalDataBytes4 = 4%nat) (Keccak_selector : length LoadKeccak256PreimagePartBytes4 = 4%nat)
  (selectors : LoadLocalDataBytes4 <> LoadKeccak256PreimagePartBytes4).
#[local] Notation call_oracle := (MIPS.call_oracle Keccak256Hash sender LoadLocalDataBytes4 LoadKeccak256PreimagePartBytes4).

Lemma local_call o key ctx data off : is_hash key -> default 0 (key !! 0%nat) = 1 -> bytes_ok data -> blen data <= 32 -> 0 <= off <= blen data + 8 ->
  exists o', call_oracle (LoadLocalDataBytes4 ++ key ++ uint64ToBytes32 ctx ++ (copy32 data).1 ++ uint32ToBytes32 (blen data) ++ uint32ToBytes32 off) o = Ok o' /\
    MIPS.readPreimage o' (MIPS.localize Keccak256Hash sender key (uint64ToBytes32 ctx)) off = Ok (copy32 (drop (Z.to_nat off) (put_be 8 (blen data) ++ data))).
Proof using Local_selector.
  clear Keccak_selector. intros [Hkl _] Hk Hb Hl Ho. pose proof (blen_nonneg data). set (cd := _ ++ _). pose proof (seg_start cd) as Hs. unfold cd in Hs at 2.
  destruct (copy32_spec data) as [Hcl _]. assert (Hlen : blen cd = 164) by (unfold cd, blen; rewrite !length_app, !length_word32, length_word64, Hcl, Hkl, Local_selector; lia).
  assert (H4 : take 4 cd = LoadLocalDataBytes4) by (unfold cd; by rewrite take_app_length'). clearbody cd. assert (H32 : forall h : bytes, length h = 32%nat -> blen h = 32) by (unfold blen; lia).
  next_part Hs 4. 2: { unfold blen. rewrite Local_selector. lia. }
  pose proof (seg_load _ _ _ (seg_head _ _ _ _ Hs) Hkl) as Hkey. next_part Hs 36; [|rewrite H32 by done; lia].
  pose proof (seg_load _ _ _ (seg_head _ _ _ _ Hs) (length_word64 _)) as Hctx. next_part Hs 68; [|rewrite H32 by apply length_word64; lia].
  pose proof (seg_load _ _ _ (seg_head _ _ _ _ Hs) Hcl) as Hword. next_part Hs 100; [|rewrite H32 by done; lia].
  pose proof (seg_u32 _ _ (blen data) _ Hs ltac:(unfold is_u32; lia)) as Hsize. next_part Hs 132; [|rewrite H32 by apply length_word32; lia].
  pose proof (seg_word _ _ _ off Hs (length_word32 _) (word32_value off ltac:(unfold is_u32; lia))) as Hoff. unfold MIPS.calldataword in Hsize, Hoff.
  unfold MIPS.call_oracle. rewrite bool_decide_true by done. rewrite Hlen. cbn [MIPS.require Z.leb mbind res_bind]. change (4 + 32 * 0) with 4. change (4 + 32 * 1) with 36.
  change (4 + 32 * 2) with 68. change (4 + 32 * 3) with 100. change (4 + 32 * 4) with 132. rewrite Hkey, Hctx, Hword, Hsize, Hoff. change (4 + 32 * 5 <=? 164) with true. cbn [mbind res_bind MIPS.require].
  unfold MIPS.loadLocalData, MIPS.localizeIdent. assert (Ht : MIPS.with_type 1 key = key) by (destruct key; [done|]; cbn in Hk |- *; by rewrite Hk). rewrite Ht.
  destruct (Z.leb_spec (2 ^ 256) (blen data + 8)); [lia|]. destruct (Z.ltb_spec (blen data + 8) off); [lia|]. destruct (Z.ltb_spec 32 (blen data)); [lia|]. cbn [orb]. eexists. split; [done|].
  assert (Hm : (copy32 data).1 ++ zeros 32 = data ++ zeros (64 - length data)).
  { unfold copy32, zeros, blen in *. cbn [fst]. rewrite take_app_ge by lia. rewrite take_replicate, <- app_assoc, <- replicate_add. do 2 f_equal. lia. }
  rewrite Hm, app_assoc. unfold blen in *. apply stored_part; unfold blen; rewrite length_app, length_put_be; lia.
Qed.

Lemma keccak_call o key data off : MIPS.with_type 2 (Keccak256Hash data) = key -> bytes_ok data -> blen data < 2 ^ 32 - 16 -> 0 <= off <= blen data + 8 ->
  exists o', call_oracle (LoadKeccak256PreimagePartBytes4 ++ uint32ToBytes32 off ++ uint32ToBytes32 64 ++ uint32ToBytes32 (blen data) ++ data) o = Ok o' /\
    MIPS.readPreimage o' key off = Ok (copy32 (drop (Z.to_nat off) (put_be 8 (blen data) ++ data))).
Proof using Keccak_selector selectors.
  clear Local_selector. intros Hk Hb Hl Ho. pose proof (blen_nonneg data). set (cd := _ ++ _). pose proof (seg_start cd) as Hs. unfold cd in Hs at 2.
  assert (Hlen : blen cd = 100 + blen data) by (unfold cd, blen; rewrite !length_app, !length_word32, Keccak_selector; lia).
  assert (H4 : take 4 cd = LoadKeccak256PreimagePartBytes4) by (unfold cd; by rewrite take_app_length'). clearbody cd. assert (H32 : forall v, blen (uint32ToBytes32 v) = 32) by (intros v; unfold blen; by rewrite length_word32).
  next_part Hs 4. 2: { unfold blen. rewrite Keccak_selector. lia. }
  pose proof (seg_u32 _ _ off _ Hs ltac:(unfold is_u32; lia)) as Hoff. next_part Hs 36; [|rewrite H32; lia].
  pose proof (seg_u32 _ _ 64 _ Hs ltac:(done)) as Harr. next_part Hs 68; [|rewrite H32; lia].
  pose proof (seg_u32 _ _ (blen data) _ Hs ltac:(unfold is_u32; lia)) as Hsize. next_part Hs 100; [|rewrite H32; lia].
  apply seg_drop in Hs; [|lia].
  unfold MIPS.call_oracle. rewrite bool_decide_false by congruence. rewrite bool_decide_true by done. rewrite Hlen. unfold MIPS.decode_bytes, MIPS.require.
  destruct (Z.leb_spec (4 + 32 * 2) (100 + blen data)); [|lia]. cbn [mbind res_bind]. change 0x24 with 36. rewrite Harr. change (64 <? 2 ^ 64) with true. cbn [mbind res_bind]. rewrite Hlen.
  destruct (Z.ltb_spec (4 + 64 + 31) (100 + blen data)); [|lia]. cbn [mbind res_bind]. change (4 + 64) with 68. rewrite Hsize. destruct (Z.ltb_spec (blen data) (2 ^ 64)); [|lia]. cbn [mbind res_bind].
  destruct (Z.leb_spec (68 + 32 + blen data) (100 + blen data)); [|lia]. cbn [mbind res_bind mret res_ret]. change (68 + 32) with 100. change (4 + 32 * 0) with 4. unfold MIPS.calldataword in Hoff. rewrite Hoff.
  unfold MIPS.loadKeccak256PreimagePart. change 0x44 with 68. rewrite Hsize, Hs. rewrite Z.mod_small by lia. destruct (Z.ltb_spec (blen data + 8) off); [lia|]. eexists. split; [done|].
  rewrite take_app_length' by (unfold blen; lia). rewrite Hk, app_assoc. unfold blen in *. apply stored_part; unfold blen; rewrite length_app, length_put_be; lia.
Qed.

(** The input made of a witness loads what the machine has read. *)
Lemma oracle_input wit ctx input o : good_read (sw_PreimageKey wit) (sw_PreimageValue wit) -> 0 <= sw_PreimageOffset wit <= blen (sw_PreimageValue wit) ->
  EncodePreimageOracleInput LoadLocalDataBytes4 LoadKeccak256PreimagePartBytes4 wit ctx = Ok input ->
  exists o', call_oracle input o = Ok o' /\
    MIPS.readPreimage o' (if default 0 (sw_PreimageKey wit !! 0%nat) =? 1 then MIPS.localize Keccak256Hash sender (sw_PreimageKey wit) (uint64ToBytes32 ctx) else sw_PreimageKey wit)
      (sw_PreimageOffset wit) = Ok (copy32 (drop (Z.to_nat (sw_PreimageOffset wit)) (sw_PreimageValue wit))).
Proof using Local_selector Keccak_selector selectors.
  destruct wit as [st mp key value off]. cbn [sw_PreimageKey sw_PreimageValue sw_PreimageOffset]. intros (Hk & data & -> & Hb & Hl & Hh) Ho. unfold EncodePreimageOracleInput.
  cbn [sw_PreimageKey sw_PreimageValue sw_PreimageOffset]. destruct (negb _); [done|]. cbv zeta. rewrite blen_app, blen_put_be in *. change (Z.of_nat 8) with 8 in *. pose proof (blen_nonneg data).
  rewrite drop_app_length' by done. replace (8 + blen data - 8) with (blen data) by lia. unfold LocalKeyType, Keccak256KeyType. destruct (Z.eqb_spec (default 0 (key !! 0%nat)) 1) as [H1|H1].
  - destruct (Z.ltb_spec (32 + 8) (8 + blen data)); [done|]. destruct (Z.ltb_spec (8 + blen data) 8); [lia|]. intros Hin. injection Hin as <-. rewrite u32_id by (unfold is_u32; lia).
    apply local_call; (done || lia).
  - destruct (Z.eqb_spec (default 0 (key !! 0%nat)) 2) as [H2|]; [|done]. destruct (Z.ltb_spec (8 + blen data) 8); [lia|]. intros Hin. injection Hin as <-.
    replace (u32 (8 + blen data) -₃₂ 8) with (blen data) by (unfold sub32; rewrite (u32_id (8 + blen data)), u32_id by (unfold is_u32; lia); lia).
    apply keccak_call; (auto || lia).
Qed.
End Preimage.
