(* ===== verification/CannonReads.v ===== *)
(** * The pre-image that the machine has read

    A step reads at most once, and what the machine keeps of it is an answer of
    the oracle for that key, with an offset within it. *)

From S2P Require Import Prelude Eth CannonMemory CannonTree CannonVM MipsContract MipsWords CannonTypes CannonSafety CannonStep CannonCall.

Section Reads.
Context {Oracle : Type} `{!PreimageOracle Oracle}.
Variable Keccak256Hash : bytes -> Hash.
Variable lens : nat -> Z.
#[local] Notation IS := (InstrumentedState (Oracle := Oracle)).

(** What the oracle promises of its answers. *)
Definition answers_well : Prop := forall key o o' data, is_hash key -> po_GetPreimage key o = (o', Ok data) -> good_preimage Keccak256Hash key data.

(** The pre-image is an answer, unless there was none; the offset is within it,
    unless there is none. *)
Definition reads_ok (i : IS) : Prop :=
  (is_lastPreimageKey i = zeros 32 /\ is_lastPreimage i = [] \/ good_read Keccak256Hash (is_lastPreimageKey i) (is_lastPreimage i)) /\
  (is_lastPreimageOffset i <> uint32_ones -> 0 <= is_lastPreimageOffset i <= blen (is_lastPreimage i)).

(** A call that leaves the pre-image alone, and one that leaves the key and the
    offset of the state alone too. *)
Definition quiet {A} (f : stM IS A) : Prop := forall i i' a, f i = (i', Ok a) -> preimage_of i' = preimage_of i.
Definition calm {A} (f : stM IS A) : Prop := forall i i' a, f i = (i', Ok a) -> preimage_of i' = preimage_of i /\
  vs_PreimageKey (is_state i') = vs_PreimageKey (is_state i) /\ vs_PreimageOffset (is_state i') = vs_PreimageOffset (is_state i).

Definition key_ok (i : IS) : Prop := is_hash (vs_PreimageKey (is_state i)) /\ is_u32 (vs_PreimageOffset (is_state i)).
Definition ends {A} (f : stM IS A) : Prop := forall i i' a, key_ok i -> reads_ok i -> f i = (i', Ok a) -> reads_ok i'.

Lemma reads_ok_same (i i' : IS) : preimage_of i' = preimage_of i -> reads_ok i -> reads_ok i'.
Proof using. unfold preimage_of, reads_ok. intros H. injection H as -> -> ->. done. Qed.

Lemma quiet_ends {A} (f : stM IS A) : quiet f -> ends f.
Proof using. intros Hf i i' a _ Hr H. by apply Hf, reads_ok_same in H. Qed.

Lemma ends_bind {A B} (f : stM IS A) (g : A -> stM IS B) : calm f -> (forall a, ends (g a)) -> ends (f ≫= g).
Proof using.
  intros Hf Hg i i' b Hk Hr H. apply stM_bind_ok in H as (i1 & a & H1 & H2). apply Hf in H1 as (Hp & Hkey & Hoff). apply Hg in H2; [done| |by apply (reads_ok_same i)].
  unfold key_ok. by rewrite Hkey, Hoff.
Qed.

Lemma ends_then {A B} (f : stM IS A) (g : A -> stM IS B) : ends f -> (forall a, quiet (g a)) -> ends (f ≫= g).
Proof using. intros Hf Hg i i' b Hk Hr H. apply stM_bind_ok in H as (i1 & a & H1 & H2). apply Hf in H1; [|done..]. by apply Hg, reads_ok_same in H2. Qed.

Lemma quiet_bind {A B} (f : stM IS A) (g : A -> stM IS B) : quiet f -> (forall a, quiet (g a)) -> quiet (f ≫= g).
Proof using. intros Hf Hg i i' b H. apply stM_bind_ok in H as (i1 & a & H1 & H2). apply Hf in H1. apply Hg in H2. congruence. Qed.

Lemma calm_bind {A B} (f : stM IS A) (g : A -> stM IS B) : calm f -> (forall a, calm (g a)) -> calm (f ≫= g).
Proof using. intros Hf Hg i i' b H. apply stM_bind_ok in H as (i1 & a & H1 & H2). apply Hf in H1 as (? & ? & ?). apply Hg in H2 as (? & ? & ?). split_and!; congruence. Qed.

Lemma calm_quiet {A} (f : stM IS A) : calm f -> quiet f.
Proof using. intros Hf i i' a H. apply Hf in H. apply H. Qed.

Lemma calm_ret {A} (a : A) : calm (mret a).
Proof using. intros i i' b H. apply inv_ret in H as [-> _]. by split_and!. Qed.
Lemma calm_throw {A} e : calm (throw (A := A) e).
Proof using. by intros i i' b H. Qed.
Lemma calm_gets {A} (f : IS -> A) : calm (gets f).
Proof using. intros i i' b H. apply inv_gets in H as [-> _]. by split_and!. Qed.
Lemma calm_lift {A} (r : res A) : calm (lift r).
Proof using. intros i i' b H. apply inv_lift in H as [-> _]. by split_and!. Qed.
Lemma calm_on_memory {A} (f : stM Memory A) : calm (on_memory f).
Proof using. intros i i' b H. apply inv_on_memory in H as (m & _ & ->). by split_and!. Qed.
Lemma calm_access a e p : calm (modify (set_memAccess a e p)).
Proof using. intros i i' b H. apply inv_modify in H as ->. by split_and!. Qed.
Lemma quiet_on_state f : quiet (on_state f).
Proof using. intros i i' b H. by injection H as <-. Qed.
Lemma quiet_try_state f : quiet (try_state f).
Proof using. intros i i' b H. apply inv_try_state in H as (s & _ & ->). done. Qed.
Lemma quiet_outputs (f g : IS -> bytes) : quiet (modify (fun i => set_outputs (f i) (g i) i)).
Proof using. intros i i' b H. by injection H as <-. Qed.
Lemma quiet_on_oracle {A} (f : stM Oracle A) : quiet (on_oracle f).
Proof using. intros i i' b. unfold on_oracle. destruct (f _). intros H. by injection H as <- _. Qed.

Hint Resolve calm_ret calm_throw calm_gets calm_lift calm_on_memory calm_access calm_bind : calm.
Hint Resolve quiet_on_state quiet_try_state quiet_outputs quiet_on_oracle quiet_bind : calm.
Hint Extern 5 (quiet _) => (apply calm_quiet; solve [auto with calm]) : calm.

Ltac calm_step :=
  match goal with
  | |- quiet (if ?b then _ else _) => destruct b
  | |- calm (if ?b then _ else _) => destruct b
  | |- quiet (let '(_, _) := ?p in _) => destruct p
  | |- quiet (_ ≫= _) => apply quiet_bind; [|intros ?]
  | |- calm (_ ≫= _) => apply calm_bind; [|intros ?]
  | |- _ => solve [auto with calm]
  end.

Lemma calm_track a : calm (trackMemAccess Keccak256Hash a).
Proof using. unfold trackMemAccess. repeat calm_step. Qed.
Hint Resolve calm_track : calm.

Lemma quiet_hints fuel : quiet (process_hints fuel).
Proof using. induction fuel as [|fuel IH]; cbn [process_hints]; [auto with calm|]. cbv zeta. repeat calm_step. Qed.

Lemma quiet_sys_write a0 a1 a2 : quiet (sys_write Keccak256Hash lens a0 a1 a2).
Proof using.
  unfold sys_write, write_hints, write_preimage_key. pose proof quiet_hints. cbv zeta. repeat calm_step.
Qed.
Hint Resolve quiet_sys_write : calm.

Context (Oracle_answers : answers_well).

Lemma ends_readPreimage key off : is_hash key -> is_u32 off -> ends (readPreimage key off).
Proof using Oracle_answers.
  intros Hk Ho i i' [dat n] _ [Hr _] H. pose proof H as Hinv. apply readPreimage_inv in Hinv as (_ & _ & _ & _ & Hkey & Hoff & _ & Hle).
  split; [|rewrite Hoff; unfold is_u32 in Ho; lia]. rewrite Hkey. unfold readPreimage in H.
  apply stM_bind_ok in H as (i1 & last & H1 & H). apply inv_gets in H1 as [-> ->]. apply stM_bind_ok in H as (i1 & u1 & H1 & H).
  assert (Hi : is_lastPreimage i' = is_lastPreimage i1).
  { apply stM_bind_ok in H as (i2 & u2 & H2 & H). apply inv_modify in H2 as ->. apply stM_bind_ok in H as (i2 & pre & H2 & H). apply inv_gets in H2 as [-> ->].
    destruct (_ <? _); [done|]. by apply inv_ret in H as [-> _]. }
  rewrite Hi. clear H Hi. case_bool_decide as Heq; [apply inv_ret in H1 as [-> _]; by rewrite Heq|]. right.
  apply stM_bind_ok in H1 as (i2 & l & H2 & H1). apply inv_gets in H2 as [-> ->]. apply stM_bind_ok in H1 as (i2 & u2 & H2 & H1). apply inv_modify in H2 as ->.
  apply stM_bind_ok in H1 as (i2 & data & H2 & H1). apply inv_modify in H1 as ->. unfold on_oracle in H2. destruct (po_GetPreimage key _) as [o r] eqn:Hget.
  injection H2 as <- ->. cbn [set_lastPreimage is_lastPreimage]. split; [done|]. exists data. split; [done|]. by eapply Oracle_answers.
Qed.

Lemma ends_gets {A B} (f : IS -> A) (g : A -> stM IS B) : (forall i, key_ok i -> ends (g (f i))) -> ends (gets f ≫= g).
Proof using. intros Hg i i' b Hk Hr H. apply stM_bind_ok in H as (i1 & a & H1 & H2). apply inv_gets in H1 as [-> ->]. by eapply Hg. Qed.

Lemma ends_read_word a1 a2 : ends (read_preimage_word Keccak256Hash a1 a2).
Proof using Oracle_answers.
  unfold read_preimage_word. cbv zeta. apply ends_bind; [auto with calm|intros _]. apply ends_bind; [auto with calm|intros mem].
  apply ends_gets. intros i Hi. apply ends_gets. intros j Hj. apply ends_then; [apply ends_readPreimage; [apply Hi|apply Hj]|]. intros [dat n]. repeat calm_step.
Qed.

Lemma ends_handleSyscall : ends (handleSyscall Keccak256Hash lens).
Proof using Oracle_answers.
  unfold handleSyscall. apply ends_gets. intros i Hi. cbv zeta. destruct (_ =? _); [apply quiet_ends; auto with calm|]. apply ends_then; [|intros [v0 v1]; auto with calm].
  apply switch_all; [|apply quiet_ends; auto with calm]. repeat (apply Forall_cons; split; cbn [snd]); try solve [apply quiet_ends; unfold sys_mmap; cbv zeta; repeat calm_step]; [|apply Forall_nil_2].
  unfold sys_read. repeat (destruct (_ =? _); try (apply quiet_ends; solve [auto with calm])); apply ends_read_word.
Qed.

Lemma ends_run_instruction insn opcode rtReg rs rt rdReg : ends (run_instruction Keccak256Hash lens insn opcode rtReg rs rt rdReg).
Proof using Oracle_answers.
  unfold run_instruction. apply ends_bind; [cbv zeta; repeat calm_step|]. intros [[[rs' mem] rd] addr]. apply ends_bind; [auto with calm|intros val]. cbv zeta.
  destruct (_ && _).
  - repeat (destruct (_ || _) || destruct (_ =? _); try solve [apply quiet_ends; auto with calm]). apply ends_handleSyscall.
  - apply quiet_ends. repeat calm_step.
Qed.

Lemma ends_mipsStep : ends (mipsStep Keccak256Hash lens).
Proof using Oracle_answers.
  unfold mipsStep. apply ends_gets. intros i Hi. destruct (vs_Exited _); [apply quiet_ends; auto with calm|]. apply ends_bind.
  { intros j j' u H. by injection H as <-. }
  intros _. apply ends_bind; [auto with calm|intros insn]. cbv zeta. destruct (_ || _); [apply quiet_ends; auto with calm|]. destruct (decode_rt _ _ _ _) as [rt rdReg].
  destruct (_ || _); [apply quiet_ends; auto with calm|apply ends_run_instruction].
Qed.
End Reads.
