(* ===== verification/CannonProof.v ===== *)
(** * A step on chain

    The witness of a step of the machine, sent to the contracts as the
    challenger sends it, makes the contract compute the hash of the state after
    the step. *)

From S2P Require Import Prelude Eth CannonMemory CannonTree CannonVM MipsContract MipsWords CannonTypes CannonSafety CannonStep CannonCall CannonReads.

Section Proof.
Context {Oracle : Type} `{!PreimageOracle Oracle}.
Variable Keccak256Hash : bytes -> Hash.
Variable sender : bytes.
Variable lens : nat -> Z.
Variables StepBytes4 LoadLocalDataBytes4 LoadKeccak256PreimagePartBytes4 : bytes.
Context (Keccak_hash : forall b, is_hash (Keccak256Hash b)).
#[local] Notation wf := (vs_wf Keccak256Hash).
#[local] Notation IS := (InstrumentedState (Oracle := Oracle)).
#[local] Notation sol_of := (sol_of Keccak256Hash).
#[local] Notation Step := (Step Keccak256Hash lens true).

Lemma state_bytes_same m s : mem_same Keccak256Hash (vs_Memory s) m -> state_bytes Keccak256Hash (set_Memory m s) = state_bytes Keccak256Hash s.
Proof using. intros Hm. unfold state_bytes. cbn [set_Memory vs_Memory]. by rewrite (mem_same_root _ _ _ Hm). Qed.

(** What a step with a proof consists of: the proof of the instruction, the
    witness of the state, and the step. *)
Lemma Step_inv (i i' : IS) r : wf (is_state i) -> Step i = (i', Ok r) ->
  exists i1 u wit, mipsStep Keccak256Hash lens i1 = (i', Ok u) /\ r = Some wit /\ fresh i1 /\ wf (is_state i1) /\ sol_of (is_state i1) = sol_of (is_state i) /\
    proof_bytes Keccak256Hash (vs_Memory (is_state i1)) (vs_PC (is_state i1)) = proof_bytes Keccak256Hash (vs_Memory (is_state i)) (vs_PC (is_state i)) /\
    preimage_of i1 = (is_lastPreimage i, is_lastPreimageKey i, uint32_ones) /\
    sw_State wit = state_bytes Keccak256Hash (is_state i) /\
    sw_MemProof wit = proof_bytes Keccak256Hash (vs_Memory (is_state i)) (vs_PC (is_state i)) ++ is_memProof i' /\
    (sw_PreimageValue wit, sw_PreimageKey wit, sw_PreimageOffset wit) = if decide (is_lastPreimageOffset i' = uint32_ones) then ([], zeros 32, 0) else preimage_of i'.
Proof using.
  intros Hw H. unfold CannonVM.Step in H. apply stM_bind_ok in H as (i0 & u0 & H0 & H). apply inv_modify in H0 as ->. apply stM_bind_ok in H as (i1 & w & Hwit & H).
  apply stM_bind_ok in Hwit as (i2 & pc & H2 & Hwit). apply inv_gets in H2 as [-> ->]. apply stM_bind_ok in Hwit as (i2 & p & H2 & Hwit).
  apply inv_on_memory in H2 as (m & Hp & ->). cbn [set_lastOffset set_memAccess is_state] in Hp. pose proof (wf_Memory _ _ Hw) as Hm.
  destruct (MerkleProof_spec Keccak256Hash _ (vs_PC (is_state i)) Hm (wf_PC _ _ Hw)) as (m1 & Hp1 & Hc). rewrite Hp1 in Hp. injection Hp as <- <-.
  pose proof (cached_same _ _ _ Hm Hc) as Hs1. apply stM_bind_ok in Hwit as (i3 & st & H3 & Hwit). apply inv_ret in Hwit as [-> ->].
  cbn [set_lastOffset set_memAccess set_state is_state is_memProof] in H3.
  destruct (EncodeWitness_spec Keccak256Hash (set_state (set_Memory m1 (is_state i)) (set_lastOffset uint32_ones (set_memAccess uint32_ones true (is_memProof i) i)))) as (m2 & He & Hs2).
  { cbn [set_state is_state]. apply wf_set_Memory; [done|apply Hs1]. }
  cbn [set_lastOffset set_memAccess set_state is_state is_memProof set_Memory vs_Memory] in He, Hs2. cbn [set_lastOffset set_memAccess set_state is_state is_memProof] in H3. rewrite He in H3. injection H3 as <- <-.
  pose proof (mem_same_trans _ _ _ _ Hs1 Hs2) as Hs. apply stM_bind_ok in H as (i4 & u4 & Hstep & H). apply stM_bind_ok in H as (i5 & j & H5 & H). apply inv_gets in H5 as [-> ->].
  set (i1 := set_state _ _) in Hstep. exists i1, u4.
  assert (Hi1 : wf (is_state i1) /\ sol_of (is_state i1) = sol_of (is_state i) /\
            proof_bytes Keccak256Hash (vs_Memory (is_state i1)) (vs_PC (is_state i1)) = proof_bytes Keccak256Hash (vs_Memory (is_state i)) (vs_PC (is_state i))).
  { unfold i1. cbn [set_state is_state]. split_and!; [apply wf_set_Memory; [by apply wf_set_Memory, Hs1|apply Hs]|exact (sol_of_same _ m2 (is_state i) Hs)|exact (mem_same_proof _ _ m2 _ Hs)]. }
  destruct Hi1 as (Hw1 & Hsol & Hproof). pose proof (state_bytes_same m1 (is_state i) Hs1) as Hst.
  assert (Hmp : forall a b c, sw_MemProof (mkStepWitness (state_bytes Keccak256Hash (set_Memory m1 (is_state i)))
            (proof_bytes Keccak256Hash (vs_Memory (is_state i)) (vs_PC (is_state i)) ++ is_memProof i4) a b c) =
            proof_bytes Keccak256Hash (vs_Memory (is_state i)) (vs_PC (is_state i)) ++ is_memProof i4) by done.
  cbn [sw_State sw_MemProof] in H. fold (proof_bytes Keccak256Hash (vs_Memory (is_state i)) (vs_PC (is_state i))) in H.
  destruct (Z.eqb_spec (is_lastPreimageOffset i4) uint32_ones) as [Ho|Ho]; cbn [negb] in H; apply inv_ret in H as [-> ->]; eexists; (split; [exact Hstep|]); (split; [reflexivity|]);
    (split; [done|]); (split; [exact Hw1|]); (split; [exact Hsol|]); (split; [exact Hproof|]); (split; [done|]); (split; [exact Hst|]); (split; [reflexivity|]).
  - by rewrite decide_True.
  - by rewrite decide_False.
Qed.

Lemma good_read_fits key pre : good_read Keccak256Hash key pre -> preimage_fits pre.
Proof using.
  intros (_ & data & -> & Hb & Hl & _). split; [apply bytes_ok_app; split; [apply put_be_ok|done]|]. rewrite blen_app, blen_put_be. unfold uint32_ones. lia.
Qed.

Lemma reads_fit (i : IS) : reads_ok Keccak256Hash i -> preimage_fits (is_lastPreimage i).
Proof using. intros [[[_ ->]|Hg] _]; [by split; [apply Forall_nil_2|]|by apply good_read_fits in Hg]. Qed.

Context (Oracle_answers : answers_well (Oracle := Oracle) Keccak256Hash) (Step_selector : length StepBytes4 = 4%nat) (Local_selector : length LoadLocalDataBytes4 = 4%nat)
  (Keccak_selector : length LoadKeccak256PreimagePartBytes4 = 4%nat) (selectors : LoadLocalDataBytes4 <> LoadKeccak256PreimagePartBytes4).

(** The contract runs the step on what the machine gave, when its oracle has
    what the machine has read. *)
Lemma step_on_chain o ctx (i i' : IS) wit : wf (is_state i) -> reads_ok Keccak256Hash i -> Step i = (i', Ok (Some wit)) ->
  served Keccak256Hash sender o (uint64ToBytes32 ctx) i' ->
  MIPS.step Keccak256Hash sender StepBytes4 o (EncodeStepInput StepBytes4 wit ctx) = Ok (MIPS.outputState Keccak256Hash (sol_of (is_state i'))).
Proof using Keccak_hash Oracle_answers Step_selector.
  intros Hw Hr H Hs. apply Step_inv in H as (i1 & u & w & Hstep & Hwit & Hf & Hw1 & Hsol & Hproof & Hpre & Hst & Hmp & _); [|done]. injection Hwit as <-.
  destruct (step_call Keccak256Hash Keccak_hash sender StepBytes4 Step_selector o wit ctx (is_state i) Hw Hst) as [-> Hdrop]. rewrite <- Hsol.
  assert (Hr1 : reads_ok Keccak256Hash i1) by (unfold preimage_of in Hpre; injection Hpre as Hp1 Hp2 Hp3; unfold reads_ok; rewrite Hp1, Hp2, Hp3; split; [apply Hr|done]).
  assert (Hr' : reads_ok Keccak256Hash i') by (apply (ends_mipsStep Keccak256Hash lens Oracle_answers i1 i' u); [split; apply Hw1|done|done]).
  apply (mipsStep_agrees Keccak256Hash sender lens Keccak_hash o _ (uint64ToBytes32 ctx) i1 i' u); try done.
  - rewrite Hproof. exists (is_memProof i'). change (Z.to_nat (proof_offset 0)) with 420%nat. by rewrite Hdrop, Hmp.
  - exists []. change (Z.to_nat (proof_offset 1)) with (420 + 896)%nat. rewrite <- drop_drop, Hdrop, Hmp, app_nil_r. apply drop_app_length'.
    symmetry. apply (length_proof_bytes Keccak256Hash Keccak_hash). apply Hw.
  - by apply reads_fit.
Qed.

Lemma reads_after (i i' : IS) r : wf (is_state i) -> reads_ok Keccak256Hash i -> Step i = (i', Ok r) -> wf (is_state i') /\ reads_ok Keccak256Hash i'.
Proof using Oracle_answers.
  intros Hw Hr H. split; [by apply (keeps_Step Keccak256Hash lens true i i' r)|]. apply Step_inv in H as (i1 & u & w & Hstep & _ & _ & Hw1 & _ & _ & Hpre & _); [|done].
  apply (ends_mipsStep Keccak256Hash lens Oracle_answers i1 i' u); [split; apply Hw1| |done]. unfold preimage_of in Hpre. injection Hpre as Hp1 Hp2 Hp3. unfold reads_ok. rewrite Hp1, Hp2, Hp3. split; [apply Hr|done].
Qed.

(** The state after a step, as the machine hashes it. *)
Lemma state_hash_after (i : IS) : wf (is_state i) -> exists m w, EncodeWitness Keccak256Hash i = (m, Ok w) /\ StateHash Keccak256Hash w = Ok (MIPS.outputState Keccak256Hash (sol_of (is_state i))).
Proof using Keccak_hash.
  intros Hw. destruct (EncodeWitness_spec Keccak256Hash i Hw) as (m & He & _). eexists _, _. split; [exact He|]. by apply StateHash_spec.
Qed.

(** C26. What the machine hands to the chain is right: when a step of the Go machine returns a witness, the contract, called with the input made of the witness, returns the hash of the state after the step; a pre-image the machine has read is first accepted by the oracle contract, and a machine that was well formed stays so. *)
Theorem onchain_step ctx (i i' : IS) wit : wf (is_state i) -> reads_ok Keccak256Hash i -> Step i = (i', Ok (Some wit)) ->
  exists j w h, EncodeWitness Keccak256Hash i' = (j, Ok w) /\ StateHash Keccak256Hash w = Ok h /\ wf (is_state i') /\ reads_ok Keccak256Hash i' /\
    (is_lastPreimageOffset i' = uint32_ones -> forall o, MIPS.step Keccak256Hash sender StepBytes4 o (EncodeStepInput StepBytes4 wit ctx) = Ok h) /\
    (forall input o, EncodePreimageOracleInput LoadLocalDataBytes4 LoadKeccak256PreimagePartBytes4 wit ctx = Ok input ->
      exists o', MIPS.call_oracle Keccak256Hash sender LoadLocalDataBytes4 LoadKeccak256PreimagePartBytes4 input o = Ok o' /\
        MIPS.step Keccak256Hash sender StepBytes4 o' (EncodeStepInput StepBytes4 wit ctx) = Ok h).
Proof using Keccak_hash Oracle_answers Step_selector Local_selector Keccak_selector selectors.
  intros Hw Hr H. destruct (reads_after i i' (Some wit) Hw Hr H) as [Hw' Hr']. destruct (state_hash_after i' Hw') as (j & w & He & Hh). exists j, w, (MIPS.outputState Keccak256Hash (sol_of (is_state i'))).
  split; [exact He|]. split; [exact Hh|]. split; [done|]. split; [done|]. split.
  - intros Ho o. apply (step_on_chain o ctx i); try done. by intros Hn.
  - intros input o Hin. pose proof H as Hinv. apply Step_inv in Hinv as (_ & _ & w0 & _ & Hwit & _ & _ & _ & _ & _ & _ & _ & Hpre); [|done]. injection Hwit as <-.
    destruct (decide (is_lastPreimageOffset i' = uint32_ones)) as [Ho|Ho].
    { injection Hpre as Hp1 Hp2 Hp3. exfalso. revert Hin. unfold EncodePreimageOracleInput, HasPreimage. rewrite Hp2. by rewrite bool_decide_true. }
    unfold preimage_of in Hpre. injection Hpre as Hp1 Hp2 Hp3. destruct Hr' as [Hg Hb]. destruct Hg as [[Hz _]|Hg].
    { exfalso. revert Hin. unfold EncodePreimageOracleInput, HasPreimage. rewrite Hp2, Hz. by rewrite bool_decide_true. }
    destruct (oracle_input Keccak256Hash sender LoadLocalDataBytes4 LoadKeccak256PreimagePartBytes4 Local_selector Keccak_selector selectors wit ctx input o) as (o' & Hcall & Hread); [by rewrite Hp1, Hp2|rewrite Hp1, Hp3; auto|done|].
    exists o'. split; [done|]. apply (step_on_chain o' ctx i); try done. intros _. rewrite <- Hp1, <- Hp2, <- Hp3. exact Hread.
Qed.

(** ** Many steps *)

(** The machine is stepped, with or without proofs. *)
Fixpoint run (proofs : list bool) : stM IS unit :=
  match proofs with
  | [] => mret tt
  | proof :: proofs => _ ← CannonVM.Step Keccak256Hash lens proof; run proofs
  end.

Lemma machine_run_wf proofs (i i' : IS) u : wf (is_state i) -> run proofs i = (i', Ok u) -> wf (is_state i').
Proof using.
  revert i. induction proofs as [|p proofs IH]; intros i Hw H; cbn [run] in H; [by apply inv_ret in H as [-> _]|].
  apply stM_bind_ok in H as (i1 & w & H1 & H). apply keeps_Step in H1 as [H1 _]; [|done]. by apply (IH i1).
Qed.

(** C29. The machine keeps its types: from a well-formed state, whatever the program does and however the oracle answers, after any number of steps the registers and the fields are in the range of their types, register 0 is zero, the key is a hash and the memory, with the hashes it has cached, is consistent; so the root that is computed is the root of the bytes in memory. *)
Theorem machine_keeps_types proofs (i i' : IS) u : wf (is_state i) -> run proofs i = (i', Ok u) ->
  wf (is_state i') /\ reg 0 (is_state i') = 0 /\ (forall k, is_u32 (reg k (is_state i'))) /\ length (vs_Registers (is_state i')) = 32%nat /\
  exists m, MerkleRoot Keccak256Hash (vs_Memory (is_state i')) = (m, Ok (mem_root Keccak256Hash (vs_Memory (is_state i')))).
Proof using.
  intros Hw H. apply machine_run_wf in H as Hw'; [|done]. split_and!; try apply Hw'.
  destruct (MerkleRoot_spec Keccak256Hash _ (wf_Memory _ _ Hw')) as (m & Hm & _). by exists m.
Qed.
End Proof.

(** ** Hints *)

Section Hints.
Context {Oracle : Type} `{!PreimageOracle Oracle}.
#[local] Notation IS := (InstrumentedState (Oracle := Oracle)).

(** C30. A hint is taken from the buffer only when it is all of it: written to an empty buffer with the prefix of its length, a hint goes to the oracle; when more bytes follow it, it is not delivered and everything stays in the buffer; and when it is not complete yet, the machine panics instead of waiting for the rest. *)
Theorem hints_taken_when_exact n rest (i : IS) : is_u32 n -> blen rest < 2 ^ 32 - 4 -> vs_LastHint (is_state i) = [] ->
  let data := put_be 4 n ++ rest in
  (n = blen rest -> write_hints data i =
     (set_oracle (po_Hint rest (is_preimageOracle i)).1 (set_state (set_LastHint [] (is_state i)) i), (po_Hint rest (is_preimageOracle i)).2)) /\
  (n < blen rest -> write_hints data i = (set_state (set_LastHint data (is_state i)) i, Ok tt)) /\
  (blen rest < n -> exists i', write_hints data i = (i', Err slice_bounds)).
Proof using.
  intros Hn Hr Hbuf data. pose proof (blen_nonneg rest) as H0. assert (Hl : blen data = 4 + blen rest) by (unfold data; rewrite blen_app, blen_put_be; lia).
  assert (Htake : get_be (take 4 data) = n) by (unfold data; rewrite take_app_length' by (by rewrite length_put_be); by apply word_get).
  assert (Hdrop : drop 4 data = rest) by (unfold data; by rewrite drop_app_length' by by rewrite length_put_be).
  set (i1 := set_state (set_LastHint data (is_state i)) i).
  assert (Hw : write_hints data i = process_hints (S (3 + length rest)) i1).
  { unfold write_hints. unfold mbind, stM_bind, gets. rewrite Hbuf. cbn [app]. unfold on_state, modify. replace (length data) with (S (3 + length rest)); [done|].
    unfold blen in Hl. lia. }
  assert (Hhead : process_hints (S (3 + length rest)) i1 = if blen rest <=? n then
      (if ((4 +₃₂ n) <? 4) || (blen data <? 4 +₃₂ n) then throw slice_bounds else
         _ ← on_state (set_LastHint (drop (Z.to_nat (4 +₃₂ n)) data)); _ ← on_oracle (po_Hint (slice 4 (4 +₃₂ n) data)); process_hints (3 + length rest)) i1
      else (i1, Ok tt)).
  { cbn [process_hints]. unfold mbind at 1, stM_bind at 1, gets. cbn [is_state i1 set_state set_LastHint vs_LastHint]. destruct (Z.ltb_spec (blen data) 4); [lia|].
    rewrite Htake, Hdrop, u32_id by (unfold is_u32; lia). by destruct (_ <=? _). }
  rewrite Hw, Hhead. unfold is_u32 in Hn. split_and!; intros Hc.
  - rewrite Hc in *. rewrite Z.leb_refl.
    assert (Hsum : 4 +₃₂ blen rest = blen data) by (unfold add32; rewrite u32_id; unfold is_u32; lia). rewrite Hsum.
    destruct (Z.ltb_spec (blen data) 4); [lia|]. rewrite Z.ltb_irrefl. cbn [orb]. assert (Hnil : drop (Z.to_nat (blen data)) data = []) by (apply drop_ge; unfold blen; lia).
    assert (Hslice : slice 4 (blen data) data = rest) by (unfold data; apply slice_app_end; rewrite ?blen_app, blen_put_be; lia). rewrite Hnil, Hslice.
    unfold mbind, stM_bind, on_state, modify, on_oracle. cbn [i1 set_state is_preimageOracle is_state set_LastHint]. destruct (po_Hint rest (is_preimageOracle i)) as [o [[]|]]; done.
  - destruct (Z.leb_spec (blen rest) n); [lia|done].
  - destruct (Z.leb_spec (blen rest) n); [|lia]. assert (Hpanic : ((4 +₃₂ n <? 4) || (blen data <? 4 +₃₂ n)) = true); [|rewrite Hpanic; by eexists].
    apply orb_true_iff. destruct (Z.ltb_spec (4 +₃₂ n) 4) as [|Hge]; [by left|right]. apply Z.ltb_lt. unfold add32, u32 in Hge |- *. ulia.
Qed.
End Hints.

(** ** The memory *)

Section Memory.
Variable Keccak256Hash : bytes -> Hash.

(** C27. The memory is an array of words with a Merkle root: a write to an aligned address succeeds, a read gives back the last word written there and the words elsewhere as they were, one leaf of the tree changes, and the root that is computed with the hashes cached before is that of the new leaves. *)
Theorem memory_is_array m addr v : mem_inv Keccak256Hash m -> word_addr addr -> is_u32 v ->
  exists m', SetMemory addr v m = (m', Ok tt) /\ mem_inv Keccak256Hash m' /\
    (forall b, word_addr b -> exists m2, GetMemory b m' = (m2, Ok (if decide (b = addr) then v else mem_word m b)) /\ mem_inv Keccak256Hash m2) /\
    (forall y, mem_leaf m' y = if decide (y = leaf_index addr) then copy_at (addr mod 32) (put_be 4 v) (mem_leaf m y) else mem_leaf m y) /\
    exists m2, MerkleRoot Keccak256Hash m' = (m2, Ok (mem_node Keccak256Hash m' 1)) /\ mem_inv Keccak256Hash m2.
Proof using.
  intros Hm Ha Hv. destruct (SetMemory_spec Keccak256Hash m addr v Hm Ha) as (m' & Hs & Hm' & Hw). exists m'. split; [done|]. split; [done|]. split; [|split].
  - intros b Hb. destruct (GetMemory_spec Keccak256Hash m' b Hm' Hb) as (m2 & Hg & Hsame). exists m2. rewrite Hg. rewrite (written_word Keccak256Hash m m' addr v b) by done. split; [done|apply Hsame].
  - intros y. destruct (written_leaf Keccak256Hash m m' addr v Hm Ha Hw) as [Hin Hout]. case_decide as Hy; [rewrite Hy; exact Hin|by apply Hout].
  - destruct (MerkleRoot_spec Keccak256Hash m' Hm') as (m2 & Hr & Hc). exists m2. split; [exact Hr|apply Hc].
Qed.

(** C28. A verified read is binding: whatever the calldata holds, a word that the contract reads under a memory root is the word at that aligned address of every memory with that root, or the proof itself exhibits a collision: at some level above the word, the pair of nodes that the contract hashes and the pair of nodes of the memory differ and have the same hash. *)
Theorem verified_read_binds (Keccak_hash : forall b, is_hash (Keccak256Hash b)) calldata k m addr s v :
  mem_inv Keccak256Hash m -> is_u32 addr -> MIPS.memRoot s = mem_root Keccak256Hash m -> MIPS.readMem Keccak256Hash calldata addr k s = Ok v ->
  word_addr addr /\ v = mem_word m addr \/
  exists i a b, proof_pairs Keccak256Hash calldata k addr !! i = Some a /\ mem_pairs Keccak256Hash m addr !! i = Some b /\
    a <> b /\ Keccak256Hash a = Keccak256Hash b.
Proof using. intros. by eapply readMem_binds. Qed.
End Memory.
