(* ===== verification/CannonExample.v ===== *)
(** * The machine on a small program

    A program that is one system call, with a hash and an oracle that compute:
    the hypotheses of the theorems about the machine hold of it. *)

From S2P Require Import Prelude Eth CannonMemory CannonTree CannonVM MipsContract MipsWords CannonTypes CannonSafety CannonStep CannonCall CannonReads CannonProof.

Definition toy_hash (b : bytes) : Hash := put_be 32 (get_be b mod (2 ^ 255 - 19)).

Lemma toy_is_hash b : is_hash (toy_hash b).
Proof. split; [apply length_put_be|apply put_be_ok]. Qed.

(** The oracle has one pre-image. *)
Definition toy_data : bytes := [1; 2; 3; 4; 5].
Definition toy_key : Hash := MIPS.with_type 2 (toy_hash toy_data).

#[export] Instance toy_oracle : PreimageOracle unit := {|
  po_Hint := fun _ o => (o, Ok tt);
  po_GetPreimage := fun key o => (o, if bool_decide (key = toy_key) then Ok toy_data else Err (Errorf "not found"));
|}.

Lemma toy_answers : answers_well (Oracle := unit) toy_hash.
Proof. intros key o o' data _ H. cbn in H. case_bool_decide as Hk; [|done]. injection H as _ <-. subst key. split_and!; [by repeat (constructor; [done|])|done|done]. Qed.

(** The memory: a system call at 0; and the registers: it reads a word of the
    pre-image to 65. *)
Definition toy_memory : Memory := (SetMemory 0 12 NewMemory).1.
Definition toy_registers : list Z := [0; 0; 4003; 0; 5; 65; 4] ++ replicate 25 0.
Definition toy_state : State := mkState toy_memory toy_key 8 0 4 0 0 0x20000000 0 false 0 toy_registers [].

Lemma toy_memory_inv : mem_inv toy_hash toy_memory.
Proof.
  destruct (SetMemory_spec toy_hash NewMemory 0 12 (NewMemory_inv _) ltac:(done)) as (m & Hm & Hi & _). unfold toy_memory. by rewrite Hm.
Qed.

Lemma toy_state_wf : vs_wf toy_hash toy_state.
Proof.
  split; try done; [apply toy_memory_inv|vm_decide|]. intros k. unfold reg. cbn [vs_Registers toy_state].
  destruct (toy_registers !! Z.to_nat k) as [v|] eqn:Hv; [|done]. apply list_elem_of_lookup_2 in Hv. revert v Hv.
  apply Forall_forall. repeat (constructor; [done|]). constructor.
Qed.

Definition toy_machine : InstrumentedState (Oracle := unit) := NewInstrumentedState toy_state tt.

Lemma toy_reads : reads_ok toy_hash toy_machine.
Proof. split; [by left|]. done. Qed.

Definition toy_lens (_ : nat) : Z := 512.
Definition sel_step : bytes := [1; 0; 0; 1].
Definition sel_local : bytes := [1; 0; 0; 2].
Definition sel_keccak : bytes := [1; 0; 0; 3].

(** The machine steps and returns a witness, from which an input for the oracle
    contract is made. *)
Definition toy_step : InstrumentedState (Oracle := unit) * res (option StepWitness) := Step toy_hash toy_lens true toy_machine.

Lemma toy_step_ok : match toy_step with
  | (_, Ok (Some wit)) => match EncodePreimageOracleInput sel_local sel_keccak wit 7 with Ok _ => true | _ => false end
  | _ => false end = true.
Proof. vm_compute. reflexivity. Qed.

Definition toy_sender : bytes := zeros 32.
Definition no_oracle : MIPS.OracleContract := MIPS.mkOracleContract ∅ ∅ ∅.

Lemma onchain_step_witness : exists i' wit input o' h, toy_step = (i', Ok (Some wit)) /\
  EncodePreimageOracleInput sel_local sel_keccak wit 7 = Ok input /\ MIPS.call_oracle toy_hash toy_sender sel_local sel_keccak input no_oracle = Ok o' /\
  MIPS.step toy_hash toy_sender sel_step o' (EncodeStepInput sel_step wit 7) = Ok h.
Proof.
  pose proof toy_step_ok as Hok. destruct toy_step as [i' [[wit|]|]] eqn:Hstep; [|discriminate|discriminate].
  destruct (EncodePreimageOracleInput sel_local sel_keccak wit 7) as [input|] eqn:Hin; [|discriminate].
  destruct (onchain_step toy_hash toy_sender toy_lens sel_step sel_local sel_keccak toy_is_hash toy_answers eq_refl eq_refl eq_refl ltac:(discriminate) 7
              toy_machine i' wit toy_state_wf toy_reads Hstep) as (j & w & h & _ & _ & _ & _ & _ & Hchain).
  destruct (Hchain input no_oracle Hin) as (o' & Hcall & Hres). exists i', wit, input, o', h. auto.
Defined.

Lemma machine_keeps_types_witness : exists i', run toy_hash toy_lens [true; false] toy_machine = (i', Ok tt) /\ reg 0 (is_state i') = 0.
Proof.
  assert (Hok : match (run toy_hash toy_lens [true; false] toy_machine).2 with Ok _ => true | Err _ => false end = true) by (vm_compute; reflexivity).
  destruct (run toy_hash toy_lens [true; false] toy_machine) as [i' [[]|]] eqn:Hrun; [|discriminate].
  destruct (machine_keeps_types toy_hash toy_lens [true; false] toy_machine i' tt toy_state_wf Hrun) as (_ & H0 & _). exists i'. auto.
Defined.

Lemma memory_is_array_witness : exists m' m2, SetMemory 8 5 NewMemory = (m', Ok tt) /\ GetMemory 8 m' = (m2, Ok 5).
Proof.
  destruct (memory_is_array toy_hash NewMemory 8 5 (NewMemory_inv toy_hash) ltac:(done) ltac:(done)) as (m' & Hs & _ & Hg & _).
  destruct (Hg 8 ltac:(done)) as (m2 & Hg2 & _). exists m', m2. split; [exact Hs|exact Hg2].
Defined.

(** The root and the proof of the word at 0. *)
Definition toy_root : Hash := match (MerkleRoot toy_hash toy_memory).2 with Ok r => r | Err _ => [] end.
Definition toy_proof : bytes := match (MerkleProof toy_hash 0 toy_memory).2 with Ok p => p | Err _ => [] end.
Definition toy_sol : MIPS.State := MIPS.mkState toy_root toy_key 8 0 4 0 0 0 0 0 0 toy_registers.

Lemma toy_root_eq : toy_root = mem_root toy_hash toy_memory.
Proof. unfold toy_root. destruct (MerkleRoot_spec toy_hash toy_memory toy_memory_inv) as (m & Hm & _). rewrite Hm. exact eq_refl. Qed.

Lemma verified_read_binds_witness : word_addr 0 /\ 12 = mem_word toy_memory 0 \/
  exists i a b, proof_pairs toy_hash (zeros 420 ++ toy_proof) 0 0 !! i = Some a /\ mem_pairs toy_hash toy_memory 0 !! i = Some b /\
    a <> b /\ toy_hash a = toy_hash b.
Proof.
  assert (Hu : is_u32 0) by done.
  assert (Hread : MIPS.readMem toy_hash (zeros 420 ++ toy_proof) 0 0 toy_sol = Ok 12) by (vm_compute; reflexivity).
  assert (Hroot : MIPS.memRoot toy_sol = mem_root toy_hash toy_memory) by (cbn [toy_sol MIPS.memRoot]; exact toy_root_eq).
  apply (verified_read_binds toy_hash toy_is_hash (zeros 420 ++ toy_proof) 0 toy_memory 0 toy_sol 12 toy_memory_inv Hu Hroot Hread).
Defined.

Lemma hints_taken_when_exact_witness :
  write_hints ([0; 0; 0; 2] ++ [7; 8; 9]) toy_machine = (set_state (set_LastHint ([0; 0; 0; 2] ++ [7; 8; 9]) toy_state) toy_machine, Ok tt) /\
  exists i', write_hints ([0; 0; 0; 4] ++ [7; 8; 9]) toy_machine = (i', Err slice_bounds).
Proof.
  destruct (hints_taken_when_exact 2 [7; 8; 9] toy_machine ltac:(done) ltac:(done) eq_refl) as (_ & Hmore & _).
  destruct (hints_taken_when_exact 4 [7; 8; 9] toy_machine ltac:(done) ltac:(done) eq_refl) as (_ & _ & Hless).
  split; [exact (Hmore ltac:(done))|exact (Hless ltac:(done))].
Defined.
