(* ===== verification/TxManager.v ===== *)
(** * The transaction manager

    [op-service/txmgr]: [send_state.go] and [txmgr.go]. A transaction is
    crafted with the fees the chain suggests and the next nonce, and published
    again with higher fees until one of its versions is confirmed.

    A call of [sendTx] runs the loop of one goroutine beside those that poll
    for receipts. Here it is a state and the events on it: the loop is at one
    of its points, an event moves it on or lets one of the others poll. *)

From S2P Require Import Prelude Eth.

(** ** The state of a submission: [send_state.go] *)

(** A set of hashes is a Go map to empty structs; times are in nanoseconds. *)
Record SendState := mkSendState {
  ss_minedTxs : gset Hash;
  ss_nonceTooLowCount : Z;
  ss_txInMempoolDeadline : Z;
  ss_successFullPublishCount : Z;
  ss_safeAbortNonceTooLowCount : Z;
  ss_bumpCount : Z;
}.

Definition NewSendState (safeAbortNonceTooLowCount unableToSendTimeout now : Z) : res SendState :=
  if safeAbortNonceTooLowCount =? 0 then Err (GoPanic "txmgr: safeAbortNonceTooLowCount cannot be zero")
  else Ok (mkSendState ∅ 0 (now + unableToSendTimeout) 0 safeAbortNonceTooLowCount 0).

Definition ss_set_counts (low published : Z) (s : SendState) : SendState :=
  mkSendState (ss_minedTxs s) low (ss_txInMempoolDeadline s) published (ss_safeAbortNonceTooLowCount s) (ss_bumpCount s).
Definition ss_set_mined (mined : gset Hash) (s : SendState) : SendState :=
  mkSendState mined (ss_nonceTooLowCount s) (ss_txInMempoolDeadline s) (ss_successFullPublishCount s) (ss_safeAbortNonceTooLowCount s) (ss_bumpCount s).
Definition ss_bump (s : SendState) : SendState :=
  mkSendState (ss_minedTxs s) (ss_nonceTooLowCount s) (ss_txInMempoolDeadline s) (ss_successFullPublishCount s)
    (ss_safeAbortNonceTooLowCount s) (ss_bumpCount s + 1).

Definition TxMined (txHash : Hash) (s : SendState) : SendState := ss_set_mined ({[txHash]} ∪ ss_minedTxs s) s.

Definition TxNotMined (txHash : Hash) (s : SendState) : SendState :=
  let wasMined := bool_decide (txHash ∈ ss_minedTxs s) in
  let s := ss_set_mined (ss_minedTxs s ∖ {[txHash]}) s in
  if bool_decide (size (ss_minedTxs s) = 0%nat) && wasMined then ss_set_counts 0 (ss_successFullPublishCount s) s else s.

Definition IsWaitingForConfirmation (s : SendState) : bool := (0 <? size (ss_minedTxs s))%nat.

Definition ShouldAbortImmediately (now : Z) (s : SendState) : bool :=
  if (0 <? size (ss_minedTxs s))%nat then false
  else (ss_safeAbortNonceTooLowCount s <=? ss_nonceTooLowCount s) ||
       (ss_successFullPublishCount s =? 0) && (ss_txInMempoolDeadline s <? now).

(** ** Fees *)

Definition priceBump : Z := 10.
Definition priceBumpPercent : Z := 100 + priceBump.
Definition oneHundred : Z := 100.

Definition calcThresholdValue (x : Z) : Z := priceBumpPercent * x / oneHundred.
Definition calcGasFeeCap (baseFee gasTipCap : Z) : Z := gasTipCap + baseFee * 2.

Definition updateFees (oldTip oldFeeCap newTip newBaseFee : Z) : Z * Z :=
  let newFeeCap := calcGasFeeCap newBaseFee newTip in
  let thresholdTip := calcThresholdValue oldTip in
  let thresholdFeeCap := calcThresholdValue oldFeeCap in
  if (thresholdTip <=? newTip) && (thresholdFeeCap <=? newFeeCap) then (newTip, newFeeCap)
  else if (thresholdTip <=? newTip) && (newFeeCap <? thresholdFeeCap) then (newTip, thresholdFeeCap)
  else if (newTip <? thresholdTip) && (thresholdFeeCap <=? newFeeCap) then (thresholdTip, calcGasFeeCap newBaseFee thresholdTip)
  else (thresholdTip, thresholdFeeCap).

(** ** Transactions and the chain *)

Record TxCandidate := mkTxCandidate {
  tc_TxData : bytes;
  tc_To : option Address;
  tc_GasLimit : Z;
  tc_Value : option Z;
}.

(** A [DynamicFeeTx]; a [big.Int] that is nil when it is made is zero. *)
Record Transaction := mkTransaction {
  tx_ChainID : Z;
  tx_Nonce : Z;
  tx_GasTipCap : Z;
  tx_GasFeeCap : Z;
  tx_Gas : Z;
  tx_To : option Address;
  tx_Value : Z;
  tx_Data : bytes;
  tx_AccessList : list (Address * list Hash);
}.

Record CallMsg := mkCallMsg {
  cm_From : Address;
  cm_To : option Address;
  cm_GasFeeCap : Z;
  cm_GasTipCap : Z;
  cm_Data : bytes;
  cm_Value : option Z;
}.

Record Receipt := mkReceipt {
  rc_Status : Z;
  rc_TxHash : Hash;
  rc_BlockNumber : Z;
}.

(** [ETHBackend], and the signer and the clock of the configuration. The tip
    that is suggested and the base fee of the head may be missing. *)
Class ETHBackend (W : Type) := {
  be_BlockNumber : stM W Z;
  be_TransactionReceipt : Hash -> stM W (option Receipt);
  be_SendTransaction : Transaction -> stM W unit;
  be_HeaderByNumber : stM W (option Z);
  be_SuggestGasTipCap : stM W (option Z);
  be_NonceAt : Address -> stM W Z;
  be_EstimateGas : CallMsg -> stM W Z;
  be_Signer : Address -> Transaction -> stM W Transaction;
  be_now : W -> Z;
}.

(** What go-ethereum says of transactions: their hash, the text of an error
    and the texts of its own errors. *)
Class Geth := {
  ge_Hash : Transaction -> Hash;
  ge_Error : go_error -> string;
  ErrNonceTooLow : string;
  ErrCanceled : string;
  ErrAlreadyKnown : string;
  ErrReplaceUnderpriced : string;
  ErrUnderpriced : string;
}.

Record Config := mkConfig {
  cf_Backend_nil : bool;
  cf_ResubmissionTimeout : Z;
  cf_FeeLimitMultiplier : Z;
  cf_ChainID : option Z;
  cf_TxSendTimeout : Z;
  cf_TxNotInMempoolTimeout : Z;
  cf_NetworkTimeout : Z;
  cf_ReceiptQueryInterval : Z;
  cf_NumConfirmations : Z;
  cf_SafeAbortNonceTooLowCount : Z;
  cf_Signer_nil : bool;
  cf_From : Address;
}.

Definition Check (m : Config) : res unit :=
  if cf_Backend_nil m then Err (Errorf "must provide the Backend")
  else if cf_NumConfirmations m =? 0 then Err (Errorf "NumConfirmations must not be 0")
  else if cf_NetworkTimeout m =? 0 then Err (Errorf "must provide NetworkTimeout")
  else if cf_FeeLimitMultiplier m =? 0 then Err (Errorf "must provide FeeLimitMultiplier")
  else if cf_ResubmissionTimeout m =? 0 then Err (Errorf "must provide ResubmissionTimeout")
  else if cf_ReceiptQueryInterval m =? 0 then Err (Errorf "must provide ReceiptQueryInterval")
  else if cf_TxNotInMempoolTimeout m =? 0 then Err (Errorf "must provide TxNotInMempoolTimeout")
  else if cf_SafeAbortNonceTooLowCount m =? 0 then Err (Errorf "SafeAbortNonceTooLowCount must not be 0")
  else if cf_Signer_nil m then Err (Errorf "must provide the Signer")
  else match cf_ChainID m with None => Err (Errorf "must provide the ChainID") | Some _ => Ok tt end.

(** [strings.Contains] *)
Fixpoint Contains (s substr : string) : bool :=
  String.prefix substr s || match s with EmptyString => false | String _ s => Contains s substr end.

(** [int64(x)] of a [uint64] *)
Definition int64 (x : Z) : Z := if x <? 2 ^ 63 then x else x - 2 ^ 64.

Section Manager.
Context {W : Type} `{!ETHBackend W} {geth : Geth}.
Variable cfg : Config.

Definition errStringMatch (err : option go_error) (target : option string) : bool :=
  match err, target with
  | None, None => true
  | Some err, Some target => Contains (ge_Error err) target
  | _, _ => false
  end.

Definition ProcessSendError (err : option go_error) (s : SendState) : SendState :=
  match err with
  | None => ss_set_counts (ss_nonceTooLowCount s) (ss_successFullPublishCount s +₆₄ 1) s
  | Some e => if Contains (ge_Error e) ErrNonceTooLow then ss_set_counts (ss_nonceTooLowCount s +₆₄ 1) (ss_successFullPublishCount s) s else s
  end.

Definition suggestGasPriceCaps : stM W (Z * Z) :=
  tip ← on_err be_SuggestGasTipCap (fun e => throw (wrap_err (Wrapf "failed to fetch the suggested gas tip cap") e));
  match tip with
  | None => throw (Errorf "the suggested tip was nil")
  | Some tip =>
      baseFee ← on_err be_HeaderByNumber (fun e => throw (wrap_err (Wrapf "failed to fetch the suggested basefee") e));
      match baseFee with
      | None => throw (Errorf "txmgr does not support pre-london blocks that do not have a basefee")
      | Some baseFee => mret (tip, baseFee)
      end
  end.

(** The fees of a transaction go up, within the limits; a transaction that
    cannot be signed stays as it is. *)
Definition increaseGasPrice (tx : Transaction) : stM W Transaction :=
  '(tip, basefee) ← suggestGasPriceCaps;
  let '(bumpedTip, bumpedFee) := updateFees (tx_GasTipCap tx) (tx_GasFeeCap tx) tip basefee in
  let maxTip := tip * int64 (cf_FeeLimitMultiplier cfg) in
  if maxTip <? bumpedTip then throw (Errorf "bumped tip is over the multiple of the suggested value")
  else
    let maxFee := calcGasFeeCap (basefee * int64 (cf_FeeLimitMultiplier cfg)) maxTip in
    if maxFee <? bumpedFee then throw (Errorf "bumped fee is over the multiple of the suggested value")
    else
      gas ← be_EstimateGas (mkCallMsg (cf_From cfg) (tx_To tx) bumpedTip bumpedFee (tx_Data tx) None);
      on_err (be_Signer (cf_From cfg) (mkTransaction (tx_ChainID tx) (tx_Nonce tx) bumpedTip bumpedFee gas (tx_To tx) (tx_Value tx) (tx_Data tx) (tx_AccessList tx)))
        (fun e => match e with GoPanic msg => throw (GoPanic msg) | _ => mret tx end).

(** ** Crafting *)

(** The manager: the nonce it used last, and the chain. *)
Record SimpleTxManager := mkSimpleTxManager {
  tm_nonce : option Z;
  tm_world : W;
}.

Definition set_nonce (n : option Z) (m : SimpleTxManager) : SimpleTxManager := mkSimpleTxManager n (tm_world m).

Definition on_world {A} (f : stM W A) : stM SimpleTxManager A := fun m =>
  let '(w, r) := f (tm_world m) in (mkSimpleTxManager (tm_nonce m) w, r).

Definition with_nonce (nonce : Z) (tx : Transaction) : Transaction :=
  mkTransaction (tx_ChainID tx) nonce (tx_GasTipCap tx) (tx_GasFeeCap tx) (tx_Gas tx) (tx_To tx) (tx_Value tx) (tx_Data tx) (tx_AccessList tx).

Definition put_nonce (n : option Z) : stM SimpleTxManager unit := fun m => (set_nonce n m, Ok tt).

Definition signWithNextNonce (rawTx : Transaction) : stM SimpleTxManager Transaction := fun m =>
  (nonce ← match tm_nonce m with
           | None => on_err (on_world (be_NonceAt (cf_From cfg))) (fun e => throw (wrap_err (Wrapf "failed to get nonce") e))
           | Some n => mret (n +₆₄ 1)
           end;
   _ ← put_nonce (Some nonce);
   on_err (on_world (be_Signer (cf_From cfg) (with_nonce nonce rawTx)))
     (fun e => _ ← put_nonce (Some (nonce -₆₄ 1)); throw e)) m.

Definition resetNonce (m : SimpleTxManager) : SimpleTxManager := set_nonce None m.

Definition craftTx (candidate : TxCandidate) : stM SimpleTxManager Transaction :=
  '(gasTipCap, basefee) ← on_err (on_world suggestGasPriceCaps) (fun e => throw (wrap_err (Wrapf "failed to get gas price info") e));
  let gasFeeCap := calcGasFeeCap basefee gasTipCap in
  gas ← (if negb (tc_GasLimit candidate =? 0) then mret (tc_GasLimit candidate)
         else on_err (on_world (be_EstimateGas (mkCallMsg (cf_From cfg) (tc_To candidate) gasFeeCap gasTipCap (tc_TxData candidate) (tc_Value candidate))))
                (fun e => throw (wrap_err (Wrapf "failed to estimate gas") e)));
  signWithNextNonce (mkTransaction (default 0 (cf_ChainID cfg)) 0 gasTipCap gasFeeCap gas (tc_To candidate) (default 0 (tc_Value candidate)) (tc_TxData candidate) []).

(** [retry.Do], of [op-service/retry/operation.go]: the context is not done
    and the sleep between the attempts changes nothing. *)
Fixpoint Do {A} (maxAttempts : nat) (op : stM SimpleTxManager A) : stM SimpleTxManager A :=
  match maxAttempts with
  | O => throw (Errorf "need at least 1 attempt to run op")
  | S O => on_err op (fun e => throw (wrap_err (Wrapf "operation failed permanently") e))
  | S n => on_err op (fun e => match e with GoPanic msg => throw (GoPanic msg) | _ => Do n op end)
  end.

(** The first half of [send]: the transaction that [sendTx] gets. *)
Definition craft (candidate : TxCandidate) : stM SimpleTxManager Transaction :=
  on_err (Do 30 (craftTx candidate)) (fun e => throw (wrap_err (Wrapf "failed to create the tx") e)).

(** ** Sending *)

(** Where the goroutine of [sendTx] is: at its [select]; in [publishTx] before
    the fees are increased, before the check, before the submission; or back
    with a result. *)
Inductive point :=
  | Selecting
  | Bumping
  | Checking
  | Submitting
  | Returned (r : res Receipt).

(** [sd_tx] is the version in hand, [sd_waiting] the versions that a goroutine
    polls for, [sd_receipt] the channel. *)
Record Sending := mkSending {
  sd_world : W;
  sd_state : SendState;
  sd_tx : Transaction;
  sd_point : point;
  sd_waiting : list Transaction;
  sd_receipt : option Receipt;
}.

Definition at_point (p : point) (s : Sending) : Sending := mkSending (sd_world s) (sd_state s) (sd_tx s) p (sd_waiting s) (sd_receipt s).

(** The start of [sendTx]: the first version is published as it is. *)
Definition start_sendTx (tx : Transaction) (w : W) : res Sending :=
  state ← NewSendState (cf_SafeAbortNonceTooLowCount cfg) (cf_TxNotInMempoolTimeout cfg) (be_now w);
  mret (mkSending w state tx Checking [] None).

(** The errors after which [publishTx] increases the fees and goes on. *)
Definition retries (err : go_error) : bool :=
  if errStringMatch (Some err) (Some ErrNonceTooLow) then false
  else if errStringMatch (Some err) (Some ErrCanceled) then false
  else if errStringMatch (Some err) (Some ErrAlreadyKnown) then false
  else if errStringMatch (Some err) (Some ErrReplaceUnderpriced) then true
  else errStringMatch (Some err) (Some ErrUnderpriced).

(** The parts of the loop of [publishTx]. *)
Definition bump (s : Sending) : Sending :=
  let '(w, r) := increaseGasPrice (sd_tx s) (sd_world s) in
  match r with
  | Ok tx => mkSending w (ss_bump (sd_state s)) tx Checking (sd_waiting s) (sd_receipt s)
  | Err _ => mkSending w (sd_state s) (sd_tx s) Selecting (sd_waiting s) (sd_receipt s)
  end.

Definition check (s : Sending) : Sending :=
  if IsWaitingForConfirmation (sd_state s) then at_point Selecting s else at_point Submitting s.

Definition submit (s : Sending) : Sending :=
  let '(w, r) := be_SendTransaction (sd_tx s) (sd_world s) in
  match r with
  | Ok _ => mkSending w (ProcessSendError None (sd_state s)) (sd_tx s) Selecting (sd_tx s :: sd_waiting s) (sd_receipt s)
  | Err e => mkSending w (ProcessSendError (Some e) (sd_state s)) (sd_tx s) (if retries e then Bumping else Selecting) (sd_waiting s) (sd_receipt s)
  end.

(** The cases of the [select]. *)
Definition on_ticker (s : Sending) : Sending :=
  if IsWaitingForConfirmation (sd_state s) then s
  else if ShouldAbortImmediately (be_now (sd_world s)) (sd_state s) then at_point (Returned (Err (Errorf "aborted transaction sending"))) s
  else at_point Bumping s.

(** A poll: the receipt of a version, once it has enough confirmations. *)
Definition queryReceipt (txHash : Hash) (s : Sending) : Sending * option Receipt :=
  let '(w, r) := be_TransactionReceipt txHash (sd_world s) in
  let with_state w f := mkSending w (f (sd_state s)) (sd_tx s) (sd_point s) (sd_waiting s) (sd_receipt s) in
  match r with
  | Err e => (with_state w (if errors_Is e NotFound then TxNotMined txHash else id), None)
  | Ok None => (with_state w id, None)
  | Ok (Some receipt) =>
      let '(w, tip) := be_BlockNumber w in
      let s := with_state w (TxMined txHash) in
      match tip with
      | Err _ => (s, None)
      | Ok tipHeight => (s, if u64 (rc_BlockNumber receipt) +₆₄ cf_NumConfirmations cfg <=? tipHeight +₆₄ 1 then Some receipt else None)
      end
  end.

(** A goroutine that has its receipt puts it into the channel, unless another
    has, and ends. *)
Definition poll (k : nat) (s : Sending) : option Sending :=
  tx ← sd_waiting s !! k;
  let '(s, r) := queryReceipt (ge_Hash tx) s in
  Some match r with
       | None => s
       | Some receipt => mkSending (sd_world s) (sd_state s) (sd_tx s) (sd_point s) (delete k (sd_waiting s))
                           (match sd_receipt s with Some r => Some r | None => Some receipt end)
       end.

(** What happens next: the goroutine of [sendTx] goes on with [publishTx], or
    its [select] takes a case; one of the others polls; the chain moves on. *)
Inductive event :=
  | Advance
  | Ticker
  | Cancelled (e : go_error)
  | Received
  | Poll (k : nat)
  | Chain (w : W).

Definition sendTx_step (ev : event) (s : Sending) : option Sending :=
  match ev with
  | Advance =>
      match sd_point s with
      | Bumping => Some (bump s)
      | Checking => Some (check s)
      | Submitting => Some (submit s)
      | _ => None
      end
  | Ticker => match sd_point s with Selecting => Some (on_ticker s) | _ => None end
  | Cancelled e => match sd_point s with Selecting => Some (at_point (Returned (Err e)) s) | _ => None end
  | Received =>
      match sd_point s, sd_receipt s with
      | Selecting, Some receipt => Some (at_point (Returned (Ok receipt)) s)
      | _, _ => None
      end
  | Poll k => match sd_point s with Returned _ => None | _ => poll k s end
  | Chain w => match sd_point s with Returned _ => None | _ => Some (mkSending w (sd_state s) (sd_tx s) (sd_point s) (sd_waiting s) (sd_receipt s)) end
  end.

(** The version that a step submits. *)
Definition submitted (ev : event) (s : Sending) : list Transaction :=
  match ev, sd_point s with Advance, Submitting => [sd_tx s] | _, _ => [] end.

(** A run, with the versions that were submitted. *)
Fixpoint sendTx_run (evs : list event) (s : Sending) : option (list Transaction * Sending) :=
  match evs with
  | [] => Some ([], s)
  | ev :: evs =>
      s' ← sendTx_step ev s;
      '(log, s'') ← sendTx_run evs s';
      Some (submitted ev s ++ log, s'')
  end.

(** The end of [Send]: the nonce is forgotten after an error. *)
Definition finish_Send (r : res Receipt) (m : SimpleTxManager) : SimpleTxManager :=
  if is_ok r then m else resetNonce m.
End Manager.
Arguments SimpleTxManager : clear implicits.
Arguments Sending : clear implicits.
Arguments event : clear implicits.
