(* ===== verification/TxManagerSafety.v ===== *)
(** * What the transaction manager promises

    The versions of a transaction share its nonce and payload and their fees
    rise within the limits; a receipt that is returned is a confirmed one of a
    version; nonces are used in order. *)

From S2P Require Import Prelude Eth TxManager.

(** ** Fees *)

Lemma thr_mono x y : x <= y -> calcThresholdValue x <= calcThresholdValue y.
Proof. intros H. apply Z.div_le_mono; [done|]. unfold priceBumpPercent, priceBump. lia. Qed.

Lemma thr_gap x y : x < y -> calcThresholdValue x < calcThresholdValue y.
Proof. intros H. unfold calcThresholdValue, priceBumpPercent, priceBump, oneHundred. ulia. Qed.

Lemma thr_ge x : 0 <= x -> x <= calcThresholdValue x.
Proof. intros H. unfold calcThresholdValue, priceBumpPercent, priceBump, oneHundred. ulia. Qed.

Lemma thr_grows x : 10 <= x -> x + 1 <= calcThresholdValue x.
Proof. intros H. unfold calcThresholdValue, priceBumpPercent, priceBump, oneHundred. ulia. Qed.

(** Below ten the rounding undoes the increase. *)
Lemma thr_small x : 0 <= x < 10 -> calcThresholdValue x = x.
Proof. intros H. unfold calcThresholdValue, priceBumpPercent, priceBump, oneHundred. ulia. Qed.

(** Case by case: which of the two thresholds the suggestions reach. *)
Lemma updateFees_cases oldTip oldFee newTip base :
  updateFees oldTip oldFee newTip base =
    if calcThresholdValue oldTip <=? newTip then (newTip, Z.max (calcThresholdValue oldFee) (calcGasFeeCap base newTip))
    else (calcThresholdValue oldTip, if calcThresholdValue oldFee <=? calcGasFeeCap base newTip then calcGasFeeCap base (calcThresholdValue oldTip) else calcThresholdValue oldFee).
Proof.
  unfold updateFees. cbv zeta. rewrite !Z.ltb_antisym. destruct (Z.leb_spec (calcThresholdValue oldTip) newTip), (Z.leb_spec (calcThresholdValue oldFee) (calcGasFeeCap base newTip));
    cbn [andb negb]; f_equal; lia.
Qed.

Lemma updateFees_spec oldTip oldFee newTip base t f : 0 <= oldTip <= oldFee -> 0 <= newTip -> 0 <= base -> updateFees oldTip oldFee newTip base = (t, f) ->
  calcThresholdValue oldTip <= t /\ calcThresholdValue oldFee <= f /\ newTip <= t /\ calcGasFeeCap base newTip <= f /\ t <= f.
Proof.
  intros Ho Hn Hb. pose proof (thr_mono oldTip oldFee ltac:(lia)). rewrite updateFees_cases. unfold calcGasFeeCap.
  destruct (Z.leb_spec (calcThresholdValue oldTip) newTip), (Z.leb_spec (calcThresholdValue oldFee) (newTip + base * 2)); intros Heq; injection Heq as <- <-; lia.
Qed.

(** The fee cap is above the tip when it was before and there is a base fee. *)
Lemma updateFees_above oldTip oldFee newTip base t f : 0 <= oldTip < oldFee -> 0 <= newTip -> 0 < base -> updateFees oldTip oldFee newTip base = (t, f) -> t < f.
Proof.
  intros Ho Hn Hb. pose proof (thr_gap oldTip oldFee ltac:(lia)). rewrite updateFees_cases. unfold calcGasFeeCap.
  destruct (Z.leb_spec (calcThresholdValue oldTip) newTip), (Z.leb_spec (calcThresholdValue oldFee) (newTip + base * 2)); intros Heq; injection Heq as <- <-; lia.
Qed.

(** ** Versions *)

Definition same_payload (a b : Transaction) : Prop :=
  tx_ChainID a = tx_ChainID b /\ tx_Nonce a = tx_Nonce b /\ tx_To a = tx_To b /\ tx_Value a = tx_Value b /\ tx_Data a = tx_Data b /\ tx_AccessList a = tx_AccessList b.

Definition fees_ok (tx : Transaction) : Prop := 0 <= tx_GasTipCap tx <= tx_GasFeeCap tx.

(** A later version of a transaction: the same, or with both fees increased. *)
Definition version (a b : Transaction) : Prop :=
  fees_ok b /\ same_payload a b /\ (b = a \/ calcThresholdValue (tx_GasTipCap a) <= tx_GasTipCap b /\ calcThresholdValue (tx_GasFeeCap a) <= tx_GasFeeCap b).

Lemma version_refl a : fees_ok a -> version a a.
Proof. intros H. split; [done|]. split; [by split_and!|by left]. Qed.

Lemma version_trans a b c : version a b -> version b c -> version a c.
Proof.
  intros (Hb & Hab & H1) (Hc & Hbc & H2). split; [done|]. split; [unfold same_payload in *; naive_solver congruence|].
  destruct H1 as [->|[Ht Hf]]; [done|]. right. destruct H2 as [->|[Ht2 Hf2]]; [done|]. unfold fees_ok in Hb.
  pose proof (thr_ge (tx_GasTipCap b) ltac:(lia)). pose proof (thr_ge (tx_GasFeeCap b) ltac:(lia)). lia.
Qed.

Section Manager.
Context {W : Type} `{!ETHBackend W} {geth : Geth}.
Variable cfg : Config.
#[local] Notation sending := (Sending W).

(** What the theorems need of the chain and of the signer: suggestions are not
    negative, and a signer signs what it is given. *)
Record chain_laws : Prop := {
  cl_tip : forall (w w' : W) t, be_SuggestGasTipCap w = (w', Ok (Some t)) -> 0 <= t;
  cl_base : forall (w w' : W) b, be_HeaderByNumber w = (w', Ok (Some b)) -> 0 <= b;
  cl_signer : forall from tx (w w' : W) tx', be_Signer from tx w = (w', Ok tx') -> tx' = tx;
}.

Context (laws : chain_laws).

Lemma suggest_inv (w w' : W) t b : suggestGasPriceCaps w = (w', Ok (t, b)) -> 0 <= t /\ 0 <= b /\
  exists w1, be_SuggestGasTipCap w = (w1, Ok (Some t)) /\ be_HeaderByNumber w1 = (w', Ok (Some b)).
Proof using laws.
  unfold suggestGasPriceCaps, on_err, mbind, stM_bind. destruct (be_SuggestGasTipCap w) as [w1 [[t0|]|e]] eqn:Ht; [|done|done].
  destruct (be_HeaderByNumber w1) as [w2 [[b0|]|e]] eqn:Hb; [|done|done]. intros H. injection H as <- <- <-.
  pose proof (cl_tip laws _ _ _ Ht). pose proof (cl_base laws _ _ _ Hb). split_and!; [done..|]. by exists w1.
Qed.

(** A version that was bumped is within what was suggested and its multiple. *)
Definition within_limits (tip base : Z) (tx : Transaction) : Prop :=
  let mult := int64 (cf_FeeLimitMultiplier cfg) in
  tip <= tx_GasTipCap tx <= tip * mult /\ calcGasFeeCap base tip <= tx_GasFeeCap tx <= calcGasFeeCap (base * mult) (tip * mult).

Lemma increase_inv tx (w w' : W) tx' : fees_ok tx -> increaseGasPrice cfg tx w = (w', Ok tx') -> tx' = tx \/
  version tx tx' /\ (calcThresholdValue (tx_GasTipCap tx) <= tx_GasTipCap tx' /\ calcThresholdValue (tx_GasFeeCap tx) <= tx_GasFeeCap tx') /\
  exists w1 tip base, suggestGasPriceCaps w = (w1, Ok (tip, base)) /\ within_limits tip base tx'.
Proof using laws.
  intros Htx H. unfold increaseGasPrice in H. apply stM_bind_ok in H as (w1 & [tip base] & Hs & H). pose proof (suggest_inv _ _ _ _ Hs) as (Ht & Hb & _).
  destruct (updateFees _ _ _ _) as [bt bf] eqn:Hu. apply updateFees_spec in Hu as (H1 & H2 & H3 & H4 & H5); [|done..]. cbv zeta in H.
  destruct (Z.ltb_spec (tip * int64 (cf_FeeLimitMultiplier cfg)) bt); [done|]. destruct (Z.ltb_spec (calcGasFeeCap (base * int64 (cf_FeeLimitMultiplier cfg)) (tip * int64 (cf_FeeLimitMultiplier cfg))) bf); [done|].
  apply stM_bind_ok in H as (w2 & gas & _ & H). unfold on_err in H. destruct (be_Signer _ _ w2) as [w3 [tx2|e]] eqn:Hsign.
  - injection H as <- <-. apply (cl_signer laws) in Hsign as ->. right. split; [|split; [done|exists w1, tip, base; by split]].
    split; [|split; [by split_and!|by right]]. unfold fees_ok in *. cbn [tx_GasTipCap tx_GasFeeCap]. pose proof (thr_ge (tx_GasTipCap tx) ltac:(lia)). lia.
  - left. destruct e; try done; by injection H.
Qed.

(** ** A run of [sendTx] *)

Lemma queryReceipt_tx h (s : sending) : sd_tx (queryReceipt cfg h s).1 = sd_tx s.
Proof using.
  unfold queryReceipt. destruct (be_TransactionReceipt _ _) as [w [[r|]|e]]; [|done|done]. by destruct (be_BlockNumber _) as [w1 [t|e]].
Qed.

Lemma poll_tx k (s s' : sending) : poll cfg k s = Some s' -> sd_tx s' = sd_tx s.
Proof using.
  unfold poll. destruct (sd_waiting s !! k) as [tx|]; [|done]. cbn [mbind option_bind]. pose proof (queryReceipt_tx (ge_Hash tx) s) as Hq.
  destruct (queryReceipt cfg _ s) as [s1 [r|]]; intros H; injection H as <-; exact Hq.
Qed.

Lemma step_version ev (s s' : sending) : fees_ok (sd_tx s) -> sendTx_step cfg ev s = Some s' -> version (sd_tx s) (sd_tx s').
Proof using laws.
  intros Hok H. assert (Hsame : sd_tx s' = sd_tx s -> version (sd_tx s) (sd_tx s')) by (intros ->; by apply version_refl).
  destruct ev as [| |e| |k|w]; cbn [sendTx_step] in H; destruct (sd_point s) eqn:Hp; try discriminate H; try (injection H as <-); try (apply Hsame; reflexivity); try (apply Hsame; by apply poll_tx in H).
  - unfold bump in *. destruct (increaseGasPrice cfg (sd_tx s) (sd_world s)) as [w [tx|e]] eqn:Hi; [|by apply Hsame].
    apply increase_inv in Hi as [->|[Hv _]]; [by apply Hsame|exact Hv|done].
  - apply Hsame. unfold check. by destruct (IsWaitingForConfirmation _).
  - apply Hsame. unfold submit. by destruct (be_SendTransaction _ _) as [w [u|e]].
  - apply Hsame. unfold on_ticker. destruct (IsWaitingForConfirmation _); [done|]. by destruct (ShouldAbortImmediately _ _).
  - destruct (sd_receipt s); [|done]. injection H as <-. by apply Hsame.
Qed.

(** The versions that are submitted: each is a version of those before it. *)
Lemma run_versions evs (s s' : sending) log : fees_ok (sd_tx s) -> sendTx_run cfg evs s = Some (log, s') ->
  Forall (version (sd_tx s)) log /\ StronglySorted version log /\ version (sd_tx s) (sd_tx s').
Proof using laws.
  revert s log. induction evs as [|ev evs IH]; intros s log Hok H; cbn [sendTx_run] in H.
  { injection H as <- <-. split_and!; [constructor|constructor|by apply version_refl]. }
  destruct (sendTx_step cfg ev s) as [s1|] eqn:Hs; [|done]. cbn [mbind option_bind] in H. destruct (sendTx_run cfg evs s1) as [[log1 s2]|] eqn:Hr; [|done].
  injection H as <- <-. pose proof (step_version _ _ _ Hok Hs) as Hv. destruct (IH s1 log1 ltac:(apply Hv) Hr) as (Hall & Hsort & Hend).
  assert (Hall' : Forall (version (sd_tx s)) log1) by (eapply Forall_impl; [exact Hall|]; intros x Hx; by eapply version_trans).
  split; [|split; [|by eapply version_trans]]; unfold submitted; destruct ev; try exact Hall'; try exact Hsort; destruct (sd_point s); try exact Hall'; try exact Hsort; constructor; try done.
  by apply version_refl.
Qed.

(** *** The fees of consecutive versions *)

(** A version that costs more: both fees are at least a tenth higher, rounded
    down, and from ten wei on higher indeed. *)
Definition rises (a b : Transaction) : Prop :=
  fees_ok b /\ same_payload a b /\
  tx_GasTipCap a * 110 / 100 <= tx_GasTipCap b /\ tx_GasFeeCap a * 110 / 100 <= tx_GasFeeCap b /\
  (10 <= tx_GasTipCap a -> tx_GasTipCap a < tx_GasTipCap b) /\ (10 <= tx_GasFeeCap a -> tx_GasFeeCap a < tx_GasFeeCap b).

Lemma rises_trans a b c : fees_ok a -> rises a b -> rises b c -> rises a c.
Proof using.
  intros Ha (Hb & Hab & T1 & F1 & ST1 & SF1) (Hc & Hbc & T2 & F2 & ST2 & SF2). unfold fees_ok in *. split; [done|].
  split; [unfold same_payload in *; naive_solver congruence|].
  assert (Hup : forall x, 0 <= x -> x <= x * 110 / 100) by (intros; ulia). pose proof (Hup (tx_GasTipCap b) ltac:(lia)). pose proof (Hup (tx_GasFeeCap b) ltac:(lia)).
  split; [lia|]. split; [lia|]. split; intros H10; [specialize (ST1 H10)|specialize (SF1 H10)]; lia.
Qed.

(** The version in hand has not been submitted yet. *)
Definition unsent (s : sending) : bool := match sd_point s with Checking | Submitting => true | _ => false end.

(** What may still be submitted: the version in hand, if it was not yet, and
    versions that cost more. *)
Definition to_come (s : sending) (b : Transaction) : Prop := unsent s = true /\ b = sd_tx s \/ rises (sd_tx s) b.

Section Signed.
Context (signs : forall from raw (w : W), exists w', be_Signer from raw w = (w', Ok raw)).

Lemma increase_rises tx (w w' : W) tx' : fees_ok tx -> increaseGasPrice cfg tx w = (w', Ok tx') -> rises tx tx'.
Proof using laws signs.
  intros Hok H. unfold increaseGasPrice in H. apply stM_bind_ok in H as (w1 & [tip base] & Hs & H). pose proof (suggest_inv _ _ _ _ Hs) as (Ht & Hb & _).
  destruct (updateFees _ _ _ _) as [bt bf] eqn:Hu. apply updateFees_spec in Hu as (H1 & H2 & H3 & H4 & H5); [|done..]. cbv zeta in H.
  destruct (_ <? bt); [done|]. destruct (_ <? bf); [done|]. apply stM_bind_ok in H as (w2 & gas & _ & H). unfold on_err in H.
  destruct (signs (cf_From cfg) (mkTransaction (tx_ChainID tx) (tx_Nonce tx) bt bf gas (tx_To tx) (tx_Value tx) (tx_Data tx) (tx_AccessList tx)) w2) as [w3 Hsign].
  rewrite Hsign in H. injection H as _ <-. unfold rises, fees_ok, same_payload in *. cbn [tx_ChainID tx_Nonce tx_To tx_Value tx_Data tx_AccessList tx_GasTipCap tx_GasFeeCap].
  pose proof (thr_ge (tx_GasTipCap tx) ltac:(lia)). pose proof (thr_grows (tx_GasTipCap tx)). pose proof (thr_grows (tx_GasFeeCap tx)).
  rewrite !(Z.mul_comm _ 110). split; [lia|]. split; [by split_and!|]. split; [exact H1|]. split; [exact H2|]. lia.
Qed.

Lemma poll_hand k (s s' : sending) : poll cfg k s = Some s' -> sd_tx s' = sd_tx s /\ sd_point s' = sd_point s.
Proof using.
  unfold poll. destruct (sd_waiting s !! k) as [tx|]; [|done]. cbn [mbind option_bind]. unfold queryReceipt.
  destruct (be_TransactionReceipt _ _) as [w1 [[r|]|e]]; [destruct (be_BlockNumber w1) as [w2 [t|e]]; [destruct (_ <=? _)|]|..]; intros H; by injection H as <-.
Qed.

(** A step leaves the version in hand as it is, and does not make a version
    that was submitted an unsubmitted one; only [bump] replaces it. *)
Lemma step_hand ev (s s' : sending) : fees_ok (sd_tx s) -> sendTx_step cfg ev s = Some s' ->
  sd_tx s' = sd_tx s /\ (unsent s' = true -> unsent s = true /\ submitted ev s = []) \/ rises (sd_tx s) (sd_tx s') /\ submitted ev s = [].
Proof using laws signs.
  intros Hok H. unfold unsent. destruct ev as [| |e| |k|w]; cbn [sendTx_step] in H; unfold submitted; destruct (sd_point s) eqn:Hp; try discriminate H; try (injection H as <-).
  all: try (apply poll_hand in H as [Ht Hp']; left; split; [done|]; by rewrite Hp', Hp).
  all: try (left; split; [done|]; by rewrite ?Hp).
  - unfold bump. destruct (increaseGasPrice cfg (sd_tx s) (sd_world s)) as [w [tx|e]] eqn:Hi; [right|by left].
    split; [|done]. by eapply increase_rises.
  - left. unfold check. destruct (IsWaitingForConfirmation _); by split.
  - left. unfold submit. destruct (be_SendTransaction _ _) as [w [u|e]]; [by split|]. split; [done|]. cbn [sd_point]. by destruct (retries e).
  - left. unfold on_ticker. destruct (IsWaitingForConfirmation _); [by rewrite Hp|]. by destruct (ShouldAbortImmediately _ _).
  - left. destruct (sd_receipt s); [|done]. by injection H as <-.
Qed.

Lemma run_rises evs (s s' : sending) log : fees_ok (sd_tx s) -> sendTx_run cfg evs s = Some (log, s') ->
  Forall (to_come s) log /\ StronglySorted rises log.
Proof using laws signs.
  revert s log. induction evs as [|ev evs IH]; intros s log Hok H; cbn [sendTx_run] in H; [injection H as <- <-; by split; constructor|].
  destruct (sendTx_step cfg ev s) as [s1|] eqn:Hs; [|done]. cbn [mbind option_bind] in H. destruct (sendTx_run cfg evs s1) as [[log1 s2]|] eqn:Hr; [|done].
  injection H as <- <-. pose proof (step_version _ _ _ Hok Hs) as [Hok1 _]. destruct (IH s1 log1 Hok1 Hr) as [Hall Hsort].
  destruct (step_hand _ _ _ Hok Hs) as [[Htx Hun]|[Hrise Hsub]].
  - assert (Hcome : Forall (fun b => unsent s1 = true /\ b = sd_tx s \/ rises (sd_tx s) b) log1)
      by (eapply Forall_impl; [exact Hall|]; intros b; unfold to_come; by rewrite Htx).
    destruct (submitted ev s) as [|x l] eqn:Hsub; cbn [app].
    + split; [|done]. eapply Forall_impl; [exact Hcome|]. intros b [[Hu ->]|Hb]; [left|by right]. split; [by apply Hun|done].
    + assert (Hx : unsent s = true /\ x = sd_tx s /\ l = [] /\ unsent s1 = false).
      { unfold submitted in Hsub. destruct ev; try done. destruct (sd_point s) eqn:Hp; try done. injection Hsub as <- <-. split_and!; try done; [unfold unsent; by rewrite Hp|].
        destruct (unsent s1); [|done]. by destruct (Hun eq_refl). }
      destruct Hx as (Hu & -> & -> & Hu1). rewrite Hu1 in Hcome. assert (Hr1 : Forall (rises (sd_tx s)) log1) by (eapply Forall_impl; [exact Hcome|]; by intros b [[? _]|?]).
      split; constructor; try done; [by left|]. eapply Forall_impl; [exact Hr1|]. intros b Hb. by right.
  - rewrite Hsub. cbn [app]. split; [|done]. eapply Forall_impl; [exact Hall|]. intros b [[_ ->]|Hb]; right; [done|by eapply rises_trans].
Qed.
End Signed.

(** C32. A transaction is only ever replaced by itself: all the versions that one call of [sendTx] submits have the chain, the nonce, the recipient, the value and the data of the first, so that at most one of them can be mined, and a tip that is not above the fee cap. And their fees rise: when the signer works, each version that is submitted has a tip and a fee cap at least a tenth higher (rounded down) than those of every version before it, and strictly higher from ten wei on. *)
Theorem sendTx_versions evs tx (w : W) s s' log : fees_ok tx -> start_sendTx cfg tx w = Ok s -> sendTx_run cfg evs s = Some (log, s') ->
  Forall (fun b => fees_ok b /\ same_payload tx b) log /\
  ((forall from raw (w : W), exists w', be_Signer from raw w = (w', Ok raw)) ->
   Forall (fun b => b = tx \/ rises tx b) log /\ StronglySorted rises log).
Proof using laws.
  intros Hok Hs Hr. unfold start_sendTx in Hs. apply res_bind_ok in Hs as (st & _ & Hs). injection Hs as <-. split.
  - apply run_versions in Hr as (Hall & _); [|done]. eapply Forall_impl; [exact Hall|]. intros b (Hb & Hp & _). by split.
  - intros signs. apply run_rises in Hr as [Hall Hsort]; [|done..]. split; [|done]. eapply Forall_impl; [exact Hall|]. intros b [[_ ->]|Hb]; [by left|by right].
Qed.

(** ** Receipts *)

(** A receipt the chain gave for one of the transactions, with enough blocks on
    top. *)
Definition confirmed (txs : list Transaction) (r : Receipt) : Prop :=
  exists tx (w w1 w2 : W) tip, tx ∈ txs /\ be_TransactionReceipt (ge_Hash tx) w = (w1, Ok (Some r)) /\ be_BlockNumber w1 = (w2, Ok tip) /\
    u64 (rc_BlockNumber r) +₆₄ cf_NumConfirmations cfg <= tip +₆₄ 1.

Lemma confirmed_more txs txs' r : txs ⊆ txs' -> confirmed txs r -> confirmed txs' r.
Proof using. intros Hsub (tx & w & w1 & w2 & tip & Hin & H). exists tx, w, w1, w2, tip. split; [by apply Hsub|done]. Qed.

(** Why a run may be over. *)
Definition over (txs : list Transaction) (evs : list (event W)) (s : sending) : Prop :=
  match sd_point s with
  | Returned (Ok r) => confirmed txs r
  | Returned (Err e) => Cancelled e ∈ evs \/
      e = Errorf "aborted transaction sending" /\ ss_minedTxs (sd_state s) = ∅ /\
      (ss_safeAbortNonceTooLowCount (sd_state s) <= ss_nonceTooLowCount (sd_state s) \/
       ss_successFullPublishCount (sd_state s) = 0 /\ ss_txInMempoolDeadline (sd_state s) < be_now (sd_world s))
  | _ => True
  end.

Definition receipts_inv (txs : list Transaction) (s : sending) : Prop :=
  sd_waiting s ⊆ txs /\ forall r, sd_receipt s = Some r -> confirmed txs r.

Lemma poll_receipts txs k (s s' : sending) : receipts_inv txs s -> poll cfg k s = Some s' -> receipts_inv txs s' /\ sd_point s' = sd_point s.
Proof using.
  intros [Hw Hr] H. unfold poll in H. destruct (sd_waiting s !! k) as [tx|] eqn:Hk; [|done]. cbn [mbind option_bind] in H.
  assert (Htx : tx ∈ txs) by (apply Hw; by eapply list_elem_of_lookup_2). unfold queryReceipt in H.
  destruct (be_TransactionReceipt (ge_Hash tx) (sd_world s)) as [w [[r|]|e]] eqn:Hq; [|injection H as <-; by split..].
  destruct (be_BlockNumber w) as [w1 [tip|e]] eqn:Hb; [|injection H as <-; by split]. destruct (Z.leb_spec (u64 (rc_BlockNumber r) +₆₄ cf_NumConfirmations cfg) (tip +₆₄ 1)); injection H as <-; [|by split].
  cbn [sd_point]. split; [|done]. split; cbn [sd_waiting sd_receipt].
  - intros x Hx. apply Hw. by apply list_elem_of_delete_inv in Hx.
  - intros r'. destruct (sd_receipt s) as [r0|] eqn:Hrc; intros Heq; injection Heq as <-; [by apply Hr|]. by exists tx, (sd_world s), w, w1, tip.
Qed.

Lemma step_outcome ev txs pre (s s' : sending) : receipts_inv txs s -> sendTx_step cfg ev s = Some s' ->
  receipts_inv (txs ++ submitted ev s) s' /\ over (txs ++ submitted ev s) (pre ++ [ev]) s'.
Proof using.
  intros Hinv H.
  assert (Hkeep : sd_waiting s' = sd_waiting s -> sd_receipt s' = sd_receipt s -> receipts_inv (txs ++ submitted ev s) s').
  { unfold receipts_inv. intros -> ->. destruct Hinv as [Hw Hr]. split; [intros x Hx; apply elem_of_app; left; by apply Hw|].
    intros r Hrc. apply (confirmed_more txs); [intros x Hx; apply elem_of_app; by left|by apply Hr]. }
  destruct ev as [| |e| |k|w]; cbn [sendTx_step] in H; destruct (sd_point s) eqn:Hp; try discriminate H; try (injection H as <-);
    try (apply (poll_receipts txs) in H as [Hi Hp']; [|done]; cbn [submitted]; rewrite app_nil_r; split; [exact Hi|]; unfold over; by rewrite Hp', Hp);
    try (split; [by apply Hkeep|exact I]).
  - unfold bump in *. destruct (increaseGasPrice _ _ _) as [w [tx|e]]; by split; [apply Hkeep|].
  - unfold check in *. destruct (IsWaitingForConfirmation _); by split; [apply Hkeep|].
  - unfold submit in *. destruct (be_SendTransaction _ _) as [w [u|e]]; [|split; [by apply Hkeep|]; unfold over; cbn [sd_point]; by destruct (retries e)].
    split; [|done]. unfold receipts_inv. cbn [sd_waiting sd_receipt]. unfold submitted. rewrite Hp. destruct Hinv as [Hw Hr]. split.
    + intros x Hx. apply elem_of_cons in Hx as [->|Hx]; apply elem_of_app; [right; by left|left; by apply Hw].
    + intros r Hrc. apply (confirmed_more txs); [intros x Hx; apply elem_of_app; by left|by apply Hr].
  - unfold on_ticker in *. destruct (IsWaitingForConfirmation (sd_state s)) eqn:Hw; [split; [by apply Hkeep|unfold over; by rewrite Hp]|].
    destruct (ShouldAbortImmediately (be_now (sd_world s)) (sd_state s)) eqn:Ha; (split; [by apply Hkeep|]); [|done]. unfold over. cbn [at_point sd_point sd_state sd_world]. right. split; [done|].
    unfold IsWaitingForConfirmation in Hw. unfold ShouldAbortImmediately in Ha. rewrite Hw in Ha. apply Nat.ltb_ge in Hw. split; [apply leibniz_equiv, size_empty_inv; lia|].
    apply orb_true_iff in Ha as [Ha|Ha]; [left; lia|right; apply andb_true_iff in Ha; lia].
  - split; [by apply Hkeep|]. left. apply elem_of_app. right. by left.
  - destruct (sd_receipt s) as [r|] eqn:Hrc; [|done]. injection H as <-. split; [by apply Hkeep|]. unfold over. cbn [at_point sd_point].
    apply (confirmed_more txs); [intros x Hx; apply elem_of_app; by left|by apply Hinv].
Qed.

Lemma run_outcome evs (s s' : sending) log seen pre : receipts_inv seen s -> over seen pre s -> sendTx_run cfg evs s = Some (log, s') -> over (seen ++ log) (pre ++ evs) s'.
Proof using.
  revert s log seen pre. induction evs as [|ev evs IH]; intros s log seen pre Hi Ho H; cbn [sendTx_run] in H; [injection H as <- <-; by rewrite !app_nil_r|].
  destruct (sendTx_step cfg ev s) as [s1|] eqn:Hs; [|done]. cbn [mbind option_bind] in H. destruct (sendTx_run cfg evs s1) as [[log1 s2]|] eqn:Hr; [|done].
  injection H as <- <-. destruct (step_outcome ev seen pre s s1 Hi Hs) as [Hi1 Ho1]. apply (IH s1 log1 _ _ Hi1 Ho1) in Hr. by rewrite <- !app_assoc in Hr.
Qed.

(** C31. How a call of [sendTx] ends, whatever the chain answers and in whatever order its goroutines run: with a receipt only when the chain gave that receipt for a version that was submitted and its block has the configured number of confirmations; with an error only when the context was cancelled, or when no version is known to be mined and either the nonce was too low as often as is configured or no version ever made it to the pool before the deadline. *)
Theorem sendTx_outcome evs tx (w : W) s s' log : start_sendTx cfg tx w = Ok s -> sendTx_run cfg evs s = Some (log, s') -> over log evs s'.
Proof using.
  intros Hs Hr. unfold start_sendTx in Hs. apply res_bind_ok in Hs as (st & _ & Hs). injection Hs as <-.
  by apply (run_outcome evs _ s' log [] []) in Hr.
Qed.

(** ** Increasing the fees *)

(** The fees of a transaction go up to what the chain accepts as a replacement and the configuration allows: when the fees are increased, the result is the same transaction or one with both fees at least a tenth above the old ones (rounded down), at least the suggestion and at most its multiple, the tip not above the fee cap, and everything else but the gas limit as it was. *)
Lemma increaseGasPrice_bounds tx (w w' : W) tx' : fees_ok tx -> increaseGasPrice cfg tx w = (w', Ok tx') -> tx' = tx \/
  same_payload tx tx' /\ fees_ok tx' /\
  tx_GasTipCap tx * 110 / 100 <= tx_GasTipCap tx' /\ tx_GasFeeCap tx * 110 / 100 <= tx_GasFeeCap tx' /\
  exists w1 tip base, suggestGasPriceCaps w = (w1, Ok (tip, base)) /\
    tip <= tx_GasTipCap tx' <= tip * int64 (cf_FeeLimitMultiplier cfg) /\
    tip + 2 * base <= tx_GasFeeCap tx' <= tip * int64 (cf_FeeLimitMultiplier cfg) + 2 * (base * int64 (cf_FeeLimitMultiplier cfg)).
Proof using laws.
  intros Hok H. apply increase_inv in H as [->|(Hv & [Ht Hf] & w1 & tip & base & Hs & Hl)]; [by left| |done]. right. unfold calcThresholdValue, priceBumpPercent, priceBump, oneHundred in *.
  unfold within_limits, calcGasFeeCap in Hl. split; [apply Hv|]. split; [apply Hv|]. rewrite !(Z.mul_comm _ 110). split; [exact Ht|]. split; [exact Hf|]. exists w1, tip, base. split; [done|]. lia.
Qed.

(** ** Publishing *)

(** The goroutine of [sendTx] goes on by itself until it is at its [select],
    in at most so many steps. *)
Definition selects_within (n : nat) (s : sending) : Prop :=
  exists k log s', (k <= n)%nat /\ sendTx_run cfg (repeat Advance k) s = Some (log, s') /\ sd_point s' = Selecting.

Lemma selects_now n (s : sending) : sd_point s = Selecting -> selects_within n s.
Proof using. intros H. exists 0%nat, [], s. split_and!; [lia|done|done]. Qed.

Lemma selects_later n (s s1 : sending) : sendTx_step cfg Advance s = Some s1 -> selects_within n s1 -> selects_within (S n) s.
Proof using.
  intros Hs (k & log & s' & Hk & Hr & Hp). exists (S k), (submitted Advance s ++ log), s'. split; [lia|]. split; [|done]. cbn [repeat sendTx_run]. rewrite Hs. cbn [mbind option_bind]. by rewrite Hr.
Qed.

Section Publish.
Variables maxTip maxBase : Z.
Context (suggestions : forall (w w' : W) t b, suggestGasPriceCaps w = (w', Ok (t, b)) -> t <= maxTip /\ b <= maxBase)
  (signs : forall from tx (w : W), exists w', be_Signer from tx w = (w', Ok tx))
  (mult_pos : 0 <= int64 (cf_FeeLimitMultiplier cfg)).

Definition max_fee : Z := maxTip * int64 (cf_FeeLimitMultiplier cfg) + 2 * (maxBase * int64 (cf_FeeLimitMultiplier cfg)).

Lemma increase_grows tx (w w' : W) tx' : fees_ok tx -> 10 <= tx_GasFeeCap tx -> increaseGasPrice cfg tx w = (w', Ok tx') ->
  fees_ok tx' /\ tx_GasFeeCap tx + 1 <= tx_GasFeeCap tx' <= max_fee.
Proof using laws suggestions signs mult_pos.
  intros Hok H10 H. pose proof H as Hi. unfold increaseGasPrice in H. apply stM_bind_ok in H as (w1 & [tip base] & Hs & H). pose proof (suggest_inv _ _ _ _ Hs) as (Ht & Hb & _).
  destruct (suggestions _ _ _ _ Hs) as [Hmt Hmb]. destruct (updateFees _ _ _ _) as [bt bf] eqn:Hu. apply updateFees_spec in Hu as (H1 & H2 & H3 & H4 & H5); [|done..]. cbv zeta in H.
  destruct (Z.ltb_spec (tip * int64 (cf_FeeLimitMultiplier cfg)) bt); [done|]. destruct (Z.ltb_spec (calcGasFeeCap (base * int64 (cf_FeeLimitMultiplier cfg)) (tip * int64 (cf_FeeLimitMultiplier cfg))) bf) as [|Hbf]; [done|].
  apply stM_bind_ok in H as (w2 & gas & _ & H). unfold on_err in H. destruct (signs (cf_From cfg) (mkTransaction (tx_ChainID tx) (tx_Nonce tx) bt bf gas (tx_To tx) (tx_Value tx) (tx_Data tx) (tx_AccessList tx)) w2) as [w3 Hsign].
  rewrite Hsign in H. injection H as _ <-. unfold fees_ok, max_fee, calcGasFeeCap in *. cbn [tx_GasTipCap tx_GasFeeCap]. pose proof (thr_ge (tx_GasTipCap tx) ltac:(lia)). pose proof (thr_grows (tx_GasFeeCap tx) H10). nia.
Qed.

Lemma bumping_selects n (s : sending) : fees_ok (sd_tx s) -> 10 <= tx_GasFeeCap (sd_tx s) -> max_fee - tx_GasFeeCap (sd_tx s) <= Z.of_nat n -> sd_point s = Bumping ->
  selects_within (3 * n + 1) s.
Proof using laws suggestions signs mult_pos.
  revert s. induction n as [|n IH]; intros s Hok H10 Hn Hp; [change (3 * 0 + 1)%nat with 1%nat|replace (3 * S n + 1)%nat with (S (S (S (3 * n + 1)))) by lia];
    apply (selects_later _ s (bump cfg s)); try (cbn [sendTx_step]; by rewrite Hp); unfold bump;
    destruct (increaseGasPrice cfg (sd_tx s) (sd_world s)) as [w [tx|e]] eqn:Hi; try (by apply selects_now); apply increase_grows in Hi as [Hok' Hg]; try done; [lia|].
  set (s1 := mkSending w _ tx Checking _ _). apply (selects_later _ s1 (check s1)); [done|]. unfold check. destruct (IsWaitingForConfirmation _); [by apply selects_now|].
  apply (selects_later _ _ (submit (at_point Submitting s1))); [done|]. unfold submit. destruct (be_SendTransaction _ _) as [w2 [u|e]]; [by apply selects_now|].
  destruct (retries e); [|by apply selects_now]. apply IH; cbn [sd_tx at_point s1]; (done || lia).
Qed.

(** C33. Publishing comes to an end even against a pool that finds every version underpriced: when the signer works, the suggestions have a bound and the fee cap is at least ten wei, each version costs more than the last, so that [publishTx] returns to the loop of [sendTx] within three steps per wei that is left up to the limit. *)
Theorem publish_ends (s : sending) : fees_ok (sd_tx s) -> 10 <= tx_GasFeeCap (sd_tx s) <= max_fee -> (sd_point s = Checking \/ sd_point s = Bumping) ->
  selects_within (3 * Z.to_nat (max_fee - tx_GasFeeCap (sd_tx s)) + 3) s.
Proof using laws suggestions signs mult_pos.
  intros Hok H10 Hp. set (n := Z.to_nat _). assert (Hb : forall s' : sending, sd_tx s' = sd_tx s -> sd_point s' = Bumping -> selects_within (3 * n + 1) s').
  { intros s' Htx Hp'. apply bumping_selects; rewrite ?Htx; (done || lia). }
  destruct Hp as [Hp|Hp].
  - replace (3 * n + 3)%nat with (S (S (3 * n + 1))) by lia. apply (selects_later _ s (check s)); [cbn [sendTx_step]; by rewrite Hp|]. unfold check. destruct (IsWaitingForConfirmation _); [by apply selects_now|].
    apply (selects_later _ _ (submit (at_point Submitting s))); [done|]. unfold submit. destruct (be_SendTransaction _ _) as [w2 [u|e]]; [by apply selects_now|].
    destruct (retries e); [|by apply selects_now]. by apply Hb.
  - destruct (Hb s eq_refl Hp) as (k & log & s' & Hk & Hr). exists k, log, s'. split; [lia|done].
Qed.
End Publish.

(** ** The estimate of the gas of a version *)

Section Estimate.
Context (refuses : forall msg (w : W), cm_GasFeeCap msg < cm_GasTipCap msg -> exists w' e, be_EstimateGas msg w = (w', Err e))
  (base_pos : forall (w w' : W) b, be_HeaderByNumber w = (w', Ok (Some b)) -> 0 < b).

Lemma increase_refused tx (w : W) : 0 <= tx_GasTipCap tx < tx_GasFeeCap tx -> exists w' e, increaseGasPrice cfg tx w = (w', Err e).
Proof using laws refuses base_pos.
  intros Htx. unfold increaseGasPrice, mbind at 1, stM_bind at 1. destruct (suggestGasPriceCaps w) as [w1 [[tip base]|e]] eqn:Hs; [|by eexists _, _].
  apply suggest_inv in Hs as (Ht & _ & w0 & _ & Hb). apply base_pos in Hb. destruct (updateFees _ _ _ _) as [bt bf] eqn:Hu. apply updateFees_above in Hu; [|done..]. cbv zeta.
  destruct (_ <? bt); [by eexists _, _|]. destruct (_ <? bf); [by eexists _, _|].
  destruct (refuses (mkCallMsg (cf_From cfg) (tx_To tx) bt bf (tx_Data tx) None) w1 Hu) as (w2 & e & He). unfold mbind, stM_bind. rewrite He. by eexists _, _.
Qed.

Lemma step_unbumped ev (s s' : sending) : 0 <= tx_GasTipCap (sd_tx s) < tx_GasFeeCap (sd_tx s) -> sendTx_step cfg ev s = Some s' -> sd_tx s' = sd_tx s.
Proof using laws refuses base_pos.
  intros Htx H. destruct ev as [| |e| |k|w]; cbn [sendTx_step] in H; destruct (sd_point s) eqn:Hp; try discriminate H; try (injection H as <-); try done; try (by apply poll_tx in H).
  - unfold bump. destruct (increase_refused (sd_tx s) (sd_world s) Htx) as (w & e & He). by rewrite He.
  - unfold check. by destruct (IsWaitingForConfirmation _).
  - unfold submit. by destruct (be_SendTransaction _ _) as [w [u|e]].
  - unfold on_ticker. destruct (IsWaitingForConfirmation _); [done|]. by destruct (ShouldAbortImmediately _ _).
  - destruct (sd_receipt s); [|done]. by injection H as <-.
Qed.

Lemma run_unbumped evs (s s' : sending) log : 0 <= tx_GasTipCap (sd_tx s) < tx_GasFeeCap (sd_tx s) -> sendTx_run cfg evs s = Some (log, s') ->
  Forall (eq (sd_tx s)) log /\ sd_tx s' = sd_tx s.
Proof using laws refuses base_pos.
  revert s log. induction evs as [|ev evs IH]; intros s log Htx H; cbn [sendTx_run] in H; [injection H as <- <-; split; [constructor|done]|].
  destruct (sendTx_step cfg ev s) as [s1|] eqn:Hs; [|done]. cbn [mbind option_bind] in H. destruct (sendTx_run cfg evs s1) as [[log1 s2]|] eqn:Hr; [|done].
  injection H as <- <-. apply step_unbumped in Hs; [|done]. apply IH in Hr as [Hall Hend]; [|by rewrite Hs]. rewrite Hs in Hall, Hend. split; [|done].
  unfold submitted. destruct ev; try done. destruct (sd_point s); try done. by constructor.
Qed.

(** C34. The fees of a transaction never go up against a node that refuses to estimate a call whose tip is above its fee cap: the estimate that comes with every increase has the two exchanged, so that every increase fails, and a call of [sendTx] submits only the first version, however often and for however long it is refused as underpriced. *)
Theorem fees_never_rise evs tx (w : W) s s' log : 0 <= tx_GasTipCap tx < tx_GasFeeCap tx -> start_sendTx cfg tx w = Ok s -> sendTx_run cfg evs s = Some (log, s') ->
  Forall (eq tx) log /\ sd_tx s' = tx.
Proof using laws refuses base_pos.
  intros Htx Hs Hr. unfold start_sendTx in Hs. apply res_bind_ok in Hs as (st & _ & Hs). injection Hs as <-. by apply run_unbumped in Hr.
Qed.
End Estimate.

(** ** Nonces *)

(** Transactions are signed one after the other. *)
Fixpoint sign_all (raws : list Transaction) (m : SimpleTxManager W) : SimpleTxManager W * list (res Transaction) :=
  match raws with
  | [] => (m, [])
  | raw :: raws => let '(m, r) := signWithNextNonce cfg raw m in let '(m, rs) := sign_all raws m in (m, r :: rs)
  end.

Definition used (rs : list (res Transaction)) : list Z := omap (fun r => match r with Ok tx => Some (tx_Nonce tx) | Err _ => None end) rs.

Lemma sign_next raw n (m : SimpleTxManager W) : is_u64 n -> tm_nonce m = Some n -> exists w r, signWithNextNonce cfg raw m = (mkSimpleTxManager (Some (if is_ok r then n +₆₄ 1 else n)) w, r) /\
  match r with Ok tx => tx_Nonce tx = n +₆₄ 1 | Err _ => True end.
Proof using laws.
  intros Hn Hm. unfold signWithNextNonce. rewrite Hm. unfold mbind, stM_bind, on_err, put_nonce, on_world, set_nonce, mret, stM_ret. cbn [tm_world tm_nonce].
  destruct (be_Signer (cf_From cfg) (with_nonce (n +₆₄ 1) raw) (tm_world m)) as [w [tx|e]] eqn:Hs.
  - apply (cl_signer laws) in Hs as ->. exists w, (Ok (with_nonce (n +₆₄ 1) raw)). by split.
  - exists w, (Err e). cbn [is_ok]. split; [|done]. unfold throw. cbn [tm_world]. do 3 f_equal. unfold is_u64 in Hn. ulia.
Qed.

Lemma used_nonces raws n (m : SimpleTxManager W) : is_u64 n -> tm_nonce m = Some n ->
  let '(m', rs) := sign_all raws m in
  used rs = map (fun k => u64 (n + Z.of_nat k)) (seq 1 (length (used rs))) /\ tm_nonce m' = Some (u64 (n + Z.of_nat (length (used rs)))).
Proof using laws.
  revert n m. induction raws as [|raw raws IH]; intros n m Hn Hm; cbn [sign_all].
  { cbn. rewrite Z.add_0_r, u64_id by done. by split. }
  destruct (sign_next raw n m Hn Hm) as (w & r & Hs & Hr). rewrite Hs. specialize (IH (if is_ok r then n +₆₄ 1 else n) (mkSimpleTxManager (Some (if is_ok r then n +₆₄ 1 else n)) w)).
  assert (Hn' : is_u64 (if is_ok r then n +₆₄ 1 else n)) by (destruct (is_ok r); [apply u64_range|done]). specialize (IH Hn' eq_refl).
  destruct (sign_all raws _) as [m' rs]. destruct IH as [Hu Hend]. unfold used in *. destruct r as [tx|e]; cbn [is_ok omap list_omap] in *; [|done]. rewrite Hr. cbn [length seq map].
  split.
  - f_equal. etrans; [exact Hu|]. rewrite <- (seq_shift _ 1), map_map. apply map_ext. intros k. ulia.
  - rewrite Hend. f_equal. ulia.
Qed.

(** Nonces are used in order: from one look at the chain on, the transactions that are signed have the nonces after the one found there, one after the other without a gap, and an attempt whose signature fails uses none. *)
Lemma nonces_in_order raws (m : SimpleTxManager W) w n : raws <> [] -> is_u64 n -> tm_nonce m = None -> be_NonceAt (cf_From cfg) (tm_world m) = (w, Ok n) ->
  let '(m', rs) := sign_all raws m in
  length rs = length raws /\ used rs = map (fun k => u64 (n + Z.of_nat k)) (seq 0 (length (used rs))) /\ tm_nonce m' = Some (u64 (n - 1 + Z.of_nat (length (used rs)))).
Proof using laws.
  intros Hraws Hn Hm Hat. assert (Hsame : sign_all raws m = sign_all raws (mkSimpleTxManager (Some (n -₆₄ 1)) w)).
  { destruct raws as [|raw raws]; [done|]. cbn [sign_all]. f_equal. unfold signWithNextNonce. rewrite Hm. cbn [tm_nonce]. unfold mbind, stM_bind, on_err, put_nonce, on_world, set_nonce, mret, stM_ret, throw.
    rewrite Hat. cbn [tm_world tm_nonce]. by replace (n -₆₄ 1 +₆₄ 1) with n by (unfold is_u64 in Hn; ulia). }
  rewrite Hsame. clear Hsame. pose proof (used_nonces raws (n -₆₄ 1) (mkSimpleTxManager (Some (n -₆₄ 1)) w) (u64_range _) eq_refl) as Hu.
  assert (Hlen : forall raws m, length (sign_all raws m).2 = length raws).
  { clear. intros raws. induction raws as [|raw raws IH]; intros m; [done|]. cbn [sign_all]. destruct (signWithNextNonce cfg raw m) as [m1 r]. specialize (IH m1). destruct (sign_all raws m1). cbn. by f_equal. }
  specialize (Hlen raws (mkSimpleTxManager (Some (n -₆₄ 1)) w)). destruct (sign_all raws _) as [m' rs]. destruct Hu as [Hu Hend]. split; [done|]. split.
  - etrans; [exact Hu|]. rewrite <- (seq_shift _ 0), map_map. apply map_ext. intros k. ulia.
  - rewrite Hend. f_equal. ulia.
Qed.
End Manager.
