(* ===== verification/OutputOracle.v ===== *)
(** * The output oracle

    [packages/contracts-bedrock/src/L1/L2OutputOracle.sol]: the contract on L1
    that the proposer writes the output roots of the L2 chain to. A call that
    reverts is an error; arithmetic on [uint256] reverts when it overflows. *)

From S2P Require Import Prelude Eth MipsContract.

Module L2OO.

Definition revert {A} (msg : string) : res A := Err (Errorf msg).
Definition require (b : bool) (msg : string) : res unit := if b then Ok tt else revert msg.

Definition add256 (x y : Z) : res Z := if 2 ^ 256 <=? x + y then revert "arithmetic overflow" else Ok (x + y).
Definition sub256 (x y : Z) : res Z := if x <? y then revert "arithmetic underflow" else Ok (x - y).
Definition mul256 (x y : Z) : res Z := if 2 ^ 256 <=? x * y then revert "arithmetic overflow" else Ok (x * y).
Definition uint128 (x : Z) : Z := x mod 2 ^ 128.

Record OutputProposal := mkOutputProposal {
  outputRoot : Hash;
  timestamp : Z;
  l2BlockNumber : Z;
}.

Record Oracle := mkOracle {
  SUBMISSION_INTERVAL : Z;
  L2_BLOCK_TIME : Z;
  FINALIZATION_PERIOD_SECONDS : Z;
  startingBlockNumber : Z;
  startingTimestamp : Z;
  l2Outputs : list OutputProposal;
  challenger : Address;
  proposer : Address;
}.

(** The sender, the time of the block, and the hashes of the blocks before. *)
Record Env := mkEnv {
  msg_sender : Address;
  block_timestamp : Z;
  blockhash : Z -> Hash;
}.

Definition set_outputs (l : list OutputProposal) (o : Oracle) : Oracle :=
  mkOracle (SUBMISSION_INTERVAL o) (L2_BLOCK_TIME o) (FINALIZATION_PERIOD_SECONDS o) (startingBlockNumber o) (startingTimestamp o) l (challenger o) (proposer o).

Definition constructor (_submissionInterval _l2BlockTime _finalizationPeriodSeconds : Z) : res Oracle :=
  _ ← require (0 <? _l2BlockTime) "L2OutputOracle: L2 block time must be greater than 0";
  _ ← require (0 <? _submissionInterval) "L2OutputOracle: submission interval must be greater than 0";
  mret (mkOracle _submissionInterval _l2BlockTime _finalizationPeriodSeconds 0 0 [] (zeros 20) (zeros 20)).

Definition initialize (env : Env) (_startingBlockNumber _startingTimestamp : Z) (_proposer _challenger : Address) (o : Oracle) : res Oracle :=
  _ ← require (_startingTimestamp <=? block_timestamp env) "L2OutputOracle: starting L2 timestamp must be less than current time";
  mret (mkOracle (SUBMISSION_INTERVAL o) (L2_BLOCK_TIME o) (FINALIZATION_PERIOD_SECONDS o) _startingBlockNumber _startingTimestamp (l2Outputs o) _challenger _proposer).

Definition latestBlockNumber (o : Oracle) : Z :=
  match last (l2Outputs o) with None => startingBlockNumber o | Some p => l2BlockNumber p end.

Definition nextBlockNumber (o : Oracle) : res Z := add256 (latestBlockNumber o) (SUBMISSION_INTERVAL o).

Definition nextOutputIndex (o : Oracle) : Z := Z.of_nat (length (l2Outputs o)).

Definition latestOutputIndex (o : Oracle) : res Z := sub256 (nextOutputIndex o) 1.

Definition computeL2Timestamp (_l2BlockNumber : Z) (o : Oracle) : res Z :=
  d ← sub256 _l2BlockNumber (startingBlockNumber o);
  t ← mul256 d (L2_BLOCK_TIME o);
  add256 (startingTimestamp o) t.

Definition getL2Output (_l2OutputIndex : Z) (o : Oracle) : res OutputProposal :=
  match l2Outputs o !! Z.to_nat _l2OutputIndex with Some p => Ok p | None => revert "index out of bounds" end.

Definition deleteL2Outputs (env : Env) (_l2OutputIndex : Z) (o : Oracle) : res Oracle :=
  _ ← require (bool_decide (msg_sender env = challenger o)) "L2OutputOracle: only the challenger address can delete outputs";
  _ ← require (_l2OutputIndex <? nextOutputIndex o) "L2OutputOracle: cannot delete outputs after the latest output index";
  p ← getL2Output _l2OutputIndex o;
  age ← sub256 (block_timestamp env) (timestamp p);
  _ ← require (age <? FINALIZATION_PERIOD_SECONDS o) "L2OutputOracle: cannot delete outputs that have already been finalized";
  mret (set_outputs (take (Z.to_nat _l2OutputIndex) (l2Outputs o)) o).

Definition proposeL2Output (env : Env) (_outputRoot : Hash) (_l2BlockNumber : Z) (_l1BlockHash : Hash) (_l1BlockNumber : Z) (o : Oracle) : res Oracle :=
  _ ← require (bool_decide (msg_sender env = proposer o)) "L2OutputOracle: only the proposer address can propose new outputs";
  next ← nextBlockNumber o;
  _ ← require (_l2BlockNumber =? next) "L2OutputOracle: block number must be equal to next expected block number";
  t ← computeL2Timestamp _l2BlockNumber o;
  _ ← require (t <? block_timestamp env) "L2OutputOracle: cannot propose L2 output in the future";
  _ ← require (negb (bool_decide (_outputRoot = zeros 32))) "L2OutputOracle: L2 output proposal cannot be the zero hash";
  _ ← (if negb (bool_decide (_l1BlockHash = zeros 32)) then
         require (bool_decide (blockhash env _l1BlockNumber = _l1BlockHash)) "L2OutputOracle: block hash does not match the hash at the expected height"
       else mret tt);
  mret (set_outputs (l2Outputs o ++ [mkOutputProposal _outputRoot (uint128 (block_timestamp env)) (uint128 _l2BlockNumber)]) o).

(** The binary search: each turn halves what is between the bounds. *)
Fixpoint search (fuel : nat) (_l2BlockNumber lo hi : Z) (o : Oracle) : res Z :=
  match fuel with
  | O => revert "out of gas"
  | S fuel =>
      if lo <? hi then
        let mid := (lo + hi) / 2 in
        p ← getL2Output mid o;
        if l2BlockNumber p <? _l2BlockNumber then search fuel _l2BlockNumber (mid + 1) hi o
        else search fuel _l2BlockNumber lo mid o
      else Ok lo
  end.

Definition getL2OutputIndexAfter (_l2BlockNumber : Z) (o : Oracle) : res Z :=
  _ ← require (_l2BlockNumber <=? latestBlockNumber o) "L2OutputOracle: cannot get output for a block that has not been proposed";
  _ ← require (0 <? nextOutputIndex o) "L2OutputOracle: cannot get output as no outputs have been proposed yet";
  search (S (length (l2Outputs o))) _l2BlockNumber 0 (nextOutputIndex o) o.

Definition getL2OutputAfter (_l2BlockNumber : Z) (o : Oracle) : res OutputProposal :=
  k ← getL2OutputIndexAfter _l2BlockNumber o;
  getL2Output k o.

(** A transaction that proposes, as calldata. *)
Definition call_propose (proposeL2Output_selector : bytes) (env : Env) (calldata : bytes) (o : Oracle) : res Oracle :=
  _ ← require (bool_decide (take 4 calldata = proposeL2Output_selector)) "unknown function";
  _ ← require (4 + 32 * 4 <=? blen calldata) "calldata too short";
  let arg i := MIPS.calldataload calldata (4 + 32 * i) in
  proposeL2Output env (arg 0) (get_be (arg 1)) (arg 2) (get_be (arg 3)) o.

(** ** What the contract goes through *)

Inductive tx :=
  | Propose (env : Env) (root : Hash) (number : Z) (l1Hash : Hash) (l1Number : Z)
  | Delete (env : Env) (index : Z).

Definition tx_env (t : tx) : Env := match t with Propose env _ _ _ _ | Delete env _ => env end.

(** A transaction that reverts changes nothing. *)
Definition execute (t : tx) (o : Oracle) : Oracle :=
  match (match t with
         | Propose env root number l1Hash l1Number => proposeL2Output env root number l1Hash l1Number o
         | Delete env index => deleteL2Outputs env index o
         end) with
  | Ok o' => o'
  | Err _ => o
  end.

(** The transactions are in blocks whose times do not go back. *)
Inductive history (now : Z) : list tx -> Prop :=
  | history_nil : history now []
  | history_cons t txs : now <= block_timestamp (tx_env t) < 2 ^ 64 -> history (block_timestamp (tx_env t)) txs -> history now (t :: txs).

Definition run (txs : list tx) (o : Oracle) : Oracle := foldl (fun o t => execute t o) o txs.

(** ** The outputs are a sequence of checkpoints *)

Record oracle_inv (now : Z) (o : Oracle) : Prop := {
  oi_interval : 0 < SUBMISSION_INTERVAL o;
  oi_time : 0 < L2_BLOCK_TIME o;
  oi_start : 0 <= startingBlockNumber o < 2 ^ 127;
  oi_start_time : 0 <= startingTimestamp o;
  oi_number : forall k p, l2Outputs o !! k = Some p -> l2BlockNumber p = startingBlockNumber o + (Z.of_nat k + 1) * SUBMISSION_INTERVAL o;
  oi_timestamp : forall k p, l2Outputs o !! k = Some p -> 0 <= timestamp p <= now;
  oi_sorted : forall j k p q, (j <= k)%nat -> l2Outputs o !! j = Some p -> l2Outputs o !! k = Some q -> timestamp p <= timestamp q;
}.

Lemma inv_later now now' o : now <= now' -> oracle_inv now o -> oracle_inv now' o.
Proof. intros Hn []. split; try done. intros k p Hk. specialize (oi_timestamp0 k p Hk). lia. Qed.

Lemma latest_number now o : oracle_inv now o -> latestBlockNumber o = startingBlockNumber o + Z.of_nat (length (l2Outputs o)) * SUBMISSION_INTERVAL o.
Proof.
  intros Hi. unfold latestBlockNumber. destruct (last (l2Outputs o)) as [p|] eqn:Hl.
  - rewrite last_lookup in Hl. pose proof (lookup_lt_Some _ _ _ Hl). rewrite (oi_number _ _ Hi _ p Hl). do 2 f_equal. lia.
  - apply last_None in Hl. rewrite Hl. cbn. lia.
Qed.

Lemma require_ok b msg u : require b msg = Ok u -> b = true.
Proof. unfold require. by destruct b. Qed.

Lemma propose_inv env root number l1Hash l1Number o o' : proposeL2Output env root number l1Hash l1Number o = Ok o' ->
  msg_sender env = proposer o /\ number = latestBlockNumber o + SUBMISSION_INTERVAL o /\
  startingBlockNumber o <= number /\ startingTimestamp o + (number - startingBlockNumber o) * L2_BLOCK_TIME o < block_timestamp env /\ root <> zeros 32 /\
  o' = set_outputs (l2Outputs o ++ [mkOutputProposal root (uint128 (block_timestamp env)) (uint128 number)]) o.
Proof.
  intros H. unfold proposeL2Output in H. apply res_bind_ok in H as (u & H1 & H). apply require_ok, bool_decide_eq_true in H1.
  apply res_bind_ok in H as (next & H2 & H). unfold nextBlockNumber, add256 in H2. destruct (2 ^ 256 <=? _) in H2; [done|]. injection H2 as <-.
  apply res_bind_ok in H as (u2 & H2 & H). apply require_ok, Z.eqb_eq in H2. apply res_bind_ok in H as (t & H3 & H).
  unfold computeL2Timestamp in H3. apply res_bind_ok in H3 as (d & Hd & H3). unfold sub256 in Hd. destruct (Z.ltb_spec number (startingBlockNumber o)); [done|]. injection Hd as <-.
  apply res_bind_ok in H3 as (m & Hm & H3). unfold mul256 in Hm. destruct (_ <=? _) in Hm; [done|]. injection Hm as <-. unfold add256 in H3. destruct (_ <=? _) in H3; [done|]. injection H3 as <-.
  apply res_bind_ok in H as (u3 & H3 & H). apply require_ok in H3. apply res_bind_ok in H as (u4 & H4 & H). apply require_ok, negb_true_iff, bool_decide_eq_false in H4.
  apply res_bind_ok in H as (u5 & _ & H). injection H as <-. split_and!; try done. lia.
Qed.

Lemma propose_keeps now env root number l1Hash l1Number o o' : oracle_inv now o -> now <= block_timestamp env < 2 ^ 64 ->
  proposeL2Output env root number l1Hash l1Number o = Ok o' -> oracle_inv (block_timestamp env) o'.
Proof.
  intros Hi Hn H. apply propose_inv in H as (_ & Hnum & Hge & Ht & _ & ->). pose proof (latest_number _ _ Hi) as Hlat. destruct Hi as [Hint Htime Hstart Hst Hnb Hts Hsort].
  assert (Hsmall : uint128 number = number) by (apply Z.mod_small; nia). assert (Hnow : 0 <= block_timestamp env) by nia.
  assert (Hts128 : uint128 (block_timestamp env) = block_timestamp env) by (apply Z.mod_small; lia).
  split; cbn [set_outputs SUBMISSION_INTERVAL L2_BLOCK_TIME startingBlockNumber startingTimestamp l2Outputs]; try done.
  - intros k p Hk. apply lookup_app_Some in Hk as [Hk|[Hk Hp]]; [by apply Hnb|]. apply list_lookup_singleton_Some in Hp as [Hz <-]. cbn [l2BlockNumber]. rewrite Hsmall, Hnum, Hlat.
    replace k with (length (l2Outputs o)) by lia. lia.
  - intros k p Hk. apply lookup_app_Some in Hk as [Hk|[Hk Hp]]; [specialize (Hts _ _ Hk); lia|]. apply list_lookup_singleton_Some in Hp as [_ <-]. cbn [timestamp]. lia.
  - intros j k p q Hjk Hj Hk. apply lookup_app_Some in Hk as [Hk|[Hk Hq]].
    + rewrite lookup_app_l in Hj by (apply lookup_lt_Some in Hk; lia). by apply (Hsort j k).
    + apply list_lookup_singleton_Some in Hq as [Hz <-]. cbn [timestamp]. rewrite Hts128. apply lookup_app_Some in Hj as [Hj|[Hj Hp]]; [specialize (Hts _ _ Hj); lia|].
      apply list_lookup_singleton_Some in Hp as [_ <-]. cbn [timestamp]. lia.
Qed.

Lemma delete_inv env index o o' : deleteL2Outputs env index o = Ok o' ->
  msg_sender env = challenger o /\ index < Z.of_nat (length (l2Outputs o)) /\
  (exists p, l2Outputs o !! Z.to_nat index = Some p /\ block_timestamp env - timestamp p < FINALIZATION_PERIOD_SECONDS o) /\
  o' = set_outputs (take (Z.to_nat index) (l2Outputs o)) o.
Proof.
  intros H. unfold deleteL2Outputs in H. apply res_bind_ok in H as (u & H1 & H). apply require_ok, bool_decide_eq_true in H1. apply res_bind_ok in H as (u2 & H2 & H). apply require_ok in H2.
  apply res_bind_ok in H as (p & Hp & H). unfold getL2Output in Hp. destruct (l2Outputs o !! Z.to_nat index) as [p0|] eqn:Hl; [|done]. injection Hp as <-.
  apply res_bind_ok in H as (age & Ha & H). unfold sub256 in Ha. destruct (_ <? _) in Ha; [done|]. injection Ha as <-. apply res_bind_ok in H as (u3 & H3 & H). apply require_ok in H3.
  injection H as <-. unfold nextOutputIndex in H2. split_and!; try done; [lia|]. exists p0. split; [done|lia].
Qed.

Lemma delete_keeps now env index o o' : oracle_inv now o -> now <= block_timestamp env -> deleteL2Outputs env index o = Ok o' -> oracle_inv (block_timestamp env) o'.
Proof.
  intros Hi Hn H. apply delete_inv in H as (_ & _ & _ & ->). apply (inv_later now); [done|]. destruct Hi as [Hint Htime Hstart Hst Hnb Hts Hsort].
  split; cbn [set_outputs SUBMISSION_INTERVAL L2_BLOCK_TIME startingBlockNumber startingTimestamp l2Outputs]; try done.
  - intros k p Hk. apply lookup_take_Some in Hk as [Hk _]. by apply Hnb.
  - intros k p Hk. apply lookup_take_Some in Hk as [Hk _]. by apply (Hts k).
  - intros j k p q Hjk Hj Hk. apply lookup_take_Some in Hj as [Hj _]. apply lookup_take_Some in Hk as [Hk _]. by apply (Hsort j k).
Qed.

Lemma execute_keeps now t o : oracle_inv now o -> now <= block_timestamp (tx_env t) < 2 ^ 64 -> oracle_inv (block_timestamp (tx_env t)) (execute t o).
Proof.
  intros Hi Hn. unfold execute. destruct t as [env root number l1Hash l1Number|env index]; cbn [tx_env] in *.
  - destruct (proposeL2Output _ _ _ _ _ _) as [o'|e] eqn:H; [by apply (propose_keeps now) in H|apply (inv_later now); [lia|done]].
  - destruct (deleteL2Outputs _ _ _) as [o'|e] eqn:H; [apply (delete_keeps now) in H; [done|done|lia]|apply (inv_later now); [lia|done]].
Qed.

Lemma run_keeps txs now o : history now txs -> oracle_inv now o -> exists now', now <= now' /\ oracle_inv now' (run txs o).
Proof.
  revert now o. induction txs as [|t txs IH]; intros now o Hh Hi; cbn [run foldl]; [by exists now|]. inversion Hh as [|t' txs' Hn Hh']; subst.
  destruct (IH _ (execute t o) Hh' (execute_keeps now t o Hi Hn)) as (now' & Hle & Hi'). exists now'. split; [lia|done].
Qed.

Lemma run_constants txs o : startingBlockNumber (run txs o) = startingBlockNumber o /\ SUBMISSION_INTERVAL (run txs o) = SUBMISSION_INTERVAL o.
Proof.
  revert o. induction txs as [|t txs IH]; intros o; cbn [run foldl]; [done|]. destruct (IH (execute t o)) as [H1 H2]. unfold run in *. rewrite H1, H2. unfold execute.
  destruct t as [env root number l1Hash l1Number|env index].
  - destruct (proposeL2Output _ _ _ _ _ _) as [o'|e] eqn:H; [|done]. apply propose_inv in H as (_ & _ & _ & _ & _ & ->). done.
  - destruct (deleteL2Outputs _ _ _) as [o'|e] eqn:H; [|done]. apply delete_inv in H as (_ & _ & _ & ->). done.
Qed.

Lemma fresh_inv env interval blockTime period start startTime prop chal o0 o1 : constructor interval blockTime period = Ok o0 ->
  initialize env start startTime prop chal o0 = Ok o1 -> 0 <= start < 2 ^ 127 -> 0 <= startTime ->
  oracle_inv (block_timestamp env) o1 /\ startingBlockNumber o1 = start /\ SUBMISSION_INTERVAL o1 = interval.
Proof.
  intros Hc Hi Hs Ht. unfold constructor in Hc. apply res_bind_ok in Hc as (u & H1 & Hc). apply require_ok in H1. apply res_bind_ok in Hc as (u2 & H2 & Hc). apply require_ok in H2.
  injection Hc as <-. unfold initialize in Hi. apply res_bind_ok in Hi as (u3 & _ & Hi). injection Hi as <-. split; [|done].
  split; cbn [SUBMISSION_INTERVAL L2_BLOCK_TIME startingBlockNumber startingTimestamp l2Outputs]; try done; lia.
Qed.

(** The search finds where the numbers reach the one looked for. *)
Lemma search_spec fuel now b lo hi o : oracle_inv now o -> 0 <= lo <= hi -> hi <= Z.of_nat (length (l2Outputs o)) -> hi - lo < Z.of_nat fuel ->
  (forall k p, Z.of_nat k < lo -> l2Outputs o !! k = Some p -> l2BlockNumber p < b) -> (forall k p, hi <= Z.of_nat k -> l2Outputs o !! k = Some p -> b <= l2BlockNumber p) ->
  exists r, search fuel b lo hi o = Ok r /\ 0 <= r <= Z.of_nat (length (l2Outputs o)) /\
    (forall k p, Z.of_nat k < r -> l2Outputs o !! k = Some p -> l2BlockNumber p < b) /\ (forall k p, r <= Z.of_nat k -> l2Outputs o !! k = Some p -> b <= l2BlockNumber p).
Proof.
  intros Hi. revert lo hi. induction fuel as [|fuel IH]; intros lo hi Hlo Hhi Hf Hbelow Habove; [lia|]. cbn [search]. destruct (Z.ltb_spec lo hi) as [Hlt|].
  2: { exists lo. assert (lo = hi) as -> by lia. split; [done|]. split; [lia|done]. }
  set (mid := (lo + hi) / 2). assert (Hmid : lo <= mid < hi) by (unfold mid; ulia). cbv zeta. unfold getL2Output.
  destruct (l2Outputs o !! Z.to_nat mid) as [p|] eqn:Hp; [|apply lookup_ge_None in Hp; lia]. cbn [mbind res_bind]. pose proof (oi_number _ _ Hi _ _ Hp) as Hnum. rewrite Z2Nat.id in Hnum by lia. pose proof (oi_interval _ _ Hi) as Hint.
  destruct (Z.ltb_spec (l2BlockNumber p) b) as [Hb|Hb]; apply IH; try lia; try done; intros k q Hk Hq; pose proof (oi_number _ _ Hi _ _ Hq); nia.
Qed.

Lemma index_after now b o : oracle_inv now o -> b <= latestBlockNumber o -> l2Outputs o <> [] -> exists k p, getL2OutputIndexAfter b o = Ok (Z.of_nat k) /\
  l2Outputs o !! k = Some p /\ b <= l2BlockNumber p /\ forall j q, (j < k)%nat -> l2Outputs o !! j = Some q -> l2BlockNumber q < b.
Proof.
  intros Hi Hb Hne. assert (Hlen : 0 < Z.of_nat (length (l2Outputs o))) by (destruct (l2Outputs o); [done|cbn [length]; lia]).
  destruct (search_spec (S (length (l2Outputs o))) now b 0 (Z.of_nat (length (l2Outputs o))) o Hi ltac:(lia) ltac:(lia) ltac:(lia)) as (r & Hr & Hrange & Hbelow & Habove); [lia| |].
  { intros k p Hk Hp. apply lookup_lt_Some in Hp. lia. }
  destruct (last (l2Outputs o)) as [z|] eqn:Hlast; [|by apply last_None in Hlast]. assert (Hrl : r < Z.of_nat (length (l2Outputs o))).
  { destruct (Z.lt_ge_cases r (Z.of_nat (length (l2Outputs o)))); [done|]. unfold latestBlockNumber in Hb. rewrite Hlast in Hb. rewrite last_lookup in Hlast.
    pose proof (Hbelow (pred (length (l2Outputs o))) z ltac:(lia) Hlast). lia. }
  destruct (l2Outputs o !! Z.to_nat r) as [p|] eqn:Hp; [|apply lookup_ge_None in Hp; lia]. exists (Z.to_nat r), p. split_and!.
  - unfold getL2OutputIndexAfter, require, nextOutputIndex. destruct (Z.leb_spec b (latestBlockNumber o)); [|lia]. destruct (Z.ltb_spec 0 (Z.of_nat (length (l2Outputs o)))); [|lia].
    cbn [mbind res_bind]. rewrite Hr. f_equal. lia.
  - done.
  - apply (Habove (Z.to_nat r)); [lia|done].
  - intros j q Hj Hq. apply (Hbelow j); [lia|done].
Qed.

(** C35. The outputs on L1 are checkpoints at regular distances, and every block below the last one is covered: whatever transactions the contract sees after its deployment, its k-th output is for block start + (k+1) * interval, and the search for a block finds the first output at or after it, within its bounds, in at most as many turns as there are outputs. *)
Theorem oracle_checkpoints env interval blockTime period start startTime prop chal o0 o1 txs : constructor interval blockTime period = Ok o0 ->
  initialize env start startTime prop chal o0 = Ok o1 -> 0 <= start < 2 ^ 127 -> 0 <= startTime -> history (block_timestamp env) txs ->
  let o := run txs o1 in
  (forall k p, l2Outputs o !! k = Some p -> l2BlockNumber p = start + (Z.of_nat k + 1) * interval) /\
  (forall b, b <= latestBlockNumber o -> l2Outputs o <> [] -> exists k p, getL2OutputIndexAfter b o = Ok (Z.of_nat k) /\ getL2OutputAfter b o = Ok p /\
     l2Outputs o !! k = Some p /\ b <= l2BlockNumber p /\ forall j q, (j < k)%nat -> l2Outputs o !! j = Some q -> l2BlockNumber q < b).
Proof.
  intros Hc Hi Hs Ht Hh o. destruct (fresh_inv env interval blockTime period start startTime prop chal o0 o1 Hc Hi Hs Ht) as (Hinv & Hst & Hint).
  destruct (run_keeps txs _ o1 Hh Hinv) as (now' & _ & Hinv'). fold o in Hinv'. destruct (run_constants txs o1) as [Hr1 Hr2]. fold o in Hr1, Hr2. split.
  - intros k p Hk. rewrite (oi_number _ _ Hinv' _ _ Hk). congruence.
  - intros b Hb Hne. destruct (index_after now' b o Hinv' Hb Hne) as (k & p & Hk & Hp & Hge & Hbelow). exists k, p. split_and!; try done.
    unfold getL2OutputAfter. rewrite Hk. cbn [mbind res_bind]. unfold getL2Output. by rewrite Nat2Z.id, Hp.
Qed.

Lemma execute_finalized now t o k p : oracle_inv now o -> now <= block_timestamp (tx_env t) -> l2Outputs o !! k = Some p -> FINALIZATION_PERIOD_SECONDS o <= now - timestamp p ->
  l2Outputs (execute t o) !! k = Some p /\ FINALIZATION_PERIOD_SECONDS (execute t o) = FINALIZATION_PERIOD_SECONDS o.
Proof.
  intros Hi Hn Hk Hf. unfold execute. destruct t as [env root number l1Hash l1Number|env index]; cbn [tx_env] in Hn.
  - destruct (proposeL2Output _ _ _ _ _ _) as [o'|e] eqn:H; [|done]. apply propose_inv in H as (_ & _ & _ & _ & _ & ->). cbn [set_outputs l2Outputs FINALIZATION_PERIOD_SECONDS].
    split; [|done]. rewrite lookup_app_l; [done|by apply lookup_lt_Some in Hk].
  - destruct (deleteL2Outputs _ _ _) as [o'|e] eqn:H; [|done]. apply delete_inv in H as (_ & _ & (q & Hq & Hage) & ->). cbn [set_outputs l2Outputs FINALIZATION_PERIOD_SECONDS]. split; [|done].
    destruct (decide (k < Z.to_nat index)%nat) as [Hlt|Hge]; [by rewrite lookup_take_lt|]. pose proof (oi_sorted _ _ Hi (Z.to_nat index) k q p ltac:(lia) Hq Hk). lia.
Qed.

(** A finalized output stays: once the finalization period has passed since an output was proposed, no transaction of anybody, the challenger included, changes or deletes it. *)
Lemma finalized_outputs_stay now o txs k p : oracle_inv now o -> history now txs -> l2Outputs o !! k = Some p -> FINALIZATION_PERIOD_SECONDS o <= now - timestamp p ->
  l2Outputs (run txs o) !! k = Some p.
Proof.
  revert now o. induction txs as [|t txs IH]; intros now o Hi Hh Hk Hf; cbn [run foldl]; [done|]. inversion Hh as [|t' txs' Hn Hh']; subst.
  destruct (execute_finalized now t o k p Hi ltac:(lia) Hk Hf) as [Hk' Hper]. apply (IH (block_timestamp (tx_env t))); [by apply (execute_keeps now)|done|done|lia].
Qed.
End L2OO.
