(* ===== verification/Proposer.v ===== *)
(** * The proposer

    [op-proposer/proposer/l2_output_submitter.go]: the output root of every
    block that is a checkpoint goes to the output oracle on L1, once the block
    is final (or safe, when that is allowed). *)

From S2P Require Import Prelude Eth TxManager MipsContract CannonCall OutputOracle.

(** What the source reads of an [eth.SyncStatus] and an [eth.OutputResponse]. *)
Record SyncStatus := mkSyncStatus {
  st_CurrentL1 : L1BlockRef;
  st_HeadL1 : L1BlockRef;
  st_SafeL2 : L2BlockRef;
  st_FinalizedL2 : L2BlockRef;
}.

Record OutputResponse := mkOutputResponse {
  or_Version : Hash;
  or_OutputRoot : Hash;
  or_BlockRef : L2BlockRef;
  or_Status : SyncStatus;
}.

(** The transaction manager, the node and the contract as the proposer calls
    them. *)
Class TxSender (W : Type) := {
  txm_Send : TxCandidate -> stM W Receipt;
  txm_BlockNumber : stM W Z;
}.

Class RollupClient (W : Type) := {
  rcl_SyncStatus : stM W SyncStatus;
  rcl_OutputAtBlock : Z -> stM W OutputResponse;
}.

Class L2OutputOracleCaller (W : Type) := {
  ooc_NextBlockNumber : stM W Z;
}.

Record L2OutputSubmitter := mkL2OutputSubmitter {
  os_l2ooContractAddr : Address;
  os_allowNonFinalized : bool;
}.

Definition supportedL2OutputVersion : Hash := zeros 32.

Section Proposer.
Context {W : Type} {txMgr : TxSender W} {rollupClient : RollupClient W} {l2ooContract : L2OutputOracleCaller W}.
Variable proposeL2Output_selector : bytes.
Variable l : L2OutputSubmitter.

(** The output, when it should be proposed. *)
Definition fetchOutput (block : Z) : stM W (option OutputResponse) :=
  output ← rcl_OutputAtBlock (u64 block);
  if negb (bool_decide (or_Version output = supportedL2OutputVersion)) then throw (Errorf "unsupported l2 output version")
  else if negb (l2_Number (or_BlockRef output) =? u64 block) then throw (Errorf "invalid blockNumber")
  else if negb ((l2_Number (or_BlockRef output) <=? l2_Number (st_FinalizedL2 (or_Status output))) ||
                os_allowNonFinalized l && (l2_Number (or_BlockRef output) <=? l2_Number (st_SafeL2 (or_Status output)))) then mret None
  else mret (Some output).

Definition FetchNextOutputInfo : stM W (option OutputResponse) :=
  nextCheckpointBlock ← ooc_NextBlockNumber;
  status ← rcl_SyncStatus;
  let currentBlockNumber := if os_allowNonFinalized l then l2_Number (st_SafeL2 status) else l2_Number (st_FinalizedL2 status) in
  if currentBlockNumber <? nextCheckpointBlock then mret None else fetchOutput nextCheckpointBlock.

(** [abi.Pack] of the arguments: words. *)
Definition ProposeL2OutputTxData (output : OutputResponse) : bytes :=
  proposeL2Output_selector ++ or_OutputRoot output ++ put_be 32 (l2_Number (or_BlockRef output)) ++
  l1_Hash (st_CurrentL1 (or_Status output)) ++ put_be 32 (l1_Number (st_CurrentL1 (or_Status output))).

(** The proposer is stopped after so many ticks, at the latest. *)
Fixpoint wait_loop (ticks : nat) (blockNum l1head : Z) : stM W unit :=
  if l1head <=? blockNum then
    match ticks with
    | O => throw (Errorf "L2OutputSubmitter is done()")
    | S ticks => l1head ← txm_BlockNumber; wait_loop ticks blockNum l1head
    end
  else mret tt.

Definition waitForL1Head (ticks : nat) (blockNum : Z) : stM W unit :=
  l1head ← txm_BlockNumber;
  wait_loop ticks blockNum l1head.

Definition candidate (output : OutputResponse) : TxCandidate :=
  mkTxCandidate (ProposeL2OutputTxData output) (Some (os_l2ooContractAddr l)) 0 None.

Definition sendTransaction (ticks : nat) (output : OutputResponse) : stM W Receipt :=
  _ ← waitForL1Head ticks (l1_Number (st_HeadL1 (or_Status output)) +₆₄ 1);
  txm_Send (candidate output).

(** An iteration of [loop] on a tick: what was proposed. An error is logged. *)
Definition loop_tick (ticks : nat) : stM W (option (OutputResponse * Receipt)) :=
  output ← FetchNextOutputInfo;
  match output with
  | None => mret None
  | Some output => receipt ← sendTransaction ticks output; mret (Some (output, receipt))
  end.

(** ** What is proposed *)

(** The L1 head was seen beyond a block. *)
Definition head_seen (blockNum : Z) : Prop := exists (w w' : W) h, txm_BlockNumber w = (w', Ok h) /\ blockNum < h.

Lemma wait_seen ticks blockNum : forall l1head (w w' : W) u, (exists w0 w0' : W, txm_BlockNumber w0 = (w0', Ok l1head)) -> wait_loop ticks blockNum l1head w = (w', Ok u) -> head_seen blockNum.
Proof using.
  induction ticks as [|ticks IH]; intros l1head w w' u (w0 & w0' & H0) H; cbn [wait_loop] in H; destruct (Z.leb_spec l1head blockNum) as [Hle|Hle]; try done;
    try (by exists w0, w0', l1head). apply stM_bind_ok in H as (w1 & h & Hh & H). eapply IH; [|exact H]. by exists w, w1.
Qed.

(** A proposal: an output of the next checkpoint that the node has derived far
    enough. *)
Record proposable (output : OutputResponse) : Prop := {
  pr_version : or_Version output = supportedL2OutputVersion;
  pr_next : exists (w w' : W) next, ooc_NextBlockNumber w = (w', Ok next) /\ l2_Number (or_BlockRef output) = u64 next;
  pr_output : exists (w w' : W) k, rcl_OutputAtBlock k w = (w', Ok output);
  pr_ready : l2_Number (or_BlockRef output) <= l2_Number (st_FinalizedL2 (or_Status output)) \/
             os_allowNonFinalized l = true /\ l2_Number (or_BlockRef output) <= l2_Number (st_SafeL2 (or_Status output));
}.

Lemma fetch_proposable (w w' : W) output : FetchNextOutputInfo w = (w', Ok (Some output)) -> proposable output.
Proof using.
  unfold FetchNextOutputInfo. intros H. apply stM_bind_ok in H as (w1 & next & Hn & H). apply stM_bind_ok in H as (w2 & status & _ & H). cbv zeta in H.
  destruct (_ <? next); [done|]. unfold fetchOutput in H. apply stM_bind_ok in H as (w3 & o & Ho & H).
  case_bool_decide as Hv; [|done]. cbn [negb] in H. destruct (Z.eqb_spec (l2_Number (or_BlockRef o)) (u64 next)) as [Hb|]; [|done]. cbn [negb] in H.
  destruct (_ || _) eqn:Hr; [|done]. cbn [negb] in H. injection H as <- <-. split; [done|by exists w, w1, next|by exists w2, w3, (u64 next)|].
  apply orb_true_iff in Hr as [Hr|Hr]; [left; lia|right]. apply andb_true_iff in Hr as [Hr1 Hr2]. split; [done|lia].
Qed.

Lemma tick_sends ticks (w w' : W) output receipt : loop_tick ticks w = (w', Ok (Some (output, receipt))) ->
  proposable output /\ head_seen (l1_Number (st_HeadL1 (or_Status output)) +₆₄ 1) /\ exists w0 w1 : W, txm_Send (candidate output) w0 = (w1, Ok receipt).
Proof using.
  unfold loop_tick. intros H. apply stM_bind_ok in H as (w1 & [o|] & Hf & H); [|done]. apply fetch_proposable in Hf. apply stM_bind_ok in H as (w2 & r & Hs & H).
  injection H as <- <- <-. split; [done|]. unfold sendTransaction in Hs. apply stM_bind_ok in Hs as (w3 & u & Hw & Hs). split; [|by exists w3, w2].
  unfold waitForL1Head in Hw. apply stM_bind_ok in Hw as (w4 & h & Hh & Hw). eapply wait_seen; [|exact Hw]. by exists w1, w4.
Qed.

(** ** The contract accepts it *)

Context (selector : length proposeL2Output_selector = 4%nat).

Lemma proposal_words output env o : is_hash (or_OutputRoot output) -> is_hash (l1_Hash (st_CurrentL1 (or_Status output))) ->
  is_u64 (l2_Number (or_BlockRef output)) -> is_u64 (l1_Number (st_CurrentL1 (or_Status output))) ->
  L2OO.call_propose proposeL2Output_selector env (ProposeL2OutputTxData output) o =
  L2OO.proposeL2Output env (or_OutputRoot output) (l2_Number (or_BlockRef output)) (l1_Hash (st_CurrentL1 (or_Status output))) (l1_Number (st_CurrentL1 (or_Status output))) o.
Proof using selector.
  intros [Hr _] [Hh _] Hn Hn1. unfold L2OO.call_propose. set (cd := ProposeL2OutputTxData output). pose proof (seg_start cd) as Hs. unfold cd in Hs at 2. unfold ProposeL2OutputTxData in Hs.
  assert (H32 : forall h : bytes, length h = 32%nat -> blen h = 32) by (unfold blen; lia). assert (Hput : forall x, length (put_be 32 x) = 32%nat) by (intros x; apply length_put_be).
  assert (Hlen : blen cd = 132) by (unfold cd, ProposeL2OutputTxData, blen; rewrite !length_app, selector, Hr, Hh, !Hput; lia).
  assert (H4 : take 4 cd = proposeL2Output_selector) by (unfold cd, ProposeL2OutputTxData; by rewrite take_app_length'). clearbody cd.
  next_part Hs 4. 2: { unfold blen. rewrite selector. lia. }
  pose proof (seg_load _ _ _ (seg_head _ _ _ _ Hs) Hr) as Hroot. next_part Hs 36; [|rewrite H32 by done; lia].
  pose proof (seg_load _ _ _ (seg_head _ _ _ _ Hs) (Hput _)) as Hnum. next_part Hs 68; [|rewrite H32 by done; lia].
  pose proof (seg_load _ _ _ (seg_head _ _ _ _ Hs) Hh) as Hhash. next_part Hs 100; [|rewrite H32 by done; lia].
  pose proof (seg_load _ _ _ Hs (Hput _)) as Hl1. rewrite bool_decide_true by done. rewrite Hlen. unfold L2OO.require. change (4 + 32 * 4 <=? 132) with true. cbn [mbind res_bind].
  change (4 + 32 * 0) with 4. change (4 + 32 * 1) with 36. change (4 + 32 * 2) with 68. change (4 + 32 * 3) with 100. rewrite Hroot, Hnum, Hhash, Hl1.
  assert (Hword : forall x, is_u64 x -> get_be (put_be 32 x) = x) by (intros x Hx; apply get_put_be; unfold is_u64 in Hx; change (256 ^ Z.of_nat 32) with (2 ^ 64 * 2 ^ 192); nia).
  by rewrite !Hword.
Qed.

(** C36. What the proposer sends is a checkpoint that the contract takes: when an iteration of its loop ends with a receipt, it has sent the output of the block the contract asked for, final (or safe, where that is allowed) for the node that gave it and of the supported version, after the L1 head was seen more than a block above the head of that node; and the contract accepts the calldata as the next output, with that root, as long as nobody else has proposed, the time of the block has come and the L1 block of the proposal is still canonical. *)
Theorem proposal_accepted ticks (w w' : W) output receipt env o t : loop_tick ticks w = (w', Ok (Some (output, receipt))) ->
  is_hash (or_OutputRoot output) -> is_hash (l1_Hash (st_CurrentL1 (or_Status output))) -> is_u64 (l2_Number (or_BlockRef output)) -> is_u64 (l1_Number (st_CurrentL1 (or_Status output))) ->
  or_OutputRoot output <> zeros 32 -> L2OO.nextBlockNumber o = Ok (l2_Number (or_BlockRef output)) -> L2OO.msg_sender env = L2OO.proposer o ->
  L2OO.computeL2Timestamp (l2_Number (or_BlockRef output)) o = Ok t -> t < L2OO.block_timestamp env -> is_u64 (L2OO.block_timestamp env) ->
  L2OO.blockhash env (l1_Number (st_CurrentL1 (or_Status output))) = l1_Hash (st_CurrentL1 (or_Status output)) ->
  proposable output /\ head_seen (l1_Number (st_HeadL1 (or_Status output)) +₆₄ 1) /\
  exists c, (exists w0 w1 : W, txm_Send c w0 = (w1, Ok receipt)) /\ tc_To c = Some (os_l2ooContractAddr l) /\
    L2OO.call_propose proposeL2Output_selector env (tc_TxData c) o =
      Ok (L2OO.set_outputs (L2OO.l2Outputs o ++ [L2OO.mkOutputProposal (or_OutputRoot output) (L2OO.block_timestamp env) (l2_Number (or_BlockRef output))]) o).
Proof using selector.
  intros Htick Hr Hh Hn Hn1 Hnz Hnext Hsender Hts Ht Hbt Hbh. apply tick_sends in Htick as (Hp & Hseen & Hsent). split; [done|]. split; [done|]. exists (candidate output). split; [done|]. split; [done|].
  cbn [candidate tc_TxData]. rewrite proposal_words by done. unfold L2OO.proposeL2Output, L2OO.require. rewrite (bool_decide_true _ Hsender). cbn [mbind res_bind]. rewrite Hnext. cbn [mbind res_bind].
  rewrite Z.eqb_refl. cbn [mbind res_bind]. rewrite Hts. cbn [mbind res_bind]. destruct (Z.ltb_spec t (L2OO.block_timestamp env)); [|lia]. cbn [mbind res_bind]. rewrite (bool_decide_false _ Hnz). cbn [negb mbind res_bind].
  rewrite (bool_decide_true _ Hbh). unfold L2OO.uint128, is_u64 in *. rewrite !Z.mod_small by lia. by by destruct (negb _).
Qed.
End Proposer.
