(* ===== verification/ServicesExample.v ===== *)
(** * The transaction manager and the proposer on a small chain

    A chain whose state is the number of its head: it refuses what pays too
    little and gives a receipt once there are enough blocks. The hypotheses of
    the theorems about the transaction manager, the output oracle and the
    proposer hold of it. *)

From S2P Require Import Prelude Eth TxManager TxManagerSafety OutputOracle Proposer.

(** What it takes to get into the pool, and whether an estimate checks that
    the tip is not above the fee cap. *)
Definition pool_price : Z := 45.

Definition small_chain (strict : bool) : ETHBackend Z := {|
  be_BlockNumber := fun w => (w, Ok w);
  be_TransactionReceipt := fun h w => (w, if 5 <=? w then Ok (Some (mkReceipt 1 h 5)) else Err NotFound);
  be_SendTransaction := fun tx w => (w, if pool_price <=? tx_GasFeeCap tx then Ok tt else Err (Errorf "transaction underpriced"));
  be_HeaderByNumber := fun w => (w, Ok (Some 10));
  be_SuggestGasTipCap := fun w => (w, Ok (Some 20));
  be_NonceAt := fun _ w => (w, Ok 7);
  be_EstimateGas := fun msg w => (w, if strict && (cm_GasFeeCap msg <? cm_GasTipCap msg) then Err (Errorf "tip above fee cap") else Ok 21000);
  be_Signer := fun _ tx w => (w, Ok tx);
  be_now := fun w => 12 * w;
|}.

#[export] Instance small_geth : Geth := {|
  ge_Hash := fun tx => put_be 32 (tx_GasFeeCap tx);
  ge_Error := fun e => match e with Errorf msg => msg | _ => "" end;
  ErrNonceTooLow := "nonce too low";
  ErrCanceled := "context canceled";
  ErrAlreadyKnown := "already known";
  ErrReplaceUnderpriced := "replacement transaction underpriced";
  ErrUnderpriced := "transaction underpriced";
|}.

Definition small_cfg : Config := mkConfig false 48 5 (Some 1) 0 1000 10 12 3 4 false (zeros 20).

Lemma small_laws strict : chain_laws (ETHBackend0 := small_chain strict).
Proof. split; cbn; intros; simplify_eq; lia || done. Qed.

Definition small_tx : Transaction := mkTransaction 1 7 20 40 21000 None 0 [1; 2] [].

(** The first version and a second one are underpriced, a third gets in; it is
    mined and has its confirmations. *)
Definition small_events : list (event Z) := repeat Advance 8 ++ [Poll 0; Chain 6; Poll 0; Ticker; Chain 7; Poll 0; Received].

Definition small_start (strict : bool) : res (Sending Z) := start_sendTx (ETHBackend0 := small_chain strict) small_cfg small_tx 0.
Definition small_run (strict : bool) (evs : list (event Z)) : option (list Transaction * Sending Z) :=
  match small_start strict with
  | Ok s => sendTx_run (ETHBackend0 := small_chain strict) small_cfg evs s
  | Err _ => None
  end.

Example small_run_log : (fun r => (map tx_GasFeeCap r.1, sd_point r.2)) <$> small_run false small_events =
  Some ([40; 44; 48], Returned (Ok (mkReceipt 1 (put_be 32 48) 5))).
Proof. vm_compute. reflexivity. Qed.

Lemma sendTx_versions_witness : exists log s', small_run false small_events = Some (log, s') /\ length log = 3%nat /\
  Forall (fun b => fees_ok b /\ same_payload small_tx b) log /\ StronglySorted rises log.
Proof.
  assert (Hl : (fun r => length r.1) <$> small_run false small_events = Some 3%nat) by (vm_compute; reflexivity).
  destruct (small_run false small_events) as [[log s']|] eqn:Hr; [|discriminate]. unfold small_run in Hr. destruct (small_start false) as [s|] eqn:Hs; [|discriminate].
  destruct (sendTx_versions (ETHBackend0 := small_chain false) small_cfg (small_laws false) small_events small_tx 0 s s' log ltac:(done) Hs Hr) as [Hall Hrise].
  exists log, s'. split; [done|]. split; [cbn in Hl; congruence|]. split; [exact Hall|]. apply Hrise. cbn. intros. by eexists.
Defined.

Lemma sendTx_outcome_witness : exists log s', small_run false small_events = Some (log, s') /\ sd_point s' = Returned (Ok (mkReceipt 1 (put_be 32 48) 5)) /\
  confirmed (ETHBackend0 := small_chain false) small_cfg log (mkReceipt 1 (put_be 32 48) 5).
Proof.
  pose proof small_run_log as Hl. destruct (small_run false small_events) as [[log s']|] eqn:Hr; [|discriminate]. cbn in Hl. injection Hl as _ Hp.
  unfold small_run in Hr. destruct (small_start false) as [s|] eqn:Hs; [|discriminate].
  pose proof (sendTx_outcome (ETHBackend0 := small_chain false) small_cfg small_events small_tx 0 s s' log Hs Hr) as Ho. unfold over in Ho. rewrite Hp in Ho.
  exists log, s'. auto.
Defined.

Lemma fees_never_rise_witness : exists log s', small_run true (repeat Advance 3 ++ [Ticker; Advance; Ticker; Advance; Chain 9; Ticker]) = Some (log, s') /\ log = [small_tx] /\ sd_tx s' = small_tx.
Proof.
  set (evs := _ ++ _). assert (Hl : (fun r => length r.1) <$> small_run true evs = Some 1%nat) by (vm_compute; reflexivity).
  destruct (small_run true evs) as [[log s']|] eqn:Hr; [|discriminate]. unfold small_run in Hr. destruct (small_start true) as [s|] eqn:Hs; [|discriminate].
  assert (Hrefuses : forall msg (w : Z), cm_GasFeeCap msg < cm_GasTipCap msg -> exists w' e, be_EstimateGas (ETHBackend := small_chain true) msg w = (w', Err e)).
  { intros msg w Hm. cbn. destruct (Z.ltb_spec (cm_GasFeeCap msg) (cm_GasTipCap msg)); [|lia]. by eexists _, _. }
  assert (Hbase : forall (w w' : Z) b, be_HeaderByNumber (ETHBackend := small_chain true) w = (w', Ok (Some b)) -> 0 < b) by (cbn; intros; simplify_eq; lia).
  destruct (fees_never_rise (ETHBackend0 := small_chain true) small_cfg (small_laws true) Hrefuses Hbase evs small_tx 0 s s' log ltac:(done) Hs Hr) as [Hall Hend].
  exists log, s'. split; [done|]. split; [|exact Hend]. cbn in Hl. destruct log as [|tx [|]]; try discriminate. inversion Hall; subst. done.
Defined.

Lemma publish_ends_witness : exists s, small_start false = Ok s /\ selects_within (ETHBackend0 := small_chain false) small_cfg 483 s.
Proof.
  destruct (small_start false) as [s|] eqn:Hs; [|discriminate]. exists s. split; [done|]. assert (Htx : sd_tx s = small_tx /\ sd_point s = Checking) by (vm_compute in Hs; injection Hs as <-; done). destruct Htx as [Htx Hp].
  assert (Hmax : max_fee small_cfg 20 10 = 200) by (vm_compute; reflexivity).
  assert (Hsug : forall (w w' : Z) t b, suggestGasPriceCaps (ETHBackend0 := small_chain false) w = (w', Ok (t, b)) -> t <= 20 /\ b <= 10) by (intros w w' t b H; cbv in H; injection H as _ <- <-; lia).
  pose proof (publish_ends (ETHBackend0 := small_chain false) small_cfg (small_laws false) 20 10 Hsug ltac:(cbn; intros; by eexists) ltac:(done) s) as He.
  rewrite Htx, Hmax in He. exact (He ltac:(done) ltac:(cbn; lia) (or_introl Hp)).
Defined.

(** ** The output oracle and the proposer *)

Definition addr (k : Z) : Address := put_be 20 k.
Definition root_at (k : Z) : Hash := put_be 32 (k + 1).
Definition block_env (sender : Address) (t : Z) : L2OO.Env := L2OO.mkEnv sender t (fun k => put_be 32 (1000 + k)).

Definition small_history : list L2OO.tx :=
  [L2OO.Propose (block_env (addr 1) 1100) (root_at 15) 15 (zeros 32) 0; L2OO.Propose (block_env (addr 1) 1101) (root_at 25) 25 (put_be 32 1003) 3;
   L2OO.Delete (block_env (addr 9) 1102) 0; L2OO.Propose (block_env (addr 1) 1103) (root_at 35) 35 (zeros 32) 0].

Lemma oracle_checkpoints_witness : exists o0 o1 k p, L2OO.constructor 10 2 100 = Ok o0 /\ L2OO.initialize (block_env (addr 0) 1000) 5 900 (addr 1) (addr 2) o0 = Ok o1 /\
  L2OO.getL2OutputIndexAfter 20 (L2OO.run small_history o1) = Ok (Z.of_nat k) /\ L2OO.l2Outputs (L2OO.run small_history o1) !! k = Some p /\ 20 <= L2OO.l2BlockNumber p.
Proof.
  destruct (L2OO.constructor 10 2 100) as [o0|] eqn:H0; [|discriminate]. destruct (L2OO.initialize (block_env (addr 0) 1000) 5 900 (addr 1) (addr 2) o0) as [o1|] eqn:H1; [|vm_compute in H0; injection H0 as <-; discriminate].
  assert (Hh : L2OO.history 1000 small_history) by (repeat (constructor; [cbn; lia|]); constructor).
  destruct (L2OO.oracle_checkpoints (block_env (addr 0) 1000) 10 2 100 5 900 (addr 1) (addr 2) o0 o1 small_history H0 H1 ltac:(lia) ltac:(lia) Hh) as [_ Hafter].
  assert (Hlat : 20 <= L2OO.latestBlockNumber (L2OO.run small_history o1) /\ L2OO.l2Outputs (L2OO.run small_history o1) <> []).
  { vm_compute in H0. injection H0 as <-. vm_compute in H1. injection H1 as <-. vm_compute. done. }
  destruct (Hafter 20 (proj1 Hlat) (proj2 Hlat)) as (k & p & Hk & _ & Hp & Hge & _). exists o0, o1, k, p. auto.
Defined.

(** A node and a contract that agree; the state is the number of the L1 head. *)
#[export] Instance small_sender : TxSender Z := {| txm_Send := fun _ w => (w, Ok (mkReceipt 1 (zeros 32) w)); txm_BlockNumber := fun w => (w + 1, Ok w) |}.

Definition small_output (k : Z) : OutputResponse :=
  let l1 n := mkL1BlockRef (put_be 32 (1000 + n)) n (zeros 32) 0 in
  let l2 n := mkL2BlockRef (zeros 32) n (zeros 32) 0 (mkBlockID (zeros 32) 0) 0 in
  mkOutputResponse (zeros 32) (root_at k) (l2 k) (mkSyncStatus (l1 3) (l1 4) (l2 30) (l2 20)).

#[export] Instance small_rollup : RollupClient Z := {| rcl_SyncStatus := fun w => (w, Ok (or_Status (small_output 0))); rcl_OutputAtBlock := fun k w => (w, Ok (small_output k)) |}.
#[export] Instance small_caller : L2OutputOracleCaller Z := {| ooc_NextBlockNumber := fun w => (w, Ok 15) |}.

Definition small_selector : bytes := [154; 170; 182; 72].
Definition small_proposer : L2OutputSubmitter := mkL2OutputSubmitter (addr 7) false.
Definition small_oracle : L2OO.Oracle := L2OO.mkOracle 10 2 100 5 900 [] (addr 2) (addr 1).

Lemma proposal_accepted_witness : exists w' output receipt o', loop_tick small_selector small_proposer 9 3 = (w', Ok (Some (output, receipt))) /\
  L2OO.call_propose small_selector (block_env (addr 1) 1100) (tc_TxData (candidate small_selector small_proposer output)) small_oracle = Ok o' /\
  head_seen (W := Z) 5.
Proof.
  assert (Htick : loop_tick small_selector small_proposer 9 3 = (7, Ok (Some (small_output 15, mkReceipt 1 (zeros 32) 7)))) by (vm_compute; reflexivity).
  destruct (proposal_accepted small_selector small_proposer eq_refl 9 3 7 (small_output 15) (mkReceipt 1 (zeros 32) 7) (block_env (addr 1) 1100) small_oracle 920 Htick
              ltac:(vm_decide) ltac:(vm_decide) ltac:(done) ltac:(done) ltac:(vm_decide) ltac:(vm_compute; reflexivity) eq_refl ltac:(vm_compute; reflexivity) ltac:(done) ltac:(done) eq_refl)
    as (_ & Hseen & _). eexists 7, _, _, _. split; [exact Htick|]. split; [vm_compute; reflexivity|exact Hseen].
Defined.
